(* ===== verification/_CoqProject ===== *)
-Q . S2P
Prelude.v
Arch.v
Config.v
Kernel.v
Mutex.v
Semaphore.v
Cond.v
Event.v
Flag.v
Thread.v
Sched.v
Svc.v
Rules.v
Inv.v
InvOps.v
InvObj.v
Steps.v
SvcObj.v
SvcSync.v
SvcEvent.v
SvcThread.v
SvcTick.v
SvcInit.v
System.v
Spec.v
MutexSpec.v
SemSpec.v
Frame.v
MutexExcl.v
Demo.v
KernelThms.v
SvcThms.v
Findings.v
Bits.v
Crc.v
Number.v
Mbuf.v
MbufInv.v
MbufMoves.v
MbufOps.v
MbufQueue.v
MbufInit.v
MbufThms.v
Line.v
Xmodem.v
XmodemSnd.v
XmodemRcv.v
XmodemSafe.v
XmodemThms.v
Js.v
JsLl.v
JsLex.v
JsSym.v
JsSdt.v
JsLang.v
JsGen.v
JsVm.v
JsScope.v
JsRun.v
JsTab.v
JsAct.v
JsParse.v
JsComp.v
JsBlock.v
JsProg.v
JsText.v
JsGrammar.v
JsTerm.v
JsThms.v
Route.v
InChksum.v
Ip.v
Tcp.v
TcpSys.v
TcpSafe.v
TcpNet.v
TcpOut.v
TcpQueue.v
TcpLists.v
TcpCalls.v
