(* ===== verification/Prelude.v ===== *)
(** * The YARD-ICE software: a verification library

    YARD-ICE is a JTAG probe: an STM32 board with its own real-time kernel
    (ThinkOS), a small C library, a TCP/IP stack and the debugger on top. This
    library models the kernel, and the parts of the libraries below it whose
    logic is their own, as Gallina definitions that follow the C code function
    by function, and proves what makes them correct. Paths below are relative
    to [src/src/].

    ** How the C code is modelled

    [Prelude.v] has the machine integers (a C object of width [w] is a [Z], its
    wrap-around written out with [wrap], [u8], [u32], [s8], [s32]), the bits and
    arrays, and a state monad with failure, [M], in which the kernel is written
    in the order of its statements. A faulting access (outside of an array, a
    loop whose fuel ends) is [None]. [wp c Q s] is the total-correctness
    precondition: [c] ends in [s], without a fault, in a state that satisfies
    [Q]; the rules for it carry every proof about the kernel. A [lens] names a
    field of the state.

    ** ThinkOS ([sdk/libthinkos], [sdk/include/thinkos_sys.h])

    - [Arch.v]: the [clz] and [rbit] instructions, the kernel's only search.
    - [Config.v]: the configuration macros as the class [Config] (the theorems
      hold for every configuration that satisfies [ConfigOk], and most need
      [CoreConfig], the options the firmware's [config.h] turns off: time
      sharing, join, pause, cancel), the layout of the queues, return codes and
      service numbers; [default_config] is the header's, [yard_ice_config] the
      firmware's. Switches that are not in the class are as both have them: the
      allocators, the checks of arguments, the interrupt-side calls and timed
      waits are compiled in. Configurations of other boards that turn them off
      are not modelled.
    - [Kernel.v]: [struct thinkos_rt] field by field, the processor state the
      kernel touches ([machine]), the inline queue operations, allocation.
    - [Mutex.v], [Semaphore.v], [Cond.v], [Event.v], [Flag.v], [Thread.v]: one
      definition per service and per interrupt-side call, every branch of the
      source included, optional code under its configuration switch.
    - [Sched.v]: PendSV, SysTick and [thinkos_init]. [Svc.v]: the service that
      copies the run-time block to a buffer of the caller, on the layout of the
      block in memory, and the dispatcher, with every case of the switch.

    Proof infrastructure: [Rules.v] (rules for the operations), [Inv.v] (the
    invariant of the run-time block, a record per concern: shape, allocation
    bitmaps, queues and status, objects, interrupts, scheduler), [InvOps.v],
    [InvObj.v] and [Steps.v] (its preservation by the operations),
    [SvcObj.v], [SvcSync.v], [SvcEvent.v], [SvcThread.v], [SvcTick.v],
    [SvcInit.v] (by the services, the tick and the start), [System.v] (the
    transition system: thread code, services, PendSV, SysTick, interrupt
    handlers in any order the hardware allows, and reachability).

    What the callers do is a parameter of the transition system, the class
    [Discipline] of [Inv.v]. With [any_caller] a thread may call any service
    with any arguments. With [polite_callers] no thread frees an object, or sets
    a semaphore to a positive value, while threads wait for it: the kernel does
    not check this, and forgets those threads ([sem_init_loses_wakeup] and
    [free_strands_waiter] of [Findings.v]). Only the reasons for waiting, [OInv]
    and [blocked_with_reason], need polite callers; every other theorem about
    reachable states holds for both. The memory a thread's pointers reach (its
    frame, the stack of a new thread, the buffer of a snapshot) is a map apart
    from the run-time block: a thread that passes an address inside the kernel
    is not modelled.

    Specifications: [Spec.v] (queues as sets, the effects a service can have),
    [MutexSpec.v] and [SemSpec.v] (abstract mutex and semaphore and the
    refinement proofs), [Frame.v] and [MutexExcl.v] (what leaves the owners of
    the mutexes alone). [Demo.v] has concrete reachable states of the firmware's
    configuration; the theorems are applied there.

    - [KernelThms.v]: no fault, no lost wake-up for polite
      callers, strict priorities, every thread
      in one place, mutual exclusion, the tick, sleeping, the context switch
      and the start.
    - [SvcThms.v]: mutexes and semaphores refine their specifications,
      allocation, error results, interrupts, thread creation, the snapshot.
    - [Findings.v]: executions in which the code does not do what it means to.

    Bounds and fuel: a thread set is one 32-bit word, so [clock_scan] and the
    wake-up loops visit at most 32 threads and get fuel 33; that this is enough
    is part of [kernel_never_faults].

    ** Libraries

    - [Bits.v]: [sdk/libutil] and [ffs]: square root, logarithm, byte swapping,
      the de Bruijn tables against the [clz] search.
    - [Crc.v]: [sdk/libcrc]: every table and bit-expression implementation
      against the bitwise CRC, and what a CRC-16 detects.
    - [Number.v]: [sdk/libc] number printing and scanning, with the round trips.
    - [Mbuf.v]: [sdk/libtcpip/mbuf], the pool of packet buffers and the byte
      queues over it, the memory as maps from addresses so that the links and
      their aliasing are the code's. [MbufInv.v] says what the memory represents
      (chains, owners, byte streams), [MbufMoves.v] has the changes of that
      structure, [MbufOps.v], [MbufQueue.v] and [MbufInit.v] the operations,
      [MbufThms.v] the abstract pool and the properties. Loops over a chain get
      the pool's size as fuel and loops over bytes the number of bytes; that this
      is enough is part of [mbuf_refines].

    - [Line.v] and [Xmodem.v]: [sdk/libxmodem], sender and receiver as
      interaction trees over the [send] and [recv] of their [comm_dev], which are
      events: any device is allowed. [Line.v] has the two readings of such trees:
      the finite exchanges of one program with an arbitrary partner, and all
      executions of two programs connected back to back. [XmodemSnd.v] and
      [XmodemRcv.v] are what each side does, [XmodemSafe.v] what the receiver
      accepts, [XmodemThms.v] transfers, acceptance, termination on a dead line
      and the flaw of retransmission.

    ** Networking ([sdk/libtcpip])

    - [Route.v]: [ip_route.c], the routing table. [InChksum.v]: [in_chksum.c].
      [Ip.v]: [ip.c] (headers, the tests on input, sending over a route) and
      [arp/etharp.c] (the table, requests and replies). What the drivers of the
      interfaces answer comes from a list in the state, what they send is kept
      in another.
    - [Tcp.v]: the control block of a connection ([include/sys/tcp.h]) and all
      that is done to it: [tcp_output] and [tcp_keepalive], [tcp_input] for a
      segment of the connection (from the active block on, every label of the
      code a definition), the loops of [tcp_recv] and [tcp_send], [tcp_close],
      the three timers and the output of the timer task. The receive queue
      and the send queue are byte strings with a count of free buffers
      ([mqueue]), and the calls on them say what the packet buffers promise; they
      are not translations of [mbuf_queue_*.c]. [Mbuf.v] has those, and
      [TcpQueue.v] runs both beside each other: whatever calls TCP makes, the
      code on the memory gives the same results as the byte strings.
    - [TcpSafe.v]: the invariant of both halves of a connection, and that every
      operation keeps it. [TcpNet.v]: two such blocks and a network that may
      lose, repeat and reorder segments; the theorem [stream_in_order].
    - [TcpOut.v]: [tcp_output] ends, and when it does not; an attempt to connect
      that an unknown hardware address spoils.

    - [TcpSys.v]: all blocks, their lists ([pcb/in_pcb.c]), the queue for output,
      and the calls from [tcp_init] to [tcp_abort], the whole of [tcp_input] and
      the rounds of the timer task. A call that waits is a function for each
      round of its loop. A failed wait for a semaphore is a parameter of the
      accepting calls. The fields of a listening block that lie over those of a
      connection in memory are fields of their own. [TcpLists.v]: every block is
      in one list and has a state of that list, whatever is called in any order,
      as long as the calls are [proper]: [tcp_listen] is not called on a block
      that was given back (it would take it: [listen_on_freed]), and a call gets
      a block of its kind. [TcpCalls.v]: the
      backlog as a queue, the choice of a port, and runs that show flaws.

    [pw] and [tw] are the partial and the total correctness of the monad's
    programs. The rounds of [tcp_output] get the length of a send queue and two
    as fuel; that this is enough is [tcp_output_ends]. [tcp_bind] tries 17 ports
    for eight blocks, which [bind_gives_port] shows to be enough.
    [stream_in_order] asks that fewer than 2^31 bytes are written, which a wrong
    acknowledgement of a repeated segment could otherwise hit; it starts from two
    established blocks. [in_chksum_rfc1071] is about blocks below 64 KiB and
    sums below 2^20 to begin with, where 32 bits lose no carry; [header_accepted]
    about a protocol, a time to live and a type of service of a byte each (the
    words of [iph_template] carry into their neighbours otherwise);
    [etharp_learns] about tables without two entries for the packet's addresses.

    ** MicroJS ([sdk/libmicrojs])

    A script language for the boards: a scanner, a table-driven LL(1) parser
    whose actions write byte code, and a machine that runs it.

    - The code: [Js.v] ([microjs_vm.c]), [JsLl.v] (the generated tables and the
      search in them), [JsLex.v], [JsSym.v] (symbols, library lookup, the string
      pool), [JsSdt.v] (every action, the parser, and [js_build], the calls that
      [js] of [test/slcdev-sim/shell.c] makes to compile).
    - What programs mean: [JsLang.v], the syntax of a part of the language (all
      operators, variables and scopes, calls of functions, [if], [while], [for],
      [throw]), its tokens and a big-step meaning with 32-bit integers, the
      application's functions and exceptions; [JsGen.v], the code for it as a
      function of the syntax.
    - The machine runs that code as the program means: [JsVm.v] (an instruction
      at a time), [JsScope.v] (variables and stack needs), [JsRun.v] (simulation).
    - The compiler writes that code: [JsTab.v], [JsAct.v] (what each action does),
      [JsParse.v], [JsComp.v], [JsBlock.v], [JsProg.v] (expressions, statements,
      blocks and loops, programs, [js_build]); [JsText.v] (printing and scanning).
    - Any text: [JsGrammar.v] (the grammar of [microjs.gr], its FIRST and FOLLOW,
      the tables against them, derivations), [JsTerm.v] (the compiler ends).
    - [JsThms.v]: from the text of a program to its effects, the parser, and the
      flaws the model shows.

    The meaning gets fuel for loops; [text_runs] is about programs whose meaning
    with some fuel is a result, and gives the machine's result and the steps that
    are enough. The scanner's fuel is the length of the text, the parser's rounds
    are bounded in [compile_terminates]. The theorems ask for room in the tables,
    the code buffer, the stack and the jumps' operands ([room]). Objects of the
    library with attributes, arrays, strings and [try] are modelled in the
    compiler and the machine, and covered by [compile_terminates] and
    [compiled_is_sentence], but have no meaning in [JsLang.v]: the folding of
    constants across attributes and the frames that [try] leaves do not allow the
    obvious one.
    A parser's stack without room is overrun before it is tested: [run_over]
    writes the production over the last fields of [struct microjs_sdt], at their
    places where pointers have four bytes ([stack_runs_over]); the theorems ask
    for room. The stack's own bytes there, once the pointer is saved over them,
    and a buffer without room for the two symbols of the start are not modelled.

    ** Not modelled

    A kernel entry is one atomic step: the preemption of a service by an
    interrupt handler in between its instructions is not modelled, nor are the
    memory barriers, exception priorities, fault handlers, the fill of the
    exception stack and the snapshot words of the idle context. The optional
    services (time sharing, join, pause, cancel) are modelled and executed in
    [Findings.v], but the invariant is proved for the core configuration. The
    user-side wrappers of [thinkos_svc.h] are register moves around an [svc].
    Device drivers ([sdk/libdrv], [sdk/libstm32f], [sdk/libcdc-acm]), the FPGA
    and ARM debug drivers under [yard-ice/], shells and consoles are mostly
    input and output on hardware registers. Of MicroJS, the JSON decoder and the
    functions of its sample library are left out, and the messages for errors.
    Of [sdk/libtcpip], the lock of the network, UDP, ICMP, DHCP and the drivers
    are left out; so are [sdk/libhttpd], [sdk/libbacnet] and formatted output. *)

From stdpp Require Export base list numbers gmap tactics option.
From Stdlib Require Export ZArith Lia.

Open Scope Z_scope.
Ltac Zify.zify_post_hook ::= Z.to_euclidean_division_equations.

(** ** Machine integers

    A C object of width [w] is kept as the [Z] in [0, 2^w) it is stored as;
    the signed readings are the two's complement ones. *)

Definition wrap (w x : Z) : Z := x `mod` 2 ^ w.
Definition u8 (x : Z) : Z := wrap 8 x.
Definition u16 (x : Z) : Z := wrap 16 x.
Definition u32 (x : Z) : Z := wrap 32 x.
Definition swrap (w x : Z) : Z :=
  let y := wrap w x in if y <? 2 ^ (w - 1) then y else y - 2 ^ w.
Definition s8 (x : Z) : Z := swrap 8 x.
Definition s32 (x : Z) : Z := swrap 32 x.

Lemma wrap_bound w x : 0 <= w -> 0 <= wrap w x < 2 ^ w.
Proof. intros. unfold wrap. apply Z.mod_pos_bound. lia. Qed.

Lemma wrap_small w x : 0 <= x < 2 ^ w -> wrap w x = x.
Proof. unfold wrap. apply Z.mod_small. Qed.

Lemma u32_bound x : 0 <= u32 x < 2 ^ 32.
Proof. by apply wrap_bound. Qed.

Lemma u32_small x : 0 <= x < 2 ^ 32 -> u32 x = x.
Proof. by apply wrap_small. Qed.

Lemma u8_bound x : 0 <= u8 x < 2 ^ 8.
Proof. by apply wrap_bound. Qed.

Lemma u16_bound x : 0 <= u16 x < 2 ^ 16.
Proof. by apply wrap_bound. Qed.

Lemma u16_small x : 0 <= x < 2 ^ 16 -> u16 x = x.
Proof. by apply wrap_small. Qed.

Lemma u8_small x : 0 <= x < 2 ^ 8 -> u8 x = x.
Proof. by apply wrap_small. Qed.

Lemma u32_idem x : u32 (u32 x) = u32 x.
Proof. apply u32_small, u32_bound. Qed.

Lemma s32_small x : - 2 ^ 31 <= x < 2 ^ 31 -> s32 x = x.
Proof.
  intros H. unfold s32, swrap, wrap. change (32 - 1) with 31.
  destruct (Z_lt_le_dec x 0).
  - rewrite <-(Z_mod_plus_full x 1 (2 ^ 32)), Z.mod_small by lia.
    destruct (Z.ltb_spec (x + 1 * 2 ^ 32) (2 ^ 31)); lia.
  - rewrite Z.mod_small by lia. destruct (Z.ltb_spec x (2 ^ 31)); lia.
Qed.

Lemma s32_u32 x : s32 (u32 x) = s32 x.
Proof. unfold s32, swrap. change (wrap 32 (u32 x)) with (u32 (u32 x)). by rewrite u32_idem. Qed.

(** The difference of two wrapped counters read as a signed number is the true
    difference as long as that one is short of half the counter's range. *)
Lemma s32_sub_u32 a b : s32 (u32 a - u32 b) = s32 (a - b).
Proof.
  unfold s32, swrap, u32, wrap. by rewrite <-Zminus_mod.
Qed.

(** ** Single bits *)

Definition bit_upd (w i : Z) (v : bool) : Z := if v then Z.setbit w i else Z.clearbit w i.

Lemma bit_upd_spec w i v j :
  0 <= i -> Z.testbit (bit_upd w i v) j = if decide (i = j) then v else Z.testbit w j.
Proof.
  intros Hi. destruct v; simpl.
  - rewrite Z.setbit_eqb by done. destruct (decide (i = j)) as [->|Hne].
    + by rewrite Z.eqb_refl.
    + by rewrite (proj2 (Z.eqb_neq i j)).
  - rewrite Z.clearbit_eqb. destruct (decide (i = j)) as [->|Hne].
    + by rewrite Z.eqb_refl, andb_false_r.
    + by rewrite (proj2 (Z.eqb_neq i j)), andb_true_r.
Qed.

Lemma bits_bound w n : 0 <= n -> 0 <= w ->
  (forall i, n <= i -> Z.testbit w i = false) -> w < 2 ^ n.
Proof.
  intros Hn Hw H. destruct (Z.eq_dec w 0) as [->|Hnz]; [lia|].
  apply Z.log2_lt_pow2; [lia|].
  destruct (Z_lt_le_dec (Z.log2 w) n) as [|Hge]; [done|].
  specialize (H _ Hge). rewrite (Z.bit_log2 w) in H by lia. congruence.
Qed.

Lemma testbit_high w n i : 0 <= n -> 0 <= w < 2 ^ n -> n <= i -> Z.testbit w i = false.
Proof.
  intros Hn Hw Hi. destruct (Z.eq_dec w 0) as [->|]; [apply Z.bits_0|].
  apply Z.bits_above_log2; [lia|].
  apply Z.lt_le_trans with n; [|done]. apply Z.log2_lt_pow2; lia.
Qed.

Lemma bit_upd_nonneg w i v : 0 <= w -> 0 <= bit_upd w i v.
Proof.
  intros Hw. destruct v; simpl.
  - unfold Z.setbit. apply Z.lor_nonneg. split; [done|]. by apply Z.shiftl_nonneg.
  - unfold Z.clearbit. apply Z.ldiff_nonneg. by left.
Qed.

Lemma bit_upd_bound w i v n : 0 <= i < n -> 0 <= w < 2 ^ n -> 0 <= bit_upd w i v < 2 ^ n.
Proof.
  intros Hi Hw. assert (0 <= bit_upd w i v) by (apply bit_upd_nonneg; lia).
  split; [done|]. apply bits_bound; [lia|done|].
  intros j Hj. rewrite bit_upd_spec by lia. rewrite decide_False by lia.
  apply (testbit_high w n); lia.
Qed.

Lemma zero_no_bits w : 0 <= w -> (forall i, 0 <= i -> Z.testbit w i = false) -> w = 0.
Proof. intros Hw H. apply Z.bits_inj'. intros i Hi. rewrite Z.bits_0. by apply H. Qed.

(** ** C arrays

    A C array is a list; [zget]/[zset] index it with a C integer. The total
    [zget] returns 0 outside the array: it is used in statements only, the
    code's own accesses go through the checked [arr_rd]/[arr_wr] below. *)

Definition zlen {A} (l : list A) : Z := Z.of_nat (length l).
Definition zget (l : list Z) (i : Z) : Z := if i <? 0 then 0 else default 0 (l !! Z.to_nat i).
Definition zset (l : list Z) (i v : Z) : list Z := <[Z.to_nat i := v]> l.

Lemma zlen_zset l i v : zlen (zset l i v) = zlen l.
Proof. unfold zlen, zset. by rewrite length_insert. Qed.

Lemma zget_zset l i v j :
  0 <= i < zlen l -> zget (zset l i v) j = if decide (i = j) then v else zget l j.
Proof.
  unfold zlen, zget, zset. intros Hi. destruct (Z.ltb_spec j 0).
  { by rewrite decide_False by lia. }
  destruct (decide (i = j)) as [->|Hne].
  - rewrite list_lookup_insert_eq by lia. done.
  - by rewrite list_lookup_insert_ne by lia.
Qed.

Lemma zget_zset_eq l i v : 0 <= i < zlen l -> zget (zset l i v) i = v.
Proof. intros. rewrite zget_zset by done. by rewrite decide_True. Qed.

Lemma zget_zset_ne l i v j : i <> j -> 0 <= i -> zget (zset l i v) j = zget l j.
Proof.
  unfold zget, zset. intros Hne Hi. destruct (Z.ltb_spec j 0); [done|].
  by rewrite list_lookup_insert_ne by lia.
Qed.

Lemma zget_lookup l i v : 0 <= i -> l !! Z.to_nat i = Some v -> zget l i = v.
Proof. unfold zget. intros Hi Hl. destruct (Z.ltb_spec i 0); [lia|]. by rewrite Hl. Qed.

Lemma lookup_zget l i : 0 <= i < zlen l -> l !! Z.to_nat i = Some (zget l i).
Proof.
  unfold zlen, zget. intros Hi. destruct (Z.ltb_spec i 0); [lia|].
  destruct (lookup_lt_is_Some_2 l (Z.to_nat i)) as [v Hv]; [lia|]. by rewrite Hv.
Qed.

Lemma zget_replicate n v i : 0 <= i < n -> zget (replicate (Z.to_nat n) v) i = v.
Proof.
  intros Hi. unfold zget. destruct (Z.ltb_spec i 0); [lia|].
  rewrite lookup_replicate_2 by lia. done.
Qed.

Lemma zlen_replicate n v : 0 <= n -> zlen (replicate (Z.to_nat n) (v : Z)) = n.
Proof. intros. unfold zlen. rewrite length_replicate. lia. Qed.

Lemma zlen_app {A} (l l' : list A) : zlen (l ++ l') = zlen l + zlen l'.
Proof. unfold zlen. rewrite length_app. lia. Qed.
Lemma zlen_cons {A} (x : A) l : zlen (x :: l) = zlen l + 1.
Proof. unfold zlen. simpl. lia. Qed.
Lemma zlen_single {A} (x : A) : zlen [x] = 1.
Proof. done. Qed.
Lemma zlen_nonneg {A} (l : list A) : 0 <= zlen l.
Proof. unfold zlen. lia. Qed.
Lemma zlen_take {A} n (l : list A) : 0 <= n <= zlen l -> zlen (take (Z.to_nat n) l) = n.
Proof. unfold zlen. rewrite length_take. lia. Qed.
Lemma zlen_drop {A} n (l : list A) : 0 <= n <= zlen l -> zlen (drop (Z.to_nat n) l) = zlen l - n.
Proof. unfold zlen. rewrite length_drop. lia. Qed.
Lemma zlen_zero {A} (l : list A) : zlen l = 0 -> l = [].
Proof. destruct l; [done|]. rewrite zlen_cons. pose proof (zlen_nonneg l). lia. Qed.

(** [memcpy] of [src] to offset [o] of a block. *)
Definition patch (o : Z) (src blk : list Z) : list Z :=
  take (Z.to_nat o) blk ++ src ++ drop (Z.to_nat o + length src) blk.

Lemma patch_size o src blk : 0 <= o -> o + zlen src <= zlen blk -> zlen (patch o src blk) = zlen blk.
Proof.
  intros. unfold patch, zlen in *. rewrite !length_app, length_take, length_drop. lia.
Qed.

(** Two splits of one list, the second later by [j]. *)
Lemma app_split {A} (a b c e : list A) j :
  a ++ b = c ++ e -> 0 <= j -> zlen c = zlen a + j ->
  c = a ++ take (Z.to_nat j) b /\ e = drop (Z.to_nat j) b.
Proof.
  intros E Hj Hc. unfold zlen in Hc.
  assert (E1 : take (length c) (a ++ b) = c) by (by rewrite E, take_app_length).
  assert (E2 : drop (length c) (a ++ b) = e) by (by rewrite E, drop_app_length).
  replace (length c) with (length a + Z.to_nat j)%nat in E1, E2 by lia.
  by rewrite take_app_add in E1; rewrite drop_app_add in E2.
Qed.

(** An array of 32-bit words as a bit array starting at word [base]: the view
    the bit-band region gives of it. *)
Definition bget (l : list Z) (base b : Z) : bool := Z.testbit (zget l (base + b / 32)) (b mod 32).
Definition bset (l : list Z) (base b : Z) (v : bool) : list Z :=
  zset l (base + b / 32) (bit_upd (zget l (base + b / 32)) (b mod 32) v).

Lemma zlen_bset l base b v : zlen (bset l base b v) = zlen l.
Proof. apply zlen_zset. Qed.

Lemma bget_bset l base b v base' b' :
  0 <= base + b / 32 < zlen l ->
  bget (bset l base b v) base' b' =
  if decide (base + b / 32 = base' + b' / 32 /\ b mod 32 = b' mod 32) then v else bget l base' b'.
Proof.
  intros Hr. unfold bget, bset. rewrite zget_zset by done.
  destruct (decide (base + b / 32 = base' + b' / 32)) as [E|E].
  - rewrite bit_upd_spec by lia. rewrite E.
    destruct (decide (b mod 32 = b' mod 32)); [rewrite decide_True by done|rewrite decide_False by tauto]; done.
  - by rewrite decide_False by tauto.
Qed.

Lemma bit_upd_twice w i v v' : 0 <= i -> bit_upd (bit_upd w i v) i v' = bit_upd w i v'.
Proof.
  intros Hi. apply Z.bits_inj'. intros j _. rewrite !bit_upd_spec by done. by destruct (decide (i = j)).
Qed.

Lemma bset_twice l base b v v' :
  0 <= base + b / 32 < zlen l -> bset (bset l base b v) base b v' = bset l base b v'.
Proof.
  intros Hr. unfold bset. rewrite zget_zset_eq by done. rewrite bit_upd_twice by lia.
  unfold zset. by rewrite list_insert_insert_eq.
Qed.

(** Within one word. *)
Lemma bget_bset_word l q b v q' b' :
  0 <= q < zlen l -> 0 <= b < 32 -> 0 <= b' < 32 ->
  bget (bset l q b v) q' b' = if decide (q = q' /\ b = b') then v else bget l q' b'.
Proof.
  intros Hq Hb Hb'. rewrite bget_bset by lia.
  destruct (decide (q = q' /\ b = b')) as [[-> ->]|H].
  - by rewrite decide_True.
  - by rewrite decide_False by lia.
Qed.

(** From the base of the array. *)
Lemma bget_bset_base l b v b' :
  0 <= b < 32 * zlen l ->
  bget (bset l 0 b v) 0 b' = if decide (b = b') then v else bget l 0 b'.
Proof.
  intros Hb. rewrite bget_bset by lia.
  destruct (decide (b = b')) as [->|H].
  - by rewrite decide_True.
  - by rewrite decide_False by lia.
Qed.

(** Every word of the array is a [uint32_t]. *)
Definition words_ok (l : list Z) : Prop := forall i, 0 <= zget l i < 2 ^ 32.

Lemma words_ok_bset l q b v : 0 <= q + b / 32 < zlen l -> words_ok l -> words_ok (bset l q b v).
Proof.
  intros Hq Hl i. unfold bset. rewrite zget_zset by done.
  destruct (decide _); [|apply Hl]. apply bit_upd_bound; [lia|]. apply Hl.
Qed.

Lemma words_ok_zset l i v : 0 <= i < zlen l -> 0 <= v < 2 ^ 32 -> words_ok l -> words_ok (zset l i v).
Proof. intros Hi Hv Hl j. rewrite zget_zset by done. destruct (decide _); [done|apply Hl]. Qed.

(** ** Fields of a record

    A field is a getter with a setter; the setters are built from the
    projections by [mk_set] below. *)
Record lens (S A : Type) := Lens { lget : S -> A; lset : A -> S -> S }.
Arguments Lens {S A}. Arguments lget {S A}. Arguments lset {S A}.

Definition lens_comp {S T A} (f : lens S T) (g : lens T A) : lens S A :=
  Lens (fun s => lget g (lget f s)) (fun v s => lset f (lset g v (lget f s)) s).

(** [mk_set eta p]: the function that replaces the field [p] of a record, [eta]
    being the record rebuilt from its projections. *)
Ltac mk_set eta p :=
  let v := fresh "v" in let s := fresh "s" in
  intros v s;
  let t := eval cbv beta delta [eta] in (eta s) in
  lazymatch (eval pattern (p s) in t) with
  | ?g _ => let r := eval cbv beta in (g v) in exact r
  end.

(** ** The monad of the C code

    A computation takes the state to a result and a new state, or to [None]
    when the C code would index outside an object or when a loop bound is
    exhausted. The theorems show [None] does not occur. *)
Definition M (S A : Type) : Type := S -> option (A * S).

Section monad.
Context {S : Type}.

Definition ret {A} (a : A) : M S A := fun s => Some (a, s).
Definition bind {A B} (c : M S A) (k : A -> M S B) : M S B :=
  fun s => match c s with Some (a, s') => k a s' | None => None end.
Definition fault {A} : M S A := fun _ => None.
Definition get {A} (f : lens S A) : M S A := fun s => Some (lget f s, s).
Definition put {A} (f : lens S A) (v : A) : M S unit := fun s => Some (tt, lset f v s).
Definition when (b : bool) (c : M S unit) : M S unit := if b then c else ret tt.

(** Checked array accesses. *)
Definition arr_rd (f : lens S (list Z)) (i : Z) : M S Z :=
  fun s => if (0 <=? i) && (i <? zlen (lget f s)) then Some (zget (lget f s) i, s) else None.
Definition arr_wr (f : lens S (list Z)) (i v : Z) : M S unit :=
  fun s => if (0 <=? i) && (i <? zlen (lget f s)) then Some (tt, lset f (zset (lget f s) i v) s) else None.

(** [for (i = 0; i < n; ++i) body(i)], from [i] on. *)
Fixpoint for_from (n : nat) (i : Z) (body : Z -> M S unit) : M S unit :=
  match n with
  | O => ret tt
  | Datatypes.S n' => bind (body i) (fun _ => for_from n' (i + 1) body)
  end.
Definition for_ (n : Z) (body : Z -> M S unit) : M S unit := for_from (Z.to_nat n) 0 body.
End monad.

Declare Scope c_scope.
Delimit Scope c_scope with c.
Notation "x <- c ;; k" := (bind c (fun x => k))
  (at level 100, c at next level, right associativity, only parsing) : c_scope.
Notation "c ;;; k" := (bind c (fun _ => k))
  (at level 100, k at level 100, right associativity, only parsing) : c_scope.
Open Scope c_scope.

(** ** Weakest preconditions

    [wp c Q s]: from [s], [c] ends without a fault, in a result and a state
    that satisfy [Q]. *)
Definition wp {S A} (c : M S A) (Q : A -> S -> Prop) (s : S) : Prop :=
  match c s with Some (a, s') => Q a s' | None => False end.

Section wp.
Context {S : Type}.
Implicit Types (s : S).

Lemma wp_ret {A} (a : A) Q s : Q a s -> wp (ret a) Q s.
Proof. done. Qed.

Lemma wp_bind {A B} (c : M S A) (k : A -> M S B) Q s :
  wp c (fun a => wp (k a) Q) s -> wp (bind c k) Q s.
Proof. unfold wp, bind. by destruct (c s) as [[a s']|]. Qed.

Lemma wp_get {A} (f : lens S A) Q s : Q (lget f s) s -> wp (get f) Q s.
Proof. done. Qed.

Lemma wp_put {A} (f : lens S A) v Q s : Q tt (lset f v s) -> wp (put f v) Q s.
Proof. done. Qed.

Lemma wp_arr_rd f i Q s :
  0 <= i < zlen (lget f s) -> Q (zget (lget f s) i) s -> wp (arr_rd f i) Q s.
Proof.
  intros Hi HQ. unfold wp, arr_rd.
  by rewrite (proj2 (Z.leb_le _ _)), (proj2 (Z.ltb_lt _ _)) by lia.
Qed.

Lemma wp_arr_wr f i v Q s :
  0 <= i < zlen (lget f s) -> Q tt (lset f (zset (lget f s) i v) s) -> wp (arr_wr f i v) Q s.
Proof.
  intros Hi HQ. unfold wp, arr_wr.
  by rewrite (proj2 (Z.leb_le _ _)), (proj2 (Z.ltb_lt _ _)) by lia.
Qed.

Lemma wp_when (b : bool) c Q s :
  (b = true -> wp c Q s) -> (b = false -> Q tt s) -> wp (when b c) Q s.
Proof. destruct b; [intros H _; by apply H|intros _ H; by apply H]. Qed.

Lemma wp_mono {A} (c : M S A) (Q Q' : A -> S -> Prop) s :
  wp c Q s -> (forall a s', Q a s' -> Q' a s') -> wp c Q' s.
Proof. unfold wp. destruct (c s) as [[a s']|]; [eauto|done]. Qed.

(** A bounded loop keeps an invariant indexed by the counter. *)
Lemma wp_for_from n i body (I : Z -> S -> Prop) s :
  I i s ->
  (forall j s', i <= j < i + Z.of_nat n -> I j s' -> wp (body j) (fun _ => I (j + 1)) s') ->
  wp (for_from n i body) (fun _ => I (i + Z.of_nat n)) s.
Proof.
  revert i s. induction n as [|n IH]; intros i s H0 Hstep; simpl.
  - apply wp_ret. by rewrite Z.add_0_r.
  - apply wp_bind. eapply wp_mono; [apply Hstep; [lia|done]|]. intros [] s' H1.
    replace (i + Z.of_nat (Datatypes.S n)) with ((i + 1) + Z.of_nat n) by lia.
    apply IH; [done|]. intros j s'' Hj. apply Hstep. lia.
Qed.

Lemma wp_for n body (I : Z -> S -> Prop) s :
  0 <= n -> I 0 s ->
  (forall j s', 0 <= j < n -> I j s' -> wp (body j) (fun _ => I (j + 1)) s') ->
  wp (for_ n body) (fun _ => I n) s.
Proof.
  intros Hn H0 Hstep. unfold for_.
  eapply wp_mono; [apply (wp_for_from (Z.to_nat n) 0 body I s H0)|].
  - intros j s' Hj. apply Hstep. lia.
  - intros [] s'. simpl. by rewrite Z2Nat.id, ?Z.add_0_l by done.
Qed.

Lemma wp_some {A} (c : M S A) Q s : wp c Q s -> exists a s', c s = Some (a, s') /\ Q a s'.
Proof. unfold wp. destruct (c s) as [[a s']|]; [eauto|done]. Qed.

Lemma wp_run {A} (c : M S A) Q s a s' : wp c Q s -> c s = Some (a, s') -> Q a s'.
Proof. unfold wp. intros W E. by rewrite E in W. Qed.
End wp.
