(* ===== verification/Arch.v ===== *)
(** * The Cortex-M3 intrinsics the kernel is written with

    [sdk/include/arch/cortex-m3.h]: the [clz] and [rbit] instructions, the only
    way the kernel searches a wait queue: [__clz(__rbit(w))] is the index of
    the lowest set bit of the 32-bit word [w], and 32 when there is none. *)

From S2P Require Import Prelude.

(** [clz]: leading zeros of a 32-bit word, from bit [n - 1] down. *)
Fixpoint clz_bits (n : nat) (v : Z) : Z :=
  match n with
  | O => 0
  | S k => if Z.testbit v (Z.of_nat k) then 0 else 1 + clz_bits k v
  end.
Definition __clz (v : Z) : Z := clz_bits 32 v.

(** [rbit]: bit [k] of the operand goes to bit [31 - k]. *)
Fixpoint rbit_bits (n : nat) (v : Z) : Z :=
  match n with
  | O => 0
  | S k => bit_upd (rbit_bits k v) (31 - Z.of_nat k) (Z.testbit v (Z.of_nat k))
  end.
Definition __rbit (v : Z) : Z := rbit_bits 32 v.

Lemma rbit_bits_spec n v i :
  (n <= 32)%nat -> 0 <= i <= 31 ->
  Z.testbit (rbit_bits n v) i = if decide (31 - i < Z.of_nat n) then Z.testbit v (31 - i) else false.
Proof.
  induction n as [|n IH]; intros Hn Hi.
  - simpl rbit_bits. rewrite Z.bits_0. by rewrite decide_False by lia.
  - cbn [rbit_bits]. rewrite bit_upd_spec by lia. destruct (decide (31 - Z.of_nat n = i)) as [E|E].
    + rewrite decide_True by lia. f_equal. lia.
    + rewrite IH by lia. destruct (decide (31 - i < Z.of_nat n)).
      * by rewrite decide_True by lia.
      * by rewrite decide_False by lia.
Qed.

Lemma rbit_spec v i : 0 <= i <= 31 -> Z.testbit (__rbit v) i = Z.testbit v (31 - i).
Proof. intros Hi. unfold __rbit. rewrite rbit_bits_spec by lia. by rewrite decide_True by lia. Qed.

Lemma clz_bits_spec n v :
  0 <= clz_bits n v <= Z.of_nat n /\
  (forall i, Z.of_nat n - clz_bits n v <= i < Z.of_nat n -> Z.testbit v i = false) /\
  (clz_bits n v < Z.of_nat n -> Z.testbit v (Z.of_nat n - 1 - clz_bits n v) = true).
Proof.
  induction n as [|n (IHb & IHz & IHo)]; cbn [clz_bits]; [split; [lia|split; intros; lia]|].
  destruct (Z.testbit v (Z.of_nat n)) eqn:E.
  - split; [lia|split]; [intros; lia|]. intros _.
    by replace (Z.of_nat (S n) - 1 - 0) with (Z.of_nat n) by lia.
  - split; [lia|split].
    + intros i Hi. destruct (decide (i = Z.of_nat n)) as [->|]; [done|]. apply IHz. lia.
    + intros Hlt. rewrite <-IHo by lia. f_equal. lia.
Qed.

(** [__clz(__rbit(w))], the kernel's "first thread of the queue". *)
Definition ffs (w : Z) : Z := __clz (__rbit w).

Lemma ffs_bound w : 0 <= ffs w <= 32.
Proof. unfold ffs, __clz. pose proof (clz_bits_spec 32 (__rbit w)). lia. Qed.

Lemma ffs_below w i : 0 <= i < ffs w -> Z.testbit w i = false.
Proof.
  intros Hi. pose proof (ffs_bound w). pose proof (clz_bits_spec 32 (__rbit w)) as (_ & Hz & _).
  specialize (Hz (31 - i)). rewrite rbit_spec in Hz by lia.
  replace (31 - (31 - i)) with i in Hz by lia. apply Hz. unfold ffs, __clz in Hi. lia.
Qed.

Lemma ffs_bit w : ffs w < 32 -> Z.testbit w (ffs w) = true.
Proof.
  intros Hlt. pose proof (ffs_bound w). pose proof (clz_bits_spec 32 (__rbit w)) as (_ & _ & Ho).
  unfold ffs, __clz in *. rewrite rbit_spec in Ho by lia.
  rewrite <-Ho by lia. f_equal. lia.
Qed.

Lemma ffs_32 w i : ffs w = 32 -> 0 <= i < 32 -> Z.testbit w i = false.
Proof. intros E Hi. apply ffs_below. lia. Qed.

(** The lowest set bit is the only candidate. *)
Lemma ffs_unique w i :
  0 <= i < 32 -> Z.testbit w i = true -> (forall j, 0 <= j < i -> Z.testbit w j = false) -> ffs w = i.
Proof.
  intros Hi Ht Hb. pose proof (ffs_bound w).
  destruct (Z.lt_trichotomy (ffs w) i) as [Hlt|[?|Hgt]]; [|done|].
  - pose proof (ffs_bit w ltac:(lia)) as E. rewrite Hb in E by lia. done.
  - rewrite (ffs_below w i) in Ht by lia. done.
Qed.

Lemma ffs_le w i : 0 <= i < 32 -> Z.testbit w i = true -> ffs w <= i.
Proof.
  intros Hi Ht. destruct (Z_le_gt_dec (ffs w) i); [done|].
  rewrite (ffs_below w i) in Ht by lia. done.
Qed.

Lemma ffs_none w : (forall i, 0 <= i < 32 -> Z.testbit w i = false) -> ffs w = 32.
Proof.
  intros H. pose proof (ffs_bound w). destruct (Z.eq_dec (ffs w) 32); [done|].
  pose proof (ffs_bit w ltac:(lia)) as E. rewrite H in E by lia. done.
Qed.

Lemma ffs_zero w : 0 <= w < 2 ^ 32 -> ffs w = 32 -> w = 0.
Proof.
  intros Hw E. apply zero_no_bits; [lia|]. intros i Hi.
  destruct (Z_lt_le_dec i 32); [by apply ffs_32|]. by apply (testbit_high w 32).
Qed.
