(* ===== verification/Config.v ===== *)
(** * Configuration, object numbers and service numbers of ThinkOS

    [sdk/include/thinkos_sys.h], [sdk/include/thinkos.h],
    [sdk/include/thinkos_svc.h]. The compile-time configuration is a class, so
    that every theorem holds for every configuration that satisfies its
    hypotheses; the layout of [wq_lst] follows from it as the [offsetof]
    macros of [thinkos_sys.h] do. *)

From S2P Require Import Prelude.

(** The [THINKOS_...] macros of a [config.h]. The other switches (clock, timed
    calls, thread status, argument and deadlock checks, allocators, flag locks,
    exit, sleep, alarm) are taken at 1, as the defaults of [thinkos_sys.h] and
    the firmware's [src/config.h] leave them; some test programs of the
    repository turn allocators or checks off, and those are not modelled. *)
Class Config := {
  THINKOS_THREADS_MAX : Z;
  THINKOS_MUTEX_MAX : Z;
  THINKOS_COND_MAX : Z;
  THINKOS_SEMAPHORE_MAX : Z;
  THINKOS_EVENT_MAX : Z;
  THINKOS_FLAG_MAX : Z;
  THINKOS_IRQ_MAX : Z;
  THINKOS_SCHED_LIMIT_MAX : Z;
  THINKOS_SCHED_LIMIT_MIN : Z;
  THINKOS_ENABLE_TIMESHARE : bool;
  THINKOS_ENABLE_JOIN : bool;
  THINKOS_ENABLE_PAUSE : bool;
  THINKOS_ENABLE_CANCEL : bool;
  THINKOS_ENABLE_RT_DEBUG : bool;
  (* addresses the linker chooses *)
  thinkos_thread_exit_ptr : Z;
  thinkos_idle_task_ptr : Z;
  thinkos_idle_ctx_ptr : Z;
  thinkos_main_inf_ptr : Z;
}.

(** The defaults of [thinkos_sys.h]. *)
Definition default_config : Config := {|
  THINKOS_THREADS_MAX := 8;
  THINKOS_MUTEX_MAX := 8;
  THINKOS_COND_MAX := 8;
  THINKOS_SEMAPHORE_MAX := 8;
  THINKOS_EVENT_MAX := 8;
  THINKOS_FLAG_MAX := 8;
  THINKOS_IRQ_MAX := 80;
  THINKOS_SCHED_LIMIT_MAX := 32;
  THINKOS_SCHED_LIMIT_MIN := 1;
  THINKOS_ENABLE_TIMESHARE := true;
  THINKOS_ENABLE_JOIN := true;
  THINKOS_ENABLE_PAUSE := true;
  THINKOS_ENABLE_CANCEL := true;
  THINKOS_ENABLE_RT_DEBUG := false;
  thinkos_thread_exit_ptr := 0x08000401;
  thinkos_idle_task_ptr := 0x08000201;
  thinkos_idle_ctx_ptr := 0x200000d0;
  thinkos_main_inf_ptr := 0x08004000;
|}.

(** The configuration the probe's firmware is built with, [src/config.h]. *)
Definition yard_ice_config : Config := {|
  THINKOS_THREADS_MAX := 20;
  THINKOS_MUTEX_MAX := 16;
  THINKOS_COND_MAX := 16;
  THINKOS_SEMAPHORE_MAX := 16;
  THINKOS_EVENT_MAX := 0;
  THINKOS_FLAG_MAX := 16;
  THINKOS_IRQ_MAX := 80;
  THINKOS_SCHED_LIMIT_MAX := 32;
  THINKOS_SCHED_LIMIT_MIN := 1;
  THINKOS_ENABLE_TIMESHARE := false;
  THINKOS_ENABLE_JOIN := false;
  THINKOS_ENABLE_PAUSE := false;
  THINKOS_ENABLE_CANCEL := false;
  THINKOS_ENABLE_RT_DEBUG := true;
  thinkos_thread_exit_ptr := 0x08000401;
  thinkos_idle_task_ptr := 0x08000201;
  thinkos_idle_ctx_ptr := 0x200000d0;
  thinkos_main_inf_ptr := 0x08004000;
|}.

(** ** Return codes and object types ([thinkos.h]) *)

Definition THINKOS_OK := 0.
Definition THINKOS_ETIMEDOUT := -1.
Definition THINKOS_EINTR := -2.
Definition THINKOS_EINVAL := -3.
Definition THINKOS_EAGAIN := -4.
Definition THINKOS_EDEADLK := -5.
Definition THINKOS_EPERM := -6.
Definition THINKOS_ENOSYS := -7.

Inductive obj_type :=
  | THINKOS_OBJ_READY | THINKOS_OBJ_TMSHARE | THINKOS_OBJ_CANCELED | THINKOS_OBJ_PAUSED
  | THINKOS_OBJ_CLOCK | THINKOS_OBJ_MUTEX | THINKOS_OBJ_COND | THINKOS_OBJ_SEMAPHORE
  | THINKOS_OBJ_EVENT | THINKOS_OBJ_FLAG | THINKOS_OBJ_JOIN | THINKOS_OBJ_INVALID.

#[export] Instance obj_type_eq_dec : EqDecision obj_type.
Proof. solve_decision. Defined.

(** ** Layout of the wait-queue list *)

Section layout.
Context `{Config}.

Definition THINKOS_THREAD_NULL := 32.
Definition THINKOS_THREAD_IDLE := THINKOS_THREADS_MAX.

Definition THINKOS_WQ_READY := 0.
Definition THINKOS_WQ_TMSHARE := 1.
Definition THINKOS_WQ_CANCELED := 1 + Z.b2z THINKOS_ENABLE_TIMESHARE.
Definition THINKOS_WQ_PAUSED := THINKOS_WQ_CANCELED + Z.b2z THINKOS_ENABLE_JOIN.
Definition THINKOS_WQ_CLOCK := THINKOS_WQ_PAUSED + Z.b2z THINKOS_ENABLE_PAUSE.
Definition THINKOS_MUTEX_BASE := THINKOS_WQ_CLOCK + 1.
Definition THINKOS_COND_BASE := THINKOS_MUTEX_BASE + THINKOS_MUTEX_MAX.
Definition THINKOS_SEM_BASE := THINKOS_COND_BASE + THINKOS_COND_MAX.
Definition THINKOS_EVENT_BASE := THINKOS_SEM_BASE + THINKOS_SEMAPHORE_MAX.
Definition THINKOS_FLAG_BASE := THINKOS_EVENT_BASE + THINKOS_EVENT_MAX.
Definition THINKOS_JOIN_BASE := THINKOS_FLAG_BASE + THINKOS_FLAG_MAX.
Definition THINKOS_WQ_LST_END :=
  THINKOS_JOIN_BASE + (if THINKOS_ENABLE_JOIN then THINKOS_THREADS_MAX else 0).

(** Words of an allocation bitmap of [n] bits. *)
Definition bmp_words (n : Z) : Z := (n + 31) / 32.
End layout.

(** The bounds the code relies on: one 32-bit word holds a set of threads, and
    [th_stat], a [uint8_t] with the queue number shifted left by one, can name
    every queue. *)
Class ConfigOk (cfg : Config) : Prop := {
  threads_bound : 1 <= THINKOS_THREADS_MAX <= 32;
  mutex_bound : 0 <= THINKOS_MUTEX_MAX;
  cond_bound : 0 <= THINKOS_COND_MAX;
  sem_bound : 0 <= THINKOS_SEMAPHORE_MAX;
  event_bound : 0 <= THINKOS_EVENT_MAX;
  flag_bound : 0 <= THINKOS_FLAG_MAX;
  irq_bound : 0 <= THINKOS_IRQ_MAX;
  limit_bound : 1 <= THINKOS_SCHED_LIMIT_MIN <= THINKOS_SCHED_LIMIT_MAX /\ THINKOS_SCHED_LIMIT_MAX <= 127;
  wq_lst_end_bound : THINKOS_WQ_LST_END <= 128;
}.

#[export] Instance default_config_ok : ConfigOk default_config.
Proof. split; vm_compute; intuition congruence. Qed.

#[export] Instance yard_ice_config_ok : ConfigOk yard_ice_config.
Proof. split; vm_compute; intuition congruence. Qed.

(** The optional services the firmware leaves out. *)
Class CoreConfig (cfg : Config) : Prop := {
  core_timeshare : THINKOS_ENABLE_TIMESHARE = false;
  core_join : THINKOS_ENABLE_JOIN = false;
  core_pause : THINKOS_ENABLE_PAUSE = false;
  core_cancel : THINKOS_ENABLE_CANCEL = false;
}.

#[export] Instance yard_ice_config_core : CoreConfig yard_ice_config.
Proof. by split. Qed.

Section layout_facts.
Context `{Cfg : Config} `{!ConfigOk Cfg}.

Lemma layout_order :
  THINKOS_WQ_READY < THINKOS_WQ_CLOCK /\ THINKOS_MUTEX_BASE = THINKOS_WQ_CLOCK + 1 /\
  THINKOS_MUTEX_BASE <= THINKOS_COND_BASE <= THINKOS_SEM_BASE /\
  THINKOS_SEM_BASE <= THINKOS_EVENT_BASE <= THINKOS_FLAG_BASE /\
  THINKOS_FLAG_BASE <= THINKOS_JOIN_BASE <= THINKOS_WQ_LST_END /\ THINKOS_WQ_LST_END <= 128.
Proof.
  pose proof mutex_bound. pose proof cond_bound. pose proof sem_bound. pose proof event_bound.
  pose proof flag_bound. pose proof wq_lst_end_bound. pose proof threads_bound.
  unfold THINKOS_WQ_LST_END, THINKOS_JOIN_BASE, THINKOS_FLAG_BASE, THINKOS_EVENT_BASE,
    THINKOS_SEM_BASE, THINKOS_COND_BASE, THINKOS_MUTEX_BASE, THINKOS_WQ_CLOCK,
    THINKOS_WQ_PAUSED, THINKOS_WQ_CANCELED, THINKOS_WQ_READY in *.
  destruct THINKOS_ENABLE_TIMESHARE, THINKOS_ENABLE_JOIN, THINKOS_ENABLE_PAUSE; simpl in *; lia.
Qed.

Lemma wq_ready_range : 0 <= THINKOS_WQ_READY < THINKOS_WQ_LST_END.
Proof. pose proof layout_order. unfold THINKOS_WQ_READY in *. lia. Qed.

Lemma wq_clock_range : 0 <= THINKOS_WQ_CLOCK < THINKOS_WQ_LST_END.
Proof. pose proof layout_order. unfold THINKOS_WQ_READY in *. lia. Qed.
End layout_facts.

(** ** Service numbers ([thinkos_svc.h]) *)

Definition THINKOS_THREAD_SELF := 0.
Definition THINKOS_THREAD_CREATE := 1.
Definition THINKOS_CLOCK := 2.
Definition THINKOS_ALARM := 3.
Definition THINKOS_SLEEP := 4.
Definition THINKOS_MUTEX_LOCK := 5.
Definition THINKOS_MUTEX_TRYLOCK := 6.
Definition THINKOS_MUTEX_TIMEDLOCK := 7.
Definition THINKOS_MUTEX_UNLOCK := 8.
Definition THINKOS_SEM_INIT := 9.
Definition THINKOS_SEM_WAIT := 10.
Definition THINKOS_SEM_TRYWAIT := 11.
Definition THINKOS_SEM_TIMEDWAIT := 12.
Definition THINKOS_SEM_POST := 13.
Definition THINKOS_COND_WAIT := 14.
Definition THINKOS_COND_TIMEDWAIT := 15.
Definition THINKOS_COND_SIGNAL := 16.
Definition THINKOS_COND_BROADCAST := 17.
Definition THINKOS_FLAG_CLR := 18.
Definition THINKOS_FLAG_SET := 19.
Definition THINKOS_FLAG_WAIT := 20.
Definition THINKOS_FLAG_TIMEDWAIT := 21.
Definition THINKOS_FLAG_RELEASE := 22.
Definition THINKOS_FLAG_TAKE := 23.
Definition THINKOS_FLAG_TIMEDTAKE := 24.
Definition THINKOS_FLAG_GIVE := 25.
Definition THINKOS_EVENT_WAIT := 26.
Definition THINKOS_EVENT_TIMEDWAIT := 27.
Definition THINKOS_EVENT_RAISE := 28.
Definition THINKOS_EVENT_MASK := 29.
Definition THINKOS_EVENT_UNMASK := 30.
Definition THINKOS_IRQ_WAIT := 31.
Definition THINKOS_MUTEX_ALLOC := 32.
Definition THINKOS_MUTEX_FREE := 33.
Definition THINKOS_SEM_ALLOC := 34.
Definition THINKOS_SEM_FREE := 35.
Definition THINKOS_COND_ALLOC := 36.
Definition THINKOS_COND_FREE := 37.
Definition THINKOS_FLAG_ALLOC := 38.
Definition THINKOS_FLAG_FREE := 39.
Definition THINKOS_EVENT_ALLOC := 40.
Definition THINKOS_EVENT_FREE := 41.
Definition THINKOS_YIELD := 42.
Definition THINKOS_PAUSE := 43.
Definition THINKOS_RESUME := 44.
Definition THINKOS_CANCEL := 45.
Definition THINKOS_JOIN := 46.
Definition THINKOS_RT_SNAPSHOT := 47.
Definition THINKOS_EXIT := 48.
