(* ===== verification/Kernel.v ===== *)
(** * The run-time block of ThinkOS and the operations every service is built of

    [sdk/include/thinkos_sys.h]. [thinkos_rt] is [struct thinkos_rt], field by
    field; [machine] adds what the kernel touches outside of it: the memory the
    thread stacks live in, the two stack pointers, the pending bit of PendSV
    (the scheduler), PRIMASK and the NVIC enable and pending bits.

    The named queues [wq_ready], [wq_tmshare], ... and the arrays [wq_mutex],
    [wq_cond], ... are words of the one array [wq_lst], as the zero-length
    placeholder of the C structure makes them; a thread set is the word's bits. *)

From S2P Require Import Prelude Arch Config.

Record thinkos_rt := mk_rt {
  rt_ctx : list Z;          (* thread context pointers, then [idle_ctx] *)
  rt_active : Z;
  rt_wq_lst : list Z;       (* all the wait queues, [wq_ready] first *)
  rt_th_stat : list Z;      (* uint8_t per thread: queue << 1 | clock enabled *)
  rt_sched_val : list Z;    (* int8_t per thread, then [sched_idle_val] *)
  rt_sched_pri : list Z;    (* uint8_t per thread, then [sched_idle_pri] *)
  rt_sched_limit : Z;
  rt_ticks : Z;
  rt_clock : list Z;
  rt_sem_val : list Z;
  rt_ev_pend : list Z;      (* ev[i].pend *)
  rt_ev_mask : list Z;      (* ev[i].mask *)
  rt_flag_sig : list Z;
  rt_flag_lock : list Z;
  rt_lock : list Z;         (* int8_t: the thread that owns the mutex, or -1 *)
  rt_irq_th : list Z;
  rt_th_alloc : list Z;
  rt_mutex_alloc : list Z;
  rt_cond_alloc : list Z;
  rt_sem_alloc : list Z;
  rt_ev_alloc : list Z;
  rt_flag_alloc : list Z;
  rt_th_inf : list Z;
}.

Record machine := mk_machine {
  m_rt : thinkos_rt;
  m_mem : gmap Z Z;         (* 32-bit words by address *)
  m_psp : Z;
  m_msp : Z;
  m_pendsv : bool;          (* SCB_ICSR_PENDSVSET *)
  m_primask : bool;
  m_irq_en : list Z;        (* NVIC enable bits *)
  m_irq_pend : list Z;      (* NVIC pending bits *)
}.

Abbreviation K := (M machine).

(** ** Fields *)

Definition eta_rt (r : thinkos_rt) : thinkos_rt :=
  mk_rt (rt_ctx r) (rt_active r) (rt_wq_lst r) (rt_th_stat r) (rt_sched_val r) (rt_sched_pri r)
    (rt_sched_limit r) (rt_ticks r) (rt_clock r) (rt_sem_val r) (rt_ev_pend r) (rt_ev_mask r)
    (rt_flag_sig r) (rt_flag_lock r) (rt_lock r) (rt_irq_th r) (rt_th_alloc r) (rt_mutex_alloc r)
    (rt_cond_alloc r) (rt_sem_alloc r) (rt_ev_alloc r) (rt_flag_alloc r) (rt_th_inf r).

Definition eta_machine (m : machine) : machine :=
  mk_machine (m_rt m) (m_mem m) (m_psp m) (m_msp m) (m_pendsv m) (m_primask m) (m_irq_en m) (m_irq_pend m).

Definition f_rt : lens machine thinkos_rt := Lens m_rt ltac:(mk_set eta_machine m_rt).
Definition mem : lens machine (gmap Z Z) := Lens m_mem ltac:(mk_set eta_machine m_mem).
Definition psp : lens machine Z := Lens m_psp ltac:(mk_set eta_machine m_psp).
Definition msp : lens machine Z := Lens m_msp ltac:(mk_set eta_machine m_msp).
Definition pendsv : lens machine bool := Lens m_pendsv ltac:(mk_set eta_machine m_pendsv).
Definition primask : lens machine bool := Lens m_primask ltac:(mk_set eta_machine m_primask).
Definition irq_en : lens machine (list Z) := Lens m_irq_en ltac:(mk_set eta_machine m_irq_en).
Definition irq_pend : lens machine (list Z) := Lens m_irq_pend ltac:(mk_set eta_machine m_irq_pend).

Definition ctx := lens_comp f_rt (Lens rt_ctx ltac:(mk_set eta_rt rt_ctx)).
Definition active := lens_comp f_rt (Lens rt_active ltac:(mk_set eta_rt rt_active)).
Definition wq_lst := lens_comp f_rt (Lens rt_wq_lst ltac:(mk_set eta_rt rt_wq_lst)).
Definition th_stat := lens_comp f_rt (Lens rt_th_stat ltac:(mk_set eta_rt rt_th_stat)).
Definition sched_val := lens_comp f_rt (Lens rt_sched_val ltac:(mk_set eta_rt rt_sched_val)).
Definition sched_pri := lens_comp f_rt (Lens rt_sched_pri ltac:(mk_set eta_rt rt_sched_pri)).
Definition sched_limit := lens_comp f_rt (Lens rt_sched_limit ltac:(mk_set eta_rt rt_sched_limit)).
Definition ticks := lens_comp f_rt (Lens rt_ticks ltac:(mk_set eta_rt rt_ticks)).
Definition clock := lens_comp f_rt (Lens rt_clock ltac:(mk_set eta_rt rt_clock)).
Definition sem_val := lens_comp f_rt (Lens rt_sem_val ltac:(mk_set eta_rt rt_sem_val)).
Definition ev_pend := lens_comp f_rt (Lens rt_ev_pend ltac:(mk_set eta_rt rt_ev_pend)).
Definition ev_mask := lens_comp f_rt (Lens rt_ev_mask ltac:(mk_set eta_rt rt_ev_mask)).
Definition flag_sig := lens_comp f_rt (Lens rt_flag_sig ltac:(mk_set eta_rt rt_flag_sig)).
Definition flag_lock := lens_comp f_rt (Lens rt_flag_lock ltac:(mk_set eta_rt rt_flag_lock)).
Definition lock := lens_comp f_rt (Lens rt_lock ltac:(mk_set eta_rt rt_lock)).
Definition irq_th := lens_comp f_rt (Lens rt_irq_th ltac:(mk_set eta_rt rt_irq_th)).
Definition th_alloc := lens_comp f_rt (Lens rt_th_alloc ltac:(mk_set eta_rt rt_th_alloc)).
Definition mutex_alloc := lens_comp f_rt (Lens rt_mutex_alloc ltac:(mk_set eta_rt rt_mutex_alloc)).
Definition cond_alloc := lens_comp f_rt (Lens rt_cond_alloc ltac:(mk_set eta_rt rt_cond_alloc)).
Definition sem_alloc := lens_comp f_rt (Lens rt_sem_alloc ltac:(mk_set eta_rt rt_sem_alloc)).
Definition ev_alloc := lens_comp f_rt (Lens rt_ev_alloc ltac:(mk_set eta_rt rt_ev_alloc)).
Definition flag_alloc := lens_comp f_rt (Lens rt_flag_alloc ltac:(mk_set eta_rt rt_flag_alloc)).
Definition th_inf := lens_comp f_rt (Lens rt_th_inf ltac:(mk_set eta_rt rt_th_inf)).

(** ** Memory and the hardware *)

(** [ptr[k]] for a word pointer. *)
Definition load (m : gmap Z Z) (a : Z) : Z := u32 (default 0 (m !! a)).
Definition ld (a : Z) : K Z := (m <- get mem;; ret (load m a))%c.
Definition st (a v : Z) : K unit := (m <- get mem;; put mem (<[a := u32 v]> m))%c.

(** The service handlers get the caller's exception frame as an array
    [int32_t * arg]: r0, r1, r2, r3, r12, lr, pc, xpsr. *)
Definition arg_rd (arg i : Z) : K Z := ld (arg + 4 * i).
Definition arg_wr (arg i v : Z) : K unit := st (arg + 4 * i) v.

(** Offsets in [struct thinkos_context]: r4..r11, then the exception frame. *)
Definition CTX_R0 := 32.
Definition CTX_PC := 56.
Definition CTX_SIZE := 64.

(** The bit-band accesses of [arch/cortex-m3.h]. *)
Definition bit_mem_rd (f : lens machine (list Z)) (base bit : Z) : K Z :=
  (w <- arr_rd f (base + bit / 32);; ret (Z.b2z (Z.testbit w (bit mod 32))))%c.
Definition bit_mem_wr (f : lens machine (list Z)) (base bit v : Z) : K unit :=
  (w <- arr_rd f (base + bit / 32);; arr_wr f (base + bit / 32) (bit_upd w (bit mod 32) (Z.odd v)))%c.

Definition bmp_bit_set f base bit := bit_mem_wr f base bit 1.
Definition bmp_bit_clr f base bit := bit_mem_wr f base bit 0.

Definition cm3_cpsid_i : K unit := put primask true.
Definition cm3_cpsie_i : K unit := put primask false.
Definition cm3_primask_get : K bool := get primask.
Definition cm3_primask_set (v : bool) : K unit := put primask v.
Definition cm3_irq_enable (irq : Z) : K unit := bit_mem_wr irq_en 0 irq 1.
Definition cm3_irq_disable (irq : Z) : K unit := bit_mem_wr irq_en 0 irq 0.
Definition cm3_irq_pend_clr (irq : Z) : K unit := bit_mem_wr irq_pend 0 irq 0.

(** ** Support functions of [thinkos_sys.h] *)

Section sys.
Context `{Config}.

(** The first free bit at or after [start], lowest first. *)
Definition thinkos_alloc_lo (f : lens machine (list Z)) (start : Z) : K Z :=
  (w <- arr_rd f 0;;
   let idx := __clz (__rbit (u32 (Z.lnot (Z.shiftr w start)))) + start in
   if 32 <=? idx then ret (-1)
   else bit_mem_wr f 0 idx 1;;; ret idx)%c.

(** The last free bit at or before [start], highest first. *)
Definition thinkos_alloc_hi (f : lens machine (list Z)) (start : Z) : K Z :=
  (let start := if 31 <? start then 31 else start in
   w <- arr_rd f 0;;
   let idx := start - __clz (u32 (Z.lnot (u32 (Z.shiftl w (31 - start))))) in
   if idx <? 0 then ret (-1)
   else bit_mem_wr f 0 idx 1;;; ret idx)%c.

Definition __thinkos_defer_sched : K unit := put pendsv true.

(** The threads that used up their time share become ready again when the
    ready queue has nobody left but the idle thread. *)
Definition tmshare_collect : K unit :=
  (r <- arr_rd wq_lst THINKOS_WQ_READY;;
   if THINKOS_THREADS_MAX <? 32 then
     when (r =? Z.shiftl 1 THINKOS_THREADS_MAX)
       (t <- arr_rd wq_lst THINKOS_WQ_TMSHARE;;
        arr_wr wq_lst THINKOS_WQ_READY (Z.lor r t);;;
        arr_wr wq_lst THINKOS_WQ_TMSHARE 0)
   else
     when (r =? 0)
       (t <- arr_rd wq_lst THINKOS_WQ_TMSHARE;;
        arr_wr wq_lst THINKOS_WQ_READY t;;;
        arr_wr wq_lst THINKOS_WQ_TMSHARE 0))%c.

Definition __thinkos_wait (thread : Z) : K unit :=
  (bit_mem_wr wq_lst THINKOS_WQ_READY thread 0;;;
   when THINKOS_ENABLE_TIMESHARE (cm3_cpsid_i;;; tmshare_collect;;; cm3_cpsie_i);;;
   __thinkos_defer_sched)%c.

Definition __thinkos_wq_head (wq : Z) : K Z :=
  (w <- arr_rd wq_lst wq;; ret (__clz (__rbit w)))%c.

Definition __thinkos_wq_insert (wq th : Z) : K unit :=
  (bit_mem_wr wq_lst wq th 1;;;
   arr_wr th_stat th (u8 (Z.shiftl wq 1)))%c.

Definition __thinkos_tmdwq_insert (wq th ms : Z) : K unit :=
  (t <- get ticks;;
   arr_wr clock th (u32 (t + ms));;;
   bit_mem_wr wq_lst wq th 1;;;
   bit_mem_wr wq_lst THINKOS_WQ_CLOCK th 1;;;
   arr_wr th_stat th (u8 (Z.shiftl wq 1 + 1)))%c.

(** [ctx[th]->r0 = v] *)
Definition ctx_r0_wr (th v : Z) : K unit :=
  (c <- arr_rd ctx th;; st (c + CTX_R0) v)%c.

Definition __thinkos_wakeup (wq th : Z) : K unit :=
  (bit_mem_wr wq_lst THINKOS_WQ_READY th 1;;;
   bit_mem_wr wq_lst wq th 0;;;
   bit_mem_wr wq_lst THINKOS_WQ_CLOCK th 0;;;
   ctx_r0_wr th 0;;;
   arr_wr th_stat th 0)%c.

Definition __thinkos_wakeup_return (wq th v : Z) : K unit :=
  (bit_mem_wr wq_lst THINKOS_WQ_READY th 1;;;
   bit_mem_wr wq_lst wq th 0;;;
   bit_mem_wr wq_lst THINKOS_WQ_CLOCK th 0;;;
   arr_wr th_stat th 0;;;
   ctx_r0_wr th v)%c.

(** [while ((th = __thinkos_wq_head(wq)) != THINKOS_THREAD_NULL) __thinkos_wakeup(wq, th);]
    A word has 32 bits, and each round clears one. *)
Fixpoint wakeup_all (fuel : nat) (wq : Z) : K unit :=
  match fuel with
  | O => fault
  | S n =>
      (th <- __thinkos_wq_head wq;;
       if th =? THINKOS_THREAD_NULL then ret tt
       else __thinkos_wakeup wq th;;; wakeup_all n wq)%c
  end.

(** [thinkos_bmp_alloc] ([thinkos_core.c]): the first clear bit of a bitmap of
    [bits] bits, taken, or -1. *)
Fixpoint bmp_alloc_from (n : nat) (f : lens machine (list Z)) (i : Z) : K Z :=
  match n with
  | O => ret (-1)
  | S n' =>
      (w <- arr_rd f i;;
       let j := __clz (__rbit (u32 (Z.lnot w))) in
       if j <? 32 then bit_mem_wr f i j 1;;; ret (32 * i + j)
       else bmp_alloc_from n' f (i + 1))%c
  end.
Definition thinkos_bmp_alloc (f : lens machine (list Z)) (bits : Z) : K Z :=
  bmp_alloc_from (Z.to_nat ((bits + 31) / 32)) f 0.

(** The checks every service of a kernel object begins with: the object
    number in [arg] must be one of the [max] numbers from [base] on, and
    allocated. *)
Definition obj_range (base max wq arg : Z) (body : Z -> K unit) : K unit :=
  let no := u32 (wq - base) in
  if max <=? no then arg_wr arg 0 THINKOS_EINVAL else body no.
Definition obj_allocated (alloc : lens machine (list Z)) (no arg : Z) (body : K unit) : K unit :=
  (b <- bit_mem_rd alloc 0 no;;
   if b =? 0 then arg_wr arg 0 THINKOS_EINVAL else body)%c.
Definition obj_check (base max : Z) (alloc : lens machine (list Z)) (wq arg : Z)
    (body : Z -> K unit) : K unit :=
  obj_range base max wq arg (fun no => obj_allocated alloc no arg (body no)).
End sys.
