(* ===== verification/Mutex.v ===== *)
(** * Mutexes

    [sdk/libthinkos/thinkos_mutex.c]. [lock[m]] is the owner of mutex [m] or
    -1; the threads that wait for it are the bits of its word of [wq_lst]. *)

From S2P Require Import Prelude Arch Config Kernel.

Section mutex.
Context `{Config}.
Open Scope c_scope.

Definition thinkos_mutex_alloc_svc (arg : Z) : K unit :=
  idx <- thinkos_bmp_alloc mutex_alloc THINKOS_MUTEX_MAX;;
  if 0 <=? idx then
    arr_wr lock idx (-1);;;
    arg_wr arg 0 (idx + THINKOS_MUTEX_BASE)
  else arg_wr arg 0 idx.

Definition thinkos_mutex_free_svc (arg : Z) : K unit :=
  wq <- arg_rd arg 0;;
  obj_range THINKOS_MUTEX_BASE THINKOS_MUTEX_MAX wq arg (fun idx =>
    bit_mem_wr mutex_alloc 0 idx 0).

Definition thinkos_mutex_lock_svc (arg : Z) : K unit :=
  wq <- arg_rd arg 0;;
  self <- get active;;
  obj_check THINKOS_MUTEX_BASE THINKOS_MUTEX_MAX mutex_alloc wq arg (fun mutex =>
    l <- arr_rd lock mutex;;
    if l =? -1 then
      arr_wr lock mutex self;;;
      arg_wr arg 0 0
    else if l =? self then arg_wr arg 0 THINKOS_EDEADLK
    else
      __thinkos_wq_insert wq self;;;
      arg_wr arg 0 0;;;
      __thinkos_wait self).

Definition thinkos_mutex_trylock_svc (arg : Z) : K unit :=
  wq <- arg_rd arg 0;;
  self <- get active;;
  obj_check THINKOS_MUTEX_BASE THINKOS_MUTEX_MAX mutex_alloc wq arg (fun mutex =>
    l <- arr_rd lock mutex;;
    if l =? -1 then
      arr_wr lock mutex self;;;
      arg_wr arg 0 0
    else if l =? self then arg_wr arg 0 THINKOS_EDEADLK
    else arg_wr arg 0 THINKOS_EAGAIN).

Definition thinkos_mutex_timedlock_svc (arg : Z) : K unit :=
  wq <- arg_rd arg 0;;
  ms <- arg_rd arg 1;;
  self <- get active;;
  obj_check THINKOS_MUTEX_BASE THINKOS_MUTEX_MAX mutex_alloc wq arg (fun mutex =>
    l <- arr_rd lock mutex;;
    if l =? -1 then
      arr_wr lock mutex self;;;
      arg_wr arg 0 0
    else if l =? self then arg_wr arg 0 THINKOS_EDEADLK
    else
      __thinkos_tmdwq_insert wq self ms;;;
      arg_wr arg 0 THINKOS_ETIMEDOUT;;;
      __thinkos_wait self).

(** Hand the mutex over to its first waiter, or release it: the end of
    [unlock] and the middle of both [cond_wait]s. The result tells whether a
    thread was woken. *)
Definition mutex_pass (mwq mutex : Z) : K bool :=
  th <- __thinkos_wq_head mwq;;
  if th =? THINKOS_THREAD_NULL then
    arr_wr lock mutex (-1);;;
    ret false
  else
    arr_wr lock mutex th;;;
    __thinkos_wakeup mwq th;;;
    ret true.

Definition thinkos_mutex_unlock_svc (arg : Z) : K unit :=
  wq <- arg_rd arg 0;;
  self <- get active;;
  obj_check THINKOS_MUTEX_BASE THINKOS_MUTEX_MAX mutex_alloc wq arg (fun mutex =>
    l <- arr_rd lock mutex;;
    if negb (l =? self) then arg_wr arg 0 THINKOS_EPERM
    else
      woken <- mutex_pass wq mutex;;
      when woken __thinkos_defer_sched;;;
      arg_wr arg 0 0).
End mutex.
