(* ===== verification/Semaphore.v ===== *)
(** * Counting semaphores

    [sdk/libthinkos/thinkos_semaphore.c] and the interrupt-side
    [__thinkos_sem_post] of [sdk/include/thinkos_irq.h]. *)

From S2P Require Import Prelude Arch Config Kernel.

Section semaphore.
Context `{Config}.
Open Scope c_scope.

Definition thinkos_sem_alloc_svc (arg : Z) : K unit :=
  value <- arg_rd arg 0;;
  idx <- thinkos_bmp_alloc sem_alloc THINKOS_SEMAPHORE_MAX;;
  if 0 <=? idx then
    arr_wr sem_val idx value;;;
    arg_wr arg 0 (idx + THINKOS_SEM_BASE)
  else arg_wr arg 0 idx.

Definition thinkos_sem_free_svc (arg : Z) : K unit :=
  wq <- arg_rd arg 0;;
  obj_range THINKOS_SEM_BASE THINKOS_SEMAPHORE_MAX wq arg (fun idx =>
    bit_mem_wr sem_alloc 0 idx 0).

Definition thinkos_sem_init_svc (arg : Z) : K unit :=
  wq <- arg_rd arg 0;;
  value <- arg_rd arg 1;;
  obj_check THINKOS_SEM_BASE THINKOS_SEMAPHORE_MAX sem_alloc wq arg (fun sem =>
    arr_wr sem_val sem value;;;
    arg_wr arg 0 0).

(** The end of the blocking semaphore and event services: the caller leaves
    the ready queue, and the time-share queue is collected when the ready
    queue is 0 (the idle thread's bit is not taken into account). *)
Definition wait_collect_if_zero (self : Z) : K unit :=
  bit_mem_wr wq_lst THINKOS_WQ_READY self 0;;;
  when THINKOS_ENABLE_TIMESHARE
    (r <- arr_rd wq_lst THINKOS_WQ_READY;;
     when (r =? 0)
       (t <- arr_rd wq_lst THINKOS_WQ_TMSHARE;;
        arr_wr wq_lst THINKOS_WQ_READY t;;;
        arr_wr wq_lst THINKOS_WQ_TMSHARE 0)).

Definition thinkos_sem_wait_svc (arg : Z) : K unit :=
  wq <- arg_rd arg 0;;
  self <- get active;;
  obj_check THINKOS_SEM_BASE THINKOS_SEMAPHORE_MAX sem_alloc wq arg (fun sem =>
    arg_wr arg 0 0;;;
    cm3_cpsid_i;;;
    v <- arr_rd sem_val sem;;
    if 0 <? v then
      arr_wr sem_val sem (v - 1);;;
      cm3_cpsie_i
    else
      __thinkos_wq_insert wq self;;;
      wait_collect_if_zero self;;;
      cm3_cpsie_i;;;
      __thinkos_defer_sched).

Definition thinkos_sem_trywait_svc (arg : Z) : K unit :=
  wq <- arg_rd arg 0;;
  obj_check THINKOS_SEM_BASE THINKOS_SEMAPHORE_MAX sem_alloc wq arg (fun sem =>
    cm3_cpsid_i;;;
    v <- arr_rd sem_val sem;;
    (if 0 <? v then
      arr_wr sem_val sem (v - 1);;;
      arg_wr arg 0 0
    else arg_wr arg 0 THINKOS_EAGAIN);;;
    cm3_cpsie_i).

Definition thinkos_sem_timedwait_svc (arg : Z) : K unit :=
  wq <- arg_rd arg 0;;
  ms <- arg_rd arg 1;;
  self <- get active;;
  obj_check THINKOS_SEM_BASE THINKOS_SEMAPHORE_MAX sem_alloc wq arg (fun sem =>
    cm3_cpsid_i;;;
    v <- arr_rd sem_val sem;;
    (if 0 <? v then
      arr_wr sem_val sem (v - 1);;;
      arg_wr arg 0 0
    else
      __thinkos_tmdwq_insert wq self ms;;;
      wait_collect_if_zero self;;;
      arg_wr arg 0 THINKOS_ETIMEDOUT);;;
    cm3_cpsie_i;;;
    __thinkos_defer_sched).

(** [sem_val[sem]++] on a [uint32_t], or the first waiter made ready. *)
Definition sem_post_body (wq sem : Z) : K unit :=
  th <- __thinkos_wq_head wq;;
  if th =? THINKOS_THREAD_NULL then
    v <- arr_rd sem_val sem;;
    arr_wr sem_val sem (u32 (v + 1))
  else
    __thinkos_wakeup wq th;;;
    __thinkos_defer_sched.

Definition thinkos_sem_post_svc (arg : Z) : K unit :=
  wq <- arg_rd arg 0;;
  obj_check THINKOS_SEM_BASE THINKOS_SEMAPHORE_MAX sem_alloc wq arg (fun sem =>
    arg_wr arg 0 0;;;
    cm3_cpsid_i;;;
    sem_post_body wq sem;;;
    cm3_cpsie_i).

(** From an interrupt handler, on a valid semaphore number. *)
Definition thinkos_sem_post_i (sem : Z) : K unit :=
  pri <- cm3_primask_get;;
  cm3_primask_set true;;;
  sem_post_body sem (sem - THINKOS_SEM_BASE);;;
  cm3_primask_set pri.
End semaphore.
