(* ===== verification/Cond.v ===== *)
(** * Condition variables

    [sdk/libthinkos/thinkos_cond.c]: a wait releases the mutex and blocks on
    the condition's queue; the waiter takes the mutex again with a
    [mutex_lock] of its own after it is woken (the inline callers of
    [sdk/include/thinkos_svc.h]). *)

From S2P Require Import Prelude Arch Config Kernel Mutex.

Section cond.
Context `{Config}.
Open Scope c_scope.

Definition thinkos_cond_alloc_svc (arg : Z) : K unit :=
  idx <- thinkos_bmp_alloc cond_alloc THINKOS_COND_MAX;;
  if 0 <=? idx then arg_wr arg 0 (idx + THINKOS_COND_BASE)
  else arg_wr arg 0 idx.

Definition thinkos_cond_free_svc (arg : Z) : K unit :=
  wq <- arg_rd arg 0;;
  obj_range THINKOS_COND_BASE THINKOS_COND_MAX wq arg (fun cond =>
    bit_mem_wr cond_alloc 0 cond 0).

Definition thinkos_cond_wait_svc (arg : Z) : K unit :=
  cwq <- arg_rd arg 0;;
  mwq <- arg_rd arg 1;;
  self <- get active;;
  obj_range THINKOS_COND_BASE THINKOS_COND_MAX cwq arg (fun cond =>
  obj_range THINKOS_MUTEX_BASE THINKOS_MUTEX_MAX mwq arg (fun mutex =>
  obj_allocated cond_alloc cond arg (
  obj_allocated mutex_alloc mutex arg (
    l <- arr_rd lock mutex;;
    if negb (l =? self) then arg_wr arg 0 THINKOS_EPERM
    else
      __thinkos_wq_insert cwq self;;;
      _w <- mutex_pass mwq mutex;;
      arg_wr arg 0 0;;;
      __thinkos_wait self)))).

Definition thinkos_cond_timedwait_svc (arg : Z) : K unit :=
  cwq <- arg_rd arg 0;;
  mwq <- arg_rd arg 1;;
  ms <- arg_rd arg 2;;
  self <- get active;;
  obj_range THINKOS_MUTEX_BASE THINKOS_MUTEX_MAX mwq arg (fun mutex =>
  obj_range THINKOS_COND_BASE THINKOS_COND_MAX cwq arg (fun cond =>
  obj_allocated mutex_alloc mutex arg (
  obj_allocated cond_alloc cond arg (
    l <- arr_rd lock mutex;;
    if negb (l =? self) then arg_wr arg 0 THINKOS_EPERM
    else
      __thinkos_tmdwq_insert cwq self ms;;;
      _w <- mutex_pass mwq mutex;;
      arg_wr arg 0 THINKOS_ETIMEDOUT;;;
      __thinkos_wait self)))).

Definition thinkos_cond_signal_svc (arg : Z) : K unit :=
  cwq <- arg_rd arg 0;;
  obj_check THINKOS_COND_BASE THINKOS_COND_MAX cond_alloc cwq arg (fun _ =>
    th <- __thinkos_wq_head cwq;;
    when (negb (th =? THINKOS_THREAD_NULL))
      (__thinkos_wakeup cwq th;;;
       __thinkos_defer_sched);;;
    arg_wr arg 0 0).

Definition thinkos_cond_broadcast_svc (arg : Z) : K unit :=
  cwq <- arg_rd arg 0;;
  obj_check THINKOS_COND_BASE THINKOS_COND_MAX cond_alloc cwq arg (fun _ =>
    th <- __thinkos_wq_head cwq;;
    when (negb (th =? THINKOS_THREAD_NULL))
      (__thinkos_wakeup cwq th;;;
       wakeup_all 33 cwq;;;
       __thinkos_defer_sched);;;
    arg_wr arg 0 0).
End cond.
