(* ===== verification/Event.v ===== *)
(** * Event sets

    [sdk/libthinkos/thinkos_event.c] and [thinkos_ev_raise_i] of
    [sdk/include/thinkos_irq.h]: 32 events per set, each pending or not, and a
    mask of the enabled ones. *)

From S2P Require Import Prelude Arch Config Kernel Semaphore.

Section event.
Context `{Config}.
Open Scope c_scope.

Definition thinkos_ev_alloc_svc (arg : Z) : K unit :=
  idx <- thinkos_bmp_alloc ev_alloc THINKOS_EVENT_MAX;;
  if 0 <=? idx then
    arr_wr ev_mask idx 0xffffffff;;;
    arr_wr ev_pend idx 0;;;
    arg_wr arg 0 (idx + THINKOS_EVENT_BASE)
  else arg_wr arg 0 idx.

Definition thinkos_ev_free_svc (arg : Z) : K unit :=
  wq <- arg_rd arg 0;;
  if (wq <? THINKOS_EVENT_BASE) || (THINKOS_EVENT_BASE + THINKOS_EVENT_MAX <=? wq)
  then arg_wr arg 0 THINKOS_EINVAL
  else bit_mem_wr ev_alloc 0 (wq - THINKOS_EVENT_BASE) 0.

(** [__clz(__rbit(ev[no].pend & ev[no].mask))] *)
Definition ev_first (no : Z) : K Z :=
  pend <- arr_rd ev_pend no;;
  mask <- arr_rd ev_mask no;;
  ret (__clz (__rbit (Z.land pend mask))).

Definition thinkos_ev_wait_svc (arg : Z) : K unit :=
  wq <- arg_rd arg 0;;
  self <- get active;;
  obj_check THINKOS_EVENT_BASE THINKOS_EVENT_MAX ev_alloc wq arg (fun no =>
    cm3_cpsid_i;;;
    ev <- ev_first no;;
    if ev <? 32 then
      bit_mem_wr ev_pend no ev 0;;;
      arg_wr arg 0 ev;;;
      cm3_cpsie_i
    else
      __thinkos_wq_insert wq self;;;
      wait_collect_if_zero self;;;
      cm3_cpsie_i;;;
      __thinkos_defer_sched).

Definition thinkos_ev_timedwait_svc (arg : Z) : K unit :=
  wq <- arg_rd arg 0;;
  ms <- arg_rd arg 1;;
  self <- get active;;
  obj_check THINKOS_EVENT_BASE THINKOS_EVENT_MAX ev_alloc wq arg (fun no =>
    cm3_cpsid_i;;;
    ev <- ev_first no;;
    if ev <? 32 then
      bit_mem_wr ev_pend no ev 0;;;
      arg_wr arg 0 ev;;;
      cm3_cpsie_i
    else
      __thinkos_tmdwq_insert wq self ms;;;
      wait_collect_if_zero self;;;
      arg_wr arg 0 THINKOS_ETIMEDOUT;;;
      cm3_cpsie_i;;;
      __thinkos_defer_sched).

(** An enabled event wakes the first waiter with the event as its return
    value; a masked one, or one nobody waits for, is left pending. *)
Definition ev_raise_body (wq no ev : Z) : K unit :=
  m <- bit_mem_rd ev_mask no ev;;
  th <- (if m =? 0 then ret THINKOS_THREAD_NULL else __thinkos_wq_head wq);;
  if negb (th =? THINKOS_THREAD_NULL) then
    __thinkos_wakeup_return wq th ev;;;
    __thinkos_defer_sched
  else bit_mem_wr ev_pend no ev 1.

Definition thinkos_ev_raise_svc (arg : Z) : K unit :=
  wq <- arg_rd arg 0;;
  ev <- arg_rd arg 1;;
  if 31 <? ev then arg_wr arg 0 THINKOS_EINVAL
  else obj_check THINKOS_EVENT_BASE THINKOS_EVENT_MAX ev_alloc wq arg (fun no =>
    ev_raise_body wq no ev).

Definition thinkos_ev_raise_i (wq ev : Z) : K unit :=
  pri <- cm3_primask_get;;
  cm3_primask_set true;;;
  ev_raise_body wq (wq - THINKOS_EVENT_BASE) ev;;;
  cm3_primask_set pri.

Definition thinkos_ev_mask_svc (arg : Z) : K unit :=
  wq <- arg_rd arg 0;;
  mask <- arg_rd arg 1;;
  obj_check THINKOS_EVENT_BASE THINKOS_EVENT_MAX ev_alloc wq arg (fun no =>
    m <- arr_rd ev_mask no;;
    arr_wr ev_mask no (Z.land m (u32 (Z.lnot mask)))).

(** One round of waking: the first event of [pend & mask] goes to the first
    waiter. *)
Definition ev_deliver (wq no ev th : Z) : K unit :=
  bit_mem_wr ev_pend no ev 0;;;
  __thinkos_wakeup_return wq th ev.

Fixpoint ev_wake_rest (fuel : nat) (wq no mask : Z) : K unit :=
  match fuel with
  | O => fault
  | S n =>
      pend <- arr_rd ev_pend no;;
      let ev := __clz (__rbit (Z.land pend mask)) in
      if ev <? 32 then
        th <- __thinkos_wq_head wq;;
        if negb (th =? THINKOS_THREAD_NULL) then
          ev_deliver wq no ev th;;;
          ev_wake_rest n wq no mask
        else ret tt
      else ret tt
  end.

Definition thinkos_ev_unmask_svc (arg : Z) : K unit :=
  wq <- arg_rd arg 0;;
  mask <- arg_rd arg 1;;
  obj_check THINKOS_EVENT_BASE THINKOS_EVENT_MAX ev_alloc wq arg (fun no =>
    cm3_cpsid_i;;;
    m <- arr_rd ev_mask no;;
    arr_wr ev_mask no (Z.lor m mask);;;
    pend <- arr_rd ev_pend no;;
    let ev := __clz (__rbit (Z.land pend mask)) in
    if ev <? 32 then
      th <- __thinkos_wq_head wq;;
      if negb (th =? THINKOS_THREAD_NULL) then
        ev_deliver wq no ev th;;;
        __thinkos_defer_sched;;;
        ev_wake_rest 33 wq no mask;;;
        cm3_cpsie_i
      else cm3_cpsie_i
    else
      ev_wake_rest 33 wq no mask;;;
      cm3_cpsie_i).
End event.
