(* ===== verification/Flag.v ===== *)
(** * Flags

    [sdk/libthinkos/thinkos_flag.c] and the interrupt-side calls of
    [sdk/include/thinkos_irq.h]. A flag has a signal bit and a lock bit; a
    [wait] takes a signalled, unlocked flag and locks it until [release];
    [take] and [give] use the signal bit alone. *)

From S2P Require Import Prelude Arch Config Kernel.

Section flag.
Context `{Config}.
Open Scope c_scope.

Definition thinkos_flag_alloc_svc (arg : Z) : K unit :=
  idx <- thinkos_bmp_alloc flag_alloc THINKOS_FLAG_MAX;;
  if 0 <=? idx then
    bit_mem_wr flag_sig 0 idx 0;;;
    bit_mem_wr flag_lock 0 idx 0;;;
    arg_wr arg 0 (idx + THINKOS_FLAG_BASE)
  else arg_wr arg 0 idx.

Definition thinkos_flag_free_svc (arg : Z) : K unit :=
  wq <- arg_rd arg 0;;
  obj_range THINKOS_FLAG_BASE THINKOS_FLAG_MAX wq arg (fun idx =>
    bit_mem_wr flag_alloc 0 idx 0).

(** Leave the ready queue and collect the time-share queue, as
    [__thinkos_wait] does but inside the caller's critical section. *)
Definition flag_block (self : Z) : K unit :=
  bit_mem_wr wq_lst THINKOS_WQ_READY self 0;;;
  when THINKOS_ENABLE_TIMESHARE tmshare_collect;;;
  cm3_cpsie_i;;;
  __thinkos_defer_sched.

(** The test both waits make: a signalled flag that is not locked. *)
Definition flag_free_to_wait (idx : Z) : K bool :=
  sig <- bit_mem_rd flag_sig 0 idx;;
  if sig =? 0 then ret false
  else
    lck <- bit_mem_rd flag_lock 0 idx;;
    ret (lck =? 0).

Definition thinkos_flag_wait_svc (arg : Z) : K unit :=
  wq <- arg_rd arg 0;;
  self <- get active;;
  obj_check THINKOS_FLAG_BASE THINKOS_FLAG_MAX flag_alloc wq arg (fun idx =>
    cm3_cpsid_i;;;
    go <- flag_free_to_wait idx;;
    if (go : bool) then
      bit_mem_wr flag_lock 0 idx 1;;;
      cm3_cpsie_i;;;
      bit_mem_wr flag_sig 0 idx 0;;;
      arg_wr arg 0 0
    else
      __thinkos_wq_insert wq self;;;
      flag_block self).

Definition thinkos_flag_timedwait_svc (arg : Z) : K unit :=
  wq <- arg_rd arg 0;;
  ms <- arg_rd arg 1;;
  self <- get active;;
  obj_check THINKOS_FLAG_BASE THINKOS_FLAG_MAX flag_alloc wq arg (fun idx =>
    cm3_cpsid_i;;;
    go <- flag_free_to_wait idx;;
    if (go : bool) then
      bit_mem_wr flag_lock 0 idx 1;;;
      cm3_cpsie_i;;;
      bit_mem_wr flag_sig 0 idx 0;;;
      arg_wr arg 0 0
    else
      arg_wr arg 0 THINKOS_ETIMEDOUT;;;
      __thinkos_tmdwq_insert wq self ms;;;
      flag_block self).

(** A released flag that is signalled goes, locked again, to the first
    waiter. *)
Definition flag_hand_over (wq idx : Z) : K unit :=
  cm3_cpsid_i;;;
  th <- __thinkos_wq_head wq;;
  if th =? THINKOS_THREAD_NULL then cm3_cpsie_i
  else
    __thinkos_wakeup wq th;;;
    cm3_cpsie_i;;;
    bit_mem_wr flag_sig 0 idx 0;;;
    bit_mem_wr flag_lock 0 idx 1;;;
    __thinkos_defer_sched.

Definition thinkos_flag_release_svc (arg : Z) : K unit :=
  wq <- arg_rd arg 0;;
  sig <- arg_rd arg 1;;
  obj_check THINKOS_FLAG_BASE THINKOS_FLAG_MAX flag_alloc wq arg (fun idx =>
    arg_wr arg 0 0;;;
    bit_mem_wr flag_lock 0 idx 0;;;
    when (negb (sig =? 0)) (bit_mem_wr flag_sig 0 idx 1);;;
    b <- bit_mem_rd flag_sig 0 idx;;
    if b =? 0 then ret tt
    else flag_hand_over wq idx).

Definition thinkos_flag_take_svc (arg : Z) : K unit :=
  wq <- arg_rd arg 0;;
  self <- get active;;
  obj_check THINKOS_FLAG_BASE THINKOS_FLAG_MAX flag_alloc wq arg (fun idx =>
    cm3_cpsid_i;;;
    b <- bit_mem_rd flag_sig 0 idx;;
    if negb (b =? 0) then
      cm3_cpsie_i;;;
      bit_mem_wr flag_sig 0 idx 0;;;
      arg_wr arg 0 0
    else
      __thinkos_wq_insert wq self;;;
      flag_block self).

Definition thinkos_flag_timedtake_svc (arg : Z) : K unit :=
  wq <- arg_rd arg 0;;
  ms <- arg_rd arg 1;;
  self <- get active;;
  obj_check THINKOS_FLAG_BASE THINKOS_FLAG_MAX flag_alloc wq arg (fun idx =>
    cm3_cpsid_i;;;
    b <- bit_mem_rd flag_sig 0 idx;;
    if negb (b =? 0) then
      cm3_cpsie_i;;;
      bit_mem_wr flag_sig 0 idx 0;;;
      arg_wr arg 0 0
    else
      arg_wr arg 0 THINKOS_ETIMEDOUT;;;
      __thinkos_tmdwq_insert wq self ms;;;
      flag_block self).

Definition thinkos_flag_give_svc (arg : Z) : K unit :=
  wq <- arg_rd arg 0;;
  obj_check THINKOS_FLAG_BASE THINKOS_FLAG_MAX flag_alloc wq arg (fun idx =>
    b <- bit_mem_rd flag_sig 0 idx;;
    arg_wr arg 0 b;;;
    if negb (b =? 0) then ret tt
    else
      cm3_cpsid_i;;;
      th <- __thinkos_wq_head wq;;
      if th =? THINKOS_THREAD_NULL then
        bit_mem_wr flag_sig 0 idx 1;;;
        cm3_cpsie_i
      else
        __thinkos_wakeup wq th;;;
        cm3_cpsie_i;;;
        __thinkos_defer_sched).

Definition thinkos_flag_clr_svc (arg : Z) : K unit :=
  wq <- arg_rd arg 0;;
  obj_check THINKOS_FLAG_BASE THINKOS_FLAG_MAX flag_alloc wq arg (fun idx =>
    b <- bit_mem_rd flag_sig 0 idx;;
    arg_wr arg 0 b;;;
    bit_mem_wr flag_sig 0 idx 0).

(** Set the signal and wake every waiter. *)
Definition flag_set_body (wq idx : Z) : K unit :=
  bit_mem_wr flag_sig 0 idx 1;;;
  th <- __thinkos_wq_head wq;;
  when (negb (th =? THINKOS_THREAD_NULL))
    (__thinkos_wakeup wq th;;;
     wakeup_all 33 wq;;;
     __thinkos_defer_sched).

Definition thinkos_flag_set_svc (arg : Z) : K unit :=
  wq <- arg_rd arg 0;;
  obj_check THINKOS_FLAG_BASE THINKOS_FLAG_MAX flag_alloc wq arg (fun idx =>
    b <- bit_mem_rd flag_sig 0 idx;;
    arg_wr arg 0 b;;;
    cm3_cpsid_i;;;
    flag_set_body wq idx;;;
    cm3_cpsie_i).

(** From an interrupt handler, on a valid flag number. *)
Definition thinkos_flag_give_i (flag : Z) : K unit :=
  pri <- cm3_primask_get;;
  cm3_primask_set true;;;
  b <- bit_mem_rd flag_sig 0 (flag - THINKOS_FLAG_BASE);;
  when (b =? 0)
    (th <- __thinkos_wq_head flag;;
     if negb (th =? THINKOS_THREAD_NULL) then
       __thinkos_wakeup flag th;;;
       __thinkos_defer_sched
     else bit_mem_wr flag_sig 0 (flag - THINKOS_FLAG_BASE) 1);;;
  cm3_primask_set pri.

Definition thinkos_flag_clr_i (flag : Z) : K unit :=
  bit_mem_wr flag_sig 0 (flag - THINKOS_FLAG_BASE) 0.

Definition thinkos_flag_set_i (flag : Z) : K unit :=
  pri <- cm3_primask_get;;
  cm3_primask_set true;;;
  flag_set_body flag (flag - THINKOS_FLAG_BASE);;;
  cm3_primask_set pri.
End flag.
