(* ===== verification/Thread.v ===== *)
(** * Threads: creation, end, join, cancel, pause, sleep, interrupt waits

    [sdk/libthinkos/thinkos.c], [thinkos_pause.c], [thinkos_sleep.c],
    [thinkos_irq.c], and [thinkos_thread_exit] of [thinkos_core.c]. *)

From S2P Require Import Prelude Arch Config Kernel.

(** [struct thinkos_thread_opt] read from its 32-bit word. *)
Definition opt_stack_size (opt : Z) : Z := Z.land opt 0xffff.
Definition opt_priority (opt : Z) : Z := Z.land (Z.shiftr opt 16) 0xff.
Definition opt_id (opt : Z) : Z := Z.land (Z.shiftr opt 24) 0x7f.
Definition opt_paused (opt : Z) : bool := Z.testbit opt 31.

Section thread.
Context `{Config}.
Open Scope c_scope.

(** ** Creation *)

(** [ctx->field = v] for the word at offset [off] of the new context. *)
Definition ctx_init (sp task targ : Z) : K unit :=
  st (sp + 32) targ;;;
  for_ 3 (fun k => st (sp + 36 + 4 * k) 0);;;     (* r1, r2, r3 *)
  for_ 8 (fun k => st (sp + 4 * k) 0);;;          (* r4 .. r11 *)
  st (sp + 48) 0;;;                               (* r12 *)
  st (sp + 52) thinkos_thread_exit_ptr;;;         (* lr *)
  st (sp + 56) task;;;                            (* pc *)
  st (sp + 60) 0x01000000.                        (* xpsr *)

Definition create_alloc (id : Z) : K Z :=
  if THINKOS_THREADS_MAX <=? id then thinkos_alloc_hi th_alloc THINKOS_THREADS_MAX
  else
    th <- thinkos_alloc_lo th_alloc id;;
    if th <? 0 then thinkos_alloc_hi th_alloc id else ret th.

Definition thinkos_thread_create_svc (arg : Z) : K unit :=
  task <- arg_rd arg 0;;
  targ <- arg_rd arg 1;;
  stack_ptr <- arg_rd arg 2;;
  opt <- arg_rd arg 3;;
  inf <- arg_rd arg 4;;
  th <- create_alloc (opt_id opt);;
  if th <? 0 then arg_wr arg 0 THINKOS_EINVAL
  else
    let sp := u32 (stack_ptr + opt_stack_size opt) in
    if opt_stack_size opt <? CTX_SIZE then arg_wr arg 0 THINKOS_EINVAL
    else
      let sp := u32 (Z.land sp 0xfffffff8 - CTX_SIZE) in
      for_ (Z.max 0 ((sp - stack_ptr + 3) / 4)) (fun k => st (stack_ptr + 4 * k) 0xdeadbeef);;;
      ctx_init sp task targ;;;
      arr_wr ctx th sp;;;
      arr_wr th_inf th inf;;;
      when THINKOS_ENABLE_TIMESHARE
        (arr_wr sched_pri th (opt_priority opt);;;
         p <- arr_rd sched_pri th;;
         when (THINKOS_SCHED_LIMIT_MAX <? p) (arr_wr sched_pri th THINKOS_SCHED_LIMIT_MAX);;;
         p <- arr_rd sched_pri th;;
         l <- get sched_limit;;
         when (l <? p) (put sched_limit p);;;
         l <- get sched_limit;;
         arr_wr sched_val th (s8 (l / 2)));;;
      (if THINKOS_ENABLE_PAUSE && opt_paused opt then
         bit_mem_wr wq_lst THINKOS_WQ_PAUSED th 1
       else
         bit_mem_wr wq_lst THINKOS_WQ_READY th 1;;;
         __thinkos_defer_sched);;;
      arg_wr arg 0 th.

(** ** End *)

(** The queue of the thread, from its status: [wq_lst[th_stat >> 1]]. *)
Definition stat_wq (stat : Z) : Z := Z.shiftr stat 1.

(** The body of the loop over all threads in [thinkos_thread_exit]: the
    schedule limit is raised again, and a thread that joins [self] is made
    ready with the exit code. *)
Definition exit_visit (self code j : Z) : K unit :=
  a <- bit_mem_rd th_alloc 0 j;;
  if a =? 0 then ret tt
  else
    when THINKOS_ENABLE_TIMESHARE
      (l <- get sched_limit;;
       p <- arr_rd sched_pri j;;
       when (l <? p) (put sched_limit p));;;
    when THINKOS_ENABLE_JOIN
      (b <- bit_mem_rd wq_lst (THINKOS_JOIN_BASE + self) j;;
       when (negb (b =? 0))
         (bit_mem_wr wq_lst THINKOS_WQ_READY j 1;;;
          bit_mem_wr wq_lst (THINKOS_JOIN_BASE + self) j 0;;;
          ctx_r0_wr j code)).

Definition thinkos_thread_exit (code : Z) : K unit :=
  self <- get active;;
  when THINKOS_ENABLE_TIMESHARE (bit_mem_wr wq_lst THINKOS_WQ_TMSHARE self 0);;;
  cm3_cpsid_i;;;
  stat <- arr_rd th_stat self;;
  arr_wr th_stat self 0;;;
  bit_mem_wr wq_lst (stat_wq stat) self 0;;;
  for_ THINKOS_THREADS_MAX (exit_visit self code);;;
  cm3_cpsie_i;;;
  bit_mem_wr th_alloc 0 self 0;;;
  arr_wr ctx self 0;;;
  __thinkos_wait self.

Definition canceled_wq : Z :=
  if THINKOS_ENABLE_JOIN then THINKOS_WQ_CANCELED else THINKOS_WQ_READY.

Definition thinkos_exit_svc (arg : Z) : K unit :=
  self <- get active;;
  code <- arg_rd arg 0;;
  __thinkos_wq_insert canceled_wq self;;;
  arg_wr arg 6 thinkos_thread_exit_ptr;;;
  arg_wr arg 0 code;;;
  __thinkos_defer_sched.

(** The check of the services that name a thread. *)
Definition thread_check (th arg : Z) (body : K unit) : K unit :=
  if THINKOS_THREADS_MAX <=? th then arg_wr arg 0 THINKOS_EINVAL
  else obj_allocated th_alloc th arg body.

Definition thinkos_cancel_svc (arg : Z) : K unit :=
  th <- arg_rd arg 0;;
  code <- arg_rd arg 1;;
  thread_check th arg (
    stat <- arr_rd th_stat th;;
    bit_mem_wr wq_lst (stat_wq stat) th 0;;;
    __thinkos_wq_insert canceled_wq th;;;
    when THINKOS_ENABLE_TIMESHARE (bit_mem_wr wq_lst THINKOS_WQ_TMSHARE th 0);;;
    bit_mem_wr wq_lst THINKOS_WQ_CLOCK th 0;;;
    c <- arr_rd ctx th;;
    st (c + CTX_PC) thinkos_thread_exit_ptr;;;
    st (c + CTX_R0) code;;;
    arg_wr arg 0 0).

Definition thinkos_join_svc (arg : Z) : K unit :=
  self <- get active;;
  th <- arg_rd arg 0;;
  thread_check th arg (
    when THINKOS_ENABLE_CANCEL
      (b <- bit_mem_rd wq_lst THINKOS_WQ_CANCELED th;;
       when (negb (b =? 0))
         (bit_mem_wr wq_lst THINKOS_WQ_CANCELED th 0;;;
          bit_mem_wr wq_lst THINKOS_WQ_READY th 1));;;
    __thinkos_wq_insert (THINKOS_JOIN_BASE + th) self;;;
    __thinkos_wait self;;;
    arg_wr arg 0 (-1)).

(** ** Pause and resume *)

Definition thinkos_pause_svc (arg : Z) : K unit :=
  th <- arg_rd arg 0;;
  thread_check th arg (
    arg_wr arg 0 0;;;
    b <- bit_mem_rd wq_lst THINKOS_WQ_PAUSED th;;
    if negb (b =? 0) then ret tt
    else
      bit_mem_wr wq_lst THINKOS_WQ_PAUSED th 1;;;
      stat <- arr_rd th_stat th;;
      bit_mem_wr wq_lst (stat_wq stat) th 0;;;
      when THINKOS_ENABLE_TIMESHARE (bit_mem_wr wq_lst THINKOS_WQ_TMSHARE th 0);;;
      bit_mem_wr wq_lst THINKOS_WQ_CLOCK th 0;;;
      __thinkos_defer_sched).

Definition thinkos_resume_svc (arg : Z) : K unit :=
  th <- arg_rd arg 0;;
  thread_check th arg (
    arg_wr arg 0 0;;;
    b <- bit_mem_rd wq_lst THINKOS_WQ_PAUSED th;;
    if b =? 0 then ret tt
    else
      bit_mem_wr wq_lst THINKOS_WQ_PAUSED th 0;;;
      stat <- arr_rd th_stat th;;
      bit_mem_wr wq_lst (stat_wq stat) th 1;;;
      bit_mem_wr wq_lst THINKOS_WQ_CLOCK th 1;;;
      __thinkos_defer_sched).

(** ** Sleep *)

Definition thinkos_sleep_svc (arg : Z) : K unit :=
  ms <- arg_rd arg 0;;
  self <- get active;;
  t <- get ticks;;
  arr_wr clock self (u32 (t + ms));;;
  bit_mem_wr wq_lst THINKOS_WQ_CLOCK self 1;;;
  arr_wr th_stat self (u8 (Z.shiftl THINKOS_WQ_CLOCK 1 + 1));;;
  __thinkos_wait self.

Definition thinkos_alarm_svc (arg : Z) : K unit :=
  ms <- arg_rd arg 0;;
  self <- get active;;
  arr_wr clock self ms;;;
  bit_mem_wr wq_lst THINKOS_WQ_CLOCK self 1;;;
  arr_wr th_stat self (u8 (Z.shiftl THINKOS_WQ_CLOCK 1 + 1));;;
  __thinkos_wait self.

(** ** Interrupts *)

Definition thinkos_irq_wait_svc (arg : Z) : K unit :=
  irq <- arg_rd arg 0;;
  self <- get active;;
  if THINKOS_IRQ_MAX <=? irq then arg_wr arg 0 THINKOS_EINVAL
  else
    arr_wr irq_th irq self;;;
    cm3_irq_pend_clr irq;;;
    cm3_irq_enable irq;;;
    __thinkos_wait self.

(** The default handler: the thread that waits for the interrupt is made
    ready, and the source is disabled until it waits again. *)
Definition cm3_default_isr (irq : Z) : K unit :=
  cm3_irq_disable irq;;;
  th <- arr_rd irq_th irq;;
  bit_mem_wr wq_lst THINKOS_WQ_READY th 1;;;
  __thinkos_defer_sched.
End thread.
