(* ===== verification/Sched.v ===== *)
(** * The scheduler, the tick and the kernel's start

    [sdk/libthinkos/thinkos_core.c]: [cm3_pendsv_isr] switches to the
    lowest-numbered ready thread, [cm3_systick_isr] ends the timed waits that
    are due and charges the running thread's time share, [thinkos_init] builds
    the run-time block. *)

From S2P Require Import Prelude Arch Config Kernel Thread.

Section sched.
Context `{Config}.
Open Scope c_scope.

(** PendSV. The registers r4-r11 are pushed below the exception frame, so the
    context pointer is PSP - 32; the exit pops them. *)
Definition cm3_pendsv_isr : K unit :=
  put pendsv false;;;
  sp <- get psp;;
  idx <- get active;;
  arr_wr ctx idx (sp - 32);;;
  idx <- __thinkos_wq_head THINKOS_WQ_READY;;
  put active idx;;;
  c <- arr_rd ctx idx;;
  put psp (c + 32).

(** The loop of SysTick over the threads that wait for the clock. [wq] is the
    local copy of the queue, bit-reversed, the visited threads cleared. *)
Definition clock_expire (j : Z) : K unit :=
  stat <- arr_rd th_stat j;;
  arr_wr th_stat j 0;;;
  bit_mem_wr wq_lst (stat_wq stat) j 0;;;
  bit_mem_wr wq_lst THINKOS_WQ_CLOCK j 0;;;
  bit_mem_wr wq_lst THINKOS_WQ_READY j 1.

Fixpoint clock_scan (fuel : nat) (wq now : Z) (sched : bool) : K bool :=
  match fuel with
  | O => fault
  | S n =>
      let j := __clz wq in
      if j <? 32 then
        let wq := Z.land wq (u32 (Z.lnot (Z.shiftr 0x80000000 j))) in
        c <- arr_rd clock j;;
        if s32 (c - now) <=? 0 then
          clock_expire j;;;
          clock_scan n wq now true
        else clock_scan n wq now sched
      else ret sched
  end.

(** The running thread is charged its priority; below zero it gets a new
    allowance and leaves the ready queue until the others had their turn. *)
Definition timeshare_tick (sched : bool) : K bool :=
  idx <- get active;;
  v <- arr_rd sched_val idx;;
  p <- arr_rd sched_pri idx;;
  arr_wr sched_val idx (s8 (v - p));;;
  v <- arr_rd sched_val idx;;
  if v <? 0 then
    l <- get sched_limit;;
    arr_wr sched_val idx (s8 (v + l));;;
    bit_mem_wr wq_lst THINKOS_WQ_TMSHARE idx 1;;;
    bit_mem_wr wq_lst THINKOS_WQ_READY idx 0;;;
    cm3_cpsid_i;;;
    tmshare_collect;;;
    cm3_cpsie_i;;;
    ret true
  else ret sched.

Definition cm3_systick_isr : K unit :=
  t <- get ticks;;
  let now := u32 (t + 1) in
  put ticks now;;;
  w <- arr_rd wq_lst THINKOS_WQ_CLOCK;;
  sched <- clock_scan 33 (__rbit w) now false;;
  sched <- (if THINKOS_ENABLE_TIMESHARE then timeshare_tick sched else ret sched);;
  when sched __thinkos_defer_sched.

(** ** Start *)

(** The run-time block before [thinkos_init]: all of it in [.bss]. *)
Definition zeros (n : Z) : list Z := replicate (Z.to_nat n) 0.
Definition bss_rt : thinkos_rt :=
  mk_rt (zeros (THINKOS_THREADS_MAX + 1)) 0 (zeros THINKOS_WQ_LST_END) (zeros THINKOS_THREADS_MAX)
    (zeros (THINKOS_THREADS_MAX + 1)) (zeros (THINKOS_THREADS_MAX + 1)) 0 0
    (zeros THINKOS_THREADS_MAX) (zeros THINKOS_SEMAPHORE_MAX)
    (zeros THINKOS_EVENT_MAX) (zeros THINKOS_EVENT_MAX)
    (zeros (bmp_words THINKOS_FLAG_MAX)) (zeros (bmp_words THINKOS_FLAG_MAX))
    (zeros THINKOS_MUTEX_MAX) (zeros THINKOS_IRQ_MAX) (zeros 1)
    (zeros (bmp_words THINKOS_MUTEX_MAX)) (zeros (bmp_words THINKOS_COND_MAX))
    (zeros (bmp_words THINKOS_SEMAPHORE_MAX)) (zeros (bmp_words THINKOS_EVENT_MAX))
    (zeros (bmp_words THINKOS_FLAG_MAX)) (zeros THINKOS_THREADS_MAX).
Definition reset_machine (sp : Z) : machine :=
  mk_machine bss_rt ∅ sp 0 false false
    (zeros (bmp_words THINKOS_IRQ_MAX)) (zeros (bmp_words THINKOS_IRQ_MAX)).

(** The bits past the last object of a bitmap are marked used. *)
Definition bmp_init (f : lens machine (list Z)) (max : Z) : K unit :=
  for_ (max / 32) (fun i => arr_wr f i 0);;;
  when (negb (max mod 32 =? 0))
    (arr_wr f (max / 32) (u32 (Z.shiftl 0xffffffff (max mod 32)))).

Definition thinkos_init (opt : Z) : K Z :=
  cm3_cpsid_i;;;
  for_ THINKOS_IRQ_MAX (fun irq => arr_wr irq_th irq (-1));;;
  arr_wr ctx THINKOS_THREADS_MAX thinkos_idle_ctx_ptr;;;
  when THINKOS_ENABLE_TIMESHARE
    (arr_wr sched_val THINKOS_THREADS_MAX 0;;;
     arr_wr sched_pri THINKOS_THREADS_MAX 0);;;
  st (thinkos_idle_ctx_ptr + CTX_PC) thinkos_idle_task_ptr;;;
  st (thinkos_idle_ctx_ptr + 60) 0x01000000;;;
  bmp_init mutex_alloc THINKOS_MUTEX_MAX;;;
  bmp_init sem_alloc THINKOS_SEMAPHORE_MAX;;;
  bmp_init cond_alloc THINKOS_COND_MAX;;;
  bmp_init flag_alloc THINKOS_FLAG_MAX;;;
  bmp_init ev_alloc THINKOS_EVENT_MAX;;;
  for_ THINKOS_MUTEX_MAX (fun i => arr_wr lock i (-1));;;
  for_ (bmp_words THINKOS_FLAG_MAX) (fun i => arr_wr flag_sig i 0;;; arr_wr flag_lock i 0);;;
  for_ THINKOS_EVENT_MAX (fun i => arr_wr ev_pend i 0;;; arr_wr ev_mask i 0xffffffff);;;
  let id := if THINKOS_THREADS_MAX <=? opt_id opt then THINKOS_THREADS_MAX - 1 else opt_id opt in
  arr_wr th_alloc 0 (u32 (Z.shiftl 0xffffffff THINKOS_THREADS_MAX));;;
  self <- thinkos_alloc_lo th_alloc id;;
  arr_wr th_inf self thinkos_main_inf_ptr;;;
  when THINKOS_ENABLE_TIMESHARE
    (let pri := if THINKOS_SCHED_LIMIT_MAX <? opt_priority opt
                then THINKOS_SCHED_LIMIT_MAX else opt_priority opt in
     arr_wr sched_pri self pri;;;
     arr_wr sched_val self (pri / 2);;;
     put sched_limit pri;;;
     when (pri <? THINKOS_SCHED_LIMIT_MIN) (put sched_limit THINKOS_SCHED_LIMIT_MIN));;;
  put active self;;;
  bit_mem_wr wq_lst THINKOS_WQ_READY self 1;;;
  when (THINKOS_THREADS_MAX <? 32)
    (bit_mem_wr wq_lst THINKOS_WQ_READY THINKOS_THREADS_MAX 1);;;
  when (THINKOS_ENABLE_PAUSE && opt_paused opt)
    (bit_mem_wr wq_lst THINKOS_WQ_PAUSED self 1;;;
     __thinkos_defer_sched);;;
  cm3_cpsie_i;;;
  ret self.
End sched.
