(* ===== verification/Svc.v ===== *)
(** * The service dispatcher

    [cm3_svc_isr] ([sdk/libthinkos/thinkos_svc.c]): the frame of the caller is
    found through the EXC_RETURN value in [lr], the service number is the
    immediate byte of the [svc] instruction before the return address. Before it
    the one service that no other file has, [thinkos_rt_snapshot_svc]
    ([thinkos_util.c], compiled in by [THINKOS_ENABLE_RT_DEBUG]): the words of
    [struct thinkos_rt], in the order and with the padding of its declaration in
    [sdk/include/thinkos_sys.h], are copied to the caller's buffer. *)

From S2P Require Import Prelude Arch Config Kernel Mutex Semaphore Cond Event Flag Thread Sched.

(** ** The snapshot of the run-time block *)

(** Byte fields fill words from the low end; what is left of the last word is
    padding, zero since the block was cleared. *)
Definition le_word (a b c d : Z) : Z :=
  Z.lor (u8 a) (Z.lor (Z.shiftl (u8 b) 8) (Z.lor (Z.shiftl (u8 c) 16) (Z.shiftl (u8 d) 24))).
Fixpoint pack_bytes (l : list Z) : list Z :=
  match l with
  | [] => []
  | a :: b :: c :: d :: l' => le_word a b c d :: pack_bytes l'
  | [a; b; c] => [le_word a b c 0]
  | [a; b] => [le_word a b 0 0]
  | [a] => [le_word a 0 0 0]
  end.

(** [ev[i].pend], [ev[i].mask], set after set. *)
Fixpoint pair_up (l1 l2 : list Z) : list Z :=
  match l1, l2 with
  | a :: l1', b :: l2' => a :: b :: pair_up l1' l2'
  | _, _ => []
  end.

(** [__attribute__ ((aligned (8)))]: an even number of words. *)
Definition align8 (l : list Z) : list Z := if Z.odd (zlen l) then l ++ [0] else l.

Section debug.
Context `{Config}.

(** The block read as an array of words, all [sizeof(struct thinkos_rt) / 4] of them. *)
Definition rt_words (r : thinkos_rt) : list Z :=
  align8 (rt_ctx r ++ [rt_active r] ++ rt_wq_lst r ++ pack_bytes (rt_th_stat r) ++
    (if THINKOS_ENABLE_TIMESHARE
     then pack_bytes (rt_sched_val r ++ rt_sched_pri r) ++ [rt_sched_limit r] else []) ++
    [rt_ticks r] ++ rt_clock r ++ rt_sem_val r ++ pair_up (rt_ev_pend r) (rt_ev_mask r) ++
    rt_flag_sig r ++ rt_flag_lock r ++ pack_bytes (rt_lock r ++ rt_irq_th r) ++
    rt_th_alloc r ++ rt_mutex_alloc r ++ rt_cond_alloc r ++ rt_sem_alloc r ++ rt_ev_alloc r ++
    rt_flag_alloc r ++ rt_th_inf r).

(** [for (i = 0; ...; ++i) dst[i] = src[i];] The destination is thread memory:
    it does not overlap the block that is read. *)
Fixpoint copy_words (dst : Z) (src : list Z) : K unit :=
  match src with
  | [] => ret tt
  | w :: src' => (st dst w;;; copy_words (dst + 4) src')%c
  end.

Definition thinkos_rt_snapshot_svc (arg : Z) : K unit :=
  (dst <- arg_rd arg 0;;
   pri <- cm3_primask_get;;
   cm3_primask_set true;;;
   rt <- get f_rt;;
   copy_words dst (rt_words rt);;;
   cm3_primask_set pri)%c.
End debug.

(** ** The dispatcher *)

Section svc.
Context `{Config}.
Open Scope c_scope.

(** A byte of a little-endian word. *)
Definition ld8 (a : Z) : K Z :=
  w <- ld (a - a mod 4);;
  ret (Z.land (Z.shiftr w (8 * (a mod 4))) 0xff).

Definition cm3_svc_stackframe (lr : Z) : K Z :=
  if Z.testbit lr 2 then get psp else get msp.

(** A service that is compiled in when [on]. *)
Definition svc_if (on : bool) (arg : Z) (c : K unit) : K unit :=
  if on then c else arg_wr arg 0 THINKOS_ENOSYS.

Definition svc_dispatch (svc arg : Z) : K unit :=
  if svc =? THINKOS_THREAD_SELF then self <- get active;; arg_wr arg 0 self
  else if svc =? THINKOS_THREAD_CREATE then thinkos_thread_create_svc arg
  else if svc =? THINKOS_YIELD then __thinkos_defer_sched
  else if svc =? THINKOS_PAUSE then svc_if THINKOS_ENABLE_PAUSE arg (thinkos_pause_svc arg)
  else if svc =? THINKOS_RESUME then svc_if THINKOS_ENABLE_PAUSE arg (thinkos_resume_svc arg)
  else if svc =? THINKOS_CANCEL then svc_if THINKOS_ENABLE_CANCEL arg (thinkos_cancel_svc arg)
  else if svc =? THINKOS_JOIN then svc_if THINKOS_ENABLE_JOIN arg (thinkos_join_svc arg)
  else if svc =? THINKOS_SLEEP then thinkos_sleep_svc arg
  else if svc =? THINKOS_ALARM then thinkos_alarm_svc arg
  else if svc =? THINKOS_CLOCK then t <- get ticks;; arg_wr arg 0 t
  else if svc =? THINKOS_MUTEX_ALLOC then svc_if (0 <? THINKOS_MUTEX_MAX) arg (thinkos_mutex_alloc_svc arg)
  else if svc =? THINKOS_MUTEX_FREE then svc_if (0 <? THINKOS_MUTEX_MAX) arg (thinkos_mutex_free_svc arg)
  else if svc =? THINKOS_MUTEX_LOCK then svc_if (0 <? THINKOS_MUTEX_MAX) arg (thinkos_mutex_lock_svc arg)
  else if svc =? THINKOS_MUTEX_TRYLOCK then svc_if (0 <? THINKOS_MUTEX_MAX) arg (thinkos_mutex_trylock_svc arg)
  else if svc =? THINKOS_MUTEX_TIMEDLOCK then svc_if (0 <? THINKOS_MUTEX_MAX) arg (thinkos_mutex_timedlock_svc arg)
  else if svc =? THINKOS_MUTEX_UNLOCK then svc_if (0 <? THINKOS_MUTEX_MAX) arg (thinkos_mutex_unlock_svc arg)
  else if svc =? THINKOS_COND_ALLOC then svc_if (0 <? THINKOS_COND_MAX) arg (thinkos_cond_alloc_svc arg)
  else if svc =? THINKOS_COND_FREE then svc_if (0 <? THINKOS_COND_MAX) arg (thinkos_cond_free_svc arg)
  else if svc =? THINKOS_COND_WAIT then svc_if (0 <? THINKOS_COND_MAX) arg (thinkos_cond_wait_svc arg)
  else if svc =? THINKOS_COND_TIMEDWAIT then svc_if (0 <? THINKOS_COND_MAX) arg (thinkos_cond_timedwait_svc arg)
  else if svc =? THINKOS_COND_SIGNAL then svc_if (0 <? THINKOS_COND_MAX) arg (thinkos_cond_signal_svc arg)
  else if svc =? THINKOS_COND_BROADCAST then svc_if (0 <? THINKOS_COND_MAX) arg (thinkos_cond_broadcast_svc arg)
  else if svc =? THINKOS_SEM_ALLOC then svc_if (0 <? THINKOS_SEMAPHORE_MAX) arg (thinkos_sem_alloc_svc arg)
  else if svc =? THINKOS_SEM_FREE then svc_if (0 <? THINKOS_SEMAPHORE_MAX) arg (thinkos_sem_free_svc arg)
  else if svc =? THINKOS_SEM_INIT then svc_if (0 <? THINKOS_SEMAPHORE_MAX) arg (thinkos_sem_init_svc arg)
  else if svc =? THINKOS_SEM_WAIT then svc_if (0 <? THINKOS_SEMAPHORE_MAX) arg (thinkos_sem_wait_svc arg)
  else if svc =? THINKOS_SEM_TRYWAIT then svc_if (0 <? THINKOS_SEMAPHORE_MAX) arg (thinkos_sem_trywait_svc arg)
  else if svc =? THINKOS_SEM_TIMEDWAIT then svc_if (0 <? THINKOS_SEMAPHORE_MAX) arg (thinkos_sem_timedwait_svc arg)
  else if svc =? THINKOS_SEM_POST then svc_if (0 <? THINKOS_SEMAPHORE_MAX) arg (thinkos_sem_post_svc arg)
  else if svc =? THINKOS_EVENT_ALLOC then svc_if (0 <? THINKOS_EVENT_MAX) arg (thinkos_ev_alloc_svc arg)
  else if svc =? THINKOS_EVENT_FREE then svc_if (0 <? THINKOS_EVENT_MAX) arg (thinkos_ev_free_svc arg)
  else if svc =? THINKOS_EVENT_WAIT then svc_if (0 <? THINKOS_EVENT_MAX) arg (thinkos_ev_wait_svc arg)
  else if svc =? THINKOS_EVENT_TIMEDWAIT then svc_if (0 <? THINKOS_EVENT_MAX) arg (thinkos_ev_timedwait_svc arg)
  else if svc =? THINKOS_EVENT_RAISE then svc_if (0 <? THINKOS_EVENT_MAX) arg (thinkos_ev_raise_svc arg)
  else if svc =? THINKOS_EVENT_MASK then svc_if (0 <? THINKOS_EVENT_MAX) arg (thinkos_ev_mask_svc arg)
  else if svc =? THINKOS_EVENT_UNMASK then svc_if (0 <? THINKOS_EVENT_MAX) arg (thinkos_ev_unmask_svc arg)
  else if svc =? THINKOS_FLAG_ALLOC then svc_if (0 <? THINKOS_FLAG_MAX) arg (thinkos_flag_alloc_svc arg)
  else if svc =? THINKOS_FLAG_FREE then svc_if (0 <? THINKOS_FLAG_MAX) arg (thinkos_flag_free_svc arg)
  else if svc =? THINKOS_FLAG_CLR then svc_if (0 <? THINKOS_FLAG_MAX) arg (thinkos_flag_clr_svc arg)
  else if svc =? THINKOS_FLAG_SET then svc_if (0 <? THINKOS_FLAG_MAX) arg (thinkos_flag_set_svc arg)
  else if svc =? THINKOS_FLAG_WAIT then svc_if (0 <? THINKOS_FLAG_MAX) arg (thinkos_flag_wait_svc arg)
  else if svc =? THINKOS_FLAG_TIMEDWAIT then svc_if (0 <? THINKOS_FLAG_MAX) arg (thinkos_flag_timedwait_svc arg)
  else if svc =? THINKOS_FLAG_RELEASE then svc_if (0 <? THINKOS_FLAG_MAX) arg (thinkos_flag_release_svc arg)
  else if svc =? THINKOS_FLAG_TAKE then svc_if (0 <? THINKOS_FLAG_MAX) arg (thinkos_flag_take_svc arg)
  else if svc =? THINKOS_FLAG_TIMEDTAKE then svc_if (0 <? THINKOS_FLAG_MAX) arg (thinkos_flag_timedtake_svc arg)
  else if svc =? THINKOS_FLAG_GIVE then svc_if (0 <? THINKOS_FLAG_MAX) arg (thinkos_flag_give_svc arg)
  else if svc =? THINKOS_IRQ_WAIT then svc_if (0 <? THINKOS_IRQ_MAX) arg (thinkos_irq_wait_svc arg)
  else if svc =? THINKOS_EXIT then thinkos_exit_svc arg
  else if svc =? THINKOS_RT_SNAPSHOT then svc_if THINKOS_ENABLE_RT_DEBUG arg (thinkos_rt_snapshot_svc arg)
  else arg_wr arg 0 THINKOS_ENOSYS.

Definition cm3_svc_isr (lr : Z) : K unit :=
  arg <- cm3_svc_stackframe lr;;
  pc <- arg_rd arg 6;;
  svc <- ld8 (pc - 2);;
  svc_dispatch svc arg.
End svc.
