(* ===== verification/Rules.v ===== *)
(** * Weakest preconditions of the kernel's operations

    Each operation of [Kernel.v] is given a pure state transformer [st_...]
    and a rule that replaces the operation by it once its array indexes are in
    range. The proofs about services then reason on compositions of these
    transformers. *)

From S2P Require Import Prelude Arch Config Kernel.

(** Read a field through a transformer that leaves it alone. *)
Ltac fsimpl_step :=
  match goal with
  | |- context [lget ?f (lset ?f ?v ?s)] => change (lget f (lset f v s)) with v
  | |- context [lget ?f (?h ?s)] =>
      lazymatch type of s with machine => change (lget f (h s)) with (lget f s) end
  end.
Ltac fsimpl := repeat fsimpl_step.

(** The array lengths of a state: [same_shape] is preserved by every store. *)
Record shape (c : Config) (m : machine) : Prop := {
  sh_ctx : zlen (lget ctx m) = THINKOS_THREADS_MAX + 1;
  sh_wq : zlen (lget wq_lst m) = THINKOS_WQ_LST_END;
  sh_stat : zlen (lget th_stat m) = THINKOS_THREADS_MAX;
  sh_clock : zlen (lget clock m) = THINKOS_THREADS_MAX;
  sh_sval : zlen (lget sched_val m) = THINKOS_THREADS_MAX + 1;
  sh_spri : zlen (lget sched_pri m) = THINKOS_THREADS_MAX + 1;
  sh_sem : zlen (lget sem_val m) = THINKOS_SEMAPHORE_MAX;
  sh_pend : zlen (lget ev_pend m) = THINKOS_EVENT_MAX;
  sh_mask : zlen (lget ev_mask m) = THINKOS_EVENT_MAX;
  sh_sig : zlen (lget flag_sig m) = bmp_words THINKOS_FLAG_MAX;
  sh_flock : zlen (lget flag_lock m) = bmp_words THINKOS_FLAG_MAX;
  sh_lock : zlen (lget lock m) = THINKOS_MUTEX_MAX;
  sh_irqth : zlen (lget irq_th m) = THINKOS_IRQ_MAX;
  sh_talloc : zlen (lget th_alloc m) = 1;
  sh_malloc : zlen (lget mutex_alloc m) = bmp_words THINKOS_MUTEX_MAX;
  sh_calloc : zlen (lget cond_alloc m) = bmp_words THINKOS_COND_MAX;
  sh_salloc : zlen (lget sem_alloc m) = bmp_words THINKOS_SEMAPHORE_MAX;
  sh_ealloc : zlen (lget ev_alloc m) = bmp_words THINKOS_EVENT_MAX;
  sh_falloc : zlen (lget flag_alloc m) = bmp_words THINKOS_FLAG_MAX;
  sh_inf : zlen (lget th_inf m) = THINKOS_THREADS_MAX;
  sh_irqen : zlen (lget irq_en m) = bmp_words THINKOS_IRQ_MAX;
  sh_irqpend : zlen (lget irq_pend m) = bmp_words THINKOS_IRQ_MAX;
}.
Arguments shape {c} m.
Arguments sh_ctx {c m}.
Arguments sh_wq {c m}.
Arguments sh_stat {c m}.
Arguments sh_clock {c m}.
Arguments sh_sval {c m}.
Arguments sh_spri {c m}.
Arguments sh_sem {c m}.
Arguments sh_pend {c m}.
Arguments sh_mask {c m}.
Arguments sh_sig {c m}.
Arguments sh_flock {c m}.
Arguments sh_lock {c m}.
Arguments sh_irqth {c m}.
Arguments sh_talloc {c m}.
Arguments sh_malloc {c m}.
Arguments sh_calloc {c m}.
Arguments sh_salloc {c m}.
Arguments sh_ealloc {c m}.
Arguments sh_falloc {c m}.
Arguments sh_inf {c m}.
Arguments sh_irqen {c m}.
Arguments sh_irqpend {c m}.

Create HintDb kshape.

Ltac solve_shape :=
  match goal with
  | H : shape ?m |- shape _ => destruct H; split; fsimpl; rewrite ?zlen_bset, ?zlen_zset; assumption
  end.

Lemma shape_mem `{Config} m v : shape m -> shape (lset mem v m).
Proof. intros. solve_shape. Qed.
Lemma shape_pendsv `{Config} m v : shape m -> shape (lset pendsv v m).
Proof. intros. solve_shape. Qed.
Lemma shape_primask `{Config} m v : shape m -> shape (lset primask v m).
Proof. intros. solve_shape. Qed.
#[export] Hint Resolve shape_mem shape_pendsv shape_primask : kshape.

Section rules.
Context `{Cfg : Config}.
Implicit Types (m : machine).

Definition st_mem (a v : Z) m : machine := lset mem (<[a := u32 v]> (lget mem m)) m.
Definition st_bit (f : lens machine (list Z)) (base b : Z) (v : bool) m : machine :=
  lset f (bset (lget f m) base b v) m.
Definition st_arr (f : lens machine (list Z)) (i v : Z) m : machine :=
  lset f (zset (lget f m) i v) m.
Definition st_insert (wq th : Z) m : machine :=
  st_arr th_stat th (u8 (Z.shiftl wq 1)) (st_bit wq_lst wq th true m).
Definition st_tmd_insert (wq th ms : Z) m : machine :=
  st_arr th_stat th (u8 (Z.shiftl wq 1 + 1))
    (st_bit wq_lst THINKOS_WQ_CLOCK th true
      (st_bit wq_lst wq th true
        (st_arr clock th (u32 (lget ticks m + ms)) m))).
Definition st_wake (wq th v : Z) m : machine :=
  st_arr th_stat th 0
    (st_mem (zget (lget ctx m) th + CTX_R0) v
      (st_bit wq_lst THINKOS_WQ_CLOCK th false
        (st_bit wq_lst wq th false
          (st_bit wq_lst THINKOS_WQ_READY th true m)))).
Definition st_unready (th : Z) m : machine := st_bit wq_lst THINKOS_WQ_READY th false m.
Definition st_defer m : machine := lset pendsv true m.

Lemma wp_ld a Q m : Q (load (lget mem m) a) m -> wp (ld a) Q m.
Proof. done. Qed.

Lemma wp_st a v Q m : Q tt (st_mem a v m) -> wp (st a v) Q m.
Proof. done. Qed.

Lemma wp_arg_rd a i Q m : Q (load (lget mem m) (a + 4 * i)) m -> wp (arg_rd a i) Q m.
Proof. done. Qed.

Lemma wp_arg_wr a i v Q m : Q tt (st_mem (a + 4 * i) v m) -> wp (arg_wr a i v) Q m.
Proof. done. Qed.

Lemma wp_arr_wr_st f i v Q m :
  0 <= i < zlen (lget f m) -> Q tt (st_arr f i v m) -> wp (arr_wr f i v) Q m.
Proof. apply wp_arr_wr. Qed.

Lemma wp_bit_mem_rd f base b Q m :
  0 <= base + b / 32 < zlen (lget f m) ->
  Q (Z.b2z (bget (lget f m) base b)) m -> wp (bit_mem_rd f base b) Q m.
Proof. intros Hi HQ. apply wp_bind, wp_arr_rd; [done|]. by apply wp_ret. Qed.

Lemma wp_bit_mem_wr f base b v Q m :
  0 <= base + b / 32 < zlen (lget f m) ->
  Q tt (st_bit f base b (Z.odd v) m) -> wp (bit_mem_wr f base b v) Q m.
Proof. intros Hi HQ. apply wp_bind, wp_arr_rd; [done|]. by apply wp_arr_wr. Qed.

Lemma wp_wq_head wq Q m :
  0 <= wq < zlen (lget wq_lst m) -> Q (ffs (zget (lget wq_lst m) wq)) m ->
  wp (__thinkos_wq_head wq) Q m.
Proof. intros Hi HQ. apply wp_bind, wp_arr_rd; [done|]. by apply wp_ret. Qed.

(** Side conditions: an index within an array of the shape. *)
Context `{!ConfigOk Cfg}.

Lemma wq_range m wq th :
  shape m -> 0 <= wq < THINKOS_WQ_LST_END -> 0 <= th < 32 -> 0 <= wq + th / 32 < zlen (lget wq_lst m).
Proof. intros Hsh ??. rewrite (sh_wq Hsh). lia. Qed.

Lemma wp_wq_bit wq th v Q m :
  shape m -> 0 <= wq < THINKOS_WQ_LST_END -> 0 <= th < 32 ->
  (shape (st_bit wq_lst wq th (Z.odd v) m) -> Q tt (st_bit wq_lst wq th (Z.odd v) m)) ->
  wp (bit_mem_wr wq_lst wq th v) Q m.
Proof.
  intros Hsh Hwq Hth HQ. apply wp_bit_mem_wr; [by apply wq_range|]. apply HQ.
  unfold st_bit. solve_shape.
Qed.

Lemma wp_th_stat th v Q m :
  shape m -> 0 <= th < THINKOS_THREADS_MAX ->
  (shape (st_arr th_stat th v m) -> Q tt (st_arr th_stat th v m)) -> wp (arr_wr th_stat th v) Q m.
Proof.
  intros Hsh Hth HQ. apply wp_arr_wr_st; [by rewrite (sh_stat Hsh)|].
  apply HQ. unfold st_arr. solve_shape.
Qed.

Lemma wp_wq_insert wq th Q m :
  shape m -> 0 <= wq < THINKOS_WQ_LST_END -> 0 <= th < THINKOS_THREADS_MAX ->
  (shape (st_insert wq th m) -> Q tt (st_insert wq th m)) -> wp (__thinkos_wq_insert wq th) Q m.
Proof.
  intros Hsh Hwq Hth HQ. pose proof threads_bound.
  apply wp_bind, wp_wq_bit; [done..|lia|]. intros Hsh1. apply wp_th_stat; [done..|]. apply HQ.
Qed.

Lemma wp_tmdwq_insert wq th ms Q m :
  shape m -> 0 <= wq < THINKOS_WQ_LST_END -> 0 <= th < THINKOS_THREADS_MAX ->
  (shape (st_tmd_insert wq th ms m) -> Q tt (st_tmd_insert wq th ms m)) ->
  wp (__thinkos_tmdwq_insert wq th ms) Q m.
Proof.
  intros Hsh Hwq Hth HQ. pose proof threads_bound. pose proof wq_clock_range.
  apply wp_bind, wp_get, wp_bind, wp_arr_wr_st; [by rewrite (sh_clock Hsh)|].
  assert (shape (st_arr clock th (u32 (lget ticks m + ms)) m)) as Hsh0 by (unfold st_arr; solve_shape).
  apply wp_bind, wp_wq_bit; [done..|lia|]. intros Hsh1.
  apply wp_bind, wp_wq_bit; [done|lia|lia|]. intros Hsh2.
  apply wp_th_stat; [done..|]. apply HQ.
Qed.

Lemma wp_ctx_r0_wr th v Q m :
  shape m -> 0 <= th < THINKOS_THREADS_MAX ->
  Q tt (st_mem (zget (lget ctx m) th + CTX_R0) v m) -> wp (ctx_r0_wr th v) Q m.
Proof.
  intros Hsh Hth HQ. apply wp_bind, wp_arr_rd; [rewrite (sh_ctx Hsh); lia|].
  by apply wp_st.
Qed.

Lemma wp_wakeup wq th Q m :
  shape m -> 0 <= wq < THINKOS_WQ_LST_END -> 0 <= th < THINKOS_THREADS_MAX ->
  (shape (st_wake wq th 0 m) -> Q tt (st_wake wq th 0 m)) -> wp (__thinkos_wakeup wq th) Q m.
Proof.
  intros Hsh Hwq Hth HQ. pose proof threads_bound. pose proof wq_ready_range. pose proof wq_clock_range.
  apply wp_bind, wp_wq_bit; [done|lia|lia|]. intros Hsh1.
  apply wp_bind, wp_wq_bit; [done|lia|lia|]. intros Hsh2.
  apply wp_bind, wp_wq_bit; [done|lia|lia|]. intros Hsh3.
  apply wp_bind, wp_ctx_r0_wr; [done..|].
  apply wp_th_stat; [apply shape_mem, Hsh3|done|]. apply HQ.
Qed.

Lemma wp_wakeup_return wq th v Q m :
  shape m -> 0 <= wq < THINKOS_WQ_LST_END -> 0 <= th < THINKOS_THREADS_MAX ->
  (shape (st_wake wq th v m) -> Q tt (st_wake wq th v m)) -> wp (__thinkos_wakeup_return wq th v) Q m.
Proof.
  intros Hsh Hwq Hth HQ. pose proof threads_bound. pose proof wq_ready_range. pose proof wq_clock_range.
  apply wp_bind, wp_wq_bit; [done|lia|lia|]. intros Hsh1.
  apply wp_bind, wp_wq_bit; [done|lia|lia|]. intros Hsh2.
  apply wp_bind, wp_wq_bit; [done|lia|lia|]. intros Hsh3.
  apply wp_bind, wp_th_stat; [done..|]. intros Hsh4.
  apply wp_ctx_r0_wr; [done..|]. apply (HQ (shape_mem _ _ Hsh4)).
Qed.

(** In the core configuration a wait is: leave the ready queue, ask for the
    scheduler. *)
Context `{!CoreConfig Cfg}.

Lemma wp_wait th Q m :
  shape m -> 0 <= th < THINKOS_THREADS_MAX ->
  (shape (st_defer (st_unready th m)) -> Q tt (st_defer (st_unready th m))) -> wp (__thinkos_wait th) Q m.
Proof.
  intros Hsh Hth HQ. pose proof threads_bound. pose proof wq_ready_range. pose proof wq_clock_range.
  unfold __thinkos_wait. rewrite core_timeshare.
  apply wp_bind, wp_wq_bit; [done|lia|lia|]. intros Hsh1.
  apply wp_bind, wp_ret, wp_put, HQ. by apply shape_pendsv.
Qed.
End rules.
