(* ===== verification/Inv.v ===== *)
(** * The kernel invariant

    What holds of [thinkos_rt] between two kernel entries in the core
    configuration (no time sharing, no join, pause or cancel: the one the
    probe is built with). [Inv x d p m]: [x] is the thread that is leaving
    the ready queue inside the current service (-1 when none), [d] tells that
    a thread was made ready and the scheduler not yet asked for, [p] is
    PRIMASK. Between entries the state satisfies [Inv (-1) false false]. *)

From S2P Require Import Prelude Arch Config Kernel Rules.

(** Whether thread code is known never to free an object, or set a semaphore
    to a positive value, while threads wait for it. The kernel does not check
    it. What a blocked thread waits for is an invariant under this discipline
    only; every other part of the invariant holds for any caller. *)
Class Discipline := disciplined : Prop.
Definition any_caller : Discipline := False.
Definition polite_callers : Discipline := True.

Section inv.
Context `{Cfg : Config} {Disc : Discipline}.
Implicit Types (m : machine).

Definition qbit m (q th : Z) : bool := bget (lget wq_lst m) q th.
Definition stat m (th : Z) : Z := zget (lget th_stat m) th.
Definition ready m (th : Z) : bool := qbit m THINKOS_WQ_READY th.
Definition is_thread (th : Z) : Prop := 0 <= th < THINKOS_THREADS_MAX.
(** The queues of the kernel objects. *)
Definition obj_wq (q : Z) : Prop := THINKOS_MUTEX_BASE <= q < THINKOS_JOIN_BASE.
(** The queues a blocked thread can be in. *)
Definition wait_wq (q : Z) : Prop := THINKOS_WQ_CLOCK <= q < THINKOS_JOIN_BASE.

(** ** Why a thread may be blocked on an object *)

Definition mutex_wait m (k th : Z) : Prop :=
  zget (lget lock m) k <> -1 /\ zget (lget lock m) k <> th /\ bget (lget mutex_alloc m) 0 k = true.
Definition cond_wait m (k : Z) : Prop := bget (lget cond_alloc m) 0 k = true.
Definition sem_wait m (k : Z) : Prop :=
  zget (lget sem_val m) k = 0 /\ bget (lget sem_alloc m) 0 k = true.
Definition event_wait m (k : Z) : Prop :=
  Z.land (zget (lget ev_pend m) k) (zget (lget ev_mask m) k) = 0 /\ bget (lget ev_alloc m) 0 k = true.
Definition flag_wait m (k : Z) : Prop :=
  (bget (lget flag_sig m) 0 k = false \/ bget (lget flag_lock m) 0 k = true) /\
  bget (lget flag_alloc m) 0 k = true.

Record can_wait m (q th : Z) : Prop := {
  cw_mutex : forall k, 0 <= k < THINKOS_MUTEX_MAX -> q = THINKOS_MUTEX_BASE + k -> mutex_wait m k th;
  cw_cond : forall k, 0 <= k < THINKOS_COND_MAX -> q = THINKOS_COND_BASE + k -> cond_wait m k;
  cw_sem : forall k, 0 <= k < THINKOS_SEMAPHORE_MAX -> q = THINKOS_SEM_BASE + k -> sem_wait m k;
  cw_event : forall k, 0 <= k < THINKOS_EVENT_MAX -> q = THINKOS_EVENT_BASE + k -> event_wait m k;
  cw_flag : forall k, 0 <= k < THINKOS_FLAG_MAX -> q = THINKOS_FLAG_BASE + k -> flag_wait m k;
}.

(** ** The parts of the invariant *)

Record QInv (x : Z) m : Prop := {
  q_words : words_ok (lget wq_lst m);
  q_dom : forall q th, 0 <= q < THINKOS_WQ_LST_END -> 0 <= th < 32 -> qbit m q th = true ->
    is_thread th \/ (q = THINKOS_WQ_READY /\ th = THINKOS_THREAD_IDLE);
  q_idle : THINKOS_THREADS_MAX < 32 -> ready m THINKOS_THREAD_IDLE = true;
  q_stat_range : forall th, is_thread th -> stat m th = 0 \/ wait_wq (stat m th / 2);
  q_stat : forall q th, obj_wq q -> is_thread th -> qbit m q th = true -> stat m th / 2 = q;
  q_excl : forall th, is_thread th -> th <> x -> ready m th = true ->
    stat m th = 0 /\ forall q, wait_wq q -> qbit m q th = false;
  q_alloc : forall th, is_thread th -> bget (lget th_alloc m) 0 th = false ->
    stat m th = 0 /\ forall q, 0 <= q < THINKOS_WQ_LST_END -> qbit m q th = false;
  (* a status names the queue the thread is in, its low bit the clock queue *)
  q_in : forall th, is_thread th ->
    (stat m th <> 0 -> qbit m (stat m th / 2) th = true) /\
    qbit m THINKOS_WQ_CLOCK th = Z.odd (stat m th);
}.

Definition OInv m : Prop :=
  disciplined -> forall q th, obj_wq q -> is_thread th -> qbit m q th = true -> can_wait m q th.

(** The bits past the last object are taken. *)
Definition bmp_ok (l : list Z) (max : Z) : Prop :=
  words_ok l /\ forall i, max <= i < 32 * zlen l -> bget l 0 i = true.

Record AInv m : Prop := {
  a_th : bmp_ok (lget th_alloc m) THINKOS_THREADS_MAX;
  a_mutex : bmp_ok (lget mutex_alloc m) THINKOS_MUTEX_MAX;
  a_cond : bmp_ok (lget cond_alloc m) THINKOS_COND_MAX;
  a_sem : bmp_ok (lget sem_alloc m) THINKOS_SEMAPHORE_MAX;
  a_ev : bmp_ok (lget ev_alloc m) THINKOS_EVENT_MAX;
  a_flag : bmp_ok (lget flag_alloc m) THINKOS_FLAG_MAX;
  a_semval : words_ok (lget sem_val m);
  a_pend : words_ok (lget ev_pend m);
  a_mask : words_ok (lget ev_mask m);
  a_lock : forall k, -1 <= zget (lget lock m) k < THINKOS_THREADS_MAX;
}.

(** An enabled interrupt source has a thread that waits for it and for
    nothing else, and each source its own. *)
Definition irq_waits (x : Z) m (th : Z) : Prop :=
  is_thread th /\ bget (lget th_alloc m) 0 th = true /\ (th <> x -> ready m th = false) /\
  stat m th = 0 /\ forall q, wait_wq q -> qbit m q th = false.
Record IInv (x : Z) m : Prop := {
  i_waits : forall i, 0 <= i < THINKOS_IRQ_MAX -> bget (lget irq_en m) 0 i = true ->
    irq_waits x m (zget (lget irq_th m) i);
  i_inj : forall i j, 0 <= i < THINKOS_IRQ_MAX -> 0 <= j < THINKOS_IRQ_MAX ->
    bget (lget irq_en m) 0 i = true -> bget (lget irq_en m) 0 j = true ->
    zget (lget irq_th m) i = zget (lget irq_th m) j -> i = j;
}.

(** Unless PendSV is pending, the first ready thread is the one that runs. *)
Record SInv (d : bool) m : Prop := {
  s_active : 0 <= lget active m <= THINKOS_THREADS_MAX;
  s_first : d = false -> lget pendsv m = false ->
    lget active m = ffs (zget (lget wq_lst m) THINKOS_WQ_READY);
}.

Record Inv (x : Z) (d p : bool) m : Prop := {
  inv_shape : shape m;
  inv_q : QInv x m;
  inv_o : OInv m;
  inv_a : AInv m;
  inv_i : IInv x m;
  inv_s : SInv d m;
  inv_p : lget primask m = p;
}.
End inv.

Arguments inv_shape {Cfg Disc x d p m}.
Arguments inv_q {Cfg Disc x d p m}.
Arguments inv_o {Cfg Disc x d p m}.
Arguments inv_a {Cfg Disc x d p m}.
Arguments inv_i {Cfg Disc x d p m}.
Arguments inv_s {Cfg Disc x d p m}.
Arguments inv_p {Cfg Disc x d p m}.
#[export] Hint Resolve inv_shape : kshape.

Section frame.
Context `{Cfg : Config} {Disc : Discipline}.
Implicit Types (m : machine).

(** The reasons to be blocked read the object fields only. *)
Lemma can_wait_same m m' q th :
  lget lock m' = lget lock m -> lget mutex_alloc m' = lget mutex_alloc m ->
  lget cond_alloc m' = lget cond_alloc m -> lget sem_val m' = lget sem_val m ->
  lget sem_alloc m' = lget sem_alloc m -> lget ev_pend m' = lget ev_pend m ->
  lget ev_mask m' = lget ev_mask m -> lget ev_alloc m' = lget ev_alloc m ->
  lget flag_sig m' = lget flag_sig m -> lget flag_lock m' = lget flag_lock m ->
  lget flag_alloc m' = lget flag_alloc m -> can_wait m q th -> can_wait m' q th.
Proof.
  intros E1 E2 E3 E4 E5 E6 E7 E8 E9 E10 E11 [].
  split; unfold mutex_wait, cond_wait, sem_wait, event_wait, flag_wait in *;
    rewrite ?E1, ?E2, ?E3, ?E4, ?E5, ?E6, ?E7, ?E8, ?E9, ?E10, ?E11; assumption.
Qed.

End frame.

(** Close a part of the invariant that the step at hand does not touch. *)
Ltac kframe :=
  match goal with
  | H : @QInv _ _ _ |- @QInv _ _ _ => destruct H; split; assumption
  | H : @OInv _ _ ?m |- @OInv _ _ _ =>
      intros ? ? ? ? ? ?; apply (can_wait_same m); [reflexivity..|]; apply H; assumption
  | H : @AInv _ _ |- @AInv _ _ => destruct H; split; assumption
  | H : @IInv _ _ _ |- @IInv _ _ _ => destruct H; split; assumption
  | H : @SInv _ _ _ |- @SInv _ _ _ => destruct H; split; assumption
  end.

Section facts.
Context `{Cfg : Config} {Disc : Discipline} `{!ConfigOk Cfg}.
Implicit Types (m : machine).

Lemma thread_range th : is_thread th -> 0 <= th < 32.
Proof. pose proof threads_bound. unfold is_thread. lia. Qed.

Lemma obj_wq_range q : obj_wq q -> 0 <= q < THINKOS_WQ_LST_END.
Proof. pose proof layout_order. unfold obj_wq, THINKOS_WQ_READY in *. lia. Qed.

Lemma wait_wq_range q : wait_wq q -> 0 <= q < THINKOS_WQ_LST_END.
Proof. pose proof layout_order. unfold wait_wq, THINKOS_WQ_READY in *. lia. Qed.

Lemma obj_wait q : obj_wq q -> wait_wq q.
Proof. pose proof layout_order. unfold obj_wq, wait_wq. lia. Qed.

Lemma wait_not_ready q : wait_wq q -> q <> THINKOS_WQ_READY.
Proof. pose proof layout_order. unfold wait_wq. lia. Qed.

Lemma obj_not_clock q : obj_wq q -> q <> THINKOS_WQ_CLOCK.
Proof. pose proof layout_order. unfold obj_wq. lia. Qed.

Lemma clock_wait_wq : wait_wq THINKOS_WQ_CLOCK.
Proof. pose proof layout_order. unfold wait_wq. lia. Qed.

Lemma shape_bit_wq m q th v : shape m -> shape (st_bit wq_lst q th v m).
Proof. intros. unfold st_bit. solve_shape. Qed.

Lemma shape_insert m q th : shape m -> shape (st_insert q th m).
Proof. intros. unfold st_insert, st_arr, st_bit. solve_shape. Qed.

Lemma shape_tmd_insert m q th ms : shape m -> shape (st_tmd_insert q th ms m).
Proof. intros. unfold st_tmd_insert, st_arr, st_bit. solve_shape. Qed.

Lemma shape_wake m q th v : shape m -> shape (st_wake q th v m).
Proof. intros. unfold st_wake, st_arr, st_mem, st_bit. solve_shape. Qed.

Lemma qbit_bit m q th v q' th' :
  shape m -> 0 <= q < THINKOS_WQ_LST_END -> 0 <= th < 32 -> 0 <= th' < 32 ->
  qbit (st_bit wq_lst q th v m) q' th' = if decide (q = q' /\ th = th') then v else qbit m q' th'.
Proof.
  intros Hsh ???. unfold qbit, st_bit. fsimpl. apply bget_bset_word; [|done..].
  by rewrite (sh_wq Hsh).
Qed.

Lemma qbit_insert m q th q' th' :
  shape m -> 0 <= q < THINKOS_WQ_LST_END -> 0 <= th < 32 -> 0 <= th' < 32 ->
  qbit (st_insert q th m) q' th' = if decide (q = q' /\ th = th') then true else qbit m q' th'.
Proof. apply qbit_bit. Qed.

Lemma qbit_tmd_insert m q th ms q' th' :
  shape m -> 0 <= q < THINKOS_WQ_LST_END -> 0 <= th < 32 -> 0 <= th' < 32 ->
  qbit (st_tmd_insert q th ms m) q' th' =
  if decide ((q' = q \/ q' = THINKOS_WQ_CLOCK) /\ th = th') then true else qbit m q' th'.
Proof.
  intros Hsh Hq Ht Ht'. pose proof wq_clock_range.
  assert (shape (st_bit wq_lst q th true (st_arr clock th (u32 (lget ticks m + ms)) m))) as Hsh'.
  { unfold st_bit, st_arr. solve_shape. }
  change (qbit (st_bit wq_lst THINKOS_WQ_CLOCK th true
    (st_bit wq_lst q th true (st_arr clock th (u32 (lget ticks m + ms)) m))) q' th' =
    if decide ((q' = q \/ q' = THINKOS_WQ_CLOCK) /\ th = th') then true else qbit m q' th').
  rewrite qbit_bit by done. destruct (decide (_ /\ _)) as [[<- ->]|H1].
  { by rewrite decide_True by auto. }
  rewrite qbit_bit; [|unfold st_arr; solve_shape|done..].
  change (qbit (st_arr clock th (u32 (lget ticks m + ms)) m) q' th') with (qbit m q' th').
  destruct (decide (_ /\ _)) as [[<- ->]|H2].
  - by rewrite decide_True by auto.
  - rewrite decide_False; [done|]. intros [[-> | ->] ->]; tauto.
Qed.

Lemma qbit_wake m q th v q' th' :
  shape m -> wait_wq q -> 0 <= th < 32 -> 0 <= th' < 32 ->
  qbit (st_wake q th v m) q' th' =
  if decide (th = th' /\ (q' = THINKOS_WQ_READY \/ q' = q \/ q' = THINKOS_WQ_CLOCK))
  then bool_decide (q' = THINKOS_WQ_READY) else qbit m q' th'.
Proof.
  intros Hsh Hq Ht Ht'. pose proof wq_clock_range. pose proof wq_ready_range.
  pose proof (wait_wq_range q Hq) as Hr. pose proof (wait_not_ready q Hq).
  pose proof (wait_not_ready _ clock_wait_wq).
  change (qbit (st_wake q th v m) q' th') with
    (qbit (st_bit wq_lst THINKOS_WQ_CLOCK th false (st_bit wq_lst q th false
      (st_bit wq_lst THINKOS_WQ_READY th true m))) q' th').
  rewrite !qbit_bit by eauto using shape_bit_wq.
  destruct (decide (th = th')) as [->|Hne].
  - destruct (decide (THINKOS_WQ_CLOCK = q' /\ th' = th')) as [[<- _]|D1].
    { rewrite decide_True by auto. by rewrite bool_decide_false. }
    destruct (decide (q = q' /\ th' = th')) as [[<- _]|D2].
    { rewrite decide_True by auto. by rewrite bool_decide_false. }
    destruct (decide (THINKOS_WQ_READY = q' /\ th' = th')) as [[<- _]|D3].
    { rewrite decide_True by auto. by rewrite bool_decide_true. }
    rewrite decide_False; [done|]. intros [_ [-> | [-> | ->]]]; tauto.
  - rewrite !decide_False by tauto. done.
Qed.

Lemma stat_arr m th v th' :
  shape m -> is_thread th ->
  zget (lget th_stat (st_arr th_stat th v m)) th' = if decide (th = th') then v else stat m th'.
Proof.
  intros Hsh Ht. unfold st_arr. fsimpl. apply zget_zset. by rewrite (sh_stat Hsh).
Qed.

Lemma stat_insert m q th th' :
  shape m -> 0 <= q < THINKOS_WQ_LST_END -> is_thread th ->
  stat (st_insert q th m) th' = if decide (th = th') then 2 * q else stat m th'.
Proof.
  intros Hsh Hq Ht. pose proof wq_lst_end_bound.
  transitivity (if decide (th = th') then u8 (Z.shiftl q 1) else stat m th').
  { by apply (stat_arr (st_bit wq_lst q th true m)); [apply shape_bit_wq|]. }
  destruct (decide _); [|done]. rewrite Z.shiftl_mul_pow2 by lia. rewrite u8_small by lia. lia.
Qed.

Lemma stat_tmd_insert m q th ms th' :
  shape m -> 0 <= q < THINKOS_WQ_LST_END -> is_thread th ->
  stat (st_tmd_insert q th ms m) th' = if decide (th = th') then 2 * q + 1 else stat m th'.
Proof.
  intros Hsh Hq Ht. pose proof wq_lst_end_bound.
  transitivity (if decide (th = th') then u8 (Z.shiftl q 1 + 1) else stat m th').
  { unfold stat, st_tmd_insert, st_arr, st_bit. fsimpl. apply zget_zset. by rewrite (sh_stat Hsh). }
  destruct (decide _); [|done]. rewrite Z.shiftl_mul_pow2 by lia. rewrite u8_small by lia. lia.
Qed.

Lemma stat_wake m q th v th' :
  shape m -> is_thread th ->
  stat (st_wake q th v m) th' = if decide (th = th') then 0 else stat m th'.
Proof.
  intros Hsh Ht. unfold stat, st_wake, st_mem, st_arr, st_bit. fsimpl. apply zget_zset.
  by rewrite (sh_stat Hsh).
Qed.

Lemma words_bit_wq m q th v :
  shape m -> 0 <= q < THINKOS_WQ_LST_END -> 0 <= th < 32 -> words_ok (lget wq_lst m) ->
  words_ok (lget wq_lst (st_bit wq_lst q th v m)).
Proof.
  intros Hsh Hq Ht Hw. unfold st_bit. fsimpl. apply words_ok_bset; [|done].
  rewrite (sh_wq Hsh). lia.
Qed.

(** The ready word is a function of its bits. *)
Lemma ready_word_eq m m' :
  words_ok (lget wq_lst m) -> words_ok (lget wq_lst m') ->
  (forall th, 0 <= th < 32 -> ready m th = ready m' th) ->
  zget (lget wq_lst m) THINKOS_WQ_READY = zget (lget wq_lst m') THINKOS_WQ_READY.
Proof.
  intros Hw Hw' H. apply Z.bits_inj'. intros i Hi. destruct (Z_lt_le_dec i 32) as [Hlt|Hge].
  - specialize (H i (conj Hi Hlt)). unfold ready, qbit, bget in H.
    rewrite Z.div_small, Z.mod_small, Z.add_0_r in H by lia. done.
  - by rewrite !(testbit_high _ 32).
Qed.

(** The first thread of a queue. *)
Lemma head_bit m q :
  let th := ffs (zget (lget wq_lst m) q) in
  th <> THINKOS_THREAD_NULL -> 0 <= th < 32 /\ qbit m q th = true.
Proof.
  intros th Hne. pose proof (ffs_bound (zget (lget wq_lst m) q)). unfold THINKOS_THREAD_NULL in *.
  assert (th < 32) by lia. split; [lia|]. unfold qbit, bget.
  rewrite Z.div_small, Z.mod_small, Z.add_0_r by lia. by apply ffs_bit.
Qed.

Lemma head_least m q th :
  0 <= th < ffs (zget (lget wq_lst m) q) -> qbit m q th = false.
Proof.
  intros Hth. pose proof (ffs_bound (zget (lget wq_lst m) q)). unfold qbit, bget.
  rewrite Z.div_small, Z.mod_small, Z.add_0_r by lia. by apply ffs_below.
Qed.

Lemma head_none m q th :
  ffs (zget (lget wq_lst m) q) = THINKOS_THREAD_NULL -> 0 <= th < 32 -> qbit m q th = false.
Proof. intros E Hth. apply head_least. rewrite E. done. Qed.

Lemma head_thread x m q :
  QInv x m -> wait_wq q -> ffs (zget (lget wq_lst m) q) <> THINKOS_THREAD_NULL ->
  is_thread (ffs (zget (lget wq_lst m) q)).
Proof.
  intros HQ Hq Hne. destruct (head_bit m q Hne) as [Hr Hb].
  destruct (q_dom _ _ HQ _ _ (wait_wq_range q Hq) Hr Hb) as [|[-> _]]; [done|].
  by destruct (wait_not_ready _ Hq).
Qed.
End facts.
