(* ===== verification/InvOps.v ===== *)
(** * The invariant through the kernel's operations

    One lemma per state transformer of [Rules.v]: blocking a thread on a queue,
    leaving the ready queue, waking a thread, handing a mutex over, and the
    updates of the object fields. *)

From S2P Require Import Prelude Arch Config Kernel Rules Inv.

Section ops.
Context `{Cfg : Config} {Disc : Discipline} `{!ConfigOk Cfg}.
Implicit Types (m : machine).

(** ** Steps that touch no kernel data *)

Lemma Inv_mem x d p m a v : Inv x d p m -> Inv x d p (st_mem a v m).
Proof. intros []; split; [by apply shape_mem|kframe..|done]. Qed.

Lemma Inv_primask x d p m b : Inv x d p m -> Inv x d b (lset primask b m).
Proof. intros []; split; [by apply shape_primask|kframe..|done]. Qed.

Lemma Inv_defer x d p m : Inv x d p m -> Inv x false p (st_defer m).
Proof.
  intros [Hsh HQ HO HA HI HS Hp]; split; [by apply shape_pendsv|kframe..| |done].
  destruct HS as [Ha _]. split; [exact Ha|]. intros _ E. discriminate E.
Qed.

(** Extra dirt is harmless. *)
Lemma Inv_dirty x d p m : Inv x d p m -> Inv x true p m.
Proof. intros [Hsh HQ HO HA HI HS Hp]; split; try done. destruct HS. by split. Qed.

(** ** Threads *)

(** A ready thread is allocated and no interrupt source waits for it. *)
Lemma ready_alloc x m th :
  QInv x m -> is_thread th -> ready m th = true -> bget (lget th_alloc m) 0 th = true.
Proof.
  intros HQ Hth Hr. destruct (bget _ 0 th) eqn:E; [done|].
  destruct (q_alloc _ _ HQ th Hth E) as [_ Hb].
  pose proof (Hb _ wq_ready_range) as Hr'. unfold ready in Hr. congruence.
Qed.

Lemma irq_not_ready m th i :
  IInv (-1) m -> is_thread th -> ready m th = true ->
  0 <= i < THINKOS_IRQ_MAX -> bget (lget irq_en m) 0 i = true -> zget (lget irq_th m) i <> th.
Proof.
  intros HI Hth Hr Hi He E. destruct (i_waits _ _ HI i Hi He) as (Ht & _ & Hn & _).
  rewrite E in Hn, Ht. rewrite Hn in Hr; [done|]. unfold is_thread in Ht. lia.
Qed.

(** The queue the status names. *)
Lemma stat_queue x m j : QInv x m -> is_thread j -> 0 <= stat m j / 2 < THINKOS_WQ_LST_END.
Proof.
  intros HQ Hj. destruct (q_stat_range _ _ HQ j Hj) as [->|H]; [apply wq_ready_range|by apply wait_wq_range].
Qed.

(** ** Blocking

    [m'] is [m] with the running thread [self] put in the queue [q], and
    possibly in the clock queue; it has not left the ready queue yet. *)
Section block.
Context (m m' : machine) (self q : Z).
Hypothesis Hself : is_thread self.
Hypothesis Hready : ready m self = true.
Hypothesis Hq : wait_wq q.
Hypothesis Hother : forall q' th, 0 <= q' < THINKOS_WQ_LST_END -> 0 <= th < 32 -> th <> self ->
  qbit m' q' th = qbit m q' th.
Hypothesis Hown : forall q', 0 <= q' < THINKOS_WQ_LST_END -> qbit m' q' self = true ->
  qbit m q' self = true \/ q' = q \/ q' = THINKOS_WQ_CLOCK.
Hypothesis Hown_ready : ready m' self = true.
Hypothesis Hstat : forall th, th <> self -> stat m' th = stat m th.
Hypothesis Hstat_own : stat m' self / 2 = q.
Hypothesis Hin : qbit m' q self = true.
Hypothesis Hclk : qbit m' THINKOS_WQ_CLOCK self = Z.odd (stat m' self).
Hypothesis Halloc : lget th_alloc m' = lget th_alloc m.
Hypothesis Hwords : words_ok (lget wq_lst m').

Lemma block_own q' : QInv (-1) m -> obj_wq q' -> qbit m' q' self = true -> q' = q.
Proof using All.
  intros HQ Hq' Hb. destruct (q_excl _ _ HQ self Hself) as [_ Hn]; [unfold is_thread in *; lia|done|].
  destruct (Hown q' (obj_wq_range _ Hq') Hb) as [H|[->| ->]]; [|done|].
  - rewrite Hn in H; [done|by apply obj_wait].
  - by destruct (obj_not_clock _ Hq').
Qed.

Lemma QInv_block : QInv (-1) m -> QInv self m'.
Proof using All.
  intros HQ. pose proof (thread_range self Hself) as Hs32. pose proof wq_ready_range as Hrr.
  pose proof threads_bound as Htb. split.
  - done.
  - intros q' th Hq' Hth Hb. destruct (decide (th = self)) as [->|Hne]; [by left|].
    rewrite Hother in Hb by done. by apply (q_dom _ _ HQ).
  - intros Hlt. unfold ready. rewrite Hother; [by apply (q_idle _ _ HQ)|done|unfold THINKOS_THREAD_IDLE; lia|].
    unfold is_thread, THINKOS_THREAD_IDLE in *. lia.
  - intros th Hth. destruct (decide (th = self)) as [->|Hne]; [right; by rewrite Hstat_own|].
    rewrite Hstat by done. by apply (q_stat_range _ _ HQ).
  - intros q' th Hq' Hth Hb. destruct (decide (th = self)) as [->|Hne].
    + rewrite Hstat_own. symmetry. by apply block_own.
    + rewrite Hstat by done. apply (q_stat _ _ HQ); [done..|].
      rewrite <-Hother; [done|by apply obj_wq_range|by apply thread_range|done].
  - intros th Hth Hne Hr. unfold ready in Hr. rewrite Hother in Hr; [|done|by apply thread_range|done].
    destruct (q_excl _ _ HQ th Hth) as [Hs0 Hn]; [unfold is_thread in *; lia|done|].
    rewrite Hstat by done. split; [done|]. intros q' Hq'.
    rewrite Hother; [by apply Hn|by apply wait_wq_range|by apply thread_range|done].
  - intros th Hth Ha. rewrite Halloc in Ha. destruct (decide (th = self)) as [->|Hne].
    + rewrite (ready_alloc _ _ _ HQ Hself Hready) in Ha. done.
    + destruct (q_alloc _ _ HQ th Hth Ha) as [Hs0 Hn]. rewrite Hstat by done. split; [done|].
      intros q' Hq'. rewrite Hother; [by apply Hn|done|by apply thread_range|done].
  - intros th Hth. destruct (decide (th = self)) as [->|Hne]; [rewrite Hstat_own; done|].
    rewrite Hstat by done. destruct (q_in _ _ HQ th Hth) as [H1 H2]. pose proof wq_clock_range.
    rewrite !Hother; [done|done|by apply thread_range|done| |by apply thread_range|done].
    by eapply stat_queue.
Qed.

Lemma IInv_block :
  IInv (-1) m -> lget irq_en m' = lget irq_en m -> lget irq_th m' = lget irq_th m -> IInv self m'.
Proof using All.
  intros HI He Ht. split.
  - intros i Hi Hen. rewrite He in Hen. rewrite Ht.
    pose proof (irq_not_ready _ _ _ HI Hself Hready Hi Hen) as Hne.
    destruct (i_waits _ _ HI i Hi Hen) as (H1 & H2 & H3 & H4 & H5).
    split; [done|]. rewrite Halloc. split; [done|]. pose proof wq_ready_range. split; [|split].
    + intros _. unfold ready. rewrite Hother; [|done|by apply thread_range|done].
      apply H3. unfold is_thread in *. lia.
    + by rewrite Hstat.
    + intros q' Hq'. rewrite Hother; [by apply H5|by apply wait_wq_range|by apply thread_range|done].
  - rewrite He, Ht. apply (i_inj _ _ HI).
Qed.

Lemma OInv_block :
  QInv (-1) m -> OInv m -> (forall q' th, can_wait m q' th -> can_wait m' q' th) ->
  (obj_wq q -> can_wait m q self) -> OInv m'.
Proof using All.
  intros HQ HO Hc Hcw Hd q' th Hq' Hth Hb. apply Hc. destruct (decide (th = self)) as [->|Hne].
  - pose proof (block_own _ HQ Hq' Hb) as E. rewrite E in Hq' |- *. by apply Hcw.
  - apply HO; [done..|]. rewrite <-Hother; [done|by apply obj_wq_range|by apply thread_range|done].
Qed.

Lemma SInv_block d :
  QInv (-1) m -> SInv d m -> lget active m' = lget active m -> lget pendsv m' = lget pendsv m -> SInv d m'.
Proof using All.
  intros HQ [Ha Hf] Ea Ep. split; [by rewrite Ea|]. intros Hd Hp. rewrite Ea, Hf; [|done|congruence].
  f_equal. apply ready_word_eq; [apply HQ|done|]. intros th Hth.
  destruct (decide (th = self)) as [->|Hne]; [congruence|].
  symmetry. apply Hother; [apply wq_ready_range|done..].
Qed.
End block.

Lemma Inv_insert d p m q self :
  Inv (-1) d p m -> is_thread self -> ready m self = true -> obj_wq q -> can_wait m q self ->
  Inv self d p (st_insert q self m).
Proof.
  intros [Hsh HQ HO HA HI HS Hp] Ht Hr Hq Hcw. pose proof (thread_range _ Ht) as H32.
  pose proof (obj_wq_range _ Hq) as Hqr. pose proof wq_ready_range as Hrr.
  assert (forall q' th, 0 <= q' < THINKOS_WQ_LST_END -> 0 <= th < 32 -> th <> self ->
    qbit (st_insert q self m) q' th = qbit m q' th) as H1.
  { intros. rewrite qbit_insert by done. by rewrite decide_False by (intros [? ?]; congruence). }
  assert (forall q', 0 <= q' < THINKOS_WQ_LST_END -> qbit (st_insert q self m) q' self = true ->
    qbit m q' self = true \/ q' = q \/ q' = THINKOS_WQ_CLOCK) as H2.
  { intros q' Hq'. rewrite qbit_insert by done. destruct (decide _) as [[<- _]|]; tauto. }
  assert (ready (st_insert q self m) self = true) as H3.
  { unfold ready. rewrite qbit_insert by done. destruct (decide _); done. }
  assert (forall th, th <> self -> stat (st_insert q self m) th = stat m th) as H4.
  { intros. rewrite stat_insert by done. by rewrite decide_False by done. }
  assert (stat (st_insert q self m) self / 2 = q) as H5.
  { rewrite stat_insert by done. rewrite decide_True by done. lia. }
  assert (qbit (st_insert q self m) q self = true) as H7.
  { rewrite qbit_insert by done. by rewrite decide_True. }
  assert (qbit (st_insert q self m) THINKOS_WQ_CLOCK self = Z.odd (stat (st_insert q self m) self)) as H8.
  { rewrite stat_insert, decide_True by done. rewrite Z.odd_even. rewrite qbit_insert; [|done|done|done|done].
    pose proof (obj_not_clock _ Hq). rewrite decide_False by (intros [? _]; congruence).
    apply (q_excl _ _ HQ self Ht); [unfold is_thread in *; lia|done|apply clock_wait_wq]. }
  assert (words_ok (lget wq_lst (st_insert q self m))) as H6.
  { apply (words_bit_wq m); [done..|apply HQ]. }
  split.
  - by apply shape_insert.
  - apply (QInv_block m _ self q); eauto using obj_wait.
  - apply (OInv_block m _ self q); eauto using obj_wait. intros q' th. by apply (can_wait_same m).
  - kframe.
  - apply (IInv_block m _ self q); eauto using obj_wait.
  - apply (SInv_block m _ self q); eauto using obj_wait.
  - done.
Qed.

Lemma Inv_tmd_insert d p m q ms self :
  Inv (-1) d p m -> is_thread self -> ready m self = true -> obj_wq q -> can_wait m q self ->
  Inv self d p (st_tmd_insert q self ms m).
Proof.
  intros [Hsh HQ HO HA HI HS Hp] Ht Hr Hq Hcw. pose proof (thread_range _ Ht) as H32.
  pose proof (obj_wq_range _ Hq) as Hqr. pose proof wq_ready_range as Hrr.
  assert (forall q' th, 0 <= q' < THINKOS_WQ_LST_END -> 0 <= th < 32 -> th <> self ->
    qbit (st_tmd_insert q self ms m) q' th = qbit m q' th) as H1.
  { intros. rewrite qbit_tmd_insert by done. by rewrite decide_False by (intros [? ?]; congruence). }
  assert (forall q', 0 <= q' < THINKOS_WQ_LST_END -> qbit (st_tmd_insert q self ms m) q' self = true ->
    qbit m q' self = true \/ q' = q \/ q' = THINKOS_WQ_CLOCK) as H2.
  { intros q' Hq'. rewrite qbit_tmd_insert by done. destruct (decide _) as [[? _]|]; tauto. }
  assert (ready (st_tmd_insert q self ms m) self = true) as H3.
  { unfold ready. rewrite qbit_tmd_insert by done. destruct (decide _); done. }
  assert (forall th, th <> self -> stat (st_tmd_insert q self ms m) th = stat m th) as H4.
  { intros. rewrite stat_tmd_insert by done. by rewrite decide_False by done. }
  assert (stat (st_tmd_insert q self ms m) self / 2 = q) as H5.
  { rewrite stat_tmd_insert by done. rewrite decide_True by done. lia. }
  assert (qbit (st_tmd_insert q self ms m) q self = true) as H7.
  { rewrite qbit_tmd_insert by done. rewrite decide_True by auto. done. }
  assert (qbit (st_tmd_insert q self ms m) THINKOS_WQ_CLOCK self = Z.odd (stat (st_tmd_insert q self ms m) self)) as H8.
  { rewrite stat_tmd_insert, decide_True by done. rewrite Z.odd_odd, qbit_tmd_insert by done.
    by rewrite decide_True by auto. }
  assert (words_ok (lget wq_lst (st_tmd_insert q self ms m))) as H6.
  { change (words_ok (lget wq_lst (st_bit wq_lst THINKOS_WQ_CLOCK self true (st_bit wq_lst q self true m)))).
    apply words_bit_wq; [by apply shape_bit_wq|apply wq_clock_range|done|].
    apply words_bit_wq; [done..|apply HQ]. }
  split.
  - by apply shape_tmd_insert.
  - apply (QInv_block m _ self q); eauto using obj_wait.
  - apply (OInv_block m _ self q); eauto using obj_wait. intros q' th. by apply (can_wait_same m).
  - kframe.
  - apply (IInv_block m _ self q); eauto using obj_wait.
  - apply (SInv_block m _ self q); eauto using obj_wait.
  - done.
Qed.

(** Asleep on the clock alone. *)
Definition st_clock_insert (self clk : Z) m : machine :=
  st_arr th_stat self (u8 (Z.shiftl THINKOS_WQ_CLOCK 1 + 1))
    (st_bit wq_lst THINKOS_WQ_CLOCK self true (st_arr clock self clk m)).

Lemma Inv_clock_insert d p m clk self :
  Inv (-1) d p m -> is_thread self -> ready m self = true -> Inv self d p (st_clock_insert self clk m).
Proof.
  intros [Hsh HQ HO HA HI HS Hp] Ht Hr. pose proof (thread_range _ Ht) as H32.
  pose proof wq_clock_range as Hcr. pose proof wq_ready_range as Hrr. pose proof wq_lst_end_bound.
  set (m' := st_clock_insert self clk m).
  assert (forall q' th, 0 <= th < 32 -> qbit m' q' th =
    if decide (THINKOS_WQ_CLOCK = q' /\ self = th) then true else qbit m q' th) as H0.
  { intros q' th Hth. apply (qbit_bit (st_arr clock self clk m)); [|done..]. unfold st_arr. solve_shape. }
  assert (forall th, stat m' th = if decide (self = th) then 2 * THINKOS_WQ_CLOCK + 1 else stat m th) as H4.
  { intros th. transitivity (if decide (self = th) then u8 (Z.shiftl THINKOS_WQ_CLOCK 1 + 1) else stat m th).
    - unfold stat, m', st_clock_insert, st_arr, st_bit. fsimpl. apply zget_zset. by rewrite (sh_stat Hsh).
    - destruct (decide _); [|done]. rewrite Z.shiftl_mul_pow2 by lia. rewrite u8_small by lia. lia. }
  assert (forall q' th, 0 <= q' < THINKOS_WQ_LST_END -> 0 <= th < 32 -> th <> self ->
    qbit m' q' th = qbit m q' th) as H1.
  { intros. rewrite H0 by done. by rewrite decide_False by (intros [? ?]; congruence). }
  assert (forall q', 0 <= q' < THINKOS_WQ_LST_END -> qbit m' q' self = true ->
    qbit m q' self = true \/ q' = THINKOS_WQ_CLOCK \/ q' = THINKOS_WQ_CLOCK) as H2.
  { intros q' Hq'. rewrite H0 by done. destruct (decide _) as [[? _]|]; auto. }
  assert (ready m' self = true) as H3.
  { unfold ready. rewrite H0 by done. destruct (decide _); done. }
  assert (forall th, th <> self -> stat m' th = stat m th) as H5.
  { intros. rewrite H4. by rewrite decide_False by done. }
  assert (stat m' self / 2 = THINKOS_WQ_CLOCK) as H6.
  { rewrite H4, decide_True by done. lia. }
  assert (qbit m' THINKOS_WQ_CLOCK self = true) as H8.
  { rewrite H0 by done. by rewrite decide_True. }
  assert (qbit m' THINKOS_WQ_CLOCK self = Z.odd (stat m' self)) as H9.
  { rewrite H8, H4, decide_True by done. by rewrite Z.odd_odd. }
  assert (words_ok (lget wq_lst m')) as H7.
  { apply (words_bit_wq (st_arr clock self clk m)); [unfold st_arr; solve_shape|done..|apply HQ]. }
  split.
  - unfold m', st_clock_insert, st_arr, st_bit. solve_shape.
  - apply (QInv_block m _ self THINKOS_WQ_CLOCK); eauto using clock_wait_wq.
  - apply (OInv_block m _ self THINKOS_WQ_CLOCK); eauto using clock_wait_wq.
    + intros q' th. by apply (can_wait_same m).
    + intros Hq. by destruct (obj_not_clock _ Hq).
  - kframe.
  - apply (IInv_block m _ self THINKOS_WQ_CLOCK); eauto using clock_wait_wq.
  - apply (SInv_block m _ self THINKOS_WQ_CLOCK); eauto using clock_wait_wq.
  - done.
Qed.

(** ** Leaving the ready queue *)

Lemma Inv_unready x d p m : Inv x d p m -> is_thread x -> Inv (-1) true p (st_unready x m).
Proof.
  intros [Hsh HQ HO HA HI HS Hp] Ht. pose proof (thread_range _ Ht) as H32.
  pose proof wq_ready_range as Hrr. pose proof threads_bound.
  assert (forall q' th, 0 <= th < 32 -> qbit (st_unready x m) q' th =
    if decide (THINKOS_WQ_READY = q' /\ x = th) then false else qbit m q' th) as H0.
  { intros q' th Hth. by apply qbit_bit. }
  assert (forall q' th, 0 <= th < 32 -> qbit (st_unready x m) q' th = true -> qbit m q' th = true) as H1.
  { intros q' th Hth. rewrite H0 by done. by destruct (decide _). }
  assert (forall q' th, wait_wq q' -> 0 <= th < 32 -> qbit m q' th = false -> qbit (st_unready x m) q' th = false) as H2.
  { intros q' th Hq' Hth. rewrite H0 by done. by destruct (decide _). }
  split.
  - by apply shape_bit_wq.
  - split.
    + apply words_bit_wq; [done..|apply HQ].
    + intros q th Hq Hth Hb. apply (q_dom _ _ HQ); eauto.
    + intros Hlt. unfold ready. rewrite H0 by (unfold THINKOS_THREAD_IDLE; lia).
      rewrite decide_False by (unfold is_thread, THINKOS_THREAD_IDLE in *; lia). by apply (q_idle _ _ HQ).
    + apply (q_stat_range _ _ HQ).
    + intros q th Hq Hth Hb. apply (q_stat _ _ HQ); [done..|]. apply H1; [by apply thread_range|done].
    + intros th Hth _ Hr. unfold ready in Hr. rewrite H0 in Hr by eauto using thread_range.
      destruct (decide (THINKOS_WQ_READY = THINKOS_WQ_READY /\ x = th)) as [|Hne]; [done|].
      destruct (q_excl _ _ HQ th Hth) as [Hs0 Hn]; [intros ->; by apply Hne|done|]. split; [done|].
      intros q Hq. apply H2; eauto using thread_range.
    + intros th Hth Ha. destruct (q_alloc _ _ HQ th Hth Ha) as [Hs0 Hn]. split; [done|].
      intros q Hq. rewrite H0 by eauto using thread_range. destruct (decide _); auto.
    + intros th Hth. destruct (q_in _ _ HQ th Hth) as [Hi1 Hi2].
      assert (forall q, wait_wq q -> qbit (st_unready x m) q th = qbit m q th) as Hw.
      { intros q Hq. rewrite H0 by eauto using thread_range. rewrite decide_False; [done|].
        intros [E _]. by destruct (wait_not_ready _ Hq). }
      change (stat (st_unready x m) th) with (stat m th).
      rewrite (Hw _ clock_wait_wq). split; [|done]. intros Hs.
      destruct (q_stat_range _ _ HQ th Hth); [done|]. rewrite Hw by done. by apply Hi1.
  - intros Hd q th Hq Hth Hb. apply (can_wait_same m); [reflexivity..|].
    apply HO; [done..|]. apply H1; [by apply thread_range|done].
  - kframe.
  - split; [|apply (i_inj _ _ HI)]. intros i Hi He.
    destruct (i_waits _ _ HI i Hi He) as (Ha & Hb & Hc & Hd & Hf).
    split; [done|]. split; [done|]. split; [|split; [done|]].
    + intros _. unfold ready. rewrite H0 by eauto using thread_range.
      destruct (decide _) as [|Hne]; [done|]. apply Hc. intros E. by destruct Hne.
    + intros q Hq. apply H2; eauto using thread_range.
  - split; [apply HS|done].
  - done.
Qed.

Lemma Inv_wait x d p m : Inv x d p m -> is_thread x -> Inv (-1) false p (st_defer (st_unready x m)).
Proof. intros HI Hx. eapply Inv_defer. by eapply Inv_unready. Qed.

(** ** Waking *)

Section wake.
Context (x : Z) (m : machine) (q th v : Z).
Hypothesis Hsh : shape m.
Hypothesis HQ : QInv x m.
Hypothesis Hq : obj_wq q.
Hypothesis Hth : is_thread th.
Hypothesis Hb : qbit m q th = true.

Lemma wake_qbit q' th' : 0 <= th' < 32 -> qbit (st_wake q th v m) q' th' =
  if decide (th = th' /\ (q' = THINKOS_WQ_READY \/ q' = q \/ q' = THINKOS_WQ_CLOCK))
  then bool_decide (q' = THINKOS_WQ_READY) else qbit m q' th'.
Proof using All. apply qbit_wake; eauto using obj_wait, thread_range. Qed.

(** The woken thread is in no queue but the ready one. *)
Lemma wake_own q' : wait_wq q' -> qbit (st_wake q th v m) q' th = false.
Proof using All.
  intros Hq'. rewrite wake_qbit by eauto using thread_range.
  destruct (decide _) as [|Hne].
  { apply bool_decide_false. by apply wait_not_ready. }
  destruct (qbit m q' th) eqn:E; [|done]. exfalso. apply Hne. split; [done|].
  destruct (decide (q' = THINKOS_WQ_CLOCK)); [by auto|]. right; left.
  assert (obj_wq q') as Ho. { pose proof layout_order. unfold wait_wq, obj_wq in *. lia. }
  pose proof (q_stat _ _ HQ q' th Ho Hth E). pose proof (q_stat _ _ HQ q th Hq Hth Hb). congruence.
Qed.

Lemma wake_sub q' th' : wait_wq q' -> 0 <= th' < 32 -> qbit (st_wake q th v m) q' th' = true ->
  qbit m q' th' = true /\ th' <> th.
Proof using All.
  intros Hq' Hth' Hb'. destruct (decide (th' = th)) as [->|Hne].
  { rewrite wake_own in Hb'; done. }
  split; [|done]. rewrite wake_qbit in Hb' by done. rewrite decide_False in Hb'; [done|].
  intros [? _]; congruence.
Qed.

Lemma wake_other q' th' : 0 <= th' < 32 -> th' <> th -> qbit (st_wake q th v m) q' th' = qbit m q' th'.
Proof using All.
  intros ??. rewrite wake_qbit by done. rewrite decide_False; [done|]. intros [? _]; congruence.
Qed.

Lemma QInv_wake : QInv x (st_wake q th v m).
Proof using All.
  pose proof (thread_range _ Hth) as H32. pose proof (obj_wq_range _ Hq) as Hqr.
  pose proof wq_ready_range. pose proof wq_clock_range. pose proof threads_bound. split.
  - change (words_ok (lget wq_lst (st_bit wq_lst THINKOS_WQ_CLOCK th false
      (st_bit wq_lst q th false (st_bit wq_lst THINKOS_WQ_READY th true m))))).
    apply words_bit_wq; [eauto using shape_bit_wq|done..|].
    apply words_bit_wq; [eauto using shape_bit_wq|done..|]. apply words_bit_wq; [done..|apply HQ].
  - intros q' th' Hq' Hth' Hb'. destruct (decide (th' = th)) as [->|Hne]; [by left|].
    rewrite wake_other in Hb' by done. by apply (q_dom _ _ HQ).
  - intros Hlt. unfold ready. rewrite wake_other; [by apply (q_idle _ _ HQ)|unfold THINKOS_THREAD_IDLE; lia|].
    unfold is_thread, THINKOS_THREAD_IDLE in *. lia.
  - intros th' Hth'. rewrite stat_wake by done. destruct (decide _); [by left|].
    by apply (q_stat_range _ _ HQ).
  - intros q' th' Hq' Hth' Hb'. destruct (wake_sub q' th') as [Hb'' Hne]; eauto using obj_wait, thread_range.
    rewrite stat_wake by done. rewrite decide_False by done. by apply (q_stat _ _ HQ).
  - intros th' Hth' Hx Hr. rewrite stat_wake by done. destruct (decide (th = th')) as [<-|Hne].
    { split; [done|]. apply wake_own. }
    unfold ready in Hr. rewrite wake_other in Hr by eauto using thread_range.
    destruct (q_excl _ _ HQ th' Hth' Hx Hr) as [Hs0 Hn]. split; [done|].
    intros q' Hq'. rewrite wake_other by eauto using thread_range. by apply Hn.
  - intros th' Hth' Ha. destruct (q_alloc _ _ HQ th' Hth' Ha) as [Hs0 Hn].
    assert (th' <> th) as Hne. { intros ->. rewrite Hn in Hb; done. }
    rewrite stat_wake by done. rewrite decide_False by done. split; [done|].
    intros q' Hq'. rewrite wake_other by eauto using thread_range. by apply Hn.
  - intros th' Hth'. rewrite stat_wake by done. destruct (decide (th = th')) as [<-|Hne].
    { split; [done|]. apply wake_own, clock_wait_wq. }
    rewrite !wake_other by eauto using thread_range. by apply (q_in _ _ HQ).
Qed.

Lemma IInv_wake : IInv x m -> IInv x (st_wake q th v m).
Proof using All.
  intros HI. split; [|apply (i_inj _ _ HI)]. intros i Hi He.
  destruct (i_waits _ _ HI i Hi He) as (H1 & H2 & H3 & H4 & H5).
  change (zget (lget irq_th (st_wake q th v m)) i) with (zget (lget irq_th m) i).
  assert (zget (lget irq_th m) i <> th) as Hne.
  { intros E. rewrite E in H5. rewrite H5 in Hb; [done|by apply obj_wait]. }
  split; [done|]. split; [done|]. split; [|split].
  - intros Hx. unfold ready. rewrite wake_other by eauto using thread_range. by apply H3.
  - rewrite stat_wake by done. by rewrite decide_False by done.
  - intros q' Hq'. rewrite wake_other by eauto using thread_range. by apply H5.
Qed.
End wake.

Lemma Inv_wake x d p m q th v :
  Inv x d p m -> obj_wq q -> is_thread th -> qbit m q th = true -> Inv x true p (st_wake q th v m).
Proof.
  intros [Hsh HQ HO HA HI HS Hp] Hq Hth Hb. split.
  - by apply shape_wake.
  - by apply QInv_wake.
  - intros Hd q' th' Hq' Hth' Hb'. apply (can_wait_same m); [reflexivity..|].
    eapply wake_sub in Hb' as [? _]; eauto using obj_wait, thread_range.
  - kframe.
  - by apply IInv_wake.
  - split; [apply HS|done].
  - done.
Qed.

(** The owner of a mutex changes to a waiter, which is woken. *)
Lemma Inv_pass x d p m k th v :
  Inv x d p m -> 0 <= k < THINKOS_MUTEX_MAX -> is_thread th ->
  qbit m (THINKOS_MUTEX_BASE + k) th = true ->
  Inv x true p (st_wake (THINKOS_MUTEX_BASE + k) th v (st_arr lock k th m)).
Proof.
  intros [Hsh HQ HO HA HI HS Hp] Hk Hth Hb.
  assert (obj_wq (THINKOS_MUTEX_BASE + k)) as Hq.
  { pose proof layout_order. unfold obj_wq, THINKOS_COND_BASE in *. lia. }
  assert (shape (st_arr lock k th m)) as Hsh' by (unfold st_arr; solve_shape).
  assert (QInv x (st_arr lock k th m)) as HQ' by kframe.
  split.
  - by apply shape_wake.
  - by apply QInv_wake.
  - intros Hd q' th' Hq' Hth' Hb'.
    eapply (wake_sub x) in Hb' as [Hb' Hne]; eauto using obj_wait, thread_range.
    destruct (HO Hd q' th' Hq' Hth' Hb') as [Cm Cc Cs Ce Cf]. split; try assumption.
    intros k' Hk' E. destruct (Cm k' Hk' E) as (H1 & H2 & H3).
    unfold mutex_wait. unfold st_wake, st_arr, st_mem, st_bit. fsimpl.
    rewrite !zget_zset by (by rewrite (sh_lock Hsh)).
    destruct (decide (k = k')); [|done]. split; [|split; [congruence|done]].
    unfold is_thread in Hth. lia.
  - destruct HA. split; try assumption. intros k'. unfold st_wake, st_arr, st_mem, st_bit. fsimpl.
    rewrite zget_zset by (by rewrite (sh_lock Hsh)). destruct (decide _); [unfold is_thread in *; lia|done].
  - apply IInv_wake; try done. kframe.
  - split; [apply HS|done].
  - done.
Qed.
End ops.
