(* ===== verification/InvObj.v ===== *)
(** * The invariant through the updates of kernel objects

    A field of an object may change as long as the threads that wait on the
    object keep a reason to wait; most updates happen when nobody does. *)

From S2P Require Import Prelude Arch Config Kernel Rules Inv InvOps.

(** An update of object fields: every part but the reasons to wait and the
    field's own range is framed. *)
Ltac obj_update :=
  match goal with
  | H : @Inv _ _ _ _ _ ?m |- @Inv _ _ _ _ _ _ =>
      let Hsh := fresh "Hsh" in let HQ := fresh "HQ" in let HO := fresh "HO" in
      let HA := fresh "HA" in let HI := fresh "HI" in let HS := fresh "HS" in let Hp := fresh "Hp" in
      destruct H as [Hsh HQ HO HA HI HS Hp]; split;
      [unfold st_arr, st_bit; solve_shape|kframe|
       let q := fresh "q" in let th := fresh "th" in
       let Hd := fresh "Hd" in intros Hd q th ? ? ?;
       let C := fresh "C" in pose proof (HO Hd q th ltac:(assumption) ltac:(assumption) ltac:(assumption)) as C;
       destruct C as [Cm Cc Cs Ce Cf]; split; try assumption|
       destruct HA; split; try assumption|kframe|kframe|exact Hp]
  end.

Section obj.
Context `{Cfg : Config} {Disc : Discipline} `{!ConfigOk Cfg}.
Implicit Types (m : machine).

Definition no_waiters m (q : Z) : Prop := forall th, is_thread th -> qbit m q th = false.

(** Nobody waits, if the callers are disciplined. *)
Definition calm m (q : Z) : Prop := disciplined -> no_waiters m q.

Lemma no_waiters_calm m q : no_waiters m q -> calm m q.
Proof. by intros H _. Qed.

Lemma waiter_exists {m q th} : no_waiters m q -> is_thread th -> qbit m q th = true -> False.
Proof. intros H Hth Hb. by rewrite (H th Hth) in Hb. Qed.

Lemma head_no_waiters m q : ffs (zget (lget wq_lst m) q) = THINKOS_THREAD_NULL -> no_waiters m q.
Proof. intros E th Hth. apply head_none; [done|by apply thread_range]. Qed.

Lemma mutex_wq k : 0 <= k < THINKOS_MUTEX_MAX -> obj_wq (THINKOS_MUTEX_BASE + k).
Proof. pose proof layout_order. unfold obj_wq, THINKOS_COND_BASE in *. lia. Qed.
Lemma cond_wq k : 0 <= k < THINKOS_COND_MAX -> obj_wq (THINKOS_COND_BASE + k).
Proof. pose proof layout_order. unfold obj_wq, THINKOS_SEM_BASE in *. lia. Qed.
Lemma sem_wq k : 0 <= k < THINKOS_SEMAPHORE_MAX -> obj_wq (THINKOS_SEM_BASE + k).
Proof. pose proof layout_order. unfold obj_wq, THINKOS_EVENT_BASE in *. lia. Qed.
Lemma event_wq k : 0 <= k < THINKOS_EVENT_MAX -> obj_wq (THINKOS_EVENT_BASE + k).
Proof. pose proof layout_order. unfold obj_wq, THINKOS_FLAG_BASE in *. lia. Qed.
Lemma flag_wq k : 0 <= k < THINKOS_FLAG_MAX -> obj_wq (THINKOS_FLAG_BASE + k).
Proof. pose proof layout_order. unfold obj_wq, THINKOS_JOIN_BASE in *. lia. Qed.

(** The queues of different classes are different. *)
Ltac other_class :=
  intros ? ? ?; exfalso;
  unfold THINKOS_JOIN_BASE, THINKOS_FLAG_BASE, THINKOS_EVENT_BASE, THINKOS_SEM_BASE, THINKOS_COND_BASE in *;
  pose proof mutex_bound; pose proof cond_bound; pose proof sem_bound; pose proof event_bound;
  pose proof flag_bound; lia.

Lemma can_wait_mutex m k th :
  0 <= k < THINKOS_MUTEX_MAX -> mutex_wait m k th -> can_wait m (THINKOS_MUTEX_BASE + k) th.
Proof. intros Hk Hw. split; [intros k' ? ?; by replace k' with k by lia|other_class..]. Qed.
Lemma can_wait_cond m k th :
  0 <= k < THINKOS_COND_MAX -> cond_wait m k -> can_wait m (THINKOS_COND_BASE + k) th.
Proof. intros Hk Hw. split; [other_class|intros k' ? ?; by replace k' with k by lia|other_class..]. Qed.
Lemma can_wait_sem m k th :
  0 <= k < THINKOS_SEMAPHORE_MAX -> sem_wait m k -> can_wait m (THINKOS_SEM_BASE + k) th.
Proof. intros Hk Hw. split; [other_class..|intros k' ? ?; by replace k' with k by lia|other_class|other_class]. Qed.
Lemma can_wait_event m k th :
  0 <= k < THINKOS_EVENT_MAX -> event_wait m k -> can_wait m (THINKOS_EVENT_BASE + k) th.
Proof. intros Hk Hw. split; [other_class..|intros k' ? ?; by replace k' with k by lia|other_class]. Qed.
Lemma can_wait_flag m k th :
  0 <= k < THINKOS_FLAG_MAX -> flag_wait m k -> can_wait m (THINKOS_FLAG_BASE + k) th.
Proof. intros Hk Hw. split; [other_class..|intros k' ? ?; by replace k' with k by lia]. Qed.

(** Waiting on an object is a reason of that object's class. *)
Lemma waiting_mutex m k th :
  OInv m -> disciplined -> 0 <= k < THINKOS_MUTEX_MAX -> is_thread th -> qbit m (THINKOS_MUTEX_BASE + k) th = true ->
  mutex_wait m k th.
Proof. intros HO Hd Hk Ht Hb. by apply (HO Hd _ _ (mutex_wq k Hk) Ht Hb). Qed.
Lemma waiting_cond m k th :
  OInv m -> disciplined -> 0 <= k < THINKOS_COND_MAX -> is_thread th -> qbit m (THINKOS_COND_BASE + k) th = true ->
  cond_wait m k.
Proof. intros HO Hd Hk Ht Hb. by apply (HO Hd _ _ (cond_wq k Hk) Ht Hb). Qed.
Lemma waiting_sem m k th :
  OInv m -> disciplined -> 0 <= k < THINKOS_SEMAPHORE_MAX -> is_thread th -> qbit m (THINKOS_SEM_BASE + k) th = true ->
  sem_wait m k.
Proof. intros HO Hd Hk Ht Hb. by apply (HO Hd _ _ (sem_wq k Hk) Ht Hb). Qed.
Lemma waiting_event m k th :
  OInv m -> disciplined -> 0 <= k < THINKOS_EVENT_MAX -> is_thread th -> qbit m (THINKOS_EVENT_BASE + k) th = true ->
  event_wait m k.
Proof. intros HO Hd Hk Ht Hb. by apply (HO Hd _ _ (event_wq k Hk) Ht Hb). Qed.
Lemma waiting_flag m k th :
  OInv m -> disciplined -> 0 <= k < THINKOS_FLAG_MAX -> is_thread th -> qbit m (THINKOS_FLAG_BASE + k) th = true ->
  flag_wait m k.
Proof. intros HO Hd Hk Ht Hb. by apply (HO Hd _ _ (flag_wq k Hk) Ht Hb). Qed.

(** An unlocked mutex has no waiters. *)
Lemma unlocked_calm m k :
  OInv m -> 0 <= k < THINKOS_MUTEX_MAX -> zget (lget lock m) k = -1 -> calm m (THINKOS_MUTEX_BASE + k).
Proof.
  intros HO Hk E Hd th Hth. destruct (qbit m _ th) eqn:Hb; [|done].
  by destruct (waiting_mutex _ _ _ HO Hd Hk Hth Hb) as [? _].
Qed.

(** ** Field updates *)

Lemma Inv_lock x d p m k v :
  Inv x d p m -> 0 <= k < THINKOS_MUTEX_MAX -> -1 <= v < THINKOS_THREADS_MAX ->
  calm m (THINKOS_MUTEX_BASE + k) -> Inv x d p (st_arr lock k v m).
Proof.
  intros HI Hk Hv Hn. obj_update.
  - intros k' Hk' ->. destruct (decide (k = k')) as [<-|Hne]; [exfalso; eapply (waiter_exists (Hn Hd)); eassumption|].
    destruct (Cm k' Hk' eq_refl) as (H3 & H4 & H5). unfold mutex_wait, st_arr. fsimpl.
    rewrite zget_zset by (by rewrite (sh_lock Hsh)). by rewrite decide_False.
  - intros k'. unfold st_arr. fsimpl. rewrite zget_zset by (by rewrite (sh_lock Hsh)). by destruct (decide _).
Qed.

Lemma Inv_sem_val x d p m k v :
  Inv x d p m -> 0 <= k < THINKOS_SEMAPHORE_MAX -> 0 <= v < 2 ^ 32 ->
  v = 0 \/ calm m (THINKOS_SEM_BASE + k) -> Inv x d p (st_arr sem_val k v m).
Proof.
  intros HI Hk Hv Hn. obj_update.
  - intros k' Hk' ->. destruct (Cs k' Hk' eq_refl) as (H3 & H4). unfold sem_wait, st_arr. fsimpl.
    rewrite zget_zset by (by rewrite (sh_sem Hsh)). destruct (decide (k = k')) as [<-|Hne]; [|done].
    destruct Hn as [->|Hn]; [done|]. exfalso; eapply (waiter_exists (Hn Hd)); eassumption.
  - unfold st_arr. fsimpl. apply words_ok_zset; [by rewrite (sh_sem Hsh)|done..].
Qed.

Lemma Inv_ev_pend x d p m k w :
  Inv x d p m -> 0 <= k < THINKOS_EVENT_MAX -> 0 <= w < 2 ^ 32 ->
  Z.land w (zget (lget ev_mask m) k) = 0 \/ calm m (THINKOS_EVENT_BASE + k) ->
  Inv x d p (st_arr ev_pend k w m).
Proof.
  intros HI Hk Hv Hn. obj_update.
  - intros k' Hk' ->. destruct (Ce k' Hk' eq_refl) as (H3 & H4). unfold event_wait, st_arr. fsimpl.
    rewrite zget_zset by (by rewrite (sh_pend Hsh)). destruct (decide (k = k')) as [<-|Hne]; [|done].
    destruct Hn as [->|Hn]; [done|]. exfalso; eapply (waiter_exists (Hn Hd)); eassumption.
  - unfold st_arr. fsimpl. apply words_ok_zset; [by rewrite (sh_pend Hsh)|done..].
Qed.

Lemma Inv_ev_mask x d p m k w :
  Inv x d p m -> 0 <= k < THINKOS_EVENT_MAX -> 0 <= w < 2 ^ 32 ->
  Z.land (zget (lget ev_pend m) k) w = 0 \/ calm m (THINKOS_EVENT_BASE + k) ->
  Inv x d p (st_arr ev_mask k w m).
Proof.
  intros HI Hk Hv Hn. obj_update.
  - intros k' Hk' ->. destruct (Ce k' Hk' eq_refl) as (H3 & H4). unfold event_wait, st_arr. fsimpl.
    rewrite zget_zset by (by rewrite (sh_mask Hsh)). destruct (decide (k = k')) as [<-|Hne]; [|done].
    destruct Hn as [->|Hn]; [done|]. exfalso; eapply (waiter_exists (Hn Hd)); eassumption.
  - unfold st_arr. fsimpl. apply words_ok_zset; [by rewrite (sh_mask Hsh)|done..].
Qed.

Lemma Inv_flag_sig x d p m k v :
  Inv x d p m -> 0 <= k < THINKOS_FLAG_MAX ->
  v = false \/ bget (lget flag_lock m) 0 k = true \/ calm m (THINKOS_FLAG_BASE + k) ->
  Inv x d p (st_bit flag_sig 0 k v m).
Proof.
  intros HI Hk Hn. obj_update.
  intros k' Hk' ->. destruct (Cf k' Hk' eq_refl) as (H3 & H4). unfold flag_wait, st_bit. fsimpl.
  rewrite bget_bset_base by (rewrite (sh_sig Hsh); unfold bmp_words; lia).
  destruct (decide (k = k')) as [<-|Hne]; [|done].
  destruct Hn as [->|[Hl|Hn]]; [auto..|]. exfalso; eapply (waiter_exists (Hn Hd)); eassumption.
Qed.

Lemma Inv_flag_lock x d p m k v :
  Inv x d p m -> 0 <= k < THINKOS_FLAG_MAX ->
  v = true \/ bget (lget flag_sig m) 0 k = false \/ calm m (THINKOS_FLAG_BASE + k) ->
  Inv x d p (st_bit flag_lock 0 k v m).
Proof.
  intros HI Hk Hn. obj_update.
  intros k' Hk' ->. destruct (Cf k' Hk' eq_refl) as (H3 & H4). unfold flag_wait, st_bit. fsimpl.
  rewrite bget_bset_base by (rewrite (sh_flock Hsh); unfold bmp_words; lia).
  destruct (decide (k = k')) as [<-|Hne]; [|done].
  destruct Hn as [->|[Hl|Hn]]; [auto..|]. exfalso; eapply (waiter_exists (Hn Hd)); eassumption.
Qed.

(** ** Allocation bitmaps *)

Lemma bmp_ok_set l max b v :
  bmp_ok l max -> 0 <= b < 32 * zlen l -> (v = true \/ b < max) -> bmp_ok (bset l 0 b v) max.
Proof.
  intros [Hw Hh] Hb Hv. split; [by apply words_ok_bset; [lia|]|].
  intros i Hi. rewrite zlen_bset in Hi. rewrite bget_bset_base by done.
  destruct (decide (b = i)) as [->|]; [|by apply Hh]. destruct Hv as [->|]; [done|lia].
Qed.

(** Close [Inv] after a change of an allocation bitmap of kind [C] with
    length fact [sh] and size [max]. *)
Ltac alloc_update Hn sh C :=
  obj_update;
  [ let k' := fresh "k'" in let Hk' := fresh "Hk'" in
    intros k' Hk' ->; pose proof (C k' Hk' eq_refl) as HC;
    unfold mutex_wait, cond_wait, sem_wait, event_wait, flag_wait, st_bit in *; fsimpl;
    rewrite bget_bset_base by (rewrite (sh _ _ ltac:(eassumption)); unfold bmp_words; lia);
    destruct (decide _) as [<-|]; [|exact HC];
    destruct Hn as [->|Hn]; [tauto|exfalso];
    match goal with Hd : disciplined |- _ => eapply (waiter_exists (Hn Hd)); eassumption end
  | unfold st_bit; fsimpl; apply bmp_ok_set; [assumption| |lia];
    rewrite (sh _ _ ltac:(eassumption)); unfold bmp_words; lia].

Lemma Inv_mutex_alloc x d p m k v :
  Inv x d p m -> 0 <= k < THINKOS_MUTEX_MAX -> v = true \/ calm m (THINKOS_MUTEX_BASE + k) ->
  Inv x d p (st_bit mutex_alloc 0 k v m).
Proof. intros HI Hk Hn. alloc_update Hn @sh_malloc Cm. Qed.
Lemma Inv_cond_alloc x d p m k v :
  Inv x d p m -> 0 <= k < THINKOS_COND_MAX -> v = true \/ calm m (THINKOS_COND_BASE + k) ->
  Inv x d p (st_bit cond_alloc 0 k v m).
Proof. intros HI Hk Hn. alloc_update Hn @sh_calloc Cc. Qed.
Lemma Inv_sem_alloc x d p m k v :
  Inv x d p m -> 0 <= k < THINKOS_SEMAPHORE_MAX -> v = true \/ calm m (THINKOS_SEM_BASE + k) ->
  Inv x d p (st_bit sem_alloc 0 k v m).
Proof. intros HI Hk Hn. alloc_update Hn @sh_salloc Cs. Qed.
Lemma Inv_ev_alloc x d p m k v :
  Inv x d p m -> 0 <= k < THINKOS_EVENT_MAX -> v = true \/ calm m (THINKOS_EVENT_BASE + k) ->
  Inv x d p (st_bit ev_alloc 0 k v m).
Proof. intros HI Hk Hn. alloc_update Hn @sh_ealloc Ce. Qed.
Lemma Inv_flag_alloc x d p m k v :
  Inv x d p m -> 0 <= k < THINKOS_FLAG_MAX -> v = true \/ calm m (THINKOS_FLAG_BASE + k) ->
  Inv x d p (st_bit flag_alloc 0 k v m).
Proof. intros HI Hk Hn. alloc_update Hn @sh_falloc Cf. Qed.
End obj.
