(* ===== verification/Steps.v ===== *)
(** * Rules that carry the invariant through a service

    Each rule replaces one operation of [Kernel.v] by the state it leaves
    behind, together with the invariant of that state; a service's proof is
    the chain of the rules of its operations. *)

From S2P Require Import Prelude Arch Config Kernel Rules Inv InvOps InvObj Mutex Semaphore Cond Event Flag Thread Sched Svc.

(** Indexes into the arrays of a state that has the shape. *)
Ltac kidx :=
  repeat match goal with
  | |- context [zlen (lget ctx ?m)] => rewrite (sh_ctx (m:=m)) by eauto with kshape
  | |- context [zlen (lget wq_lst ?m)] => rewrite (sh_wq (m:=m)) by eauto with kshape
  | |- context [zlen (lget th_stat ?m)] => rewrite (sh_stat (m:=m)) by eauto with kshape
  | |- context [zlen (lget clock ?m)] => rewrite (sh_clock (m:=m)) by eauto with kshape
  | |- context [zlen (lget sem_val ?m)] => rewrite (sh_sem (m:=m)) by eauto with kshape
  | |- context [zlen (lget ev_pend ?m)] => rewrite (sh_pend (m:=m)) by eauto with kshape
  | |- context [zlen (lget ev_mask ?m)] => rewrite (sh_mask (m:=m)) by eauto with kshape
  | |- context [zlen (lget flag_sig ?m)] => rewrite (sh_sig (m:=m)) by eauto with kshape
  | |- context [zlen (lget flag_lock ?m)] => rewrite (sh_flock (m:=m)) by eauto with kshape
  | |- context [zlen (lget lock ?m)] => rewrite (sh_lock (m:=m)) by eauto with kshape
  | |- context [zlen (lget irq_th ?m)] => rewrite (sh_irqth (m:=m)) by eauto with kshape
  | |- context [zlen (lget th_alloc ?m)] => rewrite (sh_talloc (m:=m)) by eauto with kshape
  | |- context [zlen (lget mutex_alloc ?m)] => rewrite (sh_malloc (m:=m)) by eauto with kshape
  | |- context [zlen (lget cond_alloc ?m)] => rewrite (sh_calloc (m:=m)) by eauto with kshape
  | |- context [zlen (lget sem_alloc ?m)] => rewrite (sh_salloc (m:=m)) by eauto with kshape
  | |- context [zlen (lget ev_alloc ?m)] => rewrite (sh_ealloc (m:=m)) by eauto with kshape
  | |- context [zlen (lget flag_alloc ?m)] => rewrite (sh_falloc (m:=m)) by eauto with kshape
  | |- context [zlen (lget th_inf ?m)] => rewrite (sh_inf (m:=m)) by eauto with kshape
  | |- context [zlen (lget irq_en ?m)] => rewrite (sh_irqen (m:=m)) by eauto with kshape
  | |- context [zlen (lget irq_pend ?m)] => rewrite (sh_irqpend (m:=m)) by eauto with kshape
  end; unfold bmp_words, is_thread in *; try lia.

Section steps.
Context `{Cfg : Config} {Disc : Discipline} `{!ConfigOk Cfg}.
Implicit Types (m : machine).

Lemma I_arg_wr x d p m arg i v (Q : unit -> machine -> Prop) :
  Inv x d p m -> (Inv x d p (st_mem (arg + 4 * i) v m) -> Q tt (st_mem (arg + 4 * i) v m)) ->
  wp (arg_wr arg i v) Q m.
Proof. intros HI HQ. apply wp_arg_wr. by apply HQ, Inv_mem. Qed.

Lemma I_cpsid x d p m (Q : unit -> machine -> Prop) :
  Inv x d p m -> (Inv x d true (lset primask true m) -> Q tt (lset primask true m)) -> wp cm3_cpsid_i Q m.
Proof. intros HI HQ. apply wp_put, HQ. by eapply Inv_primask. Qed.

Lemma I_cpsie x d p m (Q : unit -> machine -> Prop) :
  Inv x d p m -> (Inv x d false (lset primask false m) -> Q tt (lset primask false m)) -> wp cm3_cpsie_i Q m.
Proof. intros HI HQ. apply wp_put, HQ. by eapply Inv_primask. Qed.

Lemma I_defer x d p m (Q : unit -> machine -> Prop) :
  Inv x d p m -> (Inv x false p (st_defer m) -> Q tt (st_defer m)) -> wp __thinkos_defer_sched Q m.
Proof. intros HI HQ. apply wp_put, HQ. by eapply Inv_defer. Qed.

Lemma I_insert d p m q self (Q : unit -> machine -> Prop) :
  Inv (-1) d p m -> is_thread self -> ready m self = true -> obj_wq q -> can_wait m q self ->
  (Inv self d p (st_insert q self m) -> Q tt (st_insert q self m)) -> wp (__thinkos_wq_insert q self) Q m.
Proof.
  intros HI Ht Hr Hq Hc HQ. apply wp_wq_insert; [apply HI|by apply obj_wq_range|done|].
  intros _. by apply HQ, Inv_insert.
Qed.

Lemma I_tmd_insert d p m q ms self (Q : unit -> machine -> Prop) :
  Inv (-1) d p m -> is_thread self -> ready m self = true -> obj_wq q -> can_wait m q self ->
  (Inv self d p (st_tmd_insert q self ms m) -> Q tt (st_tmd_insert q self ms m)) ->
  wp (__thinkos_tmdwq_insert q self ms) Q m.
Proof.
  intros HI Ht Hr Hq Hc HQ. apply wp_tmdwq_insert; [apply HI|by apply obj_wq_range|done|].
  intros _. by apply HQ, Inv_tmd_insert.
Qed.

Lemma I_unready x d p m (Q : unit -> machine -> Prop) :
  Inv x d p m -> is_thread x -> (Inv (-1) true p (st_unready x m) -> Q tt (st_unready x m)) ->
  wp (bit_mem_wr wq_lst THINKOS_WQ_READY x 0) Q m.
Proof.
  intros HI Hx HQ. apply wp_wq_bit; [apply HI|apply wq_ready_range|by apply thread_range|].
  intros _. apply HQ. by eapply Inv_unready.
Qed.

Lemma I_wait `{!CoreConfig Cfg} x d p m (Q : unit -> machine -> Prop) :
  Inv x d p m -> is_thread x ->
  (Inv (-1) false p (st_defer (st_unready x m)) -> Q tt (st_defer (st_unready x m))) ->
  wp (__thinkos_wait x) Q m.
Proof.
  intros HI Hx HQ. apply wp_wait; [apply HI|done|]. intros _. apply HQ. by eapply Inv_wait.
Qed.

(** The first waiter of a queue, if any. *)
Lemma I_head x d p m q (Q : Z -> machine -> Prop) :
  Inv x d p m -> wait_wq q ->
  (no_waiters m q -> Q THINKOS_THREAD_NULL m) ->
  (forall th, is_thread th -> qbit m q th = true ->
    (forall j, 0 <= j < th -> qbit m q j = false) -> th <> THINKOS_THREAD_NULL -> Q th m) ->
  wp (__thinkos_wq_head q) Q m.
Proof.
  intros HI Hq H0 H1. apply wp_wq_head; [kidx; by apply wait_wq_range|].
  destruct (decide (ffs (zget (lget wq_lst m) q) = THINKOS_THREAD_NULL)) as [E|E].
  - rewrite E. by apply H0, head_no_waiters.
  - apply H1; [|by apply head_bit|by apply head_least|done]. eapply head_thread; [apply HI|done..].
Qed.

Lemma I_wake x d p m q th (Q : unit -> machine -> Prop) :
  Inv x d p m -> obj_wq q -> is_thread th -> qbit m q th = true ->
  (Inv x true p (st_wake q th 0 m) -> Q tt (st_wake q th 0 m)) -> wp (__thinkos_wakeup q th) Q m.
Proof.
  intros HI Hq Ht Hb HQ. apply wp_wakeup; [apply HI|by apply obj_wq_range|done|].
  intros _. apply HQ. by eapply Inv_wake.
Qed.

Lemma I_wake_return x d p m q th v (Q : unit -> machine -> Prop) :
  Inv x d p m -> obj_wq q -> is_thread th -> qbit m q th = true ->
  (Inv x true p (st_wake q th v m) -> Q tt (st_wake q th v m)) -> wp (__thinkos_wakeup_return q th v) Q m.
Proof.
  intros HI Hq Ht Hb HQ. apply wp_wakeup_return; [apply HI|by apply obj_wq_range|done|].
  intros _. apply HQ. by eapply Inv_wake.
Qed.

(** ** The checks at the head of a service *)

Lemma wp_obj_range base max wq arg body Q m :
  0 <= base -> 0 <= max -> base + max <= 2 ^ 32 -> 0 <= wq < 2 ^ 32 ->
  ((wq < base \/ base + max <= wq) -> Q tt (st_mem (arg + 4 * 0) THINKOS_EINVAL m)) ->
  (forall k, 0 <= k < max -> wq = base + k -> wp (body k) Q m) ->
  wp (obj_range base max wq arg body) Q m.
Proof.
  intros Hb Hm Hbm Hwq H0 H1. unfold obj_range, u32, wrap.
  destruct (Z.leb_spec max ((wq - base) mod 2 ^ 32)) as [Hle|Hlt].
  - apply wp_arg_wr, H0. lia.
  - apply H1; lia.
Qed.

Lemma wp_obj_allocated (alloc : lens machine (list Z)) no arg body Q m :
  0 <= no < 32 * zlen (lget alloc m) ->
  (bget (lget alloc m) 0 no = false -> Q tt (st_mem (arg + 4 * 0) THINKOS_EINVAL m)) ->
  (bget (lget alloc m) 0 no = true -> wp body Q m) ->
  wp (obj_allocated alloc no arg body) Q m.
Proof.
  intros Hno H0 H1. apply wp_bind, wp_bit_mem_rd; [lia|].
  destruct (bget _ 0 no); simpl; [by apply H1|]. apply wp_arg_wr. by apply H0.
Qed.

Lemma wp_obj_check base max (alloc : lens machine (list Z)) wq arg body Q m :
  0 <= base -> 0 <= max -> base + max <= 2 ^ 32 -> 0 <= wq < 2 ^ 32 ->
  zlen (lget alloc m) = bmp_words max ->
  (Q tt (st_mem (arg + 4 * 0) THINKOS_EINVAL m)) ->
  (forall k, 0 <= k < max -> wq = base + k -> bget (lget alloc m) 0 k = true -> wp (body k) Q m) ->
  wp (obj_check base max alloc wq arg body) Q m.
Proof.
  intros Hb Hm Hbm Hwq Hl H0 H1. apply wp_obj_range; [done..|].
  intros k Hk E. apply wp_obj_allocated; [unfold bmp_words in Hl; lia|done|auto].
Qed.

(** ** Loops *)

(** Waking all the waiters of [q] in the state [g m], [g] being an update
    the wake-ups do not see. The first waiter's number grows with every
    round, so 33 rounds are enough. *)
Section wakeup_all.
Context (q : Z) (g : machine -> machine).
Hypothesis Hq : obj_wq q.
Hypothesis g_shape : forall m, shape m -> shape (g m).
Hypothesis g_wq : forall m, lget wq_lst (g m) = lget wq_lst m.
Hypothesis g_wake : forall th v m, st_wake q th v (g m) = g (st_wake q th v m).

Lemma I_head_frame x d p m (Q : Z -> machine -> Prop) :
  Inv x d p m ->
  (no_waiters m q -> Q THINKOS_THREAD_NULL (g m)) ->
  (forall th, is_thread th -> qbit m q th = true ->
    (forall j, 0 <= j < th -> qbit m q j = false) -> th <> THINKOS_THREAD_NULL -> Q th (g m)) ->
  wp (__thinkos_wq_head q) Q (g m).
Proof using All.
  intros HI H0 H1. apply wp_wq_head.
  { rewrite (sh_wq (m := g m)) by (apply g_shape, HI). by apply obj_wq_range. }
  rewrite g_wq.
  assert (wp (__thinkos_wq_head q) (fun th _ => Q th (g m)) m) as Hh by (eapply I_head; eauto using obj_wait).
  unfold wp, __thinkos_wq_head, bind, arr_rd, ret in Hh. destruct (_ && _) in Hh; [exact Hh|done].
Qed.

Lemma I_wake_frame x d p m th v (Q : unit -> machine -> Prop) :
  Inv x d p m -> is_thread th -> qbit m q th = true ->
  (Inv x true p (st_wake q th v m) -> Q tt (g (st_wake q th v m))) ->
  wp (__thinkos_wakeup_return q th v) Q (g m).
Proof using All.
  intros HI Ht Hb HQ. apply wp_wakeup_return; [apply g_shape, HI|by apply obj_wq_range|done|].
  intros _. rewrite g_wake. apply HQ. by eapply Inv_wake.
Qed.

Lemma I_wakeup_all x d p m (Q : unit -> machine -> Prop) fuel lo :
  0 <= lo <= 32 -> 32 - lo < Z.of_nat fuel ->
  (forall j, 0 <= j < lo -> qbit m q j = false) ->
  Inv x d p m ->
  (forall m', Inv x true p m' -> no_waiters m' q -> Q tt (g m')) ->
  wp (wakeup_all fuel q) Q (g m).
Proof using All.
  revert d lo m. induction fuel as [|n IH]; intros d lo m Hlo Hf Hz HI HQ; [lia|].
  apply wp_bind, (I_head_frame x d p); [done|..].
  - intros Hn. simpl. apply wp_ret, HQ; [by eapply Inv_dirty|done].
  - intros th Ht Hb Hleast Hne. rewrite (proj2 (Z.eqb_neq _ _) Hne).
    apply wp_bind. apply wp_wakeup; [apply g_shape, HI|by apply obj_wq_range|done|].
    intros _. rewrite g_wake. assert (Inv x true p (st_wake q th 0 m)) as HI' by (by eapply Inv_wake).
    assert (lo <= th) as Hge.
    { destruct (Z_lt_le_dec th lo); [|done]. rewrite Hz in Hb; [done|]. unfold is_thread in Ht. lia. }
    pose proof (thread_range _ Ht).
    apply (IH true (th + 1)); [lia|lia| |done..].
    intros j Hj. rewrite qbit_wake by (eauto using obj_wait with kshape; lia).
    destruct (decide _) as [|Hd].
    + apply bool_decide_false, wait_not_ready, obj_wait, Hq.
    + apply Hleast. destruct (decide (j = th)) as [->|]; [|lia]. by destruct Hd; auto.
Qed.
End wakeup_all.

(** The first clear bit of an allocation bitmap. *)
Definition bmp_free (l : list Z) (i : Z) : Prop :=
  bget l 0 i = false /\ forall j, 0 <= j < i -> bget l 0 j = true.

Lemma bget_word l i b : 0 <= b < 32 -> bget l 0 (32 * i + b) = Z.testbit (zget l i) b.
Proof. intros Hb. unfold bget. f_equal; [f_equal; lia|lia]. Qed.

Lemma wp_bmp_alloc_from n (f : lens machine (list Z)) i (Q : Z -> machine -> Prop) m :
  words_ok (lget f m) -> 0 <= i -> i + Z.of_nat n <= zlen (lget f m) ->
  (forall j, 0 <= j < 32 * i -> bget (lget f m) 0 j = true) ->
  (forall k, 0 <= k < 32 * (i + Z.of_nat n) -> bmp_free (lget f m) k -> Q k (st_bit f 0 k true m)) ->
  ((forall k, 0 <= k < 32 * (i + Z.of_nat n) -> bget (lget f m) 0 k = true) -> Q (-1) m) ->
  wp (bmp_alloc_from n f i) Q m.
Proof.
  intros Hw. revert i. induction n as [|n IH]; intros i Hi Hn Hb Hs Hf; cbn [bmp_alloc_from].
  { apply wp_ret, Hf. rewrite Z.add_0_r. done. }
  apply wp_bind, wp_arr_rd; [lia|]. cbv zeta.
  change (__clz (__rbit ?w)) with (ffs w). set (w := zget (lget f m) i).
  assert (forall b, 0 <= b < 32 -> Z.testbit (u32 (Z.lnot w)) b = negb (Z.testbit w b)) as Hneg.
  { intros b Hb'. unfold u32, wrap. rewrite Z.mod_pow2_bits_low by lia. apply Z.lnot_spec; lia. }
  set (j := ffs (u32 (Z.lnot w))). pose proof (ffs_bound (u32 (Z.lnot w))) as Hj. fold j in Hj.
  assert (forall b, 0 <= b < j -> bget (lget f m) 0 (32 * i + b) = true) as Hbelow.
  { intros b Hb'. rewrite bget_word by lia. fold w. apply negb_false_iff. rewrite <-Hneg by lia.
    by apply ffs_below. }
  destruct (Z.ltb_spec j 32) as [Hlt|Hge].
  - pose proof (ffs_bit _ Hlt) as Hset. fold j in Hset. rewrite Hneg in Hset by lia.
    apply negb_true_iff in Hset.
    apply wp_bind, wp_bit_mem_wr; [lia|]. apply wp_ret.
    replace (st_bit f i j (Z.odd 1) m) with (st_bit f 0 (32 * i + j) true m).
    + apply Hs; [lia|]. split; [by rewrite bget_word by lia|].
      intros k Hk. destruct (Z_lt_le_dec k (32 * i)); [apply Hb; lia|].
      replace k with (32 * i + (k - 32 * i)) by lia. apply Hbelow. lia.
    + unfold st_bit, bset. change (Z.odd 1) with true.
      replace (0 + (32 * i + j) / 32) with (i + j / 32) by lia.
      by replace ((32 * i + j) mod 32) with (j mod 32) by lia.
  - apply IH; [lia|lia| | |].
    + intros k Hk. destruct (Z_lt_le_dec k (32 * i)); [apply Hb; lia|].
      replace k with (32 * i + (k - 32 * i)) by lia. apply Hbelow. lia.
    + intros k Hk. apply Hs. lia.
    + intros H. apply Hf. intros k Hk. apply H. lia.
Qed.

Lemma wp_bmp_alloc (f : lens machine (list Z)) max (Q : Z -> machine -> Prop) m :
  bmp_ok (lget f m) max -> 0 <= max -> zlen (lget f m) = bmp_words max ->
  (forall k, 0 <= k < max -> bmp_free (lget f m) k -> Q k (st_bit f 0 k true m)) ->
  ((forall k, 0 <= k < max -> bget (lget f m) 0 k = true) -> Q (-1) m) ->
  wp (thinkos_bmp_alloc f max) Q m.
Proof.
  intros [Hw Ht] Hm Hl Hs Hf. unfold thinkos_bmp_alloc, bmp_words in *.
  apply wp_bmp_alloc_from; [done|lia|lia|lia| |].
  - intros k Hk [Hk0 Hkb]. apply Hs; [|done]. split; [lia|].
    destruct (Z_lt_le_dec k max); [done|]. rewrite Ht in Hk0; [done|lia].
  - intros H. apply Hf. intros k Hk. apply H. lia.
Qed.

(** ** Object numbers *)

Lemma bases_bound :
  0 <= THINKOS_MUTEX_BASE /\ THINKOS_MUTEX_BASE + THINKOS_MUTEX_MAX <= 128 /\
  0 <= THINKOS_COND_BASE /\ THINKOS_COND_BASE + THINKOS_COND_MAX <= 128 /\
  0 <= THINKOS_SEM_BASE /\ THINKOS_SEM_BASE + THINKOS_SEMAPHORE_MAX <= 128 /\
  0 <= THINKOS_EVENT_BASE /\ THINKOS_EVENT_BASE + THINKOS_EVENT_MAX <= 128 /\
  0 <= THINKOS_FLAG_BASE /\ THINKOS_FLAG_BASE + THINKOS_FLAG_MAX <= 128.
Proof.
  pose proof layout_order. unfold THINKOS_JOIN_BASE, THINKOS_FLAG_BASE, THINKOS_EVENT_BASE,
    THINKOS_SEM_BASE, THINKOS_COND_BASE, THINKOS_WQ_READY in *. lia.
Qed.

(** [obj_check] for a class of objects whose bitmap is [alloc]. *)
Lemma I_obj_check x d p base max (alloc : lens machine (list Z)) m arg wq body (Q : unit -> machine -> Prop) :
  Inv x d p m -> 0 <= base -> 0 <= max -> base + max <= 128 -> 0 <= wq < 2 ^ 32 ->
  zlen (lget alloc m) = bmp_words max ->
  (forall m', Inv x d p m' -> Q tt m') ->
  (forall k, 0 <= k < max -> wq = base + k -> bget (lget alloc m) 0 k = true -> wp (body k) Q m) ->
  wp (obj_check base max alloc wq arg body) Q m.
Proof.
  intros HI Hb Hm Hbm Hwq Hl H0 H1. apply wp_obj_check; [lia..|done| |done].
  apply H0. by apply Inv_mem.
Qed.

Lemma load_bound (w : gmap Z Z) a : 0 <= load w a < 2 ^ 32.
Proof. apply u32_bound. Qed.
End steps.

#[export] Hint Resolve load_bound : kshape.

(** Take the check at the head of a service; the object number is [k]. *)
Ltac kcheck k Hk E Ha :=
  let Hb := fresh "Hbases" in
  pose proof bases_bound as Hb;
  pose proof mutex_bound; pose proof cond_bound; pose proof sem_bound; pose proof event_bound; pose proof flag_bound;
  eapply I_obj_check;
    [eassumption|lia|lia|lia|apply load_bound|kidx|auto with kshape|intros k Hk E Ha];
  clear Hb.
