(* ===== verification/SvcObj.v ===== *)
(** * The services of kernel objects keep the invariant

    For a running thread in the core configuration: every service of mutexes,
    semaphores, condition variables, event sets and flags ends without an
    access outside an array, with the invariant and with PRIMASK clear. *)

From S2P Require Import Prelude Arch Config Kernel Rules Inv InvOps InvObj Mutex Semaphore Cond Event Flag Steps.

(** The state in which a service runs. *)
Record running `{Cfg : Config} {Disc : Discipline} (m : machine) (self : Z) : Prop := {
  run_inv : Inv (-1) false false m;
  run_active : lget active m = self;
  run_thread : is_thread self;
  run_ready : ready m self = true;
}.
Arguments run_inv {Cfg Disc m self}.
Arguments run_active {Cfg Disc m self}.
Arguments run_thread {Cfg Disc m self}.
Arguments run_ready {Cfg Disc m self}.

(** What every kernel entry re-establishes. *)
Definition kpost `{Cfg : Config} {Disc : Discipline} {A} (_ : A) (m : machine) : Prop := Inv (-1) false false m.

Lemma kpost_inv `{Cfg : Config} {Disc : Discipline} m : Inv (-1) false false m -> kpost tt m.
Proof. done. Qed.

(** One operation of a service. *)
Ltac kstep :=
  match goal with
  | |- wp (bind _ _) _ _ => apply wp_bind
  | |- wp (arg_rd _ _) _ _ => apply wp_arg_rd
  | H : lget active ?m0 = ?self |- wp (get active) _ ?m => apply wp_get; change (lget active m) with (lget active m0); rewrite H
  | H : Inv ?x ?d ?p ?m |- wp (arg_wr _ _ _) _ ?m =>
      apply (I_arg_wr x d p m _ _ _ _ H); clear H; intro H
  | H : Inv ?x ?d ?p ?m |- wp cm3_cpsid_i _ ?m => apply (I_cpsid x d p m _ H); clear H; intro H
  | H : Inv ?x ?d ?p ?m |- wp cm3_cpsie_i _ ?m => apply (I_cpsie x d p m _ H); clear H; intro H
  | H : Inv ?x ?d ?p ?m |- wp __thinkos_defer_sched _ ?m => apply (I_defer x d p m _ H); clear H; intro H
  | H : Inv ?x ?d ?p ?m |- wp (__thinkos_wait _) _ ?m =>
      apply (I_wait x d p m _ H); [assumption|clear H; intro H]
  | H : Inv ?x ?d ?p ?m |- wp (__thinkos_wq_insert ?q ?th) _ ?m =>
      apply (I_insert d p m q th _ H); [assumption|assumption| | |clear H; intro H]
  | H : Inv ?x ?d ?p ?m |- wp (__thinkos_tmdwq_insert ?q ?th ?ms) _ ?m =>
      apply (I_tmd_insert d p m q ms th _ H); [assumption|assumption| | |clear H; intro H]
  | |- wp (ret _) _ _ => apply wp_ret
  | |- wp (when false _) _ _ => apply wp_ret
  | |- wp (when (negb true) _) _ _ => apply wp_ret
  | |- wp (when (negb false) _) _ _ => unfold when, negb
  | |- wp (when true _) _ _ => unfold when
  | |- kpost tt _ => eapply kpost_inv; eassumption
  end.
Ltac ksteps := repeat kstep.

(** The state of the goal satisfies the invariant: replace the older one. *)
Ltac kinv H :=
  match type of H with
  | Inv ?x ?d ?p _ =>
      match goal with
      | |- wp _ _ ?m' => let H' := fresh in assert (Inv x d p m') as H'; [|clear H; rename H' into H]
      | |- kpost _ ?m' => change (Inv x d p m')
      end
  end.

Section svc_obj.
Context `{Cfg : Config} {Disc : Discipline} `{!ConfigOk Cfg} `{!CoreConfig Cfg}.
Implicit Types (m : machine).

(** ** Mutexes *)

Lemma mutex_alloc_inv m self arg : running m self -> wp (thinkos_mutex_alloc_svc arg) kpost m.
Proof.
  intros [HI Ha Ht Hr]. apply wp_bind, wp_bmp_alloc; [apply HI|apply mutex_bound|kidx|..].
  - intros k Hk [Hf _]. rewrite (proj2 (Z.leb_le 0 k)) by lia.
    assert (calm m (THINKOS_MUTEX_BASE + k)) as Hn.
    { intros Hd th Hth. destruct (qbit m _ th) eqn:Hb; [|done].
      destruct (waiting_mutex _ _ _ (inv_o HI) Hd Hk Hth Hb) as (_ & _ & E). congruence. }
    assert (Inv (-1) false false (st_bit mutex_alloc 0 k true m)) as HI1 by (apply Inv_mutex_alloc; auto).
    apply wp_bind, wp_arr_wr_st; [by kidx|].
    assert (Inv (-1) false false (st_arr lock k (-1) (st_bit mutex_alloc 0 k true m))) as HI2.
    { apply Inv_lock; [done..|pose proof threads_bound; lia|exact Hn]. }
    ksteps.
  - intros _. simpl. ksteps.
Qed.

Lemma mutex_free_inv m self arg :
  running m self ->
  (forall k, 0 <= k < THINKOS_MUTEX_MAX -> load (lget mem m) (arg + 4 * 0) = THINKOS_MUTEX_BASE + k ->
    calm m (THINKOS_MUTEX_BASE + k)) ->
  wp (thinkos_mutex_free_svc arg) kpost m.
Proof.
  intros [HI Ha Ht Hr] Hn. pose proof bases_bound. pose proof mutex_bound. unfold thinkos_mutex_free_svc. do 2 kstep.
  apply wp_obj_range; [lia..|apply load_bound|intros _; by apply Inv_mem|].
  intros k Hk E. apply wp_bit_mem_wr; [kidx|]. apply Inv_mutex_alloc; auto.
Qed.

Lemma mutex_lock_inv m self arg : running m self -> wp (thinkos_mutex_lock_svc arg) kpost m.
Proof.
  intros [HI Ha Ht Hr]. unfold thinkos_mutex_lock_svc. ksteps. kcheck k Hk E Hal.
  kstep. apply wp_arr_rd; [by kidx|].
  destruct (Z.eqb_spec (zget (lget lock m) k) (-1)) as [El|El].
  - kstep. apply wp_arr_wr_st; [by kidx|].
    assert (Inv (-1) false false (st_arr lock k self m)) as HI1.
    { apply Inv_lock; [done..|unfold is_thread in Ht; lia|apply unlocked_calm; [apply HI|done..]]. }
    ksteps.
  - destruct (Z.eqb_spec (zget (lget lock m) k) self) as [Es|Es]; [by ksteps|].
    rewrite E. kstep. kstep; [by apply mutex_wq|by apply can_wait_mutex|]. ksteps.
Qed.

Lemma mutex_trylock_inv m self arg : running m self -> wp (thinkos_mutex_trylock_svc arg) kpost m.
Proof.
  intros [HI Ha Ht Hr]. unfold thinkos_mutex_trylock_svc. ksteps. kcheck k Hk E Hal.
  kstep. apply wp_arr_rd; [by kidx|].
  destruct (Z.eqb_spec (zget (lget lock m) k) (-1)) as [El|El].
  - kstep. apply wp_arr_wr_st; [by kidx|].
    assert (Inv (-1) false false (st_arr lock k self m)) as HI1.
    { apply Inv_lock; [done..|unfold is_thread in Ht; lia|apply unlocked_calm; [apply HI|done..]]. }
    ksteps.
  - destruct (Z.eqb_spec (zget (lget lock m) k) self) as [Es|Es]; by ksteps.
Qed.

Lemma mutex_timedlock_inv m self arg : running m self -> wp (thinkos_mutex_timedlock_svc arg) kpost m.
Proof.
  intros [HI Ha Ht Hr]. unfold thinkos_mutex_timedlock_svc. ksteps. kcheck k Hk E Hal.
  kstep. apply wp_arr_rd; [by kidx|].
  destruct (Z.eqb_spec (zget (lget lock m) k) (-1)) as [El|El].
  - kstep. apply wp_arr_wr_st; [by kidx|].
    assert (Inv (-1) false false (st_arr lock k self m)) as HI1.
    { apply Inv_lock; [done..|unfold is_thread in Ht; lia|apply unlocked_calm; [apply HI|done..]]. }
    ksteps.
  - destruct (Z.eqb_spec (zget (lget lock m) k) self) as [Es|Es]; [by ksteps|].
    rewrite E. kstep. kstep; [by apply mutex_wq|by apply can_wait_mutex|]. ksteps.
Qed.

Lemma mutex_pass_inv x d p m k (Q : bool -> machine -> Prop) :
  Inv x d p m -> 0 <= k < THINKOS_MUTEX_MAX ->
  (no_waiters m (THINKOS_MUTEX_BASE + k) -> Inv x d p (st_arr lock k (-1) m) -> Q false (st_arr lock k (-1) m)) ->
  (forall th, is_thread th -> qbit m (THINKOS_MUTEX_BASE + k) th = true ->
    (forall j, 0 <= j < th -> qbit m (THINKOS_MUTEX_BASE + k) j = false) ->
    let m' := st_wake (THINKOS_MUTEX_BASE + k) th 0 (st_arr lock k th m) in
    Inv x true p m' -> Q true m') ->
  wp (mutex_pass (THINKOS_MUTEX_BASE + k) k) Q m.
Proof.
  intros HI Hk H0 H1. apply wp_bind, (I_head x d p); [done|by apply obj_wait, mutex_wq|..].
  - intros Hn. rewrite Z.eqb_refl. apply wp_bind, wp_arr_wr_st; [kidx|]. apply wp_ret, H0; [done|].
    apply Inv_lock; [done..|pose proof threads_bound; lia|by apply no_waiters_calm].
  - intros th Ht Hb Hl Hne. rewrite (proj2 (Z.eqb_neq _ _) Hne).
    apply wp_bind, wp_arr_wr_st; [kidx|]. apply wp_bind, wp_wakeup.
    + unfold st_arr. pose proof (inv_shape HI). solve_shape.
    + by apply obj_wq_range, mutex_wq.
    + done.
    + intros _. apply wp_ret, H1; [done..|]. by eapply Inv_pass.
Qed.

Lemma mutex_unlock_inv m self arg : running m self -> wp (thinkos_mutex_unlock_svc arg) kpost m.
Proof.
  intros [HI Ha Ht Hr]. unfold thinkos_mutex_unlock_svc. ksteps. kcheck k Hk E Hal.
  kstep. apply wp_arr_rd; [by kidx|]. destruct (negb _); [by ksteps|].
  rewrite E. kstep. apply (mutex_pass_inv (-1) false false); [done..| |].
  - intros _ HI1. ksteps.
  - intros th Hth _ _ m' HI1. ksteps.
Qed.

(** ** Condition variables *)

Lemma cond_alloc_inv m self arg : running m self -> wp (thinkos_cond_alloc_svc arg) kpost m.
Proof.
  intros [HI Ha Ht Hr]. apply wp_bind, wp_bmp_alloc; [apply HI|apply cond_bound|kidx|..].
  - intros k Hk [Hf _]. rewrite (proj2 (Z.leb_le 0 k)) by lia.
    assert (Inv (-1) false false (st_bit cond_alloc 0 k true m)) as HI1 by (apply Inv_cond_alloc; auto).
    ksteps.
  - intros _. simpl. ksteps.
Qed.

Lemma cond_free_inv m self arg :
  running m self ->
  (forall k, 0 <= k < THINKOS_COND_MAX -> load (lget mem m) (arg + 4 * 0) = THINKOS_COND_BASE + k ->
    calm m (THINKOS_COND_BASE + k)) ->
  wp (thinkos_cond_free_svc arg) kpost m.
Proof.
  intros [HI Ha Ht Hr] Hn. pose proof bases_bound. pose proof cond_bound.
  unfold thinkos_cond_free_svc. do 2 kstep.
  apply wp_obj_range; [lia..|apply load_bound|intros _; by apply Inv_mem|].
  intros k Hk E. apply wp_bit_mem_wr; [kidx|]. apply Inv_cond_alloc; auto.
Qed.

Lemma cond_wait_inv m self arg : running m self -> wp (thinkos_cond_wait_svc arg) kpost m.
Proof.
  intros [HI Ha Ht Hr]. unfold thinkos_cond_wait_svc. ksteps.
  pose proof bases_bound. pose proof mutex_bound. pose proof cond_bound.
  apply wp_obj_range; [lia..|apply load_bound|intros _; by apply Inv_mem|]. intros c Hc Ec.
  apply wp_obj_range; [lia..|apply load_bound|intros _; by apply Inv_mem|]. intros k Hk Ek.
  apply wp_obj_allocated; [kidx|intros _; by apply Inv_mem|]. intros Hca.
  apply wp_obj_allocated; [kidx|intros _; by apply Inv_mem|]. intros Hka.
  kstep. apply wp_arr_rd; [by kidx|]. destruct (negb _); [by ksteps|].
  rewrite Ec, Ek. kstep. kstep; [by apply cond_wq|by apply can_wait_cond|].
  kstep. eapply mutex_pass_inv; [exact HI|done|..].
  - intros _ HI1. clear HI. ksteps.
  - intros th _ _ _ m' HI1. clear HI. ksteps.
Qed.

Lemma cond_timedwait_inv m self arg : running m self -> wp (thinkos_cond_timedwait_svc arg) kpost m.
Proof.
  intros [HI Ha Ht Hr]. unfold thinkos_cond_timedwait_svc. ksteps.
  pose proof bases_bound. pose proof mutex_bound. pose proof cond_bound.
  apply wp_obj_range; [lia..|apply load_bound|intros _; by apply Inv_mem|]. intros k Hk Ek.
  apply wp_obj_range; [lia..|apply load_bound|intros _; by apply Inv_mem|]. intros c Hc Ec.
  apply wp_obj_allocated; [kidx|intros _; by apply Inv_mem|]. intros Hka.
  apply wp_obj_allocated; [kidx|intros _; by apply Inv_mem|]. intros Hca.
  kstep. apply wp_arr_rd; [by kidx|]. destruct (negb _); [by ksteps|].
  rewrite Ec, Ek. kstep. kstep; [by apply cond_wq|by apply can_wait_cond|].
  kstep. eapply mutex_pass_inv; [exact HI|done|..].
  - intros _ HI1. clear HI. ksteps.
  - intros th _ _ _ m' HI1. clear HI. ksteps.
Qed.

Lemma cond_signal_inv m self arg : running m self -> wp (thinkos_cond_signal_svc arg) kpost m.
Proof.
  intros [HI Ha Ht Hr]. unfold thinkos_cond_signal_svc. ksteps. kcheck k Hk E Hal.
  rewrite E. kstep. apply (I_head (-1) false false); [done|by apply obj_wait, cond_wq|..].
  - intros _. rewrite Z.eqb_refl. ksteps.
  - intros th Hth Hb _ Hne. rewrite (proj2 (Z.eqb_neq _ _) Hne).
    do 3 kstep. apply (I_wake (-1) false false); [done|by apply cond_wq|done..|]. clear HI. intros HI. ksteps.
Qed.

Lemma cond_broadcast_inv m self arg : running m self -> wp (thinkos_cond_broadcast_svc arg) kpost m.
Proof.
  intros [HI Ha Ht Hr]. unfold thinkos_cond_broadcast_svc. ksteps. kcheck k Hk E Hal.
  rewrite E. kstep. apply (I_head (-1) false false); [done|by apply obj_wait, cond_wq|..].
  - intros _. rewrite Z.eqb_refl. ksteps.
  - intros th Hth Hb _ Hne. rewrite (proj2 (Z.eqb_neq _ _) Hne).
    do 3 kstep. apply (I_wake (-1) false false); [done|by apply cond_wq|done..|]. clear HI. intros HI.
    kstep. apply (I_wakeup_all _ id (cond_wq k Hk) (fun _ H => H) (fun _ => eq_refl) (fun _ _ _ => eq_refl)
      (-1) true false _ _ 33 0); [lia|lia|lia|exact HI|].
    clear HI. intros m' HI _. unfold id. ksteps.
Qed.
End svc_obj.
