(* ===== verification/SvcSync.v ===== *)
(** * Semaphores, event sets and flags keep the invariant *)

From S2P Require Import Prelude Arch Config Kernel Rules Inv InvOps InvObj Mutex Semaphore Cond Event Flag Steps SvcObj.

(** A flag bit changes: to a value that gives no reason to be woken, or with
    nobody waiting. *)
Ltac flag_upd lem :=
  apply lem; [try assumption|assumption|
    first [left; reflexivity | right; left; assumption | right; right; assumption
          | right; right; apply no_waiters_calm; assumption]].

Section svc_sync.
Context `{Cfg : Config} {Disc : Discipline} `{!ConfigOk Cfg} `{!CoreConfig Cfg}.
Implicit Types (m : machine).

Lemma collect_if_zero_inv d m self (Q : unit -> machine -> Prop) :
  Inv self d true m -> is_thread self ->
  (Inv (-1) true true (st_unready self m) -> Q tt (st_unready self m)) ->
  wp (wait_collect_if_zero self) Q m.
Proof.
  intros HI Ht HQ. unfold wait_collect_if_zero. rewrite core_timeshare.
  apply wp_bind, (I_unready self d true); [done..|]. intros HI1. apply wp_ret. by apply HQ.
Qed.

(** ** Semaphores *)

Lemma sem_pos_calm m k :
  OInv m -> 0 <= k < THINKOS_SEMAPHORE_MAX -> 0 < zget (lget sem_val m) k -> calm m (THINKOS_SEM_BASE + k).
Proof.
  intros HO Hk Hv Hd th Hth. destruct (qbit m _ th) eqn:Hb; [|done].
  destruct (waiting_sem _ _ _ HO Hd Hk Hth Hb) as [? _]. lia.
Qed.

Lemma sem_zero_wait m k th :
  AInv m -> 0 <= k < THINKOS_SEMAPHORE_MAX -> ~ 0 < zget (lget sem_val m) k ->
  bget (lget sem_alloc m) 0 k = true -> can_wait m (THINKOS_SEM_BASE + k) th.
Proof.
  intros HA Hk Hv Ha. apply can_wait_sem; [done|]. split; [|done]. pose proof (a_semval _ HA k). lia.
Qed.

Lemma sem_take_inv x d p m k :
  Inv x d p m -> 0 <= k < THINKOS_SEMAPHORE_MAX -> 0 < zget (lget sem_val m) k ->
  Inv x d p (st_arr sem_val k (zget (lget sem_val m) k - 1) m).
Proof.
  intros HI Hk Hv. apply Inv_sem_val; [done..| |right].
  - pose proof (a_semval _ (inv_a HI) k). lia.
  - apply sem_pos_calm; [apply HI|done..].
Qed.

Lemma sem_alloc_inv m self arg : running m self -> wp (thinkos_sem_alloc_svc arg) kpost m.
Proof.
  intros [HI Ha Ht Hr]. apply wp_bind, wp_arg_rd, wp_bind, wp_bmp_alloc; [apply HI|apply sem_bound|kidx|..].
  - intros k Hk [Hf _]. rewrite (proj2 (Z.leb_le 0 k)) by lia.
    assert (calm m (THINKOS_SEM_BASE + k)) as Hn.
    { intros Hd th Hth. destruct (qbit m _ th) eqn:Hb; [|done].
      destruct (waiting_sem _ _ _ (inv_o HI) Hd Hk Hth Hb) as (_ & E). congruence. }
    assert (Inv (-1) false false (st_bit sem_alloc 0 k true m)) as HI1 by (apply Inv_sem_alloc; auto).
    clear HI. apply wp_bind, wp_arr_wr_st; [by kidx|].
    kinv HI1; [apply Inv_sem_val; [done|done|apply load_bound|by right]|]. ksteps.
  - intros _. simpl. ksteps.
Qed.

Lemma sem_free_inv m self arg :
  running m self ->
  (forall k, 0 <= k < THINKOS_SEMAPHORE_MAX -> load (lget mem m) (arg + 4 * 0) = THINKOS_SEM_BASE + k ->
    calm m (THINKOS_SEM_BASE + k)) ->
  wp (thinkos_sem_free_svc arg) kpost m.
Proof.
  intros [HI Ha Ht Hr] Hn. pose proof bases_bound. pose proof sem_bound.
  unfold thinkos_sem_free_svc. do 2 kstep.
  apply wp_obj_range; [lia..|apply load_bound|intros _; by apply Inv_mem|].
  intros k Hk E. apply wp_bit_mem_wr; [kidx|]. apply Inv_sem_alloc; auto.
Qed.

Lemma sem_init_inv m self arg :
  running m self ->
  (forall k, 0 <= k < THINKOS_SEMAPHORE_MAX -> load (lget mem m) (arg + 4 * 0) = THINKOS_SEM_BASE + k ->
    load (lget mem m) (arg + 4 * 1) = 0 \/ calm m (THINKOS_SEM_BASE + k)) ->
  wp (thinkos_sem_init_svc arg) kpost m.
Proof.
  intros [HI Ha Ht Hr] Hn. unfold thinkos_sem_init_svc. ksteps. kcheck k Hk E Hal.
  kstep. apply wp_arr_wr_st; [by kidx|].
  kinv HI; [apply Inv_sem_val; [done|done|apply load_bound|by apply Hn]|]. ksteps.
Qed.

Lemma sem_wait_inv m self arg : running m self -> wp (thinkos_sem_wait_svc arg) kpost m.
Proof.
  intros [HI Ha Ht Hr]. unfold thinkos_sem_wait_svc. ksteps. kcheck k Hk E Hal.
  do 5 kstep. apply wp_arr_rd; [by kidx|]. case_match eqn:Hv.
  - apply Z.ltb_lt in Hv. kstep. apply wp_arr_wr_st; [by kidx|].
    apply (sem_take_inv _ _ _ _ k) in HI; [|done..]. ksteps.
  - apply Z.ltb_ge in Hv. rewrite E. kstep. kstep; [by apply sem_wq|apply sem_zero_wait; [apply HI|done|lia|done]|].
    kstep. eapply collect_if_zero_inv; [exact HI|done|]. clear HI. intros HI. ksteps.
Qed.

Lemma sem_trywait_inv m self arg : running m self -> wp (thinkos_sem_trywait_svc arg) kpost m.
Proof.
  intros [HI Ha Ht Hr]. unfold thinkos_sem_trywait_svc. ksteps. kcheck k Hk E Hal.
  do 3 kstep. apply wp_arr_rd; [by kidx|]. kstep. case_match eqn:Hv.
  - apply Z.ltb_lt in Hv. kstep. apply wp_arr_wr_st; [by kidx|].
    apply (sem_take_inv _ _ _ _ k) in HI; [|done..]. ksteps.
  - ksteps.
Qed.

Lemma sem_timedwait_inv m self arg : running m self -> wp (thinkos_sem_timedwait_svc arg) kpost m.
Proof.
  intros [HI Ha Ht Hr]. unfold thinkos_sem_timedwait_svc. ksteps. kcheck k Hk E Hal.
  do 3 kstep. apply wp_arr_rd; [by kidx|]. kstep. case_match eqn:Hv.
  - apply Z.ltb_lt in Hv. kstep. apply wp_arr_wr_st; [by kidx|].
    apply (sem_take_inv _ _ _ _ k) in HI; [|done..]. ksteps.
  - apply Z.ltb_ge in Hv. rewrite E. kstep. kstep; [by apply sem_wq|apply sem_zero_wait; [apply HI|done|lia|done]|].
    kstep. eapply collect_if_zero_inv; [exact HI|done|]. clear HI. intros HI. ksteps.
Qed.

(** Posting never loses a token: it is handed to a waiter or counted. *)
Lemma sem_post_body_inv p m k :
  Inv (-1) false p m -> 0 <= k < THINKOS_SEMAPHORE_MAX ->
  wp (sem_post_body (THINKOS_SEM_BASE + k) k) (fun _ m' => Inv (-1) false p m') m.
Proof.
  intros HI Hk. apply wp_bind, (I_head (-1) false p); [done|by apply obj_wait, sem_wq|..].
  - intros Hn. rewrite Z.eqb_refl. apply wp_bind, wp_arr_rd; [by kidx|]. apply wp_arr_wr_st; [by kidx|].
    apply Inv_sem_val; [done..|apply u32_bound|right; by apply no_waiters_calm].
  - intros th Hth Hb _ Hne. rewrite (proj2 (Z.eqb_neq _ _) Hne).
    apply wp_bind, (I_wake (-1) false p); [done|by apply sem_wq|done..|]. clear HI. intros HI.
    by apply (I_defer (-1) true p).
Qed.

Lemma sem_post_inv m self arg : running m self -> wp (thinkos_sem_post_svc arg) kpost m.
Proof.
  intros [HI Ha Ht Hr]. unfold thinkos_sem_post_svc. ksteps. kcheck k Hk E Hal.
  rewrite E. do 5 kstep. eapply wp_mono; [by apply sem_post_body_inv|].
  clear HI. intros [] m' HI. ksteps.
Qed.

Lemma sem_post_i_inv m k :
  Inv (-1) false false m -> 0 <= k < THINKOS_SEMAPHORE_MAX ->
  wp (thinkos_sem_post_i (THINKOS_SEM_BASE + k)) kpost m.
Proof.
  intros HI Hk. apply wp_bind, wp_get. rewrite (inv_p HI).
  apply wp_bind, wp_put. replace (THINKOS_SEM_BASE + k - THINKOS_SEM_BASE) with k by lia.
  apply wp_bind. eapply wp_mono; [by apply sem_post_body_inv; [eapply Inv_primask|]|].
  clear HI. intros [] m' HI. apply wp_put. by eapply Inv_primask.
Qed.

(** ** Flags *)

Lemma flag_unset_wait m k th :
  0 <= k < THINKOS_FLAG_MAX -> bget (lget flag_alloc m) 0 k = true ->
  bget (lget flag_sig m) 0 k = false \/ bget (lget flag_lock m) 0 k = true ->
  can_wait m (THINKOS_FLAG_BASE + k) th.
Proof. intros Hk Ha Hs. by apply can_wait_flag. Qed.

Lemma flag_alloc_inv m self arg : running m self -> wp (thinkos_flag_alloc_svc arg) kpost m.
Proof.
  intros [HI Ha Ht Hr]. apply wp_bind, wp_bmp_alloc; [apply HI|apply flag_bound|kidx|..].
  - intros k Hk [Hf _]. rewrite (proj2 (Z.leb_le 0 k)) by lia.
    assert (calm m (THINKOS_FLAG_BASE + k)) as Hn.
    { intros Hd th Hth. destruct (qbit m _ th) eqn:Hb; [|done].
      destruct (waiting_flag _ _ _ (inv_o HI) Hd Hk Hth Hb) as (_ & E). congruence. }
    assert (Inv (-1) false false (st_bit flag_alloc 0 k true m)) as HI1 by (apply Inv_flag_alloc; auto).
    clear HI. apply wp_bind, wp_bit_mem_wr; [kidx|]. kinv HI1; [flag_upd Inv_flag_sig|].
    apply wp_bind, wp_bit_mem_wr; [kidx|]. kinv HI1; [flag_upd Inv_flag_lock|]. ksteps.
  - intros _. simpl. ksteps.
Qed.

Lemma flag_free_inv m self arg :
  running m self ->
  (forall k, 0 <= k < THINKOS_FLAG_MAX -> load (lget mem m) (arg + 4 * 0) = THINKOS_FLAG_BASE + k ->
    calm m (THINKOS_FLAG_BASE + k)) ->
  wp (thinkos_flag_free_svc arg) kpost m.
Proof.
  intros [HI Ha Ht Hr] Hn. pose proof bases_bound. pose proof flag_bound.
  unfold thinkos_flag_free_svc. do 2 kstep.
  apply wp_obj_range; [lia..|apply load_bound|intros _; by apply Inv_mem|].
  intros k Hk E. apply wp_bit_mem_wr; [kidx|]. apply Inv_flag_alloc; auto.
Qed.

Lemma wp_flag_free_to_wait x d p m k (Q : bool -> machine -> Prop) :
  Inv x d p m -> 0 <= k < THINKOS_FLAG_MAX ->
  Q (bget (lget flag_sig m) 0 k && negb (bget (lget flag_lock m) 0 k)) m -> wp (flag_free_to_wait k) Q m.
Proof.
  intros HI Hk HQ. apply wp_bind, wp_bit_mem_rd; [kidx|].
  destruct (bget (lget flag_sig m) 0 k); cbn [Z.b2z Z.eqb andb] in *; [|by apply wp_ret].
  apply wp_bind, wp_bit_mem_rd; [kidx|]. apply wp_ret. destruct (bget (lget flag_lock m) 0 k); exact HQ.
Qed.

Lemma flag_block_inv d m self (Q : unit -> machine -> Prop) :
  Inv self d true m -> is_thread self ->
  (forall m', Inv (-1) false false m' -> Q tt m') -> wp (flag_block self) Q m.
Proof.
  intros HI Ht HQ. unfold flag_block. rewrite core_timeshare.
  apply wp_bind, (I_unready self d true); [done..|]. clear HI. intros HI. ksteps. auto.
Qed.

(** Take the flag, or the queue. *)
Lemma flag_wait_inv m self arg : running m self -> wp (thinkos_flag_wait_svc arg) kpost m.
Proof.
  intros [HI Ha Ht Hr]. unfold thinkos_flag_wait_svc. ksteps. kcheck k Hk E Hal.
  do 3 kstep. eapply wp_flag_free_to_wait; [exact HI|done|]. case_match eqn:Hg.
  - kstep. apply wp_bit_mem_wr; [kidx|]. kinv HI; [flag_upd Inv_flag_lock|].
    do 3 kstep. apply wp_bit_mem_wr; [kidx|]. kinv HI; [flag_upd Inv_flag_sig|]. ksteps.
  - rewrite E. kstep. kstep; [by apply flag_wq| |].
    { apply flag_unset_wait; [done..|]. apply andb_false_iff in Hg as [|Hg]; [by left|].
      right. by apply negb_false_iff in Hg. }
    eapply flag_block_inv; [exact HI|done|auto].
Qed.

Lemma flag_timedwait_inv m self arg : running m self -> wp (thinkos_flag_timedwait_svc arg) kpost m.
Proof.
  intros [HI Ha Ht Hr]. unfold thinkos_flag_timedwait_svc. ksteps. kcheck k Hk E Hal.
  do 3 kstep. eapply wp_flag_free_to_wait; [exact HI|done|]. case_match eqn:Hg.
  - kstep. apply wp_bit_mem_wr; [kidx|]. kinv HI; [flag_upd Inv_flag_lock|].
    do 3 kstep. apply wp_bit_mem_wr; [kidx|]. kinv HI; [flag_upd Inv_flag_sig|]. ksteps.
  - rewrite E. do 3 kstep. kstep; [by apply flag_wq| |].
    { apply flag_unset_wait; [done..|]. apply andb_false_iff in Hg as [|Hg]; [by left|].
      right. by apply negb_false_iff in Hg. }
    eapply flag_block_inv; [exact HI|done|auto].
Qed.

Lemma flag_take_inv m self arg : running m self -> wp (thinkos_flag_take_svc arg) kpost m.
Proof.
  intros [HI Ha Ht Hr]. unfold thinkos_flag_take_svc. ksteps. kcheck k Hk E Hal.
  do 3 kstep. apply wp_bit_mem_rd; [kidx|]. destruct (bget (lget flag_sig (lset primask true m)) 0 k) eqn:Hs; cbn [negb Z.b2z Z.eqb].
  - do 2 kstep. kstep. apply wp_bit_mem_wr; [kidx|]. kinv HI; [flag_upd Inv_flag_sig|]. ksteps.
  - rewrite E. kstep. kstep; [by apply flag_wq|by apply flag_unset_wait; auto|].
    eapply flag_block_inv; [exact HI|done|auto].
Qed.

Lemma flag_timedtake_inv m self arg : running m self -> wp (thinkos_flag_timedtake_svc arg) kpost m.
Proof.
  intros [HI Ha Ht Hr]. unfold thinkos_flag_timedtake_svc. ksteps. kcheck k Hk E Hal.
  do 3 kstep. apply wp_bit_mem_rd; [kidx|]. destruct (bget (lget flag_sig (lset primask true m)) 0 k) eqn:Hs; cbn [negb Z.b2z Z.eqb].
  - do 2 kstep. kstep. apply wp_bit_mem_wr; [kidx|]. kinv HI; [flag_upd Inv_flag_sig|]. ksteps.
  - rewrite E. do 3 kstep. kstep; [by apply flag_wq|by apply flag_unset_wait; auto|].
    eapply flag_block_inv; [exact HI|done|auto].
Qed.

Lemma flag_clr_inv m self arg : running m self -> wp (thinkos_flag_clr_svc arg) kpost m.
Proof.
  intros [HI Ha Ht Hr]. unfold thinkos_flag_clr_svc. ksteps. kcheck k Hk E Hal.
  kstep. apply wp_bit_mem_rd; [kidx|]. do 2 kstep. apply wp_bit_mem_wr; [kidx|].
  kinv HI. flag_upd Inv_flag_sig.
Qed.

(** Giving a clear flag hands it to a waiter or sets it. *)
Lemma flag_give_waiter_inv p m k th (Q : unit -> machine -> Prop) :
  Inv (-1) false p m -> 0 <= k < THINKOS_FLAG_MAX -> is_thread th ->
  qbit m (THINKOS_FLAG_BASE + k) th = true ->
  (Inv (-1) true p (st_wake (THINKOS_FLAG_BASE + k) th 0 m) ->
    Q tt (st_wake (THINKOS_FLAG_BASE + k) th 0 m)) ->
  wp (__thinkos_wakeup (THINKOS_FLAG_BASE + k) th) Q m.
Proof. intros HI Hk Hth Hb. by apply (I_wake (-1) false p); [|apply flag_wq|..]. Qed.

Lemma flag_give_inv m self arg : running m self -> wp (thinkos_flag_give_svc arg) kpost m.
Proof.
  intros [HI Ha Ht Hr]. unfold thinkos_flag_give_svc. ksteps. kcheck k Hk E Hal.
  kstep. apply wp_bit_mem_rd; [kidx|]. do 2 kstep. case_match; [by ksteps|].
  rewrite E. do 3 kstep. eapply I_head; [exact HI|by apply obj_wait, flag_wq|..].
  - intros Hn. rewrite Z.eqb_refl. kstep. apply wp_bit_mem_wr; [kidx|].
    kinv HI; [flag_upd Inv_flag_sig|]. ksteps.
  - intros th Hth Hb _ Hne. rewrite (proj2 (Z.eqb_neq _ _) Hne).
    kstep. eapply flag_give_waiter_inv; [exact HI|done..|]. clear HI. intros HI. ksteps.
Qed.

Lemma flag_give_i_inv m k :
  Inv (-1) false false m -> 0 <= k < THINKOS_FLAG_MAX ->
  wp (thinkos_flag_give_i (THINKOS_FLAG_BASE + k)) kpost m.
Proof.
  intros HI Hk. apply wp_bind, wp_get. rewrite (inv_p HI). apply wp_bind, wp_put.
  eapply (Inv_primask _ _ _ _ true) in HI.
  replace (THINKOS_FLAG_BASE + k - THINKOS_FLAG_BASE) with k by lia.
  apply wp_bind, wp_bit_mem_rd; [kidx|]. kstep.
  apply wp_mono with (fun _ m' => Inv (-1) false true m').
  2: { intros [] m' HI'. apply wp_put. by eapply Inv_primask. }
  apply wp_when; [|done]. intros _. kstep. eapply I_head; [exact HI|by apply obj_wait, flag_wq|..].
  - intros Hn. rewrite Z.eqb_refl. apply wp_bit_mem_wr; [kidx|]. flag_upd Inv_flag_sig.
  - intros th Hth Hb _ Hne. rewrite (proj2 (Z.eqb_neq _ _) Hne). cbn [negb].
    kstep. eapply flag_give_waiter_inv; [exact HI|done..|]. clear HI. intros HI.
    by apply (I_defer (-1) true true).
Qed.

Lemma flag_clr_i_inv m k :
  Inv (-1) false false m -> 0 <= k < THINKOS_FLAG_MAX ->
  wp (thinkos_flag_clr_i (THINKOS_FLAG_BASE + k)) kpost m.
Proof.
  intros HI Hk. unfold thinkos_flag_clr_i. replace (_ + k - _) with k by lia.
  apply wp_bit_mem_wr; [kidx|]. flag_upd Inv_flag_sig.
Qed.

(** Setting wakes all the waiters. *)
Lemma flag_set_body_inv p m k :
  Inv (-1) false p m -> 0 <= k < THINKOS_FLAG_MAX ->
  wp (flag_set_body (THINKOS_FLAG_BASE + k) k) (fun _ m' => Inv (-1) false p m') m.
Proof.
  intros HI Hk. set (g := st_bit flag_sig 0 k true).
  assert (forall m, shape m -> shape (g m)) as Hg by (intros; unfold g, st_bit; solve_shape).
  apply wp_bind, wp_bit_mem_wr; [kidx|]. change (st_bit flag_sig 0 k (Z.odd 1) m) with (g m).
  apply wp_bind. apply (I_head_frame _ g (flag_wq k Hk) Hg (fun _ => eq_refl) (fun _ _ _ => eq_refl) (-1) false p); [done|..].
  - intros Hn. flag_upd Inv_flag_sig.
  - intros th Hth Hb _ Hne. rewrite (proj2 (Z.eqb_neq _ _) Hne). cbn [negb]. unfold when.
    apply wp_bind, wp_wakeup; [apply Hg, HI|by apply obj_wq_range, flag_wq|done|]. intros _.
    change (st_wake ?q th 0 (g m)) with (g (st_wake q th 0 m)).
    apply (Inv_wake (-1) false p m (THINKOS_FLAG_BASE + k) th 0) in HI; [|by apply flag_wq|done..].
    apply wp_bind, (I_wakeup_all _ g (flag_wq k Hk) Hg (fun _ => eq_refl) (fun _ _ _ => eq_refl) (-1) true p _ _ 33 0);
      [lia|lia|lia|done|].
    intros m' HI' Hn. apply (I_defer (-1) true p); [|done]. flag_upd Inv_flag_sig.
Qed.

Lemma flag_set_inv m self arg : running m self -> wp (thinkos_flag_set_svc arg) kpost m.
Proof.
  intros [HI Ha Ht Hr]. unfold thinkos_flag_set_svc. ksteps. kcheck k Hk E Hal.
  kstep. apply wp_bit_mem_rd; [kidx|]. rewrite E. do 5 kstep.
  eapply wp_mono; [by apply flag_set_body_inv|]. clear HI. intros [] m' HI. ksteps.
Qed.

Lemma flag_set_i_inv m k :
  Inv (-1) false false m -> 0 <= k < THINKOS_FLAG_MAX ->
  wp (thinkos_flag_set_i (THINKOS_FLAG_BASE + k)) kpost m.
Proof.
  intros HI Hk. apply wp_bind, wp_get. rewrite (inv_p HI). apply wp_bind, wp_put.
  replace (THINKOS_FLAG_BASE + k - THINKOS_FLAG_BASE) with k by lia.
  apply wp_bind. eapply wp_mono; [by apply flag_set_body_inv; [eapply Inv_primask|]|].
  clear HI. intros [] m' HI. apply wp_put. by eapply Inv_primask.
Qed.

(** Releasing: the flag passes to the first waiter when the signal is set.
    [g] is the update of the flag's bits that was made before. *)
Lemma flag_hand_over_inv g m k :
  Inv (-1) false false m -> 0 <= k < THINKOS_FLAG_MAX ->
  (forall m, shape m -> shape (g m)) -> (forall m, lget wq_lst (g m) = lget wq_lst m) ->
  (forall q th v m, st_wake q th v (g m) = g (st_wake q th v m)) ->
  (forall b m, lset primask b (g m) = g (lset primask b m)) ->
  (no_waiters m (THINKOS_FLAG_BASE + k) -> Inv (-1) false false (g m)) ->
  (forall m, shape m -> st_bit flag_lock 0 k true (st_bit flag_sig 0 k false (g m)) =
    st_bit flag_lock 0 k true (st_bit flag_sig 0 k false m)) ->
  wp (flag_hand_over (THINKOS_FLAG_BASE + k) k) kpost (g m).
Proof.
  intros HI Hk Hg1 Hg2 Hg3 Hg4 Hg5 Hg6. apply wp_bind, wp_put. rewrite Hg4.
  pose proof (Inv_primask _ _ _ _ true HI) as HI1.
  apply wp_bind. apply (I_head_frame _ g (flag_wq k Hk) Hg1 Hg2 (Hg3 _) (-1) false true _ _ HI1).
  - intros Hn. rewrite Z.eqb_refl. apply wp_put. rewrite <-Hg4.
    change (Inv (-1) false false (lset primask false (g m))). by eapply Inv_primask, Hg5.
  - intros th Hth Hb _ Hne. rewrite (proj2 (Z.eqb_neq _ _) Hne).
    apply wp_bind, wp_wakeup; [apply Hg1, HI1|by apply obj_wq_range, flag_wq|done|]. intros _.
    rewrite Hg3. clear Hg5.
    apply (Inv_wake (-1) false true _ (THINKOS_FLAG_BASE + k) th 0) in HI1; [|by apply flag_wq|done..].
    match type of HI1 with Inv _ _ _ ?m1 => generalize dependent m1 end. clear dependent m. intros m HI.
    apply wp_bind, wp_put. rewrite Hg4. eapply (Inv_primask _ _ _ _ false) in HI.
    match type of HI with Inv _ _ _ ?m1 => generalize dependent m1 end. clear m. intros m HI.
    pose proof (Hg1 m (inv_shape HI)).
    assert (shape (st_bit flag_sig 0 k false (g m))) by (unfold st_bit; solve_shape).
    apply wp_bind, wp_bit_mem_wr; [kidx|]. apply wp_bind, wp_bit_mem_wr; [kidx|].
    change (Z.odd 0) with false. change (Z.odd 1) with true. rewrite Hg6 by apply HI.
    apply (I_defer (-1) true false); [|done]. flag_upd Inv_flag_lock. flag_upd Inv_flag_sig.
Qed.

Lemma flag_release_inv m self arg : running m self -> wp (thinkos_flag_release_svc arg) kpost m.
Proof.
  intros [HI Ha Ht Hr]. unfold thinkos_flag_release_svc. ksteps. kcheck k Hk E Hal. rewrite E. do 2 kstep.
  clear E Hal Ha Hr. match type of HI with Inv _ _ _ ?m1 => remember m1 as m' end. clear Heqm'.
  kstep. apply wp_bit_mem_wr; [kidx|]. change (Z.odd 0) with false.
  assert (forall m, shape m -> shape (st_bit flag_lock 0 k false m)) as Hg1 by (intros; unfold st_bit; solve_shape).
  assert (forall m, shape m -> shape (st_bit flag_sig 0 k true (st_bit flag_lock 0 k false m))) as Hg2
    by (intros; unfold st_bit; solve_shape).
  assert (forall l v v', 0 <= k / 32 < zlen l -> bset (bset l 0 k v) 0 k v' = bset l 0 k v') as Hbb
    by (intros; by apply bset_twice).
  pose proof (Hg1 m' (inv_shape HI)). pose proof (Hg2 m' (inv_shape HI)).
  kstep. destruct (negb _).
  - apply wp_bit_mem_wr; [kidx|]. change (Z.odd 1) with true.
    kstep. apply wp_bit_mem_rd; [kidx|].
    replace (bget _ 0 k) with true; [cbn [Z.b2z Z.eqb]|].
    2:{ unfold st_bit. fsimpl. rewrite bget_bset_base by kidx. by rewrite decide_True. }
    apply (flag_hand_over_inv (fun m => st_bit flag_sig 0 k true (st_bit flag_lock 0 k false m)));
      [done|done|done|reflexivity|reflexivity|reflexivity| |].
    + intros Hn. flag_upd Inv_flag_sig. flag_upd Inv_flag_lock.
    + intros m2 Hs2. unfold st_bit. fsimpl.
      rewrite (Hbb (lget flag_sig m2)) by kidx. rewrite (Hbb (lget flag_lock m2)) by kidx. reflexivity.
  - kstep. kstep. apply wp_bit_mem_rd; [kidx|].
    change (lget flag_sig (st_bit flag_lock 0 k false m')) with (lget flag_sig m').
    destruct (bget (lget flag_sig m') 0 k) eqn:Hs; cbn [Z.b2z Z.eqb].
    + apply (flag_hand_over_inv (st_bit flag_lock 0 k false));
        [done|done|done|reflexivity|reflexivity|reflexivity| |].
      * intros Hn. flag_upd Inv_flag_lock.
      * intros m2 Hs2. unfold st_bit. fsimpl. rewrite (Hbb (lget flag_lock m2)) by kidx. reflexivity.
    + kstep. kinv HI. flag_upd Inv_flag_lock.
Qed.
End svc_sync.
