(* ===== verification/SvcEvent.v ===== *)
(** * Event sets keep the invariant

    A set with a thread waiting has no enabled event pending; the loops that
    deliver pending events end within 33 rounds. *)

From S2P Require Import Prelude Arch Config Kernel Rules Inv InvOps InvObj Mutex Semaphore Cond Event Flag Steps SvcObj SvcSync.

Section svc_event.
Context `{Cfg : Config} {Disc : Discipline} `{!ConfigOk Cfg} `{!CoreConfig Cfg}.
Implicit Types (m : machine).

(** A pending scheduler has nothing left to be asked for. *)
Lemma Inv_pending x d p m : Inv x d p m -> lget pendsv m = true -> Inv x false p m.
Proof.
  intros [Hsh HQ HO HA HI HS Hp] E. split; try done. split; [apply HS|]. intros _ E'. congruence.
Qed.

Definition ev_ready m (k : Z) : Z := Z.land (zget (lget ev_pend m) k) (zget (lget ev_mask m) k).

Lemma land_word a b : 0 <= a < 2 ^ 32 -> 0 <= Z.land a b < 2 ^ 32.
Proof.
  intros Ha. assert (0 <= Z.land a b) by (apply Z.land_nonneg; lia). split; [done|].
  apply bits_bound; [lia|done|]. intros i Hi. rewrite Z.land_spec.
  by rewrite (testbit_high a 32) by lia.
Qed.

Lemma lor_word a b : 0 <= a < 2 ^ 32 -> 0 <= b < 2 ^ 32 -> 0 <= Z.lor a b < 2 ^ 32.
Proof.
  intros Ha Hb. assert (0 <= Z.lor a b) by (apply Z.lor_nonneg; lia). split; [done|].
  apply bits_bound; [lia|done|]. intros i Hi. rewrite Z.lor_spec.
  by rewrite (testbit_high a 32), (testbit_high b 32) by lia.
Qed.

(** Somebody waits only when nothing is ready. *)
Lemma ev_waiters m k : OInv m -> 0 <= k < THINKOS_EVENT_MAX ->
  ev_ready m k = 0 \/ calm m (THINKOS_EVENT_BASE + k).
Proof.
  intros HO Hk. destruct (decide (ev_ready m k = 0)); [by left|right].
  intros Hd th Hth. destruct (qbit m _ th) eqn:Hb; [|done].
  by destruct (waiting_event _ _ _ HO Hd Hk Hth Hb) as [? _].
Qed.

Lemma ffs_32_zero w : 0 <= w < 2 ^ 32 -> ffs w >= 32 -> w = 0.
Proof. intros Hw Hge. apply ffs_zero; [done|]. pose proof (ffs_bound w). lia. Qed.

Lemma st_bit_word f k b v m : 0 <= b < 32 ->
  st_bit f k b v m = st_arr f k (bit_upd (zget (lget f m) k) b v) m.
Proof.
  intros Hb. unfold st_bit, st_arr, bset. rewrite Z.div_small, Z.mod_small, Z.add_0_r by lia. done.
Qed.

(** Clearing a pending event is always allowed. *)
Lemma Inv_ev_clear x d p m k e :
  Inv x d p m -> 0 <= k < THINKOS_EVENT_MAX -> 0 <= e < 32 -> Inv x d p (st_bit ev_pend k e false m).
Proof.
  intros HI Hk He. rewrite st_bit_word by done.
  apply Inv_ev_pend; [done|done|by apply bit_upd_bound; [|apply (inv_a HI)]|].
  destruct (ev_waiters m k (inv_o HI) Hk) as [E|?]; [left|by right].
  apply Z.bits_inj'. intros i Hi. rewrite Z.land_spec, Z.bits_0, bit_upd_spec by lia.
  destruct (decide _); [done|]. rewrite <-Z.land_spec. change (Z.testbit (ev_ready m k) i = false).
  by rewrite E, Z.bits_0.
Qed.

Lemma ev_alloc_inv m self arg : running m self -> wp (thinkos_ev_alloc_svc arg) kpost m.
Proof.
  intros [HI Ha Ht Hr]. apply wp_bind, wp_bmp_alloc; [apply HI|apply event_bound|kidx|..].
  - intros k Hk [Hf _]. rewrite (proj2 (Z.leb_le 0 k)) by lia.
    assert (calm m (THINKOS_EVENT_BASE + k)) as Hn.
    { intros Hd th Hth. destruct (qbit m _ th) eqn:Hb; [|done].
      destruct (waiting_event _ _ _ (inv_o HI) Hd Hk Hth Hb) as (_ & E). congruence. }
    assert (Inv (-1) false false (st_bit ev_alloc 0 k true m)) as HI1 by (apply Inv_ev_alloc; auto).
    clear HI. apply wp_bind, wp_arr_wr_st; [kidx|]. kinv HI1; [by apply Inv_ev_mask; auto|].
    apply wp_bind, wp_arr_wr_st; [kidx|]. kinv HI1; [by apply Inv_ev_pend; auto|]. ksteps.
  - intros _. simpl. ksteps.
Qed.

Lemma ev_free_inv m self arg :
  running m self ->
  (forall k, 0 <= k < THINKOS_EVENT_MAX -> load (lget mem m) (arg + 4 * 0) = THINKOS_EVENT_BASE + k ->
    calm m (THINKOS_EVENT_BASE + k)) ->
  wp (thinkos_ev_free_svc arg) kpost m.
Proof.
  intros [HI Ha Ht Hr] Hn. unfold thinkos_ev_free_svc. do 2 kstep. case_match eqn:Hc; [by ksteps|].
  apply orb_false_iff in Hc as [H1 H2]. apply Z.ltb_ge in H1. apply Z.leb_gt in H2.
  apply wp_bit_mem_wr; [kidx|]. apply Inv_ev_alloc; [done|lia|right]. apply Hn; lia.
Qed.

Lemma wp_ev_first x d p m k (Q : Z -> machine -> Prop) :
  Inv x d p m -> 0 <= k < THINKOS_EVENT_MAX -> Q (ffs (ev_ready m k)) m -> wp (ev_first k) Q m.
Proof.
  intros HI Hk HQ. apply wp_bind, wp_arr_rd; [kidx|]. apply wp_bind, wp_arr_rd; [kidx|]. by apply wp_ret.
Qed.

Lemma ev_none_wait m k th :
  AInv m -> 0 <= k < THINKOS_EVENT_MAX -> ffs (ev_ready m k) >= 32 ->
  bget (lget ev_alloc m) 0 k = true -> can_wait m (THINKOS_EVENT_BASE + k) th.
Proof.
  intros HA Hk Hge Hal. apply can_wait_event; [done|]. split; [|done].
  apply ffs_32_zero; [|done]. apply land_word, HA.
Qed.

Lemma ev_wait_inv m self arg : running m self -> wp (thinkos_ev_wait_svc arg) kpost m.
Proof.
  intros [HI Ha Ht Hr]. unfold thinkos_ev_wait_svc. ksteps. kcheck k Hk E Hal.
  do 3 kstep. eapply wp_ev_first; [exact HI|done|]. case_match eqn:Hv.
  - apply Z.ltb_lt in Hv. pose proof (ffs_bound (ev_ready (lset primask true m) k)).
    kstep. apply wp_bit_mem_wr; [kidx|]. kinv HI; [apply Inv_ev_clear; [done|done|lia]|]. ksteps.
  - apply Z.ltb_ge in Hv. rewrite E. kstep.
    kstep; [by apply event_wq|apply ev_none_wait; [apply HI|done|lia|done]|].
    kstep. eapply collect_if_zero_inv; [exact HI|done|]. clear HI. intros HI. ksteps.
Qed.

Lemma ev_timedwait_inv m self arg : running m self -> wp (thinkos_ev_timedwait_svc arg) kpost m.
Proof.
  intros [HI Ha Ht Hr]. unfold thinkos_ev_timedwait_svc. ksteps. kcheck k Hk E Hal.
  do 3 kstep. eapply wp_ev_first; [exact HI|done|]. case_match eqn:Hv.
  - apply Z.ltb_lt in Hv. pose proof (ffs_bound (ev_ready (lset primask true m) k)).
    kstep. apply wp_bit_mem_wr; [kidx|]. kinv HI; [apply Inv_ev_clear; [done|done|lia]|]. ksteps.
  - apply Z.ltb_ge in Hv. rewrite E. kstep.
    kstep; [by apply event_wq|apply ev_none_wait; [apply HI|done|lia|done]|].
    kstep. eapply collect_if_zero_inv; [exact HI|done|]. clear HI. intros HI. ksteps.
Qed.

(** An event left pending has nobody to take it. *)
Lemma ev_raise_body_inv p m k e :
  Inv (-1) false p m -> 0 <= k < THINKOS_EVENT_MAX -> 0 <= e < 32 ->
  wp (ev_raise_body (THINKOS_EVENT_BASE + k) k e) (fun _ m' => Inv (-1) false p m') m.
Proof.
  intros HI Hk He. apply wp_bind, wp_bit_mem_rd; [kidx|].
  assert (forall v, v = false \/ no_waiters m (THINKOS_EVENT_BASE + k) ->
    bget (lget ev_mask m) k e = v -> Inv (-1) false p (st_bit ev_pend k e (Z.odd 1) m)) as Hset.
  { intros v Hv Hm. change (Z.odd 1) with true. rewrite st_bit_word by done.
    apply Inv_ev_pend; [done|done|by apply bit_upd_bound; [|apply (inv_a HI)]|].
    destruct Hv as [->|?]; [|by right; apply no_waiters_calm].
    destruct (ev_waiters m k (inv_o HI) Hk) as [E|?]; [left|by right].
    apply Z.bits_inj'. intros i Hi. rewrite Z.land_spec, Z.bits_0, bit_upd_spec by lia.
    destruct (decide (e = i)) as [->|].
    - unfold bget in Hm. rewrite Z.div_small, Z.mod_small, Z.add_0_r in Hm by lia. by rewrite Hm.
    - rewrite <-Z.land_spec. change (Z.testbit (ev_ready m k) i = false). by rewrite E, Z.bits_0. }
  kstep. destruct (bget (lget ev_mask m) k e) eqn:Hm; cbn [Z.b2z Z.eqb].
  - eapply I_head; [exact HI|by apply obj_wait, event_wq|..].
    + intros Hn. rewrite Z.eqb_refl. cbn [negb]. apply wp_bit_mem_wr; [kidx|]. apply (Hset true); auto.
    + intros th Hth Hb _ Hne. rewrite (proj2 (Z.eqb_neq _ _) Hne). cbn [negb].
      kstep. apply (I_wake_return (-1) false p); [done|by apply event_wq|done..|].
      clear HI. intros HI. by apply (I_defer (-1) true p).
  - kstep. rewrite Z.eqb_refl. cbn [negb]. apply wp_bit_mem_wr; [kidx|]. apply (Hset false); auto.
Qed.

Lemma ev_raise_inv m self arg : running m self -> wp (thinkos_ev_raise_svc arg) kpost m.
Proof.
  intros [HI Ha Ht Hr]. unfold thinkos_ev_raise_svc. ksteps. case_match eqn:Hv; [by ksteps|].
  apply Z.ltb_ge in Hv. kcheck k Hk E Hal. rewrite E.
  apply ev_raise_body_inv; [done|done|]. pose proof (load_bound (lget mem m) (arg + 4 * 1)). lia.
Qed.

Lemma ev_raise_i_inv m k e :
  Inv (-1) false false m -> 0 <= k < THINKOS_EVENT_MAX -> 0 <= e < 32 ->
  wp (thinkos_ev_raise_i (THINKOS_EVENT_BASE + k) e) kpost m.
Proof.
  intros HI Hk He. apply wp_bind, wp_get. rewrite (inv_p HI). apply wp_bind, wp_put.
  replace (THINKOS_EVENT_BASE + k - THINKOS_EVENT_BASE) with k by lia.
  apply wp_bind. eapply wp_mono; [by apply ev_raise_body_inv; [eapply Inv_primask|..]|].
  clear HI. intros [] m' HI. apply wp_put. by eapply Inv_primask.
Qed.

Lemma ev_mask_inv m self arg : running m self -> wp (thinkos_ev_mask_svc arg) kpost m.
Proof.
  intros [HI Ha Ht Hr]. unfold thinkos_ev_mask_svc. ksteps. kcheck k Hk E Hal.
  kstep. apply wp_arr_rd; [kidx|]. apply wp_arr_wr_st; [kidx|]. kinv HI.
  apply Inv_ev_mask; [done|done|apply land_word, (inv_a HI)|].
  destruct (ev_waiters m k (inv_o HI) Hk) as [E0|?]; [left|by right].
  rewrite Z.land_assoc. change (Z.land (ev_ready m k) (u32 (Z.lnot (load (lget mem m) (arg + 4 * 1)))) = 0).
  rewrite E0. apply Z.land_0_l.
Qed.

(** ** Delivery of the pending events of a mask

    The loop runs in states [g m], [g] being the update of the set's own
    mask that came before it. *)
Section deliver.
Context (k : Z) (g : machine -> machine).
Hypothesis Hk : 0 <= k < THINKOS_EVENT_MAX.
Hypothesis g_shape : forall m, shape m -> shape (g m).
Hypothesis g_wq : forall m, lget wq_lst (g m) = lget wq_lst m.
Hypothesis g_pend : forall m, lget ev_pend (g m) = lget ev_pend m.
Hypothesis g_wake : forall q th v m, st_wake q th v (g m) = g (st_wake q th v m).
Hypothesis g_clear : forall b v m, st_bit ev_pend k b v (g m) = g (st_bit ev_pend k b v m).

Lemma ev_deliver_inv x d p m e th (Q : unit -> machine -> Prop) :
  Inv x d p m -> 0 <= e < 32 -> is_thread th -> qbit m (THINKOS_EVENT_BASE + k) th = true ->
  (let m' := st_wake (THINKOS_EVENT_BASE + k) th e (st_bit ev_pend k e false m) in
   Inv x true p m' -> Q tt (g m')) ->
  wp (ev_deliver (THINKOS_EVENT_BASE + k) k e th) Q (g m).
Proof using All.
  intros HI He Hth Hb HQ. apply wp_bind, wp_bit_mem_wr.
  { rewrite g_pend. kidx. }
  change (Z.odd 0) with false. rewrite g_clear.
  eapply (I_wake_frame _ g (event_wq k Hk) g_shape g_wq (g_wake _) x d p);
    [by apply Inv_ev_clear|done|done|exact HQ].
Qed.

Lemma ev_wake_rest_inv x d p mask fuel lo m (Q : unit -> machine -> Prop) :
  0 <= lo <= 32 -> 32 - lo < Z.of_nat fuel ->
  (forall j, 0 <= j < lo -> qbit m (THINKOS_EVENT_BASE + k) j = false) ->
  Inv x d p m -> 0 <= mask < 2 ^ 32 ->
  (forall d' m', Inv x d' p m' ->
    (d' = d /\ m' = m \/ d' = true /\ lget ev_mask m' = lget ev_mask m /\ lget pendsv m' = lget pendsv m) ->
    no_waiters m' (THINKOS_EVENT_BASE + k) \/
    Z.land (zget (lget ev_pend m') k) mask = 0 -> Q tt (g m')) ->
  wp (ev_wake_rest fuel (THINKOS_EVENT_BASE + k) k mask) Q (g m).
Proof using All.
  revert d lo m Q. induction fuel as [|n IH]; intros d lo m Q Hlo Hf Hz HI Hm HQ; [lia|].
  apply wp_bind, wp_arr_rd; [rewrite g_pend; kidx|]. rewrite g_pend. cbv zeta.
  change (__clz (__rbit ?w)) with (ffs w). set (w := Z.land (zget (lget ev_pend m) k) mask).
  pose proof (ffs_bound w).
  assert (0 <= w < 2 ^ 32) as Hw by (apply land_word, (inv_a HI)).
  destruct (Z.ltb_spec (ffs w) 32) as [Hlt|Hge].
  2:{ apply wp_ret. apply (HQ d); [done|by left|right]. fold w; apply ffs_32_zero; [done|lia]. }
  apply wp_bind, (I_head_frame _ g (event_wq k Hk) g_shape g_wq (g_wake _) x d p); [done|..].
  { intros Hn. rewrite Z.eqb_refl. apply wp_ret. apply (HQ d); auto. }
  intros th Hth Hb Hleast Hne. rewrite (proj2 (Z.eqb_neq _ _) Hne). cbn [negb].
  apply wp_bind. apply (ev_deliver_inv x d p); [done|lia|done|done|]. cbv zeta. intros HI'.
  assert (lo <= th) as Hge.
  { destruct (Z_lt_le_dec th lo); [|done]. rewrite Hz in Hb; [done|]. unfold is_thread in Hth. lia. }
  pose proof (thread_range _ Hth).
  assert (forall j, 0 <= j < th + 1 -> qbit (st_wake (THINKOS_EVENT_BASE + k) th (ffs w)
    (st_bit ev_pend k (ffs w) false m)) (THINKOS_EVENT_BASE + k) j = false) as Hz'.
  { intros j Hj. rewrite qbit_wake; [|unfold st_bit; pose proof (inv_shape HI); solve_shape|by apply obj_wait, event_wq|lia|lia].
    destruct (decide _) as [|Hd].
    - by apply bool_decide_false, wait_not_ready, obj_wait, event_wq.
    - apply Hleast. destruct (decide (j = th)) as [->|]; [|lia]. by destruct Hd; auto. }
  apply (IH true (th + 1)); [lia|lia|done|done|done|].
  intros d' m' HI2 Hd HD. apply (HQ true); [destruct Hd as [[-> ->]|[-> _]]; done| |done].
  right. split; [done|]. by destruct Hd as [[_ ->]|(_ & -> & ->)].
Qed.
End deliver.

Lemma ev_unmask_inv m self arg : running m self -> wp (thinkos_ev_unmask_svc arg) kpost m.
Proof.
  intros [HI Ha Ht Hr]. unfold thinkos_ev_unmask_svc. ksteps. kcheck k Hk E Hal. rewrite E. do 3 kstep.
  set (mask := load (lget mem m) (arg + 4 * 1)). pose proof (load_bound (lget mem m) (arg + 4 * 1)) as Hm.
  fold mask in Hm. clear E Hal Ha Hr. match type of HI with Inv _ _ _ ?m1 => remember m1 as m' end. clear Heqm'.
  apply wp_arr_rd; [kidx|]. kstep. apply wp_arr_wr_st; [kidx|].
  set (v := Z.lor (zget (lget ev_mask m') k) mask). set (g := st_arr ev_mask k v).
  assert (forall m, shape m -> shape (g m)) as Hg by (intros; unfold g, st_arr; solve_shape).
  pose proof (Hg m' (inv_shape HI)) as Hs'.
  assert (forall d m1, Inv (-1) d true m1 -> lget ev_mask m1 = lget ev_mask m' ->
    no_waiters m1 (THINKOS_EVENT_BASE + k) \/ Z.land (zget (lget ev_pend m1) k) mask = 0 ->
    Inv (-1) d true (g m1)) as Hend.
  { intros d m1 HI1 Em Hc. apply Inv_ev_mask; [done|done|apply lor_word; [apply (inv_a HI)|done]|].
    destruct Hc as [?|Hc]; [by right; apply no_waiters_calm|]. destruct (ev_waiters m1 k (inv_o HI1) Hk) as [E|?]; [left|by right].
    unfold v. rewrite Z.land_lor_distr_r, Hc, <-Em. change (Z.lor (ev_ready m1 k) 0 = 0). by rewrite E. }
  kstep. apply wp_arr_rd; [kidx|]. change (lget ev_pend (g m')) with (lget ev_pend m').
  change (__clz (__rbit ?w)) with (ffs w). set (w := Z.land (zget (lget ev_pend m') k) mask). cbv zeta.
  pose proof (ffs_bound w). assert (0 <= w < 2 ^ 32) as Hw by (apply land_word, (inv_a HI)).
  destruct (Z.ltb_spec (ffs w) 32) as [Hlt|Hge].
  - kstep. eapply (I_head_frame _ g (event_wq k Hk) Hg (fun _ => eq_refl) (fun _ _ _ => eq_refl)); [exact HI|..].
    + intros Hn. rewrite Z.eqb_refl. cbn [negb].
      kinv HI; [by apply Hend; auto|]. ksteps.
    + intros th Hth Hb _ Hne. rewrite (proj2 (Z.eqb_neq _ _) Hne). cbn [negb]. kstep.
      eapply (ev_deliver_inv k g Hk Hg (fun _ => eq_refl) (fun _ => eq_refl) (fun _ _ _ _ => eq_refl)
        (fun _ _ _ => eq_refl)); [exact HI|lia|done|done|]. cbv zeta. intros HI1.
      set (m1 := st_wake _ _ _ _) in *. apply wp_bind, wp_put.
      change (lset pendsv true (g m1)) with (g (st_defer m1)). apply Inv_defer in HI1 as HI2.
      kstep. eapply (ev_wake_rest_inv k g Hk Hg (fun _ => eq_refl) (fun _ => eq_refl) (fun _ _ _ _ => eq_refl)
        (fun _ _ _ => eq_refl) (-1) false true mask 33 0); [lia|lia|lia|exact HI2|done|].
      intros d' m2 HI3 Hd HD. apply wp_put.
      change (Inv (-1) false false (lset primask false (g m2))). eapply Inv_primask.
      assert (lget ev_mask m2 = lget ev_mask m' /\ lget pendsv m2 = true) as [Em Ep].
      { destruct Hd as [[_ ->]|(_ & -> & ->)]; done. }
      eapply Inv_pending; [exact (Hend d' m2 HI3 Em HD)|exact Ep].
  - kstep. cbn [ev_wake_rest]. apply wp_bind, wp_arr_rd; [kidx|].
    change (lget ev_pend (g m')) with (lget ev_pend m'). fold w.
    change (__clz (__rbit w)) with (ffs w). rewrite (proj2 (Z.ltb_ge _ _) Hge). apply wp_ret, wp_put.
    change (Inv (-1) false false (lset primask false (g m'))). eapply Inv_primask.
    apply Hend; [done|done|right]. fold w; apply ffs_32_zero; [done|lia].
Qed.
End svc_event.
