(* ===== verification/SvcThread.v ===== *)
(** * Threads, interrupts and the scheduler keep the invariant

    Creation and end of threads, sleeping, waiting for an interrupt, the
    default handler, PendSV and SysTick. *)

From S2P Require Import Prelude Arch Config Kernel Rules Inv InvOps InvObj Mutex Semaphore Cond Event Flag Thread Sched Steps SvcObj.

Section frames.
Context `{Cfg : Config} {Disc : Discipline} `{!ConfigOk Cfg}.
Implicit Types (m : machine).

Ltac arr_frame :=
  intros []; split; [unfold st_arr, st_bit; solve_shape|kframe..|done].

Lemma Inv_ctx x d p m i v : Inv x d p m -> Inv x d p (st_arr ctx i v m).
Proof. arr_frame. Qed.
Lemma Inv_th_inf x d p m i v : Inv x d p m -> Inv x d p (st_arr th_inf i v m).
Proof. arr_frame. Qed.
Lemma Inv_irq_pend x d p m i v : Inv x d p m -> Inv x d p (st_bit irq_pend 0 i v m).
Proof. arr_frame. Qed.
Lemma Inv_ticks x d p m v : Inv x d p m -> Inv x d p (lset ticks v m).
Proof. intros []; split; [solve_shape|kframe..|done]. Qed.
Lemma Inv_psp x d p m v : Inv x d p m -> Inv x d p (lset psp v m).
Proof. intros []; split; [solve_shape|kframe..|done]. Qed.

(** ** The allocation of threads *)

Lemma clz_bound w : 0 <= __clz w <= 32.
Proof. unfold __clz. pose proof (clz_bits_spec 32 w). lia. Qed.
Lemma clz_above w i : 32 - __clz w <= i < 32 -> Z.testbit w i = false.
Proof. unfold __clz. intros. by apply (clz_bits_spec 32 w). Qed.
Lemma clz_bit w : __clz w < 32 -> Z.testbit w (31 - __clz w) = true.
Proof. unfold __clz. intros. by apply (clz_bits_spec 32 w). Qed.

Lemma bget_word0 l b : 0 <= b < 32 -> bget l 0 b = Z.testbit (zget l 0) b.
Proof. intros. unfold bget. by rewrite Z.div_small, Z.mod_small by lia. Qed.

Lemma u32_lnot_bit w b : 0 <= b < 32 -> Z.testbit (u32 (Z.lnot w)) b = negb (Z.testbit w b).
Proof. intros Hb. unfold u32, wrap. rewrite Z.mod_pow2_bits_low by lia. apply Z.lnot_spec. lia. Qed.

(** The lowest free number at or above [start]. *)
Lemma wp_alloc_lo (f : lens machine (list Z)) start (Q : Z -> machine -> Prop) m :
  words_ok (lget f m) -> 0 < zlen (lget f m) -> 0 <= start < 32 ->
  (forall i, start <= i < 32 -> bget (lget f m) 0 i = false ->
    (forall j, start <= j < i -> bget (lget f m) 0 j = true) -> Q i (st_bit f 0 i true m)) ->
  ((forall i, start <= i < 32 -> bget (lget f m) 0 i = true) -> Q (-1) m) ->
  wp (thinkos_alloc_lo f start) Q m.
Proof.
  intros Hw Hl Hs H1 H2. apply wp_bind, wp_arr_rd; [lia|]. cbv zeta.
  change (__clz (__rbit ?w)) with (ffs w). set (w := zget (lget f m) 0).
  set (v := u32 (Z.lnot (Z.shiftr w start))). pose proof (ffs_bound v) as Hb.
  assert (forall b, 0 <= b < 32 -> Z.testbit v b = negb (Z.testbit w (b + start))) as Hv.
  { intros b Hb'. unfold v. rewrite u32_lnot_bit by done. rewrite Z.shiftr_spec by lia. done. }
  assert (forall i, start <= i < start + ffs v -> i < 32 -> bget (lget f m) 0 i = true) as Hbelow.
  { intros i Hi Hi32. rewrite bget_word0 by lia. fold w. apply negb_false_iff.
    replace i with (i - start + start) by lia. rewrite <-Hv by lia. apply ffs_below. lia. }
  destruct (Z.leb_spec 32 (ffs v + start)) as [Hge|Hlt].
  - apply wp_ret, H2. intros i Hi. apply Hbelow; lia.
  - apply wp_bind, wp_bit_mem_wr; [lia|]. apply wp_ret, H1; [lia| |].
    + rewrite bget_word0 by lia. fold w. apply negb_true_iff. rewrite <-Hv by lia. apply ffs_bit. lia.
    + intros j Hj. apply Hbelow; lia.
Qed.

(** The highest free number at or below [start]. *)
Lemma wp_alloc_hi (f : lens machine (list Z)) start (Q : Z -> machine -> Prop) m :
  words_ok (lget f m) -> 0 < zlen (lget f m) -> 0 <= start ->
  (forall i, 0 <= i <= Z.min start 31 -> bget (lget f m) 0 i = false ->
    (forall j, i < j <= Z.min start 31 -> bget (lget f m) 0 j = true) -> Q i (st_bit f 0 i true m)) ->
  ((forall i, 0 <= i <= Z.min start 31 -> bget (lget f m) 0 i = true) -> Q (-1) m) ->
  wp (thinkos_alloc_hi f start) Q m.
Proof.
  intros Hw Hl Hs H1 H2. unfold thinkos_alloc_hi. cbv zeta.
  set (s := if 31 <? start then 31 else start).
  assert (s = Z.min start 31) as Es by (unfold s; destruct (Z.ltb_spec 31 start); lia). rewrite <-Es in H1, H2.
  assert (0 <= s <= 31) as Hs' by (unfold s; destruct (Z.ltb_spec 31 start); lia).
  apply wp_bind, wp_arr_rd; [lia|]. set (w := zget (lget f m) 0).
  set (v := u32 (Z.lnot (u32 (Z.shiftl w (31 - s))))). pose proof (clz_bound v) as Hb.
  assert (forall b, 31 - s <= b < 32 -> Z.testbit v b = negb (Z.testbit w (b - (31 - s)))) as Hv.
  { intros b Hb'. unfold v. rewrite u32_lnot_bit by lia. f_equal. unfold u32, wrap.
    rewrite Z.mod_pow2_bits_low by lia. apply Z.shiftl_spec. lia. }
  assert (forall i, s - __clz v < i <= s -> 0 <= i -> bget (lget f m) 0 i = true) as Habove.
  { intros i Hi Hi0. rewrite bget_word0 by lia. fold w. apply negb_false_iff.
    replace i with (i + (31 - s) - (31 - s)) by lia. rewrite <-Hv by lia. apply clz_above. lia. }
  destruct (Z.ltb_spec (s - __clz v) 0) as [Hlt|Hge].
  - apply wp_ret, H2. intros i Hi. apply Habove; lia.
  - apply wp_bind, wp_bit_mem_wr; [lia|]. apply wp_ret, H1; [lia| |].
    + rewrite bget_word0 by lia. fold w. apply negb_true_iff.
      replace (s - __clz v) with (31 - __clz v - (31 - s)) by lia. rewrite <-Hv by lia. apply clz_bit. lia.
    + intros j Hj. apply Habove; lia.
Qed.
End frames.

Section threads.
Context `{Cfg : Config} {Disc : Discipline} `{!ConfigOk Cfg} `{!CoreConfig Cfg}.
Implicit Types (m : machine).

(** A thread number taken but never run: in no queue, with no status. *)
Record fresh m (th : Z) : Prop := {
  fr_thread : is_thread th;
  fr_alloc : bget (lget th_alloc m) 0 th = true;
  fr_stat : stat m th = 0;
  fr_bits : forall q, 0 <= q < THINKOS_WQ_LST_END -> qbit m q th = false;
  fr_irq : forall i, 0 <= i < THINKOS_IRQ_MAX -> bget (lget irq_en m) 0 i = true -> zget (lget irq_th m) i <> th;
}.

Lemma th_alloc_bit m th b v : shape m -> is_thread th ->
  bget (lget th_alloc (st_bit th_alloc 0 th v m)) 0 b = if decide (th = b) then v else bget (lget th_alloc m) 0 b.
Proof.
  intros Hsh Hth. pose proof (thread_range _ Hth). unfold st_bit. fsimpl. apply bget_bset_base. kidx.
Qed.

Lemma Inv_th_alloc x d p m th :
  Inv x d p m -> is_thread th -> bget (lget th_alloc m) 0 th = false ->
  Inv x d p (st_bit th_alloc 0 th true m) /\ fresh (st_bit th_alloc 0 th true m) th.
Proof.
  intros [Hsh HQ HO HA HI HS Hp] Hth Hfree. pose proof (thread_range _ Hth).
  assert (forall b, bget (lget th_alloc m) 0 b = true -> bget (lget th_alloc (st_bit th_alloc 0 th true m)) 0 b = true) as Hmono.
  { intros b Hb. rewrite th_alloc_bit by done. by destruct (decide _). }
  split.
  - split; [unfold st_bit; solve_shape| |kframe| | |kframe|done].
    + destruct HQ as [H1 H2 H3 H4 H5 H6 H7 H8]. split; try assumption. intros t Ht Ha. apply (H7 t Ht).
      destruct (bget (lget th_alloc m) 0 t) eqn:E; [|done]. by rewrite Hmono in Ha.
    + destruct HA. split; try assumption. unfold st_bit. fsimpl. apply bmp_ok_set; [done|kidx|by left].
    + destruct HI as [H1 H2]. split; [|done]. intros i Hi He. destruct (H1 i Hi He) as (?&?&?&?&?).
      split; [done|]. split; [by apply Hmono|done].
  - destruct (q_alloc _ _ HQ th Hth Hfree) as [Hs Hn]. split; [done| |done|done|].
    + rewrite th_alloc_bit by done. by rewrite decide_True.
    + intros i Hi He E. destruct (i_waits _ _ HI i Hi He) as (_ & Ha & _). change (zget (lget irq_th m) i = th) in E. rewrite E in Ha. congruence.
Qed.

Lemma Inv_ready_new x d p m th :
  Inv x d p m -> fresh m th -> Inv x true p (st_bit wq_lst THINKOS_WQ_READY th true m).
Proof.
  intros [Hsh HQ HO HA HI HS Hp] [Hth Hal Hst Hbits Hirq]. pose proof (thread_range _ Hth) as H32.
  pose proof wq_ready_range as Hrr. pose proof threads_bound.
  assert (forall q t, 0 <= t < 32 -> qbit (st_bit wq_lst THINKOS_WQ_READY th true m) q t =
    if decide (THINKOS_WQ_READY = q /\ th = t) then true else qbit m q t) as H0.
  { intros q t Ht. by apply qbit_bit. }
  assert (forall q t, wait_wq q -> 0 <= t < 32 ->
    qbit (st_bit wq_lst THINKOS_WQ_READY th true m) q t = qbit m q t) as H1.
  { intros q t Hq Ht. rewrite H0 by done. rewrite decide_False; [done|]. intros [E _]. by destruct (wait_not_ready _ Hq). }
  split; [by apply shape_bit_wq| | |kframe| | |done].
  - split.
    + apply words_bit_wq; [done..|apply HQ].
    + intros q t Hq Ht. rewrite H0 by done. destruct (decide _) as [[<- <-]|]; [by left|by apply (q_dom _ _ HQ)].
    + intros Hlt. unfold ready. rewrite H0 by (unfold THINKOS_THREAD_IDLE; lia).
      destruct (decide _); [done|by apply (q_idle _ _ HQ)].
    + apply (q_stat_range _ _ HQ).
    + intros q t Hq Ht. rewrite H1 by eauto using obj_wait, thread_range. by apply (q_stat _ _ HQ).
    + intros t Ht Hx Hr. destruct (decide (t = th)) as [->|Hne].
      { split; [done|]. intros q Hq. rewrite H1 by eauto using thread_range. by apply Hbits, wait_wq_range. }
      unfold ready in Hr. rewrite H0 in Hr by eauto using thread_range.
      rewrite decide_False in Hr by (intros [_ ?]; congruence).
      destruct (q_excl _ _ HQ t Ht Hx Hr) as [? Hn]. split; [done|].
      intros q Hq. rewrite H1 by eauto using thread_range. by apply Hn.
    + intros t Ht Ha. destruct (q_alloc _ _ HQ t Ht Ha) as [? Hn]. split; [done|].
      intros q Hq. rewrite H0 by eauto using thread_range. rewrite decide_False; [by apply Hn|].
      intros [_ ->]. change (bget (lget th_alloc m) 0 t = false) in Ha. congruence.
    + intros t Ht. destruct (q_in _ _ HQ t Ht) as [Hi1 Hi2].
      change (stat (st_bit wq_lst THINKOS_WQ_READY th true m) t) with (stat m t).
      rewrite (H1 THINKOS_WQ_CLOCK) by eauto using clock_wait_wq, thread_range. split; [|done]. intros Hs.
      destruct (q_stat_range _ _ HQ t Ht); [done|]. rewrite H1 by eauto using thread_range. by apply Hi1.
  - intros Hd0 q t Hq Ht. rewrite H1 by eauto using obj_wait, thread_range. intros Hb.
    apply (can_wait_same m); [reflexivity..|]. by apply HO.
  - split; [|apply (i_inj _ _ HI)]. intros i Hi He. destruct (i_waits _ _ HI i Hi He) as (Ha & Hb & Hc & Hd & Hf).
    split; [done|]. split; [done|]. split; [|split; [done|]].
    + intros Hx. unfold ready. rewrite H0 by eauto using thread_range.
      rewrite decide_False; [by apply Hc|]. intros [_ E]. by apply (Hirq i Hi He).
    + intros q Hq. rewrite H1 by eauto using thread_range. by apply Hf.
  - split; [apply HS|done].
Qed.

(** Writes to the new thread's stack. *)
Lemma Inv_fresh_mem x d p m th a v :
  Inv x d p m /\ fresh m th -> Inv x d p (st_mem a v m) /\ fresh (st_mem a v m) th.
Proof. intros [HI []]. split; [by apply Inv_mem|by split]. Qed.

Lemma wp_mem_loop x d p m th n (addr : Z -> Z) v (Q : unit -> machine -> Prop) :
  0 <= n -> Inv x d p m /\ fresh m th ->
  (forall m', Inv x d p m' /\ fresh m' th -> Q tt m') ->
  wp (for_ n (fun k => st (addr k) v)) Q m.
Proof.
  intros Hn HI HQ. eapply wp_mono.
  - apply (wp_for n _ (fun _ m' => Inv x d p m' /\ fresh m' th)); [done|done|].
    intros j s' _ Hs. apply wp_st. by apply Inv_fresh_mem.
  - intros [] m' H. by apply HQ.
Qed.

Lemma wp_ctx_init x d p m th sp task targ (Q : unit -> machine -> Prop) :
  Inv x d p m /\ fresh m th ->
  (forall m', Inv x d p m' /\ fresh m' th -> Q tt m') -> wp (ctx_init sp task targ) Q m.
Proof.
  intros HI HQ. apply wp_bind, wp_st. apply (Inv_fresh_mem _ _ _ _ _ (sp + 32) targ) in HI.
  apply wp_bind. eapply wp_mem_loop; [lia|exact HI|]. clear dependent m. intros m HI.
  apply wp_bind. eapply wp_mem_loop; [lia|exact HI|]. clear dependent m. intros m HI.
  do 3 apply wp_bind, wp_st.
  apply wp_st, HQ. do 4 apply Inv_fresh_mem. exact HI.
Qed.

Lemma opt_id_bound opt : 0 <= opt_id opt < 128.
Proof.
  unfold opt_id. change 0x7f with (Z.ones 7). rewrite Z.land_ones by lia.
  apply Z.mod_pos_bound. lia.
Qed.

(** A free number is taken, or there is none. *)
Lemma wp_create_alloc x d p m id (Q : Z -> machine -> Prop) :
  Inv x d p m -> 0 <= id ->
  (forall th, is_thread th -> Inv x d p (st_bit th_alloc 0 th true m) ->
    fresh (st_bit th_alloc 0 th true m) th -> Q th (st_bit th_alloc 0 th true m)) ->
  Q (-1) m -> wp (create_alloc id) Q m.
Proof.
  intros HI Hid H1 H2. pose proof threads_bound. destruct (a_th _ (inv_a HI)) as [Hw Hhigh].
  assert (0 < zlen (lget th_alloc m)) as Hl by kidx.
  assert (forall i, 0 <= i < 32 -> bget (lget th_alloc m) 0 i = false -> Q i (st_bit th_alloc 0 i true m)) as Hok.
  { intros i Hi Hf. assert (is_thread i) as Hth.
    { split; [lia|]. destruct (Z_lt_le_dec i THINKOS_THREADS_MAX); [done|]. rewrite Hhigh in Hf; [done|kidx]. }
    destruct (Inv_th_alloc _ _ _ _ i HI Hth Hf). by apply H1. }
  unfold create_alloc. destruct (Z.leb_spec THINKOS_THREADS_MAX id).
  - apply wp_alloc_hi; [done|done|lia| |done]. intros i Hi Hf _. apply Hok; [lia|done].
  - apply wp_bind, wp_alloc_lo; [done|done|lia| |].
    + intros i Hi Hf _. rewrite (proj2 (Z.ltb_ge i 0)) by lia. apply wp_ret, Hok; [lia|done].
    + intros _. rewrite (proj2 (Z.ltb_lt (-1) 0)) by lia.
      apply wp_alloc_hi; [done|done|lia| |done]. intros i Hi Hf _. apply Hok; [lia|done].
Qed.

Lemma thread_create_inv m self arg : running m self -> wp (thinkos_thread_create_svc arg) kpost m.
Proof.
  intros [HI Ha Ht Hr]. unfold thinkos_thread_create_svc. do 11 kstep.
  eapply wp_create_alloc; [exact HI|apply opt_id_bound| |by apply I_arg_wr with (1 := HI)].
  intros th Hth HI1 Hf. rewrite (proj2 (Z.ltb_ge th 0)) by (unfold is_thread in Hth; lia). cbv zeta.
  clear HI. match goal with |- context [if ?b then _ else _] => destruct b end; [by ksteps|].
  assert (Inv (-1) false false (st_bit th_alloc 0 th true m) /\ fresh (st_bit th_alloc 0 th true m) th) as HI by done.
  clear HI1 Hf. remember (st_bit th_alloc 0 th true m) as m1. clear Heqm1.
  kstep. eapply wp_mem_loop; [lia|exact HI|]. clear dependent m1. intros m1 HI.
  kstep. eapply wp_ctx_init; [exact HI|]. clear dependent m1. intros m1 [HI Hf].
  kstep. apply wp_arr_wr_st; [kidx|]. kinv HI; [by apply Inv_ctx|].
  kstep. apply wp_arr_wr_st; [kidx|]. kinv HI; [by apply Inv_th_inf|].
  rewrite core_timeshare, core_pause. do 3 kstep. cbn [andb]. kstep.
  apply wp_wq_bit; [apply HI|apply wq_ready_range|by apply thread_range|]. intros _.
  apply (Inv_ready_new _ _ _ _ th) in HI; [|destruct Hf; split; assumption]. ksteps.
Qed.

(** ** Sleeping *)

(** The code both [sleep] and [alarm] end with: the clock is set to [clk]
    and the thread waits for it. *)
Lemma sleep_tail_inv m self clk :
  running m self ->
  wp (arr_wr clock self clk;;;
      bit_mem_wr wq_lst THINKOS_WQ_CLOCK self 1;;;
      arr_wr th_stat self (u8 (Z.shiftl THINKOS_WQ_CLOCK 1 + 1));;;
      __thinkos_wait self)%c kpost m.
Proof.
  intros [HI Ha Ht Hr]. pose proof wq_clock_range. pose proof (thread_range _ Ht).
  kstep. apply wp_arr_wr_st; [kidx|].
  assert (shape (st_arr clock self clk m)) as Hsh.
  { pose proof (inv_shape HI). unfold st_arr. solve_shape. }
  kstep. apply wp_wq_bit; [done|lia|lia|]. intros Hsh2.
  kstep. apply wp_th_stat; [done|done|]. intros _.
  apply (Inv_clock_insert _ _ _ clk self) in HI; [|exact Ht|exact Hr].
  match type of HI with Inv _ _ _ ?m1 => match goal with |- wp _ _ ?m2 => change m2 with m1 end end.
  ksteps.
Qed.

Lemma sleep_inv m self arg : running m self -> wp (thinkos_sleep_svc arg) kpost m.
Proof.
  intros Hrun. pose proof (run_active Hrun). unfold thinkos_sleep_svc. do 4 kstep. kstep. apply wp_get.
  by apply sleep_tail_inv.
Qed.

Lemma alarm_inv m self arg : running m self -> wp (thinkos_alarm_svc arg) kpost m.
Proof.
  intros Hrun. pose proof (run_active Hrun). unfold thinkos_alarm_svc. do 4 kstep.
  by apply sleep_tail_inv.
Qed.

(** ** The end of a thread *)

Lemma Inv_weaken x d p m : Inv (-1) d p m -> Inv x d p m.
Proof.
  intros [Hsh HQ HO HA HI HS Hp]. split; try done.
  - destruct HQ as [H1 H2 H3 H4 H5 H6 H7 H8]. split; try done.
    intros th Hth _. apply H6; [done|]. unfold is_thread in Hth. lia.
  - destruct HI as [H1 H2]. split; [|done]. intros i Hi He. destruct (H1 i Hi He) as (Ha & Hb & Hc & Hd).
    split; [done|]. split; [done|]. split; [|done]. intros _. apply Hc. unfold is_thread in Ha. lia.
Qed.

(** A thread that is in no queue and that no interrupt source waits with can
    be given back. *)
Lemma Inv_th_free x d p m th :
  Inv x d p m -> fresh m th -> Inv x d p (st_bit th_alloc 0 th false m).
Proof.
  intros [Hsh HQ HO HA HI HS Hp] [Hth Hal Hst Hbits Hirq]. pose proof (thread_range _ Hth).
  split; [unfold st_bit; solve_shape| |kframe| | |kframe|done].
  - destruct HQ as [H1 H2 H3 H4 H5 H6 H7 H8]. split; try assumption. intros t Ht Ha.
    rewrite th_alloc_bit in Ha by done. destruct (decide (th = t)) as [<-|]; [done|by apply H7].
  - destruct HA as [[Hw Hh] ?]. split; try assumption. unfold st_bit. fsimpl. apply bmp_ok_set; [done|kidx|].
    right. unfold is_thread in Hth. lia.
  - destruct HI as [H1 H2]. split; [|done]. intros i Hi He. destruct (H1 i Hi He) as (Ha&Hb&Hc).
    split; [done|]. split; [|done]. rewrite th_alloc_bit by done.
    rewrite decide_False; [done|]. intros E. by apply (Hirq i Hi He).
Qed.

(** Without time sharing and joins the loop over the threads only looks. *)
Lemma wp_exit_loop x d p m self code (Q : unit -> machine -> Prop) :
  Inv x d p m -> Q tt m -> wp (for_ THINKOS_THREADS_MAX (exit_visit self code)) Q m.
Proof.
  intros HI HQ. pose proof threads_bound. eapply wp_mono.
  - apply (wp_for THINKOS_THREADS_MAX _ (fun _ m' => m' = m)); [lia|done|].
    intros j ? Hj ->. unfold exit_visit. apply wp_bind, wp_bit_mem_rd; [kidx|].
    rewrite core_timeshare, core_join. destruct (bget _ 0 j); [|by apply wp_ret].
    apply wp_bind, wp_ret. by apply wp_ret.
  - by intros [] ? ->.
Qed.

Lemma core_queue q : 0 <= q < THINKOS_WQ_LST_END -> q = THINKOS_WQ_READY \/ wait_wq q.
Proof.
  unfold THINKOS_WQ_LST_END, wait_wq, THINKOS_WQ_CLOCK, THINKOS_WQ_PAUSED, THINKOS_WQ_CANCELED, THINKOS_WQ_READY.
  rewrite core_timeshare, core_join, core_pause. simpl. lia.
Qed.

(** Writing the status a thread already has. *)
Lemma st_stat_same m th : shape m -> is_thread th -> st_arr th_stat th (stat m th) m = m.
Proof.
  intros Hsh Hth. assert (zset (lget th_stat m) th (stat m th) = lget th_stat m) as E.
  { unfold zset, stat. apply list_insert_id. apply lookup_zget. kidx. }
  unfold st_arr. rewrite E. destruct m as [[] ? ? ? ? ? ? ?]. reflexivity.
Qed.

(** A running thread that leaves the ready queue is in none. *)
Lemma fresh_unready d p m th :
  Inv (-1) d p m -> is_thread th -> ready m th = true -> fresh (st_unready th m) th.
Proof.
  intros HI Hth Hr. pose proof (thread_range _ Hth).
  destruct (q_excl _ _ (inv_q HI) th Hth) as [Hst Hwait]; [unfold is_thread in Hth; lia|done|].
  split; [done|exact (ready_alloc _ _ _ (inv_q HI) Hth Hr)|exact Hst| |].
  - intros q Hq. unfold st_unready. rewrite qbit_bit by (eauto with kshape; apply wq_ready_range).
    destruct (decide _) as [|Hne]; [done|]. destruct (core_queue q Hq) as [->|Hw]; [by destruct Hne|by apply Hwait].
  - intros i. exact (irq_not_ready m th i (inv_i HI) Hth Hr).
Qed.

Lemma thread_exit_inv m self code : running m self -> wp (thinkos_thread_exit code) kpost m.
Proof.
  intros [HI Ha Ht Hr]. pose proof (thread_range _ Ht). unfold thinkos_thread_exit.
  destruct (q_excl _ _ (inv_q HI) self Ht) as [Hst _]; [unfold is_thread in Ht; lia|done|].
  rewrite core_timeshare. do 7 kstep. apply wp_arr_rd; [kidx|].
  change (zget (lget th_stat (lset primask true m)) self) with (stat m self). rewrite Hst.
  kstep. apply wp_th_stat; [apply HI|done|]. intros _.
  pose proof (st_stat_same (lset primask true m) self (inv_shape HI) Ht) as E.
  change (stat (lset primask true m) self) with (stat m self) in E. rewrite Hst in E. rewrite E. clear E.
  change (stat_wq 0) with THINKOS_WQ_READY.
  pose proof (fresh_unready false true (lset primask true m) self HI Ht Hr) as Hf.
  kstep. apply (I_unready self false true); [by apply Inv_weaken|done|]. clear HI. intros HI.
  set (m1 := st_unready self (lset primask true m)) in *. clearbody m1. clear Hr Hst Ha.
  kstep. eapply wp_exit_loop; [exact HI|]. do 2 kstep.
  assert (fresh (lset primask false m1) self) as Hf' by (destruct Hf; split; assumption).
  kstep. apply wp_bit_mem_wr; [kidx|]. kinv HI; [by apply Inv_th_free|].
  kstep. apply wp_arr_wr_st; [kidx|]. kinv HI; [by apply Inv_ctx|].
  apply (Inv_weaken self) in HI. ksteps.
Qed.

(** [thinkos_exit]: the caller stays ready and goes on in [thinkos_thread_exit]. *)
Lemma exit_inv m self arg : running m self -> wp (thinkos_exit_svc arg) kpost m.
Proof.
  intros [HI Ha Ht Hr]. unfold thinkos_exit_svc. do 4 kstep. unfold canceled_wq. rewrite core_join.
  pose proof (thread_range _ Ht). pose proof wq_ready_range.
  destruct (q_excl _ _ (inv_q HI) self Ht) as [Hst _]; [unfold is_thread in Ht; lia|done|].
  assert (st_insert THINKOS_WQ_READY self m = m) as E.
  { unfold st_insert. replace (st_bit wq_lst THINKOS_WQ_READY self true m) with m.
    - change (u8 (Z.shiftl THINKOS_WQ_READY 1)) with 0. rewrite <-Hst. apply st_stat_same; [apply HI|done].
    - assert (bset (lget wq_lst m) THINKOS_WQ_READY self true = lget wq_lst m) as E.
      { unfold bset. rewrite Z.div_small, Z.mod_small, Z.add_0_r by lia.
        replace (bit_upd _ self true) with (zget (lget wq_lst m) THINKOS_WQ_READY).
        - unfold zset. apply list_insert_id. apply lookup_zget. kidx.
        - apply Z.bits_inj'. intros j Hj. rewrite bit_upd_spec by lia.
          destruct (decide (self = j)) as [<-|]; [|done]. unfold ready, qbit, bget in Hr.
          by rewrite Z.div_small, Z.mod_small, Z.add_0_r in Hr by lia. }
      unfold st_bit. rewrite E. by destruct m as [[] ? ? ? ? ? ? ?]. }
  kstep. apply wp_wq_insert; [apply HI|done|done|]. intros _. rewrite E. ksteps.
Qed.

(** ** Interrupts *)

Lemma irq_bit m i b v : shape m -> 0 <= i < THINKOS_IRQ_MAX ->
  bget (lget irq_en (st_bit irq_en 0 i v m)) 0 b = if decide (i = b) then v else bget (lget irq_en m) 0 b.
Proof. intros Hsh Hi. unfold st_bit. fsimpl. apply bget_bset_base. kidx. Qed.

(** The caller becomes the thread of its source before it leaves the ready
    queue. *)
Lemma Inv_irq_claim d p m i self :
  Inv (-1) d p m -> is_thread self -> ready m self = true -> 0 <= i < THINKOS_IRQ_MAX ->
  Inv self d p (st_bit irq_en 0 i true (st_bit irq_pend 0 i false (st_arr irq_th i self m))).
Proof.
  intros HI0 Ht Hr Hi. pose proof (ready_alloc _ _ _ (inv_q HI0) Ht Hr) as Hal.
  destruct (q_excl _ _ (inv_q HI0) self Ht) as [Hst Hwait]; [unfold is_thread in Ht; lia|done|].
  assert (forall j, 0 <= j < THINKOS_IRQ_MAX -> bget (lget irq_en m) 0 j = true -> zget (lget irq_th m) j <> self) as Hne.
  { intros j. exact (irq_not_ready m self j (inv_i HI0) Ht Hr). }
  apply (Inv_weaken self) in HI0 as [Hsh HQ HO HA HI HS Hp].
  set (m1 := st_bit irq_pend 0 i false (st_arr irq_th i self m)).
  assert (shape m1) as Hs1 by (unfold m1, st_bit, st_arr; solve_shape).
  set (m' := st_bit irq_en 0 i true m1).
  assert (forall j, zget (lget irq_th m') j = if decide (i = j) then self else zget (lget irq_th m) j) as Hth.
  { intros j. change (lget irq_th m') with (zset (lget irq_th m) i self). apply zget_zset. kidx. }
  assert (forall j, bget (lget irq_en m') 0 j = if decide (i = j) then true else bget (lget irq_en m) 0 j) as Hen.
  { intros j. by apply (irq_bit m1). }
  split; [unfold m', st_bit in *; solve_shape|kframe..| |kframe|done].
  split.
  - intros j Hj. rewrite Hen, Hth. destruct (decide (i = j)); [|by apply HI].
    intros _. split; [done|]. split; [done|]. split; [done|]. by split.
  - intros j1 j2 Hj1 Hj2. rewrite !Hen, !Hth.
    destruct (decide (i = j1)) as [<-|], (decide (i = j2)) as [<-|]; [done|..].
    + intros _ He2 E. by destruct (Hne j2 Hj2 He2).
    + intros He1 _ E. by destruct (Hne j1 Hj1 He1).
    + by apply (i_inj _ _ HI).
Qed.

Lemma irq_wait_inv m self arg : running m self -> wp (thinkos_irq_wait_svc arg) kpost m.
Proof.
  intros [HI Ha Ht Hr]. unfold thinkos_irq_wait_svc. ksteps. case_match eqn:Hc; [by ksteps|].
  apply Z.leb_gt in Hc. pose proof (load_bound (lget mem m) (arg + 4 * 0)).
  set (i := load (lget mem m) (arg + 4 * 0)) in *.
  apply (Inv_irq_claim false false m i self) in HI as HI1; [|done|done|lia].
  kstep. apply wp_arr_wr_st; [kidx|].
  assert (shape (st_arr irq_th i self m)) by (pose proof (inv_shape HI); unfold st_arr; solve_shape).
  kstep. apply wp_bit_mem_wr; [kidx|].
  assert (shape (st_bit irq_pend 0 i false (st_arr irq_th i self m))) by (unfold st_bit; solve_shape).
  kstep. apply wp_bit_mem_wr; [kidx|]. change (Z.odd 1) with true. change (Z.odd 0) with false. ksteps.
Qed.

(** The default handler of an enabled source finds its thread. *)
Lemma default_isr_inv m i :
  Inv (-1) false false m -> 0 <= i < THINKOS_IRQ_MAX -> bget (lget irq_en m) 0 i = true ->
  wp (cm3_default_isr i) kpost m.
Proof.
  intros [Hsh HQ HO HA HI HS Hp] Hi He. destruct (i_waits _ _ HI i Hi He) as (Ht & Hal & Hnr & Hst & Hw).
  assert (ready m (zget (lget irq_th m) i) = false) as Hr0 by (apply Hnr; unfold is_thread in Ht; lia).
  apply wp_bind, wp_bit_mem_wr; [kidx|]. change (Z.odd 0) with false.
  set (m1 := st_bit irq_en 0 i false m).
  assert (Inv (-1) false false m1) as HI1.
  { split; [unfold m1, st_bit; solve_shape|kframe..| |kframe|done]. split.
    - intros j Hj. unfold m1. rewrite irq_bit by done. destruct (decide _); [done|by apply HI].
    - intros j1 j2 Hj1 Hj2. unfold m1. rewrite !irq_bit by done. do 2 destruct (decide _); [done..|].
      by apply (i_inj _ _ HI). }
  assert (fresh m1 (zget (lget irq_th m1) i)) as Hf.
  { split; [done|done|done| |].
    - intros q Hq. destruct (core_queue q Hq) as [->|?]; [exact Hr0|by apply Hw].
    - intros j Hj. unfold m1. rewrite irq_bit by done. destruct (decide _) as [|Hne]; [done|].
      intros Hej E. apply Hne. by apply (i_inj _ _ HI). }
  apply wp_bind, wp_arr_rd; [kidx|]. apply wp_bind.
  apply wp_wq_bit; [apply HI1|apply wq_ready_range|by apply thread_range|]. intros _.
  apply (Inv_ready_new _ _ _ _ _ HI1) in Hf. by apply (I_defer (-1) true false).
Qed.

(** ** The scheduler *)

Lemma Inv_switch d p m :
  Inv (-1) d p m ->
  Inv (-1) false p (lset active (ffs (zget (lget wq_lst m) THINKOS_WQ_READY)) m).
Proof.
  intros [Hsh HQ HO HA HI HS Hp]. split; [solve_shape|kframe..| |done].
  split; [|done]. fsimpl. pose proof threads_bound.
  pose proof (ffs_bound (zget (lget wq_lst m) THINKOS_WQ_READY)).
  destruct (Z.eq_dec THINKOS_THREADS_MAX 32) as [E|E]; [lia|].
  pose proof (q_idle _ _ HQ ltac:(lia)) as Hidle. unfold ready, qbit, bget, THINKOS_THREAD_IDLE in Hidle.
  rewrite Z.div_small, Z.mod_small, Z.add_0_r in Hidle by lia.
  assert (0 <= THINKOS_THREADS_MAX < 32) as Hlt by lia. pose proof (ffs_le _ _ Hlt Hidle). lia.
Qed.

(** After PendSV the lowest-numbered ready thread runs, on its own stack. *)
Lemma pendsv_inv m :
  Inv (-1) false false m ->
  wp cm3_pendsv_isr (fun _ m' => Inv (-1) false false m' /\ lget pendsv m' = false /\
    lget active m' = ffs (zget (lget wq_lst m) THINKOS_WQ_READY) /\
    lget wq_lst m' = lget wq_lst m /\
    lget ctx m' = zset (lget ctx m) (lget active m) (lget psp m - 32) /\
    lget psp m' = zget (lget ctx m') (lget active m') + 32) m.
Proof.
  intros HI. pose proof threads_bound.
  assert (0 <= lget active m <= THINKOS_THREADS_MAX) as Hact by apply (inv_s HI).
  assert (Inv (-1) true false (lset pendsv false m)) as HI1.
  { destruct HI as [Hsh HQ HO HA HI HS Hp]. split; [by apply shape_pendsv|kframe..| |done]. split; [exact Hact|done]. }
  apply wp_bind, wp_put, wp_bind, wp_get, wp_bind, wp_get. fsimpl.
  apply wp_bind, wp_arr_wr_st; [kidx|]. clear HI.
  apply (Inv_ctx _ _ _ _ (lget active m) (lget psp m - 32)) in HI1.
  apply wp_bind, wp_wq_head; [kidx; apply wq_ready_range|]. apply wp_bind, wp_put.
  apply Inv_switch in HI1. set (m2 := lset active _ _) in *.
  assert (0 <= lget active m2 <= THINKOS_THREADS_MAX) by apply (inv_s HI1).
  apply wp_bind, wp_arr_rd; [change (0 <= lget active m2 < zlen (lget ctx m2)); kidx|].
  apply wp_put. split; [by apply Inv_psp|]. done.
Qed.
End threads.
