(* ===== verification/SvcTick.v ===== *)
(** * SysTick

    [cm3_systick_isr] advances the tick counter and ends exactly the timed
    waits that are due: the functional specification of the scan over the
    clock queue, and the invariant. *)

From S2P Require Import Prelude Arch Config Kernel Rules Inv InvOps InvObj Thread Sched Steps SvcObj SvcThread.

Section tick.
Context `{Cfg : Config} {Disc : Discipline} `{!ConfigOk Cfg} `{!CoreConfig Cfg}.
Implicit Types (m : machine).

Definition st_expire (j : Z) m : machine :=
  st_bit wq_lst THINKOS_WQ_READY j true
    (st_bit wq_lst THINKOS_WQ_CLOCK j false
      (st_bit wq_lst (stat m j / 2) j false (st_arr th_stat j 0 m))).

Section expire.
Context (d p : bool) (m : machine) (j : Z).
Hypothesis HI : Inv (-1) d p m.
Hypothesis Hj : is_thread j.

Lemma qbit_expire q t : 0 <= t < 32 ->
  qbit (st_expire j m) q t =
  if decide (t = j) then
    if decide (q = THINKOS_WQ_READY) then true
    else if decide (q = THINKOS_WQ_CLOCK \/ q = stat m j / 2) then false else qbit m q t
  else qbit m q t.
Proof using All.
  intros Ht. pose proof (thread_range _ Hj) as H32. pose proof (stat_queue _ _ _ (inv_q HI) Hj) as Hq.
  pose proof (inv_shape HI) as Hsh.
  assert (shape (st_arr th_stat j 0 m)) as Hs1 by (unfold st_arr; solve_shape).
  unfold st_expire. rewrite !qbit_bit by
    (eauto using shape_bit_wq; first [apply wq_ready_range | apply wq_clock_range]).
  change (qbit (st_arr th_stat j 0 m) q t) with (qbit m q t).
  destruct (decide (t = j)) as [->|Hne].
  - destruct (decide (q = THINKOS_WQ_READY)) as [->|Hq0]; [by rewrite decide_True|].
    rewrite decide_False by (intros [? _]; congruence).
    destruct (decide (q = THINKOS_WQ_CLOCK \/ q = stat m j / 2)) as [[->| ->]|Hn].
    + by rewrite decide_True.
    + destruct (decide _); [done|]. by rewrite decide_True.
    + rewrite !decide_False; [done|intros [? _]; apply Hn; auto..].
  - by rewrite !decide_False by (intros [_ ?]; congruence).
Qed.

Lemma stat_expire t : stat (st_expire j m) t = if decide (j = t) then 0 else stat m t.
Proof using All. apply (stat_arr m j 0 t); [apply HI|done]. Qed.

Lemma expire_other q t : 0 <= t < 32 -> t <> j -> qbit (st_expire j m) q t = qbit m q t.
Proof using All. intros Ht Hne. rewrite qbit_expire by done. by rewrite decide_False. Qed.

(** The thread is in no wait queue any more. *)
Lemma expire_own q : wait_wq q -> qbit (st_expire j m) q j = false.
Proof using All.
  intros Hq. rewrite qbit_expire by eauto using thread_range.
  rewrite decide_True by done. rewrite decide_False by (by apply wait_not_ready).
  destruct (decide _) as [|Hn]; [done|]. destruct (qbit m q j) eqn:E; [|done]. exfalso. apply Hn.
  destruct (decide (q = THINKOS_WQ_CLOCK)); [by left|right].
  assert (obj_wq q) as Ho. { pose proof layout_order. unfold wait_wq, obj_wq in *. lia. }
  symmetry. by apply (q_stat _ _ (inv_q HI)).
Qed.

Lemma Inv_expire : qbit m THINKOS_WQ_CLOCK j = true -> Inv (-1) true p (st_expire j m).
Proof using All.
  intros Hb. destruct HI as [Hsh HQ HO HA HI' HS Hp]. pose proof (thread_range _ Hj) as H32.
  pose proof (stat_queue _ _ _ HQ Hj) as Hsq. pose proof wq_ready_range. pose proof wq_clock_range.
  pose proof threads_bound.
  assert (shape (st_arr th_stat j 0 m)) as Hs1 by (unfold st_arr; solve_shape).
  assert (forall q t, wait_wq q -> 0 <= t < 32 -> qbit (st_expire j m) q t = true -> qbit m q t = true /\ t <> j) as Hsub.
  { intros q t Hq Ht Hqt. destruct (decide (t = j)) as [->|Hne]; [by rewrite expire_own in Hqt|].
    split; [|done]. by rewrite expire_other in Hqt. }
  split; [eauto using shape_bit_wq| | |kframe| | |done].
  - split.
    + unfold st_expire. do 3 (apply words_bit_wq; [eauto using shape_bit_wq|done|done|]). apply HQ.
    + intros q t Hq Ht Hqt. destruct (decide (t = j)) as [->|Hne]; [by left|].
      rewrite expire_other in Hqt by done. by apply (q_dom _ _ HQ).
    + intros Hlt. unfold ready. rewrite expire_other; [by apply (q_idle _ _ HQ)|unfold THINKOS_THREAD_IDLE; lia|].
      unfold is_thread, THINKOS_THREAD_IDLE in *. lia.
    + intros t Ht. rewrite stat_expire. destruct (decide _); [by left|by apply (q_stat_range _ _ HQ)].
    + intros q t Hq Ht Hqt. destruct (Hsub q t) as [Hm Hne]; eauto using obj_wait, thread_range.
      rewrite stat_expire. rewrite decide_False by done. by apply (q_stat _ _ HQ).
    + intros t Ht Hx Hr. rewrite stat_expire. destruct (decide (j = t)) as [<-|Hne].
      { split; [done|]. apply expire_own. }
      unfold ready in Hr. rewrite expire_other in Hr by eauto using thread_range.
      destruct (q_excl _ _ HQ t Ht Hx Hr) as [? Hn]. split; [done|].
      intros q Hq. rewrite expire_other by eauto using thread_range. by apply Hn.
    + intros t Ht Ha. destruct (q_alloc _ _ HQ t Ht Ha) as [? Hn].
      assert (t <> j) as Hne by (intros ->; rewrite Hn in Hb; done).
      rewrite stat_expire, decide_False by done. split; [done|].
      intros q Hq. rewrite expire_other by eauto using thread_range. by apply Hn.
    + intros t Ht. rewrite stat_expire. destruct (decide (j = t)) as [<-|Hne].
      { split; [done|]. apply expire_own, clock_wait_wq. }
      rewrite !expire_other by eauto using thread_range. by apply (q_in _ _ HQ).
  - intros Hd0 q t Hq Ht Hqt. destruct (Hsub q t) as [Hm _]; eauto using obj_wait, thread_range.
    apply (can_wait_same m); [reflexivity..|]. by apply HO.
  - split; [|apply (i_inj _ _ HI')]. intros i Hi He.
    destruct (i_waits _ _ HI' i Hi He) as (Ha & Hal & Hr & Hs & Hn).
    change (zget (lget irq_th (st_expire j m)) i) with (zget (lget irq_th m) i).
    assert (zget (lget irq_th m) i <> j) as Hne.
    { intros E. rewrite E in Hn. rewrite Hn in Hb; [done|apply clock_wait_wq]. }
    split; [done|]. split; [done|]. split; [|split].
    + intros Hx. unfold ready. rewrite expire_other by eauto using thread_range. by apply Hr.
    + rewrite stat_expire. by rewrite decide_False by done.
    + intros q Hq. rewrite expire_other by eauto using thread_range. by apply Hn.
  - split; [apply HS|done].
Qed.

Lemma wp_clock_expire (Q : unit -> machine -> Prop) :
  Q tt (st_expire j m) -> wp (clock_expire j) Q m.
Proof using All.
  intros HQ. pose proof (inv_shape HI) as Hsh. pose proof (stat_queue _ _ _ (inv_q HI) Hj).
  pose proof (thread_range _ Hj).
  apply wp_bind, wp_arr_rd; [kidx|]. fold (stat m j). apply wp_bind, wp_th_stat; [done..|]. intros Hs1.
  unfold stat_wq. rewrite Z.shiftr_div_pow2 by lia. change (2 ^ 1) with 2.
  apply wp_bind, wp_wq_bit; [done..|]. intros Hs2.
  apply wp_bind, wp_wq_bit; [done|apply wq_clock_range|done|]. intros Hs3.
  apply wp_wq_bit; [done|apply wq_ready_range|done|]. done.
Qed.
End expire.

(** ** The scan *)

(** Bit [31 - j] of the reversed queue. *)
Definition in_scan (wq j : Z) : bool := Z.testbit wq (31 - j).
(** The wait of thread [j] ends at tick [now]. *)
Definition due (m : machine) (now j : Z) : bool := s32 (zget (lget clock m) j - now) <=? 0.

(** The effect on the queues and the status of the threads in [hit]. *)
Record expired (hit : Z -> bool) m m' : Prop := {
  ex_bits : forall q t, 0 <= t < 32 -> qbit m' q t =
    if hit t then
      if decide (q = THINKOS_WQ_READY) then true
      else if decide (q = THINKOS_WQ_CLOCK \/ q = stat m t / 2) then false else qbit m q t
    else qbit m q t;
  ex_stat : forall t, 0 <= t < 32 -> stat m' t = if hit t then 0 else stat m t;
  ex_rest : exists w s, m' = lset wq_lst w (lset th_stat s m);
}.

Lemma scan_clear wq j t : 0 <= j < 32 -> 0 <= t < 32 ->
  in_scan (Z.land wq (u32 (Z.lnot (Z.shiftr 0x80000000 j)))) t = if decide (t = j) then false else in_scan wq t.
Proof.
  intros Hj Ht. unfold in_scan. rewrite Z.land_spec, u32_lnot_bit by lia.
  change 0x80000000 with (2 ^ 31). rewrite Z.shiftr_spec by lia.
  destruct (decide (t = j)) as [->|Hne].
  - replace (31 - j + j) with 31 by lia. rewrite Z.pow2_bits_true by lia.
    by rewrite andb_false_r.
  - rewrite Z.pow2_bits_false by lia. by rewrite andb_true_r.
Qed.

Lemma scan_clz wq : let j := __clz wq in
  (j < 32 -> 0 <= j /\ in_scan wq j = true) /\ (forall t, 0 <= t < j -> t < 32 -> in_scan wq t = false).
Proof.
  cbv zeta. pose proof (clz_bound wq). unfold in_scan. split.
  - intros Hlt. split; [lia|]. by apply clz_bit.
  - intros t Ht Ht32. apply clz_above. lia.
Qed.

Lemma wp_clock_scan p now fuel : forall lo wq d m (Q : bool -> machine -> Prop),
  0 <= lo <= 32 -> 32 - lo < Z.of_nat fuel ->
  (forall t, 0 <= t < lo -> in_scan wq t = false) ->
  Inv (-1) d p m ->
  (forall t, 0 <= t < 32 -> in_scan wq t = true -> qbit m THINKOS_WQ_CLOCK t = true) ->
  (forall m' d', Inv (-1) d' p m' ->
    expired (fun t => in_scan wq t && due m now t) m m' ->
    (d' = true <-> d = true \/ exists t, 0 <= t < 32 /\ in_scan wq t && due m now t = true) -> Q d' m') ->
  wp (clock_scan fuel wq now d) Q m.
Proof.
  induction fuel as [|n IH]; intros lo wq d m Q Hlo Hf Hz HI Hclk HQ; [lia|].
  cbn [clock_scan]. pose proof (scan_clz wq) as [Hj1 Hj2]. set (j := __clz wq) in *. cbv zeta.
  destruct (Z.ltb_spec j 32) as [Hlt|Hge].
  2:{ assert (forall t, 0 <= t < 32 -> in_scan wq t = false) as Hnone by (intros; apply Hj2; lia).
      apply wp_ret, HQ; [done| |].
      - split; [intros q t Ht; by rewrite Hnone|intros t Ht; by rewrite Hnone|].
        exists (lget wq_lst m), (lget th_stat m). by destruct m as [[] ? ? ? ? ? ? ?].
      - split; [by left|]. intros [|(t & Ht & E)]; [done|]. by rewrite Hnone in E. }
  destruct (Hj1 Hlt) as [Hj0 Hjs]. assert (0 <= j < 32) as Hj by lia.
  assert (lo <= j) as Hlj. { destruct (Z_lt_le_dec j lo); [|done]. rewrite Hz in Hjs; [done|lia]. }
  pose proof (Hclk j Hj Hjs) as Hcj.
  assert (is_thread j) as Hth.
  { destruct (q_dom _ _ (inv_q HI) _ _ wq_clock_range Hj Hcj) as [|[E _]]; [done|].
    by destruct (wait_not_ready _ clock_wait_wq). }
  set (wq' := Z.land wq _).
  assert (forall t, 0 <= t < 32 -> in_scan wq' t = if decide (t = j) then false else in_scan wq t) as Hwq'.
  { intros t Ht. by apply scan_clear. }
  assert (forall t, 0 <= t < j + 1 -> in_scan wq' t = false) as Hz'.
  { intros t Ht. rewrite Hwq' by lia. destruct (decide _); [done|]. apply Hj2; lia. }
  apply wp_bind, wp_arr_rd; [kidx|]. change (s32 (zget (lget clock m) j - now) <=? 0) with (due m now j).
  destruct (due m now j) eqn:Hdue.
  - apply wp_bind. eapply wp_clock_expire; [exact HI|done|].
    apply (IH (j + 1) wq' true); [lia|lia|done|by eapply Inv_expire| |].
    + intros t Ht Hs. rewrite Hwq' in Hs by done. destruct (decide (t = j)) as [|Hne]; [done|].
      rewrite (expire_other d p m j HI Hth) by done. by apply Hclk.
    + intros m' d' HI' [Hb Hs (w & s & Hr)] Hd'. apply HQ; [done| |].
      * assert (forall t, 0 <= t < 32 -> in_scan wq t && due m now t =
          if decide (t = j) then true else in_scan wq' t && due m now t) as Hhit.
        { intros t Ht. rewrite Hwq' by done. destruct (decide (t = j)) as [->|]; [|done]. by rewrite Hjs, Hdue. }
        split; [intros q t Ht|intros t Ht|].
        -- rewrite Hhit by done. rewrite Hb by done.
           change (due (st_expire j m) now t) with (due m now t).
           rewrite (qbit_expire d p m j HI Hth q t Ht), (stat_expire d p m j HI Hth t).
           destruct (decide (t = j)) as [->|Hne].
           { rewrite Hz' by lia. done. }
           destruct (in_scan wq' t && due m now t); [|done]. by rewrite (decide_False (P := j = t)) by congruence.
        -- rewrite Hhit by done. rewrite Hs by done.
           change (due (st_expire j m) now t) with (due m now t). rewrite (stat_expire d p m j HI Hth t).
           destruct (decide (t = j)) as [->|Hne].
           { rewrite Hz' by lia. cbn [andb]. by rewrite decide_True. }
           destruct (in_scan wq' t && due m now t); [done|]. by rewrite decide_False by congruence.
        -- exists w, s. by rewrite Hr.
      * split; [|intros _; apply Hd'; by left]. intros _. right. exists j. by rewrite Hjs, Hdue.
  - apply (IH (j + 1) wq' d); [lia|lia|done|done| |].
    + intros t Ht Hs. rewrite Hwq' in Hs by done. destruct (decide (t = j)); [done|]. by apply Hclk.
    + intros m' d' HI' [Hb Hs Hr] Hd'.
      assert (forall t, 0 <= t < 32 -> in_scan wq t && due m now t = in_scan wq' t && due m now t) as Hhit.
      { intros t Ht. rewrite Hwq' by done. destruct (decide (t = j)) as [->|]; [|done]. by rewrite Hdue, andb_false_r. }
      apply HQ; [done| |].
      * split; [|  |done]; intros; rewrite Hhit by done; auto.
      * rewrite Hd'. split; (intros [?|(t & Ht & E)]; [by left|right; exists t; split; [done|]]);
          [by rewrite Hhit|by rewrite <-Hhit].
Qed.

(** The whole handler. *)
Definition tick_due m (t : Z) : bool :=
  qbit m THINKOS_WQ_CLOCK t && due m (u32 (lget ticks m + 1)) t.

Lemma systick_spec m :
  Inv (-1) false false m ->
  wp cm3_systick_isr (fun _ m' => Inv (-1) false false m' /\
    expired (tick_due m) (lset ticks (u32 (lget ticks m + 1)) m) (lset pendsv (lget pendsv m) m') /\
    (lget pendsv m' = true <-> lget pendsv m = true \/ exists t, 0 <= t < 32 /\ tick_due m t = true)) m.
Proof.
  intros HI. unfold cm3_systick_isr. rewrite core_timeshare.
  apply wp_bind, wp_get. cbv zeta. set (now := u32 (lget ticks m + 1)). apply wp_bind, wp_put.
  apply (Inv_ticks _ _ _ _ now) in HI. set (m1 := lset ticks now m) in *.
  apply wp_bind, wp_arr_rd; [kidx; apply wq_clock_range|].
  assert (forall t, 0 <= t < 32 -> in_scan (__rbit (zget (lget wq_lst m1) THINKOS_WQ_CLOCK)) t = qbit m THINKOS_WQ_CLOCK t) as Hin.
  { intros t Ht. unfold in_scan. rewrite rbit_spec by lia. replace (31 - (31 - t)) with t by lia.
    unfold qbit, bget. by rewrite Z.div_small, Z.mod_small, Z.add_0_r by lia. }
  apply wp_bind. apply (wp_clock_scan false now 33 0 _ false m1); [lia|lia|lia|done| |].
  { intros t Ht Hs. by rewrite Hin in Hs. }
  intros m' d' HI' [Hb Hs (w & s & Hr)] Hd'. apply wp_bind, wp_ret.
  assert (forall t, 0 <= t < 32 -> in_scan (__rbit (zget (lget wq_lst m1) THINKOS_WQ_CLOCK)) t && due m1 now t = tick_due m t) as Hdue.
  { intros t Ht. by rewrite Hin by done. }
  assert (forall m'', lget wq_lst m'' = lget wq_lst m' -> lget th_stat m'' = lget th_stat m' ->
    (exists w s, m'' = lset wq_lst w (lset th_stat s m1)) -> expired (tick_due m) m1 m'') as Hex.
  { intros m'' E1 E2 E3. split; [intros q t Ht|intros t Ht|done].
    - unfold qbit. rewrite E1. fold (qbit m' q t). rewrite Hb by done. by rewrite Hdue.
    - unfold stat. rewrite E2. fold (stat m' t). rewrite Hs by done. by rewrite Hdue. }
  assert (lget pendsv m' = lget pendsv m) as Ep by (by rewrite Hr).
  assert (d' = true <-> exists t, 0 <= t < 32 /\ tick_due m t = true) as Hd.
  { rewrite Hd'. split.
    - intros [|(t & Ht & E)]; [done|]. exists t. by rewrite <-Hdue.
    - intros (t & Ht & E). right. exists t. by rewrite Hdue. }
  destruct d'.
  - apply (I_defer (-1) true false); [done|]. intros HI2. split; [done|]. split.
    + apply Hex; [done|done|]. exists w, s. rewrite Hr. by destruct m as [[] ? ? ? ? ? ? ?].
    + split; [|done]. intros _. right. by apply Hd.
  - apply wp_ret. split; [done|]. split.
    + apply Hex; [done|done|]. exists w, s. rewrite Hr. by destruct m as [[] ? ? ? ? ? ? ?].
    + rewrite Ep. split; [by left|]. intros [|E]; [done|]. by apply Hd in E.
Qed.
End tick.
