(* ===== verification/SvcInit.v ===== *)
(** * [thinkos_init] establishes the invariant

    From the cleared run-time block the initialisation builds a state in which
    its caller is the one running thread, all objects are free, and the
    invariant holds. *)

From S2P Require Import Prelude Arch Config Kernel Rules Inv InvOps InvObj Thread Sched Steps SvcObj SvcThread.

(** The laws of a field. *)
Class LensOk {S A} (f : lens S A) : Prop := {
  get_set : forall v s, lget f (lset f v s) = v;
  set_set : forall v v' s, lset f v (lset f v' s) = lset f v s;
  set_get : forall s, lset f (lget f s) s = s;
}.

Ltac lens_law := split; [reflexivity|reflexivity|intros [[] ? ? ? ? ? ? ?]; reflexivity].

#[export] Instance irq_th_ok : LensOk irq_th. Proof. lens_law. Qed.
#[export] Instance lock_ok : LensOk lock. Proof. lens_law. Qed.
#[export] Instance mutex_alloc_ok : LensOk mutex_alloc. Proof. lens_law. Qed.
#[export] Instance cond_alloc_ok : LensOk cond_alloc. Proof. lens_law. Qed.
#[export] Instance sem_alloc_ok : LensOk sem_alloc. Proof. lens_law. Qed.
#[export] Instance ev_alloc_ok : LensOk ev_alloc. Proof. lens_law. Qed.
#[export] Instance flag_alloc_ok : LensOk flag_alloc. Proof. lens_law. Qed.
#[export] Instance flag_sig_ok : LensOk flag_sig. Proof. lens_law. Qed.
#[export] Instance flag_lock_ok : LensOk flag_lock. Proof. lens_law. Qed.
#[export] Instance ev_pend_ok : LensOk ev_pend. Proof. lens_law. Qed.
#[export] Instance wq_lst_ok : LensOk wq_lst. Proof. lens_law. Qed.
#[export] Instance ev_mask_ok : LensOk ev_mask. Proof. lens_law. Qed.

Section fill.
Implicit Types (m : machine).

(** [for (i = 0; i < n; ++i) f[i] = v] *)
Lemma wp_fill (f : lens machine (list Z)) `{!LensOk f} n v m (Q : unit -> machine -> Prop) :
  0 <= n <= zlen (lget f m) ->
  (forall l, zlen l = zlen (lget f m) -> (forall i, 0 <= i < n -> zget l i = v) ->
    (forall i, n <= i -> zget l i = zget (lget f m) i) -> Q tt (lset f l m)) ->
  wp (for_ n (fun i => arr_wr f i v)) Q m.
Proof.
  intros Hn HQ. eapply wp_mono.
  - apply (wp_for n _ (fun i m' => exists l, m' = lset f l m /\ zlen l = zlen (lget f m) /\
      (forall j, 0 <= j < i -> zget l j = v) /\ (forall j, i <= j -> zget l j = zget (lget f m) j))); [lia| |].
    + exists (lget f m). split; [by rewrite set_get|]. split; [done|]. split; [lia|done].
    + intros j s' Hj (l & -> & Hl & H1 & H2). apply wp_arr_wr; [rewrite get_set; lia|].
      rewrite get_set, set_set. exists (zset l j v). split; [done|]. rewrite zlen_zset. split; [done|].
      split; intros k Hk; rewrite zget_zset by lia.
      * destruct (decide _); [done|]. apply H1. lia.
      * rewrite decide_False by lia. apply H2. lia.
  - intros [] m' (l & -> & Hl & H1 & H2). by apply HQ.
Qed.

(** A bitmap of [max] free objects, the bits past the last one taken. *)
Definition bmp_fresh (l : list Z) (max : Z) : Prop :=
  bmp_ok l max /\ forall i, 0 <= i < max -> bget l 0 i = false.

Lemma high_mask r b : 0 <= r < 32 -> 0 <= b < 32 ->
  Z.testbit (u32 (Z.shiftl 0xffffffff r)) b = (r <=? b).
Proof.
  intros Hr Hb. unfold u32, wrap. rewrite Z.mod_pow2_bits_low by lia. rewrite Z.shiftl_spec by lia.
  change 0xffffffff with (Z.ones 32). destruct (Z.leb_spec r b).
  - apply Z.ones_spec_low. lia.
  - apply Z.testbit_neg_r. lia.
Qed.

Lemma wp_bmp_init (f : lens machine (list Z)) `{!LensOk f} max m (Q : unit -> machine -> Prop) :
  0 <= max -> zlen (lget f m) = bmp_words max ->
  (forall i, zget (lget f m) i = 0) ->
  (forall l, zlen l = bmp_words max -> bmp_fresh l max -> Q tt (lset f l m)) ->
  wp (bmp_init f max) Q m.
Proof.
  unfold bmp_words. intros Hmax Hl Hz HQ. apply wp_bind, wp_fill; [done|lia|]. intros l Hll H1 H2.
  assert (forall i, zget l i = 0) as Hz'.
  { intros i. destruct (Z_lt_le_dec i (max / 32)) as [Hlt|Hge]; [|by rewrite H2].
    destruct (Z_lt_le_dec i 0); [|by apply H1]. unfold zget. destruct (Z.ltb_spec i 0); [done|lia]. }
  apply wp_when; intros Hr.
  - apply negb_true_iff, Z.eqb_neq in Hr. apply wp_arr_wr; [rewrite get_set; lia|].
    rewrite get_set, set_set. set (w := u32 _).
    assert (forall i, zget (zset l (max / 32) w) i = if decide (max / 32 = i) then w else 0) as Hg.
    { intros i. rewrite zget_zset by lia. by rewrite Hz'. }
    assert (forall i, bget (zset l (max / 32) w) 0 i =
      if decide (max / 32 = i / 32) then max mod 32 <=? i mod 32 else false) as Hb.
    { intros i. unfold bget. rewrite Hg. rewrite Z.add_0_l. destruct (decide _); [|apply Z.bits_0].
      apply high_mask; lia. }
    apply HQ; [rewrite zlen_zset; lia|]. split; [split|].
    + intros i. rewrite Hg. destruct (decide _); [apply u32_bound|lia].
    + intros i Hi. rewrite zlen_zset in Hi. rewrite Hb. rewrite decide_True by lia. apply Z.leb_le. lia.
    + intros i Hi. rewrite Hb. destruct (decide _); [|done]. apply Z.leb_gt. lia.
  - apply negb_false_iff, Z.eqb_eq in Hr. apply HQ; [lia|]. split; [split|].
    + intros i. rewrite Hz'. lia.
    + intros i Hi. lia.
    + intros i Hi. unfold bget. rewrite Hz'. apply Z.bits_0.
Qed.
End fill.

Section init.
Context `{Cfg : Config} {Disc : Discipline} `{!ConfigOk Cfg} `{!CoreConfig Cfg}.
Implicit Types (m : machine).

(** Two arrays filled by one loop. *)
Lemma wp_fill2 (f g : lens machine (list Z)) `{!LensOk f} `{!LensOk g} n v w m (Q : unit -> machine -> Prop) :
  (forall l m, lget g (lset f l m) = lget g m) -> (forall l m, lget f (lset g l m) = lget f m) ->
  (forall l l' m, lset g l (lset f l' m) = lset f l' (lset g l m)) ->
  0 <= n <= zlen (lget f m) -> n <= zlen (lget g m) ->
  (forall l l', zlen l = zlen (lget f m) -> zlen l' = zlen (lget g m) ->
    (forall i, zget l i = v \/ zget l i = zget (lget f m) i) ->
    (forall i, zget l' i = w \/ zget l' i = zget (lget g m) i) -> Q tt (lset f l (lset g l' m))) ->
  wp (for_ n (fun i => arr_wr f i v;;; arr_wr g i w)%c) Q m.
Proof.
  intros Hgf Hfg Hc Hn Hn' HQ. eapply wp_mono.
  - apply (wp_for n _ (fun i m' => exists l l', m' = lset f l (lset g l' m) /\
      zlen l = zlen (lget f m) /\ zlen l' = zlen (lget g m) /\
      (forall i, zget l i = v \/ zget l i = zget (lget f m) i) /\
      (forall i, zget l' i = w \/ zget l' i = zget (lget g m) i))); [lia| |].
    + exists (lget f m), (lget g m). rewrite (set_get (f := g)), (set_get (f := f)). repeat split; auto.
    + intros j s' Hj (l & l' & -> & Hl & Hl' & H1 & H2).
      apply wp_bind, wp_arr_wr; [rewrite get_set; lia|]. rewrite get_set, set_set.
      apply wp_arr_wr; [rewrite Hgf, get_set; lia|]. rewrite Hgf, get_set, Hc, set_set.
      exists (zset l j v), (zset l' j w). rewrite !zlen_zset. split; [done|]. split; [done|]. split; [done|].
      split; intros i; rewrite zget_zset by lia; (destruct (decide _); [by left|auto]).
  - intros [] m' (l & l' & -> & Hl & Hl' & H1 & H2). by apply HQ.
Qed.

Record booted m (self : Z) : Prop := {
  bt_shape : shape m;
  bt_self : is_thread self;
  bt_active : lget active m = self;
  bt_words : words_ok (lget wq_lst m);
  bt_bits : forall q t, 0 <= q < THINKOS_WQ_LST_END -> 0 <= t < 32 ->
    qbit m q t = bool_decide (q = THINKOS_WQ_READY /\ (t = self \/ t = THINKOS_THREADS_MAX));
  bt_stat : forall t, stat m t = 0;
  bt_alloc : AInv m;
  bt_th : bget (lget th_alloc m) 0 self = true;
  bt_irq : forall i, 0 <= i < THINKOS_IRQ_MAX -> bget (lget irq_en m) 0 i = false;
  bt_primask : lget primask m = false;
  bt_pendsv : lget pendsv m = false;
}.

Lemma booted_inv m self : booted m self -> Inv (-1) false false m.
Proof.
  intros [Hsh Hself Hact Hw Hb Hs HA Hal Hirq Hpm Hps]. pose proof threads_bound. pose proof wq_ready_range.
  assert (forall q t, wait_wq q -> 0 <= t < 32 -> qbit m q t = false) as Hnw.
  { intros q t Hq Ht. rewrite Hb by (eauto using wait_wq_range). apply bool_decide_false.
    intros [E _]. by destruct (wait_not_ready _ Hq). }
  split; [done| | |done| | |done].
  - split.
    + done.
    + intros q t Hq Ht. rewrite Hb by done. intros E%bool_decide_eq_true. unfold THINKOS_THREAD_IDLE.
      destruct E as [-> [->| ->]]; auto.
    + intros Hlt. unfold ready, THINKOS_THREAD_IDLE. rewrite Hb by lia. apply bool_decide_true. auto.
    + intros t _. by left.
    + intros q t Hq Ht. rewrite Hnw by eauto using obj_wait, thread_range. done.
    + intros t Ht _ _. split; [done|]. intros q Hq. apply Hnw; eauto using thread_range.
    + intros t Ht Ha. split; [done|]. intros q Hq. rewrite Hb by eauto using thread_range.
      apply bool_decide_false. intros [_ [->| ->]]; [congruence|unfold is_thread in Ht; lia].
    + intros t Ht. change (stat m t) with (stat m t). rewrite (Hs t). split; [done|].
      apply Hnw; eauto using clock_wait_wq, thread_range.
  - intros Hd0 q t Hq Ht. rewrite Hnw by eauto using obj_wait, thread_range. done.
  - split; intros i; [intros Hi|intros j Hi Hj]; rewrite Hirq by done; done.
  - split; [unfold is_thread in Hself; lia|]. intros _ _. symmetry. rewrite Hact.
    pose proof (thread_range _ Hself).
    assert (forall t, 0 <= t < 32 -> Z.testbit (zget (lget wq_lst m) THINKOS_WQ_READY) t =
      bool_decide (t = self \/ t = THINKOS_THREADS_MAX)) as Hr.
    { intros t Ht. pose proof (Hb THINKOS_WQ_READY t ltac:(done) Ht) as E. unfold qbit, bget in E.
      rewrite Z.div_small, Z.mod_small, Z.add_0_r in E by lia. rewrite E. apply bool_decide_ext. tauto. }
    apply ffs_unique; [done|rewrite Hr by done; apply bool_decide_true; auto|].
    intros j Hj. rewrite Hr by lia. apply bool_decide_false. unfold is_thread in Hself. lia.
Qed.

Lemma zget_zeros n i : zget (zeros n) i = 0.
Proof.
  unfold zeros, zget. destruct (Z.ltb_spec i 0); [done|].
  destruct (replicate _ 0 !! Z.to_nat i) eqn:E; [|done]. by apply lookup_replicate in E as [-> _].
Qed.

Lemma zlen_zeros n : 0 <= n -> zlen (zeros n) = n.
Proof. apply zlen_replicate. Qed.

Lemma words_zeros n : words_ok (zeros n).
Proof. intros i. rewrite zget_zeros. lia. Qed.

Lemma reset_shape sp : shape (reset_machine sp).
Proof.
  pose proof threads_bound. pose proof mutex_bound. pose proof cond_bound. pose proof sem_bound.
  pose proof event_bound. pose proof flag_bound. pose proof irq_bound. pose proof wq_ready_range.
  split; simpl; unfold bmp_words; rewrite zlen_zeros by (unfold bmp_words; lia); unfold bmp_words; lia.
Qed.

Lemma bmp_fresh_ok l max : bmp_fresh l max -> bmp_ok l max.
Proof. by intros [? _]. Qed.

(** An array is replaced by one of its length. *)
Ltac shape_upd := intros Hl H; destruct H; split; fsimpl; try assumption; congruence.
Lemma shape_irq_th m l : zlen l = zlen (lget irq_th m) -> shape m -> shape (lset irq_th l m).
Proof. shape_upd. Qed.
Lemma shape_ctx m l : zlen l = zlen (lget ctx m) -> shape m -> shape (lset ctx l m).
Proof. shape_upd. Qed.
Lemma shape_mutex_alloc m l : zlen l = zlen (lget mutex_alloc m) -> shape m -> shape (lset mutex_alloc l m).
Proof. shape_upd. Qed.
Lemma shape_cond_alloc m l : zlen l = zlen (lget cond_alloc m) -> shape m -> shape (lset cond_alloc l m).
Proof. shape_upd. Qed.
Lemma shape_sem_alloc m l : zlen l = zlen (lget sem_alloc m) -> shape m -> shape (lset sem_alloc l m).
Proof. shape_upd. Qed.
Lemma shape_ev_alloc m l : zlen l = zlen (lget ev_alloc m) -> shape m -> shape (lset ev_alloc l m).
Proof. shape_upd. Qed.
Lemma shape_flag_alloc m l : zlen l = zlen (lget flag_alloc m) -> shape m -> shape (lset flag_alloc l m).
Proof. shape_upd. Qed.
Lemma shape_lock m l : zlen l = zlen (lget lock m) -> shape m -> shape (lset lock l m).
Proof. shape_upd. Qed.
Lemma shape_flag_sig m l : zlen l = zlen (lget flag_sig m) -> shape m -> shape (lset flag_sig l m).
Proof. shape_upd. Qed.
Lemma shape_flag_lock m l : zlen l = zlen (lget flag_lock m) -> shape m -> shape (lset flag_lock l m).
Proof. shape_upd. Qed.
Lemma shape_ev_pend m l : zlen l = zlen (lget ev_pend m) -> shape m -> shape (lset ev_pend l m).
Proof. shape_upd. Qed.
Lemma shape_ev_mask m l : zlen l = zlen (lget ev_mask m) -> shape m -> shape (lset ev_mask l m).
Proof. shape_upd. Qed.
Lemma shape_th_alloc m l : zlen l = zlen (lget th_alloc m) -> shape m -> shape (lset th_alloc l m).
Proof. shape_upd. Qed.
Lemma shape_th_inf m l : zlen l = zlen (lget th_inf m) -> shape m -> shape (lset th_inf l m).
Proof. shape_upd. Qed.
Lemma shape_wq_lst m l : zlen l = zlen (lget wq_lst m) -> shape m -> shape (lset wq_lst l m).
Proof. shape_upd. Qed.
Lemma shape_active m v : shape m -> shape (lset active v m).
Proof. intros. solve_shape. Qed.

Ltac shape_field :=
  lazymatch goal with
  | |- shape (lset irq_th _ _) => apply shape_irq_th
  | |- shape (lset ctx _ _) => apply shape_ctx
  | |- shape (lset mutex_alloc _ _) => apply shape_mutex_alloc
  | |- shape (lset cond_alloc _ _) => apply shape_cond_alloc
  | |- shape (lset sem_alloc _ _) => apply shape_sem_alloc
  | |- shape (lset ev_alloc _ _) => apply shape_ev_alloc
  | |- shape (lset flag_alloc _ _) => apply shape_flag_alloc
  | |- shape (lset lock _ _) => apply shape_lock
  | |- shape (lset flag_sig _ _) => apply shape_flag_sig
  | |- shape (lset flag_lock _ _) => apply shape_flag_lock
  | |- shape (lset ev_pend _ _) => apply shape_ev_pend
  | |- shape (lset ev_mask _ _) => apply shape_ev_mask
  | |- shape (lset th_alloc _ _) => apply shape_th_alloc
  | |- shape (lset th_inf _ _) => apply shape_th_inf
  | |- shape (lset wq_lst _ _) => apply shape_wq_lst
  | |- shape (lset mem _ _) => apply shape_mem
  | |- shape (lset primask _ _) => apply shape_primask
  | |- shape (lset active _ _) => apply shape_active
  end.

(** The state of the goal has the shape. *)
Ltac sset :=
  unfold st_arr, st_bit, st_mem;
  match goal with
  | H : shape _ |- wp _ _ ?m' =>
      let H' := fresh in assert (shape m') as H';
      [shape_field;
         lazymatch goal with |- shape _ => exact H | |- _ => rewrite ?zlen_bset, ?zlen_zset; kidx end
      |clear H; rename H' into H]
  end.

(** Everything the initialisation relies on being zero. *)
Record blank m : Prop := {
  bl_shape : shape m;
  bl_wq : lget wq_lst m = zeros THINKOS_WQ_LST_END;
  bl_stat : forall i, zget (lget th_stat m) i = 0;
  bl_irq : forall i, zget (lget irq_en m) i = 0;
  bl_bmp : (forall i, zget (lget mutex_alloc m) i = 0) /\ (forall i, zget (lget cond_alloc m) i = 0) /\
    (forall i, zget (lget sem_alloc m) i = 0) /\ (forall i, zget (lget ev_alloc m) i = 0) /\
    (forall i, zget (lget flag_alloc m) i = 0);
  bl_sem : words_ok (lget sem_val m);
  bl_ev : words_ok (lget ev_pend m) /\ words_ok (lget ev_mask m);
  bl_lock : forall i, zget (lget lock m) i = 0;
  bl_th : lget th_alloc m = [0];
  bl_pendsv : lget pendsv m = false;
}.

Lemma blank_irq_th m l : zlen l = zlen (lget irq_th m) -> blank m -> blank (lset irq_th l m).
Proof. intros Hl []. split; try assumption. by apply shape_irq_th. Qed.
Lemma blank_ctx m l : zlen l = zlen (lget ctx m) -> blank m -> blank (lset ctx l m).
Proof. intros Hl []. split; try assumption. by apply shape_ctx. Qed.
Lemma blank_mem m v : blank m -> blank (lset mem v m).
Proof. intros []. split; try assumption. by apply shape_mem. Qed.

Lemma reset_blank sp : blank (lset primask true (reset_machine sp)).
Proof.
  split; try (intros i; apply zget_zeros); [|reflexivity| | | |reflexivity|reflexivity].
  - apply shape_primask, reset_shape.
  - repeat split; intros i; apply zget_zeros.
  - apply words_zeros.
  - split; apply words_zeros.
Qed.

(** The caller's number: the lowest free one from its option on. *)
Lemma th_mask_bits b : 0 <= b < 32 ->
  Z.testbit (u32 (Z.shiftl 0xffffffff THINKOS_THREADS_MAX)) b = (THINKOS_THREADS_MAX <=? b).
Proof.
  intros Hb. pose proof threads_bound. destruct (Z.eq_dec THINKOS_THREADS_MAX 32) as [E|E].
  - rewrite E. rewrite (proj2 (Z.leb_gt 32 b)) by lia. change (u32 (Z.shiftl 0xffffffff 32)) with 0. apply Z.bits_0.
  - apply high_mask; lia.
Qed.

Lemma init_booted opt sp :
  wp (thinkos_init opt) (fun self m => booted m self) (reset_machine sp).
Proof.
  pose proof threads_bound as Htb. pose proof mutex_bound. pose proof cond_bound. pose proof sem_bound.
  pose proof event_bound. pose proof flag_bound. pose proof irq_bound. pose proof wq_ready_range as Hrr.
  unfold thinkos_init. rewrite core_timeshare, core_pause.
  apply wp_bind, wp_put. pose proof (reset_blank sp) as B. generalize dependent (lset primask true (reset_machine sp)).
  intros m B. pose proof (bl_shape _ B) as Hsh.
  apply wp_bind. apply wp_fill; [apply _|kidx|]. intros l_irq Hirq _ _. apply (blank_irq_th _ _ Hirq) in B.
  generalize dependent (lset irq_th l_irq m). clear m Hsh Hirq. intros m B. pose proof (bl_shape _ B) as Hsh.
  apply wp_bind, wp_arr_wr; [kidx|]. apply wp_bind, wp_ret, wp_bind, wp_st, wp_bind, wp_st. unfold st_mem.
  match goal with |- wp _ _ ?m' => assert (blank m') as B'; [|clear B Hsh; generalize dependent m'] end.
  { do 2 apply blank_mem. apply blank_ctx; [by rewrite zlen_zset|done]. }
  clear m. intros m [Hsh Bwq Bstat Birq (Bm & Bc & Bs & Be & Bf) Bsem [Bpend Bmask] Block Bth Bps].
  apply wp_bind. apply wp_bmp_init; [apply _|done|kidx|done|]. intros l_mutex Hmutex Fmutex.
  sset.
  apply wp_bind. apply wp_bmp_init; [apply _|done|kidx|done|]. intros l_sem Hsem Fsem.
  sset.
  apply wp_bind. apply wp_bmp_init; [apply _|done|kidx|done|]. intros l_cond Hcond Fcond.
  sset.
  apply wp_bind. apply wp_bmp_init; [apply _|done|kidx|done|]. intros l_flag Hflag Fflag.
  sset.
  apply wp_bind. apply wp_bmp_init; [apply _|done|kidx|done|]. intros l_ev Hev Fev.
  sset.
  apply wp_bind. apply wp_fill; [apply _|kidx|]. intros l_lock Hlock Flock1 Flock2.
  rewrite (sh_lock Hsh) in Hlock. sset.
  apply wp_bind. apply wp_fill2; [apply _|apply _|reflexivity|reflexivity|reflexivity|kidx|kidx|].
  intros l_sig l_fl Hsig Hfl _ _.
  apply (shape_flag_lock _ _ Hfl) in Hsh as Hsh'. rewrite (sh_sig Hsh) in Hsig. clear Hsh. sset. rename Hsh' into Hsh.
  apply wp_bind. apply wp_fill2; [apply _|apply _|reflexivity|reflexivity|reflexivity|kidx|kidx|].
  intros l_pend l_mask Hpend Hmask Fpend Fmask.
  apply (shape_ev_mask _ _ Hmask) in Hsh as Hsh'. rewrite (sh_pend Hsh) in Hpend. clear Hsh. sset. rename Hsh' into Hsh. cbv zeta.
  set (id := if THINKOS_THREADS_MAX <=? opt_id opt then _ else _).
  assert (0 <= id < THINKOS_THREADS_MAX) as Hid.
  { pose proof (opt_id_bound opt). unfold id. destruct (Z.leb_spec THINKOS_THREADS_MAX (opt_id opt)); lia. }
  apply wp_bind, wp_arr_wr; [kidx|]. sset.
  set (mask := u32 (Z.shiftl 0xffffffff THINKOS_THREADS_MAX)) in *.
  match goal with |- wp _ _ ?m' => set (m1 := m') in * end.
  assert (lget th_alloc m1 = [mask]) as Eth.
  { change (zset (lget th_alloc m) 0 mask = [mask]). by rewrite Bth. }
  assert (32 * zlen (lget th_alloc m1) = 32) as Hl1 by (by rewrite Eth).
  assert (words_ok (lget th_alloc m1)) as Hw1.
  { intros i. rewrite Eth. unfold zget. destruct (Z.ltb_spec i 0); [lia|].
    destruct (Z.to_nat i); simpl; [apply u32_bound|lia]. }
  assert (forall b, 0 <= b < 32 -> bget (lget th_alloc m1) 0 b = (THINKOS_THREADS_MAX <=? b)) as Hb1.
  { intros b Hb. rewrite bget_word0 by lia. rewrite Eth. by apply th_mask_bits. }
  apply wp_bind, wp_alloc_lo; [done|kidx|lia| |].
  2:{ intros Hall. pose proof (Hall id ltac:(lia)) as E. rewrite Hb1 in E by lia. apply Z.leb_le in E. lia. }
  intros self Hs Hself Hbelow.
  assert (is_thread self) as Ht.
  { rewrite Hb1 in Hself by lia. apply Z.leb_gt in Hself. unfold is_thread. lia. }
  unfold st_bit. sset. apply wp_bind, wp_arr_wr; [kidx|]. sset. apply wp_bind, wp_ret.
  apply wp_bind, wp_put. sset.
  match goal with |- wp _ _ ?m' => set (m4 := m') in * end.
  assert (forall w, zlen w = THINKOS_WQ_LST_END -> words_ok w ->
    (forall q t, 0 <= q < THINKOS_WQ_LST_END -> 0 <= t < 32 ->
      bget w q t = bool_decide (q = THINKOS_WQ_READY /\ (t = self \/ t = THINKOS_THREADS_MAX))) ->
    booted (lset primask false (lset wq_lst w m4)) self) as Hfin.
  { intros w Hw Hwords Hbits. split; [|done|done|done|done|exact Bstat| |..].
    - apply shape_primask, shape_wq_lst; [kidx|done].
    - pose proof (sh_lock Hsh) as Elk. split; [|apply Fmutex|apply Fcond|apply Fsem|apply Fev|apply Fflag|exact Bsem| | |].
      + change (bmp_ok (bset (lget th_alloc m1) 0 self true) THINKOS_THREADS_MAX).
        apply bmp_ok_set; [|lia|by left]. split; [done|]. intros i Hi. rewrite Hb1 by lia. apply Z.leb_le. lia.
      + intros i. change (0 <= zget l_pend i < 2 ^ 32). destruct (Fpend i) as [->| ->]; [lia|apply Bpend].
      + intros i. change (0 <= zget l_mask i < 2 ^ 32). destruct (Fmask i) as [->| ->]; [lia|apply Bmask].
      + intros i. change (-1 <= zget l_lock i < THINKOS_THREADS_MAX).
        destruct (Z_lt_le_dec i 0) as [Hn|Hn].
        { unfold zget. rewrite (proj2 (Z.ltb_lt i 0)) by done. lia. }
        destruct (Z_lt_le_dec i THINKOS_MUTEX_MAX) as [Hm|Hm]; [rewrite Flock1 by lia; lia|].
        rewrite Flock2 by done. match goal with |- context [zget ?l i] => change l with (lget lock m) end.
        rewrite Block. lia.
    - change (bget (bset (lget th_alloc m1) 0 self true) 0 self = true).
      rewrite bget_bset_base by lia. by rewrite decide_True.
    - intros i Hi. unfold bget. match goal with |- context [zget ?l ?k] => change l with (lget irq_en m) end.
      rewrite Birq. apply Z.bits_0.
    - done.
    - exact Bps. }
  pose proof (thread_range _ Ht) as H32. assert (lget wq_lst m4 = zeros THINKOS_WQ_LST_END) as Ewq by exact Bwq.
  clearbody m4. clear Hsh.
  assert (zlen (zeros THINKOS_WQ_LST_END) = THINKOS_WQ_LST_END) as Hzl by (apply zlen_zeros; lia).
  assert (forall q t, bget (zeros THINKOS_WQ_LST_END) q t = false) as Hz0.
  { intros q t. unfold bget. rewrite zget_zeros. apply Z.bits_0. }
  assert (0 <= THINKOS_WQ_READY + self / 32 < THINKOS_WQ_LST_END) as Hr1 by lia.
  apply wp_bind, wp_bit_mem_wr; [rewrite Ewq, Hzl; done|]. unfold st_bit at 1. rewrite Ewq.
  change (Z.odd 1) with true. set (w1 := bset _ _ _ true).
  assert (words_ok w1) as Hw1' by (apply words_ok_bset; [lia|apply words_zeros]).
  assert (zlen w1 = THINKOS_WQ_LST_END) as Hlw1 by (unfold w1; by rewrite zlen_bset).
  assert (forall q t, 0 <= q < THINKOS_WQ_LST_END -> 0 <= t < 32 ->
    bget w1 q t = bool_decide (q = THINKOS_WQ_READY /\ t = self)) as Hbw1.
  { intros q t Hq Ht'. unfold w1. rewrite bget_bset_word by lia. rewrite Hz0.
    destruct (decide _) as [[<- <-]|Hn]; symmetry; [by apply bool_decide_true|].
    apply bool_decide_false. intros [-> ->]. by apply Hn. }
  apply wp_bind, wp_when.
  - intros Hlt. apply Z.ltb_lt in Hlt. apply wp_bit_mem_wr.
    { change (0 <= THINKOS_WQ_READY + THINKOS_THREADS_MAX / 32 < zlen w1). lia. }
    apply wp_bind, wp_ret, wp_bind, wp_put, wp_ret.
    unfold st_bit. change (Z.odd 1) with true. rewrite get_set, set_set. clearbody w1.
    apply (Hfin (bset w1 THINKOS_WQ_READY THINKOS_THREADS_MAX true)).
    + by rewrite zlen_bset.
    + apply words_ok_bset; [lia|done].
    + intros q t Hq Ht'. rewrite bget_bset_word by lia. rewrite Hbw1 by done.
      destruct (decide _) as [[<- <-]|Hn]; [symmetry; apply bool_decide_true; auto|].
      apply bool_decide_ext. split; [tauto|]. intros [-> [->| ->]]; [done|by destruct Hn].
  - intros Hge. apply Z.ltb_ge in Hge. apply wp_bind, wp_ret, wp_bind, wp_put, wp_ret.
    apply (Hfin w1); [done|done|]. intros q t Hq Ht'. rewrite Hbw1 by done.
    apply bool_decide_ext. split; [tauto|]. intros [-> [->| ->]]; [done|lia].
Qed.
End init.
