(* ===== verification/System.v ===== *)
(** * The kernel as a transition system

    User code, the services, PendSV, SysTick, the default interrupt handler and
    the kernel calls of interrupt handlers, interleaved in any order the
    hardware allows; what holds in every reachable state. A kernel entry is one
    atomic step: preemption of a service by an interrupt is not modelled. *)

From S2P Require Import Prelude Arch Config Kernel Rules Inv InvOps InvObj Mutex Semaphore Cond Event Flag Thread Sched Svc.
From S2P Require Import Steps SvcObj SvcSync SvcEvent SvcThread SvcTick SvcInit.

Section system.
Context `{Cfg : Config} {Disc : Discipline}.
Implicit Types (m : machine).

(** The service number and the frame [cm3_svc_isr] finds. *)
Definition frame_of m (lr : Z) : Z := if Z.testbit lr 2 then lget psp m else lget msp m.
Definition byte_at m (a : Z) : Z := Z.land (Z.shiftr (load (lget mem m) (a - a mod 4)) (8 * (a mod 4))) 0xff.
Definition svc_number m (arg : Z) : Z := byte_at m (load (lget mem m) (arg + 4 * 6) - 2).

(** What a polite caller respects, and the kernel does not check: an object is
    freed, and a semaphore set to a positive value, only when no thread waits
    for it. *)
Definition frees (base max : Z) m (arg : Z) : Prop :=
  forall k, 0 <= k < max -> load (lget mem m) (arg + 4 * 0) = base + k -> no_waiters m (base + k).
Record polite m (svc arg : Z) : Prop := {
  po_mutex : svc = THINKOS_MUTEX_FREE -> frees THINKOS_MUTEX_BASE THINKOS_MUTEX_MAX m arg;
  po_cond : svc = THINKOS_COND_FREE -> frees THINKOS_COND_BASE THINKOS_COND_MAX m arg;
  po_sem : svc = THINKOS_SEM_FREE -> frees THINKOS_SEM_BASE THINKOS_SEMAPHORE_MAX m arg;
  po_ev : svc = THINKOS_EVENT_FREE -> frees THINKOS_EVENT_BASE THINKOS_EVENT_MAX m arg;
  po_flag : svc = THINKOS_FLAG_FREE -> frees THINKOS_FLAG_BASE THINKOS_FLAG_MAX m arg;
  po_init : svc = THINKOS_SEM_INIT ->
    forall k, 0 <= k < THINKOS_SEMAPHORE_MAX -> load (lget mem m) (arg + 4 * 0) = THINKOS_SEM_BASE + k ->
    load (lget mem m) (arg + 4 * 1) = 0 \/ no_waiters m (THINKOS_SEM_BASE + k);
}.

(** ** The entries of the kernel *)

Inductive entry :=
  | ESvc (lr : Z)             (* an svc instruction of the running thread *)
  | EExit (code : Z)          (* the running thread's function returns *)
  | EPendSV
  | ETick                     (* SysTick *)
  | EIrq (irq : Z)            (* an interrupt with the default handler *)
  | ESemPost (k : Z)          (* calls of other interrupt handlers *)
  | EFlagGive (k : Z)
  | EFlagSet (k : Z)
  | EFlagClr (k : Z)
  | EEvRaise (k ev : Z).

Definition run_entry (e : entry) : K unit :=
  match e with
  | ESvc lr => cm3_svc_isr lr
  | EExit code => thinkos_thread_exit code
  | EPendSV => cm3_pendsv_isr
  | ETick => cm3_systick_isr
  | EIrq irq => cm3_default_isr irq
  | ESemPost k => thinkos_sem_post_i (THINKOS_SEM_BASE + k)
  | EFlagGive k => thinkos_flag_give_i (THINKOS_FLAG_BASE + k)
  | EFlagSet k => thinkos_flag_set_i (THINKOS_FLAG_BASE + k)
  | EFlagClr k => thinkos_flag_clr_i (THINKOS_FLAG_BASE + k)
  | EEvRaise k ev => thinkos_ev_raise_i (THINKOS_EVENT_BASE + k) ev
  end.

(** Thread code runs when PendSV is not pending: it has the lowest priority of
    the exceptions, and is taken before the thread's next instruction. What a
    thread calls is restricted only where the discipline says so: with
    [any_caller] every service can be called with every argument. *)
Definition thread_runs m : Prop := lget pendsv m = false /\ is_thread (lget active m).

Definition enabled m (e : entry) : Prop :=
  match e with
  | ESvc lr => thread_runs m /\ (disciplined -> polite m (svc_number m (frame_of m lr)) (frame_of m lr))
  | EExit _ => thread_runs m
  | EPendSV => lget pendsv m = true
  | ETick => True
  | EIrq irq => 0 <= irq < THINKOS_IRQ_MAX /\ bget (lget irq_en m) 0 irq = true
  | ESemPost k => 0 <= k < THINKOS_SEMAPHORE_MAX
  | EFlagGive k | EFlagSet k | EFlagClr k => 0 <= k < THINKOS_FLAG_MAX
  | EEvRaise k ev => 0 <= k < THINKOS_EVENT_MAX /\ 0 <= ev < 32
  end.

(** Thread code changes its memory and its stack pointers. *)
Inductive step m : machine -> Prop :=
  | step_user w p q : step m (lset psp p (lset msp q (lset mem w m)))
  | step_entry e m' : enabled m e -> run_entry e m = Some (tt, m') -> step m m'.

Inductive boot : machine -> Prop :=
  | boot_init opt sp self m : thinkos_init opt (reset_machine sp) = Some (self, m) -> boot m.

Definition reachable m : Prop := exists m0, boot m0 /\ rtc step m0 m.
End system.

Section safety.
Context `{Cfg : Config} {Disc : Discipline} `{!ConfigOk Cfg} `{!CoreConfig Cfg}.
Implicit Types (m : machine).

(** A thread runs only when it is ready. *)
Lemma runs_running m : Inv (-1) false false m -> thread_runs m -> running m (lget active m).
Proof.
  intros HI [Hp Ht]. split; [done|done|done|]. pose proof (thread_range _ Ht) as H32.
  pose proof (s_first _ _ (inv_s HI) eq_refl Hp) as Hf.
  destruct (head_bit m THINKOS_WQ_READY) as [_ Hb]; [unfold THINKOS_THREAD_NULL; lia|].
  unfold ready. rewrite Hf. exact Hb.
Qed.

Lemma svc_if_inv on arg c m self : running m self -> (on = true -> wp c kpost m) -> wp (svc_if on arg c) kpost m.
Proof.
  intros Hrun Hc. unfold svc_if. destruct on; [by apply Hc|].
  apply wp_arg_wr. by apply Inv_mem, (run_inv Hrun).
Qed.

(** The snapshot writes thread memory only. *)
Lemma copy_words_mem src dst m :
  wp (copy_words dst src) (fun _ m' => exists w, m' = lset mem w m) m.
Proof.
  revert dst m. induction src as [|w src IH]; intros dst m; simpl.
  - apply wp_ret. exists (lget mem m). by destruct m.
  - apply wp_bind, wp_st. eapply wp_mono; [apply IH|]. intros [] m' [w' ->]. by exists w'.
Qed.

Lemma Inv_set_mem x d p m w : Inv x d p m -> Inv x d p (lset mem w m).
Proof. intros []; split; [solve_shape|kframe..|done]. Qed.

Lemma snapshot_inv m self arg : running m self -> wp (thinkos_rt_snapshot_svc arg) kpost m.
Proof.
  intros [HI _ _ _]. apply wp_bind, wp_arg_rd, wp_bind, wp_get, wp_bind, wp_put, wp_bind, wp_get, wp_bind.
  eapply wp_mono; [apply copy_words_mem|]. intros [] m' [w ->]. apply wp_put. rewrite (inv_p HI).
  change (Inv (-1) false false (lset primask false (lset mem w m))). by eapply Inv_primask, Inv_set_mem.
Qed.

(** Every service, whatever its number. *)
Lemma dispatch_inv m self svc arg :
  running m self -> (disciplined -> polite m svc arg) -> wp (svc_dispatch svc arg) kpost m.
Proof.
  intros Hrun HP.
  assert (forall base max, (disciplined -> frees base max m arg) -> forall k, 0 <= k < max ->
    load (lget mem m) (arg + 4 * 0) = base + k -> calm m (base + k)) as Hcalm by (intros base max H k ?? Hd; by apply H).
  assert (svc = THINKOS_SEM_INIT -> forall k, 0 <= k < THINKOS_SEMAPHORE_MAX ->
    load (lget mem m) (arg + 4 * 0) = THINKOS_SEM_BASE + k ->
    load (lget mem m) (arg + 4 * 1) = 0 \/ calm m (THINKOS_SEM_BASE + k)) as Hinit.
  { intros Es k Hk Ea. destruct (decide (load (lget mem m) (arg + 4 * 1) = 0)); [by left|right; intros Hd].
    by destruct (po_init _ _ _ (HP Hd) Es k Hk Ea). }
  pose proof (run_inv Hrun) as HI. unfold svc_dispatch.
  assert (forall v, wp (arg_wr arg 0 v) kpost m) as Hwr by (intros; by apply wp_arg_wr, Inv_mem).
  assert (forall b c, b = false -> wp (svc_if b arg c) kpost m) as Hno by (intros ? ? ->; apply Hwr).
  repeat lazymatch goal with
  | |- wp (if svc =? ?n then _ else _) _ _ => destruct (Z.eqb_spec svc n)
  end;
  lazymatch goal with
  | |- wp (svc_if THINKOS_ENABLE_PAUSE _ _) _ _ => apply Hno, core_pause
  | |- wp (svc_if THINKOS_ENABLE_CANCEL _ _) _ _ => apply Hno, core_cancel
  | |- wp (svc_if THINKOS_ENABLE_JOIN _ _) _ _ => apply Hno, core_join
  | |- wp (svc_if _ _ _) _ _ => eapply svc_if_inv; [exact Hrun|intros _]
  | |- _ => idtac
  end;
  try lazymatch goal with
  | |- wp (arg_wr _ _ _) _ _ => apply Hwr
  | |- wp (bind (get _) _) _ _ => apply wp_bind, wp_get, Hwr
  | |- wp __thinkos_defer_sched _ _ => by apply (I_defer (-1) false false)
  | |- wp (thinkos_thread_create_svc _) _ _ => eapply thread_create_inv; exact Hrun
  | |- wp (thinkos_sleep_svc _) _ _ => eapply sleep_inv; exact Hrun
  | |- wp (thinkos_alarm_svc _) _ _ => eapply alarm_inv; exact Hrun
  | |- wp (thinkos_irq_wait_svc _) _ _ => eapply irq_wait_inv; exact Hrun
  | |- wp (thinkos_rt_snapshot_svc _) _ _ => eapply snapshot_inv; exact Hrun
  | |- wp (thinkos_exit_svc _) _ _ => eapply exit_inv; exact Hrun
  | |- wp (thinkos_mutex_alloc_svc _) _ _ => eapply mutex_alloc_inv; exact Hrun
  | |- wp (thinkos_mutex_lock_svc _) _ _ => eapply mutex_lock_inv; exact Hrun
  | |- wp (thinkos_mutex_trylock_svc _) _ _ => eapply mutex_trylock_inv; exact Hrun
  | |- wp (thinkos_mutex_timedlock_svc _) _ _ => eapply mutex_timedlock_inv; exact Hrun
  | |- wp (thinkos_mutex_unlock_svc _) _ _ => eapply mutex_unlock_inv; exact Hrun
  | |- wp (thinkos_cond_alloc_svc _) _ _ => eapply cond_alloc_inv; exact Hrun
  | |- wp (thinkos_cond_wait_svc _) _ _ => eapply cond_wait_inv; exact Hrun
  | |- wp (thinkos_cond_timedwait_svc _) _ _ => eapply cond_timedwait_inv; exact Hrun
  | |- wp (thinkos_cond_signal_svc _) _ _ => eapply cond_signal_inv; exact Hrun
  | |- wp (thinkos_cond_broadcast_svc _) _ _ => eapply cond_broadcast_inv; exact Hrun
  | |- wp (thinkos_sem_alloc_svc _) _ _ => eapply sem_alloc_inv; exact Hrun
  | |- wp (thinkos_sem_wait_svc _) _ _ => eapply sem_wait_inv; exact Hrun
  | |- wp (thinkos_sem_trywait_svc _) _ _ => eapply sem_trywait_inv; exact Hrun
  | |- wp (thinkos_sem_timedwait_svc _) _ _ => eapply sem_timedwait_inv; exact Hrun
  | |- wp (thinkos_sem_post_svc _) _ _ => eapply sem_post_inv; exact Hrun
  | |- wp (thinkos_ev_alloc_svc _) _ _ => eapply ev_alloc_inv; exact Hrun
  | |- wp (thinkos_ev_wait_svc _) _ _ => eapply ev_wait_inv; exact Hrun
  | |- wp (thinkos_ev_timedwait_svc _) _ _ => eapply ev_timedwait_inv; exact Hrun
  | |- wp (thinkos_ev_raise_svc _) _ _ => eapply ev_raise_inv; exact Hrun
  | |- wp (thinkos_ev_mask_svc _) _ _ => eapply ev_mask_inv; exact Hrun
  | |- wp (thinkos_ev_unmask_svc _) _ _ => eapply ev_unmask_inv; exact Hrun
  | |- wp (thinkos_flag_alloc_svc _) _ _ => eapply flag_alloc_inv; exact Hrun
  | |- wp (thinkos_flag_clr_svc _) _ _ => eapply flag_clr_inv; exact Hrun
  | |- wp (thinkos_flag_set_svc _) _ _ => eapply flag_set_inv; exact Hrun
  | |- wp (thinkos_flag_wait_svc _) _ _ => eapply flag_wait_inv; exact Hrun
  | |- wp (thinkos_flag_timedwait_svc _) _ _ => eapply flag_timedwait_inv; exact Hrun
  | |- wp (thinkos_flag_release_svc _) _ _ => eapply flag_release_inv; exact Hrun
  | |- wp (thinkos_flag_take_svc _) _ _ => eapply flag_take_inv; exact Hrun
  | |- wp (thinkos_flag_timedtake_svc _) _ _ => eapply flag_timedtake_inv; exact Hrun
  | |- wp (thinkos_flag_give_svc _) _ _ => eapply flag_give_inv; exact Hrun
  | |- wp (thinkos_mutex_free_svc _) _ _ => eapply mutex_free_inv; [exact Hrun|by apply Hcalm; intros Hd; apply (HP Hd)]
  | |- wp (thinkos_cond_free_svc _) _ _ => eapply cond_free_inv; [exact Hrun|by apply Hcalm; intros Hd; apply (HP Hd)]
  | |- wp (thinkos_sem_free_svc _) _ _ => eapply sem_free_inv; [exact Hrun|by apply Hcalm; intros Hd; apply (HP Hd)]
  | |- wp (thinkos_ev_free_svc _) _ _ => eapply ev_free_inv; [exact Hrun|by apply Hcalm; intros Hd; apply (HP Hd)]
  | |- wp (thinkos_flag_free_svc _) _ _ => eapply flag_free_inv; [exact Hrun|by apply Hcalm; intros Hd; apply (HP Hd)]
  | |- wp (thinkos_sem_init_svc _) _ _ => eapply sem_init_inv; [exact Hrun|by apply Hinit]
  end.
Qed.

(** Every entry of the kernel. *)
Lemma entry_inv m e : Inv (-1) false false m -> enabled m e -> wp (run_entry e) kpost m.
Proof.
  intros HI He. destruct e as [lr|code| | |irq|k|k|k|k|k ev]; simpl in *.
  - destruct He as [Hr Hp]. apply (runs_running _ HI) in Hr.
    apply wp_bind. assert (wp (cm3_svc_stackframe lr) (fun arg m' => arg = frame_of m lr /\ m' = m) m) as Hf.
    { unfold cm3_svc_stackframe, frame_of. destruct (Z.testbit lr 2); by apply wp_get. }
    eapply wp_mono; [exact Hf|]. intros arg m' [-> ->]. apply wp_bind, wp_arg_rd, wp_bind.
    apply wp_bind, wp_ld, wp_ret. by eapply dispatch_inv.
  - by apply thread_exit_inv with (1 := runs_running _ HI He).
  - eapply wp_mono; [by apply pendsv_inv|]. by intros [] m' [? _].
  - eapply wp_mono; [by apply systick_spec|]. by intros [] m' [? _].
  - destruct He. by apply default_isr_inv.
  - by apply sem_post_i_inv.
  - by apply flag_give_i_inv.
  - by apply flag_set_i_inv.
  - by apply flag_clr_i_inv.
  - destruct He. by apply ev_raise_i_inv.
Qed.

Lemma Inv_user x d p m w a b : Inv x d p m -> Inv x d p (lset psp a (lset msp b (lset mem w m))).
Proof. intros []; split; [solve_shape|kframe..|done]. Qed.

Lemma boot_inv m : boot m -> Inv (-1) false false m.
Proof.
  intros [opt sp self m' E]. eapply booted_inv. exact (wp_run _ _ _ _ _ (init_booted opt sp) E).
Qed.

Lemma step_inv m m' : Inv (-1) false false m -> step m m' -> Inv (-1) false false m'.
Proof.
  intros HI [w p q|e m1 He Hrun]; [by apply Inv_user|].
  exact (wp_run _ _ _ _ _ (entry_inv m e HI He) Hrun).
Qed.

Lemma reachable_inv m : reachable m -> Inv (-1) false false m.
Proof.
  intros (m0 & Hb & Hs). apply boot_inv in Hb. induction Hs as [|m0 m1 m2 H1 _ IH]; [done|].
  apply IH. by eapply step_inv.
Qed.
End safety.
