(* ===== verification/Spec.v ===== *)
(** * What a service does, seen from outside

    The abstract view of the kernel the component specifications are written
    against: the set of ready threads, the set of threads waiting on each
    object, and the effects a service may have on them. *)

From S2P Require Import Prelude Arch Config Kernel Rules Inv InvOps InvObj Steps SvcObj SvcThread.

Section spec.
Context `{Cfg : Config} {Disc : Discipline}.
Implicit Types (m : machine).

Definition threads_in (f : Z -> bool) : gset Z :=
  list_to_set (filter (fun th => f th = true) (seqZ 0 THINKOS_THREADS_MAX)).
(** The threads that wait on the object with number [q]. *)
Definition waiters m (q : Z) : gset Z := threads_in (qbit m q).
Definition ready_set m : gset Z := threads_in (ready m).
(** The first thread of a set, the one the kernel wakes. *)
Definition first_of (th : Z) (s : gset Z) : Prop := th ∈ s /\ forall j, j ∈ s -> th <= j.

Lemma elem_of_threads_in f th : th ∈ threads_in f <-> is_thread th /\ f th = true.
Proof.
  unfold threads_in. rewrite elem_of_list_to_set, list_elem_of_filter, elem_of_seqZ.
  unfold is_thread. intuition lia.
Qed.

Lemma first_of_inj th th' s : first_of th s -> first_of th' s -> th = th'.
Proof. intros [H1 H2] [H3 H4]. specialize (H2 _ H3). specialize (H4 _ H1). lia. Qed.

(** ** Effects

    The effect of one service of the thread [self] on the object [wq]:
    the ready set, the waiters of every object, the clock, the caller's
    result register. *)
Inductive effect :=
  | Return (r : Z)          (* back to the caller with [r] *)
  | Block (r : Z)           (* the caller waits; [r] is preset as its result *)
  | BlockFor (ms r : Z)     (* the same, for at most [ms] ticks *)
  | Wake (th : Z)           (* back with 0; the waiter [th] is ready, with 0 *)
  | WakeAll.                (* back with 0; every waiter is ready *)

Definition queues_same m m' : Prop :=
  (forall q, obj_wq q -> waiters m' q = waiters m q) /\ ready_set m' = ready_set m.
Definition clock_same m m' : Prop :=
  waiters m' THINKOS_WQ_CLOCK = waiters m THINKOS_WQ_CLOCK /\ lget clock m' = lget clock m.

Definition has_effect (self arg wq : Z) m m' (e : effect) : Prop :=
  match e with
  | Return r => queues_same m m' /\ clock_same m m' /\ load (lget mem m') arg = u32 r
  | Block r =>
      (forall q, obj_wq q -> waiters m' q = if decide (q = wq) then {[self]} ∪ waiters m q else waiters m q) /\
      ready_set m' = ready_set m ∖ {[self]} /\ clock_same m m' /\
      load (lget mem m') arg = u32 r /\ lget pendsv m' = true
  | BlockFor ms r =>
      (forall q, obj_wq q -> waiters m' q = if decide (q = wq) then {[self]} ∪ waiters m q else waiters m q) /\
      ready_set m' = ready_set m ∖ {[self]} /\
      waiters m' THINKOS_WQ_CLOCK = {[self]} ∪ waiters m THINKOS_WQ_CLOCK /\
      lget clock m' = zset (lget clock m) self (u32 (lget ticks m + ms)) /\
      load (lget mem m') arg = u32 r /\ lget pendsv m' = true
  | Wake th =>
      (forall q, obj_wq q -> waiters m' q = if decide (q = wq) then waiters m q ∖ {[th]} else waiters m q) /\
      ready_set m' = {[th]} ∪ ready_set m /\
      waiters m' THINKOS_WQ_CLOCK = waiters m THINKOS_WQ_CLOCK ∖ {[th]} /\
      load (lget mem m') arg = 0 /\ load (lget mem m') (zget (lget ctx m) th + CTX_R0) = 0 /\
      lget pendsv m' = true
  | WakeAll =>
      (forall q, obj_wq q -> waiters m' q = if decide (q = wq) then ∅ else waiters m q) /\
      ready_set m' = waiters m wq ∪ ready_set m /\
      waiters m' THINKOS_WQ_CLOCK = waiters m THINKOS_WQ_CLOCK ∖ waiters m wq /\
      load (lget mem m') arg = 0 /\ lget pendsv m' = true
  end.
End spec.

(** The first word of a frame. *)
Lemma arg0 a : a + 4 * 0 = a.
Proof. lia. Qed.

Arguments queues_same {Cfg} m m' : simpl never.
Arguments clock_same {Cfg} m m' : simpl never.

Section views.
Context `{Cfg : Config} {Disc : Discipline} `{!ConfigOk Cfg}.
Implicit Types (m : machine).

Lemma threads_in_ext f g : (forall th, is_thread th -> f th = g th) -> threads_in f = threads_in g.
Proof.
  intros H. apply set_eq. intros th. rewrite !elem_of_threads_in.
  split; intros [Ht E]; (split; [done|]); [rewrite <-H|rewrite H]; done.
Qed.

Lemma waiters_ext m m' q : (forall th, is_thread th -> qbit m' q th = qbit m q th) -> waiters m' q = waiters m q.
Proof. apply threads_in_ext. Qed.

Lemma waiters_add m m' q th : is_thread th ->
  (forall t, is_thread t -> qbit m' q t = if decide (t = th) then true else qbit m q t) ->
  waiters m' q = {[th]} ∪ waiters m q.
Proof.
  intros Hth H. apply set_eq. intros t. rewrite elem_of_union, elem_of_singleton. unfold waiters.
  rewrite !elem_of_threads_in. split.
  - intros [Ht E]. rewrite H in E by done. destruct (decide (t = th)); [by left|by right].
  - intros [->|[Ht E]]; (split; [done|]); rewrite H by done; [by rewrite decide_True|by destruct (decide _)].
Qed.

Lemma waiters_del m m' q th :
  (forall t, is_thread t -> qbit m' q t = if decide (t = th) then false else qbit m q t) ->
  waiters m' q = waiters m q ∖ {[th]}.
Proof.
  intros H. apply set_eq. intros t. rewrite elem_of_difference, elem_of_singleton. unfold waiters.
  rewrite !elem_of_threads_in. split.
  - intros [Ht E]. rewrite H in E by done. by destruct (decide (t = th)).
  - intros [[Ht E] Hne]. split; [done|]. rewrite H by done. by rewrite decide_False.
Qed.

Lemma ready_ext m m' : (forall th, is_thread th -> ready m' th = ready m th) -> ready_set m' = ready_set m.
Proof. apply (waiters_ext m m' THINKOS_WQ_READY). Qed.

Lemma waiters_none m q : no_waiters m q -> waiters m q = ∅.
Proof.
  intros H. apply set_eq. intros t. unfold waiters. rewrite elem_of_threads_in. split; [|set_solver].
  intros [Ht E]. by rewrite H in E.
Qed.

(** The head of a queue is the first waiter. *)
Lemma head_first m q th : is_thread th -> qbit m q th = true ->
  (forall j, 0 <= j < th -> qbit m q j = false) -> first_of th (waiters m q).
Proof.
  intros Ht Hb Hl. split; [by apply elem_of_threads_in|]. intros j [Hj E]%elem_of_threads_in.
  destruct (Z_le_gt_dec th j); [done|]. rewrite Hl in E; [done|]. unfold is_thread in Hj. lia.
Qed.

(** Nothing but memory and object fields changed. *)
Lemma same_queues m m' :
  lget wq_lst m' = lget wq_lst m -> lget clock m' = lget clock m -> queues_same m m' /\ clock_same m m'.
Proof.
  intros E E2. assert (forall q, waiters m' q = waiters m q) as H.
  { intros q. apply waiters_ext. intros th _. unfold qbit. by rewrite E. }
  repeat split; auto. exact (H THINKOS_WQ_READY).
Qed.

Lemma load_store w a v : load (<[a := u32 v]> w) a = u32 v.
Proof. unfold load. rewrite lookup_insert_eq. apply u32_idem. Qed.

Lemma load_arg w a v : load (<[a + 4 * 0 := u32 v]> w) a = u32 v.
Proof. rewrite arg0. apply load_store. Qed.

Lemma load_store_same w a b v : load w a = u32 v -> load (<[b := u32 v]> w) a = u32 v.
Proof.
  intros H. destruct (decide (a = b)) as [->|Hne]; [apply load_store|].
  unfold load. by rewrite lookup_insert_ne by done.
Qed.

(** The queues after [self] has joined [wq] and left the ready queue. *)
Lemma effect_block self arg wq r m m' :
  shape m -> is_thread self -> obj_wq wq ->
  lget wq_lst m' = lget wq_lst (st_unready self (st_insert wq self m)) ->
  lget clock m' = lget clock m -> load (lget mem m') arg = u32 r -> lget pendsv m' = true ->
  has_effect self arg wq m m' (Block r).
Proof.
  intros Hsh Ht Hq Ew Ec El Ep. pose proof (thread_range _ Ht) as H32. pose proof (obj_wq_range _ Hq).
  pose proof wq_ready_range. assert (shape (st_insert wq self m)) by (by apply shape_insert).
  assert (forall q t, 0 <= t < 32 -> qbit m' q t =
    if decide (THINKOS_WQ_READY = q /\ self = t) then false
    else if decide (wq = q /\ self = t) then true else qbit m q t) as Hb.
  { intros q t Ht'. unfold qbit at 1. rewrite Ew. fold (qbit (st_unready self (st_insert wq self m)) q t).
    unfold st_unready. rewrite qbit_bit by done. by rewrite qbit_insert by done. }
  assert (THINKOS_WQ_READY <> wq) by (intros E; by apply (wait_not_ready _ (obj_wait _ Hq))).
  repeat split; auto.
  - intros q Hq'. pose proof (wait_not_ready _ (obj_wait _ Hq')).
    destruct (decide (q = wq)) as [->|Hne].
    + apply waiters_add; [done|]. intros t Ht'. rewrite Hb by (by apply thread_range).
      rewrite decide_False by (intros [? _]; congruence).
      destruct (decide (t = self)) as [->|]; [by rewrite decide_True|by rewrite decide_False by (intros [_ ?]; congruence)].
    + apply waiters_ext. intros t Ht'. rewrite Hb by (by apply thread_range).
      by rewrite !decide_False by (intros [? _]; congruence).
  - apply (waiters_del m m' THINKOS_WQ_READY). intros t Ht'. rewrite Hb by (by apply thread_range).
    destruct (decide (t = self)) as [->|]; [by rewrite decide_True|].
    by rewrite !decide_False by (intros [_ ?]; congruence).
  - apply waiters_ext. intros t Ht'. rewrite Hb by (by apply thread_range).
    pose proof (wait_not_ready _ clock_wait_wq). pose proof (obj_not_clock _ Hq).
    by rewrite !decide_False by (intros [? _]; congruence).
Qed.

Lemma effect_block_for self arg wq ms r m m' :
  shape m -> is_thread self -> obj_wq wq ->
  lget wq_lst m' = lget wq_lst (st_unready self (st_tmd_insert wq self ms m)) ->
  lget clock m' = zset (lget clock m) self (u32 (lget ticks m + ms)) ->
  load (lget mem m') arg = u32 r -> lget pendsv m' = true ->
  has_effect self arg wq m m' (BlockFor ms r).
Proof.
  intros Hsh Ht Hq Ew Ec El Ep. pose proof (thread_range _ Ht) as H32. pose proof (obj_wq_range _ Hq).
  pose proof wq_ready_range. assert (shape (st_tmd_insert wq self ms m)) by (by apply shape_tmd_insert).
  assert (forall q t, 0 <= t < 32 -> qbit m' q t =
    if decide (THINKOS_WQ_READY = q /\ self = t) then false
    else if decide ((q = wq \/ q = THINKOS_WQ_CLOCK) /\ self = t) then true else qbit m q t) as Hb.
  { intros q t Ht'. unfold qbit at 1. rewrite Ew. fold (qbit (st_unready self (st_tmd_insert wq self ms m)) q t).
    unfold st_unready. rewrite qbit_bit by done. by rewrite qbit_tmd_insert by done. }
  pose proof (wait_not_ready _ clock_wait_wq) as Hc0. pose proof (obj_not_clock _ Hq).
  assert (forall q, wait_wq q -> q = wq \/ q = THINKOS_WQ_CLOCK -> waiters m' q = {[self]} ∪ waiters m q) as Hadd.
  { intros q Hw Hq'. pose proof (wait_not_ready _ Hw). apply waiters_add; [done|]. intros t Ht'.
    rewrite Hb by (by apply thread_range). rewrite decide_False by (intros [? _]; congruence).
    destruct (decide (t = self)) as [->|]; [by rewrite decide_True|by rewrite decide_False by (intros [_ ?]; congruence)]. }
  repeat split; auto.
  - intros q Hq'. pose proof (wait_not_ready _ (obj_wait _ Hq')). pose proof (obj_not_clock _ Hq').
    destruct (decide (q = wq)) as [->|Hne]; [apply Hadd; auto using obj_wait|].
    apply waiters_ext. intros t Ht'. rewrite Hb by (by apply thread_range).
    by rewrite !decide_False by (intros [? _]; intuition congruence).
  - apply (waiters_del m m' THINKOS_WQ_READY). intros t Ht'. rewrite Hb by (by apply thread_range).
    destruct (decide (t = self)) as [->|]; [by rewrite decide_True|].
    by rewrite !decide_False by (intros [_ ?]; congruence).
  - apply Hadd; [apply clock_wait_wq|by right].
Qed.

(** The queues after the first waiter of [wq] was woken. *)
Lemma wake_queues wq th v m m' :
  shape m -> is_thread th -> obj_wq wq -> lget wq_lst m' = lget wq_lst (st_wake wq th v m) ->
  (forall q, obj_wq q -> waiters m' q = if decide (q = wq) then waiters m q ∖ {[th]} else waiters m q) /\
  ready_set m' = {[th]} ∪ ready_set m /\
  waiters m' THINKOS_WQ_CLOCK = waiters m THINKOS_WQ_CLOCK ∖ {[th]}.
Proof.
  intros Hsh Ht Hq Ew. pose proof (thread_range _ Ht) as H32.
  assert (forall q t, 0 <= t < 32 -> qbit m' q t =
    if decide (th = t /\ (q = THINKOS_WQ_READY \/ q = wq \/ q = THINKOS_WQ_CLOCK))
    then bool_decide (q = THINKOS_WQ_READY) else qbit m q t) as Hb.
  { intros q t Ht'. unfold qbit at 1. rewrite Ew. fold (qbit (st_wake wq th v m) q t).
    rewrite qbit_wake by (eauto using obj_wait). done. }
  assert (forall q, wait_wq q -> q = wq \/ q = THINKOS_WQ_CLOCK -> waiters m' q = waiters m q ∖ {[th]}) as Hdel.
  { intros q Hw Hq'. pose proof (wait_not_ready _ Hw). apply waiters_del. intros t Ht'.
    rewrite Hb by (by apply thread_range). destruct (decide (t = th)) as [->|].
    - rewrite decide_True by (split; [done|tauto]). by apply bool_decide_false.
    - by rewrite decide_False by (intros [? _]; congruence). }
  split; [|split].
  - intros q Hq'. destruct (decide (q = wq)) as [->|Hne]; [apply Hdel; auto using obj_wait|].
    pose proof (wait_not_ready _ (obj_wait _ Hq')). pose proof (obj_not_clock _ Hq').
    apply waiters_ext. intros t Ht'. rewrite Hb by (by apply thread_range).
    by rewrite decide_False by (intros [_ ?]; intuition congruence).
  - apply (waiters_add m m' THINKOS_WQ_READY); [done|]. intros t Ht'. rewrite Hb by (by apply thread_range).
    destruct (decide (t = th)) as [->|].
    + rewrite decide_True by auto. by apply bool_decide_true.
    + by rewrite decide_False by (intros [? _]; congruence).
  - apply Hdel; [apply clock_wait_wq|by right].
Qed.

Lemma effect_wake self arg wq th v m m' :
  shape m -> is_thread th -> obj_wq wq ->
  lget wq_lst m' = lget wq_lst (st_wake wq th v m) ->
  load (lget mem m') arg = 0 -> load (lget mem m') (zget (lget ctx m) th + CTX_R0) = 0 ->
  lget pendsv m' = true -> has_effect self arg wq m m' (Wake th).
Proof.
  intros Hsh Ht Hq Ew El Er Ep. destruct (wake_queues _ _ _ _ _ Hsh Ht Hq Ew) as (H1 & H2 & H3).
  repeat split; auto.
Qed.
End views.
