(* ===== verification/MutexSpec.v ===== *)
(** * Mutexes: specification and refinement

    A mutex is an owner and a set of waiting threads. The services of
    [Mutex.v] implement the operations of this abstract mutex: what they do to
    the run-time block is exactly the abstract step, with the effect on the
    queues the step names, and nothing else. *)

From S2P Require Import Prelude Arch Config Kernel Rules Inv InvOps InvObj Mutex Steps SvcObj SvcThread Spec.

Section mutex_spec.
Context `{Cfg : Config} {Disc : Discipline}.
Implicit Types (m : machine).

Record amutex := AMutex { am_owner : option Z; am_wait : gset Z }.

Inductive mutex_op := MLock | MTryLock | MTimedLock (ms : Z) | MUnlock.

(** One operation of the thread [self]. *)
Inductive am_step (self : Z) : mutex_op -> amutex -> effect -> amutex -> Prop :=
  | am_take op w : op <> MUnlock ->
      am_step self op (AMutex None w) (Return THINKOS_OK) (AMutex (Some self) w)
  | am_deadlock op w : op <> MUnlock ->
      am_step self op (AMutex (Some self) w) (Return THINKOS_EDEADLK) (AMutex (Some self) w)
  | am_lock_wait o w : o <> self ->
      am_step self MLock (AMutex (Some o) w) (Block THINKOS_OK) (AMutex (Some o) ({[self]} ∪ w))
  | am_try_busy o w : o <> self ->
      am_step self MTryLock (AMutex (Some o) w) (Return THINKOS_EAGAIN) (AMutex (Some o) w)
  | am_timed_wait o w ms : o <> self ->
      am_step self (MTimedLock ms) (AMutex (Some o) w) (BlockFor ms THINKOS_ETIMEDOUT) (AMutex (Some o) ({[self]} ∪ w))
  | am_unlock_other o w : o <> Some self ->
      am_step self MUnlock (AMutex o w) (Return THINKOS_EPERM) (AMutex o w)
  | am_unlock_free :
      am_step self MUnlock (AMutex (Some self) ∅) (Return THINKOS_OK) (AMutex None ∅)
  | am_unlock_pass th w : first_of th w ->
      am_step self MUnlock (AMutex (Some self) w) (Wake th) (AMutex (Some th) (w ∖ {[th]})).

(** The abstract mutex of number [k] in a state of the kernel. *)
Definition owner m (k : Z) : option Z :=
  if zget (lget lock m) k =? -1 then None else Some (zget (lget lock m) k).
Definition mutex_view m (k : Z) : amutex := AMutex (owner m k) (waiters m (THINKOS_MUTEX_BASE + k)).

Definition mutex_svc (op : mutex_op) : Z -> K unit :=
  match op with
  | MLock => thinkos_mutex_lock_svc
  | MTryLock => thinkos_mutex_trylock_svc
  | MTimedLock _ => thinkos_mutex_timedlock_svc
  | MUnlock => thinkos_mutex_unlock_svc
  end.

(** The call in the frame at [arg]: mutex [k], and the timeout of a timed
    operation. *)
Definition mutex_call m (op : mutex_op) (arg k : Z) : Prop :=
  load (lget mem m) arg = THINKOS_MUTEX_BASE + k /\ 0 <= k < THINKOS_MUTEX_MAX /\
  bget (lget mutex_alloc m) 0 k = true /\
  match op with MTimedLock ms => load (lget mem m) (arg + 4) = ms | _ => True end.

(** An operation on one mutex leaves the owners of the others alone. *)
Definition other_owners m m' (k : Z) : Prop := forall j, j <> k -> owner m' j = owner m j.

(** The abstract step, its effect, and the view afterwards. *)
Definition mutex_post (op : mutex_op) (self arg k : Z) m (_ : unit) m' : Prop :=
  exists e, am_step self op (mutex_view m k) e (mutex_view m' k) /\
    has_effect self arg (THINKOS_MUTEX_BASE + k) m m' e /\ other_owners m m' k.
End mutex_spec.

Section mutex_refinement.
Context `{Cfg : Config} {Disc : Discipline} `{!ConfigOk Cfg} `{!CoreConfig Cfg}.
Implicit Types (m : machine).

Lemma owner_none m k : zget (lget lock m) k = -1 -> owner m k = None.
Proof. unfold owner. by intros ->. Qed.

Lemma owner_some m k : zget (lget lock m) k <> -1 -> owner m k = Some (zget (lget lock m) k).
Proof. unfold owner. intros H. by rewrite (proj2 (Z.eqb_neq _ _) H). Qed.

(** The owner is what was written last. *)
Lemma owner_set m m' k v :
  shape m -> 0 <= k < THINKOS_MUTEX_MAX -> lget lock m' = zset (lget lock m) k v ->
  owner m' k = (if v =? -1 then None else Some v) /\ other_owners m m' k.
Proof.
  intros Hsh Hk E. unfold other_owners, owner. rewrite E. split.
  - by rewrite zget_zset_eq by kidx.
  - intros j Hj. by rewrite zget_zset_ne by (congruence || lia).
Qed.

Lemma owner_same m m' k : lget lock m' = lget lock m -> owner m' k = owner m k /\ other_owners m m' k.
Proof. intros E. unfold other_owners, owner. by rewrite E. Qed.

(** The check at the head of the service passes. *)
Lemma mutex_check m op arg k body Q :
  shape m -> mutex_call m op arg k -> wp (body k) Q m ->
  wp (obj_check THINKOS_MUTEX_BASE THINKOS_MUTEX_MAX mutex_alloc (load (lget mem m) arg) arg body) Q m.
Proof.
  intros Hsh (E & Hk & Hal & _) HQ. pose proof bases_bound. rewrite E. unfold obj_check, obj_range.
  replace (THINKOS_MUTEX_BASE + k - THINKOS_MUTEX_BASE) with k by lia.
  rewrite u32_small by lia. rewrite (proj2 (Z.leb_gt _ _)) by lia.
  apply wp_bind, wp_bit_mem_rd; [kidx|]. by rewrite Hal.
Qed.

(** The three ways to lock agree but for what they do when somebody else is
    the owner. *)
Lemma lock_cases m op self arg k (busy : K unit) :
  running m self -> mutex_call m op arg k -> op <> MUnlock ->
  (forall o, owner m k = Some o -> o <> self -> zget (lget lock m) k = o -> wp busy (mutex_post op self arg k m) m) ->
  wp (l <- arr_rd lock k;;
      if l =? -1 then arr_wr lock k self;;; arg_wr arg 0 0
      else if l =? self then arg_wr arg 0 THINKOS_EDEADLK else busy)%c (mutex_post op self arg k m) m.
Proof.
  intros [HI Ha Ht Hr] (E & Hk & Hal & _) Hop Hbusy. pose proof (inv_shape HI) as Hsh.
  apply wp_bind, wp_arr_rd; [kidx|]. destruct (Z.eqb_spec (zget (lget lock m) k) (-1)) as [El|El].
  - apply wp_bind, wp_arr_wr; [kidx|]. apply wp_arg_wr. set (m' := st_mem _ _ _).
    destruct (owner_set m m' k self Hsh Hk eq_refl) as [Eo Hoth].
    assert (queues_same m m' /\ clock_same m m') as [Hq Hc] by (by apply same_queues).
    exists (Return THINKOS_OK). split; [|split; [|done]].
    + unfold mutex_view. rewrite (owner_none _ _ El), Eo, (proj1 Hq) by (by apply mutex_wq).
      rewrite (proj2 (Z.eqb_neq self (-1))) by (unfold is_thread in Ht; lia). by constructor.
    + split; [done|]. split; [done|]. apply load_arg.
  - destruct (Z.eqb_spec (zget (lget lock m) k) self) as [Es|Es].
    + apply wp_arg_wr. set (m' := st_mem _ _ _).
      destruct (owner_same m m' k eq_refl) as [Eo Hoth].
      assert (queues_same m m' /\ clock_same m m') as [Hq Hc] by (by apply same_queues).
      exists (Return THINKOS_EDEADLK). split; [|split; [|done]].
      * unfold mutex_view. rewrite Eo, (owner_some _ _ El), Es, (proj1 Hq) by (by apply mutex_wq).
        by constructor.
      * split; [done|]. split; [done|]. apply load_arg.
    + eapply Hbusy; [by apply owner_some|done|done].
Qed.

Lemma mutex_lock_ok m self arg k :
  running m self -> mutex_call m MLock arg k ->
  wp (thinkos_mutex_lock_svc arg) (mutex_post MLock self arg k m) m.
Proof.
  intros Hrun Hcall. pose proof (inv_shape (run_inv Hrun)) as Hsh.
  apply wp_bind, wp_arg_rd, wp_bind, wp_get. rewrite (run_active Hrun), arg0.
  eapply mutex_check; [done|done|]. apply lock_cases; [done|done|done|].
  intros o Eo Hne El. destruct Hcall as (E & Hk & Hal & _). rewrite E.
  pose proof (mutex_wq k Hk) as Hwq. pose proof (run_thread Hrun) as Ht.
  apply wp_bind, wp_wq_insert; [done|by apply obj_wq_range|done|]. intros Hsh1.
  apply wp_bind, wp_arg_wr, wp_wait; [by apply shape_mem|done|]. intros _. set (m' := st_defer _).
  assert (has_effect self arg (THINKOS_MUTEX_BASE + k) m m' (Block THINKOS_OK)) as Heff.
  { apply effect_block; try done. apply load_arg. }
  destruct (owner_same m m' k eq_refl) as [Eo' Hoth].
  exists (Block THINKOS_OK). split; [|done]. unfold mutex_view. rewrite Eo', Eo.
  rewrite (proj1 Heff), decide_True by done. by constructor.
Qed.

Lemma mutex_trylock_ok m self arg k :
  running m self -> mutex_call m MTryLock arg k ->
  wp (thinkos_mutex_trylock_svc arg) (mutex_post MTryLock self arg k m) m.
Proof.
  intros Hrun Hcall. pose proof (inv_shape (run_inv Hrun)) as Hsh.
  apply wp_bind, wp_arg_rd, wp_bind, wp_get. rewrite (run_active Hrun), arg0.
  eapply mutex_check; [done|done|]. apply lock_cases; [done|done|done|].
  intros o Eo Hne El. destruct Hcall as (E & Hk & Hal & _).
  apply wp_arg_wr. set (m' := st_mem _ _ _).
  destruct (owner_same m m' k eq_refl) as [Eo' Hoth].
  assert (queues_same m m' /\ clock_same m m') as [Hq Hc] by (by apply same_queues).
  exists (Return THINKOS_EAGAIN). split; [|split; [|done]].
  - unfold mutex_view. rewrite Eo', Eo, (proj1 Hq) by (by apply mutex_wq). by constructor.
  - split; [done|]. split; [done|]. apply load_arg.
Qed.

Lemma mutex_timedlock_ok m self arg k ms :
  running m self -> mutex_call m (MTimedLock ms) arg k ->
  wp (thinkos_mutex_timedlock_svc arg) (mutex_post (MTimedLock ms) self arg k m) m.
Proof.
  intros Hrun Hcall. pose proof (inv_shape (run_inv Hrun)) as Hsh.
  apply wp_bind, wp_arg_rd, wp_bind, wp_arg_rd, wp_bind, wp_get. rewrite (run_active Hrun), arg0.
  eapply mutex_check; [done|done|]. apply lock_cases; [done|done|done|].
  intros o Eo Hne El. destruct Hcall as (E & Hk & Hal & Ems). rewrite E.
  change (4 * 1) with 4. rewrite Ems.
  pose proof (mutex_wq k Hk) as Hwq. pose proof (run_thread Hrun) as Ht.
  apply wp_bind, wp_tmdwq_insert; [done|by apply obj_wq_range|done|]. intros Hsh1.
  apply wp_bind, wp_arg_wr, wp_wait; [by apply shape_mem|done|]. intros _. set (m' := st_defer _).
  assert (has_effect self arg (THINKOS_MUTEX_BASE + k) m m' (BlockFor ms THINKOS_ETIMEDOUT)) as Heff.
  { apply effect_block_for; try done. apply load_arg. }
  destruct (owner_same m m' k eq_refl) as [Eo' Hoth].
  exists (BlockFor ms THINKOS_ETIMEDOUT). split; [|done]. unfold mutex_view. rewrite Eo', Eo.
  rewrite (proj1 Heff), decide_True by done. by constructor.
Qed.

Lemma mutex_unlock_ok m self arg k :
  running m self -> mutex_call m MUnlock arg k ->
  wp (thinkos_mutex_unlock_svc arg) (mutex_post MUnlock self arg k m) m.
Proof.
  intros Hrun Hcall. pose proof (inv_shape (run_inv Hrun)) as Hsh.
  apply wp_bind, wp_arg_rd, wp_bind, wp_get. rewrite (run_active Hrun), arg0.
  eapply mutex_check; [done|done|]. destruct Hcall as (E & Hk & Hal & _). rewrite E.
  pose proof (mutex_wq k Hk) as Hwq. pose proof (run_thread Hrun) as Ht.
  apply wp_bind, wp_arr_rd; [kidx|]. destruct (Z.eqb_spec (zget (lget lock m) k) self) as [Es|Es]; cbn [negb].
  - assert (owner m k = Some self) as Eo.
    { rewrite owner_some by (unfold is_thread in Ht; lia). by rewrite Es. }
    apply wp_bind, wp_bind, (I_head (-1) false false); [apply Hrun|by apply obj_wait|..].
    + intros Hn. rewrite Z.eqb_refl. apply wp_bind, wp_arr_wr; [kidx|]. apply wp_ret, wp_bind, wp_ret, wp_arg_wr.
      set (m' := st_mem _ _ _). destruct (owner_set m m' k (-1) Hsh Hk eq_refl) as [Eo' Hoth].
      assert (queues_same m m' /\ clock_same m m') as [Hq Hc] by (by apply same_queues).
      exists (Return THINKOS_OK). split; [|split; [|done]].
      * unfold mutex_view. rewrite Eo', Eo, (proj1 Hq) by done. rewrite (waiters_none _ _ Hn). constructor.
      * split; [done|]. split; [done|]. apply load_arg.
    + intros th Hth Hb Hleast Hne. rewrite (proj2 (Z.eqb_neq _ _) Hne).
      apply wp_bind, wp_arr_wr; [kidx|]. change (lset lock (zset (lget lock m) k th) m) with (st_arr lock k th m).
      assert (shape (st_arr lock k th m)) as Hsh1 by (unfold st_arr; solve_shape).
      apply wp_bind, wp_wakeup; [done|by apply obj_wq_range|done|]. intros Hsh2.
      apply wp_ret, wp_bind, wp_put, wp_arg_wr. set (m' := st_mem _ _ _).
      assert (has_effect self arg (THINKOS_MUTEX_BASE + k) m m' (Wake th)) as Heff.
      { apply effect_wake with (v := 0); try done.
        - apply (load_arg _ _ 0).
        - apply load_store_same with (v := 0). apply (load_store _ _ 0). }
      destruct (owner_set m m' k th Hsh Hk eq_refl) as [Eo' Hoth].
      exists (Wake th). split; [|done]. unfold mutex_view. rewrite Eo, Eo', (proj1 Heff), decide_True by done.
      rewrite (proj2 (Z.eqb_neq th (-1))) by (unfold is_thread in Hth; lia). constructor. by apply head_first.
  - apply wp_arg_wr. set (m' := st_mem _ _ _).
    destruct (owner_same m m' k eq_refl) as [Eo Hoth].
    assert (queues_same m m' /\ clock_same m m') as [Hq Hc] by (by apply same_queues).
    exists (Return THINKOS_EPERM). split; [|split; [|done]].
    + unfold mutex_view. rewrite Eo, (proj1 Hq) by done. constructor.
      unfold owner. destruct (_ =? -1); congruence.
    + split; [done|]. split; [done|]. apply load_arg.
Qed.

(** The abstract mutex is deterministic, so the refinement pins the services
    down completely. *)
Lemma am_step_det self op s e1 s1 e2 s2 :
  am_step self op s e1 s1 -> am_step self op s e2 s2 -> e1 = e2 /\ s1 = s2.
Proof.
  intros H1 H2. destruct H1; inversion H2; subst; try done; try congruence.
  - match goal with H : first_of _ ∅ |- _ => destruct H as [H _]; set_solver end.
  - match goal with H : first_of _ ∅ |- _ => destruct H as [H _]; set_solver end.
  - match goal with H1 : first_of ?a ?w, H2 : first_of ?b ?w |- _ => by rewrite (first_of_inj _ _ _ H1 H2) end.
Qed.
End mutex_refinement.
