(* ===== verification/SemSpec.v ===== *)
(** * Semaphores: specification and refinement

    A semaphore is a counter and a set of waiting threads. The services of
    [Semaphore.v] implement its operations; a post hands its token to the
    first waiter or adds it to the counter, never both and never neither. *)

From S2P Require Import Prelude Arch Config Kernel Rules Inv InvOps InvObj Semaphore Steps SvcObj SvcSync SvcThread Spec.

Section sem_spec.
Context `{Cfg : Config} {Disc : Discipline}.
Implicit Types (m : machine).

Record asem := ASem { as_value : Z; as_wait : gset Z }.

Inductive sem_op := SWait | STryWait | STimedWait (ms : Z) | SPost.

Inductive as_step (self : Z) : sem_op -> asem -> effect -> asem -> Prop :=
  | as_take op v w : op <> SPost -> 0 < v ->
      as_step self op (ASem v w) (Return THINKOS_OK) (ASem (v - 1) w)
  | as_wait_zero w :
      as_step self SWait (ASem 0 w) (Block THINKOS_OK) (ASem 0 ({[self]} ∪ w))
  | as_try_zero w :
      as_step self STryWait (ASem 0 w) (Return THINKOS_EAGAIN) (ASem 0 w)
  | as_timed_zero w ms :
      as_step self (STimedWait ms) (ASem 0 w) (BlockFor ms THINKOS_ETIMEDOUT) (ASem 0 ({[self]} ∪ w))
  | as_post_count v :
      as_step self SPost (ASem v ∅) (Return THINKOS_OK) (ASem (u32 (v + 1)) ∅)
  | as_post_wake v w th : first_of th w ->
      as_step self SPost (ASem v w) (Wake th) (ASem v (w ∖ {[th]})).

Definition sem_view m (k : Z) : asem := ASem (zget (lget sem_val m) k) (waiters m (THINKOS_SEM_BASE + k)).

Definition sem_svc (op : sem_op) : Z -> K unit :=
  match op with
  | SWait => thinkos_sem_wait_svc
  | STryWait => thinkos_sem_trywait_svc
  | STimedWait _ => thinkos_sem_timedwait_svc
  | SPost => thinkos_sem_post_svc
  end.

Definition sem_call m (op : sem_op) (arg k : Z) : Prop :=
  load (lget mem m) arg = THINKOS_SEM_BASE + k /\ 0 <= k < THINKOS_SEMAPHORE_MAX /\
  bget (lget sem_alloc m) 0 k = true /\
  match op with STimedWait ms => load (lget mem m) (arg + 4) = ms | _ => True end.

Definition other_values m m' (k : Z) : Prop :=
  forall j, j <> k -> zget (lget sem_val m') j = zget (lget sem_val m) j.

Definition sem_post (op : sem_op) (self arg k : Z) m (_ : unit) m' : Prop :=
  exists e, as_step self op (sem_view m k) e (sem_view m' k) /\
    has_effect self arg (THINKOS_SEM_BASE + k) m m' e /\ other_values m m' k.

(** What a post from an interrupt handler does: no frame, no result. *)
Definition sem_post_i_post (k : Z) m (_ : unit) m' : Prop :=
  lget primask m' = lget primask m /\ other_values m m' k /\
  (waiters m (THINKOS_SEM_BASE + k) = ∅ /\ queues_same m m' /\ clock_same m m' /\
     sem_view m' k = ASem (u32 (as_value (sem_view m k) + 1)) ∅
   \/ exists th, first_of th (waiters m (THINKOS_SEM_BASE + k)) /\
     sem_view m' k = ASem (as_value (sem_view m k)) (waiters m (THINKOS_SEM_BASE + k) ∖ {[th]}) /\
     ready_set m' = {[th]} ∪ ready_set m /\ lget pendsv m' = true).
End sem_spec.

Section sem_refinement.
Context `{Cfg : Config} {Disc : Discipline} `{!ConfigOk Cfg} `{!CoreConfig Cfg}.
Implicit Types (m : machine).

Lemma value_set m m' k v :
  shape m -> 0 <= k < THINKOS_SEMAPHORE_MAX -> lget sem_val m' = zset (lget sem_val m) k v ->
  zget (lget sem_val m') k = v /\ other_values m m' k.
Proof.
  intros Hsh Hk E. unfold other_values. rewrite E. split; [by rewrite zget_zset_eq by kidx|].
  intros j Hj. by rewrite zget_zset_ne by (congruence || lia).
Qed.

Lemma sem_check m op arg k body Q :
  shape m -> sem_call m op arg k -> wp (body k) Q m ->
  wp (obj_check THINKOS_SEM_BASE THINKOS_SEMAPHORE_MAX sem_alloc (load (lget mem m) arg) arg body) Q m.
Proof.
  intros Hsh (E & Hk & Hal & _) HQ. pose proof bases_bound. rewrite E. unfold obj_check, obj_range.
  replace (THINKOS_SEM_BASE + k - THINKOS_SEM_BASE) with k by lia.
  rewrite u32_small by lia. rewrite (proj2 (Z.leb_gt _ _)) by lia.
  apply wp_bind, wp_bit_mem_rd; [kidx|]. by rewrite Hal.
Qed.

Lemma wp_collect_if_zero m self (Q : unit -> machine -> Prop) :
  shape m -> is_thread self -> Q tt (st_unready self m) -> wp (wait_collect_if_zero self) Q m.
Proof.
  intros Hsh Ht HQ. unfold wait_collect_if_zero. rewrite core_timeshare.
  apply wp_bind, wp_wq_bit; [done|apply wq_ready_range|by apply thread_range|]. intros _. by apply wp_ret.
Qed.

(** A token is there: the counter falls by one. *)
Lemma take_ok op self arg k m m' :
  running m self -> sem_call m op arg k -> op <> SPost -> 0 < zget (lget sem_val m) k ->
  lget sem_val m' = zset (lget sem_val m) k (zget (lget sem_val m) k - 1) ->
  lget wq_lst m' = lget wq_lst m -> lget clock m' = lget clock m -> load (lget mem m') arg = 0 ->
  sem_post op self arg k m tt m'.
Proof.
  intros Hrun (E & Hk & _) Hop Hv Ev Ew Ec El. pose proof (inv_shape (run_inv Hrun)) as Hsh.
  destruct (value_set m m' k _ Hsh Hk Ev) as [Ev' Hoth].
  destruct (same_queues m m' Ew Ec) as [Hq Hc].
  exists (Return THINKOS_OK). split; [|split; [|done]].
  - unfold sem_view. rewrite Ev', (proj1 Hq) by (by apply sem_wq). by constructor.
  - split; [done|]. split; [done|]. exact El.
Qed.

Lemma sem_zero m k : Inv (-1) false false m -> ~ 0 < zget (lget sem_val m) k -> zget (lget sem_val m) k = 0.
Proof. intros HI Hv. pose proof (a_semval _ (inv_a HI) k). lia. Qed.

Lemma sem_wait_ok m self arg k :
  running m self -> sem_call m SWait arg k ->
  wp (thinkos_sem_wait_svc arg) (sem_post SWait self arg k m) m.
Proof.
  intros Hrun Hcall. pose proof (inv_shape (run_inv Hrun)) as Hsh. pose proof (run_thread Hrun) as Ht.
  apply wp_bind, wp_arg_rd, wp_bind, wp_get. rewrite (run_active Hrun), arg0.
  eapply sem_check; [done|done|]. pose proof Hcall as (E & Hk & Hal & _). rewrite E.
  pose proof (sem_wq k Hk) as Hwq.
  apply wp_bind, wp_arg_wr, wp_bind, wp_put, wp_bind, wp_arr_rd; [change (0 <= k < zlen (lget sem_val m)); kidx|].
  match goal with |- context [zget ?l k] => change l with (lget sem_val m) end.
  destruct (Z.ltb_spec 0 (zget (lget sem_val m) k)) as [Hv|Hv].
  - apply wp_bind, wp_arr_wr; [change (0 <= k < zlen (lget sem_val m)); kidx|]. apply wp_put.
    apply take_ok; try done. apply (load_arg _ _ 0).
  - assert (zget (lget sem_val m) k = 0) as Hv0 by (apply sem_zero; [apply Hrun|lia]).
    assert (shape (lset primask true (st_mem (arg + 4 * 0) 0 m))) as Hsh0 by (apply shape_primask, shape_mem, Hsh).
    apply wp_bind, wp_wq_insert; [done|by apply obj_wq_range|done|]. intros Hsh1.
    apply wp_bind, wp_collect_if_zero; [done|done|]. apply wp_bind, wp_put, wp_put. set (m' := lset pendsv _ _).
    assert (has_effect self arg (THINKOS_SEM_BASE + k) m m' (Block THINKOS_OK)) as Heff.
    { apply effect_block; try done. apply (load_arg _ _ 0). }
    exists (Block THINKOS_OK). split; [|split; [exact Heff|done]]. unfold sem_view.
    change (lget sem_val m') with (lget sem_val m). rewrite Hv0, (proj1 Heff), decide_True by done. constructor.
Qed.

Lemma sem_trywait_ok m self arg k :
  running m self -> sem_call m STryWait arg k ->
  wp (thinkos_sem_trywait_svc arg) (sem_post STryWait self arg k m) m.
Proof.
  intros Hrun Hcall. pose proof (inv_shape (run_inv Hrun)) as Hsh.
  apply wp_bind, wp_arg_rd. rewrite arg0.
  eapply sem_check; [done|done|]. pose proof Hcall as (E & Hk & Hal & _).
  apply wp_bind, wp_put, wp_bind, wp_arr_rd; [change (0 <= k < zlen (lget sem_val m)); kidx|].
  match goal with |- context [zget ?l k] => change l with (lget sem_val m) end.
  apply wp_bind. destruct (Z.ltb_spec 0 (zget (lget sem_val m) k)) as [Hv|Hv].
  - apply wp_bind, wp_arr_wr; [change (0 <= k < zlen (lget sem_val m)); kidx|]. apply wp_arg_wr, wp_put.
    apply take_ok; try done. apply (load_arg _ _ 0).
  - assert (zget (lget sem_val m) k = 0) as Hv0 by (apply sem_zero; [apply Hrun|lia]).
    apply wp_arg_wr, wp_put. set (m' := lset primask _ _).
    assert (queues_same m m' /\ clock_same m m') as [Hq Hc] by (by apply same_queues).
    exists (Return THINKOS_EAGAIN). split; [|split; [|done]].
    + unfold sem_view. change (lget sem_val m') with (lget sem_val m).
      rewrite Hv0, (proj1 Hq) by (by apply sem_wq). constructor.
    + split; [done|]. split; [done|]. apply load_arg.
Qed.

Lemma sem_timedwait_ok m self arg k ms :
  running m self -> sem_call m (STimedWait ms) arg k ->
  wp (thinkos_sem_timedwait_svc arg) (sem_post (STimedWait ms) self arg k m) m.
Proof.
  intros Hrun Hcall. pose proof (inv_shape (run_inv Hrun)) as Hsh. pose proof (run_thread Hrun) as Ht.
  apply wp_bind, wp_arg_rd, wp_bind, wp_arg_rd, wp_bind, wp_get. rewrite (run_active Hrun), arg0.
  eapply sem_check; [done|done|]. pose proof Hcall as (E & Hk & Hal & Ems). rewrite E.
  change (4 * 1) with 4. rewrite Ems. pose proof (sem_wq k Hk) as Hwq.
  apply wp_bind, wp_put, wp_bind, wp_arr_rd; [change (0 <= k < zlen (lget sem_val m)); kidx|].
  match goal with |- context [zget ?l k] => change l with (lget sem_val m) end.
  apply wp_bind. destruct (Z.ltb_spec 0 (zget (lget sem_val m) k)) as [Hv|Hv].
  - apply wp_bind, wp_arr_wr; [change (0 <= k < zlen (lget sem_val m)); kidx|].
    apply wp_arg_wr, wp_bind, wp_put, wp_put. apply take_ok; try done. apply (load_arg _ _ 0).
  - assert (zget (lget sem_val m) k = 0) as Hv0 by (apply sem_zero; [apply Hrun|lia]).
    assert (shape (lset primask true m)) as Hsh0 by (apply shape_primask, Hsh).
    apply wp_bind, wp_tmdwq_insert; [done|by apply obj_wq_range|done|]. intros Hsh1.
    apply wp_bind, wp_collect_if_zero; [done|done|]. apply wp_arg_wr, wp_bind, wp_put, wp_put. set (m' := lset pendsv _ _).
    assert (has_effect self arg (THINKOS_SEM_BASE + k) m m' (BlockFor ms THINKOS_ETIMEDOUT)) as Heff.
    { apply effect_block_for; try done. apply load_arg. }
    exists (BlockFor ms THINKOS_ETIMEDOUT). split; [|split; [exact Heff|done]]. unfold sem_view.
    change (lget sem_val m') with (lget sem_val m). rewrite Hv0, (proj1 Heff), decide_True by done. constructor.
Qed.

Lemma wp_sem_post_body p m k (Q : unit -> machine -> Prop) :
  Inv (-1) false p m -> 0 <= k < THINKOS_SEMAPHORE_MAX ->
  (no_waiters m (THINKOS_SEM_BASE + k) -> Q tt (st_arr sem_val k (u32 (zget (lget sem_val m) k + 1)) m)) ->
  (forall th, is_thread th -> qbit m (THINKOS_SEM_BASE + k) th = true ->
    (forall j, 0 <= j < th -> qbit m (THINKOS_SEM_BASE + k) j = false) ->
    Q tt (st_defer (st_wake (THINKOS_SEM_BASE + k) th 0 m))) ->
  wp (sem_post_body (THINKOS_SEM_BASE + k) k) Q m.
Proof.
  intros HI Hk H0 H1. pose proof (sem_wq k Hk) as Hwq.
  apply wp_bind, (I_head (-1) false p); [done|by apply obj_wait|..].
  - intros Hn. rewrite Z.eqb_refl. apply wp_bind, wp_arr_rd; [kidx|]. apply wp_arr_wr; [kidx|]. by apply H0.
  - intros th Hth Hb Hl Hne. rewrite (proj2 (Z.eqb_neq _ _) Hne).
    apply wp_bind, wp_wakeup; [apply HI|by apply obj_wq_range|done|]. intros _. apply wp_put. by apply H1.
Qed.

Lemma sem_post_ok m self arg k :
  running m self -> sem_call m SPost arg k ->
  wp (thinkos_sem_post_svc arg) (sem_post SPost self arg k m) m.
Proof.
  intros Hrun Hcall. pose proof (inv_shape (run_inv Hrun)) as Hsh.
  apply wp_bind, wp_arg_rd. rewrite arg0. eapply sem_check; [done|done|].
  destruct Hcall as (E & Hk & Hal & _). rewrite E. pose proof (sem_wq k Hk) as Hwq.
  apply wp_bind, wp_arg_wr, wp_bind, wp_put, wp_bind. set (m1 := lset primask true (st_mem (arg + 4 * 0) 0 m)).
  assert (Inv (-1) false true m1) as HI1 by (eapply Inv_primask, Inv_mem, Hrun).
  assert (load (lget mem m1) arg = 0) as El by apply (load_arg _ _ 0).
  apply (wp_sem_post_body true); [done|done|..].
  - intros Hn. apply wp_put. set (m' := lset primask _ _).
    destruct (value_set m m' k _ Hsh Hk eq_refl) as [Ev Hoth].
    assert (queues_same m m' /\ clock_same m m') as [Hq Hc] by (by apply same_queues).
    exists (Return THINKOS_OK). split; [|split; [|done]].
    + unfold sem_view. rewrite Ev, (proj1 Hq) by done. rewrite (waiters_none m _ Hn). constructor.
    + split; [done|]. split; [done|]. exact El.
  - intros th Hth Hb Hl. apply wp_put. set (m' := lset primask _ _).
    assert (has_effect self arg (THINKOS_SEM_BASE + k) m m' (Wake th)) as Heff.
    { apply effect_wake with (v := 0); try done.
      - apply load_store_same with (v := 0). exact El.
      - apply (load_store _ _ 0). }
    exists (Wake th). split; [|split; [exact Heff|done]]. unfold sem_view.
    change (lget sem_val m') with (lget sem_val m). rewrite (proj1 Heff), decide_True by done.
    constructor. by apply head_first.
Qed.

Lemma sem_post_i_ok m k :
  Inv (-1) false false m -> 0 <= k < THINKOS_SEMAPHORE_MAX ->
  wp (thinkos_sem_post_i (THINKOS_SEM_BASE + k)) (sem_post_i_post k m) m.
Proof.
  intros HI Hk. pose proof (inv_shape HI) as Hsh. pose proof (sem_wq k Hk) as Hwq.
  apply wp_bind, wp_get, wp_bind, wp_put. replace (THINKOS_SEM_BASE + k - THINKOS_SEM_BASE) with k by lia.
  apply wp_bind. set (m1 := lset primask true m).
  assert (Inv (-1) false true m1) as HI1 by (by eapply Inv_primask).
  apply (wp_sem_post_body true); [done|done|..].
  - intros Hn. apply wp_put. set (m' := lset primask _ _).
    destruct (value_set m m' k _ Hsh Hk eq_refl) as [Ev Hoth].
    assert (queues_same m m' /\ clock_same m m') as [Hq Hc] by (by apply same_queues).
    split; [done|]. split; [done|]. left. pose proof (waiters_none m _ Hn) as Ew.
    split; [done|]. split; [done|]. split; [done|]. unfold sem_view. by rewrite Ev, (proj1 Hq), Ew by done.
  - intros th Hth Hb Hl. apply wp_put. set (m' := lset primask _ _).
    destruct (wake_queues (THINKOS_SEM_BASE + k) th 0 m m' Hsh Hth Hwq eq_refl) as (Hq & Hr & _).
    split; [done|]. split; [done|]. right. exists th. split; [by apply head_first|].
    split; [|done]. unfold sem_view. by rewrite Hq, decide_True.
Qed.

Lemma as_step_det self op s e1 s1 e2 s2 :
  as_step self op s e1 s1 -> as_step self op s e2 s2 -> e1 = e2 /\ s1 = s2.
Proof.
  intros H1 H2. destruct H1; inversion H2; subst; try done; try congruence; try lia.
  - match goal with H : first_of _ ∅ |- _ => destruct H as [H _]; set_solver end.
  - match goal with H : first_of _ ∅ |- _ => destruct H as [H _]; set_solver end.
  - match goal with H1 : first_of ?a ?w, H2 : first_of ?b ?w |- _ => by rewrite (first_of_inj _ _ _ H1 H2) end.
Qed.
End sem_refinement.
