(* ===== verification/Frame.v ===== *)
(** * What a computation leaves alone

    [keeps f c]: whatever [c] does, the field [f] has its old value at the
    end. Decided by the structure of [c], with one tactic for all services. *)

From S2P Require Import Prelude Arch Config Kernel Mutex Semaphore Cond Event Flag Thread Sched Svc Rules.

Definition keeps {A B} (f : lens machine A) (c : K B) : Prop :=
  forall m, match c m with Some (_, m') => lget f m' = lget f m | None => True end.

(** Two fields that do not overlap. *)
Class Apart {A B} (f : lens machine A) (g : lens machine B) : Prop :=
  apart : forall v m, lget f (lset g v m) = lget f m.
#[export] Hint Extern 0 (Apart _ _) => intros ? ?; reflexivity : typeclass_instances.

Section keeps.
Context {A : Type} (f : lens machine A).

Lemma keeps_ret {B} (b : B) : keeps f (ret b).
Proof. by intros m. Qed.
Lemma keeps_fault {B} : keeps f (@fault _ B).
Proof. by intros m. Qed.
Lemma keeps_get {B} (g : lens machine B) : keeps f (get g).
Proof. by intros m. Qed.
Lemma keeps_put {B} (g : lens machine B) `{!Apart f g} v : keeps f (put g v).
Proof. intros m. apply apart. Qed.
Lemma keeps_arr_rd g i : keeps f (arr_rd g i).
Proof. intros m. unfold arr_rd. by destruct (_ && _). Qed.
Lemma keeps_arr_wr g `{!Apart f g} i v : keeps f (arr_wr g i v).
Proof. intros m. unfold arr_wr. destruct (_ && _); [apply apart|done]. Qed.
Lemma keeps_bind {B C} (c : K B) (k : B -> K C) :
  keeps f c -> (forall b, keeps f (k b)) -> keeps f (bind c k).
Proof.
  intros Hc Hk m. unfold bind. specialize (Hc m). destruct (c m) as [[b m1]|]; [|done].
  specialize (Hk b m1). destruct (k b m1) as [[b' m2]|]; [congruence|done].
Qed.
Lemma keeps_if {B} (b : bool) (c d : K B) : keeps f c -> keeps f d -> keeps f (if b then c else d).
Proof. by destruct b. Qed.
Lemma keeps_when b c : keeps f c -> keeps f (when b c).
Proof. intros H. destruct b; [done|apply keeps_ret]. Qed.
Lemma keeps_for_from n body : forall i, (forall j, keeps f (body j)) -> keeps f (for_from n i body).
Proof.
  induction n as [|n IH]; intros i H; [apply keeps_ret|]. apply keeps_bind; [apply H|]. intros _. by apply IH.
Qed.
Lemma keeps_for n body : (forall j, keeps f (body j)) -> keeps f (for_ n body).
Proof. apply keeps_for_from. Qed.

Lemma keeps_st `{!Apart f mem} a v : keeps f (st a v).
Proof. apply keeps_bind; [apply keeps_get|]. intros w. by apply keeps_put. Qed.
Lemma keeps_ld a : keeps f (ld a).
Proof. apply keeps_bind; [apply keeps_get|]. intros w. apply keeps_ret. Qed.
Lemma keeps_bit_wr g `{!Apart f g} base b v : keeps f (bit_mem_wr g base b v).
Proof. apply keeps_bind; [apply keeps_arr_rd|]. intros w. by apply keeps_arr_wr. Qed.
Lemma keeps_bit_rd g base b : keeps f (bit_mem_rd g base b).
Proof. apply keeps_bind; [apply keeps_arr_rd|]. intros w. apply keeps_ret. Qed.

Lemma keeps_run {B} (c : K B) m b m' : keeps f c -> c m = Some (b, m') -> lget f m' = lget f m.
Proof. intros H E. specialize (H m). by rewrite E in H. Qed.
End keeps.

Ltac keeps_step :=
  lazymatch goal with
  | |- keeps _ (bind _ _) => apply keeps_bind; [|intros ?]
  | |- keeps _ (ret _) => apply keeps_ret
  | |- keeps _ fault => apply keeps_fault
  | |- keeps _ (get _) => apply keeps_get
  | |- keeps _ (put _ _) => apply keeps_put; apply _
  | |- keeps _ (arr_rd _ _) => apply keeps_arr_rd
  | |- keeps _ (arr_wr _ _ _) => apply keeps_arr_wr; apply _
  | |- keeps _ (bit_mem_wr _ _ _ _) => apply keeps_bit_wr; apply _
  | |- keeps _ (bit_mem_rd _ _ _) => apply keeps_bit_rd
  | |- keeps _ (st _ _) => apply keeps_st; apply _
  | |- keeps _ (ld _) => apply keeps_ld
  | |- keeps _ (when _ _) => apply keeps_when
  | |- keeps _ (for_ _ _) => apply keeps_for; intros ?
  | |- keeps _ (if _ then _ else _) => apply keeps_if
  | |- keeps _ (let _ := _ in _) => cbv zeta
  | |- keeps _ ?c =>
      first [match goal with H : _ |- _ => solve [apply H] end | let h := head c in progress unfold h]
  end
with head c := lazymatch c with ?g _ => head g | ?g => g end.

Ltac keeps_tac := repeat keeps_step.

Section loops.
Context `{Config} {A : Type} (f : lens machine A).
Context `{!Apart f mem} `{!Apart f wq_lst} `{!Apart f th_stat}.

Lemma keeps_wakeup_all q fuel : keeps f (wakeup_all fuel q).
Proof. induction fuel as [|n IH]; cbn [wakeup_all]; keeps_tac. Qed.

Lemma keeps_copy_words src : forall dst, keeps f (copy_words dst src).
Proof. induction src as [|w src IH]; intros dst; cbn [copy_words]; keeps_tac. Qed.

Lemma keeps_bmp_alloc g `{!Apart f g} max : keeps f (thinkos_bmp_alloc g max).
Proof.
  unfold thinkos_bmp_alloc. generalize 0. induction (Z.to_nat _) as [|n IH]; intros i; cbn [bmp_alloc_from]; keeps_tac.
Qed.

Context `{!Apart f ev_pend}.
Lemma keeps_ev_wake_rest q no mask fuel : keeps f (ev_wake_rest fuel q no mask).
Proof. induction fuel as [|n IH]; cbn [ev_wake_rest]; keeps_tac. Qed.

Lemma keeps_clock_scan now fuel : forall wq sched, keeps f (clock_scan fuel wq now sched).
Proof. induction fuel as [|n IH]; intros wq sched; cbn [clock_scan]; keeps_tac. Qed.
End loops.

(** The services that write no owner of a mutex. *)
Section owners.
Context `{Config}.

Ltac leaves_lock :=
  repeat first
    [ match goal with
      | |- keeps _ (wakeup_all _ _) => apply keeps_wakeup_all; apply _
      | |- keeps _ (copy_words _ _) => apply keeps_copy_words; apply _
      | |- keeps _ (thinkos_bmp_alloc _ _) => apply keeps_bmp_alloc; apply _
      | |- keeps _ (ev_wake_rest _ _ _ _) => apply keeps_ev_wake_rest; apply _
      | |- keeps _ (clock_scan _ _ _ _) => apply keeps_clock_scan; apply _
      end
    | keeps_step ].

Definition owner_svc (svc : Z) : bool :=
  existsb (Z.eqb svc) [THINKOS_MUTEX_ALLOC; THINKOS_MUTEX_LOCK; THINKOS_MUTEX_TRYLOCK;
    THINKOS_MUTEX_TIMEDLOCK; THINKOS_MUTEX_UNLOCK; THINKOS_COND_WAIT; THINKOS_COND_TIMEDWAIT].

Lemma dispatch_keeps_lock svc arg : owner_svc svc = false -> keeps lock (svc_dispatch svc arg).
Proof.
  intros Hn. unfold svc_dispatch.
  repeat lazymatch goal with
  | |- keeps _ (if svc =? ?n then _ else _) => destruct (Z.eqb_spec svc n) as [E|_]; [rewrite E in Hn; clear E|]
  end; try discriminate Hn; clear Hn.
  all: leaves_lock.
Qed.

Lemma exit_keeps_lock code : keeps lock (thinkos_thread_exit code).
Proof. leaves_lock. Qed.
Lemma pendsv_keeps_lock : keeps lock cm3_pendsv_isr.
Proof. leaves_lock. Qed.
Lemma systick_keeps_lock : keeps lock cm3_systick_isr.
Proof. leaves_lock. Qed.
Lemma default_isr_keeps_lock irq : keeps lock (cm3_default_isr irq).
Proof. leaves_lock. Qed.
Lemma sem_post_i_keeps_lock k : keeps lock (thinkos_sem_post_i k).
Proof. leaves_lock. Qed.
Lemma flag_give_i_keeps_lock k : keeps lock (thinkos_flag_give_i k).
Proof. leaves_lock. Qed.
Lemma flag_set_i_keeps_lock k : keeps lock (thinkos_flag_set_i k).
Proof. leaves_lock. Qed.
Lemma flag_clr_i_keeps_lock k : keeps lock (thinkos_flag_clr_i k).
Proof. leaves_lock. Qed.
Lemma ev_raise_i_keeps_lock k e : keeps lock (thinkos_ev_raise_i k e).
Proof. leaves_lock. Qed.
End owners.
