(* ===== verification/MutexExcl.v ===== *)
(** * Mutual exclusion

    Whatever the kernel does, the owner of a mutex changes only in a service
    the owner itself calls. *)

From S2P Require Import Prelude Arch Config Kernel Rules Inv InvOps InvObj Mutex Semaphore Cond Event Flag Thread Sched Svc.
From S2P Require Import Steps SvcObj SvcThread Spec MutexSpec System Frame.

Section after.
Implicit Types (m : machine).

(** [Q] holds if and when [c] ends. *)
Definition after {A} (c : K A) (Q : A -> machine -> Prop) m : Prop :=
  match c m with Some (a, m') => Q a m' | None => True end.

Lemma after_bind {A B} (c : K A) (k : A -> K B) Q m : after c (fun a => after (k a) Q) m -> after (bind c k) Q m.
Proof. unfold after, bind. by destruct (c m) as [[a m']|]. Qed.

Lemma after_mono {A} (c : K A) (Q Q' : A -> machine -> Prop) m :
  after c Q m -> (forall a m', Q a m' -> Q' a m') -> after c Q' m.
Proof. unfold after. destruct (c m) as [[a m']|]; [eauto|done]. Qed.

Lemma after_keeps {A B} (f : lens machine A) (c : K B) m : keeps f c -> after c (fun _ m' => lget f m' = lget f m) m.
Proof. intros H. apply (H m). Qed.

Lemma after_ret {A} (a : A) Q m : Q a m -> after (ret a) Q m.
Proof. done. Qed.

Lemma after_get {A} (f : lens machine A) Q m : Q (lget f m) m -> after (get f) Q m.
Proof. done. Qed.

Lemma after_arr_rd f i Q m :
  (0 <= i < zlen (lget f m) -> Q (zget (lget f m) i) m) -> after (arr_rd f i) Q m.
Proof.
  intros H. unfold after, arr_rd. destruct (_ && _) eqn:E; [|done].
  apply andb_true_iff in E as [?%Z.leb_le ?%Z.ltb_lt]. by apply H.
Qed.

Lemma after_arr_wr f i v Q m :
  (0 <= i < zlen (lget f m) -> Q tt (lset f (zset (lget f m) i v) m)) -> after (arr_wr f i v) Q m.
Proof.
  intros H. unfold after, arr_wr. destruct (_ && _) eqn:E; [|done].
  apply andb_true_iff in E as [?%Z.leb_le ?%Z.ltb_lt]. by apply H.
Qed.
End after.

Section exclusion.
Context `{Cfg : Config} {Disc : Discipline}.
Implicit Types (m : machine).

(** The mutex [k] is [o]'s, and [o] is not the caller. *)
Definition held (self k o : Z) m : Prop :=
  lget active m = self /\ zget (lget lock m) k = o /\ o <> -1 /\ o <> self.
Definition still (k o : Z) {A} (_ : A) m : Prop := zget (lget lock m) k = o.

Lemma held_keeps {A} (c : K A) self k o m : keeps lock c -> held self k o m -> after c (still k o) m.
Proof.
  intros Hc (_ & Hl & _). eapply after_mono; [by apply (after_keeps lock)|].
  intros a m' E. unfold still. by rewrite E.
Qed.

Lemma held_bind {A B} (c : K A) (k' : A -> K B) self k o m :
  keeps lock c -> keeps active c -> held self k o m ->
  (forall a m', held self k o m' -> after (k' a) (still k o) m') -> after (bind c k') (still k o) m.
Proof.
  intros Hl Ha Hh H. apply after_bind. unfold after. specialize (Hl m). specialize (Ha m).
  destruct (c m) as [[a m']|]; [|done]. apply H. unfold held in *. by rewrite Hl, Ha.
Qed.

Lemma held_range base max wq arg body self k o m :
  held self k o m -> (forall j, after (body j) (still k o) m) -> after (obj_range base max wq arg body) (still k o) m.
Proof.
  intros Hh Hb. unfold obj_range. cbv zeta. destruct (_ <=? _); [|apply Hb].
  eapply held_keeps; [|done]. keeps_tac.
Qed.

Lemma held_allocated alloc no arg body self k o m :
  held self k o m -> (forall m', held self k o m' -> after body (still k o) m') ->
  after (obj_allocated alloc no arg body) (still k o) m.
Proof.
  intros Hh Hb. eapply held_bind; [keeps_tac|keeps_tac|done|]. intros b m' Hh'.
  destruct (b =? 0); [|by apply Hb]. eapply held_keeps; [|done]. keeps_tac.
Qed.

(** A caller that is not the owner finds the mutex taken. *)
Lemma lock_held self k o j arg (busy : K unit) m :
  0 <= k -> held self k o m -> keeps lock busy ->
  after (l <- arr_rd lock j;;
         if l =? -1 then arr_wr lock j self;;; arg_wr arg 0 0
         else if l =? self then arg_wr arg 0 THINKOS_EDEADLK else busy)%c (still k o) m.
Proof.
  intros Hk Hh Hbusy. pose proof Hh as (Ha & Hl & Hn & Hs). apply after_bind, after_arr_rd. intros Hj.
  destruct (Z.eqb_spec (zget (lget lock m) j) (-1)) as [E|E].
  - apply after_bind, after_arr_wr. intros _. eapply (held_keeps _ self); [keeps_tac|].
    split; [done|]. split; [|done]. change (zget (zset (lget lock m) j self) k = o).
    rewrite zget_zset_ne; [done| |lia]. intros ->. congruence.
  - destruct (Z.eqb_spec (zget (lget lock m) j) self) as [E2|E2].
    + eapply held_keeps; [keeps_tac|done].
    + by eapply held_keeps.
Qed.

(** Nor can it give away what is not its own. *)
Lemma pass_held self k o j arg (rest : K unit) m :
  0 <= k -> held self k o m ->
  (forall m', held self k o m' -> zget (lget lock m') j = self -> j <> k -> after rest (still k o) m') ->
  after (l <- arr_rd lock j;;
         if negb (l =? self) then arg_wr arg 0 THINKOS_EPERM else rest)%c (still k o) m.
Proof.
  intros Hk Hh Hr. pose proof Hh as (Ha & Hl & Hn & Hs). apply after_bind, after_arr_rd. intros Hj.
  destruct (Z.eqb_spec (zget (lget lock m) j) self) as [E|E]; cbn [negb].
  - apply Hr; [done|done|congruence].
  - eapply held_keeps; [keeps_tac|done].
Qed.

Lemma mutex_pass_held {B} self k o q j (rest : bool -> K B) m :
  0 <= k -> held self k o m -> j <> k -> (forall b, keeps lock (rest b)) ->
  after (w <- mutex_pass q j;; rest w)%c (still k o) m.
Proof.
  intros Hk Hh Hjk Hrest. apply after_bind. unfold mutex_pass.
  assert (forall v, 0 <= j < zlen (lget lock m) ->
    held self k o (lset lock (zset (lget lock m) j v) m)) as Hset.
  { intros v Hj. destruct Hh as (Ha & Hl & Hn & Hs). split; [done|]. split; [|done].
    change (zget (zset (lget lock m) j v) k = o). rewrite zget_zset_ne; [done|congruence|lia]. }
  apply after_bind. apply after_mono with (fun _ m' => m' = m).
  { unfold __thinkos_wq_head. apply after_bind, after_arr_rd. intros _. by apply after_ret. }
  intros th ? ->. destruct (th =? THINKOS_THREAD_NULL).
  - apply after_bind, after_arr_wr. intros Hj. apply after_ret.
    eapply held_keeps; [apply Hrest|]. by apply Hset.
  - apply after_bind, after_arr_wr. intros Hj. apply after_bind.
    apply after_mono with (fun _ m' => held self k o m').
    + pose proof (Hset th Hj) as Hh'. unfold after.
      pose proof (ltac:(keeps_tac) : keeps lock (__thinkos_wakeup q th)) as K1.
      pose proof (ltac:(keeps_tac) : keeps active (__thinkos_wakeup q th)) as K2.
      specialize (K1 (lset lock (zset (lget lock m) j th) m)). specialize (K2 (lset lock (zset (lget lock m) j th) m)).
      destruct (__thinkos_wakeup q th _) as [[a m']|]; [|done]. unfold held in *. by rewrite K1, K2.
    + intros a m' Hh'. apply after_ret. by eapply held_keeps; [apply Hrest|].
Qed.

Ltac held_get :=
  apply after_bind, after_get;
  match goal with H : held ?s _ _ ?m |- _ => rewrite (proj1 H) end.

Lemma mutex_lock_held self k o arg m :
  0 <= k -> held self k o m -> after (thinkos_mutex_lock_svc arg) (still k o) m.
Proof.
  intros Hk Hh. eapply held_bind; [keeps_tac|keeps_tac|done|]. clear m Hh. intros wq m Hh. held_get.
  eapply held_range; [done|]. intros j. eapply held_allocated; [done|]. intros m' Hh'.
  apply lock_held; [done|done|keeps_tac].
Qed.

Lemma mutex_trylock_held self k o arg m :
  0 <= k -> held self k o m -> after (thinkos_mutex_trylock_svc arg) (still k o) m.
Proof.
  intros Hk Hh. eapply held_bind; [keeps_tac|keeps_tac|done|]. clear m Hh. intros wq m Hh. held_get.
  eapply held_range; [done|]. intros j. eapply held_allocated; [done|]. intros m' Hh'.
  apply lock_held; [done|done|keeps_tac].
Qed.

Lemma mutex_timedlock_held self k o arg m :
  0 <= k -> held self k o m -> after (thinkos_mutex_timedlock_svc arg) (still k o) m.
Proof.
  intros Hk Hh. eapply held_bind; [keeps_tac|keeps_tac|done|]. clear m Hh. intros wq m Hh.
  eapply held_bind; [keeps_tac|keeps_tac|done|]. clear m Hh. intros ms m Hh. held_get.
  eapply held_range; [done|]. intros j. eapply held_allocated; [done|]. intros m' Hh'.
  apply lock_held; [done|done|keeps_tac].
Qed.

Lemma mutex_unlock_held self k o arg m :
  0 <= k -> held self k o m -> after (thinkos_mutex_unlock_svc arg) (still k o) m.
Proof.
  intros Hk Hh. eapply held_bind; [keeps_tac|keeps_tac|done|]. clear m Hh. intros wq m Hh. held_get.
  eapply held_range; [done|]. intros j. eapply held_allocated; [done|]. intros m' Hh'.
  eapply pass_held; [done|done|]. intros m2 Hh2 _ Hj.
  eapply mutex_pass_held; [done|done|done|]. intros b. keeps_tac.
Qed.

Lemma cond_wait_held self k o arg m :
  0 <= k -> held self k o m -> after (thinkos_cond_wait_svc arg) (still k o) m.
Proof.
  intros Hk Hh. eapply held_bind; [keeps_tac|keeps_tac|done|]. clear m Hh. intros cwq m Hh.
  eapply held_bind; [keeps_tac|keeps_tac|done|]. clear m Hh. intros mwq m Hh. held_get.
  eapply held_range; [done|]. intros c. eapply held_range; [done|]. intros j.
  eapply held_allocated; [done|]. clear m Hh. intros m Hh. eapply held_allocated; [done|]. intros m' Hh'.
  eapply pass_held; [done|done|]. intros m2 Hh2 _ Hj. eapply held_bind; [keeps_tac|keeps_tac|done|].
  intros [] m3 Hh3. eapply mutex_pass_held; [done|done|done|]. intros b. keeps_tac.
Qed.

Lemma cond_timedwait_held self k o arg m :
  0 <= k -> held self k o m -> after (thinkos_cond_timedwait_svc arg) (still k o) m.
Proof.
  intros Hk Hh. eapply held_bind; [keeps_tac|keeps_tac|done|]. clear m Hh. intros cwq m Hh.
  eapply held_bind; [keeps_tac|keeps_tac|done|]. clear m Hh. intros mwq m Hh.
  eapply held_bind; [keeps_tac|keeps_tac|done|]. clear m Hh. intros ms m Hh. held_get.
  eapply held_range; [done|]. intros j. eapply held_range; [done|]. intros c.
  eapply held_allocated; [done|]. clear m Hh. intros m Hh. eapply held_allocated; [done|]. intros m' Hh'.
  eapply pass_held; [done|done|]. intros m2 Hh2 _ Hj. eapply held_bind; [keeps_tac|keeps_tac|done|].
  intros [] m3 Hh3. eapply mutex_pass_held; [done|done|done|]. intros b. keeps_tac.
Qed.
End exclusion.

Section step.
Context `{Cfg : Config} {Disc : Discipline} `{!ConfigOk Cfg} `{!CoreConfig Cfg}.
Implicit Types (m : machine).

(** A new mutex is one that was not allocated. *)
Lemma mutex_alloc_held self k o arg m :
  Inv (-1) false false m -> 0 <= k -> bget (lget mutex_alloc m) 0 k = true -> held self k o m ->
  after (thinkos_mutex_alloc_svc arg) (still k o) m.
Proof.
  intros HI Hk Hal (_ & Hl & _). unfold after.
  assert (wp (thinkos_mutex_alloc_svc arg) (still k o) m) as Hwp.
  { apply wp_bind, wp_bmp_alloc; [apply HI|apply mutex_bound|kidx|..].
    - intros j Hj [Hf _]. rewrite (proj2 (Z.leb_le 0 j)) by lia.
      assert (j <> k) as Hne by (intros ->; congruence).
      apply wp_bind, wp_arr_wr; [change (0 <= j < zlen (lget lock m)); kidx|]. apply wp_arg_wr.
      change (zget (zset (lget lock m) j (-1)) k = o). rewrite zget_zset_ne; [done|congruence|lia].
    - intros _. by apply wp_arg_wr. }
  unfold wp in Hwp. destruct (thinkos_mutex_alloc_svc arg m) as [[]|]; [exact Hwp|done].
Qed.

Lemma dispatch_held self k o svc arg m :
  Inv (-1) false false m -> 0 <= k -> bget (lget mutex_alloc m) 0 k = true -> held self k o m ->
  after (svc_dispatch svc arg) (still k o) m.
Proof.
  intros HI Hk Hal Hh. destruct (owner_svc svc) eqn:E.
  2:{ eapply held_keeps; [by apply dispatch_keeps_lock|done]. }
  assert (forall b c, after c (still k o) m -> after (svc_if b arg c) (still k o) m) as Hif.
  { intros b c Hc. unfold svc_if. destruct b; [done|]. eapply held_keeps; [keeps_tac|done]. }
  unfold owner_svc, existsb in E.
  repeat (apply orb_true_iff in E as [E|E]; [apply Z.eqb_eq in E; subst svc|]); try discriminate E;
    match goal with |- context [svc_dispatch ?n arg] =>
      let t := eval cbv -[svc_if thinkos_mutex_alloc_svc thinkos_mutex_lock_svc thinkos_mutex_trylock_svc
        thinkos_mutex_timedlock_svc thinkos_mutex_unlock_svc thinkos_cond_wait_svc thinkos_cond_timedwait_svc
        THINKOS_MUTEX_MAX THINKOS_COND_MAX Z.ltb] in (svc_dispatch n arg) in
      change (svc_dispatch n arg) with t end;
    apply Hif.
  - by eapply mutex_alloc_held.
  - by eapply mutex_lock_held.
  - by eapply mutex_trylock_held.
  - by eapply mutex_timedlock_held.
  - by eapply mutex_unlock_held.
  - by eapply cond_wait_held.
  - by eapply cond_timedwait_held.
Qed.

Lemma entry_held k o e m :
  Inv (-1) false false m -> 0 <= k -> bget (lget mutex_alloc m) 0 k = true ->
  zget (lget lock m) k = o -> o <> -1 -> ((exists lr, e = ESvc lr) -> lget active m <> o) ->
  after (run_entry e) (still k o) m.
Proof.
  intros HI Hk Hal Hl Hn Ho.
  assert (forall c : K unit, keeps lock c -> after c (still k o) m) as Hkeep.
  { intros c Hc. eapply after_mono; [by apply (after_keeps lock)|]. intros a m' E. unfold still. by rewrite E. }
  destruct e; simpl.
  - assert (held (lget active m) k o m) as Hh.
    { split; [done|]. split; [done|]. split; [done|]. intros E. by apply Ho; [eauto|]. }
    apply after_bind. apply after_mono with (fun _ m' => m' = m).
    { unfold cm3_svc_stackframe. by destruct (Z.testbit _ _). }
    intros arg ? ->. apply after_bind. apply after_mono with (fun _ m' => m' = m); [done|].
    intros pc ? ->. apply after_bind. apply after_mono with (fun _ m' => m' = m); [done|].
    intros svc ? ->. by eapply dispatch_held.
  - apply Hkeep, exit_keeps_lock.
  - apply Hkeep, pendsv_keeps_lock.
  - apply Hkeep, systick_keeps_lock.
  - apply Hkeep, default_isr_keeps_lock.
  - apply Hkeep, sem_post_i_keeps_lock.
  - apply Hkeep, flag_give_i_keeps_lock.
  - apply Hkeep, flag_set_i_keeps_lock.
  - apply Hkeep, flag_clr_i_keeps_lock.
  - apply Hkeep, ev_raise_i_keeps_lock.
Qed.
End step.
