(* ===== verification/Demo.v ===== *)
(** * Concrete states

    The states the theorems are applied at: the firmware's configuration
    booted, calls put in the running thread's frame, and services run. *)

From S2P Require Import Prelude Arch Config Kernel Rules Inv Mutex Semaphore Cond Event Flag Thread Sched Svc SvcObj System.

#[local] Existing Instance yard_ice_config.

Ltac by_eval := first [exact I | vm_compute; reflexivity].

(** [in_range] proves a closed [a <= x < b]. *)
Ltac in_range := vm_compute; split; [discriminate|reflexivity].

Section demo.
Context {Disc : Discipline}.

(** The state after [c], or the old one if [c] faults. *)
Definition run {A} (c : K A) (m : machine) : machine :=
  match c m with Some (_, m') => m' | None => m end.

Definition ends {A} (o : option A) : bool := match o with Some _ => true | None => false end.

Lemma run_eq (c : K unit) m : ends (c m) = true -> c m = Some (tt, run c m).
Proof. unfold run. destruct (c m) as [[[] m']|]; done. Qed.

(** EXC_RETURN to thread mode on PSP, and the address the calls are made from. *)
Definition LR_PSP := 0xfffffffd.
Definition CODE := 0x08002000.

(** The frame of a call: r0-r3, and the return address behind an [svc]. *)
Definition frame_words (sp svc a0 a1 a2 a3 : Z) (w : gmap Z Z) : gmap Z Z :=
  <[sp := u32 a0]> (<[sp + 4 := u32 a1]> (<[sp + 8 := u32 a2]> (<[sp + 12 := u32 a3]>
    (<[sp + 24 := CODE + 2]> (<[CODE := 0xdf00 + svc]> w))))).

(** The running thread calls: its frame appears at [sp]. *)
Definition user_call (sp svc a0 a1 a2 a3 : Z) (m : machine) : machine :=
  lset psp sp (lset msp (lget msp m) (lset mem (frame_words sp svc a0 a1 a2 a3 (lget mem m)) m)).
Definition call (sp svc a0 a1 a2 a3 : Z) (m : machine) : machine :=
  run (cm3_svc_isr LR_PSP) (user_call sp svc a0 a1 a2 a3 m).

(** The firmware's main thread runs as thread 0. *)
Definition SP0 := 0x20001000.
Definition booted0 : machine := run (thinkos_init 0x00200000) (reset_machine SP0).

Lemma booted0_reachable : reachable booted0.
Proof.
  exists booted0. split; [|apply rtc_refl]. apply (boot_init 0x00200000 SP0 0). vm_compute. reflexivity.
Qed.

Lemma user_call_reachable sp svc a0 a1 a2 a3 m : reachable m -> reachable (user_call sp svc a0 a1 a2 a3 m).
Proof.
  intros (m0 & Hb & Hs). exists m0. split; [done|]. eapply rtc_r; [exact Hs|]. apply step_user.
Qed.

Lemma entry_reachable e m : reachable m -> enabled m e -> ends (run_entry e m) = true ->
  reachable (run (run_entry e) m).
Proof.
  intros (m0 & Hb & Hs) He Hr. exists m0. split; [done|]. eapply rtc_r; [exact Hs|].
  eapply step_entry; [exact He|]. by apply run_eq.
Qed.

(** A caller that frees nothing and sets no semaphore is polite. *)
Definition harmless (svc : Z) : bool :=
  negb (existsb (Z.eqb svc) [THINKOS_MUTEX_FREE; THINKOS_COND_FREE; THINKOS_SEM_FREE; THINKOS_EVENT_FREE;
    THINKOS_FLAG_FREE; THINKOS_SEM_INIT]).

Lemma harmless_polite m svc arg : harmless svc = true -> polite m svc arg.
Proof. intros H. split; intros ->; discriminate H. Qed.

Lemma call_reachable sp svc a0 a1 a2 a3 m :
  reachable m -> lget pendsv m = false -> (0 <=? lget active m) && (lget active m <? THINKOS_THREADS_MAX) = true ->
  harmless (svc_number (user_call sp svc a0 a1 a2 a3 m) sp) = true ->
  ends (cm3_svc_isr LR_PSP (user_call sp svc a0 a1 a2 a3 m)) = true ->
  reachable (call sp svc a0 a1 a2 a3 m).
Proof.
  intros Hr Hp Ha Hh Hrun. apply (entry_reachable (ESvc LR_PSP)); [by apply user_call_reachable| |exact Hrun].
  apply andb_true_iff in Ha as [?%Z.leb_le ?%Z.ltb_lt].
  split; [split; [exact Hp|by split]|]. intros _. by apply harmless_polite.
Qed.

(** ** Two threads and a mutex

    Thread 0 allocates a mutex, starts thread 5 and sleeps for two ticks;
    thread 5 takes the mutex; thread 0 wakes up and wants it too. *)

Definition OPT5 := 0x05000100.                    (* stack of 256 bytes, number 5 *)
Definition s_mutex := call SP0 THINKOS_MUTEX_ALLOC 0 0 0 0 booted0.
Definition s_create := call SP0 THINKOS_THREAD_CREATE 0x08004001 7 0x20003000 OPT5 s_mutex.
Definition s_created := run cm3_pendsv_isr s_create.
Definition s_sleep := call SP0 THINKOS_SLEEP 2 0 0 0 s_created.
(** The stack pointer of thread 5 when it runs. *)
Definition SP5 := 0x200030e0.
Definition s_five := run cm3_pendsv_isr s_sleep.
Definition s_locked := call SP5 THINKOS_MUTEX_LOCK 2 0 0 0 s_five.
Definition s_awake := run cm3_pendsv_isr (run cm3_systick_isr (run cm3_systick_isr s_locked)).
Definition s_wait := call SP0 THINKOS_MUTEX_LOCK 2 0 0 0 s_awake.
Definition s_waits := run cm3_pendsv_isr s_wait.

(** A thread that calls next: it is enabled to, and it is the running one. *)
Definition may_call (sp : Z) (m : machine) : bool :=
  negb (lget pendsv m) && ((0 <=? lget active m) && (lget active m <? THINKOS_THREADS_MAX)) &&
  harmless (svc_number m sp).

Lemma svc_enabled m : may_call (frame_of m LR_PSP) m = true -> enabled m (ESvc LR_PSP).
Proof.
  intros [[Hp%negb_true_iff [?%Z.leb_le ?%Z.ltb_lt]%andb_true_iff]%andb_true_iff Hh]%andb_true_iff.
  split; [split; [exact Hp|by split]|]. intros _. by apply harmless_polite.
Qed.

Lemma running_at m self :
  reachable m -> lget pendsv m = false -> lget active m = self ->
  (0 <=? self) && (self <? THINKOS_THREADS_MAX) = true -> running m self.
Proof.
  intros Hr Hp <- [?%Z.leb_le ?%Z.ltb_lt]%andb_true_iff.
  apply runs_running; [by apply reachable_inv|]. split; [exact Hp|by split].
Qed.

Lemma s_mutex_reachable : reachable s_mutex.
Proof. apply call_reachable; [apply booted0_reachable|by_eval..]. Qed.
Lemma s_create_reachable : reachable s_create.
Proof. apply call_reachable; [apply s_mutex_reachable|by_eval..]. Qed.
Lemma s_created_reachable : reachable s_created.
Proof. apply (entry_reachable EPendSV); [apply s_create_reachable|by_eval..]. Qed.
Lemma s_sleep_reachable : reachable s_sleep.
Proof. apply call_reachable; [apply s_created_reachable|by_eval..]. Qed.
Lemma s_five_reachable : reachable s_five.
Proof. apply (entry_reachable EPendSV); [apply s_sleep_reachable|by_eval..]. Qed.
Lemma s_locked_reachable : reachable s_locked.
Proof. apply call_reachable; [apply s_five_reachable|by_eval..]. Qed.
Lemma s_awake_reachable : reachable s_awake.
Proof.
  apply (entry_reachable EPendSV); [|by_eval..].
  apply (entry_reachable ETick); [|by_eval..].
  apply (entry_reachable ETick); [apply s_locked_reachable|by_eval..].
Qed.
Lemma s_wait_reachable : reachable s_wait.
Proof. apply call_reachable; [apply s_awake_reachable|by_eval..]. Qed.
Lemma s_waits_reachable : reachable s_waits.
Proof. apply (entry_reachable EPendSV); [apply s_wait_reachable|by_eval..]. Qed.

(** Thread 5 is about to give the mutex back. *)
Definition s_unlock := user_call SP5 THINKOS_MUTEX_UNLOCK 2 0 0 0 s_waits.
Lemma s_unlock_reachable : reachable s_unlock.
Proof. apply user_call_reachable, s_waits_reachable. Qed.

(** ** A semaphore and an interrupt *)

(** Thread 5 runs, thread 0 has allocated a semaphore and waits for it. *)
Definition s_sem := call SP0 THINKOS_SEM_ALLOC 0 0 0 0 s_created.
Definition s_sem_no := load (lget mem s_sem) SP0.
Definition s_sem_waits := run cm3_pendsv_isr (call SP0 THINKOS_SEM_WAIT s_sem_no 0 0 0 s_sem).

(** Thread 0 waits for interrupt 3. *)
Definition s_irq := run cm3_pendsv_isr (call SP0 THINKOS_IRQ_WAIT 3 0 0 0 s_created).

Lemma s_sem_reachable : reachable s_sem.
Proof. apply call_reachable; [apply s_created_reachable|by_eval..]. Qed.
Lemma s_sem_waits_reachable : reachable s_sem_waits.
Proof.
  apply (entry_reachable EPendSV); [|by_eval..].
  apply call_reachable; [apply s_sem_reachable|by_eval..].
Qed.
Lemma s_irq_reachable : reachable s_irq.
Proof.
  apply (entry_reachable EPendSV); [|by_eval..].
  apply call_reachable; [apply s_created_reachable|by_eval..].
Qed.
End demo.
