(* ===== verification/KernelThms.v ===== *)
(** * Theorems about the kernel as a whole

    Safety, scheduling, exclusion, time and start-up, for every interleaving of
    kernel entries and every core configuration; each is applied at a state of
    [Demo.v] afterwards. *)

From S2P Require Import Prelude Arch Config Kernel Rules Inv InvOps InvObj Mutex Semaphore Cond Event Flag Thread Sched Svc.
From S2P Require Import Steps SvcObj SvcThread SvcTick SvcInit System Spec MutexSpec MutexExcl Demo.

Section kernel.
Context `{Cfg : Config} {Disc : Discipline} `{!ConfigOk Cfg} `{!CoreConfig Cfg}.
Implicit Types (m : machine).

(** The scheduling order as sets: what runs when PendSV is not pending. *)
Lemma ready_first m :
  Inv (-1) false false m -> lget pendsv m = false ->
  (lget active m = THINKOS_THREAD_IDLE /\ ready_set m = ∅) \/ first_of (lget active m) (ready_set m).
Proof.
  intros HI Hp. pose proof (s_first _ _ (inv_s HI) eq_refl Hp) as Hf.
  pose proof (s_active _ _ (inv_s HI)) as Ha. pose proof threads_bound.
  assert (forall j, is_thread j -> ready m j = true -> lget active m <= j) as Hle.
  { intros j Hj Hrj. rewrite Hf. destruct (Z_le_gt_dec (ffs (zget (lget wq_lst m) THINKOS_WQ_READY)) j); [done|].
    assert (0 <= j < ffs (zget (lget wq_lst m) THINKOS_WQ_READY)) as Hlt by (unfold is_thread in Hj; lia).
    apply head_least in Hlt. unfold ready in Hrj. congruence. }
  destruct (decide (0 <= lget active m < THINKOS_THREADS_MAX)) as [Ht|Ht].
  - right. pose proof (run_ready (runs_running _ HI (conj Hp Ht))) as Hra.
    split; [by apply elem_of_threads_in|]. intros j [Hj Hrj]%elem_of_threads_in. by apply Hle.
  - left. assert (lget active m = THINKOS_THREADS_MAX) as E by lia.
    split; [done|]. apply set_eq. intros j. split; [|set_solver].
    intros [Hj Hrj]%elem_of_threads_in. specialize (Hle j Hj Hrj). unfold is_thread in Hj. lia.
Qed.

Definition st_sleep (self clk : Z) m : machine := st_defer (st_unready self (st_clock_insert self clk m)).

Lemma wp_sleep m self arg :
  running m self ->
  wp (thinkos_sleep_svc arg)
    (fun _ m' => m' = st_sleep self (u32 (lget ticks m + load (lget mem m) arg)) m) m.
Proof.
  intros Hrun. pose proof (inv_shape (run_inv Hrun)) as Hsh. pose proof (run_thread Hrun) as Ht.
  pose proof (thread_range _ Ht) as H32. pose proof wq_clock_range.
  apply wp_bind, wp_arg_rd, wp_bind, wp_get, wp_bind, wp_get. rewrite (run_active Hrun), arg0.
  apply wp_bind, wp_arr_wr_st; [kidx|]. set (clk := u32 _).
  assert (shape (st_arr clock self clk m)) as Hs1 by (unfold st_arr; solve_shape).
  apply wp_bind, wp_wq_bit; [done|lia|lia|]. intros Hs2. apply wp_bind, wp_th_stat; [done|done|]. intros Hs3.
  apply wp_wait; [done|done|]. done.
Qed.

Lemma sleep_queues m self clk :
  shape m -> is_thread self ->
  ready_set (st_sleep self clk m) = ready_set m ∖ {[self]} /\ self ∈ waiters (st_sleep self clk m) THINKOS_WQ_CLOCK.
Proof.
  intros Hsh Ht. pose proof (thread_range _ Ht) as H32. pose proof wq_clock_range. pose proof wq_ready_range.
  assert (shape (st_arr clock self clk m)) as Hs1 by (unfold st_arr; solve_shape).
  assert (forall q t, 0 <= t < 32 -> qbit (st_sleep self clk m) q t =
    if decide (THINKOS_WQ_READY = q /\ self = t) then false
    else if decide (THINKOS_WQ_CLOCK = q /\ self = t) then true else qbit m q t) as Hb.
  { intros q t Ht'. change (qbit (st_sleep self clk m) q t) with
      (qbit (st_bit wq_lst THINKOS_WQ_READY self false (st_bit wq_lst THINKOS_WQ_CLOCK self true (st_arr clock self clk m))) q t).
    rewrite !qbit_bit by (eauto using shape_bit_wq). done. }
  pose proof (wait_not_ready _ clock_wait_wq). split.
  - apply (waiters_del m _ THINKOS_WQ_READY). intros t Ht'. rewrite Hb by (by apply thread_range).
    destruct (decide (t = self)) as [->|]; [by rewrite decide_True|].
    by rewrite !decide_False by (intros [_ ?]; congruence).
  - apply elem_of_threads_in. split; [done|]. rewrite Hb by done.
    rewrite decide_False by (intros [? _]; congruence). by rewrite decide_True.
Qed.

(** The comparison the tick makes, for a deadline [ms] ticks away of which [j]
    have been counted. *)
Lemma sleep_due m m2 self ms j :
  0 <= ms < 2 ^ 31 -> 0 <= j < 2 ^ 31 - 1 -> qbit m2 THINKOS_WQ_CLOCK self = true ->
  zget (lget clock m2) self = u32 (lget ticks m + ms) -> lget ticks m2 = u32 (lget ticks m + j) ->
  tick_due m2 self = (ms <=? j + 1).
Proof.
  intros Hms Hj Hq Hclk Htk. unfold tick_due, due. rewrite Hq, Hclk, Htk. cbn [andb].
  replace (u32 (u32 (lget ticks m + j) + 1)) with (u32 (lget ticks m + (j + 1)))
    by (unfold u32, wrap; rewrite Zplus_mod_idemp_l; f_equal; lia).
  rewrite s32_sub_u32. replace (lget ticks m + ms - (lget ticks m + (j + 1))) with (ms - (j + 1)) by lia.
  rewrite s32_small by lia. destruct (Z.leb_spec (ms - (j + 1)) 0), (Z.leb_spec ms (j + 1)); (done || lia).
Qed.

(** What a tick does to a thread in the clock queue. *)
Lemma tick_decides m self :
  Inv (-1) false false m -> is_thread self -> qbit m THINKOS_WQ_CLOCK self = true ->
  exists m', cm3_systick_isr m = Some (tt, m') /\
    (if tick_due m self then self ∈ ready_set m' /\ self ∉ waiters m' THINKOS_WQ_CLOCK
     else ((self ∉ ready_set m') /\ self ∈ waiters m' THINKOS_WQ_CLOCK)).
Proof.
  intros HI Ht Hq. destruct (wp_some _ _ _ (systick_spec m HI)) as ([] & m' & E & HI' & [Hb _ _] & _).
  exists m'. split; [done|]. pose proof (thread_range _ Ht) as H32. pose proof (wait_not_ready _ clock_wait_wq).
  assert (forall q, qbit m' q self = _) as Hb' by (intros q; exact (Hb q self H32)). clear Hb.
  assert (ready m self = false) as Hr.
  { destruct (ready m self) eqn:Hr; [|done]. destruct (q_excl _ _ (inv_q HI) self Ht) as [_ Hn];
      [unfold is_thread in Ht; lia|done|]. rewrite Hn in Hq; [done|apply clock_wait_wq]. }
  destruct (tick_due m self); (split; [|]); unfold ready_set, waiters; rewrite elem_of_threads_in; unfold ready; rewrite Hb'.
  - split; [done|]. by rewrite decide_True.
  - rewrite decide_False by done. rewrite decide_True by auto. by intros [_ ?].
  - change (~ (is_thread self /\ ready m self = true)). rewrite Hr. by intros [_ ?].
  - by split.
Qed.

(** C1. The kernel never faults: whatever has happened since the start, and
    whatever the threads call with whatever arguments, every service call,
    exception and interrupt-side call that can occur next runs to its end
    without an access outside an array of the run-time block and without
    exhausting a loop, into a reachable state with interrupts enabled again.
    (What a thread's own pointers reach, its frame, a new thread's stack, the
    buffer of a snapshot, is memory apart from the run-time block. Interrupt
    handlers call with the number of an object of the class, allocated or not,
    and an event below 32: these calls check nothing.) *)
Theorem kernel_never_faults m e :
  reachable m -> enabled m e ->
  exists m', run_entry e m = Some (tt, m') /\ reachable m' /\ lget primask m' = false.
Proof.
  intros Hr He. destruct (wp_some _ _ _ (entry_inv m e (reachable_inv _ Hr) He)) as ([] & m' & E & HI).
  exists m'. split; [done|]. split; [|apply HI]. destruct Hr as (m0 & Hb & Hs).
  exists m0. split; [done|]. eapply rtc_r; [exact Hs|]. by eapply step_entry.
Qed.

(** C2. No lost wake-up, as long as thread code is polite: when threads never
    free an object, and never set a semaphore to a positive value, while other
    threads wait for it, then in every state the kernel reaches a thread that
    waits on an object has a reason to. The mutex has another owner, the
    semaphore is zero, no enabled event is pending, the flag is clear or
    locked; and the object is allocated. (The kernel does not check politeness,
    and without it wake-ups are lost: [sem_init_loses_wakeup] and
    [free_strands_waiter].) *)
Theorem blocked_with_reason m q th :
  reachable (Disc := polite_callers) m -> obj_wq q -> th ∈ waiters m q -> can_wait m q th.
Proof.
  intros Hr Hq [Hth Hb]%elem_of_threads_in. by apply (inv_o (reachable_inv _ Hr)).
Qed.

(** C3. Strict priorities: when the scheduler is not pending, the thread that
    runs is the lowest-numbered ready one, or the idle thread if none is. *)
Theorem highest_priority_runs m :
  reachable m -> lget pendsv m = false ->
  (lget active m = THINKOS_THREAD_IDLE /\ ready_set m = ∅) \/ first_of (lget active m) (ready_set m).
Proof.
  intros Hr Hp. apply ready_first; [by apply reachable_inv|done].
Qed.

(** C6. A thread is in one place. Either it is ready, has no wait status and
    is in no wait queue; or it is not ready, its status names a wait queue, and
    it is in that queue, in the clock queue if the low bit of the status says
    so, and in no other; or it is not ready and in no queue at all. A free
    number is in the third place. (An allocated number in the third place is a
    thread that waits for an interrupt, or the number a failed creation has
    kept.) *)
Theorem thread_in_one_place m th :
  reachable m -> is_thread th ->
  ((ready m th = true /\ stat m th = 0 /\ forall q, wait_wq q -> th ∉ waiters m q) \/
   (ready m th = false /\ wait_wq (stat m th / 2) /\
    forall q, wait_wq q -> th ∈ waiters m q <->
      q = stat m th / 2 \/ (q = THINKOS_WQ_CLOCK /\ Z.odd (stat m th) = true)) \/
   (ready m th = false /\ stat m th = 0 /\ forall q, wait_wq q -> th ∉ waiters m q)) /\
  (bget (lget th_alloc m) 0 th = false ->
   ready m th = false /\ stat m th = 0 /\ forall q, wait_wq q -> th ∉ waiters m q).
Proof.
  intros Hr Hth. pose proof (inv_q (reachable_inv _ Hr)) as HQ. destruct (q_in _ _ HQ th Hth) as [Hin Hclk].
  assert (forall q, qbit m q th = false -> th ∉ waiters m q) as Hout.
  { intros q E [_ E']%elem_of_threads_in. congruence. }
  assert (forall q, wait_wq q -> qbit m q th = true -> q = stat m th / 2 \/ q = THINKOS_WQ_CLOCK) as Hq.
  { intros q Hq Hb. destruct (decide (q = THINKOS_WQ_CLOCK)); [by right|left].
    symmetry. apply (q_stat _ _ HQ); [|done..]. unfold wait_wq, obj_wq in *. pose proof layout_order. lia. }
  split; [destruct (ready m th) eqn:Hrd; [left|right; destruct (decide (stat m th = 0)) as [E|E]; [right|left]]|].
  - destruct (q_excl _ _ HQ th Hth) as [Hs Hn]; [unfold is_thread in Hth; lia|done|]. auto.
  - split; [done|]. split; [done|]. intros q Hw. apply Hout. destruct (qbit m q th) eqn:Hb; [|done].
    rewrite E in Hclk, Hq. destruct (Hq q Hw Hb) as [-> | ->]; [|by rewrite Hclk in Hb].
    by destruct (wait_not_ready _ Hw).
  - destruct (q_stat_range _ _ HQ th Hth) as [?|Hw]; [done|]. split; [done|]. split; [done|]. intros q Hwq. split.
    + intros [_ Hb]%elem_of_threads_in. destruct (Hq q Hwq Hb) as [?| ->]; [by left|right]. by rewrite <-Hclk.
    + intros [->|[-> Ho]]; apply elem_of_threads_in; (split; [done|]); [by apply Hin|by rewrite Hclk].
  - intros Ha. destruct (q_alloc _ _ HQ th Hth Ha) as [Hs Hn]. split; [apply Hn, wq_ready_range|].
    split; [done|]. intros q Hw. by apply Hout, Hn, wait_wq_range.
Qed.

(** C7. Mutual exclusion: an allocated mutex passes from its owner only in a
    service the owner itself calls, whatever other threads, interrupts and
    timeouts do. *)
Theorem mutex_exclusion m e m' k o :
  reachable m -> enabled m e -> run_entry e m = Some (tt, m') ->
  0 <= k < THINKOS_MUTEX_MAX -> bget (lget mutex_alloc m) 0 k = true ->
  owner m k = Some o -> owner m' k <> Some o ->
  (exists lr, e = ESvc lr) /\ lget active m = o.
Proof.
  intros Hr He Hrun Hk Hal Ho Hch.
  assert (zget (lget lock m) k = o /\ o <> -1) as [Hl Hn].
  { unfold owner in Ho. destruct (Z.eqb_spec (zget (lget lock m) k) (-1)); [done|]. by injection Ho as <-. }
  assert ((exists lr, e = ESvc lr) \/ ~ exists lr, e = ESvc lr) as Hd.
  { destruct e; [left; eauto|right; intros [? ?]; discriminate..]. }
  destruct (decide (lget active m = o)) as [Hao|Hao], Hd as [Hd|Hd]; [done|exfalso; apply Hch..].
  all: pose proof (entry_held k o e m (reachable_inv _ Hr) ltac:(lia) Hal Hl Hn ltac:(tauto)) as H;
    unfold after in H; rewrite Hrun in H; unfold still in H; unfold owner; rewrite H, (proj2 (Z.eqb_neq _ _) Hn); reflexivity.
Qed.

(** C10. SysTick: the tick counter advances by one modulo 2^32, and exactly
    the threads whose deadline has come leave their wait queue and the clock
    queue and become ready; every other thread, and everything else in the
    run-time block, is as before; the scheduler is asked for iff some wait
    ended. *)
Theorem systick_exact m :
  reachable m ->
  exists m', cm3_systick_isr m = Some (tt, m') /\
    expired (tick_due m) (lset ticks (u32 (lget ticks m + 1)) m) (lset pendsv (lget pendsv m) m') /\
    (lget pendsv m' = true <-> lget pendsv m = true \/ exists t, 0 <= t < 32 /\ tick_due m t = true).
Proof.
  intros Hr. destruct (wp_some _ _ _ (systick_spec m (reachable_inv _ Hr))) as ([] & m' & E & _ & H). eauto.
Qed.

(** C11. Sleeping for [ms] ticks, for counts below 2^31: the caller leaves the
    ready queue for the clock queue. In any later state in which it is still
    there with that deadline and [j] ticks have been counted, fewer than
    2^31 - 1, the next tick makes it ready if it is the [ms]-th one or a later
    one, and otherwise leaves it in the clock queue, not ready; also when the
    32-bit counter wraps around in between. *)
Theorem sleep_until_deadline m self arg ms :
  running m self -> load (lget mem m) arg = ms -> ms < 2 ^ 31 ->
  exists m', thinkos_sleep_svc arg m = Some (tt, m') /\
    ready_set m' = ready_set m ∖ {[self]} /\ self ∈ waiters m' THINKOS_WQ_CLOCK /\
    forall m2 j, reachable m2 -> 0 <= j < 2 ^ 31 - 1 -> self ∈ waiters m2 THINKOS_WQ_CLOCK ->
      zget (lget clock m2) self = zget (lget clock m') self -> lget ticks m2 = u32 (lget ticks m + j) ->
      exists m3, cm3_systick_isr m2 = Some (tt, m3) /\
        (if ms <=? j + 1 then self ∈ ready_set m3 /\ self ∉ waiters m3 THINKOS_WQ_CLOCK
         else ((self ∉ ready_set m3) /\ self ∈ waiters m3 THINKOS_WQ_CLOCK)).
Proof.
  intros Hrun Ems Hms. assert (0 <= ms) as Hms0 by (rewrite <-Ems; apply load_bound).
  destruct (wp_some _ _ _ (wp_sleep m self arg Hrun)) as ([] & m' & E & ->). rewrite Ems in E.
  pose proof (inv_shape (run_inv Hrun)) as Hsh. pose proof (run_thread Hrun) as Ht.
  pose proof (thread_range _ Ht) as H32. eexists. split; [exact E|].
  destruct (sleep_queues m self (u32 (lget ticks m + ms)) Hsh Ht) as [Hr Hc]. split; [done|]. split; [done|].
  intros m2 j Hr2 Hj [_ Hq]%elem_of_threads_in Hclk Htk.
  change (lget clock (st_sleep self (u32 (lget ticks m + ms)) m)) with (zset (lget clock m) self (u32 (lget ticks m + ms))) in Hclk.
  rewrite zget_zset_eq in Hclk by kidx. rewrite <-(sleep_due m m2 self ms j) by (done || lia).
  apply reachable_inv in Hr2. by apply tick_decides.
Qed.

(** C19. PendSV saves the context of the running thread under its number and
    resumes the first ready thread, or the idle one, from the context saved
    under its number. *)
Theorem pendsv_switches m :
  reachable m ->
  exists m', cm3_pendsv_isr m = Some (tt, m') /\ lget pendsv m' = false /\
    lget ctx m' = zset (lget ctx m) (lget active m) (lget psp m - 32) /\
    lget psp m' = zget (lget ctx m') (lget active m') + 32 /\
    ready_set m' = ready_set m /\
    ((lget active m' = THINKOS_THREAD_IDLE /\ ready_set m = ∅) \/ first_of (lget active m') (ready_set m)).
Proof.
  intros Hr. apply reachable_inv in Hr as HI.
  destruct (wp_some _ _ _ (pendsv_inv m HI)) as ([] & m' & E & HI' & Hp & Ha & Hw & Hc & Hps).
  exists m'. split; [done|]. split; [done|]. split; [done|]. split; [done|].
  assert (ready_set m' = ready_set m) as Er by (apply ready_ext; intros; unfold ready, qbit; by rewrite Hw).
  split; [done|]. rewrite <-Er. apply ready_first; [done|done].
Qed.

(** C20. Start-up: [thinkos_init] ends for every option word, and leaves its
    caller as the only ready thread, allocated, running, with no scheduler
    pending and interrupts enabled. *)
Theorem init_starts_caller opt sp :
  exists self m, thinkos_init opt (reset_machine sp) = Some (self, m) /\
    ready_set m = {[self]} /\ lget active m = self /\ bget (lget th_alloc m) 0 self = true /\
    lget pendsv m = false /\ lget primask m = false /\ (forall q, wait_wq q -> waiters m q = ∅).
Proof.
  destruct (wp_some _ _ _ (init_booted opt sp)) as (self & m & E & [Hsh Hs Ha Hw Hb Hst HA Hal Hi Hpm Hps]).
  exists self, m. split; [done|]. pose proof threads_bound. split; [|split; [done|split; [done|split; [done|split; [done|]]]]].
  - apply set_eq. intros t. rewrite elem_of_singleton. unfold ready_set. rewrite elem_of_threads_in. unfold ready.
    split.
    + intros [Ht E']. rewrite Hb in E' by (eauto using thread_range; apply wq_ready_range).
      apply bool_decide_eq_true in E' as [_ [?|?]]; [done|]. unfold is_thread in Ht. lia.
    + intros ->. split; [done|]. rewrite Hb by (eauto using thread_range; apply wq_ready_range).
      apply bool_decide_true. auto.
  - intros q Hq. apply waiters_none. intros t Ht. rewrite Hb by (eauto using wait_wq_range, thread_range).
    apply bool_decide_false. intros [E' _]. by destruct (wait_not_ready _ Hq).
Qed.
End kernel.

(** ** The theorems at concrete states *)

#[local] Existing Instance yard_ice_config.
#[local] Existing Instance any_caller.

Lemma kernel_never_faults_witness :
  exists m', run_entry (ESvc LR_PSP) s_unlock = Some (tt, m') /\ reachable m' /\ lget primask m' = false.
Proof. apply kernel_never_faults; [apply s_unlock_reachable|apply svc_enabled; by_eval]. Defined.

Lemma blocked_with_reason_witness : can_wait s_waits 2 0.
Proof.
  apply blocked_with_reason; [apply s_waits_reachable|in_range|].
  apply elem_of_threads_in. split; [in_range|by_eval].
Defined.

Lemma highest_priority_runs_witness :
  (lget active s_waits = THINKOS_THREAD_IDLE /\ ready_set s_waits = ∅) \/ first_of (lget active s_waits) (ready_set s_waits).
Proof. apply highest_priority_runs; [apply s_waits_reachable|by_eval]. Defined.

Lemma thread_in_one_place_witness :
  0 ∈ waiters s_waits 2 /\
  ((ready s_waits 0 = true /\ stat s_waits 0 = 0 /\ forall q, wait_wq q -> 0 ∉ waiters s_waits q) \/
   (ready s_waits 0 = false /\ wait_wq (stat s_waits 0 / 2) /\
    forall q, wait_wq q -> 0 ∈ waiters s_waits q <->
      q = stat s_waits 0 / 2 \/ (q = THINKOS_WQ_CLOCK /\ Z.odd (stat s_waits 0) = true)) \/
   (ready s_waits 0 = false /\ stat s_waits 0 = 0 /\ forall q, wait_wq q -> 0 ∉ waiters s_waits q)) /\
  (bget (lget th_alloc s_waits) 0 0 = false ->
   ready s_waits 0 = false /\ stat s_waits 0 = 0 /\ forall q, wait_wq q -> 0 ∉ waiters s_waits q).
Proof.
  split; [apply elem_of_threads_in; split; [in_range|by_eval]|].
  apply thread_in_one_place; [apply s_waits_reachable|in_range].
Defined.

(** Thread 5 gives the mutex to thread 0. *)
Lemma mutex_exclusion_witness :
  owner s_unlock 0 = Some 5 /\ owner (run (cm3_svc_isr LR_PSP) s_unlock) 0 = Some 0 /\
  (exists lr, ESvc LR_PSP = ESvc lr) /\ lget active s_unlock = 5.
Proof.
  split; [by_eval|]. split; [by_eval|].
  apply (mutex_exclusion _ _ (run (cm3_svc_isr LR_PSP) s_unlock) 0);
    [apply s_unlock_reachable|apply svc_enabled; by_eval|apply (run_eq (cm3_svc_isr LR_PSP)); by_eval|in_range|by_eval..|].
  vm_compute. discriminate.
Defined.

Lemma systick_exact_witness :
  exists m', cm3_systick_isr s_locked = Some (tt, m') /\
    expired (tick_due s_locked) (lset ticks (u32 (lget ticks s_locked + 1)) s_locked) (lset pendsv (lget pendsv s_locked) m') /\
    (lget pendsv m' = true <-> lget pendsv s_locked = true \/ exists t, 0 <= t < 32 /\ tick_due s_locked t = true).
Proof. apply systick_exact, s_locked_reachable. Defined.

(** Two ticks after the call thread 0 is ready, one tick after it it is not. *)
Lemma sleep_until_deadline_witness :
  let m := user_call SP0 THINKOS_SLEEP 2 0 0 0 s_created in
  exists m', thinkos_sleep_svc SP0 m = Some (tt, m') /\
    ready_set m' = ready_set m ∖ {[0]} /\ 0 ∈ waiters m' THINKOS_WQ_CLOCK /\
    forall m2 j, reachable m2 -> 0 <= j < 2 ^ 31 - 1 -> 0 ∈ waiters m2 THINKOS_WQ_CLOCK ->
      zget (lget clock m2) 0 = zget (lget clock m') 0 -> lget ticks m2 = u32 (lget ticks m + j) ->
      exists m3, cm3_systick_isr m2 = Some (tt, m3) /\
        (if 2 <=? j + 1 then 0 ∈ ready_set m3 /\ 0 ∉ waiters m3 THINKOS_WQ_CLOCK
         else ((0 ∉ ready_set m3) /\ 0 ∈ waiters m3 THINKOS_WQ_CLOCK)).
Proof.
  apply sleep_until_deadline; [|by_eval|reflexivity].
  apply running_at; [apply user_call_reachable, s_created_reachable|by_eval..].
Defined.

Lemma pendsv_switches_witness :
  exists m', cm3_pendsv_isr s_wait = Some (tt, m') /\ lget pendsv m' = false /\
    lget ctx m' = zset (lget ctx s_wait) (lget active s_wait) (lget psp s_wait - 32) /\
    lget psp m' = zget (lget ctx m') (lget active m') + 32 /\
    ready_set m' = ready_set s_wait /\
    ((lget active m' = THINKOS_THREAD_IDLE /\ ready_set s_wait = ∅) \/ first_of (lget active m') (ready_set s_wait)).
Proof. apply pendsv_switches, s_wait_reachable. Defined.

Lemma init_starts_caller_witness :
  exists self m, thinkos_init 0x00200000 (reset_machine SP0) = Some (self, m) /\
    ready_set m = {[self]} /\ lget active m = self /\ bget (lget th_alloc m) 0 self = true /\
    lget pendsv m = false /\ lget primask m = false /\ (forall q, wait_wq q -> waiters m q = ∅).
Proof. apply init_starts_caller. Defined.
