(* ===== verification/SvcThms.v ===== *)
(** * Theorems about the services

    Mutexes and semaphores implement their abstract specifications; allocation,
    thread creation, interrupt waits and the error results of every service. *)

From S2P Require Import Prelude Arch Config Kernel Rules Inv InvOps InvObj Mutex Semaphore Cond Event Flag Thread Sched Svc.
From S2P Require Import Steps SvcObj SvcSync SvcThread System Spec MutexSpec SemSpec Demo.

Section services.
Context `{Cfg : Config} {Disc : Discipline} `{!ConfigOk Cfg} `{!CoreConfig Cfg}.
Implicit Types (m : machine).

(** C12. Mutexes refine their specification: each of the four operations ends,
    does one step of the abstract mutex (free or owned, with a set of
    waiters, handed to the first waiter on release) with that step's effect
    on the ready queue, the wait queues, the clock and the result register,
    and leaves the owners of the other mutexes alone; and no other step is
    possible. *)
Theorem mutex_refines op m self arg k :
  running m self -> mutex_call m op arg k ->
  exists m' e, mutex_svc op arg m = Some (tt, m') /\
    am_step self op (mutex_view m k) e (mutex_view m' k) /\
    has_effect self arg (THINKOS_MUTEX_BASE + k) m m' e /\ other_owners m m' k /\
    forall e2 s2, am_step self op (mutex_view m k) e2 s2 -> e2 = e /\ s2 = mutex_view m' k.
Proof.
  intros Hrun Hcall.
  assert (wp (mutex_svc op arg) (mutex_post op self arg k m) m) as Hwp.
  { destruct op; [by apply mutex_lock_ok|by apply mutex_trylock_ok|by apply mutex_timedlock_ok|by apply mutex_unlock_ok]. }
  destruct (wp_some _ _ _ Hwp) as ([] & m' & E & e & Hs & He & Ho). exists m', e.
  repeat split; try done; by destruct (am_step_det _ _ _ _ _ _ _ Hs ltac:(eassumption)).
Qed.

(** C13. Semaphores refine their specification: a wait takes a token or
    blocks, a try-wait or timed wait reports what the specification says, a
    post gives its token to the first waiter or, when there is none, to the
    counter (modulo 2^32), and no other semaphore changes. *)
Theorem sem_refines op m self arg k :
  running m self -> sem_call m op arg k ->
  exists m' e, sem_svc op arg m = Some (tt, m') /\
    as_step self op (sem_view m k) e (sem_view m' k) /\
    has_effect self arg (THINKOS_SEM_BASE + k) m m' e /\ other_values m m' k /\
    forall e2 s2, as_step self op (sem_view m k) e2 s2 -> e2 = e /\ s2 = sem_view m' k.
Proof.
  intros Hrun Hcall.
  assert (wp (sem_svc op arg) (sem_post op self arg k m) m) as Hwp.
  { destruct op; [by apply sem_wait_ok|by apply sem_trywait_ok|by apply sem_timedwait_ok|by apply sem_post_ok]. }
  destruct (wp_some _ _ _ Hwp) as ([] & m' & E & e & Hs & He & Ho). exists m', e.
  repeat split; try done; by destruct (as_step_det _ _ _ _ _ _ _ Hs ltac:(eassumption)).
Qed.

(** A post from an interrupt handler loses no token either: it is added
    to the counter when nobody waits and otherwise makes the first waiter
    ready, and PRIMASK is as before. *)
Theorem sem_post_i_refines m k :
  reachable m -> 0 <= k < THINKOS_SEMAPHORE_MAX ->
  exists m', thinkos_sem_post_i (THINKOS_SEM_BASE + k) m = Some (tt, m') /\ sem_post_i_post k m tt m'.
Proof.
  intros Hr Hk. destruct (wp_some _ _ _ (sem_post_i_ok m k (reachable_inv _ Hr) Hk)) as ([] & m' & E & H). eauto.
Qed.

(** ** Classes of kernel objects *)

Inductive kclass := KMutex | KCond | KSem | KEvent | KFlag.

Definition class_base (c : kclass) : Z :=
  match c with
  | KMutex => THINKOS_MUTEX_BASE | KCond => THINKOS_COND_BASE | KSem => THINKOS_SEM_BASE
  | KEvent => THINKOS_EVENT_BASE | KFlag => THINKOS_FLAG_BASE
  end.
Definition class_max (c : kclass) : Z :=
  match c with
  | KMutex => THINKOS_MUTEX_MAX | KCond => THINKOS_COND_MAX | KSem => THINKOS_SEMAPHORE_MAX
  | KEvent => THINKOS_EVENT_MAX | KFlag => THINKOS_FLAG_MAX
  end.
Definition class_bmp (c : kclass) : lens machine (list Z) :=
  match c with
  | KMutex => mutex_alloc | KCond => cond_alloc | KSem => sem_alloc | KEvent => ev_alloc | KFlag => flag_alloc
  end.
Definition alloc_svc (c : kclass) : Z -> K unit :=
  match c with
  | KMutex => thinkos_mutex_alloc_svc | KCond => thinkos_cond_alloc_svc | KSem => thinkos_sem_alloc_svc
  | KEvent => thinkos_ev_alloc_svc | KFlag => thinkos_flag_alloc_svc
  end.

Lemma class_facts c m : Inv (-1) false false m ->
  bmp_ok (lget (class_bmp c) m) (class_max c) /\ 0 <= class_max c /\
  zlen (lget (class_bmp c) m) = bmp_words (class_max c) /\
  0 <= class_base c /\ class_base c + class_max c <= 128.
Proof.
  intros HI. pose proof bases_bound. pose proof mutex_bound. pose proof cond_bound. pose proof sem_bound.
  pose proof event_bound. pose proof flag_bound.
  destruct c; cbn [class_bmp class_max class_base]; (split; [apply HI|]); (split; [done|]); (split; [kidx|lia]).
Qed.

(** What an allocation leaves: the lowest free number is taken and returned,
    or there is none and -1 is. *)
Definition alloc_post (c : kclass) (arg : Z) m (_ : unit) m' : Prop :=
  (exists k, 0 <= k < class_max c /\ bmp_free (lget (class_bmp c) m) k /\
     load (lget mem m') arg = class_base c + k /\
     forall j, 0 <= j < class_max c ->
       bget (lget (class_bmp c) m') 0 j = if decide (j = k) then true else bget (lget (class_bmp c) m) 0 j)
  \/ ((forall k, 0 <= k < class_max c -> bget (lget (class_bmp c) m) 0 k = true) /\
     lget (class_bmp c) m' = lget (class_bmp c) m /\ load (lget mem m') arg = u32 (-1)).

Lemma alloc_post_some c arg m m' k :
  Inv (-1) false false m -> 0 <= k < class_max c -> bmp_free (lget (class_bmp c) m) k ->
  lget (class_bmp c) m' = bset (lget (class_bmp c) m) 0 k true ->
  load (lget mem m') arg = u32 (k + class_base c) -> alloc_post c arg m tt m'.
Proof.
  intros HI Hk Hf Eb El. destruct (class_facts c m HI) as (_ & Hm & Hl & Hb & Hbm). left. exists k.
  split; [done|]. split; [done|]. split; [rewrite El, u32_small by lia; lia|].
  intros j Hj. rewrite Eb, bget_bset_base by (rewrite Hl; unfold bmp_words; lia).
  destruct (decide (k = j)), (decide (j = k)); congruence.
Qed.

Lemma alloc_lowest_wp c m self arg : running m self -> wp (alloc_svc c arg) (alloc_post c arg m) m.
Proof.
  intros [HI _ _ _]. destruct (class_facts c m HI) as (Hok & Hm & Hl & _).
  assert (forall m', (forall k, 0 <= k < class_max c -> bget (lget (class_bmp c) m) 0 k = true) ->
    lget (class_bmp c) m' = lget (class_bmp c) m -> load (lget mem m') arg = u32 (-1) -> alloc_post c arg m tt m') as Hnone.
  { intros m' H1 H2 H3. by right. }
  destruct c; cbn [alloc_svc]; [| |apply wp_bind, wp_arg_rd| |];
    (apply wp_bind, wp_bmp_alloc; [exact Hok|exact Hm|exact Hl| |]);
    try (intros Hall; change (0 <=? -1) with false; cbn [negb]; apply wp_arg_wr; apply Hnone; [done|done|apply load_arg]);
    intros k Hk Hf; rewrite (proj2 (Z.leb_le 0 k)) by lia; cbn [class_max] in Hk.
  - apply wp_bind, wp_arr_wr; [change (0 <= k < zlen (lget lock m)); kidx|]. apply wp_arg_wr.
    by apply (alloc_post_some KMutex arg m _ k); [| |exact Hf| |apply load_arg].
  - apply wp_arg_wr. by apply (alloc_post_some KCond arg m _ k); [| |exact Hf| |apply load_arg].
  - apply wp_bind, wp_arr_wr; [change (0 <= k < zlen (lget sem_val m)); kidx|]. apply wp_arg_wr.
    by apply (alloc_post_some KSem arg m _ k); [| |exact Hf| |apply load_arg].
  - apply wp_bind, wp_arr_wr; [change (0 <= k < zlen (lget ev_mask m)); kidx|].
    apply wp_bind, wp_arr_wr; [change (0 <= k < zlen (lget ev_pend m)); kidx|]. apply wp_arg_wr.
    by apply (alloc_post_some KEvent arg m _ k); [| |exact Hf| |apply load_arg].
  - apply wp_bind, wp_bit_mem_wr; [change (0 <= 0 + k / 32 < zlen (lget flag_sig m)); kidx|].
    apply wp_bind, wp_bit_mem_wr; [change (0 <= 0 + k / 32 < zlen (lget flag_lock m)); kidx|]. apply wp_arg_wr.
    by apply (alloc_post_some KFlag arg m _ k); [| |exact Hf| |apply load_arg].
Qed.

(** Allocation of a kernel object of any class returns the lowest free
    number of the class, offset by the class's base, and takes exactly that
    one; with none free it returns -1 and takes nothing. *)
Theorem alloc_lowest c m self arg :
  running m self -> exists m', alloc_svc c arg m = Some (tt, m') /\ alloc_post c arg m tt m'.
Proof.
  intros Hrun. destruct (wp_some _ _ _ (alloc_lowest_wp c m self arg Hrun)) as ([] & m' & E & H). eauto.
Qed.

(** ** Error results *)

(** The services that begin by checking one object number. *)
Definition checked_svcs : list (kclass * (Z -> K unit)) :=
  [(KMutex, thinkos_mutex_lock_svc); (KMutex, thinkos_mutex_trylock_svc);
   (KMutex, thinkos_mutex_timedlock_svc); (KMutex, thinkos_mutex_unlock_svc);
   (KCond, thinkos_cond_signal_svc); (KCond, thinkos_cond_broadcast_svc);
   (KSem, thinkos_sem_init_svc); (KSem, thinkos_sem_wait_svc); (KSem, thinkos_sem_trywait_svc);
   (KSem, thinkos_sem_timedwait_svc); (KSem, thinkos_sem_post_svc);
   (KEvent, thinkos_ev_wait_svc); (KEvent, thinkos_ev_timedwait_svc); (KEvent, thinkos_ev_raise_svc);
   (KEvent, thinkos_ev_mask_svc); (KEvent, thinkos_ev_unmask_svc);
   (KFlag, thinkos_flag_wait_svc); (KFlag, thinkos_flag_timedwait_svc); (KFlag, thinkos_flag_release_svc);
   (KFlag, thinkos_flag_take_svc); (KFlag, thinkos_flag_timedtake_svc); (KFlag, thinkos_flag_give_svc);
   (KFlag, thinkos_flag_clr_svc); (KFlag, thinkos_flag_set_svc)].

(** The number in [r0] is not that of an allocated object of the class. *)
Definition bad_object c m (arg : Z) : Prop :=
  forall k, 0 <= k < class_max c -> load (lget mem m) arg = class_base c + k ->
    bget (lget (class_bmp c) m) 0 k = false.

Lemma wp_bad_check c m arg body :
  Inv (-1) false false m -> bad_object c m arg ->
  wp (obj_check (class_base c) (class_max c) (class_bmp c) (load (lget mem m) (arg + 4 * 0)) arg body)
    (fun _ m' => m' = st_mem arg THINKOS_EINVAL m) m.
Proof.
  intros HI Hbad. destruct (class_facts c m HI) as (_ & Hm & Hl & Hb & Hbm). rewrite arg0.
  apply wp_obj_range; [done|done|lia|apply load_bound|intros _; by rewrite arg0|].
  intros k Hk E. apply wp_obj_allocated; [unfold bmp_words in Hl; lia|intros _; by rewrite arg0|].
  intros Ha. rewrite (Hbad k Hk E) in Ha. done.
Qed.

Lemma checked_einval c svc m self arg :
  (c, svc) ∈ checked_svcs -> running m self -> bad_object c m arg ->
  wp (svc arg) (fun _ m' => m' = st_mem arg THINKOS_EINVAL m) m.
Proof.
  intros Hin Hrun Hbad. pose proof (wp_bad_check c m arg) as Hchk.
  specialize (fun body => Hchk body (run_inv Hrun) Hbad). unfold checked_svcs in Hin.
  repeat (apply elem_of_cons in Hin as [Hin|Hin]; [injection Hin as -> ->;
    match goal with |- wp (?f _ arg) _ _ => unfold f end;
    repeat lazymatch goal with
    | |- wp (bind _ _) _ _ => apply wp_bind
    | |- wp (arg_rd _ _) _ _ => apply wp_arg_rd
    | |- wp (get _) _ _ => apply wp_get
    | |- wp (if _ <? _ then _ else _) _ _ => case_match; [apply wp_arg_wr; by rewrite arg0|]
    end;
    apply Hchk|]).
  by apply elem_of_nil in Hin.
Qed.

(** The two that take a condition variable and a mutex. *)
Definition cond_waits : list (Z -> K unit) := [thinkos_cond_wait_svc; thinkos_cond_timedwait_svc].

Lemma cond_wait_einval svc m self arg :
  svc ∈ cond_waits -> running m self -> bad_object KCond m arg \/ bad_object KMutex m (arg + 4 * 1) ->
  wp (svc arg) (fun _ m' => m' = st_mem arg THINKOS_EINVAL m) m.
Proof.
  intros Hin Hrun Hbad. pose proof (run_inv Hrun) as HI.
  destruct (class_facts KCond m HI) as (_ & Hm1 & Hl1 & Hb1 & Hbm1).
  destruct (class_facts KMutex m HI) as (_ & Hm2 & Hl2 & Hb2 & Hbm2).
  cbn [class_base class_max class_bmp] in *. unfold bmp_words in Hl1, Hl2.
  assert (forall k1 k2, 0 <= k1 < THINKOS_COND_MAX -> 0 <= k2 < THINKOS_MUTEX_MAX ->
    load (lget mem m) (arg + 4 * 0) = THINKOS_COND_BASE + k1 ->
    load (lget mem m) (arg + 4 * 1) = THINKOS_MUTEX_BASE + k2 ->
    bget (lget cond_alloc m) 0 k1 = true -> bget (lget mutex_alloc m) 0 k2 = true -> False) as Hno.
  { intros k1 k2 Hk1 Hk2 E1 E2 A1 A2. rewrite arg0 in E1. destruct Hbad as [H|H].
    - pose proof (H k1 Hk1 E1) as A. cbn [class_bmp] in A. congruence.
    - pose proof (H k2 Hk2 E2) as A. cbn [class_bmp] in A. congruence. }
  unfold cond_waits in Hin. apply elem_of_cons in Hin as [->|[->|Hin%elem_of_nil]%elem_of_cons]; [| |done].
  - apply wp_bind, wp_arg_rd, wp_bind, wp_arg_rd, wp_bind, wp_get.
    apply wp_obj_range; [lia..|apply load_bound|intros _; by rewrite arg0|intros k1 Hk1 E1].
    apply wp_obj_range; [lia..|apply load_bound|intros _; by rewrite arg0|intros k2 Hk2 E2].
    apply wp_obj_allocated; [lia|intros _; by rewrite arg0|intros A1].
    apply wp_obj_allocated; [lia|intros _; by rewrite arg0|intros A2]. by destruct (Hno k1 k2).
  - apply wp_bind, wp_arg_rd, wp_bind, wp_arg_rd, wp_bind, wp_arg_rd, wp_bind, wp_get.
    apply wp_obj_range; [lia..|apply load_bound|intros _; by rewrite arg0|intros k2 Hk2 E2].
    apply wp_obj_range; [lia..|apply load_bound|intros _; by rewrite arg0|intros k1 Hk1 E1].
    apply wp_obj_allocated; [lia|intros _; by rewrite arg0|intros A2].
    apply wp_obj_allocated; [lia|intros _; by rewrite arg0|intros A1]. by destruct (Hno k1 k2).
Qed.

(** The services that give an object back check the range only. *)
Definition free_svcs : list (kclass * (Z -> K unit)) :=
  [(KMutex, thinkos_mutex_free_svc); (KCond, thinkos_cond_free_svc); (KSem, thinkos_sem_free_svc);
   (KEvent, thinkos_ev_free_svc); (KFlag, thinkos_flag_free_svc)].

Definition freed c m (arg : Z) : machine :=
  if decide (class_base c <= load (lget mem m) arg < class_base c + class_max c)
  then st_bit (class_bmp c) 0 (load (lget mem m) arg - class_base c) false m
  else st_mem arg THINKOS_EINVAL m.

Lemma free_range c svc m self arg :
  (c, svc) ∈ free_svcs -> running m self -> wp (svc arg) (fun _ m' => m' = freed c m arg) m.
Proof.
  intros Hin Hrun. pose proof (run_inv Hrun) as HI. pose proof (load_bound (lget mem m) arg) as Hld.
  pose proof (class_facts c m HI) as (_ & Hm & Hl & Hb & Hbm). unfold bmp_words in Hl.
  assert (wp (obj_range (class_base c) (class_max c) (load (lget mem m) arg) arg
    (fun k => bit_mem_wr (class_bmp c) 0 k 0)) (fun _ m' => m' = freed c m arg) m) as Hfree.
  { unfold freed. apply wp_obj_range; [done|done|lia|done| |].
    - intros H. rewrite decide_False by lia. by rewrite arg0.
    - intros k Hk E. rewrite decide_True by lia. replace (load _ arg - _) with k by lia.
      apply wp_bit_mem_wr; [lia|done]. }
  unfold free_svcs in Hin.
  repeat (apply elem_of_cons in Hin as [Hin|Hin]; [injection Hin as -> ->;
    first [exact (wp_bind _ _ _ _ (wp_arg_rd _ _ _ _ (eq_ind_r (fun a => wp (obj_range _ _ (load _ a) _ _) _ _) Hfree (arg0 arg))))
          |idtac]|]); [|by apply elem_of_nil in Hin].
  cbn [class_base class_max class_bmp] in *. unfold freed. cbn [class_base class_max class_bmp].
  apply wp_bind, wp_arg_rd. rewrite arg0. case_match eqn:Hc.
  - apply wp_arg_wr. rewrite decide_False; [by rewrite arg0|].
    apply orb_true_iff in Hc as [?%Z.ltb_lt|?%Z.leb_le]; lia.
  - apply orb_false_iff in Hc as [?%Z.ltb_ge ?%Z.leb_gt]. rewrite decide_True by lia.
    apply wp_bit_mem_wr; [lia|done].
Qed.

(** C35. The services that take object numbers. Each of the twenty-four that
    check one number rejects one that is out of range or not allocated with
    EINVAL, and does nothing else; the two waits on a condition variable do so
    when the condition variable or the mutex is not an allocated one; the five
    that free an object reject a number out of range, and clear the
    allocation bit of any other, allocated or not, without a result. *)
Theorem bad_object_einval m self arg :
  running m self ->
  (forall c svc, (c, svc) ∈ checked_svcs -> bad_object c m arg ->
    svc arg m = Some (tt, st_mem arg THINKOS_EINVAL m)) /\
  (forall svc, svc ∈ cond_waits -> bad_object KCond m arg \/ bad_object KMutex m (arg + 4 * 1) ->
    svc arg m = Some (tt, st_mem arg THINKOS_EINVAL m)) /\
  (forall c svc, (c, svc) ∈ free_svcs -> svc arg m = Some (tt, freed c m arg)).
Proof.
  intros Hrun. split; [|split].
  - intros c svc Hin Hbad. by destruct (wp_some _ _ _ (checked_einval c svc m self arg Hin Hrun Hbad)) as ([] & m' & E & ->).
  - intros svc Hin Hbad. by destruct (wp_some _ _ _ (cond_wait_einval svc m self arg Hin Hrun Hbad)) as ([] & m' & E & ->).
  - intros c svc Hin. by destruct (wp_some _ _ _ (free_range c svc m self arg Hin Hrun)) as ([] & m' & E & ->).
Qed.

(** A service number the configuration has no service for, the four
    optional groups of thread services included, and the snapshot where it is
    not compiled in, gives ENOSYS and does nothing else. *)
Theorem unsupported_enosys m svc arg :
  (svc < 0 \/ THINKOS_EXIT < svc \/
   svc ∈ [THINKOS_PAUSE; THINKOS_RESUME; THINKOS_CANCEL; THINKOS_JOIN] \/
   (svc = THINKOS_RT_SNAPSHOT /\ THINKOS_ENABLE_RT_DEBUG = false)) ->
  svc_dispatch svc arg m = Some (tt, st_mem (arg + 4 * 0) THINKOS_ENOSYS m).
Proof.
  intros [Hlt|[Hgt|[Hin|[-> E]]]].
  - unfold svc_dispatch. repeat (rewrite (proj2 (Z.eqb_neq svc _)) by (intros ->; discriminate Hlt)). done.
  - unfold svc_dispatch. repeat (rewrite (proj2 (Z.eqb_neq svc _)) by (intros ->; discriminate Hgt)). done.
  - repeat (apply elem_of_cons in Hin as [->|Hin]); [| | | |by apply elem_of_nil in Hin];
      unfold svc_dispatch, svc_if; rewrite ?core_pause, ?core_cancel, ?core_join; reflexivity.
  - unfold svc_dispatch, svc_if. by rewrite E.
Qed.

(** ** The snapshot *)

Lemma copy_words_spec src : forall dst m, exists w, copy_words dst src m = Some (tt, lset mem w m) /\
  (forall i, 0 <= i < zlen src -> load w (dst + 4 * i) = u32 (zget src i)) /\
  (forall a, (forall i, 0 <= i < zlen src -> a <> dst + 4 * i) -> load w a = load (lget mem m) a).
Proof.
  induction src as [|v src IH]; intros dst m.
  - exists (lget mem m). split; [by destruct m|]. split; [intros i Hi; unfold zlen in Hi; simpl in Hi; lia|done].
  - destruct (IH (dst + 4) (st_mem dst v m)) as (w & E & Hin & Hout). exists w.
    assert (zlen (v :: src) = zlen src + 1 /\ 0 <= zlen src) as [El Hnn] by (unfold zlen; simpl; lia).
    assert (forall i, 0 < i < zlen (v :: src) -> zget (v :: src) i = zget src (i - 1)) as Hz.
    { intros i Hi. unfold zget. rewrite !(proj2 (Z.ltb_ge _ _)) by lia.
      replace (Z.to_nat i) with (S (Z.to_nat (i - 1))) by lia. done. }
    split; [exact E|]. split.
    + intros i Hi. destruct (decide (i = 0)) as [->|Hne].
      * rewrite Hout by lia. replace (dst + 4 * 0) with dst by lia. unfold st_mem. fsimpl.
        apply load_store.
      * replace (dst + 4 * i) with (dst + 4 + 4 * (i - 1)) by lia. rewrite Hin by lia. by rewrite Hz by lia.
    + intros a Ha. rewrite Hout.
      * unfold st_mem, load. fsimpl. rewrite lookup_insert_ne; [done|]. intros <-. apply (Ha 0); lia.
      * intros i Hi ->. apply (Ha (i + 1)); lia.
Qed.

(** The snapshot copies the words of the run-time block to the caller's
    buffer, and changes nothing else; PRIMASK is as before. *)
Theorem snapshot_copies m arg :
  let dst := load (lget mem m) (arg + 4 * 0) in let src := rt_words (lget f_rt m) in
  exists w, thinkos_rt_snapshot_svc arg m = Some (tt, lset mem w m) /\
    (forall i, 0 <= i < zlen src -> load w (dst + 4 * i) = u32 (zget src i)) /\
    (forall a, (forall i, 0 <= i < zlen src -> a <> dst + 4 * i) -> load w a = load (lget mem m) a).
Proof.
  cbv zeta. set (m1 := lset primask true m).
  destruct (copy_words_spec (rt_words (lget f_rt m)) (load (lget mem m) (arg + 4 * 0)) m1) as (w & E & H).
  exists w. split; [|exact H].
  change (thinkos_rt_snapshot_svc arg m) with (bind (copy_words (load (lget mem m) (arg + 4 * 0)) (rt_words (lget f_rt m)))
    (fun _ => put primask (lget primask m)) m1).
  unfold bind. rewrite E. by destruct m.
Qed.

(** ** Interrupts *)

(** The default handler of an enabled interrupt source finds the thread
    that waits for it: that thread, which was not ready, becomes ready, the
    source is disabled until the next wait, the scheduler is asked for, and
    no wait queue changes. *)
Theorem irq_wakes_waiter m i :
  reachable m -> 0 <= i < THINKOS_IRQ_MAX -> bget (lget irq_en m) 0 i = true ->
  exists m', cm3_default_isr i m = Some (tt, m') /\
    (zget (lget irq_th m) i ∉ ready_set m) /\
    (ready_set m' = {[zget (lget irq_th m) i]} ∪ ready_set m) /\
    bget (lget irq_en m') 0 i = false /\ lget pendsv m' = true /\
    (forall q, wait_wq q -> waiters m' q = waiters m q).
Proof.
  intros Hr Hi He. apply reachable_inv in Hr as HI. pose proof (inv_shape HI) as Hsh.
  destruct (i_waits _ _ (inv_i HI) i Hi He) as (Ht & _ & Hnr & _).
  pose proof (thread_range _ Ht) as H32. pose proof wq_ready_range.
  assert (shape (st_bit irq_en 0 i false m)) as Hs1 by (unfold st_bit; solve_shape).
  set (th := zget (lget irq_th m) i) in *.
  assert (wp (cm3_default_isr i) (fun _ m' =>
    m' = st_defer (st_bit wq_lst THINKOS_WQ_READY th true (st_bit irq_en 0 i false m))) m) as Hwp.
  { apply wp_bind, wp_bit_mem_wr; [kidx|]. change (Z.odd 0) with false.
    apply wp_bind, wp_arr_rd; [change (0 <= i < zlen (lget irq_th m)); kidx|].
    change (zget (lget irq_th (st_bit irq_en 0 i false m)) i) with th.
    apply wp_bind, wp_wq_bit; [done|done|done|]. intros _. by apply wp_put. }
  destruct (wp_some _ _ _ Hwp) as ([] & m' & E & Em). exists m'. split; [done|].
  assert (forall q t, 0 <= t < 32 -> qbit m' q t = if decide (THINKOS_WQ_READY = q /\ th = t) then true else qbit m q t) as Hb.
  { intros q t Ht'. rewrite Em. by apply (qbit_bit (st_bit irq_en 0 i false m)). }
  split; [|split; [|split; [|split]]].
  - intros [_ Hrd]%elem_of_threads_in. rewrite Hnr in Hrd; [done|]. unfold is_thread in Ht. lia.
  - apply (waiters_add m m' THINKOS_WQ_READY); [done|]. intros t Ht'. rewrite Hb by (by apply thread_range).
    destruct (decide (t = th)) as [->|]; [by rewrite decide_True|by rewrite decide_False by (intros [_ ?]; congruence)].
  - rewrite Em. change (bget (lget irq_en (st_bit irq_en 0 i false m)) 0 i = false).
    rewrite irq_bit by done. by rewrite decide_True.
  - by rewrite Em.
  - intros q Hq. apply waiters_ext. intros t Ht'. rewrite Hb by (by apply thread_range).
    rewrite decide_False; [done|]. intros [Hq0 _]. by destruct (wait_not_ready _ Hq).
Qed.

(** ** Thread creation *)

(** The number a new thread gets: the first free one from [id] upwards, or
    else the first one from [id] downwards. *)
Definition picks m (id th : Z) : Prop :=
  is_thread th /\ bget (lget th_alloc m) 0 th = false /\
  (id <= th /\ (forall j, id <= j < th -> bget (lget th_alloc m) 0 j = true) \/
   th <= id /\ (forall j, th < j < THINKOS_THREADS_MAX -> bget (lget th_alloc m) 0 j = true)).

Lemma wp_create_picks m id (Q : Z -> machine -> Prop) :
  Inv (-1) false false m -> 0 <= id ->
  (forall th, picks m id th -> Q th (st_bit th_alloc 0 th true m)) ->
  ((forall j, is_thread j -> bget (lget th_alloc m) 0 j = true) -> Q (-1) m) ->
  wp (create_alloc id) Q m.
Proof.
  intros HI Hid H1 H2. pose proof threads_bound. destruct (a_th _ (inv_a HI)) as [Hw Hhigh].
  assert (0 < zlen (lget th_alloc m)) as Hl by kidx.
  assert (forall i, THINKOS_THREADS_MAX <= i < 32 -> bget (lget th_alloc m) 0 i = true) as Htop.
  { intros i Hi. apply Hhigh. kidx. }
  assert (forall i, 0 <= i < 32 -> bget (lget th_alloc m) 0 i = false -> is_thread i) as Hth.
  { intros i Hi Hf. split; [lia|]. destruct (Z_lt_le_dec i THINKOS_THREADS_MAX); [done|]. rewrite Htop in Hf; [done|lia]. }
  unfold create_alloc. destruct (Z.leb_spec THINKOS_THREADS_MAX id).
  - apply wp_alloc_hi; [done|done|lia| |].
    + intros i Hi Hf Hab. apply H1. split; [apply Hth; [lia|done]|]. split; [done|]. right. split; [lia|].
      intros j Hj. apply Hab. lia.
    + intros Hall. apply H2. intros j Hj. apply Hall. unfold is_thread in Hj. lia.
  - apply wp_bind, wp_alloc_lo; [done|done|lia| |].
    + intros i Hi Hf Hbe. rewrite (proj2 (Z.ltb_ge i 0)) by lia. apply wp_ret, H1.
      split; [apply Hth; [lia|done]|]. split; [done|]. left. split; [lia|exact Hbe].
    + intros Hab. rewrite (proj2 (Z.ltb_lt (-1) 0)) by lia. apply wp_alloc_hi; [done|done|lia| |].
      * intros i Hi Hf Hab'. apply H1. split; [apply Hth; [lia|done]|]. split; [done|]. right. split; [lia|].
        intros j Hj. destruct (Z_le_gt_dec j id); [apply Hab'|apply Hab]; lia.
      * intros Hall. apply H2. intros j Hj. unfold is_thread in Hj.
        destruct (Z_le_gt_dec j id); [apply Hall|apply Hab]; lia.
Qed.

(** A loop of stores changes memory only. *)
Lemma wp_store_loop m n (addr : Z -> Z) v (Q : unit -> machine -> Prop) :
  0 <= n -> (forall w, Q tt (lset mem w m)) -> wp (for_ n (fun k => st (addr k) v)) Q m.
Proof.
  intros Hn HQ. eapply wp_mono.
  - apply (wp_for n _ (fun _ m' => exists w, m' = lset mem w m)); [done| |].
    + exists (lget mem m). by destruct m.
    + intros j ? _ (w & ->). apply wp_st. by eexists.
  - intros [] ? (w & ->). apply HQ.
Qed.

(** The words of a new context. *)
Definition context_at (w : gmap Z Z) (sp task targ : Z) : Prop :=
  load w (sp + 32) = u32 targ /\ load w (sp + 52) = u32 thinkos_thread_exit_ptr /\
  load w (sp + 56) = u32 task /\ load w (sp + 60) = 0x01000000.

Lemma load_other w a b v : a <> b -> load (<[b := v]> w) a = load w a.
Proof. intros H. unfold load. by rewrite lookup_insert_ne. Qed.

Lemma wp_ctx_init_words m sp task targ (Q : unit -> machine -> Prop) :
  (forall w, context_at w sp task targ -> Q tt (lset mem w m)) -> wp (ctx_init sp task targ) Q m.
Proof.
  intros HQ. unfold ctx_init. apply wp_bind, wp_st.
  cbn [for_ for_from Z.to_nat Pos.to_nat Pos.iter_op Nat.add].
  unfold for_. change (Z.to_nat 3) with 3%nat. change (Z.to_nat 8) with 8%nat. cbn [for_from].
  repeat (apply wp_bind; repeat (apply wp_bind, wp_st); try apply wp_ret).
  repeat (first [apply wp_bind, wp_st | apply wp_st]).
  match goal with |- Q tt ?m' => change m' with (lset mem (lget mem m') m) end. apply HQ.
  unfold context_at, st_mem. fsimpl.
  repeat split; repeat (rewrite load_other by lia); first [apply load_store | rewrite load_store; done].
Qed.

(** The frame of a creation call. *)
Record create_call m (arg task targ stack opt : Z) : Prop := {
  cc_task : load (lget mem m) (arg + 4 * 0) = task;
  cc_targ : load (lget mem m) (arg + 4 * 1) = targ;
  cc_stack : load (lget mem m) (arg + 4 * 2) = stack;
  cc_opt : load (lget mem m) (arg + 4 * 3) = opt;
}.
(** Where the new context goes: the aligned top of the stack. *)
Definition context_sp (stack opt : Z) : Z :=
  u32 (Z.land (u32 (stack + opt_stack_size opt)) 0xfffffff8 - CTX_SIZE).

Lemma wp_create m self arg task targ stack opt (Q : unit -> machine -> Prop) :
  running m self -> create_call m arg task targ stack opt -> CTX_SIZE <= opt_stack_size opt ->
  let sp := context_sp stack opt in
  (forall th w inf, picks m (opt_id opt) th -> context_at w sp task targ ->
    Q tt (st_mem (arg + 4 * 0) th (st_defer (st_bit wq_lst THINKOS_WQ_READY th true
      (st_arr th_inf th inf (st_arr ctx th sp (lset mem w (st_bit th_alloc 0 th true m)))))))) ->
  ((forall j, is_thread j -> bget (lget th_alloc m) 0 j = true) -> Q tt (st_mem (arg + 4 * 0) THINKOS_EINVAL m)) ->
  wp (thinkos_thread_create_svc arg) Q m.
Proof.
  intros Hrun [E0 E1 E2 E3] Hsize sp H1 H2. pose proof (inv_shape (run_inv Hrun)) as Hsh.
  unfold thinkos_thread_create_svc. do 5 apply wp_bind, wp_arg_rd. rewrite E0, E1, E2, E3.
  set (inf := load _ (arg + 4 * 4)).
  apply wp_bind, wp_create_picks; [apply Hrun|apply opt_id_bound| |intros Hall; by apply wp_arg_wr, H2].
  intros th Hp. pose proof Hp as (Hth & _). pose proof (thread_range _ Hth).
  rewrite (proj2 (Z.ltb_ge th 0)) by (unfold is_thread in Hth; lia). cbv zeta.
  rewrite (proj2 (Z.ltb_ge (opt_stack_size opt) CTX_SIZE)) by done.
  change (u32 (Z.land (u32 (stack + opt_stack_size opt)) 4294967288 - CTX_SIZE)) with sp. clearbody sp inf.
  assert (shape (st_bit th_alloc 0 th true m)) as Hsh1 by (unfold st_bit; solve_shape).
  set (m1 := st_bit th_alloc 0 th true m) in *.
  apply wp_bind, wp_store_loop; [lia|]. intros w0.
  apply wp_bind, wp_ctx_init_words. intros w Hw.
  apply wp_bind, wp_arr_wr_st; [change (0 <= th < zlen (lget ctx m1)); kidx|].
  apply wp_bind, wp_arr_wr_st; [change (0 <= th < zlen (lget th_inf m1)); kidx|].
  rewrite core_timeshare, core_pause. apply wp_bind, wp_ret. cbn [andb]. apply wp_bind, wp_bind.
  apply wp_wq_bit; [|apply wq_ready_range|by apply thread_range|].
  { unfold st_arr. destruct Hsh1; split; fsimpl; rewrite ?zlen_zset; assumption. }
  intros _. apply wp_put, wp_arg_wr. exact (H1 th w inf Hp Hw).
Qed.

(** C36. Thread creation: with a stack of at least 64 bytes, some free number,
    and the caller's result word outside the new context, the service takes the
    first free number from the requested one upwards, or when there is none the
    highest free one below it, and the new thread, in no queue before, is ready
    with a context at the aligned top of its stack that enters [task] with
    [targ] in r0, returns to the thread exit, and starts in Thumb state; the
    number is the result. *)
Theorem thread_create_starts m self arg task targ stack opt :
  running m self -> create_call m arg task targ stack opt -> CTX_SIZE <= opt_stack_size opt ->
  (exists j, is_thread j /\ bget (lget th_alloc m) 0 j = false) ->
  arg < context_sp stack opt \/ context_sp stack opt + CTX_SIZE <= arg ->
  exists m' th, thinkos_thread_create_svc arg m = Some (tt, m') /\
    picks m (opt_id opt) th /\ load (lget mem m') arg = th /\
    (ready_set m' = {[th]} ∪ ready_set m) /\ (th ∉ ready_set m) /\
    bget (lget th_alloc m') 0 th = true /\ lget pendsv m' = true /\
    zget (lget ctx m') th = context_sp stack opt /\
    context_at (lget mem m') (context_sp stack opt) task targ.
Proof.
  intros Hrun Hcall Hsize (j & Hj & Hfree) Harg. pose proof (inv_shape (run_inv Hrun)) as Hsh.
  set (Q := fun (_ : unit) m' => exists th, picks m (opt_id opt) th /\ load (lget mem m') arg = th /\
    (ready_set m' = {[th]} ∪ ready_set m) /\ (th ∉ ready_set m) /\
    bget (lget th_alloc m') 0 th = true /\ lget pendsv m' = true /\
    zget (lget ctx m') th = context_sp stack opt /\
    context_at (lget mem m') (context_sp stack opt) task targ).
  destruct (wp_some (thinkos_thread_create_svc arg) Q m) as ([] & m' & E & th & H); [|by exists m', th].
  apply (wp_create m self arg task targ stack opt Q Hrun Hcall Hsize).
  2:{ intros Hall. rewrite Hall in Hfree; done. }
  intros th w inf Hp Hw. set (sp := context_sp stack opt) in *. clearbody sp.
  set (m1 := st_arr th_inf th inf (st_arr ctx th sp (lset mem w (st_bit th_alloc 0 th true m)))).
  set (m' := st_mem _ _ _). exists th. pose proof Hp as (Hth & Hf & _). pose proof (thread_range _ Hth) as H32.
  assert (shape m1) as Hsh1.
  { unfold m1, st_arr, st_bit. destruct Hsh; split; fsimpl; rewrite ?zlen_zset, ?zlen_bset; assumption. }
  pose proof wq_ready_range.
  assert (forall q t, 0 <= t < 32 -> qbit m' q t = if decide (THINKOS_WQ_READY = q /\ th = t) then true else qbit m q t) as Hb.
  { intros q t Ht. by apply (qbit_bit m1). }
  assert (load (lget mem m') arg = th) as El.
  { change (lget mem m') with (<[arg + 4 * 0 := u32 th]> w). rewrite load_arg. apply u32_small. lia. }
  split; [done|]. split; [done|]. split; [|split; [|split; [|split; [done|split]]]].
  - apply (waiters_add m m' THINKOS_WQ_READY); [done|]. intros t Ht. rewrite Hb by (by apply thread_range).
    destruct (decide (t = th)) as [->|]; [by rewrite decide_True|by rewrite decide_False by (intros [_ ?]; congruence)].
  - intros [_ Hr]%elem_of_threads_in. pose proof (ready_alloc _ _ _ (inv_q (run_inv Hrun)) Hth Hr). congruence.
  - change (lget th_alloc m') with (lget th_alloc (st_bit th_alloc 0 th true m)).
    rewrite th_alloc_bit by done. by rewrite decide_True.
  - change (lget ctx m') with (zset (lget ctx m) th sp). rewrite zget_zset_eq; [done|]. kidx.
  - change (lget mem m') with (<[arg + 4 * 0 := u32 th]> w). destruct Hw as (W1 & W2 & W3 & W4).
    unfold CTX_SIZE in Harg. repeat split; rewrite load_other by lia; assumption.
Qed.
End services.

(** ** The theorems at concrete states *)

#[local] Existing Instance yard_ice_config.
#[local] Existing Instance any_caller.

(** Thread 0 asks for the mutex thread 5 owns. *)
Lemma mutex_refines_witness :
  let m := user_call SP0 THINKOS_MUTEX_LOCK 2 0 0 0 s_awake in
  mutex_view m 0 = AMutex (Some 5) ∅ /\
  exists m' e, mutex_svc MLock SP0 m = Some (tt, m') /\
    am_step 0 MLock (mutex_view m 0) e (mutex_view m' 0) /\
    has_effect 0 SP0 (THINKOS_MUTEX_BASE + 0) m m' e /\ other_owners m m' 0 /\
    forall e2 s2, am_step 0 MLock (mutex_view m 0) e2 s2 -> e2 = e /\ s2 = mutex_view m' 0.
Proof.
  split; [by_eval|]. apply mutex_refines.
  - apply running_at; [apply user_call_reachable, s_awake_reachable|by_eval..].
  - split; [by_eval|]. split; [in_range|]. split; [by_eval|exact I].
Defined.

(** Thread 5 posts the semaphore thread 0 waits for. *)
Lemma sem_refines_witness :
  let m := user_call SP5 THINKOS_SEM_POST s_sem_no 0 0 0 s_sem_waits in
  sem_view m 0 = ASem 0 {[0]} /\
  exists m' e, sem_svc SPost SP5 m = Some (tt, m') /\
    as_step 5 SPost (sem_view m 0) e (sem_view m' 0) /\
    has_effect 5 SP5 (THINKOS_SEM_BASE + 0) m m' e /\ other_values m m' 0 /\
    forall e2 s2, as_step 5 SPost (sem_view m 0) e2 s2 -> e2 = e /\ s2 = sem_view m' 0.
Proof.
  split; [by_eval|]. apply sem_refines.
  - apply running_at; [apply user_call_reachable, s_sem_waits_reachable|by_eval..].
  - split; [by_eval|]. split; [in_range|]. split; [by_eval|exact I].
Defined.

Lemma sem_post_i_refines_witness :
  exists m', thinkos_sem_post_i (THINKOS_SEM_BASE + 0) s_sem_waits = Some (tt, m') /\ sem_post_i_post 0 s_sem_waits tt m'.
Proof. apply sem_post_i_refines; [apply s_sem_waits_reachable|in_range]. Defined.

Lemma alloc_lowest_witness :
  exists m', alloc_svc KFlag SP5 s_five = Some (tt, m') /\ alloc_post KFlag SP5 s_five tt m'.
Proof. apply (alloc_lowest _ _ 5), running_at; [apply s_five_reachable|by_eval..]. Defined.

(** Mutex 3 is not allocated. *)
Lemma bad_object_einval_witness :
  let m := user_call SP5 THINKOS_MUTEX_LOCK 3 0 0 0 s_five in
  thinkos_mutex_lock_svc SP5 m = Some (tt, st_mem SP5 THINKOS_EINVAL m).
Proof.
  apply (proj1 (bad_object_einval (user_call SP5 THINKOS_MUTEX_LOCK 3 0 0 0 s_five) 5 SP5
    ltac:(apply running_at; [apply user_call_reachable, s_five_reachable|by_eval..])) KMutex).
  - apply list_elem_of_here.
  - intros k Hk E. assert (k = 1) as ->; [|by_eval].
    change (load (lget mem (user_call SP5 THINKOS_MUTEX_LOCK 3 0 0 0 s_five)) SP5) with 3 in E.
    change (class_base KMutex) with 2 in E. lia.
Defined.

Lemma unsupported_enosys_witness :
  svc_dispatch 99 SP5 s_five = Some (tt, st_mem (SP5 + 4 * 0) THINKOS_ENOSYS s_five).
Proof. apply unsupported_enosys. right. left. reflexivity. Defined.

Lemma irq_wakes_waiter_witness :
  exists m', cm3_default_isr 3 s_irq = Some (tt, m') /\
    (zget (lget irq_th s_irq) 3 ∉ ready_set s_irq) /\
    (ready_set m' = {[zget (lget irq_th s_irq) 3]} ∪ ready_set s_irq) /\
    bget (lget irq_en m') 0 3 = false /\ lget pendsv m' = true /\
    (forall q, wait_wq q -> waiters m' q = waiters s_irq q).
Proof. apply irq_wakes_waiter; [apply s_irq_reachable|in_range|by_eval]. Defined.

Lemma thread_create_starts_witness :
  let m := user_call SP0 THINKOS_THREAD_CREATE 0x08004001 7 0x20003000 OPT5 s_mutex in
  exists m' th, thinkos_thread_create_svc SP0 m = Some (tt, m') /\
    picks m (opt_id OPT5) th /\ load (lget mem m') SP0 = th /\
    (ready_set m' = {[th]} ∪ ready_set m) /\ (th ∉ ready_set m) /\
    bget (lget th_alloc m') 0 th = true /\ lget pendsv m' = true /\
    zget (lget ctx m') th = context_sp 0x20003000 OPT5 /\
    context_at (lget mem m') (context_sp 0x20003000 OPT5) 0x08004001 7.
Proof.
  apply (thread_create_starts _ 0).
  - apply running_at; [apply user_call_reachable, s_mutex_reachable|by_eval..].
  - split; by_eval.
  - vm_compute. discriminate.
  - exists 5. split; [in_range|by_eval].
  - left. reflexivity.
Defined.
