(* ===== verification/Findings.v ===== *)
(** * Behaviours the modelling brought to light

    Executions of the kernel, checked by evaluation, in which the code does
    something its comments or its other services say it should not. *)

From S2P Require Import Prelude Arch Config Kernel Rules Inv InvOps InvObj Mutex Semaphore Cond Event Flag Thread Sched Svc.
From S2P Require Import Steps SvcObj SvcThread System Spec SvcThms Demo.

(** ** With time sharing ([default_config])

    Thread 0 starts thread 3; both have priority 4, so that one tick uses up
    thread 3's share. *)
Section timeshare.
#[local] Existing Instance default_config.

Definition t_boot := run (thinkos_init 0x00040000) (reset_machine SP0).
Definition OPT3 := 0x03040100.
Definition SP3 := 0x200030e0.
Definition t_call (sp svc a0 a1 a2 a3 : Z) (m : machine) : machine :=
  run (cm3_svc_isr LR_PSP) (user_call sp svc a0 a1 a2 a3 m).
Definition t_started := run cm3_pendsv_isr (t_call SP0 THINKOS_THREAD_CREATE 0x08004001 7 0x20003000 OPT3 t_boot).
(** One tick, and the scheduler when it is pending. *)
Definition t_tick (m : machine) : machine :=
  let m := run cm3_systick_isr m in
  if lget pendsv m then run cm3_pendsv_isr m else m.

(** Thread 0 sleeps for one tick, in which thread 3 uses up its share, and
    then waits for a semaphore that is zero. *)
Definition t_sem := t_call SP0 THINKOS_SEM_ALLOC 0 0 0 0 t_started.
Definition t_shared := t_tick (run cm3_pendsv_isr (t_call SP0 THINKOS_SLEEP 1 0 0 0 t_sem)).
Definition t_blocked := run cm3_pendsv_isr (t_call SP0 THINKOS_SEM_WAIT (load (lget mem t_sem) SP0) 0 0 0 t_shared).
(** The same with a flag instead of a semaphore. *)
Definition t_flag := t_call SP0 THINKOS_FLAG_ALLOC 0 0 0 0 t_started.
Definition t_shared_f := t_tick (run cm3_pendsv_isr (t_call SP0 THINKOS_SLEEP 1 0 0 0 t_flag)).
Definition t_blocked_f := run cm3_pendsv_isr (t_call SP0 THINKOS_FLAG_TAKE (load (lget mem t_flag) SP0) 0 0 0 t_shared_f).

(** Thread 3 waits for a mutex of thread 0, which pauses and resumes it. *)
Definition t_mutex := t_call SP0 THINKOS_MUTEX_ALLOC 0 0 0 0 t_started.
Definition MTX := load (lget mem t_mutex) SP0.
Definition t_owned := t_call SP0 THINKOS_MUTEX_LOCK MTX 0 0 0 t_mutex.
Definition t_waits := run cm3_pendsv_isr (t_call SP3 THINKOS_MUTEX_LOCK MTX 0 0 0
  (run cm3_pendsv_isr (t_call SP0 THINKOS_SLEEP 1 0 0 0 t_owned))).
Definition t_paused := run cm3_pendsv_isr (t_call SP0 THINKOS_PAUSE 3 0 0 0 (t_tick t_waits)).
Definition t_resumed := run cm3_pendsv_isr (t_call SP0 THINKOS_RESUME 3 0 0 0 t_paused).
Definition t_stolen := t_tick t_resumed.
End timeshare.

Section timeshare_findings.
#[local] Existing Instance default_config.

(** What a tick looks at while the idle thread spins. *)
Definition sched_view (m : machine) :=
  (lget active m, lget pendsv m, lget wq_lst m, lget th_stat m, lget sched_val m, lget sched_pri m).

Definition starved_view := (8, false, [256; 8] ++ zeros 19 ++ [1] ++ zeros 31, [42; 0; 0; 0; 0; 0; 0; 0],
  [2; 0; 0; 2; 0; 0; 0; 0; 0], [4; 0; 0; 4; 0; 0; 0; 0; 0]).

Lemma tick_starved m : sched_view m = starved_view -> sched_view (t_tick m) = starved_view.
Proof.
  intros E. destruct m as [[] ? ? ? ? ? ? ?]. unfold sched_view in E. cbn in E.
  injection E as -> -> -> -> -> ->. vm_compute. reflexivity.
Qed.

Lemma ticks_starved n : sched_view (Nat.iter n t_tick t_blocked) = starved_view.
Proof. induction n as [|n IH]; [vm_compute; reflexivity|]. exact (tick_starved _ IH). Qed.

(** A semaphore wait forgets the time-shared threads: it looks at the
    time-share queue only when the ready queue is 0, but the idle thread's bit
    is always in it. Thread 3, which has nothing to wait for, is never run
    again, however many ticks the idle thread spins; the same execution with a
    flag runs thread 3 at once. *)
Theorem sem_wait_starves_timeshared :
  lget active t_blocked_f = 3 /\
  forall n, let m := Nat.iter n t_tick t_blocked in
    lget active m = THINKOS_THREAD_IDLE /\ lget pendsv m = false /\
    qbit m THINKOS_WQ_TMSHARE 3 = true /\ stat m 3 = 0 /\ ready_set m = ∅.
Proof.
  split; [vm_compute; reflexivity|]. intros n. pose proof (ticks_starved n) as E. cbv zeta.
  generalize dependent (Nat.iter n t_tick t_blocked). intros m E.
  assert (lget active m = 8) as Ea by (apply (f_equal (fun v => v.1.1.1.1.1)) in E; exact E).
  assert (lget pendsv m = false) as Ep by (apply (f_equal (fun v => v.1.1.1.1.2)) in E; exact E).
  assert (lget wq_lst m = [256; 8] ++ zeros 19 ++ [1] ++ zeros 31) as Ew
    by (apply (f_equal (fun v => v.1.1.1.2)) in E; exact E).
  assert (lget th_stat m = [42; 0; 0; 0; 0; 0; 0; 0]) as Es by (apply (f_equal (fun v => v.1.1.2)) in E; exact E).
  split; [done|]. split; [done|]. split; [unfold qbit; rewrite Ew; vm_compute; reflexivity|]. split; [unfold stat; by rewrite Es|].
  unfold ready_set, threads_in, ready, qbit. rewrite Ew. vm_compute. reflexivity.
Qed.

(** Resuming a paused thread puts it in the clock queue whatever it waits
    for: thread 3, paused and resumed while it waits without a timeout for
    the mutex thread 0 owns, is woken by the next tick with the result 0 of a
    successful lock, runs, and the owner is still thread 0. *)
Theorem resume_returns_unowned_mutex :
  stat t_resumed 3 / 2 = MTX /\ stat t_resumed 3 mod 2 = 0 /\ lget active t_stolen = 3 /\
  load (lget mem t_stolen) (lget psp t_stolen) = 0 /\ zget (lget lock t_stolen) (MTX - THINKOS_MUTEX_BASE) = 0.
Proof. repeat split; vm_compute; reflexivity. Qed.
End timeshare_findings.

(** ** A wake-up before the switch

    Thread 0 waits for a semaphore with a timeout; an interrupt posts it after
    the service and before PendSV. *)
Section early_post.
#[local] Existing Instance yard_ice_config.
#[local] Existing Instance any_caller.

Definition e_sem := call SP0 THINKOS_SEM_ALLOC 0 0 0 0 booted0.
Definition SEM := load (lget mem e_sem) SP0.
Definition e_wait := call SP0 THINKOS_SEM_TIMEDWAIT SEM 100 0 0 e_sem.
Definition e_posted := run (thinkos_sem_post_i SEM) e_wait.
Definition e_back := run cm3_pendsv_isr e_posted.

Lemma e_wait_reachable : reachable e_wait.
Proof.
  apply call_reachable; [|by_eval..]. apply call_reachable; [apply booted0_reachable|by_eval..].
Qed.

(** A post between a timed wait and the switch it asked for is consumed
    but reported as a timeout: the wake-up writes the result through the
    context pointer of the thread's previous switch, because PendSV has not
    saved the new one yet. Thread 0 goes on at once, out of the queue, with
    ETIMEDOUT, and the counter stays 0. *)
Theorem early_post_reports_timeout :
  waiters e_wait SEM = {[0]} /\ lget active e_back = 0 /\ lget psp e_back = SP0 /\
  load (lget mem e_back) SP0 = u32 THINKOS_ETIMEDOUT /\
  zget (lget sem_val e_back) (SEM - THINKOS_SEM_BASE) = 0 /\ waiters e_back SEM = ∅ /\ lget ticks e_back = 0.
Proof. repeat split; vm_compute; reflexivity. Qed.
End early_post.

Section leak.
Context `{Cfg : Config} {Disc : Discipline} `{!ConfigOk Cfg} `{!CoreConfig Cfg}.

(** A creation with a stack too small for a context fails with EINVAL,
    but keeps the thread number it had taken: no thread uses it, and no
    later creation can. *)
Theorem thread_create_leaks_number m self arg task targ stack opt :
  running m self -> create_call m arg task targ stack opt -> opt_stack_size opt < CTX_SIZE ->
  (exists j, is_thread j /\ bget (lget th_alloc m) 0 j = false) ->
  exists th, picks m (opt_id opt) th /\
    thinkos_thread_create_svc arg m =
      Some (tt, st_mem (arg + 4 * 0) THINKOS_EINVAL (st_bit th_alloc 0 th true m)).
Proof.
  intros Hrun [E0 E1 E2 E3] Hsize (j & Hj & Hfree).
  set (Q := fun (_ : unit) m' => exists th, picks m (opt_id opt) th /\
    m' = st_mem (arg + 4 * 0) THINKOS_EINVAL (st_bit th_alloc 0 th true m)).
  destruct (wp_some (thinkos_thread_create_svc arg) Q m) as ([] & m' & E & th & Hp & ->); [|by exists th].
  unfold thinkos_thread_create_svc. do 5 apply wp_bind, wp_arg_rd. rewrite E0, E1, E2, E3.
  apply wp_bind, wp_create_picks; [apply Hrun|apply opt_id_bound| |intros Hall; rewrite Hall in Hfree; done].
  intros th Hp. pose proof Hp as (Hth & _). rewrite (proj2 (Z.ltb_ge th 0)) by (unfold is_thread in Hth; lia).
  cbv zeta. rewrite (proj2 (Z.ltb_lt (opt_stack_size opt) CTX_SIZE)) by done.
  apply wp_arg_wr. by exists th.
Qed.
End leak.

Section leak_example.
#[local] Existing Instance yard_ice_config.
#[local] Existing Instance any_caller.

(** A stack of 32 bytes. *)
Lemma thread_create_leaks_number_witness :
  let m := user_call SP0 THINKOS_THREAD_CREATE 0x08004001 7 0x20003000 0x05000020 s_mutex in
  exists th, picks m (opt_id 0x05000020) th /\
    thinkos_thread_create_svc SP0 m = Some (tt, st_mem (SP0 + 4 * 0) THINKOS_EINVAL (st_bit th_alloc 0 th true m)).
Proof.
  apply (thread_create_leaks_number _ 0 _ 0x08004001 7 0x20003000).
  - apply running_at; [apply user_call_reachable, s_mutex_reachable|by_eval..].
  - split; by_eval.
  - reflexivity.
  - exists 5. split; [in_range|by_eval].
Defined.
End leak_example.

(** ** Impolite callers

    Thread 0 waits for a semaphore; thread 5 sets it to 3, or frees it. *)
Section impolite.
#[local] Existing Instance yard_ice_config.
#[local] Existing Instance any_caller.

Definition i_init := call SP5 THINKOS_SEM_INIT s_sem_no 3 0 0 s_sem_waits.
Definition i_freed := call SP5 THINKOS_SEM_FREE s_sem_no 0 0 0 s_sem_waits.
Definition i_alloc := call SP5 THINKOS_SEM_ALLOC 0 0 0 0 i_freed.

Lemma any_call_reachable svc a0 a1 m :
  reachable m -> lget pendsv m = false -> (0 <=? lget active m) && (lget active m <? THINKOS_THREADS_MAX) = true ->
  ends (cm3_svc_isr LR_PSP (user_call SP5 svc a0 a1 0 0 m)) = true -> reachable (call SP5 svc a0 a1 0 0 m).
Proof.
  intros Hr Hp [?%Z.leb_le ?%Z.ltb_lt]%andb_true_iff Hrun.
  apply (entry_reachable (ESvc LR_PSP)); [by apply user_call_reachable| |exact Hrun].
  split; [split; [exact Hp|by split]|intros []].
Qed.

(** A semaphore that is set to 3 while thread 0 waits for it has 3 tokens and
    a waiter: the wake-up is lost. The thread goes on only when somebody posts
    once more. *)
Theorem sem_init_loses_wakeup :
  reachable i_init /\ 0 ∈ waiters i_init s_sem_no /\ zget (lget sem_val i_init) (s_sem_no - THINKOS_SEM_BASE) = 3 /\
  lget pendsv i_init = false /\ ~ can_wait i_init s_sem_no 0.
Proof.
  split; [apply any_call_reachable; [apply s_sem_waits_reachable|by_eval..]|].
  split; [apply elem_of_threads_in; split; [in_range|by_eval]|]. split; [by_eval|]. split; [by_eval|].
  intros [_ _ H _ _]. destruct (H 0 ltac:(in_range) ltac:(by_eval)) as [E _]. vm_compute in E. discriminate E.
Qed.

(** A semaphore that is freed while thread 0 waits for it leaves the thread in
    its queue: a post is then refused, and the next allocation hands out the
    same number with the old waiter in it. *)
Theorem free_strands_waiter :
  reachable i_freed /\ 0 ∈ waiters i_freed s_sem_no /\
  load (lget mem (call SP5 THINKOS_SEM_POST s_sem_no 0 0 0 i_freed)) SP5 = u32 THINKOS_EINVAL /\
  load (lget mem i_alloc) SP5 = s_sem_no /\ 0 ∈ waiters i_alloc s_sem_no.
Proof.
  split; [apply any_call_reachable; [apply s_sem_waits_reachable|by_eval..]|].
  split; [apply elem_of_threads_in; split; [in_range|by_eval]|]. split; [by_eval|]. split; [by_eval|].
  apply elem_of_threads_in; split; [in_range|by_eval].
Qed.
End impolite.
