(* ===== verification/Bits.v ===== *)
(** * Bit and byte utilities

    [sdk/libutil] ([ilog2], [isqrt], [__bswap_16], [__bswap_32]) and [ffs] of
    [sdk/libc]. An [int] argument is its signed value, an [unsigned] one its
    value below 2^32; [long] has 32 bits. *)

From S2P Require Import Prelude Arch.

Module LibUtil.
Definition DEBRUIJN32 := 0x077cb531.

Definition ffs_debruijn_index : list Z :=
  [1; 2; 29; 3; 30; 15; 25; 4; 31; 23; 21; 16; 26; 18; 5; 9;
   32; 28; 14; 24; 22; 20; 17; 8; 27; 13; 19; 7; 12; 6; 11; 10].
Definition log2_debruijn_index : list Z :=
  [0; 1; 28; 2; 29; 14; 24; 3; 30; 22; 20; 15; 25; 17; 4; 8;
   31; 27; 13; 23; 21; 19; 16; 7; 26; 12; 18; 6; 11; 5; 10; 9].

(** [i & -i] is an [int]; the product is [unsigned long]. *)
Definition ffs (i : Z) : Z :=
  if i =? 0 then 0
  else zget ffs_debruijn_index (Z.shiftr (u32 (u32 (Z.land i (- i)) * DEBRUIJN32)) 27).

Definition ilog2_smear (v : Z) : Z :=
  let v := Z.lor v (Z.shiftr v 1) in
  let v := Z.lor v (Z.shiftr v 2) in
  let v := Z.lor v (Z.shiftr v 4) in
  let v := Z.lor v (Z.shiftr v 8) in
  Z.lor v (Z.shiftr v 16).
Definition ilog2 (v : Z) : Z :=
  let v := Z.shiftr (ilog2_smear v) 1 + 1 in
  zget log2_debruijn_index (Z.shiftr (u32 (u32 v * DEBRUIJN32)) 27).

(** One round of [isqrt] on [(rem, root, x)]. *)
Definition isqrt_round (s : Z * Z * Z) : Z * Z * Z :=
  let '(rem, root, x) := s in
  let root := u32 (Z.shiftl root 1) in
  let rem := u32 (u32 (Z.shiftl rem 2) + Z.shiftr x 30) in
  let x := u32 (Z.shiftl x 2) in
  let root := u32 (root + 1) in
  if root <=? rem then (u32 (rem - root), u32 (root + 1), x) else (rem, u32 (root - 1), x).
Definition isqrt (x : Z) : Z :=
  let '(_, root, _) := Nat.iter 16 isqrt_round (0, 0, x) in Z.shiftr root 1.

Definition __bswap_16 (v : Z) : Z :=
  Z.lor (Z.shiftl (Z.land v 0xff) 8) (Z.shiftr (Z.land v 0xff00) 8).
Definition __bswap_32 (v : Z) : Z :=
  Z.lor (Z.lor (Z.lor (u32 (Z.shiftl (Z.land v 0xff) 24)) (Z.shiftl (Z.land v 0xff00) 8))
    (Z.shiftr (Z.land v 0xff0000) 8)) (Z.shiftr (Z.land v 0xff000000) 24).

(** ** The lowest set bit *)

Lemma land_opp_odd q : Z.land (2 * q + 1) (- (2 * q + 1)) = 1.
Proof.
  replace (- (2 * q + 1)) with (2 * Z.lnot q + 1) by (unfold Z.lnot; lia).
  apply Z.bits_inj'. intros j Hj. rewrite Z.land_spec. destruct (Z.eq_dec j 0) as [->|Hne].
  - rewrite !Z.testbit_odd_0. done.
  - replace j with (Z.succ (j - 1)) by lia. rewrite !Z.testbit_odd_succ, Z.lnot_spec by lia.
    rewrite (Z.bits_above_log2 1) by (cbn; lia). apply andb_negb_r.
Qed.

(** [w & -w] keeps the lowest set bit. *)
Lemma land_opp w n : 0 <= n -> Z.testbit w n = true -> (forall j, 0 <= j < n -> Z.testbit w j = false) ->
  Z.land w (- w) = 2 ^ n.
Proof.
  intros Hn Hb Hz. assert (w = Z.shiftl (Z.shiftr w n) n) as E.
  { apply Z.bits_inj'. intros j Hj. destruct (Z_lt_le_dec j n).
    - rewrite Z.shiftl_spec_low, Hz by lia. done.
    - rewrite Z.shiftl_spec, Z.shiftr_spec by lia. f_equal. lia. }
  assert (Z.odd (Z.shiftr w n) = true) as Ho by (rewrite <-Z.bit0_odd, Z.shiftr_spec; [exact Hb|done]).
  apply Z.odd_spec in Ho as [q Eq]. rewrite Eq in E. rewrite E.
  replace (- Z.shiftl (2 * q + 1) n) with (Z.shiftl (- (2 * q + 1)) n) by (rewrite !Z.shiftl_mul_pow2 by done; ring).
  by rewrite <-Z.shiftl_land, land_opp_odd, Z.shiftl_1_l.
Qed.

Lemma u32_bit w j : 0 <= j < 32 -> Z.testbit (u32 w) j = Z.testbit w j.
Proof. intros Hj. unfold u32, wrap. apply Z.mod_pow2_bits_low. lia. Qed.

(** The product with the de Bruijn constant brings a different index to the
    top five bits for every power of two. *)
Lemma debruijn_table n : 0 <= n < 32 ->
  zget ffs_debruijn_index (Z.shiftr (u32 (u32 (2 ^ n) * DEBRUIJN32)) 27) = n + 1 /\
  zget log2_debruijn_index (Z.shiftr (u32 (u32 (2 ^ n) * DEBRUIJN32)) 27) = n.
Proof.
  intros Hn. assert (forallb (fun n =>
    (zget ffs_debruijn_index (Z.shiftr (u32 (u32 (2 ^ n) * DEBRUIJN32)) 27) =? n + 1) &&
    (zget log2_debruijn_index (Z.shiftr (u32 (u32 (2 ^ n) * DEBRUIJN32)) 27) =? n)) (seqZ 0 32) = true) as H
    by (vm_compute; reflexivity).
  rewrite forallb_forall in H. specialize (H n).
  assert (In n (seqZ 0 32)) as Hin by (apply list_elem_of_In, elem_of_seqZ; lia).
  specialize (H Hin). apply andb_true_iff in H. by rewrite !Z.eqb_eq in H.
Qed.

(** ** Rounding down to a power of two *)

(** All bits from [n - k + 1] to [n] are set, and none above. *)
Definition smeared (n k v : Z) : Prop :=
  (forall i, n < i -> Z.testbit v i = false) /\ (forall i, 0 <= i -> n - k < i <= n -> Z.testbit v i = true).

Lemma smear_step n k v : 0 <= k -> smeared n k v -> smeared n (2 * k) (Z.lor v (Z.shiftr v k)).
Proof.
  intros Hk [Hh Hs]. split; intros i Hi.
  - destruct (Z_lt_le_dec i 0); [by rewrite !Z.testbit_neg_r|].
    rewrite Z.lor_spec, Z.shiftr_spec, !Hh by lia. done.
  - intros Hr. rewrite Z.lor_spec, Z.shiftr_spec by lia.
    destruct (Z_lt_le_dec (n - k) i); [by rewrite Hs by lia|]. rewrite (Hs (i + k)) by lia. apply orb_true_r.
Qed.

Lemma ilog2_smear_ones v : 0 < v < 2 ^ 32 -> ilog2_smear v = Z.ones (Z.log2 v + 1).
Proof.
  intros Hv. set (n := Z.log2 v). assert (0 <= n) by apply Z.log2_nonneg.
  assert (n < 32) by (apply Z.log2_lt_pow2; lia).
  assert (smeared n 1 v) as H1.
  { split; [intros; apply Z.bits_above_log2; [lia|done]|]. intros i ? ?. replace i with n by lia. apply Z.bit_log2. lia. }
  do 5 apply smear_step in H1; try lia. unfold ilog2_smear. simpl Z.mul in H1. destruct H1 as [Hh Hs].
  apply Z.bits_inj'. intros i Hi. rewrite Z.testbit_ones_nonneg by lia.
  destruct (Z.ltb_spec i (n + 1)); [apply Hs; lia|apply Hh; lia].
Qed.

(** ** Integer square root *)

(** After [k] rounds the top [2 k] bits of the argument are [root^2 + rem],
    with twice the root kept, and the rest of the argument shifted up. *)
Definition isqrt_inv (x0 : Z) (k : Z) (s : Z * Z * Z) : Prop :=
  let '(rem, root, x) := s in
  exists r, 0 <= r /\ root = 2 * r /\ 0 <= rem <= 2 * r /\
    x0 / 2 ^ (32 - 2 * k) = r * r + rem /\ x = x0 mod 2 ^ (32 - 2 * k) * 2 ^ (2 * k).

Lemma isqrt_round_inv x0 k s : 0 <= x0 < 2 ^ 32 -> 0 <= k < 16 ->
  isqrt_inv x0 k s -> isqrt_inv x0 (k + 1) (isqrt_round s).
Proof.
  destruct s as [[rem root] x]. intros Hx0 Hk (r & Hr & -> & Hrem & E & ->).
  pose proof (Z.pow_pos_nonneg 2 (30 - 2 * k) ltac:(lia) ltac:(lia)) as Hp.
  pose proof (Z.pow_pos_nonneg 2 (2 * k) ltac:(lia) ltac:(lia)) as Hp'.
  set (q := 2 ^ (30 - 2 * k)) in *.
  assert (2 ^ (32 - 2 * k) = 4 * q) as E4.
  { replace (32 - 2 * k) with (2 + (30 - 2 * k)) by lia. by rewrite Z.pow_add_r by lia. }
  assert (q * 2 ^ (2 * k) = 2 ^ 30) as Eq by (unfold q; rewrite <-Z.pow_add_r by lia; f_equal; lia).
  rewrite E4 in *. set (d := x0 / q mod 4).
  (* the next two bits *)
  assert (x0 / q = 4 * (r * r + rem) + d) as Ed.
  { unfold d. rewrite <-E. rewrite (Z.mul_comm 4 q), <-Z.div_div by lia. apply Z.div_mod. lia. }
  assert (x0 mod (4 * q) = d * q + x0 mod q) as Em.
  { rewrite (Z.mul_comm 4 q), Z.rem_mul_r by lia. unfold d. lia. }
  pose proof (Z.mod_pos_bound x0 q Hp). assert (0 <= d < 4) by (apply Z.mod_pos_bound; lia).
  assert (r < 2 ^ 15) as Hrb.
  { assert (x0 / (4 * q) < 4 ^ k).
    { apply Z.div_lt_upper_bound; [lia|]. change 4 with (2 ^ 2) at 2. rewrite <-Z.pow_mul_r by lia. lia. }
    assert (4 ^ k <= 4 ^ 15) by (apply Z.pow_le_mono_r; lia). nia. }
  set (P := 2 ^ (2 * k)) in *. set (m := x0 mod q) in *. rewrite Em.
  assert (Z.shiftr ((d * q + m) * P) 30 = d) as Ex.
  { rewrite Z.shiftr_div_pow2, <-Eq, Z.div_mul_cancel_r, Z.div_add_l, Z.div_small by lia. lia. }
  assert (u32 (Z.shiftl ((d * q + m) * P) 2) = m * (4 * P)) as Ey.
  { rewrite Z.shiftl_mul_pow2 by lia. unfold u32, wrap.
    replace ((d * q + m) * P * 2 ^ 2) with (m * (4 * P) + d * (4 * (q * P))) by (simpl Z.pow; ring).
    rewrite Eq. change (4 * 2 ^ 30) with (2 ^ 32). rewrite Z_mod_plus_full. apply Z.mod_small.
    assert (m * (4 * P) < q * (4 * P)) by (apply Z.mul_lt_mono_pos_r; lia). lia. }
  unfold isqrt_round. rewrite Ex, Ey. rewrite !Z.shiftl_mul_pow2 by lia.
  change (2 ^ 1) with 2. change (2 ^ 2) with 4.
  rewrite (u32_small (2 * r * 2)), (u32_small (rem * 4)), (u32_small (2 * r * 2 + 1)), (u32_small (rem * 4 + d)) by lia.
  assert (32 - 2 * (k + 1) = 30 - 2 * k) as E30 by lia.
  assert (2 ^ (2 * (k + 1)) = 4 * P) as EP.
  { unfold P. replace (2 * (k + 1)) with (2 + 2 * k) by lia. by rewrite Z.pow_add_r by lia. }
  destruct (Z.leb_spec (2 * r * 2 + 1) (rem * 4 + d)); unfold isqrt_inv; rewrite E30, EP; fold q; fold m; rewrite Ed.
  - exists (2 * r + 1). rewrite !u32_small by lia. repeat split; lia.
  - exists (2 * r). rewrite u32_small by lia. repeat split; lia.
Qed.

Lemma isqrt_rounds x n : 0 <= x < 2 ^ 32 -> (n <= 16)%nat ->
  isqrt_inv x (Z.of_nat n) (Nat.iter n isqrt_round (0, 0, x)).
Proof.
  intros Hx. induction n as [|n IH]; intros Hn.
  - exists 0. repeat split; lia.
  - rewrite Nat2Z.inj_succ, <-Z.add_1_r. cbn [Nat.iter nat_rect]. apply isqrt_round_inv; [done|lia|]. apply IH. lia.
Qed.

(** ** Results *)

(** [isqrt] is the integer square root of every 32-bit number: no
    intermediate value overflows. *)
Theorem isqrt_correct x : 0 <= x < 2 ^ 32 -> isqrt x = Z.sqrt x.
Proof.
  intros Hx. unfold isqrt. pose proof (isqrt_rounds x 16 Hx ltac:(lia)) as H.
  destruct (Nat.iter 16 isqrt_round (0, 0, x)) as [[rem root] y].
  destruct H as (r & Hr & -> & Hrem & E & _). change (2 ^ (32 - 2 * Z.of_nat 16)) with 1 in E.
  rewrite Z.div_1_r in E. rewrite Z.shiftr_div_pow2 by lia. change (2 ^ 1) with 2.
  rewrite Z.mul_comm, Z.div_mul by lia. symmetry. apply Z.sqrt_unique. lia.
Qed.

(** The de Bruijn multiplications find the bits they look for: [ffs] is
    one more than the kernel's [clz(rbit)] search on the same word, or 0, for
    every [int], the most negative one included; [ilog2] is the binary
    logarithm of every positive [int]. *)
Theorem debruijn_correct i :
  - 2 ^ 31 <= i < 2 ^ 31 ->
  ffs i = (if i =? 0 then 0 else Arch.ffs (u32 i) + 1) /\ (0 < i -> ilog2 i = Z.log2 i).
Proof.
  intros Hi. split.
  - unfold ffs. destruct (Z.eqb_spec i 0) as [|Hnz]; [done|].
    pose proof (ffs_bound (u32 i)) as Hb.
    assert (Arch.ffs (u32 i) < 32) as Hlt.
    { destruct (Z.eq_dec (Arch.ffs (u32 i)) 32) as [E|]; [|lia]. apply ffs_zero in E; [|apply u32_bound].
      unfold u32, wrap in E. lia. }
    set (n := Arch.ffs (u32 i)) in *. rewrite (land_opp i n); [apply debruijn_table; lia|lia| |].
    + rewrite <-u32_bit by lia. by apply ffs_bit.
    + intros j Hj. rewrite <-u32_bit by lia. apply ffs_below. exact Hj.
  - intros Hpos. unfold ilog2. rewrite ilog2_smear_ones by lia. set (n := Z.log2 i).
    assert (0 <= n) by apply Z.log2_nonneg. assert (n < 31) by (apply Z.log2_lt_pow2; lia).
    replace (Z.shiftr (Z.ones (n + 1)) 1 + 1) with (2 ^ n); [by apply debruijn_table; lia|].
    rewrite Z.ones_equiv, Z.shiftr_div_pow2, Z.pow_add_r by lia. change (2 ^ 1) with 2.
    pose proof (Z.pow_pos_nonneg 2 n ltac:(lia) ltac:(lia)). lia.
Qed.

(** One byte of a word, in place. *)
Lemma byte_bits v n j : 0 <= n -> 0 <= j ->
  Z.testbit (Z.land v (Z.shiftl 255 n)) j = Z.testbit v j && ((n <=? j) && (j <? n + 8)).
Proof.
  intros Hn Hj. rewrite Z.land_spec. f_equal. rewrite Z.shiftl_spec by done. change 255 with (Z.ones 8).
  destruct (Z.leb_spec n j); [|rewrite Z.testbit_neg_r by lia; done].
  rewrite Z.testbit_ones_nonneg by lia. destruct (Z.ltb_spec (j - n) 8), (Z.ltb_spec j (n + 8)); lia || done.
Qed.

Lemma bswap_32_bits v j : 0 <= j < 32 ->
  Z.testbit (__bswap_32 v) j = Z.testbit v (8 * (3 - j / 8) + j mod 8).
Proof.
  intros Hj. unfold __bswap_32. rewrite !Z.lor_spec, !Z.shiftr_spec, u32_bit, !Z.shiftl_spec by lia.
  change 65280 with (Z.shiftl 255 8). change 16711680 with (Z.shiftl 255 16). change 4278190080 with (Z.shiftl 255 24).
  change (Z.land v 255) with (Z.land v (Z.shiftl 255 0)).
  assert (j / 8 = 0 \/ j / 8 = 1 \/ j / 8 = 2 \/ j / 8 = 3) as Hq by lia.
  assert (forall n i, 0 <= n -> Z.testbit (Z.land v (Z.shiftl 255 n)) i = Z.testbit v i && ((n <=? i) && (i <? n + 8))) as Hb.
  { intros n i Hn. destruct (Z_lt_le_dec i 0); [by rewrite !Z.testbit_neg_r|by apply byte_bits]. }
  rewrite !Hb by lia. pose proof (Z.div_mod j 8 ltac:(lia)) as Ed. pose proof (Z.mod_pos_bound j 8 ltac:(lia)).
  set (i := 8 * (3 - j / 8) + j mod 8).
  assert (forall n k, (n <=? k) && (k <? n + 8) = bool_decide (n <= k < n + 8)) as Hd.
  { intros n k. destruct (Z.leb_spec n k), (Z.ltb_spec k (n + 8)); symmetry;
      [apply bool_decide_true; lia|apply bool_decide_false; lia..]. }
  rewrite !Hd. destruct Hq as [Hq|[Hq|[Hq|Hq]]]; rewrite Hq in Ed; unfold i; rewrite Hq;
    repeat (first [rewrite (bool_decide_true (_ <= _ < _)) by lia | rewrite (bool_decide_false (_ <= _ < _)) by lia]);
    rewrite ?andb_false_r, ?andb_true_r, ?orb_false_r, ?orb_false_l; f_equal; lia.
Qed.

Lemma bswap_32_bound v : 0 <= __bswap_32 v < 2 ^ 32.
Proof.
  assert (0 <= __bswap_32 v) as H0.
  { unfold __bswap_32. rewrite !Z.lor_nonneg, !Z.shiftr_nonneg, !Z.shiftl_nonneg, !Z.land_nonneg.
    pose proof (u32_bound (Z.shiftl (Z.land v 255) 24)). repeat split; right || lia; lia. }
  split; [done|]. apply bits_bound; [lia|done|]. intros i Hi. unfold __bswap_32.
  rewrite !Z.lor_spec, !Z.shiftr_spec, !Z.shiftl_spec by lia. rewrite !Z.land_spec.
  rewrite (testbit_high (u32 _) 32) by (try apply u32_bound; lia).
  rewrite (testbit_high 65280 16), (testbit_high 16711680 24), (testbit_high 4278190080 32) by lia.
  by rewrite !andb_false_r.
Qed.

(** [__bswap_32] reverses the four bytes of a word, and swapping twice
    gives the word back. *)
Theorem bswap_32_swaps v :
  (forall k, 0 <= k < 4 -> Z.land (Z.shiftr (__bswap_32 v) (8 * k)) 0xff = Z.land (Z.shiftr v (8 * (3 - k))) 0xff) /\
  __bswap_32 (__bswap_32 v) = u32 v.
Proof.
  split.
  - intros k Hk. apply Z.bits_inj'. intros j Hj. rewrite !Z.land_spec, !Z.shiftr_spec by lia.
    destruct (Z_lt_le_dec j 8); [|by rewrite !(testbit_high 255 8 j), !andb_false_r by lia].
    rewrite bswap_32_bits by lia. f_equal. f_equal. lia.
  - apply Z.bits_inj'. intros j Hj. destruct (Z_lt_le_dec j 32).
    + rewrite bswap_32_bits, bswap_32_bits, u32_bit by lia. f_equal. lia.
    + rewrite !(testbit_high _ 32 j); auto using u32_bound, bswap_32_bound; lia.
Qed.
Lemma isqrt_correct_witness : 0 <= 4294967295 < 2 ^ 32 /\ isqrt 4294967295 = Z.sqrt 4294967295.
Proof. split; [lia|]. apply isqrt_correct. lia. Defined.

Lemma debruijn_correct_witness :
  ffs (- 2 ^ 31) = (if - 2 ^ 31 =? 0 then 0 else Arch.ffs (u32 (- 2 ^ 31)) + 1) /\
  (0 < - 2 ^ 31 -> ilog2 (- 2 ^ 31) = Z.log2 (- 2 ^ 31)).
Proof. apply debruijn_correct. lia. Defined.

Lemma bswap_32_swaps_witness :
  (forall k, 0 <= k < 4 ->
    Z.land (Z.shiftr (__bswap_32 0x12345678) (8 * k)) 0xff = Z.land (Z.shiftr 0x12345678 (8 * (3 - k))) 0xff) /\
  __bswap_32 (__bswap_32 0x12345678) = u32 0x12345678.
Proof. apply bswap_32_swaps. Defined.
End LibUtil.
