(* ===== verification/Crc.v ===== *)
(** * Cyclic redundancy checks

    [sdk/libcrc]: the bit-expression, 4-bit-table and 8-bit-table
    implementations of CRC-16, CRC-8 and CRC-5, and the CRC-16 of XMODEM. An
    [unsigned int] register is its value; a read of a table is checked, [None]
    being a read outside of it. *)

From S2P Require Import Prelude.

Module Crc.
(** A read of a constant table. *)
Definition lut (t : list Z) (i : Z) : option Z := if i <? 0 then None else t !! Z.to_nat i.

(** The loop over the bytes of the buffer. *)
Fixpoint over (step : Z -> Z -> option Z) (crc : Z) (data : list Z) : option Z :=
  match data with
  | [] => Some crc
  | b :: data => crc ← step crc b; over step crc data
  end.

(** ** CRC-16 *)

Definition crc16bwe_step (crc b : Z) : Z :=
  let crc := Z.lor (Z.shiftr crc 8) (Z.shiftl (Z.land crc 0xff) 8) in
  let crc := Z.lxor crc (Z.shiftl b 8) in
  let crc := Z.lxor crc (Z.land (Z.shiftl crc 4) 0xf000) in
  let crc := Z.lxor crc (Z.land (Z.shiftr crc 12) 0x000f) in
  Z.lxor crc (Z.land (Z.shiftr crc 5) 0x07f8).
Definition crc16bwe (buf : list Z) : option Z :=
  crc ← over (fun crc b => Some (crc16bwe_step crc b)) 0xffff buf; Some (Z.lxor crc 0xffff).

Definition crc16tbl4_table : list Z :=
  [0x0000; 0x1081; 0x2102; 0x3183; 0x4204; 0x5285; 0x6306; 0x7387; 0x8408; 0x9489; 0xa50a; 0xb58b;
   0xc60c; 0xd68d; 0xe70e; 0xf78f; 0x0000; 0x1189; 0x2312; 0x329b; 0x4624; 0x57ad; 0x6536; 0x74bf;
   0x8c48; 0x9dc1; 0xaf5a; 0xbed3; 0xca6c; 0xdbe5; 0xe97e; 0xf8f7].
Definition crc16tbl4_step (crc b : Z) : option Z :=
  let crc := Z.lxor crc b in
  hi ← lut crc16tbl4_table (Z.land (Z.shiftr crc 4) 15);
  lo ← lut crc16tbl4_table (Z.land crc 15 + 16);
  Some (Z.lxor (Z.lxor (Z.shiftr crc 8) hi) lo).
Definition crc16tbl4 (data : list Z) : option Z :=
  crc ← over crc16tbl4_step 0xffff data; Some (Z.lxor crc 0xffff).

Definition crc16lut : list Z :=
  [0x0000; 0x1189; 0x2312; 0x329b; 0x4624; 0x57ad; 0x6536; 0x74bf; 0x8c48; 0x9dc1; 0xaf5a; 0xbed3;
   0xca6c; 0xdbe5; 0xe97e; 0xf8f7; 0x1081; 0x0108; 0x3393; 0x221a; 0x56a5; 0x472c; 0x75b7; 0x643e;
   0x9cc9; 0x8d40; 0xbfdb; 0xae52; 0xdaed; 0xcb64; 0xf9ff; 0xe876; 0x2102; 0x308b; 0x0210; 0x1399;
   0x6726; 0x76af; 0x4434; 0x55bd; 0xad4a; 0xbcc3; 0x8e58; 0x9fd1; 0xeb6e; 0xfae7; 0xc87c; 0xd9f5;
   0x3183; 0x200a; 0x1291; 0x0318; 0x77a7; 0x662e; 0x54b5; 0x453c; 0xbdcb; 0xac42; 0x9ed9; 0x8f50;
   0xfbef; 0xea66; 0xd8fd; 0xc974; 0x4204; 0x538d; 0x6116; 0x709f; 0x0420; 0x15a9; 0x2732; 0x36bb;
   0xce4c; 0xdfc5; 0xed5e; 0xfcd7; 0x8868; 0x99e1; 0xab7a; 0xbaf3; 0x5285; 0x430c; 0x7197; 0x601e;
   0x14a1; 0x0528; 0x37b3; 0x263a; 0xdecd; 0xcf44; 0xfddf; 0xec56; 0x98e9; 0x8960; 0xbbfb; 0xaa72;
   0x6306; 0x728f; 0x4014; 0x519d; 0x2522; 0x34ab; 0x0630; 0x17b9; 0xef4e; 0xfec7; 0xcc5c; 0xddd5;
   0xa96a; 0xb8e3; 0x8a78; 0x9bf1; 0x7387; 0x620e; 0x5095; 0x411c; 0x35a3; 0x242a; 0x16b1; 0x0738;
   0xffcf; 0xee46; 0xdcdd; 0xcd54; 0xb9eb; 0xa862; 0x9af9; 0x8b70; 0x8408; 0x9581; 0xa71a; 0xb693;
   0xc22c; 0xd3a5; 0xe13e; 0xf0b7; 0x0840; 0x19c9; 0x2b52; 0x3adb; 0x4e64; 0x5fed; 0x6d76; 0x7cff;
   0x9489; 0x8500; 0xb79b; 0xa612; 0xd2ad; 0xc324; 0xf1bf; 0xe036; 0x18c1; 0x0948; 0x3bd3; 0x2a5a;
   0x5ee5; 0x4f6c; 0x7df7; 0x6c7e; 0xa50a; 0xb483; 0x8618; 0x9791; 0xe32e; 0xf2a7; 0xc03c; 0xd1b5;
   0x2942; 0x38cb; 0x0a50; 0x1bd9; 0x6f66; 0x7eef; 0x4c74; 0x5dfd; 0xb58b; 0xa402; 0x9699; 0x8710;
   0xf3af; 0xe226; 0xd0bd; 0xc134; 0x39c3; 0x284a; 0x1ad1; 0x0b58; 0x7fe7; 0x6e6e; 0x5cf5; 0x4d7c;
   0xc60c; 0xd785; 0xe51e; 0xf497; 0x8028; 0x91a1; 0xa33a; 0xb2b3; 0x4a44; 0x5bcd; 0x6956; 0x78df;
   0x0c60; 0x1de9; 0x2f72; 0x3efb; 0xd68d; 0xc704; 0xf59f; 0xe416; 0x90a9; 0x8120; 0xb3bb; 0xa232;
   0x5ac5; 0x4b4c; 0x79d7; 0x685e; 0x1ce1; 0x0d68; 0x3ff3; 0x2e7a; 0xe70e; 0xf687; 0xc41c; 0xd595;
   0xa12a; 0xb0a3; 0x8238; 0x93b1; 0x6b46; 0x7acf; 0x4854; 0x59dd; 0x2d62; 0x3ceb; 0x0e70; 0x1ff9;
   0xf78f; 0xe606; 0xd49d; 0xc514; 0xb1ab; 0xa022; 0x92b9; 0x8330; 0x7bc7; 0x6a4e; 0x58d5; 0x495c;
   0x3de3; 0x2c6a; 0x1ef1; 0x0f78].
Definition crc16tbl8_step (crc b : Z) : option Z :=
  t ← lut crc16lut (Z.land (Z.lxor crc b) 0xff);
  Some (Z.lxor t (Z.shiftr crc 8)).
Definition crc16tbl8 (data : list Z) : option Z :=
  crc ← over crc16tbl8_step 0xffff data; Some (Z.lxor crc 0xffff).

Definition crc16ccitt_step (crc c : Z) : Z :=
  let crc := Z.lor (Z.shiftr crc 8) (Z.shiftl (Z.land crc 0xff) 8) in
  let crc := Z.lxor crc c in
  let crc := Z.lxor crc (Z.shiftr (Z.land crc 0xff) 4) in
  let crc := Z.lxor crc (Z.shiftl (Z.land crc 0x0f) 12) in
  Z.lxor crc (Z.shiftl (Z.land crc 0xff) 5).
Definition crc16ccitt (crc : Z) (buf : list Z) : option Z :=
  over (fun crc c => Some (crc16ccitt_step crc c)) crc buf.

(** ** CRC-8 *)

Definition crc_bitwise_expression (bits : Z) : Z :=
  let a := Z.lxor (Z.lxor (Z.shiftr bits 2) (Z.shiftr bits 1)) bits in
  Z.lor (Z.lor (Z.lor (Z.land a 0x0f)
    (Z.land (Z.lxor a (Z.shiftl bits 4)) 0x30))
    (Z.land (Z.lxor (Z.lxor (Z.shiftr bits 1) bits) (Z.shiftl bits 5)) 0x40))
    (Z.land (Z.lxor (Z.lxor bits (Z.shiftl bits 6)) (Z.shiftl bits 7)) 0x80).
Definition crc8bwe (data : list Z) : option Z :=
  crc ← over (fun crc b => Some (crc_bitwise_expression (Z.lxor crc b))) 0xff data; Some (Z.lxor crc 0xff).

Definition crc8tbl4_lut : list Z :=
  [0x00; 0x1c; 0x38; 0x24; 0x70; 0x6c; 0x48; 0x54; 0xe0; 0xfc; 0xd8; 0xc4;
   0x90; 0x8c; 0xa8; 0xb4; 0x00; 0x91; 0xe3; 0x72; 0x07; 0x96; 0xe4; 0x75;
   0x0e; 0x9f; 0xed; 0x7c; 0x09; 0x98; 0xea; 0x7b].
Definition crc8tbl4_step (crc b : Z) : option Z :=
  let idx := Z.lxor crc b in
  lo ← lut crc8tbl4_lut (Z.land idx 0x0f + 16);
  hi ← lut crc8tbl4_lut (Z.shiftr idx 4);
  Some (Z.lxor lo hi).
Definition crc8tbl4 (data : list Z) : option Z :=
  crc ← over crc8tbl4_step 0xff data; Some (Z.lxor crc 0xff).

Definition crc8tbl8_table : list Z :=
  [0x00; 0x91; 0xe3; 0x72; 0x07; 0x96; 0xe4; 0x75; 0x0e; 0x9f; 0xed; 0x7c;
   0x09; 0x98; 0xea; 0x7b; 0x1c; 0x8d; 0xff; 0x6e; 0x1b; 0x8a; 0xf8; 0x69;
   0x12; 0x83; 0xf1; 0x60; 0x15; 0x84; 0xf6; 0x67; 0x38; 0xa9; 0xdb; 0x4a;
   0x3f; 0xae; 0xdc; 0x4d; 0x36; 0xa7; 0xd5; 0x44; 0x31; 0xa0; 0xd2; 0x43;
   0x24; 0xb5; 0xc7; 0x56; 0x23; 0xb2; 0xc0; 0x51; 0x2a; 0xbb; 0xc9; 0x58;
   0x2d; 0xbc; 0xce; 0x5f; 0x70; 0xe1; 0x93; 0x02; 0x77; 0xe6; 0x94; 0x05;
   0x7e; 0xef; 0x9d; 0x0c; 0x79; 0xe8; 0x9a; 0x0b; 0x6c; 0xfd; 0x8f; 0x1e;
   0x6b; 0xfa; 0x88; 0x19; 0x62; 0xf3; 0x81; 0x10; 0x65; 0xf4; 0x86; 0x17;
   0x48; 0xd9; 0xab; 0x3a; 0x4f; 0xde; 0xac; 0x3d; 0x46; 0xd7; 0xa5; 0x34;
   0x41; 0xd0; 0xa2; 0x33; 0x54; 0xc5; 0xb7; 0x26; 0x53; 0xc2; 0xb0; 0x21;
   0x5a; 0xcb; 0xb9; 0x28; 0x5d; 0xcc; 0xbe; 0x2f; 0xe0; 0x71; 0x03; 0x92;
   0xe7; 0x76; 0x04; 0x95; 0xee; 0x7f; 0x0d; 0x9c; 0xe9; 0x78; 0x0a; 0x9b;
   0xfc; 0x6d; 0x1f; 0x8e; 0xfb; 0x6a; 0x18; 0x89; 0xf2; 0x63; 0x11; 0x80;
   0xf5; 0x64; 0x16; 0x87; 0xd8; 0x49; 0x3b; 0xaa; 0xdf; 0x4e; 0x3c; 0xad;
   0xd6; 0x47; 0x35; 0xa4; 0xd1; 0x40; 0x32; 0xa3; 0xc4; 0x55; 0x27; 0xb6;
   0xc3; 0x52; 0x20; 0xb1; 0xca; 0x5b; 0x29; 0xb8; 0xcd; 0x5c; 0x2e; 0xbf;
   0x90; 0x01; 0x73; 0xe2; 0x97; 0x06; 0x74; 0xe5; 0x9e; 0x0f; 0x7d; 0xec;
   0x99; 0x08; 0x7a; 0xeb; 0x8c; 0x1d; 0x6f; 0xfe; 0x8b; 0x1a; 0x68; 0xf9;
   0x82; 0x13; 0x61; 0xf0; 0x85; 0x14; 0x66; 0xf7; 0xa8; 0x39; 0x4b; 0xda;
   0xaf; 0x3e; 0x4c; 0xdd; 0xa6; 0x37; 0x45; 0xd4; 0xa1; 0x30; 0x42; 0xd3;
   0xb4; 0x25; 0x57; 0xc6; 0xb3; 0x22; 0x50; 0xc1; 0xba; 0x2b; 0x59; 0xc8;
   0xbd; 0x2c; 0x5e; 0xcf].
Definition crc8tbl8 (data : list Z) : option Z :=
  crc ← over (fun crc b => lut crc8tbl8_table (Z.lxor crc b)) 0xff data; Some (Z.lxor crc 0xff).

(** ** CRC-5 *)

Definition crc5bwe_step (crc b : Z) : Z :=
  let crc := Z.lxor crc b in
  let a := Z.lxor (Z.shiftl crc 2) (Z.shiftl crc 3) in
  let crc := Z.lxor crc (Z.lxor (Z.lxor (Z.shiftr crc 3) a) (Z.shiftl a 4)) in
  Z.lor (Z.land crc 0x18) (Z.land (Z.shiftr crc 5) 0x07).
Definition crc5bwe (data : list Z) : option Z :=
  crc ← over (fun crc b => Some (crc5bwe_step crc b)) 0x1f data; Some (Z.lxor crc 0x1f).

Definition crc5tbl4_lut : list Z :=
  [0x00; 0x16; 0x05; 0x13; 0x0a; 0x1c; 0x0f; 0x19; 0x14; 0x02; 0x11; 0x07;
   0x1e; 0x08; 0x1b; 0x0d; 0x00; 0x0e; 0x1c; 0x12; 0x11; 0x1f; 0x0d; 0x03;
   0x0b; 0x05; 0x17; 0x19; 0x1a; 0x14; 0x06; 0x08].
Definition crc5tbl4_step (crc b : Z) : option Z :=
  let idx := Z.lxor crc b in
  lo ← lut crc5tbl4_lut (Z.land idx 0x0f + 16);
  hi ← lut crc5tbl4_lut (Z.shiftr idx 4);
  Some (Z.lxor lo hi).
Definition crc5tbl4 (data : list Z) : option Z :=
  crc ← over crc5tbl4_step 0x1f data; Some (Z.lxor crc 0x1f).

Definition crc5tbl8_lut : list Z :=
  [0x00; 0x0e; 0x1c; 0x12; 0x11; 0x1f; 0x0d; 0x03; 0x0b; 0x05; 0x17; 0x19;
   0x1a; 0x14; 0x06; 0x08; 0x16; 0x18; 0x0a; 0x04; 0x07; 0x09; 0x1b; 0x15;
   0x1d; 0x13; 0x01; 0x0f; 0x0c; 0x02; 0x10; 0x1e; 0x05; 0x0b; 0x19; 0x17;
   0x14; 0x1a; 0x08; 0x06; 0x0e; 0x00; 0x12; 0x1c; 0x1f; 0x11; 0x03; 0x0d;
   0x13; 0x1d; 0x0f; 0x01; 0x02; 0x0c; 0x1e; 0x10; 0x18; 0x16; 0x04; 0x0a;
   0x09; 0x07; 0x15; 0x1b; 0x0a; 0x04; 0x16; 0x18; 0x1b; 0x15; 0x07; 0x09;
   0x01; 0x0f; 0x1d; 0x13; 0x10; 0x1e; 0x0c; 0x02; 0x1c; 0x12; 0x00; 0x0e;
   0x0d; 0x03; 0x11; 0x1f; 0x17; 0x19; 0x0b; 0x05; 0x06; 0x08; 0x1a; 0x14;
   0x0f; 0x01; 0x13; 0x1d; 0x1e; 0x10; 0x02; 0x0c; 0x04; 0x0a; 0x18; 0x16;
   0x15; 0x1b; 0x09; 0x07; 0x19; 0x17; 0x05; 0x0b; 0x08; 0x06; 0x14; 0x1a;
   0x12; 0x1c; 0x0e; 0x00; 0x03; 0x0d; 0x1f; 0x11; 0x14; 0x1a; 0x08; 0x06;
   0x05; 0x0b; 0x19; 0x17; 0x1f; 0x11; 0x03; 0x0d; 0x0e; 0x00; 0x12; 0x1c;
   0x02; 0x0c; 0x1e; 0x10; 0x13; 0x1d; 0x0f; 0x01; 0x09; 0x07; 0x15; 0x1b;
   0x18; 0x16; 0x04; 0x0a; 0x11; 0x1f; 0x0d; 0x03; 0x00; 0x0e; 0x1c; 0x12;
   0x1a; 0x14; 0x06; 0x08; 0x0b; 0x05; 0x17; 0x19; 0x07; 0x09; 0x1b; 0x15;
   0x16; 0x18; 0x0a; 0x04; 0x0c; 0x02; 0x10; 0x1e; 0x1d; 0x13; 0x01; 0x0f;
   0x1e; 0x10; 0x02; 0x0c; 0x0f; 0x01; 0x13; 0x1d; 0x15; 0x1b; 0x09; 0x07;
   0x04; 0x0a; 0x18; 0x16; 0x08; 0x06; 0x14; 0x1a; 0x19; 0x17; 0x05; 0x0b;
   0x03; 0x0d; 0x1f; 0x11; 0x12; 0x1c; 0x0e; 0x00; 0x1b; 0x15; 0x07; 0x09;
   0x0a; 0x04; 0x16; 0x18; 0x10; 0x1e; 0x0c; 0x02; 0x01; 0x0f; 0x1d; 0x13;
   0x0d; 0x03; 0x11; 0x1f; 0x1c; 0x12; 0x00; 0x0e; 0x06; 0x08; 0x1a; 0x14;
   0x17; 0x19; 0x0b; 0x05].
Definition crc5tbl8 (data : list Z) : option Z :=
  crc ← over (fun crc b => lut crc5tbl8_lut (Z.lxor crc b)) 0x1f data; Some (Z.lxor crc 0x1f).

(** ** The reference: one bit at a time

    A reflected register of [w] bits is shifted right, and the polynomial
    added when a one leaves it. *)
Definition crc_bit (poly x : Z) : Z := Z.lxor (Z.shiftr x 1) (if Z.odd x then poly else 0).
Definition crc_byte (poly x : Z) : Z := Nat.iter 8 (crc_bit poly) x.
Definition crc_ref (poly ones : Z) (data : list Z) : Z :=
  Z.lxor (fold_left (fun crc b => crc_byte poly (Z.lxor crc b)) data ones) ones.

(** The other bit order, most significant bit first. *)
Definition crc_bit_msb (x : Z) : Z :=
  if Z.testbit x 15 then Z.lxor (Z.shiftl x 1 mod 2 ^ 16) 0x1021 else Z.shiftl x 1 mod 2 ^ 16.
Definition crc_ref_msb (crc : Z) (data : list Z) : Z :=
  fold_left (fun crc b => Nat.iter 8 crc_bit_msb (Z.lxor crc (Z.shiftl b 8))) data crc.

Definition is_byte (b : Z) : Prop := 0 <= b < 256.

(** ** Registers of [w] bits *)

Lemma lxor_bound w a b : 0 <= w -> 0 <= a < 2 ^ w -> 0 <= b < 2 ^ w -> 0 <= Z.lxor a b < 2 ^ w.
Proof.
  intros Hw Ha Hb. assert (0 <= Z.lxor a b) by (apply Z.lxor_nonneg; lia). split; [done|].
  apply bits_bound; [done|done|]. intros i Hi. by rewrite Z.lxor_spec, !(testbit_high _ w).
Qed.

Lemma shiftr1_bound w x : 1 <= w -> 0 <= x < 2 ^ w -> 0 <= Z.shiftr x 1 < 2 ^ (w - 1).
Proof.
  intros Hw Hx. rewrite Z.shiftr_div_pow2 by lia. change (2 ^ 1) with 2.
  replace w with (1 + (w - 1)) in Hx by lia. rewrite Z.pow_add_r in Hx by lia. lia.
Qed.

Section register.
Variables w poly : Z.
Hypothesis Hw : 1 <= w.
Hypothesis Hpoly : 0 <= poly < 2 ^ w.

Lemma crc_bit_bound x : 0 <= x < 2 ^ w -> 0 <= crc_bit poly x < 2 ^ w.
Proof.
  intros Hx. pose proof (shiftr1_bound w x Hw Hx). pose proof (Z.pow_le_mono_r 2 (w - 1) w ltac:(lia) ltac:(lia)).
  apply lxor_bound; [lia|lia|]. destruct (Z.odd x); lia.
Qed.

Lemma crc_byte_bound x : 0 <= x < 2 ^ w -> 0 <= crc_byte poly x < 2 ^ w.
Proof. intros Hx. unfold crc_byte. repeat apply crc_bit_bound. exact Hx. Qed.
End register.

(** A step that is [g] of the register with the byte added, on every register
    below [R] and every byte, makes the loop a fold of [g]. *)
Lemma over_fold R g step data :
  (forall crc b, 0 <= crc < R -> is_byte b -> step crc b = Some (g (Z.lxor crc b)) /\ 0 <= g (Z.lxor crc b) < R) ->
  Forall is_byte data -> forall crc, 0 <= crc < R ->
  over step crc data = Some (fold_left (fun crc b => g (Z.lxor crc b)) data crc).
Proof.
  intros Hstep Hd. induction Hd as [|b data Hb Hd IH]; intros crc Hc; [done|].
  destruct (Hstep crc b Hc Hb) as [E Hn]. cbn [over fold_left]. rewrite E. by apply IH.
Qed.

Lemma over_ref R poly ones step data :
  (forall crc b, 0 <= crc < R -> is_byte b ->
    step crc b = Some (crc_byte poly (Z.lxor crc b)) /\ 0 <= crc_byte poly (Z.lxor crc b) < R) ->
  Forall is_byte data -> 0 <= ones < R ->
  (crc ← over step ones data; Some (Z.lxor crc ones)) = Some (crc_ref poly ones data).
Proof. intros Hs Hd Ho. unfold crc_ref. by rewrite (over_fold R (crc_byte poly) step data Hs Hd ones Ho). Qed.

(** Exhaustive checks. *)
Fixpoint all_from (n : nat) (i : Z) (f : Z -> bool) : bool :=
  match n with O => true | S n => f i && all_from n (i + 1) f end.
Definition all_up_to (n : Z) (f : Z -> bool) : bool := all_from (Z.to_nat n) 0 f.

Lemma all_below n f : all_up_to n f = true -> forall i, 0 <= i < n -> f i = true.
Proof.
  unfold all_up_to. assert (forall k a, all_from k a f = true -> forall i, a <= i < a + Z.of_nat k -> f i = true) as H.
  { induction k as [|k IH]; intros a H i Hi; [lia|]. apply andb_true_iff in H as [H0 H].
    destruct (Z.eq_dec i a) as [->|]; [done|]. apply (IH (a + 1)); [done|lia]. }
  intros Hf i Hi. apply (H _ _ Hf). lia.
Qed.

Definition eq_some (o : option Z) (v : Z) : bool := match o with Some x => x =? v | None => false end.
Lemma eq_some_true o v : eq_some o v = true -> o = Some v.
Proof. destruct o; simpl; [|done]. by intros ->%Z.eqb_eq. Qed.

(** ** CRC-8 and CRC-5: the step only depends on the eight bits of [crc ^ b]. *)

Definition poly8 := 0xe0.
Definition poly5 := 0x14.

Lemma byte_lxor R crc b : R <= 256 -> 0 <= crc < R -> is_byte b -> 0 <= Z.lxor crc b < 256.
Proof. intros HR Hc Hb. apply (lxor_bound 8); [lia|change (2 ^ 8) with 256; lia|exact Hb]. Qed.

(** A loop whose step is a function of [crc ^ b] that agrees with the
    reference on all 256 values. *)
Lemma byte_crc R poly ones step f data :
  R <= 256 -> 0 <= ones < R -> (forall crc b, step crc b = f (Z.lxor crc b)) ->
  all_up_to 256 (fun i => eq_some (f i) (crc_byte poly i) && ((0 <=? crc_byte poly i) && (crc_byte poly i <? R))) = true ->
  Forall is_byte data ->
  (crc ← over step ones data; Some (Z.lxor crc ones)) = Some (crc_ref poly ones data).
Proof.
  intros HR Ho Hs Hall Hd. apply (over_ref R); [|done|done]. intros crc b Hc Hb. rewrite Hs.
  pose proof (all_below _ _ Hall _ (byte_lxor R crc b HR Hc Hb)) as H. cbv beta in H.
  apply andb_true_iff in H as [E [?%Z.leb_le ?%Z.ltb_lt]%andb_true_iff]. split; [by apply eq_some_true|lia].
Qed.

Lemma crc8bwe_ref data : Forall is_byte data -> crc8bwe data = Some (crc_ref poly8 255 data).
Proof. intros Hd. unfold crc8bwe. apply (byte_crc 256 _ _ _ (fun i => Some (crc_bitwise_expression i))); [done|done|reflexivity|vm_compute; reflexivity|done]. Qed.

Lemma crc8tbl4_ref data : Forall is_byte data -> crc8tbl4 data = Some (crc_ref poly8 255 data).
Proof. intros Hd. unfold crc8tbl4. apply (byte_crc 256 _ _ _ (crc8tbl4_step 0)); [done|done|reflexivity|vm_compute; reflexivity|done]. Qed.

Lemma crc8tbl8_ref data : Forall is_byte data -> crc8tbl8 data = Some (crc_ref poly8 255 data).
Proof. intros Hd. unfold crc8tbl8. apply (byte_crc 256 _ _ _ (lut crc8tbl8_table)); [done|done|reflexivity|vm_compute; reflexivity|done]. Qed.

Lemma crc5bwe_ref data : Forall is_byte data -> crc5bwe data = Some (crc_ref poly5 31 data).
Proof. intros Hd. unfold crc5bwe. apply (byte_crc 32 _ _ _ (fun i => Some (crc5bwe_step 0 i))); [done|done|reflexivity|vm_compute; reflexivity|done]. Qed.

Lemma crc5tbl4_ref data : Forall is_byte data -> crc5tbl4 data = Some (crc_ref poly5 31 data).
Proof. intros Hd. unfold crc5tbl4. apply (byte_crc 32 _ _ _ (crc5tbl4_step 0)); [done|done|reflexivity|vm_compute; reflexivity|done]. Qed.

Lemma crc5tbl8_ref data : Forall is_byte data -> crc5tbl8 data = Some (crc_ref poly5 31 data).
Proof. intros Hd. unfold crc5tbl8. apply (byte_crc 32 _ _ _ (lut crc5tbl8_lut)); [done|done|reflexivity|vm_compute; reflexivity|done]. Qed.

(** The three implementations of CRC-8 are the bitwise CRC with the
    polynomial 0xe0 (reflected), and those of CRC-5 the one with 0x14, for
    every buffer; no read is outside of a table. *)
Theorem crc8_crc5_correct data :
  Forall is_byte data ->
  crc8bwe data = Some (crc_ref poly8 0xff data) /\ crc8tbl4 data = Some (crc_ref poly8 0xff data) /\
  crc8tbl8 data = Some (crc_ref poly8 0xff data) /\
  crc5bwe data = Some (crc_ref poly5 0x1f data) /\ crc5tbl4 data = Some (crc_ref poly5 0x1f data) /\
  crc5tbl8 data = Some (crc_ref poly5 0x1f data).
Proof.
  auto 10 using crc8bwe_ref, crc8tbl4_ref, crc8tbl8_ref, crc5bwe_ref, crc5tbl4_ref, crc5tbl8_ref.
Qed.

(** ** CRC-16 *)

Definition poly16 := 0x8408.

Definition swap16 (x : Z) : Z := Z.lor (Z.shiftr x 8) (Z.shiftl (Z.land x 0xff) 8).

Lemma swap16_bits x j : 0 <= x < 2 ^ 16 -> 0 <= j ->
  Z.testbit (swap16 x) j = (if j <? 8 then Z.testbit x (j + 8) else if j <? 16 then Z.testbit x (j - 8) else false).
Proof.
  intros Hx Hj. unfold swap16. rewrite Z.lor_spec, Z.shiftr_spec, Z.shiftl_spec by lia.
  destruct (Z.ltb_spec j 8).
  - rewrite (Z.testbit_neg_r (Z.land x 255)) by lia. apply orb_false_r.
  - rewrite (testbit_high x 16 (j + 8)) by lia. rewrite Z.land_spec. change 255 with (Z.ones 8).
    rewrite Z.testbit_ones_nonneg by lia.
    destruct (Z.ltb_spec j 16), (Z.ltb_spec (j - 8) 8); try lia; by rewrite ?andb_true_r, ?andb_false_r.
Qed.

Lemma lxor_bits a b j : Z.testbit (Z.lxor a b) j = xorb (Z.testbit a j) (Z.testbit b j).
Proof. apply Z.lxor_spec. Qed.

(** The byte goes into the register on either side of the swap. *)
Lemma swap16_lxor x b : 0 <= x < 2 ^ 16 -> is_byte b -> Z.lxor (swap16 x) (Z.shiftl b 8) = swap16 (Z.lxor x b).
Proof.
  intros Hx Hb. apply Z.bits_inj'. intros j Hj.
  rewrite lxor_bits, !swap16_bits by (done || apply lxor_bound; unfold is_byte in Hb; lia).
  rewrite Z.shiftl_spec, !lxor_bits by lia.
  destruct (Z.ltb_spec j 8); [|destruct (Z.ltb_spec j 16)].
  - rewrite (testbit_high b 8 (j + 8)), (Z.testbit_neg_r b (j - 8)) by (unfold is_byte in Hb; lia). done.
  - done.
  - rewrite (testbit_high b 8) by (unfold is_byte in Hb; lia). done.
Qed.

Lemma swap16_lxor_hi x b : 0 <= x < 2 ^ 16 -> is_byte b -> Z.lxor (swap16 x) b = swap16 (Z.lxor x (Z.shiftl b 8)).
Proof.
  intros Hx Hb. unfold is_byte in Hb. assert (0 <= Z.shiftl b 8 < 2 ^ 16) as Hs by (rewrite Z.shiftl_mul_pow2; lia).
  apply Z.bits_inj'. intros j Hj. rewrite lxor_bits, !swap16_bits by (done || by apply lxor_bound).
  rewrite !lxor_bits. destruct (Z.ltb_spec j 8); [|destruct (Z.ltb_spec j 16)].
  - rewrite Z.shiftl_spec by lia. by replace (j + 8 - 8) with j by lia.
  - rewrite Z.shiftl_spec, (testbit_high b 8 j), (Z.testbit_neg_r b (j - 8 - 8)) by lia. done.
  - rewrite (testbit_high b 8 j) by lia. done.
Qed.

Lemma bwe_step_lxor crc b : 0 <= crc < 2 ^ 16 -> is_byte b -> crc16bwe_step crc b = crc16bwe_step (Z.lxor crc b) 0.
Proof.
  intros Hc Hb. unfold crc16bwe_step. fold (swap16 crc). fold (swap16 (Z.lxor crc b)).
  rewrite swap16_lxor by done. by rewrite Z.shiftl_0_l, Z.lxor_0_r.
Qed.

Lemma tbl8_step_lxor crc b : 0 <= crc < 2 ^ 16 -> is_byte b -> crc16tbl8_step crc b = crc16tbl8_step (Z.lxor crc b) 0.
Proof.
  intros Hc Hb. unfold crc16tbl8_step. rewrite Z.lxor_0_r, Z.shiftr_lxor.
  assert (Z.shiftr b 8 = 0) as -> by (rewrite Z.shiftr_div_pow2 by lia; apply Z.div_small, Hb). by rewrite Z.lxor_0_r.
Qed.

Lemma ccitt_step_lxor crc c : 0 <= crc < 2 ^ 16 -> is_byte c ->
  crc16ccitt_step crc c = crc16ccitt_step (Z.lxor crc (Z.shiftl c 8)) 0.
Proof.
  intros Hc Hb. unfold crc16ccitt_step. fold (swap16 crc). fold (swap16 (Z.lxor crc (Z.shiftl c 8))).
  rewrite swap16_lxor_hi by done. by rewrite Z.lxor_0_r.
Qed.

(** *** The bytes of a register, one at a time

    Everything here is linear over exclusive or, so that the low and the high
    byte of the register can be checked on their own. *)

Lemma bytes_of i : 0 <= i < 65536 -> exists lo hi, is_byte lo /\ is_byte hi /\
  i = Z.lxor lo (Z.shiftl hi 8) /\ lo = i mod 256 /\ hi = Z.shiftr i 8.
Proof.
  intros Hi. exists (i mod 256), (Z.shiftr i 8). rewrite Z.shiftr_div_pow2 by lia. change (2 ^ 8) with 256.
  split; [unfold is_byte; lia|]. split; [unfold is_byte; lia|]. split; [|done].
  apply Z.bits_inj'. intros j Hj. rewrite lxor_bits, Z.shiftl_spec by done. change 256 with (2 ^ 8).
  rewrite <-Z.shiftr_div_pow2 by lia. destruct (Z_lt_le_dec j 8).
  - rewrite Z.mod_pow2_bits_low, (Z.testbit_neg_r _ (j - 8)) by lia. by rewrite xorb_false_r.
  - rewrite Z.mod_pow2_bits_high, Z.shiftr_spec by lia. rewrite xorb_false_l. f_equal. lia.
Qed.

Lemma crc_bit_shifted poly x y k : 0 <= k ->
  crc_bit poly (Z.lxor x (Z.shiftl y (k + 1))) = Z.lxor (crc_bit poly x) (Z.shiftl y k).
Proof.
  intros Hk. unfold crc_bit. rewrite Z.shiftr_lxor. assert (Z.odd (Z.lxor x (Z.shiftl y (k + 1))) = Z.odd x) as ->.
  { rewrite <-!Z.bit0_odd, lxor_bits, Z.shiftl_spec_low by lia. apply xorb_false_r. }
  replace (Z.shiftr (Z.shiftl y (k + 1)) 1) with (Z.shiftl y k).
  - rewrite !Z.lxor_assoc. f_equal. apply Z.lxor_comm.
  - rewrite Z.shiftr_shiftl_l by lia. f_equal. lia.
Qed.

Lemma crc_byte_split poly lo hi : crc_byte poly (Z.lxor lo (Z.shiftl hi 8)) = Z.lxor (crc_byte poly lo) hi.
Proof.
  assert (forall n lo, Nat.iter n (crc_bit poly) (Z.lxor lo (Z.shiftl hi (Z.of_nat n))) =
    Z.lxor (Nat.iter n (crc_bit poly) lo) hi) as H; [|exact (H 8%nat lo)].
  clear lo. induction n as [|n IH]; intros lo; [by rewrite Z.shiftl_0_r|].
  rewrite !Nat.iter_succ_r, Nat2Z.inj_succ, <-Z.add_1_r, crc_bit_shifted by lia. apply IH.
Qed.

Lemma crc_bit_msb_shifted x y k : 0 <= k -> k + 8 <= 15 -> is_byte y ->
  crc_bit_msb (Z.lxor x (Z.shiftl y k)) = Z.lxor (crc_bit_msb x) (Z.shiftl y (k + 1)).
Proof.
  intros Hk Hn Hy. assert (0 <= Z.shiftl y k < 2 ^ 15) as Hb.
  { rewrite Z.shiftl_mul_pow2 by done. unfold is_byte in Hy. pose proof (Z.pow_le_mono_r 2 k 7 ltac:(lia) ltac:(lia)).
    pose proof (Z.pow_pos_nonneg 2 k ltac:(lia) Hk). change (2 ^ 7) with 128 in *. change (2 ^ 15) with 32768. nia. }
  assert (Z.shiftl (Z.lxor x (Z.shiftl y k)) 1 mod 2 ^ 16 = Z.lxor (Z.shiftl x 1 mod 2 ^ 16) (Z.shiftl y (k + 1))) as E.
  { apply Z.bits_inj'. intros j Hj. rewrite lxor_bits. destruct (Z_lt_le_dec j 16).
    - rewrite !Z.mod_pow2_bits_low by lia. rewrite Z.shiftl_lxor, lxor_bits, Z.shiftl_shiftl by lia. done.
    - rewrite !Z.mod_pow2_bits_high by lia. rewrite (testbit_high (Z.shiftl y (k + 1)) 16); [done|lia| |lia].
      replace (Z.shiftl y (k + 1)) with (2 * Z.shiftl y k); [change (2 ^ 16) with (2 * 2 ^ 15); lia|].
      rewrite !Z.shiftl_mul_pow2, Z.pow_add_r by lia. change (2 ^ 1) with 2. ring. }
  unfold crc_bit_msb. rewrite E, lxor_bits, (testbit_high (Z.shiftl y k) 15 15), xorb_false_r by lia.
  destruct (Z.testbit x 15); [|done]. rewrite !Z.lxor_assoc. f_equal. apply Z.lxor_comm.
Qed.

Lemma crc_msb_split lo x : is_byte lo ->
  Nat.iter 8 crc_bit_msb (Z.lxor x lo) = Z.lxor (Nat.iter 8 crc_bit_msb x) (Z.shiftl lo 8).
Proof.
  intros Hlo. assert (forall n, (n <= 8)%nat ->
    Nat.iter n crc_bit_msb (Z.lxor x lo) = Z.lxor (Nat.iter n crc_bit_msb x) (Z.shiftl lo (Z.of_nat n))) as H.
  { induction n as [|n IH]; intros Hn; [by rewrite Z.shiftl_0_r|]. cbn [Nat.iter nat_rect].
    unfold Nat.iter in IH. rewrite IH by lia. rewrite crc_bit_msb_shifted by (done || lia).
    do 2 f_equal. lia. }
  by apply (H 8%nat).
Qed.

(** A function built of [lxor], masks and shifts. *)
Definition linear (f : Z -> Z) : Prop := forall x y, f (Z.lxor x y) = Z.lxor (f x) (f y).

Lemma linear_id : linear (fun x => x). Proof. done. Qed.
Lemma linear_lxor f g : linear f -> linear g -> linear (fun x => Z.lxor (f x) (g x)).
Proof.
  intros Hf Hg x y. rewrite Hf, Hg, !Z.lxor_assoc. f_equal.
  rewrite <-!Z.lxor_assoc. f_equal. apply Z.lxor_comm.
Qed.
Lemma linear_land f m : linear f -> linear (fun x => Z.land (f x) m).
Proof.
  intros Hf x y. rewrite Hf. apply Z.bits_inj'. intros j Hj. rewrite lxor_bits, !Z.land_spec, lxor_bits.
  by destruct (Z.testbit m j); rewrite ?andb_true_r, ?andb_false_r.
Qed.
Lemma linear_shiftl f n : linear f -> linear (fun x => Z.shiftl (f x) n).
Proof. intros Hf x y. rewrite Hf. apply Z.shiftl_lxor. Qed.
Lemma linear_shiftr f n : linear f -> linear (fun x => Z.shiftr (f x) n).
Proof. intros Hf x y. rewrite Hf. apply Z.shiftr_lxor. Qed.
Lemma linear_comp f g : linear f -> linear g -> linear (fun x => f (g x)).
Proof. intros Hf Hg x y. by rewrite Hg, Hf. Qed.
Create HintDb linear.
#[local] Hint Resolve linear_id linear_lxor linear_land linear_shiftl linear_shiftr : linear.

(** The two steps after the swap. *)
Definition bwe_mix (crc : Z) : Z :=
  let crc := Z.lxor crc (Z.land (Z.shiftl crc 4) 0xf000) in
  let crc := Z.lxor crc (Z.land (Z.shiftr crc 12) 0x000f) in
  Z.lxor crc (Z.land (Z.shiftr crc 5) 0x07f8).
Definition ccitt_mix (crc : Z) : Z :=
  let crc := Z.lxor crc (Z.shiftr (Z.land crc 0xff) 4) in
  let crc := Z.lxor crc (Z.shiftl (Z.land crc 0x0f) 12) in
  Z.lxor crc (Z.shiftl (Z.land crc 0xff) 5).

Lemma bwe_mix_linear : linear bwe_mix.
Proof. unfold bwe_mix. cbv zeta. auto 20 with linear. Qed.
Lemma ccitt_mix_linear : linear ccitt_mix.
Proof. unfold ccitt_mix. cbv zeta. auto 20 with linear. Qed.

(** What there is to check about a byte. *)
Definition byte_checks (i : Z) : bool :=
  (swap16 i =? Z.shiftl i 8) && ((bwe_mix i =? i) && ((bwe_mix (Z.shiftl i 8) =? crc_byte poly16 i) &&
  ((ccitt_mix i =? Nat.iter 8 crc_bit_msb (Z.shiftl i 8)) && ((ccitt_mix (Z.shiftl i 8) =? Z.shiftl i 8) &&
  (eq_some (crc16tbl4_step i 0) (crc_byte poly16 i) && eq_some (crc16tbl8_step i 0) (crc_byte poly16 i)))))).

Lemma byte_facts i : is_byte i ->
  swap16 i = Z.shiftl i 8 /\ bwe_mix i = i /\ bwe_mix (Z.shiftl i 8) = crc_byte poly16 i /\
  ccitt_mix i = Nat.iter 8 crc_bit_msb (Z.shiftl i 8) /\ ccitt_mix (Z.shiftl i 8) = Z.shiftl i 8 /\
  crc16tbl4_step i 0 = Some (crc_byte poly16 i) /\ crc16tbl8_step i 0 = Some (crc_byte poly16 i).
Proof.
  assert (all_up_to 256 byte_checks = true) as H by (vm_compute; reflexivity).
  intros Hi. pose proof (all_below _ _ H i Hi) as Hx. clear H. unfold byte_checks in Hx.
  rewrite !andb_true_iff, !Z.eqb_eq in Hx. destruct Hx as (? & ? & ? & ? & ? & E4 & E8).
  apply eq_some_true in E4. apply eq_some_true in E8. auto 10.
Qed.

Lemma swap16_bytes lo hi : is_byte lo -> is_byte hi -> swap16 (Z.lxor lo (Z.shiftl hi 8)) = Z.lxor hi (Z.shiftl lo 8).
Proof.
  intros Hlo Hhi. rewrite <-swap16_lxor_hi by (done || unfold is_byte in *; lia).
  destruct (byte_facts lo Hlo) as [-> _]. apply Z.lxor_comm.
Qed.

(** All 65536 registers. *)
Lemma crc16_steps i : 0 <= i < 65536 ->
  crc16bwe_step i 0 = crc_byte poly16 i /\ crc16tbl4_step i 0 = Some (crc_byte poly16 i) /\
  crc16tbl8_step i 0 = Some (crc_byte poly16 i) /\ crc16ccitt_step i 0 = Nat.iter 8 crc_bit_msb i.
Proof.
  intros Hi. destruct (bytes_of i Hi) as (lo & hi & Hlo & Hhi & E & Elo & Ehi).
  destruct (byte_facts lo Hlo) as (_ & _ & B1 & _ & B2 & B4 & B8).
  destruct (byte_facts hi Hhi) as (_ & A1 & _ & A2 & _).
  assert (crc_byte poly16 i = Z.lxor (crc_byte poly16 lo) hi) as Er by (rewrite E; apply crc_byte_split).
  split; [|split; [|split]].
  - unfold crc16bwe_step. fold (swap16 i). rewrite Z.shiftl_0_l, Z.lxor_0_r. change (bwe_mix (swap16 i) = crc_byte poly16 i).
    rewrite Er, E, swap16_bytes, bwe_mix_linear, A1, B1 by done. apply Z.lxor_comm.
  - rewrite Er. clear Er E B8. unfold crc16tbl4_step in *. rewrite Z.lxor_0_r in *. rewrite <-Ehi.
    assert (Z.land (Z.shiftr i 4) 15 = Z.land (Z.shiftr lo 4) 15 /\ Z.land i 15 = Z.land lo 15 /\ Z.shiftr lo 8 = 0) as (-> & -> & E0).
    { change 15 with (Z.ones 4). rewrite !Z.land_ones, !Z.shiftr_div_pow2 by lia.
      change (2 ^ 4) with 16. change (2 ^ 8) with 256. lia. }
    rewrite E0 in B4. destruct (lut _ (Z.land (Z.shiftr lo 4) 15)) as [t1|]; [|discriminate B4].
    destruct (lut _ (Z.land lo 15 + 16)) as [t2|]; [|discriminate B4]. cbn [mbind option_bind] in *.
    rewrite Z.lxor_0_l in B4. injection B4 as <-. rewrite (Z.lxor_comm _ hi). by rewrite Z.lxor_assoc.
  - rewrite Er. clear Er E B4. unfold crc16tbl8_step in *. rewrite Z.lxor_0_r in *. rewrite <-Ehi.
    assert (Z.land i 255 = Z.land lo 255 /\ Z.shiftr lo 8 = 0) as (-> & E0).
    { change 255 with (Z.ones 8). rewrite !Z.land_ones, !Z.shiftr_div_pow2 by lia. change (2 ^ 8) with 256. lia. }
    rewrite E0 in B8. destruct (lut _ (Z.land lo 255)) as [t1|]; [|discriminate B8]. cbn [mbind option_bind] in *. injection B8 as <-. by rewrite Z.lxor_0_r.
  - unfold crc16ccitt_step. fold (swap16 i). rewrite Z.lxor_0_r. change (ccitt_mix (swap16 i) = Nat.iter 8 crc_bit_msb i).
    rewrite E, swap16_bytes, ccitt_mix_linear, A2, B2 by done.
    rewrite (Z.lxor_comm lo). by rewrite crc_msb_split.
Qed.

Lemma crc_bit_msb_bound x : 0 <= crc_bit_msb x < 65536.
Proof.
  pose proof (Z.mod_pos_bound (Z.shiftl x 1) (2 ^ 16) ltac:(lia)). unfold crc_bit_msb.
  destruct (Z.testbit x 15); [apply (lxor_bound 16)|]; lia.
Qed.

Lemma lxor16 crc b : 0 <= crc < 65536 -> is_byte b -> 0 <= Z.lxor crc b < 65536.
Proof. intros Hc Hb. unfold is_byte in Hb. apply (lxor_bound 16); [lia|exact Hc|]. change (2 ^ 16) with 65536. lia. Qed.

Lemma crc16_bound crc b : 0 <= crc < 65536 -> is_byte b -> 0 <= crc_byte poly16 (Z.lxor crc b) < 65536.
Proof. intros Hc Hb. apply (crc_byte_bound 16); [done|done|]. by apply lxor16. Qed.

Lemma crc16_correct_aux data :
  Forall is_byte data ->
  crc16bwe data = Some (crc_ref poly16 0xffff data) /\ crc16tbl4 data = Some (crc_ref poly16 0xffff data) /\
  crc16tbl8 data = Some (crc_ref poly16 0xffff data).
Proof.
  intros Hd. split; [|split].
  - apply (over_ref 65536); [|done|done]. intros crc b Hc Hb. rewrite bwe_step_lxor by done.
    destruct (crc16_steps _ (lxor16 crc b Hc Hb)) as (-> & _). by split; [|apply crc16_bound].
  - apply (over_ref 65536); [|done|done]. intros crc b Hc Hb.
    destruct (crc16_steps _ (lxor16 crc b Hc Hb)) as (_ & E & _). split; [|by apply crc16_bound].
    rewrite <-E. unfold crc16tbl4_step. by rewrite Z.lxor_0_r.
  - apply (over_ref 65536); [|done|done]. intros crc b Hc Hb. rewrite tbl8_step_lxor by done.
    destruct (crc16_steps _ (lxor16 crc b Hc Hb)) as (_ & _ & -> & _). by split; [|apply crc16_bound].
Qed.

(** C37. The three implementations of CRC-16 are the bitwise CRC with the
    reflected CCITT polynomial, and [crc16ccitt] is the bitwise CRC with that
    polynomial most significant bit first, from any 16-bit start value; no
    read is outside of a table. *)
Theorem crc16_correct data :
  Forall is_byte data ->
  crc16bwe data = Some (crc_ref poly16 0xffff data) /\ crc16tbl4 data = Some (crc_ref poly16 0xffff data) /\
  crc16tbl8 data = Some (crc_ref poly16 0xffff data) /\
  forall crc, 0 <= crc < 2 ^ 16 -> crc16ccitt crc data = Some (crc_ref_msb crc data).
Proof.
  intros Hd. destruct (crc16_correct_aux data Hd) as (H1 & H2 & H3). split; [done|]. split; [done|]. split; [done|].
  intros crc Hc. unfold crc16ccitt, crc_ref_msb. clear H1 H2 H3. revert crc Hc.
    induction Hd as [|b data Hb Hd IH]; intros crc Hc; [done|]. cbn [over fold_left].
    rewrite ccitt_step_lxor by done.
    assert (0 <= Z.lxor crc (Z.shiftl b 8) < 65536) as Hx.
    { apply (lxor_bound 16); [lia|exact Hc|]. unfold is_byte in Hb. rewrite Z.shiftl_mul_pow2; lia. }
    destruct (crc16_steps _ Hx) as (_ & _ & _ & ->). apply IH. apply crc_bit_msb_bound.
Qed.
(** ** Detection *)

Lemma crc_bit_inj x y : 0 <= x < 65536 -> 0 <= y < 65536 -> crc_bit poly16 x = crc_bit poly16 y -> x = y.
Proof.
  intros Hx Hy E. unfold crc_bit, poly16 in E.
  assert (forall z, 0 <= z < 65536 -> Z.testbit (Z.shiftr z 1) 15 = false) as Hh.
  { intros z Hz. rewrite Z.shiftr_spec by lia. by apply (testbit_high z 16). }
  assert (Z.odd x = Z.odd y) as Ho.
  { pose proof (f_equal (fun v => Z.testbit v 15) E) as E15. cbv beta in E15. rewrite !lxor_bits, !Hh in E15 by done.
    destruct (Z.odd x), (Z.odd y); done. }
  rewrite Ho in E. apply (f_equal (fun v => Z.lxor v (if Z.odd y then 0x8408 else 0))) in E.
  rewrite !Z.lxor_assoc, !Z.lxor_nilpotent, !Z.lxor_0_r in E.
  rewrite (Z.div2_odd x), (Z.div2_odd y), Ho. by rewrite !Z.div2_spec, E.
Qed.

Lemma crc_byte_inj x y : 0 <= x < 65536 -> 0 <= y < 65536 -> crc_byte poly16 x = crc_byte poly16 y -> x = y.
Proof.
  unfold crc_byte. generalize 8%nat. intros n Hx Hy. induction n as [|n IH]; [done|]. intros E. apply IH.
  cbn [Nat.iter nat_rect] in E. apply crc_bit_inj; [| |exact E].
  - clear -Hx. induction n; [done|]. by apply (crc_bit_bound 16).
  - clear -Hy. induction n; [done|]. by apply (crc_bit_bound 16).
Qed.

Lemma lxor_cancel_r a b c : Z.lxor a c = Z.lxor b c -> a = b.
Proof.
  intros E. apply (f_equal (fun v => Z.lxor v c)) in E. by rewrite !Z.lxor_assoc, !Z.lxor_nilpotent, !Z.lxor_0_r in E.
Qed.

Lemma bytes_add lo hi : is_byte lo -> is_byte hi -> Z.lxor lo (Z.shiftl hi 8) = lo + 256 * hi.
Proof.
  unfold is_byte. intros Hlo Hhi. destruct (bytes_of (lo + 256 * hi) ltac:(lia)) as (l & h & _ & _ & E & El & Eh).
  rewrite E. rewrite Z.shiftr_div_pow2 in Eh by lia. change (2 ^ 8) with 256 in Eh.
  f_equal; [lia|]. f_equal. lia.
Qed.

(** What makes a byte step detect errors: it is a permutation of the 16-bit
    registers that shifts the high byte out to the low one. *)
Section detection.
Variable g : Z -> Z.
Hypothesis g_bound : forall x, 0 <= x < 65536 -> 0 <= g x < 65536.
Hypothesis g_inj : forall x y, 0 <= x < 65536 -> 0 <= y < 65536 -> g x = g y -> x = y.
Hypothesis g_split : forall lo hi, g (Z.lxor lo (Z.shiftl hi 8)) = Z.lxor (g lo) hi.

Definition crc_fold (data : list Z) (crc : Z) : Z := fold_left (fun crc b => g (Z.lxor crc b)) data crc.

Lemma crc_fold_bound data crc : Forall is_byte data -> 0 <= crc < 65536 -> 0 <= crc_fold data crc < 65536.
Proof.
  intros Hd. revert crc. induction Hd as [|b data Hb Hd IH]; intros crc Hc; [done|]. by apply IH, g_bound, lxor16.
Qed.

Lemma crc_fold_inj data x y : Forall is_byte data -> 0 <= x < 65536 -> 0 <= y < 65536 ->
  crc_fold data x = crc_fold data y -> x = y.
Proof.
  intros Hd. revert x y. induction Hd as [|b data Hb Hd IH]; intros x y Hx Hy E; [done|].
  apply IH in E; [|by apply g_bound, lxor16..]. apply g_inj in E; [|by apply lxor16..].
  by apply lxor_cancel_r in E.
Qed.

Lemma crc_fold_burst pre post crc b1 b2 c1 c2 :
  Forall is_byte pre -> Forall is_byte post -> is_byte b1 -> is_byte b2 -> is_byte c1 -> is_byte c2 ->
  0 <= crc < 65536 ->
  crc_fold (pre ++ b1 :: b2 :: post) crc = crc_fold (pre ++ c1 :: c2 :: post) crc -> b1 = c1 /\ b2 = c2.
Proof.
  intros Hpre Hpost Hb1 Hb2 Hc1 Hc2 Hcrc E. unfold crc_fold in E. rewrite !fold_left_app in E. cbn [fold_left] in E.
  pose proof (crc_fold_bound pre crc Hpre Hcrc) as Hc. unfold crc_fold in Hc.
  set (x := fold_left _ pre crc) in *. clearbody x.
  apply (crc_fold_inj post) in E; [|done|by apply g_bound, lxor16; [apply g_bound, lxor16|]..].
  rewrite <-!g_split in E.
  assert (forall b d, is_byte b -> is_byte d -> 0 <= Z.lxor (Z.lxor x b) (Z.shiftl d 8) < 65536) as Hx.
  { intros b d Hb Hd. apply (lxor_bound 16); [lia|by apply lxor16|]. unfold is_byte in Hd.
    rewrite Z.shiftl_mul_pow2; lia. }
  apply g_inj in E; [|by apply g_bound, Hx..]. apply g_inj in E; [|by apply Hx..].
  rewrite !Z.lxor_assoc, !(Z.lxor_comm x) in E. apply lxor_cancel_r in E.
  rewrite !bytes_add in E by done. unfold is_byte in *. lia.
Qed.
End detection.

Lemma crc_byte_bound16 x : 0 <= x < 65536 -> 0 <= crc_byte poly16 x < 65536.
Proof. by apply (crc_byte_bound 16). Qed.

(** A CRC-16 tells two buffers apart whenever they differ in one byte or
    in two neighbouring bytes only. *)
Theorem crc16_detects_burst pre post b1 b2 c1 c2 :
  Forall is_byte pre -> Forall is_byte post -> Forall is_byte [b1; b2; c1; c2] ->
  (b1, b2) <> (c1, c2) ->
  crc16tbl8 (pre ++ b1 :: b2 :: post) <> crc16tbl8 (pre ++ c1 :: c2 :: post).
Proof.
  intros Hpre Hpost Hb Hne E. rewrite !List.Forall_cons_iff in Hb. destruct Hb as (Hb1 & Hb2 & Hc1 & Hc2 & _).
  assert (Forall is_byte (pre ++ b1 :: b2 :: post)) as Hb by (by rewrite Forall_app, !List.Forall_cons_iff).
  assert (Forall is_byte (pre ++ c1 :: c2 :: post)) as Hc by (by rewrite Forall_app, !List.Forall_cons_iff).
  destruct (crc16_correct_aux _ Hb) as (_ & _ & Eb). destruct (crc16_correct_aux _ Hc) as (_ & _ & Ec).
  rewrite Eb, Ec in E. injection E as E. apply lxor_cancel_r in E.
  apply (crc_fold_burst (crc_byte poly16) crc_byte_bound16 crc_byte_inj (crc_byte_split poly16)) in E; try done.
  destruct E as [-> ->]. done.
Qed.
(** ** The theorems on a concrete buffer *)

Definition sample : list Z := [0x31; 0x32; 0x33; 0xff; 0x00].
Lemma sample_bytes : Forall is_byte sample.
Proof. unfold sample, is_byte. rewrite !List.Forall_cons_iff. repeat split; done || lia. Qed.

Lemma crc8_crc5_correct_witness :
  crc8bwe sample = Some (crc_ref poly8 0xff sample) /\ crc8tbl4 sample = Some (crc_ref poly8 0xff sample) /\
  crc8tbl8 sample = Some (crc_ref poly8 0xff sample) /\
  crc5bwe sample = Some (crc_ref poly5 0x1f sample) /\ crc5tbl4 sample = Some (crc_ref poly5 0x1f sample) /\
  crc5tbl8 sample = Some (crc_ref poly5 0x1f sample).
Proof. apply crc8_crc5_correct, sample_bytes. Defined.

Lemma crc16_correct_witness :
  crc16bwe sample = Some (crc_ref poly16 0xffff sample) /\ crc16tbl4 sample = Some (crc_ref poly16 0xffff sample) /\
  crc16tbl8 sample = Some (crc_ref poly16 0xffff sample) /\
  forall crc, 0 <= crc < 2 ^ 16 -> crc16ccitt crc sample = Some (crc_ref_msb crc sample).
Proof. apply crc16_correct, sample_bytes. Defined.

Lemma crc16_detects_burst_witness :
  crc16tbl8 (sample ++ 1 :: 2 :: sample) <> crc16tbl8 (sample ++ 1 :: 3 :: sample).
Proof.
  apply crc16_detects_burst; [apply sample_bytes..| |intros [=]].
  unfold is_byte. rewrite !List.Forall_cons_iff. repeat split; done || lia.
Defined.
End Crc.
