(* ===== verification/Number.v ===== *)
(** * Numbers and text

    [sdk/libc]: [uint2dec], [int2dec], [uint2hex], [ull2dec], [ll2dec],
    [ull2hex] on the way out, [strtoul], [strtol], [atoi] on the way in, and
    [inet_aton]. A [char] is unsigned (the ARM ABI); [long] has 32 bits. An
    output buffer is the list of the bytes written to it; an input pointer is
    the rest of the buffer it points into, and reading past the end of the
    buffer is [None]. *)

From S2P Require Import Prelude.

Module Number.
(** ** Printing *)

(** The four bits of a digit: [i] is halved together with [dv], which starts at
    [i] times the digit's weight. *)
Fixpoint digit_bits (fuel : nat) (i dv val c : Z) : option (Z * Z) :=
  match fuel with
  | O => None
  | S n =>
      if i =? 0 then Some (val, c)
      else
        let '(val, c) := if dv <=? val then (val - dv, c + i) else (val, c) in
        digit_bits n (Z.shiftr i 1) (Z.shiftr dv 1) val c
  end.

(** The loop over the table, which a 0 ends. *)
Fixpoint dec_digits (tab : list Z) (i val n : Z) : option (list Z * Z) :=
  match tab with
  | [] => None
  | dv :: tab =>
      if dv =? 0 then Some ([0], n)
      else
        '(val, c) ← digit_bits 5 i dv val 0;
        if negb (c =? 0) || negb (n =? 0) then
          '(s, n) ← dec_digits tab 8 val (n + 1);
          Some (u8 (c + 48) :: s, n)
        else dec_digits tab 8 val n
  end.

Definition uint_div_tab : list Z :=
  [4000000000; 800000000; 80000000; 8000000; 800000; 80000; 8000; 800; 80; 8; 0].
Definition uint2dec (val : Z) : option (list Z * Z) :=
  if val =? 0 then Some ([48; 0], 1) else dec_digits uint_div_tab 4 val 0.

Definition ull_div_tab : list Z :=
  [10000000000000000000; 8000000000000000000; 800000000000000000; 80000000000000000; 8000000000000000;
   800000000000000; 80000000000000; 8000000000000; 800000000000; 80000000000; 8000000000; 800000000;
   80000000; 8000000; 800000; 80000; 8000; 800; 80; 8; 0].
Definition ull2dec (val : Z) : option (list Z * Z) :=
  if val =? 0 then Some ([48; 0], 1) else dec_digits ull_div_tab 4 val 0.

(** [-val] wraps for the most negative value. *)
Definition int2dec (val : Z) : option (list Z * Z) :=
  if val <? 0 then '(s, n) ← uint2dec (u32 (- val)); Some (45 :: s, n + 1) else uint2dec val.
Definition ll2dec (val : Z) : option (list Z * Z) :=
  if val <? 0 then '(s, n) ← ull2dec (wrap 64 (- val)); Some (45 :: s, n + 1) else ull2dec val.

Definition __hextab : list Z := [48; 49; 50; 51; 52; 53; 54; 55; 56; 57; 97; 98; 99; 100; 101; 102].

(** [k] digits are left of a word of [w] bits. *)
Fixpoint hex_digits (k : nat) (w val n : Z) : option (list Z * Z) :=
  match k with
  | O => Some ([0], n)
  | S k =>
      let c := Z.shiftr val (w - 4) in
      let val := wrap w (Z.shiftl val 4) in
      if negb (c =? 0) || negb (n =? 0) then
        d ← __hextab !! Z.to_nat c;
        '(s, n) ← hex_digits k w val (n + 1);
        Some (d :: s, n)
      else hex_digits k w val n
  end.
Definition uint2hex (val : Z) : option (list Z * Z) :=
  if val =? 0 then Some ([48; 0], 1) else hex_digits 8 32 val 0.
Definition ull2hex (val : Z) : option (list Z * Z) :=
  if val =? 0 then Some ([48; 0], 1) else hex_digits 16 64 val 0.

(** ** Scanning *)

Definition skip_blanks : list Z -> option (list Z) :=
  fix skip cp := match cp with [] => None | c :: cp' => if c =? 32 then skip cp' else Some cp end.

Fixpoint scan_dec (val : Z) (cp : list Z) : option (Z * list Z) :=
  match cp with
  | [] => None
  | c :: cp' =>
      if (c =? 0) || (c <? 48) || (57 <? c) then Some (val, cp)
      else scan_dec (u32 (u32 (Z.shiftl (u32 (u32 (Z.shiftl val 2) + val)) 1) + (c - 48))) cp'
  end.
(** The value of a hexadecimal digit; lower case is mapped to upper case. *)
Definition hex_value (c : Z) : option Z :=
  let c := if 97 <=? c then Z.land c 0xdf else c in
  if (65 <=? c) && (c <=? 70) then Some (c - 55)
  else if (48 <=? c) && (c <=? 57) then Some (c - 48)
  else None.
Fixpoint scan_hex (val : Z) (cp : list Z) : option (Z * list Z) :=
  match cp with
  | [] => None
  | c :: cp' =>
      if c =? 0 then Some (val, cp)
      else match hex_value c with
           | Some d => scan_hex (u32 (u32 (Z.shiftl val 4) + d)) cp'
           | None => Some (val, cp)
           end
  end.

(** The value and the end pointer. The digits of base 8 have no [case] of their
    own in the code's [switch]: they are not read, as those of any base but 10
    and 16. *)
Definition strtoul (s : list Z) (base : Z) : option (Z * list Z) :=
  cp ← skip_blanks s;
  c ← head cp;
  '(base, cp) ← (if ((base =? 0) || (base =? 16)) && (c =? 48) then
      let cp := tail cp in
      x ← head cp;
      Some (if Z.land x 0xdf =? 88 then (16, tail cp) else (base, cp))
    else Some (base, cp));
  let base := if base =? 0 then (if c =? 48 then 8 else 10) else base in
  if base =? 10 then scan_dec 0 cp
  else if base =? 16 then scan_hex 0 cp
  else Some (0, cp).

Definition strtol (s : list Z) (base : Z) : option (Z * list Z) :=
  cp ← skip_blanks s;
  c ← head cp;
  let inv := c =? 45 in
  '(val, endp) ← strtoul (if inv then tail cp else cp) base;
  let val := s32 val in
  Some (if inv then s32 (- val) else val, endp).

(** [n] is an [int]. *)
Fixpoint atoi_from (n : Z) (s : list Z) : option Z :=
  match s with
  | [] => None
  | c :: s => if (c <? 48) || (57 <? c) then Some n else atoi_from (s32 (n * 10 + (c - 48))) s
  end.
Definition atoi (s : list Z) : option Z := atoi_from 0 s.
(** ** Decimal numerals *)

Definition is_digit (c : Z) : Prop := 48 <= c <= 57.
Definition dec_value (s : list Z) (acc : Z) : Z := fold_left (fun a c => 10 * a + (c - 48)) s acc.
(** [s] is the numeral of [val]: digits, and no leading zero. *)
Record numeral (val : Z) (s : list Z) : Prop := {
  num_digits : Forall is_digit s;
  num_value : dec_value s 0 = val;
  num_lead : exists c t, s = c :: t /\ (c = 48 -> t = []);
}.

Lemma dec_value_app s t acc : dec_value (s ++ t) acc = dec_value t (dec_value s acc).
Proof. apply fold_left_app. Qed.

Lemma dec_value_shift s acc : dec_value s acc = 10 ^ zlen s * acc + dec_value s 0.
Proof.
  revert acc. induction s as [|c s IH]; intros acc; unfold dec_value in *; cbn [fold_left].
  - unfold zlen. simpl. lia.
  - rewrite IH, (IH (10 * 0 + (c - 48))). unfold zlen. cbn [length]. rewrite Nat2Z.inj_succ, Z.pow_succ_r by lia. ring.
Qed.

(** The weights of the last [k] digits, as the table has them. *)
Fixpoint weights (k : nat) : list Z := match k with O => [0] | S k => 8 * 10 ^ Z.of_nat k :: weights k end.

Lemma half x : Z.shiftr x 1 = x / 2.
Proof. by rewrite Z.shiftr_div_pow2. Qed.

(** One round of the inner loop. *)
Lemma digit_bits_step n i dv val c : i <> 0 ->
  digit_bits (S n) i dv val c =
    if dv <=? val then digit_bits n (Z.shiftr i 1) (Z.shiftr dv 1) (val - dv) (c + i)
    else digit_bits n (Z.shiftr i 1) (Z.shiftr dv 1) val c.
Proof. intros Hi. cbn [digit_bits]. rewrite (proj2 (Z.eqb_neq i 0)) by done. by destruct (dv <=? val). Qed.

(** From any of its entry points the inner loop divides. *)
Lemma digit_bits_spec j w val c n : (j <= 4)%nat -> (j < n)%nat -> 0 < w -> 0 <= val < 2 ^ Z.of_nat j * w ->
  digit_bits n (2 ^ Z.of_nat j / 2) (2 ^ Z.of_nat j * w / 2) val c = Some (val mod w, c + val / w).
Proof.
  revert val c n. induction j as [|j IH]; intros val c n Hj Hn Hw Hv; (destruct n as [|n]; [lia|]).
  - cbn [digit_bits]. change (2 ^ Z.of_nat 0 / 2 =? 0) with true. cbv iota. change (2 ^ Z.of_nat 0) with 1 in Hv.
    rewrite Z.mod_small, Z.div_small by lia. by rewrite Z.add_0_r.
  - rewrite Nat2Z.inj_succ, Z.pow_succ_r in * by lia. set (p := 2 ^ Z.of_nat j) in *.
    assert (0 < p) by (apply Z.pow_pos_nonneg; lia).
    replace (2 * p / 2) with p by lia. replace (2 * p * w / 2) with (p * w) by (rewrite <-Z.mul_assoc; lia).
    rewrite digit_bits_step by lia. rewrite !half. destruct (Z.leb_spec (p * w) val).
    + rewrite IH by lia. rewrite Zminus_mod, Z_mod_mult, Z.sub_0_r, Zmod_mod.
      replace (val - p * w) with (val + - p * w) by ring. rewrite Z.div_add by lia. do 2 f_equal. lia.
    + apply IH; lia.
Qed.

Lemma digit_8 w val c : 0 < w -> 0 <= val < 10 * w -> digit_bits 5 8 (8 * w) val c = Some (val mod w, c + val / w).
Proof.
  intros Hw Hv. pose proof (digit_bits_spec 4 w val c 5 ltac:(lia) ltac:(lia) Hw) as H.
  change (2 ^ Z.of_nat 4) with (2 * 8) in H. replace (2 * 8 * w / 2) with (8 * w) in H by lia. apply H. lia.
Qed.

Lemma digit_4 w val c : 0 < w -> 0 <= val < 8 * w -> digit_bits 5 4 (4 * w) val c = Some (val mod w, c + val / w).
Proof.
  intros Hw Hv. pose proof (digit_bits_spec 3 w val c 5 ltac:(lia) ltac:(lia) Hw) as H.
  change (2 ^ Z.of_nat 3) with (2 * 4) in H. replace (2 * 4 * w / 2) with (4 * w) in H by lia. apply H. lia.
Qed.

(** What the rest of the table prints of a number below [10^k] when [n] digits
    are out: all [k] digits, or none of the leading zeros if [n] is 0. *)
Definition rest_ok (k : nat) (val n : Z) (s : list Z) : Prop :=
  Forall is_digit s /\ dec_value s 0 = val /\
  (n <> 0 -> length s = k) /\ (n = 0 -> (length s <= k)%nat /\ (val = 0 -> s = []) /\ forall c t, s = c :: t -> c <> 48).

Lemma dec_digits_spec k val n : 0 <= val < 10 ^ Z.of_nat k -> 0 <= n ->
  exists s, dec_digits (weights k) 8 val n = Some (s ++ [0], n + zlen s) /\ rest_ok k val n s.
Proof.
  revert val n. induction k as [|k IH]; intros val n Hv Hn.
  - exists []. change (10 ^ Z.of_nat 0) with 1 in Hv. split.
    + cbn. by rewrite Z.add_0_r.
    + assert (val = 0) by lia. subst. unfold rest_ok. repeat split; done.
  - rewrite Nat2Z.inj_succ, Z.pow_succ_r in Hv by lia. cbn [weights dec_digits]. set (w := 10 ^ Z.of_nat k) in *.
    assert (0 < w) by (apply Z.pow_pos_nonneg; lia).
    rewrite (proj2 (Z.eqb_neq (8 * w) 0)) by lia. rewrite digit_8 by lia. cbn [mbind option_bind].
    rewrite Z.add_0_l. pose proof (Z.div_mod val w ltac:(lia)) as Ed. pose proof (Z.mod_pos_bound val w ltac:(lia)).
    assert (0 <= val / w < 10) as Hd by (split; [apply Z.div_pos; lia|apply Z.div_lt_upper_bound; lia]).
    set (d := val / w) in *. set (r := val mod w) in *. clearbody d r.
    destruct (decide (d = 0 /\ n = 0)) as [[-> ->]|Hne].
    + change (negb (0 =? 0) || negb (0 =? 0)) with false. cbv iota.
      destruct (IH r 0 ltac:(lia) ltac:(lia)) as (s & -> & Hs & Es & _ & Hl). exists s. split; [done|].
      specialize (Hl eq_refl) as (Hl1 & Hl2 & Hl3). unfold rest_ok.
      repeat split; try done; [lia|lia|]. intros Hv0. apply Hl2. lia.
    + assert (negb (d =? 0) || negb (n =? 0) = true) as ->.
      { destruct (Z.eqb_spec d 0), (Z.eqb_spec n 0); try done. exfalso. auto. }
      destruct (IH r (n + 1) ltac:(lia) ltac:(lia)) as (s & -> & Hs & Es & Hl & _). cbn [mbind option_bind].
      specialize (Hl ltac:(lia)). rewrite u8_small by lia. exists (d + 48 :: s).
      split; [f_equal; unfold zlen; cbn [length app]; f_equal; lia|]. unfold rest_ok.
      split; [constructor; [unfold is_digit; lia|done]|].
      split.
      { unfold dec_value in *. cbn [fold_left]. fold (dec_value s (10 * 0 + (d + 48 - 48))).
        rewrite dec_value_shift. unfold dec_value. rewrite Es. unfold zlen. rewrite Hl. fold w. lia. }
      split; [intros _; cbn [length]; lia|]. intros ->. cbn [length]. split; [lia|]. split; [|intros c t [= <- <-]; lia].
      intros ->. exfalso. apply Hne. split; [|done]. nia.
Qed.

(** The first entry stands for the bits 4, 2, 1 of the first digit. *)
Lemma dec_digits_first k val : 0 < val -> 0 <= val < 8 * 10 ^ Z.of_nat k ->
  exists s, dec_digits (4 * 10 ^ Z.of_nat k :: weights k) 4 val 0 = Some (s ++ [0], zlen s) /\
    numeral val s /\ (length s <= S k)%nat.
Proof.
  intros Hpos Hv. set (w := 10 ^ Z.of_nat k) in *. assert (0 < w) by (apply Z.pow_pos_nonneg; lia).
  assert (0 <= val < 8 * w) as Hv' by lia.
  cbn [dec_digits]. rewrite (proj2 (Z.eqb_neq (4 * w) 0)), digit_4 by lia. cbn [mbind option_bind].
  rewrite Z.add_0_l. pose proof (Z.div_mod val w ltac:(lia)) as Ed. pose proof (Z.mod_pos_bound val w ltac:(lia)).
  assert (0 <= val / w < 8) as Hd by (split; [apply Z.div_pos; lia|apply Z.div_lt_upper_bound; lia]).
  set (d := val / w) in *. set (r := val mod w) in *. clearbody d r. rewrite orb_false_r.
  destruct (Z.eqb_spec d 0) as [->|Hd0]; cbn [negb].
  - destruct (dec_digits_spec k r 0 ltac:(fold w; lia) ltac:(lia)) as (s & -> & Hs & Es & _ & Hl).
    specialize (Hl eq_refl) as (Hl1 & Hl2 & Hl3). exists s. split; [done|]. split; [|lia]. split; [done|lia|].
    destruct s as [|c t]; [unfold dec_value in Es; cbn in Es; lia|]. exists c, t. split; [done|]. intros ->.
    by destruct (Hl3 _ _ eq_refl).
  - destruct (dec_digits_spec k r (0 + 1) ltac:(fold w; lia) ltac:(lia)) as (s & -> & Hs & Es & Hl & _).
    specialize (Hl ltac:(lia)). cbn [mbind option_bind]. rewrite u8_small by lia. exists (d + 48 :: s).
    split; [f_equal; unfold zlen; cbn [length app]; f_equal; lia|]. split; [|cbn [length]; lia].
    split; [constructor; [unfold is_digit; lia|done]| |exists (d + 48), s; split; [done|lia]].
    unfold dec_value in *. cbn [fold_left]. fold (dec_value s (10 * 0 + (d + 48 - 48))).
    rewrite dec_value_shift. unfold dec_value. rewrite Es. unfold zlen. rewrite Hl. fold w. lia.
Qed.

Lemma numeral_0 : numeral 0 [48].
Proof. split; [by repeat constructor; unfold is_digit|done|]. by exists 48, []. Qed.

Lemma uint2dec_ok val : 0 <= val < 2 ^ 32 ->
  exists s, uint2dec val = Some (s ++ [0], zlen s) /\ numeral val s /\ (length s <= 10)%nat.
Proof.
  intros Hv. unfold uint2dec. destruct (Z.eqb_spec val 0) as [->|Hnz].
  - exists [48]. split; [done|]. split; [apply numeral_0|simpl; lia].
  - change uint_div_tab with (4 * 10 ^ Z.of_nat 9 :: weights 9). apply dec_digits_first; [lia|].
    change (10 ^ Z.of_nat 9) with 1000000000. lia.
Qed.
(** ** Reading a numeral back *)

(** Where a scan of decimal digits stops. *)
Definition stops (rest : list Z) : Prop := exists c t, rest = c :: t /\ (c < 48 \/ 57 < c).

Lemma dec_step v c : 0 <= v < 2 ^ 32 ->
  u32 (u32 (Z.shiftl (u32 (u32 (Z.shiftl v 2) + v)) 1) + (c - 48)) = u32 (10 * v + (c - 48)).
Proof.
  intros Hv. rewrite !Z.shiftl_mul_pow2 by lia. change (2 ^ 2) with 4. change (2 ^ 1) with 2. unfold u32, wrap.
  change (2 ^ 32) with 4294967296 in *. lia.
Qed.

Lemma scan_dec_spec s rest acc : Forall is_digit s -> stops rest -> 0 <= acc < 2 ^ 32 ->
  scan_dec acc (s ++ rest) = Some (u32 (dec_value s acc), rest).
Proof.
  intros Hs (c0 & t & -> & Hc0). revert acc. induction Hs as [|c s Hc Hs IH]; intros acc Ha; cbn [app scan_dec].
  - assert ((c0 =? 0) || (c0 <? 48) || (57 <? c0) = true) as ->.
    { destruct (Z.eqb_spec c0 0), (Z.ltb_spec c0 48), (Z.ltb_spec 57 c0); try done; lia. }
    unfold dec_value. cbn [fold_left]. by rewrite u32_small.
  - unfold is_digit in Hc. rewrite (proj2 (Z.eqb_neq c 0)), (proj2 (Z.ltb_ge c 48)), (proj2 (Z.ltb_ge 57 c)) by lia.
    cbn [orb]. rewrite dec_step, IH by (done || apply u32_bound). do 2 f_equal. unfold dec_value. cbn [fold_left].
    fold (dec_value s (u32 (10 * acc + (c - 48)))). fold (dec_value s (10 * acc + (c - 48))).
    rewrite (dec_value_shift s (u32 _)), (dec_value_shift s (10 * acc + _)). unfold u32, wrap.
    rewrite <-(Zplus_mod_idemp_l (_ * ((10 * acc + (c - 48)) mod _))), <-(Zplus_mod_idemp_l (_ * (10 * acc + _))).
    by rewrite Zmult_mod_idemp_r.
Qed.

Lemma skip_nonblank c s : c <> 32 -> skip_blanks (c :: s) = Some (c :: s).
Proof. intros H. simpl. by rewrite (proj2 (Z.eqb_neq c 32)). Qed.

Lemma strtoul_numeral val s rest base :
  0 <= val < 2 ^ 32 -> numeral val s -> stops rest -> base = 10 \/ base = 0 /\ (exists t, rest = 0 :: t) ->
  strtoul (s ++ rest) base = Some (val, rest).
Proof.
  intros Hv [Hd Ev (c & t & -> & Hlead)] Hstop Hbase. pose proof Hd as Hd'. apply List.Forall_cons_iff in Hd' as [Hc Ht].
  unfold is_digit in Hc. unfold strtoul. cbn [app]. rewrite skip_nonblank by lia. cbn [mbind option_bind head].
  destruct Hbase as [->|[-> [t0 ->]]].
  - change ((10 =? 0) || (10 =? 16)) with false. cbn [andb mbind option_bind]. change (10 =? 0) with false. cbv iota.
    change (10 =? 10) with true. cbv iota. change (c :: t ++ rest) with ((c :: t) ++ rest).
    rewrite scan_dec_spec, Ev by (done || lia). by rewrite u32_small.
  - change ((0 =? 0) || (0 =? 16)) with true. cbn [andb]. destruct (Z.eqb_spec c 48) as [->|Hne].
    + rewrite Hlead in * by done. cbn. unfold dec_value in Ev. cbn in Ev. by rewrite <-Ev.
    + cbn [mbind option_bind]. change (0 =? 0) with true. cbv iota. change (10 =? 10) with true. cbv iota.
      change (c :: t ++ 0 :: t0) with ((c :: t) ++ 0 :: t0). rewrite scan_dec_spec, Ev by (done || lia). by rewrite u32_small.
Qed.

Lemma stops_nul rest : stops (0 :: rest).
Proof. exists 0, rest. split; [done|lia]. Qed.

Lemma atoi_spec s rest acc : Forall is_digit s -> stops rest -> 0 <= acc -> dec_value s acc < 2 ^ 31 ->
  atoi_from acc (s ++ rest) = Some (dec_value s acc).
Proof.
  intros Hs (c0 & t & -> & Hc0). revert acc. induction Hs as [|c s Hc Hs IH]; intros acc Ha Hb; cbn [app atoi_from].
  - assert ((c0 <? 48) || (57 <? c0) = true) as ->; [|done].
    destruct (Z.ltb_spec c0 48), (Z.ltb_spec 57 c0); try done; lia.
  - unfold is_digit in Hc. rewrite (proj2 (Z.ltb_ge c 48)), (proj2 (Z.ltb_ge 57 c)) by lia. cbn [orb].
    assert (dec_value (c :: s) acc = dec_value s (10 * acc + (c - 48))) as E by done. rewrite E in *.
    assert (0 <= dec_value s 0) as Hs0.
    { clear -Hs. unfold dec_value. assert (forall a, 0 <= a -> 0 <= fold_left (fun a c => 10 * a + (c - 48)) s a) as H; [|by apply H].
      induction Hs as [|c s Hc Hs IH]; intros a Ha; [done|]. cbn [fold_left]. apply IH. unfold is_digit in Hc. lia. }
    pose proof (dec_value_shift s (10 * acc + (c - 48))) as Es.
    assert (1 <= 10 ^ zlen s) by (pose proof (Z.pow_pos_nonneg 10 (zlen s) ltac:(lia) ltac:(unfold zlen; lia)); lia).
    replace (s32 (acc * 10 + (c - 48))) with (10 * acc + (c - 48)) by (rewrite s32_small; nia).
    apply IH; lia.
Qed.

(** C38. Decimal round trip: [uint2dec] writes the one numeral of every 32-bit
    number (at most ten digits and the terminator) and returns its length;
    [strtoul] in base 10 or 0 reads the number back and stops at the
    terminator, and so does [atoi] below 2^31. *)
Theorem uint2dec_roundtrip val rest :
  0 <= val < 2 ^ 32 ->
  exists s, uint2dec val = Some (s ++ [0], zlen s) /\ numeral val s /\ (length s <= 10)%nat /\
    strtoul (s ++ 0 :: rest) 10 = Some (val, 0 :: rest) /\ strtoul (s ++ 0 :: rest) 0 = Some (val, 0 :: rest) /\
    (val < 2 ^ 31 -> atoi (s ++ 0 :: rest) = Some val).
Proof.
  intros Hv. destruct (uint2dec_ok val Hv) as (s & E & Hn & Hl). exists s. split; [done|]. split; [done|]. split; [done|].
  split; [apply strtoul_numeral; auto using stops_nul|]. split; [apply strtoul_numeral; eauto using stops_nul|].
  intros Hlt. destruct Hn as [Hd Ev _]. unfold atoi. rewrite <-Ev. apply atoi_spec; [done|apply stops_nul|done|lia].
Qed.

(** Signed decimal round trip, for every [int], the most negative one
    included. *)
Theorem int2dec_roundtrip val rest :
  - 2 ^ 31 <= val < 2 ^ 31 ->
  exists s, int2dec val = Some (s ++ [0], zlen s) /\ (length s <= 11)%nat /\
    strtol (s ++ 0 :: rest) 10 = Some (val, 0 :: rest).
Proof.
  intros Hv. unfold int2dec. destruct (Z.ltb_spec val 0) as [Hneg|Hpos].
  - rewrite u32_small by lia. destruct (uint2dec_ok (- val) ltac:(lia)) as (s & -> & Hn & Hl). exists (45 :: s).
    cbn [mbind option_bind]. split; [f_equal; unfold zlen; cbn [length app]; f_equal; lia|]. split; [cbn; lia|].
    unfold strtol. cbn [app]. rewrite skip_nonblank by done. cbn [mbind option_bind head tail]. change (45 =? 45) with true.
    cbv iota. rewrite (strtoul_numeral (- val)) by (auto using stops_nul; lia). cbn [mbind option_bind].
    do 2 f_equal. unfold s32, swrap, wrap. change (2 ^ 32) with 4294967296 in *. change (2 ^ (32 - 1)) with 2147483648.
    change (2 ^ 31) with 2147483648 in *. destruct (Z.ltb_spec ((- val) mod 4294967296) 2147483648).
    + destruct (Z.ltb_spec ((- ((- val) mod 4294967296)) mod 4294967296) 2147483648); lia.
    + destruct (Z.ltb_spec ((- ((- val) mod 4294967296 - 4294967296)) mod 4294967296) 2147483648); lia.
  - destruct (uint2dec_ok val ltac:(lia)) as (s & -> & Hn & Hl). exists s. split; [done|]. split; [lia|].
    unfold strtol. pose proof Hn as [Hd _ (c & t & -> & _)]. apply List.Forall_cons_iff in Hd as [Hc _]. unfold is_digit in Hc.
    cbn [app]. rewrite skip_nonblank by lia. cbn [mbind option_bind head]. rewrite (proj2 (Z.eqb_neq c 45)) by lia.
    change (c :: t ++ 0 :: rest) with ((c :: t) ++ 0 :: rest).
    rewrite (strtoul_numeral val) by (auto using stops_nul; lia). cbn [mbind option_bind]. by rewrite s32_small by lia.
Qed.

(** [ull2dec] is right below 25 * 10^17 and wrong there: its table starts
    at 10^19 where the loop takes the entry for four times the weight. *)
Theorem ull2dec_limit :
  (forall val, 0 <= val < 25 * 10 ^ 17 ->
    exists s, ull2dec val = Some (s ++ [0], zlen s) /\ numeral val s /\ (length s <= 19)%nat) /\
  ~ exists s, ull2dec (25 * 10 ^ 17) = Some (s ++ [0], zlen s) /\ numeral (25 * 10 ^ 17) s.
Proof.
  split.
  - intros val Hv. unfold ull2dec. destruct (Z.eqb_spec val 0) as [->|Hnz].
    { exists [48]. split; [done|]. split; [apply numeral_0|simpl; lia]. }
    change ull_div_tab with (10 ^ 19 :: weights 19). cbn [dec_digits]. change (10 ^ 19 =? 0) with false. cbv iota.
    assert (digit_bits 5 4 (10 ^ 19) val 0 = Some (val, 0)) as ->.
    { rewrite digit_bits_step, (proj2 (Z.leb_gt (10 ^ 19) val)) by lia.
      change (Z.shiftr 4 1) with 2. change (Z.shiftr (10 ^ 19) 1) with (5 * 10 ^ 18).
      rewrite digit_bits_step, (proj2 (Z.leb_gt (5 * 10 ^ 18) val)) by lia.
      change (Z.shiftr 2 1) with 1. change (Z.shiftr (5 * 10 ^ 18) 1) with (25 * 10 ^ 17).
      rewrite digit_bits_step, (proj2 (Z.leb_gt (25 * 10 ^ 17) val)) by lia. reflexivity. }
    cbn [mbind option_bind]. change (negb (0 =? 0) || negb (0 =? 0)) with false. cbv iota.
    destruct (dec_digits_spec 19 val 0 ltac:(change (10 ^ Z.of_nat 19) with (10 ^ 19); lia) ltac:(lia))
      as (s & -> & Hs & Es & _ & Hl). specialize (Hl eq_refl) as (Hl1 & Hl2 & Hl3). exists s. split; [done|].
    split; [|lia]. split; [done|done|]. destruct s as [|c t]; [unfold dec_value in Es; cbn in Es; lia|].
    exists c, t. split; [done|]. intros ->. by destruct (Hl3 _ _ eq_refl).
  - intros (s & E & [_ Ev _]).
    set (text := fun o : option (list Z * Z) => match o with Some (l, _) => removelast l | None => [] end).
    assert (text (ull2dec (25 * 10 ^ 17)) = s) as Et by (rewrite E; apply removelast_last).
    rewrite <-Et in Ev. vm_compute in Ev. discriminate Ev.
Qed.

(** ** Hexadecimal *)

Definition is_hex (c : Z) : Prop := 48 <= c <= 57 \/ 97 <= c <= 102.
Definition hex_digit (c : Z) : Z := if c <? 58 then c - 48 else c - 87.
Definition hex_num (s : list Z) (acc : Z) : Z := fold_left (fun a c => 16 * a + hex_digit c) s acc.

Lemma hex_num_shift s acc : hex_num s acc = 16 ^ zlen s * acc + hex_num s 0.
Proof.
  revert acc. induction s as [|c s IH]; intros acc; unfold hex_num in *; cbn [fold_left].
  - unfold zlen. simpl. lia.
  - rewrite IH, (IH (16 * 0 + hex_digit c)). unfold zlen. cbn [length]. rewrite Nat2Z.inj_succ, Z.pow_succ_r by lia. ring.
Qed.

Lemma hextab d : 0 <= d < 16 -> exists c, __hextab !! Z.to_nat d = Some c /\ is_hex c /\ hex_digit c = d.
Proof.
  intros Hd. assert (d = 0 \/ d = 1 \/ d = 2 \/ d = 3 \/ d = 4 \/ d = 5 \/ d = 6 \/ d = 7 \/ d = 8 \/ d = 9 \/ d = 10 \/
    d = 11 \/ d = 12 \/ d = 13 \/ d = 14 \/ d = 15) as H by lia.
  unfold is_hex. repeat destruct H as [->|H]; [..|subst d]; eexists; (split; [reflexivity|]); (split; [lia|reflexivity]).
Qed.

Lemma hex_value_spec c : is_hex c -> hex_value c = Some (hex_digit c).
Proof.
  intros Hc. assert (forallb (fun c => match hex_value c with Some d => d =? hex_digit c | None => false end)
    (seqZ 48 10 ++ seqZ 97 6) = true) as H by (vm_compute; reflexivity).
  rewrite forallb_forall in H. specialize (H c). destruct (hex_value c) as [d|].
  - f_equal. apply Z.eqb_eq, H. apply list_elem_of_In, elem_of_app. unfold is_hex in Hc. rewrite !elem_of_seqZ. lia.
  - exfalso. discriminate H. apply list_elem_of_In, elem_of_app. unfold is_hex in Hc. rewrite !elem_of_seqZ. lia.
Qed.

(** With [k] of [K] digits left the number that is left is in the top [4 k]
    bits of the word. *)
Lemma hex_digits_spec (K k : nat) m n : (k <= K)%nat -> 0 <= m < 16 ^ Z.of_nat k -> 0 <= n ->
  exists s, hex_digits k (4 * Z.of_nat K) (m * 16 ^ (Z.of_nat K - Z.of_nat k)) n = Some (s ++ [0], n + zlen s) /\
    Forall is_hex s /\ hex_num s 0 = m /\ (n <> 0 -> length s = k) /\ (length s <= k)%nat /\
    (n = 0 -> forall c t, s = c :: t -> c <> 48) /\ (0 < m -> s <> []).
Proof.
  revert m n. induction k as [|k IH]; intros m n Hk Hm Hn.
  - exists []. change (16 ^ Z.of_nat 0) with 1 in Hm. assert (m = 0) as -> by lia. cbn [hex_digits app].
    split; [unfold zlen; simpl; f_equal; f_equal; lia|]. repeat split; done || lia.
  - cbn [hex_digits]. rewrite Nat2Z.inj_succ, Z.pow_succ_r in Hm by lia. set (w := 16 ^ Z.of_nat k) in *.
    assert (0 < w) by (apply Z.pow_pos_nonneg; lia).
    set (p := 16 ^ (Z.of_nat K - Z.of_nat (S k))). assert (0 < p) by (apply Z.pow_pos_nonneg; lia).
    pose proof (Z.div_mod m w ltac:(lia)) as Ed. pose proof (Z.mod_pos_bound m w ltac:(lia)).
    assert (0 <= m / w < 16) as Hd by (split; [apply Z.div_pos; lia|apply Z.div_lt_upper_bound; lia]).
    assert (2 ^ (4 * Z.of_nat K - 4) = w * p) as Ewp.
    { unfold w, p. rewrite <-Z.pow_add_r by lia. change 16 with (2 ^ 4). rewrite <-Z.pow_mul_r by lia. f_equal. lia. }
    assert (2 ^ (4 * Z.of_nat K) = 16 * (w * p)) as Ewp'.
    { rewrite <-Ewp. change 16 with (2 ^ 4). rewrite <-Z.pow_add_r by lia. f_equal. lia. }
    assert (Z.shiftr (m * p) (4 * Z.of_nat K - 4) = m / w) as ->.
    { rewrite Z.shiftr_div_pow2, Ewp by lia. by rewrite Z.div_mul_cancel_r by lia. }
    assert (wrap (4 * Z.of_nat K) (Z.shiftl (m * p) 4) = m mod w * 16 ^ (Z.of_nat K - Z.of_nat k)) as ->.
    { unfold wrap. rewrite Z.shiftl_mul_pow2, Ewp' by lia. change (2 ^ 4) with 16.
      replace (Z.of_nat K - Z.of_nat k) with (1 + (Z.of_nat K - Z.of_nat (S k))) by lia. rewrite Z.pow_add_r by lia. fold p.
      change (16 ^ 1) with 16. replace (m * p * 16) with (m * (16 * p)) by ring. replace (16 * (w * p)) with (w * (16 * p)) by ring.
      rewrite Zmult_mod_distr_r. ring. }
    set (d := m / w) in *. set (r := m mod w) in *. clearbody d r.
    destruct (decide (d = 0 /\ n = 0)) as [[-> ->]|Hne].
    + change (negb (0 =? 0) || negb (0 =? 0)) with false. cbv iota.
      destruct (IH r 0 ltac:(lia) ltac:(lia) ltac:(lia)) as (s & -> & Hs & Es & _ & Hl & Hz & Hp). exists s.
      split; [done|]. split; [done|]. split; [lia|]. split; [lia|]. split; [lia|]. split; [done|]. intros. apply Hp. lia.
    + assert (negb (d =? 0) || negb (n =? 0) = true) as ->.
      { destruct (Z.eqb_spec d 0), (Z.eqb_spec n 0); try done. exfalso. auto. }
      destruct (hextab d Hd) as (c & -> & Hc & Ec).
      destruct (IH r (n + 1) ltac:(lia) ltac:(lia) ltac:(lia)) as (s & -> & Hs & Es & Hl & _). cbn [mbind option_bind].
      specialize (Hl ltac:(lia)). exists (c :: s).
      split; [f_equal; unfold zlen; cbn [length app]; f_equal; lia|]. split; [by constructor|].
      split. { unfold hex_num. cbn [fold_left]. fold (hex_num s (16 * 0 + hex_digit c)).
        rewrite hex_num_shift, Es, Ec. unfold zlen. rewrite Hl. fold w. lia. }
      split; [intros _; cbn [length]; lia|]. split; [cbn [length]; lia|]. split; [|done].
      intros -> c' t [= <- <-] ->. apply Hne. split; [|done]. change (hex_digit 48) with 0 in Ec. lia.
Qed.

Lemma scan_hex_spec s rest acc : Forall is_hex s -> 0 <= acc < 2 ^ 32 ->
  scan_hex acc (s ++ 0 :: rest) = Some (u32 (hex_num s acc), 0 :: rest).
Proof.
  intros Hs. revert acc. induction Hs as [|c s Hc Hs IH]; intros acc Ha; cbn [app scan_hex].
  - change (0 =? 0) with true. cbv iota. unfold hex_num. cbn [fold_left]. by rewrite u32_small.
  - rewrite (proj2 (Z.eqb_neq c 0)), hex_value_spec by (done || unfold is_hex in Hc; lia).
    rewrite IH by apply u32_bound. do 2 f_equal. unfold hex_num. cbn [fold_left].
    fold (hex_num s (u32 (u32 (Z.shiftl acc 4) + hex_digit c))). fold (hex_num s (16 * acc + hex_digit c)).
    rewrite (hex_num_shift s (u32 _)), (hex_num_shift s (16 * acc + _)). unfold u32, wrap.
    rewrite Z.shiftl_mul_pow2 by lia. change (2 ^ 4) with 16. rewrite Zplus_mod_idemp_l, (Z.mul_comm acc 16).
    rewrite <-(Zplus_mod_idemp_l (_ * ((16 * acc + hex_digit c) mod _))), <-(Zplus_mod_idemp_l (_ * (16 * acc + _))).
    by rewrite Zmult_mod_idemp_r.
Qed.

(** [s] is the hexadecimal numeral of [val]: lower case, no leading zero. *)
Record hex_numeral (val : Z) (s : list Z) : Prop := {
  hex_digits_ok : Forall is_hex s;
  hex_num_ok : hex_num s 0 = val;
  hex_lead : exists c t, s = c :: t /\ (c = 48 -> t = []);
}.

Lemma hex_digits_word (K : nat) val : 0 < val < 16 ^ Z.of_nat K ->
  exists s, hex_digits K (4 * Z.of_nat K) val 0 = Some (s ++ [0], zlen s) /\ hex_numeral val s /\ (length s <= K)%nat.
Proof.
  intros Hv. destruct (hex_digits_spec K K val 0 ltac:(lia) ltac:(lia) ltac:(lia)) as (s & E & Hs & Es & _ & Hl & H0 & Hp).
  rewrite Z.sub_diag, Z.mul_1_r in E. exists s. split; [done|]. split; [|done]. split; [done|done|].
  destruct s as [|c t]; [exfalso; apply Hp; [lia|done]|]. exists c, t. split; [done|]. intros ->. by destruct (H0 eq_refl _ _ eq_refl).
Qed.

Lemma hex_numeral_0 : hex_numeral 0 [48].
Proof. split; [constructor; [unfold is_hex; lia|done]|done|]. by exists 48, []. Qed.

Lemma strtoul_hex val s rest : 0 <= val < 2 ^ 32 -> hex_numeral val s ->
  strtoul (s ++ 0 :: rest) 16 = Some (val, 0 :: rest).
Proof.
  intros Hv [Hs Es (c & t & -> & Hlead)]. pose proof Hs as Hs'. apply List.Forall_cons_iff in Hs' as [Hc Ht].
  unfold strtoul. cbn [app]. rewrite skip_nonblank by (unfold is_hex in Hc; lia). cbn [mbind option_bind head].
  change ((16 =? 0) || (16 =? 16)) with true. cbn [andb]. destruct (Z.eqb_spec c 48) as [->|Hne].
  - rewrite Hlead in * by done. cbn. unfold hex_num in Es. cbn in Es. by rewrite <-Es.
  - cbn [mbind option_bind]. change (16 =? 0) with false. cbv iota. change (16 =? 10) with false. cbv iota.
    change (16 =? 16) with true. cbv iota. change (c :: t ++ 0 :: rest) with ((c :: t) ++ 0 :: rest).
    rewrite scan_hex_spec, Es by (done || lia). by rewrite u32_small.
Qed.

(** Hexadecimal round trip: [uint2hex] and [ull2hex] write the numeral of
    every 32-bit and 64-bit number, at most 8 and 16 digits and the
    terminator, and return its length; [strtoul] in base 16 reads a 32-bit one
    back. *)
Theorem hex_roundtrip val rest :
  (0 <= val < 2 ^ 32 -> exists s, uint2hex val = Some (s ++ [0], zlen s) /\ hex_numeral val s /\ (length s <= 8)%nat /\
    strtoul (s ++ 0 :: rest) 16 = Some (val, 0 :: rest)) /\
  (0 <= val < 2 ^ 64 -> exists s, ull2hex val = Some (s ++ [0], zlen s) /\ hex_numeral val s /\ (length s <= 16)%nat).
Proof.
  split; intros Hv; unfold uint2hex, ull2hex; destruct (Z.eqb_spec val 0) as [->|Hnz].
  - exists [48]. split; [done|]. split; [apply hex_numeral_0|]. split; [simpl; lia|]. apply strtoul_hex; [lia|apply hex_numeral_0].
  - destruct (hex_digits_word 8 val) as (s & E & Hn & Hl); [change (16 ^ Z.of_nat 8) with (2 ^ 32); lia|].
    exists s. split; [done|]. split; [done|]. split; [done|]. by apply strtoul_hex.
  - exists [48]. split; [done|]. split; [apply hex_numeral_0|simpl; lia].
  - apply (hex_digits_word 16). change (16 ^ Z.of_nat 16) with (2 ^ 64). lia.
Qed.
(** ** The theorems at concrete numbers *)

Lemma uint2dec_roundtrip_witness :
  exists s, uint2dec 4294967295 = Some (s ++ [0], zlen s) /\ numeral 4294967295 s /\ (length s <= 10)%nat /\
    strtoul (s ++ 0 :: []) 10 = Some (4294967295, 0 :: []) /\ strtoul (s ++ 0 :: []) 0 = Some (4294967295, 0 :: []) /\
    (4294967295 < 2 ^ 31 -> atoi (s ++ 0 :: []) = Some 4294967295).
Proof. apply uint2dec_roundtrip. lia. Defined.

Lemma int2dec_roundtrip_witness :
  exists s, int2dec (- 2147483648) = Some (s ++ [0], zlen s) /\ (length s <= 11)%nat /\
    strtol (s ++ 0 :: []) 10 = Some (- 2147483648, 0 :: []).
Proof. apply int2dec_roundtrip. lia. Defined.

Lemma ull2dec_limit_witness :
  (forall val, 0 <= val < 25 * 10 ^ 17 ->
    exists s, ull2dec val = Some (s ++ [0], zlen s) /\ numeral val s /\ (length s <= 19)%nat) /\
  ~ exists s, ull2dec (25 * 10 ^ 17) = Some (s ++ [0], zlen s) /\ numeral (25 * 10 ^ 17) s.
Proof. apply ull2dec_limit. Defined.

Lemma hex_roundtrip_witness :
  (0 <= 0xdeadbeef < 2 ^ 32 -> exists s, uint2hex 0xdeadbeef = Some (s ++ [0], zlen s) /\ hex_numeral 0xdeadbeef s /\
    (length s <= 8)%nat /\ strtoul (s ++ 0 :: [7]) 16 = Some (0xdeadbeef, 0 :: [7])) /\
  (0 <= 0xdeadbeef < 2 ^ 64 -> exists s, ull2hex 0xdeadbeef = Some (s ++ [0], zlen s) /\ hex_numeral 0xdeadbeef s /\
    (length s <= 16)%nat).
Proof. apply hex_roundtrip. Defined.
End Number.
