(* ===== verification/Mbuf.v ===== *)
(** * Packet buffers

    [sdk/libtcpip/mbuf]: the pool of fixed-size buffers, its free list, byte
    queues over chains of buffers, and buffer lists.

    A [struct mbuf *] is an address; the [next] field comes first in every
    object a buffer pointer can point to, the [first] field of the free list and
    of a queue included (the code casts their addresses), so that one map from
    addresses holds all the links, [free.first] and [q->first] being the links
    of the addresses [FREE] and [q]. *)

From S2P Require Import Prelude.
From stdpp Require Import fin_maps gmap.
Open Scope Z_scope.

(** [MBUF_DATA_SIZE] and [MBUF_POOL_SIZE]. [max] and [used] are [uint8_t]; the
    [len] of a queue is a [uint16_t]. *)
Class MbufConfig := {
  MBUF_DATA_SIZE : Z;
  MBUF_POOL_SIZE : Z;
  data_size_bound : 0 < MBUF_DATA_SIZE;
  pool_size_bound : 0 <= MBUF_POOL_SIZE < 256;
  pool_bytes_bound : MBUF_POOL_SIZE * MBUF_DATA_SIZE < 2 ^ 15;
}.
#[export] Instance mbuf_default : MbufConfig.
Proof. refine {| MBUF_DATA_SIZE := 124; MBUF_POOL_SIZE := 64 |}; lia. Defined.

Module Mbuf.
Definition NULL := 0.
(** the address of [__mbufs__.free.first] *)
Definition FREE := 1.
(** [&__mbufs__.pool[i]] *)
Definition POOL (i : Z) := 16 + i.

Record mbufs := mk_mbufs {
  mb_next : gmap Z Z;
  mb_data : gmap Z (list Z);   (* the data of a buffer *)
  mb_last : Z;                 (* free.last *)
  mb_used : Z;
  mb_max : Z;
  mb_locked : bool;            (* the mutex of the pool *)
  mb_signals : Z;              (* signals of the condition variable *)
  mb_qoffs : gmap Z Z;         (* the fields of the queues, by address *)
  mb_qlen : gmap Z Z;
  mb_qlast : gmap Z Z;
}.
Definition eta_mbufs (s : mbufs) : mbufs :=
  mk_mbufs (mb_next s) (mb_data s) (mb_last s) (mb_used s) (mb_max s) (mb_locked s) (mb_signals s)
    (mb_qoffs s) (mb_qlen s) (mb_qlast s).

Definition next : lens mbufs (gmap Z Z) := Lens mb_next ltac:(mk_set eta_mbufs mb_next).
Definition data : lens mbufs (gmap Z (list Z)) := Lens mb_data ltac:(mk_set eta_mbufs mb_data).
Definition free_last : lens mbufs Z := Lens mb_last ltac:(mk_set eta_mbufs mb_last).
Definition used : lens mbufs Z := Lens mb_used ltac:(mk_set eta_mbufs mb_used).
Definition max : lens mbufs Z := Lens mb_max ltac:(mk_set eta_mbufs mb_max).
Definition locked : lens mbufs bool := Lens mb_locked ltac:(mk_set eta_mbufs mb_locked).
Definition signals : lens mbufs Z := Lens mb_signals ltac:(mk_set eta_mbufs mb_signals).
Definition qoffs : lens mbufs (gmap Z Z) := Lens mb_qoffs ltac:(mk_set eta_mbufs mb_qoffs).
Definition qlen : lens mbufs (gmap Z Z) := Lens mb_qlen ltac:(mk_set eta_mbufs mb_qlen).
Definition qlast : lens mbufs (gmap Z Z) := Lens mb_qlast ltac:(mk_set eta_mbufs mb_qlast).

Abbreviation B := (M mbufs).
Open Scope c_scope.

(** Fields of an object; an access through an address without one faults. *)
Definition fld_rd {A} (f : lens mbufs (gmap Z A)) (p : Z) : B A :=
  fun s => match lget f s !! p with Some v => Some (v, s) | None => None end.
Definition fld_wr {A} (f : lens mbufs (gmap Z A)) (p : Z) (v : A) : B unit :=
  fun s => match lget f s !! p with Some _ => Some (tt, lset f (<[p := v]> (lget f s)) s) | None => None end.

(** A mutex of the pool that is already held: the caller does not get past it,
    and the computation has no result. *)
Definition mutex_lock : B unit := l <- get locked;; if l : bool then fault else put locked true.
Definition mutex_unlock : B unit := put locked false.
Definition cond_signal : B unit := n <- get signals;; put signals (n + 1).

Section ops.
Context `{MbufConfig}.

(** [memcpy] from a buffer, into a buffer, and the next [n] bytes of the
    caller's array. *)
Definition data_rd (p offs n : Z) : B (list Z) :=
  d <- fld_rd data p;;
  if (0 <=? offs) && (0 <=? n) && (offs + n <=? MBUF_DATA_SIZE)
  then ret (take (Z.to_nat n) (drop (Z.to_nat offs) d)) else fault.
Definition data_wr (p offs : Z) (src : list Z) : B unit :=
  d <- fld_rd data p;;
  if (0 <=? offs) && (offs + zlen src <=? MBUF_DATA_SIZE)
  then fld_wr data p (patch offs src d) else fault.
Definition src_rd (src : list Z) (n : Z) : B (list Z) :=
  if (0 <=? n) && (n <=? zlen src) then ret (take (Z.to_nat n) src) else fault.

(** ** The pool *)

(** The loop of [mbuf_init], [p] linked to the [i]th buffer. *)
Fixpoint link_pool (n : nat) (i p : Z) : B Z :=
  match n with
  | O => ret p
  | S n => fld_wr next p (POOL i);;; link_pool n (i + 1) (POOL i)
  end.
Definition mbuf_init : B unit :=
  put used 0;;;
  put max MBUF_POOL_SIZE;;;
  p <- link_pool (Z.to_nat MBUF_POOL_SIZE) 0 FREE;;
  fld_wr next p NULL;;;
  put free_last p.

(** The common part of the allocations: the first free buffer. *)
Definition take_first (m : Z) : B unit :=
  nx <- fld_rd next m;;
  fld_wr next FREE nx;;;
  when (nx =? NULL) (put free_last FREE);;;
  u <- get used;;
  put used (u8 (u + 1)).

(** [None]: the caller waits on the condition variable. *)
Definition mbuf_alloc : B (option Z) :=
  mutex_lock;;;
  m <- fld_rd next FREE;;
  if m =? NULL then mutex_unlock;;; ret None
  else take_first m;;; mutex_unlock;;; ret (Some m).

Definition mbuf_try_alloc : B Z :=
  mutex_lock;;;
  m <- fld_rd next FREE;;
  (if m =? NULL then ret tt else take_first m);;;
  mutex_unlock;;;
  ret m.

Definition __mbuf_release (p : Z) : B unit :=
  q <- get free_last;;
  fld_wr next q p;;;
  put free_last p;;;
  fld_wr next p NULL;;;
  u <- get used;;
  put used (u8 (u - 1)).

Definition mbuf_free (p : Z) : B unit :=
  mutex_lock;;;
  __mbuf_release p;;;
  cond_signal;;;
  mutex_unlock.

Definition mbuf_avail : B Z := m <- get max;; u <- get used;; ret (m - u).

Definition mbuf_used : B Z := get used.
Definition mbuf_max : B Z := get max.
Definition mbuf_memavail : B Z := m <- get max;; u <- get used;; ret ((m - u) * MBUF_DATA_SIZE).

(** The loop of [mbuf_alloc_check] from the free buffer [m]; the bound is more
    than the pool has. *)
Fixpoint count_free (fuel : nat) (m n : Z) : B Z :=
  if m =? NULL then ret n
  else match fuel with
       | O => fault
       | S fuel => nx <- fld_rd next m;; count_free fuel nx (n + 1)
       end.
Definition mbuf_alloc_check : B Z :=
  mutex_lock;;;
  m <- fld_rd next FREE;;
  n <- count_free (Z.to_nat MBUF_POOL_SIZE) m 0;;
  u <- get used;;
  mx <- get max;;
  mutex_unlock;;;
  ret (if n + u =? mx then 0 else -1).

(** ** Lists of buffers *)

(** The loop of [mbuf_list_alloc], [n] rounds to go: from [p] and [q], the [p]
    and the [q] it ends with. *)
Fixpoint walk (n : nat) (p q : Z) : B (Z * Z) :=
  match n with
  | O => ret (p, q)
  | S n => nx <- fld_rd next p;; walk n nx p
  end.
Definition mbuf_list_alloc (len : Z) : B Z :=
  let n := Z.quot (len + (MBUF_DATA_SIZE - 1)) MBUF_DATA_SIZE in
  mutex_lock;;;
  mx <- get max;;
  u <- get used;;
  if mx - u <? n then ret NULL
  else
    m <- fld_rd next FREE;;
    pq <- walk (Z.to_nat n) m m;;
    fld_wr next (snd pq) NULL;;;
    fld_wr next FREE (fst pq);;;
    when (fst pq =? NULL) (put free_last FREE);;;
    put used (u8 (u + n));;;
    mutex_unlock;;;
    ret m.

(** The loop of [mbuf_list_free] and of [mbuf_queue_free]. *)
Fixpoint release_all (fuel : nat) (m : Z) : B unit :=
  if m =? NULL then ret tt
  else match fuel with
       | O => fault
       | S fuel =>
         p <- fld_rd next m;;
         __mbuf_release m;;;
         release_all fuel p
       end.
Definition mbuf_list_free (q : Z) : B unit :=
  mutex_lock;;;
  release_all (Z.to_nat MBUF_POOL_SIZE) q;;;
  cond_signal;;;
  mutex_unlock.

(** [None]: the loop of [mbuf_list_read] and [mbuf_list_write] ran out of
    rounds; a round consumes a whole buffer. *)
Fixpoint list_read (fuel : nat) (p rem : Z) (dst : list Z) : B (Z * list Z) :=
  if (MBUF_DATA_SIZE <=? rem) && negb (p =? NULL) then
    match fuel with
    | O => fault
    | S fuel =>
      d <- data_rd p 0 MBUF_DATA_SIZE;;
      p <- fld_rd next p;;
      list_read fuel p (rem - MBUF_DATA_SIZE) (dst ++ d)
    end
  else if (0 <? rem) && negb (p =? NULL) then d <- data_rd p 0 rem;; ret (0, dst ++ d)
  else ret (rem, dst).
Definition mbuf_list_read (q len : Z) : B (Z * list Z) :=
  r <- list_read (Z.to_nat len) q len [];;
  ret (len - fst r, snd r).

Fixpoint list_write (fuel : nat) (p rem : Z) (src : list Z) : B Z :=
  if (MBUF_DATA_SIZE <=? rem) && negb (p =? NULL) then
    match fuel with
    | O => fault
    | S fuel =>
      d <- src_rd src MBUF_DATA_SIZE;;
      data_wr p 0 d;;;
      p <- fld_rd next p;;
      list_write fuel p (rem - MBUF_DATA_SIZE) (drop (Z.to_nat MBUF_DATA_SIZE) src)
    end
  else if (0 <? rem) && negb (p =? NULL) then d <- src_rd src rem;; data_wr p 0 d;;; ret 0
  else ret rem.
Definition mbuf_list_write (q : Z) (buf : list Z) (len : Z) : B Z :=
  r <- list_write (Z.to_nat len) q len buf;;
  ret (len - r).

(** ** Queues *)

Definition mbuf_queue_init (q : Z) : B unit :=
  fld_wr next q NULL;;;
  fld_wr qlast q q;;;
  fld_wr qlen q 0;;;
  fld_wr qoffs q 0.

(** The [while (rem)] of [mbuf_queue_add]; the result is the final [rem]. *)
Fixpoint add_loop (fuel : nat) (q : Z) (src : list Z) (rem : Z) : B Z :=
  if rem =? 0 then ret rem
  else match fuel with
       | O => fault
       | S fuel =>
         m <- mbuf_try_alloc;;
         if m =? NULL then ret rem
         else
           last <- fld_rd qlast q;;
           fld_wr next last m;;;
           fld_wr qlast q m;;;
           fld_wr next m NULL;;;
           let n := Z.min rem MBUF_DATA_SIZE in
           d <- src_rd src n;;
           data_wr m 0 d;;;
           l <- fld_rd qlen q;;
           fld_wr qlen q (u16 (l + n));;;
           add_loop fuel q (drop (Z.to_nat n) src) (rem - n)
       end.
(** The bytes that still fit into the last buffer. *)
Definition add_last (q : Z) (src : list Z) (rem : Z) : B Z :=
  o <- fld_rd qoffs q;;
  l <- fld_rd qlen q;;
  let offs := (o + l) mod MBUF_DATA_SIZE in
  if offs =? 0 then ret 0
  else
    last <- fld_rd qlast q;;
    let n := Z.min rem (MBUF_DATA_SIZE - offs) in
    d <- src_rd src n;;
    data_wr last offs d;;;
    fld_wr qlen q (u16 (l + n));;;
    ret n.
Definition mbuf_queue_add (q : Z) (buf : list Z) (len : Z) : B Z :=
  if len <? 0 then ret 0
  else if len =? 0 then ret 0
  else
    n <- add_last q buf len;;
    rem <- add_loop (Z.to_nat len) q (drop (Z.to_nat n) buf) (len - n);;
    ret (len - rem).

(** Take the head buffer off: [q->last = p] comes first where the queue
    empties. *)
Definition unlink_head (q m : Z) : B unit :=
  nx <- fld_rd next m;;
  fld_wr next q nx;;;
  mbuf_free m.

(** The end of the loop bodies of [mbuf_queue_remove] and [mbuf_queue_trim], the
    same in both: [n] bytes leave the head buffer [m]. The new head buffer, or
    [None] where the queue is empty and the loop breaks. *)
Definition advance (q m n : Z) : B (option Z) :=
  l <- fld_rd qlen q;;
  fld_wr qlen q (u16 (l - n));;;
  if u16 (l - n) =? 0 then
    fld_wr qoffs q 0;;;
    fld_wr qlast q q;;;
    unlink_head q m;;;
    ret None
  else
    o <- fld_rd qoffs q;;
    fld_wr qoffs q (u16 (o + n));;;
    if u16 (o + n) =? MBUF_DATA_SIZE then
      fld_wr qoffs q 0;;;
      unlink_head q m;;;
      m <- fld_rd next q;;
      ret (Some m)
    else ret (Some m).

(** The [while (rem)] of [mbuf_queue_remove]: [m] the head buffer, [dst] what
    was copied. *)
Fixpoint remove_loop (fuel : nat) (q m cnt rem : Z) (dst : list Z) : B (Z * list Z) :=
  if rem =? 0 then ret (cnt, dst)
  else match fuel with
       | O => fault
       | S fuel =>
         o <- fld_rd qoffs q;;
         let n := Z.min rem (MBUF_DATA_SIZE - o) in
         d <- data_rd m o n;;
         r <- advance q m n;;
         match r with
         | None => ret (cnt + n, dst ++ d)
         | Some m => remove_loop fuel q m (cnt + n) (rem - n) (dst ++ d)
         end
       end.
Definition mbuf_queue_remove (q len : Z) : B (Z * list Z) :=
  l <- fld_rd qlen q;;
  let rem := Z.min len l in
  if rem =? 0 then ret (0, [])
  else
    m <- fld_rd next q;;
    remove_loop (Z.to_nat rem) q m 0 rem [].

Fixpoint trim_loop (fuel : nat) (q m cnt rem : Z) : B Z :=
  if rem =? 0 then ret cnt
  else match fuel with
       | O => fault
       | S fuel =>
         o <- fld_rd qoffs q;;
         let n := Z.min rem (MBUF_DATA_SIZE - o) in
         r <- advance q m n;;
         match r with
         | None => ret (cnt + n)
         | Some m => trim_loop fuel q m (cnt + n) (rem - n)
         end
       end.
Definition mbuf_queue_trim (q len : Z) : B Z :=
  l <- fld_rd qlen q;;
  let rem := Z.min len l in
  if rem =? 0 then ret 0
  else
    m <- fld_rd next q;;
    trim_loop (Z.to_nat rem) q m 0 rem.

(** The two loops of [mbuf_queue_get]: to the buffer and the offset of the
    first byte, then over the buffers with the bytes asked for. *)
Fixpoint get_seek (fuel : nat) (m offs pos : Z) : B (Z * Z) :=
  if pos =? 0 then ret (m, offs)
  else match fuel with
       | O => fault
       | S fuel =>
         let n := Z.min pos (MBUF_DATA_SIZE - offs) in
         if offs + n =? MBUF_DATA_SIZE then
           nx <- fld_rd next m;;
           get_seek fuel nx 0 (pos - n)
         else get_seek fuel m (offs + n) (pos - n)
       end.
Fixpoint get_copy (fuel : nat) (m offs cnt rem : Z) (dst : list Z) : B (Z * list Z) :=
  if rem =? 0 then ret (cnt, dst)
  else match fuel with
       | O => fault
       | S fuel =>
         let n := Z.min rem (MBUF_DATA_SIZE - offs) in
         d <- data_rd m offs n;;
         nx <- fld_rd next m;;
         get_copy fuel nx 0 (cnt + n) (rem - n) (dst ++ d)
       end.
Definition mbuf_queue_get (q offs len : Z) : B (Z * list Z) :=
  l <- fld_rd qlen q;;
  if l <? offs then ret (0, [])
  else
    let rem := Z.min len (l - offs) in
    if rem =? 0 then ret (0, [])
    else
      m <- fld_rd next q;;
      o <- fld_rd qoffs q;;
      mo <- get_seek (Z.to_nat offs) m o offs;;
      get_copy (Z.to_nat rem) (fst mo) (snd mo) 0 rem [].

Definition mbuf_queue_free (q : Z) : B unit :=
  m <- fld_rd next q;;
  mutex_lock;;;
  release_all (Z.to_nat MBUF_POOL_SIZE) m;;;
  cond_signal;;;
  mutex_unlock;;;
  fld_wr next q NULL;;;
  fld_wr qlast q q;;;
  fld_wr qoffs q 0;;;
  fld_wr qlen q 0.
End ops.
End Mbuf.
