(* ===== verification/MbufInv.v ===== *)
(** * Packet buffers: the data structure

    What the links and the bytes of [Mbuf] represent: chains of buffers, the
    buffers each list owns, the byte stream of a queue; and the four moves the
    operations are made of (take a free buffer, give one back, append one to a
    queue, take the head of a queue off), each of which keeps the
    representation. *)

From S2P Require Import Prelude Mbuf.
From stdpp Require Import fin_maps gmap functions list list_relations.
Open Scope Z_scope.
Open Scope c_scope.
Import Mbuf.

(** ** Execution rules *)
Section exec.
Implicit Types (s : mbufs).

Lemma wp_fld_rd {A} (f : lens mbufs (gmap Z A)) p v Q s :
  lget f s !! p = Some v -> Q v s -> wp (fld_rd f p) Q s.
Proof. intros E HQ. unfold wp, fld_rd. by rewrite E. Qed.

Lemma wp_fld_wr {A} (f : lens mbufs (gmap Z A)) p v Q s :
  is_Some (lget f s !! p) -> Q tt (lset f (<[p := v]> (lget f s)) s) -> wp (fld_wr f p v) Q s.
Proof. intros [w E] HQ. unfold wp, fld_wr. by rewrite E. Qed.
End exec.

(** ** Chains of links *)

(** From [p], the links of [h] go through [l] to [NULL]. *)
Fixpoint chain (h : gmap Z Z) (p : Z) (l : list Z) : Prop :=
  match l with
  | [] => h !! p = Some NULL
  | x :: l => h !! p = Some x /\ chain h x l
  end.

Lemma chain_frame h p l y v : y ∉ p :: l -> chain h p l -> chain (<[y := v]> h) p l.
Proof.
  revert p. induction l as [|x l IH]; simpl; intros p Hy Hc.
  - rewrite lookup_insert_ne; set_solver.
  - destruct Hc as [E Hc]. split; [rewrite lookup_insert_ne; set_solver|]. apply IH; set_solver.
Qed.

Lemma last_snoc_d (l : list Z) x p : List.last (l ++ [x]) p = x.
Proof. apply List.last_last. Qed.

Lemma last_cons_d (l : list Z) x p : List.last (x :: l) p = List.last l x.
Proof.
  revert x p. induction l as [|y l IH]; intros x p; [done|].
  change (List.last (x :: y :: l) p) with (List.last (y :: l) p). by rewrite !IH.
Qed.

Lemma chain_last h p l : chain h p l -> h !! List.last l p = Some NULL.
Proof.
  revert p. induction l as [|x l IH]; intros p Hc; [done|]. destruct Hc as [_ Hc].
  rewrite last_cons_d. by apply IH.
Qed.

Lemma last_elem (l : list Z) p : List.last l p ∈ p :: l.
Proof.
  revert p. induction l as [|x l IH]; intros p; [set_solver|]. rewrite last_cons_d.
  specialize (IH x). set_solver.
Qed.

(** Append [x] at the end. *)
Lemma chain_snoc h p l x :
  x ∉ p :: l -> NoDup (p :: l) -> chain h p l ->
  chain (<[x := NULL]> (<[List.last l p := x]> h)) p (l ++ [x]).
Proof.
  revert p. induction l as [|y l IH]; intros p Hx Hn Hc.
  - simpl. rewrite lookup_insert_ne by set_solver. by rewrite !lookup_insert_eq.
  - destruct Hc as [E Hc]. rewrite last_cons_d. split.
    + apply NoDup_cons in Hn as [Hp _]. pose proof (last_elem l y) as He.
      rewrite !lookup_insert_ne; [done| |set_solver].
      intros E'. apply Hp. by rewrite <-E'.
    + apply IH; [set_solver|by apply NoDup_cons in Hn as [_ ?]|done].
Qed.

(** Take the first buffer off. *)
Lemma chain_tail h p x l v :
  p ∉ x :: l -> chain h p (x :: l) -> h !! x = Some v -> chain (<[p := v]> h) p l.
Proof.
  intros Hp [_ Hc] Hv. destruct l as [|y l]; simpl in *.
  - rewrite lookup_insert_eq. congruence.
  - destruct Hc as [E Hc]. rewrite lookup_insert_eq. split; [congruence|].
    apply chain_frame; [set_solver|done].
Qed.

Lemma chain_next h p x l : chain h p (x :: l) -> h !! x = Some (List.hd NULL l).
Proof. intros [_ Hc]. destruct l; [done|]. by destruct Hc. Qed.

Lemma chain_head h p l : chain h p l -> h !! p = Some (List.hd NULL l).
Proof. destruct l; [done|]. by intros [? _]. Qed.

(** ** Owners *)
Section rep.
Context `{MbufConfig}.

(** The buffers of the pool. *)
Definition is_buf (x : Z) : bool := (POOL 0 <=? x) && (x <? POOL MBUF_POOL_SIZE).
(** The list a link belongs to, given the owners of the buffers. *)
Definition cell (own : Z -> Z) (x : Z) : Z := if is_buf x then own x else x.

Record linked (h : gmap Z Z) (own : Z -> Z) (o : Z) (l : list Z) : Prop := {
  linked_chain : chain h o l;
  linked_nodup : NoDup l;
  linked_own : forall x, x ∈ l -> is_buf x = true /\ own x = o;
}.

Lemma linked_cell h own o l x : is_buf o = false -> linked h own o l -> x ∈ o :: l -> cell own x = o.
Proof.
  intros Ho [_ _ Hl] Hx. unfold cell. apply elem_of_cons in Hx as [->|Hx]; [by rewrite Ho|].
  destruct (Hl _ Hx) as [-> ->]. done.
Qed.

(** A write to a link of another list. *)
Lemma linked_frame h own o l y v :
  is_buf o = false -> cell own y <> o -> linked h own o l -> linked (<[y := v]> h) own o l.
Proof.
  intros Ho Hy Hl. split; [|apply Hl|apply Hl].
  apply chain_frame; [|apply Hl]. intros Hin. apply Hy. by eapply linked_cell.
Qed.

(** A buffer outside the list changes hands. *)
Lemma linked_give h own o l x o' :
  own x <> o -> o' <> o -> linked h own o l -> linked h (<[x := o']> own) o l.
Proof.
  intros Hx Ho' [Hc Hn Hl]. split; [done..|]. intros y Hy. destruct (Hl _ Hy) as [Hb E].
  split; [done|]. rewrite fn_lookup_insert_ne; [done|]. by intros ->.
Qed.

Lemma linked_head_out h own o l : is_buf o = false -> linked h own o l -> o ∉ l.
Proof. intros Ho [_ _ Hl] Hin. destruct (Hl _ Hin). congruence. Qed.

Lemma linked_nodup_cons h own o l : is_buf o = false -> linked h own o l -> NoDup (o :: l).
Proof. intros Ho Hl. apply NoDup_cons. split; [by eapply linked_head_out|apply Hl]. Qed.

Lemma linked_snoc h own o l x :
  is_buf o = false -> is_buf x = true -> own x <> o -> linked h own o l ->
  linked (<[x := NULL]> (<[List.last l o := x]> h)) (<[x := o]> own) o (l ++ [x]).
Proof.
  intros Ho Hx Hown Hl.
  assert (Hnin : x ∉ o :: l).
  { intros Hin. apply Hown. pose proof (linked_cell _ _ _ _ _ Ho Hl Hin) as E.
    unfold cell in E. by rewrite Hx in E. }
  split.
  - apply chain_snoc; [done|by eapply linked_nodup_cons|apply Hl].
  - apply NoDup_app. split; [apply Hl|]. split; [set_solver|apply NoDup_singleton].
  - intros y Hy. apply elem_of_app in Hy as [Hy|Hy].
    + destruct (linked_own _ _ _ _ Hl _ Hy) as [? ?]. split; [done|].
      rewrite fn_lookup_insert_ne; [done|]. intros ->. set_solver.
    + apply list_elem_of_singleton in Hy as ->. by rewrite fn_lookup_insert.
Qed.

Lemma linked_tail h own o x l o' :
  is_buf o = false -> linked h own o (x :: l) -> o' <> o ->
  linked (<[o := List.hd NULL l]> h) (<[x := o']> own) o l.
Proof.
  intros Ho Hl Ho'. pose proof Hl as [Hc Hn Hown]. apply NoDup_cons in Hn as [Hx Hn]. split.
  - eapply chain_tail; [|done|by eapply chain_next]. by eapply (linked_head_out _ _ _ _ Ho).
  - done.
  - intros y Hy. destruct (Hown y) as [? ?]; [set_solver|]. split; [done|].
    rewrite fn_lookup_insert_ne; [done|]. by intros ->.
Qed.

(** ** Bytes *)

Definition mblock (d : gmap Z (list Z)) (x : Z) : list Z := default [] (d !! x).
Definition stream (d : gmap Z (list Z)) (l : list Z) : list Z := flat_map (mblock d) l.

Lemma stream_cons d x l : stream d (x :: l) = mblock d x ++ stream d l.
Proof. done. Qed.

Lemma stream_frame d d' l : (forall x, x ∈ l -> d' !! x = d !! x) -> stream d' l = stream d l.
Proof.
  induction l as [|x l IH]; intros E; [done|]. rewrite !stream_cons. unfold mblock.
  rewrite (E x) by set_solver. f_equal. apply IH. intros y Hy. apply E. set_solver.
Qed.

Lemma stream_app d l l' : stream d (l ++ l') = stream d l ++ stream d l'.
Proof. apply List.flat_map_app. Qed.

(** ** What the memory represents *)

(** A queue: its buffers, the offset of its first byte, and its bytes. *)
Record bq := Bq { b_nodes : list Z; b_offs : Z; b_bytes : list Z }.
(** The owner of each buffer ([FREE], the address of a queue, or [NULL] for a
    buffer a caller holds), the free list and the queues. *)
Record world := World { w_own : Z -> Z; w_free : list Z; w_queues : gmap Z bq }.

Definition sized (d : gmap Z (list Z)) : Prop :=
  forall x, is_buf x = true -> exists b, d !! x = Some b /\ zlen b = MBUF_DATA_SIZE.

Record queue_ok (s : mbufs) (own : Z -> Z) (q : Z) (b : bq) : Prop := {
  q_linked : linked (mb_next s) own q (b_nodes b);
  q_last : mb_qlast s !! q = Some (List.last (b_nodes b) q);
  q_offs : mb_qoffs s !! q = Some (b_offs b);
  q_len : mb_qlen s !! q = Some (zlen (b_bytes b));
  q_range : 0 <= b_offs b < MBUF_DATA_SIZE;
  q_empty : b_bytes b = [] -> b_offs b = 0;
  q_bytes : exists pre post, stream (mb_data s) (b_nodes b) = pre ++ b_bytes b ++ post /\
              zlen pre = b_offs b /\ zlen post < MBUF_DATA_SIZE;
}.

Definition is_head (q : Z) : Prop := q <> NULL /\ q <> FREE /\ is_buf q = false.

Record Rep (s : mbufs) (w : world) : Prop := {
  rep_lock : mb_locked s = false;
  rep_max : mb_max s = MBUF_POOL_SIZE;
  rep_used : mb_used s = MBUF_POOL_SIZE - zlen (w_free w);
  rep_next : forall x, is_buf x = true -> is_Some (mb_next s !! x);
  rep_data : sized (mb_data s);
  rep_last : mb_last s = List.last (w_free w) FREE;
  rep_free : linked (mb_next s) (w_own w) FREE (w_free w);
  rep_head : forall q b, w_queues w !! q = Some b -> is_head q;
  rep_queue : forall q b, w_queues w !! q = Some b -> queue_ok s (w_own w) q b;
}.

Lemma is_buf_range x : is_buf x = true <-> 16 <= x < 16 + MBUF_POOL_SIZE.
Proof.
  unfold is_buf, POOL. rewrite Z.add_0_r, andb_true_iff, Z.leb_le, Z.ltb_lt. done.
Qed.

Lemma free_head : is_buf FREE = false.
Proof. apply not_true_is_false. rewrite is_buf_range. unfold FREE. lia. Qed.

Lemma buf_not_null x : is_buf x = true -> x <> NULL.
Proof. rewrite is_buf_range. unfold NULL. lia. Qed.

(** Distinct buffers: at most the pool. *)
Lemma nodup_bufs l :
  NoDup l -> (forall x, x ∈ l -> is_buf x = true) -> zlen l <= MBUF_POOL_SIZE.
Proof.
  intros Hn Hl. pose proof pool_size_bound as Hp.
  assert (length l <= length (seqZ 16 MBUF_POOL_SIZE))%nat as Hlen.
  { apply NoDup_incl_length; [by apply NoDup_ListNoDup|]. intros x Hx.
    apply list_elem_of_In, elem_of_seqZ. apply list_elem_of_In, Hl, is_buf_range in Hx. done. }
  rewrite length_seqZ in Hlen. unfold zlen. lia.
Qed.

Lemma linked_size h own o l : linked h own o l -> zlen l <= MBUF_POOL_SIZE.
Proof. intros [_ Hn Hl]. apply nodup_bufs; [done|]. intros x Hx. by apply Hl. Qed.

Lemma stream_size d l :
  sized d -> (forall x, x ∈ l -> is_buf x = true) -> zlen (stream d l) = zlen l * MBUF_DATA_SIZE.
Proof.
  intros Hd. induction l as [|x l IH]; intros Hl; [done|].
  rewrite stream_cons, zlen_app, zlen_cons, IH by set_solver. unfold mblock.
  destruct (Hd x) as (b & -> & Hb); [set_solver|]. simpl. lia.
Qed.

Lemma queue_size s own q b :
  sized (mb_data s) -> queue_ok s own q b ->
  exists post, 0 <= post < MBUF_DATA_SIZE /\
    zlen (b_nodes b) * MBUF_DATA_SIZE = b_offs b + zlen (b_bytes b) + post.
Proof.
  intros Hd Hq. destruct (q_bytes _ _ _ _ Hq) as (pre & post & E & Hpre & Hpost).
  exists (zlen post). split; [split; [apply zlen_nonneg|done]|].
  rewrite <-(stream_size (mb_data s)), E, !zlen_app by
    (try done; intros x Hx; by apply (q_linked _ _ _ _ Hq)).
  lia.
Qed.

(** Lengths stay far from the [uint16_t] fields' limit. *)
Lemma queue_small s own q b :
  sized (mb_data s) -> queue_ok s own q b -> b_offs b + zlen (b_bytes b) < 2 ^ 15.
Proof.
  intros Hd Hq. destruct (queue_size _ _ _ _ Hd Hq) as (post & Hp & E).
  pose proof (linked_size _ _ _ _ (q_linked _ _ _ _ Hq)). pose proof pool_bytes_bound.
  pose proof data_size_bound. nia.
Qed.

Lemma queue_frame s s' own own' q b :
  queue_ok s own q b ->
  linked (mb_next s') own' q (b_nodes b) ->
  mb_qlast s' !! q = mb_qlast s !! q -> mb_qoffs s' !! q = mb_qoffs s !! q ->
  mb_qlen s' !! q = mb_qlen s !! q ->
  (forall x, x ∈ b_nodes b -> mb_data s' !! x = mb_data s !! x) ->
  queue_ok s' own' q b.
Proof.
  intros [] ? E1 E2 E3 Hd. split; rewrite ?E1, ?E2, ?E3, ?(stream_frame (mb_data s) (mb_data s')); done.
Qed.
End rep.
