(* ===== verification/MbufMoves.v ===== *)
(** * Packet buffers: the moves

    The changes the operations of [Mbuf] make to the represented structure, one
    lemma per move: the first free buffer is taken, a held buffer is given
    back, a held buffer with data is appended to a queue, bytes are added to
    the last buffer of a queue, bytes leave its front, its head buffer is taken
    off. *)

From S2P Require Import Prelude Mbuf MbufInv.
From stdpp Require Import fin_maps gmap functions list list_relations.
Open Scope Z_scope.
Open Scope c_scope.
Import Mbuf.

Section moves.
Context `{MbufConfig}.
Implicit Types (own : Z -> Z) (w : world) (b : bq).

Lemma cell_buf own x : is_buf x = true -> cell own x = own x.
Proof. intros E. unfold cell. by rewrite E. Qed.
Lemma cell_head own q : is_buf q = false -> cell own q = q.
Proof. intros E. unfold cell. by rewrite E. Qed.

Lemma head_not_free q : is_head q -> q <> FREE /\ q <> NULL /\ is_buf q = false.
Proof. by intros (? & ? & ?). Qed.

(** A queue that is not concerned: links of other owners change, buffers that
    are not its own change hands. *)
Lemma queue_other nx d la us mx lk sg qo ql qla nx' d' la' us' mx' lk' sg' qo' ql' qla' own own' q b :
  queue_ok (mk_mbufs nx d la us mx lk sg qo ql qla) own q b ->
  linked nx' own' q (b_nodes b) ->
  qla' !! q = qla !! q -> qo' !! q = qo !! q -> ql' !! q = ql !! q ->
  (forall x, x ∈ b_nodes b -> d' !! x = d !! x) ->
  queue_ok (mk_mbufs nx' d' la' us' mx' lk' sg' qo' ql' qla') own' q b.
Proof. intros. by eapply queue_frame. Qed.

Lemma rep_take nx d la us mx lk sg qo ql qla w x l sg' :
  Rep (mk_mbufs nx d la us mx lk sg qo ql qla) w -> w_free w = x :: l ->
  Rep (mk_mbufs (<[FREE := List.hd NULL l]> nx) d (List.last l FREE) (us + 1) mx false sg' qo ql qla)
    (World (<[x := NULL]> (w_own w)) l (w_queues w)).
Proof.
  destruct w as [own fl qs]; simpl. intros [R1 R2 R3 R4 R5 R6 R7 R8 R9] ->; simpl in *.
  assert (own x = FREE /\ is_buf x = true) as [Ox Bx] by (split; apply R7; set_solver).
  split; simpl; try done.
  - rewrite R3, zlen_cons. lia.
  - intros y Hy. rewrite lookup_insert_ne; [by apply R4|]. intros <-. by rewrite free_head in Hy.
  - apply linked_tail; [apply free_head|done|done].
  - intros q b Hq. pose proof (R8 _ _ Hq) as (H0 & H1 & H2).
    eapply queue_other; [by apply R9|..]; try done.
    apply linked_frame; [done|rewrite cell_head; [by intros <-|apply free_head]|].
    apply linked_give; [congruence|done|]. apply (q_linked _ _ _ _ (R9 _ _ Hq)).
Qed.

Lemma free_size s w : Rep s w -> 0 <= zlen (w_free w) <= MBUF_POOL_SIZE.
Proof. intros R. split; [apply zlen_nonneg|]. eapply linked_size, rep_free, R. Qed.

Lemma rep_release nx d la us mx sg qo ql qla w p sg' :
  Rep (mk_mbufs nx d la us mx false sg qo ql qla) w -> is_buf p = true -> w_own w p = NULL ->
  Rep (mk_mbufs (<[p := NULL]> (<[la := p]> nx)) d p (us - 1) mx false sg' qo ql qla)
    (World (<[p := FREE]> (w_own w)) (w_free w ++ [p]) (w_queues w)).
Proof.
  destruct w as [own fl qs]; simpl. intros [R1 R2 R3 R4 R5 R6 R7 R8 R9] Bp Op; simpl in *. subst la.
  assert (Hla : cell own (List.last fl FREE) = FREE).
  { eapply linked_cell; [apply free_head|done|apply last_elem]. }
  split; simpl; try done.
  - rewrite R3, zlen_app. unfold zlen at 3. simpl. lia.
  - intros y Hy. by repeat (apply lookup_insert_is_Some'; right); apply R4.
  - by rewrite last_snoc_d.
  - apply linked_snoc; [apply free_head|done|by rewrite Op|done].
  - intros q b Hq. pose proof (R8 _ _ Hq) as (H0 & H1 & H2).
    eapply queue_other; [by apply R9|..]; try done.
    apply linked_give; [by rewrite Op|done|].
    apply linked_frame; [done|rewrite cell_buf by done; by rewrite Op|].
    apply linked_frame; [done|by rewrite Hla|]. apply (q_linked _ _ _ _ (R9 _ _ Hq)).
Qed.

(** A change confined to the queue [q] and to buffers no list has. *)
Lemma rep_queue_change nx d la us mx sg qo ql qla w nx' d' sg' qo' ql' qla' own' q b' :
  Rep (mk_mbufs nx d la us mx false sg qo ql qla) w ->
  is_head q ->
  (forall y, is_buf y = true -> is_Some (nx' !! y)) -> sized d' ->
  linked nx' own' FREE (w_free w) ->
  (forall q' b, q' <> q -> w_queues w !! q' = Some b -> linked nx' own' q' (b_nodes b)) ->
  (forall q', q' <> q -> qo' !! q' = qo !! q' /\ ql' !! q' = ql !! q' /\ qla' !! q' = qla !! q') ->
  (forall x, w_own w x <> q -> w_own w x <> NULL -> d' !! x = d !! x) ->
  queue_ok (mk_mbufs nx' d' la us mx false sg' qo' ql' qla') own' q b' ->
  Rep (mk_mbufs nx' d' la us mx false sg' qo' ql' qla')
    (World own' (w_free w) (<[q := b']> (w_queues w))).
Proof.
  intros [R1 R2 R3 R4 R5 R6 R7 R8 R9] Hq Hn Hs Hf Hl Hfs Hd Hok; simpl in *.
  split; simpl; try done.
  - intros q' b Hb. destruct (decide (q' = q)) as [->|Hne]; [done|].
    rewrite lookup_insert_ne in Hb by done. by eapply R8.
  - intros q' b Hb. destruct (decide (q' = q)) as [->|Hne].
    { rewrite lookup_insert_eq in Hb. by simplify_eq. }
    rewrite lookup_insert_ne in Hb by done. destruct (Hfs _ Hne) as (E1 & E2 & E3).
    pose proof (R8 _ _ Hb) as (H0 & H1 & H2). pose proof (q_linked _ _ _ _ (R9 _ _ Hb)) as Hlk.
    eapply queue_other; [by apply R9|by apply Hl|done..|].
    intros x Hx. destruct (linked_own _ _ _ _ Hlk _ Hx) as [_ Ex]. apply Hd; congruence.
Qed.

Lemma sized_insert (d : gmap Z (list Z)) x (v : list Z) :
  sized d -> zlen v = MBUF_DATA_SIZE -> sized (<[x := v]> d).
Proof.
  intros Hd Hb y Hy. destruct (decide (y = x)) as [->|Hne].
  - rewrite lookup_insert_eq. eauto.
  - rewrite lookup_insert_ne by done. by apply Hd.
Qed.

Lemma q_nodes_own s own q b x :
  queue_ok s own q b -> x ∈ b_nodes b -> is_buf x = true /\ own x = q.
Proof. intros Hq. apply (q_linked _ _ _ _ Hq). Qed.

(** A held buffer [m] with [chunk] in it becomes the last of the queue. *)
Lemma rep_attach nx d la us mx sg qo ql qla w q b m dm chunk :
  Rep (mk_mbufs nx d la us mx false sg qo ql qla) w ->
  w_queues w !! q = Some b -> is_buf m = true -> w_own w m = NULL -> d !! m = Some dm ->
  0 < zlen chunk <= MBUF_DATA_SIZE ->
  b_offs b + zlen (b_bytes b) = zlen (b_nodes b) * MBUF_DATA_SIZE ->
  Rep (mk_mbufs (<[m := NULL]> (<[List.last (b_nodes b) q := m]> nx)) (<[m := patch 0 chunk dm]> d)
         la us mx false sg qo (<[q := zlen (b_bytes b) + zlen chunk]> ql) (<[q := m]> qla))
    (World (<[m := q]> (w_own w)) (w_free w)
       (<[q := Bq (b_nodes b ++ [m]) (b_offs b) (b_bytes b ++ chunk)]> (w_queues w))).
Proof.
  intros R Hq Bm Om Hdm Hch Hfull.
  pose proof (rep_head _ _ R _ _ Hq) as (H0 & H1 & H2).
  pose proof (rep_queue _ _ R _ _ Hq) as Q. pose proof (q_linked _ _ _ _ Q) as Lq. simpl in Lq.
  assert (Hlast : cell (w_own w) (List.last (b_nodes b) q) = q).
  { eapply linked_cell; [done|done|apply last_elem]. }
  destruct (rep_data _ _ R m Bm) as (dm' & Em & Sm). simpl in Em. rewrite Hdm in Em. simplify_eq.
  assert (Sp : zlen (patch 0 chunk dm') = MBUF_DATA_SIZE) by (rewrite patch_size; lia).
  assert (Hout : forall o l, is_buf o = false -> o <> q -> o <> NULL -> linked nx (w_own w) o l ->
    linked (<[m := NULL]> (<[List.last (b_nodes b) q := m]> nx)) (<[m := q]> (w_own w)) o l).
  { intros o l Ho Hne Hnn Hl. apply linked_give; [congruence|done|].
    apply linked_frame; [done|rewrite cell_buf by done; congruence|].
    apply linked_frame; [done|by rewrite Hlast|done]. }
  eapply rep_queue_change; [exact R|done|..].
  - intros y Hy. by repeat (apply lookup_insert_is_Some'; right); apply (rep_next _ _ R).
  - by apply sized_insert; [apply (rep_data _ _ R)|].
  - apply Hout; [apply free_head|done|done|apply (rep_free _ _ R)].
  - intros q' b' Hne Hb. pose proof (rep_head _ _ R _ _ Hb) as (? & ? & ?).
    apply Hout; [done..|]. apply (q_linked _ _ _ _ (rep_queue _ _ R _ _ Hb)).
  - intros q' Hne. by rewrite !lookup_insert_ne by done.
  - intros x Hx Hx'. rewrite lookup_insert_ne; [done|]. by intros <-.
  - destruct Q as [Q1 Q2 Q3 Q4 Q5 Q6 (pre & post & E & Hpre & Hpost)]; simpl in *.
    split; simpl; try done.
    + apply linked_snoc; [done|done|congruence|done].
    + by rewrite lookup_insert_eq, last_snoc_d.
    + by rewrite lookup_insert_eq, zlen_app.
    + intros Hnil. apply app_nil in Hnil as [_ ->]. unfold zlen in Hch. simpl in Hch. lia.
    + assert (Esz : zlen (stream d (b_nodes b)) = zlen (b_nodes b) * MBUF_DATA_SIZE).
      { apply stream_size; [apply (rep_data _ _ R)|]. intros x Hx. by apply Lq. }
      rewrite E, !zlen_app in Esz. assert (post = []) as -> by (apply zlen_zero; lia).
      rewrite app_nil_r in E.
      exists pre, (drop (length chunk) dm'). rewrite stream_app, stream_cons.
      rewrite (stream_frame d _ (b_nodes b)); last first.
      { intros x Hx. rewrite lookup_insert_ne; [done|]. intros <-.
        destruct (linked_own _ _ _ _ Lq _ Hx). congruence. }
      rewrite E. unfold mblock. rewrite lookup_insert_eq.
      change (stream _ []) with (@nil Z). rewrite app_nil_r. cbn [default from_option id].
      unfold patch. simpl. split; [by rewrite <-!app_assoc|].
      split; [done|]. unfold zlen in *. rewrite length_drop. lia.
Qed.

(** The links stay; data of the queue's own buffers, its offset and its length
    change. *)
Lemma rep_bytes_change nx d la us mx sg qo ql qla w q b d' o' c' :
  Rep (mk_mbufs nx d la us mx false sg qo ql qla) w ->
  w_queues w !! q = Some b -> sized d' ->
  (forall x, w_own w x <> q -> d' !! x = d !! x) ->
  0 <= o' < MBUF_DATA_SIZE -> (c' = [] -> o' = 0) ->
  (exists pre post, stream d' (b_nodes b) = pre ++ c' ++ post /\ zlen pre = o' /\
     zlen post < MBUF_DATA_SIZE) ->
  forall qo' ql',
  qo' !! q = Some o' -> ql' !! q = Some (zlen c') ->
  (forall q', q' <> q -> qo' !! q' = qo !! q' /\ ql' !! q' = ql !! q') ->
  Rep (mk_mbufs nx d' la us mx false sg qo' ql' qla)
    (World (w_own w) (w_free w) (<[q := Bq (b_nodes b) o' c']> (w_queues w))).
Proof.
  intros R Hq Hd Hout Ho Hc Hs qo' ql' Eo El Hq'.
  pose proof (rep_queue _ _ R _ _ Hq) as [Q1 Q2 Q3 Q4 Q5 Q6 Q7]; simpl in *.
  eapply rep_queue_change; [exact R|by eapply rep_head|apply (rep_next _ _ R)|done|..].
  - apply (rep_free _ _ R).
  - intros q' b' _ Hb. apply (q_linked _ _ _ _ (rep_queue _ _ R _ _ Hb)).
  - intros q' Hne. destruct (Hq' _ Hne). done.
  - intros x Hx _. by apply Hout.
  - split; done.
Qed.

(** The buffer that has the end of the queue, when it is not full. *)
Lemma rep_last_block s w q b :
  Rep s w -> w_queues w !! q = Some b ->
  (b_offs b + zlen (b_bytes b)) mod MBUF_DATA_SIZE <> 0 ->
  exists init z, b_nodes b = init ++ [z] /\ is_buf z = true /\ w_own w z = q /\
    b_offs b + zlen (b_bytes b) =
      zlen init * MBUF_DATA_SIZE + (b_offs b + zlen (b_bytes b)) mod MBUF_DATA_SIZE.
Proof.
  intros R Hq Hmod. pose proof data_size_bound as Hs.
  pose proof (rep_queue _ _ R _ _ Hq) as Q.
  destruct (queue_size _ _ _ _ (rep_data _ _ R) Q) as (post & Hp & E).
  destruct (b_nodes b) as [|z init _] eqn:En using rev_ind.
  { unfold zlen at 1 in E. simpl in E. pose proof (zlen_nonneg (b_bytes b)).
    pose proof (q_range _ _ _ _ Q). replace (b_offs b + zlen (b_bytes b)) with 0 in Hmod by lia. done. }
  exists init, z. split; [done|].
  destruct (q_nodes_own _ _ _ _ z Q) as [Bz Oz]; [rewrite En; set_solver|].
  split; [done|]. split; [done|]. rewrite zlen_app in E. unfold zlen at 2 in E. simpl in E.
  rewrite (Z.div_mod (b_offs b + zlen (b_bytes b)) MBUF_DATA_SIZE) at 1 by lia. f_equal.
  rewrite Z.mul_comm. f_equal. symmetry. apply (Z.div_unique_pos _ _ _
    (b_offs b + zlen (b_bytes b) - zlen init * MBUF_DATA_SIZE)); [|lia].
  split; [lia|]. enough (post <> 0) by lia. intros ->.
  apply Hmod. replace (b_offs b + zlen (b_bytes b)) with ((zlen init + 1) * MBUF_DATA_SIZE) by lia.
  apply Z_mod_mult.
Qed.

Lemma rep_fill nx d la us mx sg qo ql qla w q b z dz chunk :
  Rep (mk_mbufs nx d la us mx false sg qo ql qla) w ->
  w_queues w !! q = Some b -> z = List.last (b_nodes b) q -> d !! z = Some dz ->
  let o := (b_offs b + zlen (b_bytes b)) mod MBUF_DATA_SIZE in
  o <> 0 -> o + zlen chunk <= MBUF_DATA_SIZE ->
  Rep (mk_mbufs nx (<[z := patch o chunk dz]> d) la us mx false sg qo
         (<[q := zlen (b_bytes b) + zlen chunk]> ql) qla)
    (World (w_own w) (w_free w)
       (<[q := Bq (b_nodes b) (b_offs b) (b_bytes b ++ chunk)]> (w_queues w))).
Proof.
  intros R Hq -> Hdz o Ho Hch. pose proof data_size_bound as Hs.
  pose proof (Z.mod_pos_bound (b_offs b + zlen (b_bytes b)) _ Hs) as Hop. fold o in Hop.
  destruct (rep_last_block _ _ _ _ R Hq Ho) as (init & z & En & Bz & Oz & Elen). fold o in Elen.
  pose proof (rep_queue _ _ R _ _ Hq) as [Q1 Q2 Q3 Q4 Q5 Q6 (pre & post & E & Hpre & Hpost)]; simpl in *.
  assert (Hz : List.last (b_nodes b) q = z) by (by rewrite En, last_snoc_d).
  rewrite Hz in *. rewrite En, stream_app, stream_cons in E.
  destruct (rep_data _ _ R z Bz) as (dz' & Ez & Sz). simpl in Ez. rewrite Hdz in Ez.
  injection Ez as <-.
  eapply rep_bytes_change with (b := b); [exact R|done|..].
  - apply sized_insert; [apply (rep_data _ _ R)|]. rewrite patch_size; lia.
  - intros x Hx. rewrite lookup_insert_ne; [done|]. intros <-. by rewrite Oz in Hx.
  - done.
  - intros Hnil. apply app_nil in Hnil as [Hb _]. by apply Q6.
  - rewrite En, stream_app, stream_cons.
    assert (Einit : stream (<[z:=patch o chunk dz]> d) init = stream d init).
    { apply stream_frame. intros x Hx. rewrite lookup_insert_ne; [done|]. intros <-.
      pose proof (linked_nodup _ _ _ _ Q1) as Hn. rewrite En in Hn.
      apply NoDup_app in Hn as (_ & Hn & _). apply (Hn _ Hx). set_solver. }
    rewrite Einit. unfold mblock in *. rewrite lookup_insert_eq. rewrite Hdz in E.
    change (stream _ []) with (@nil Z) in *. rewrite app_nil_r in *. cbn [default from_option id] in *.
    assert (Esz : zlen (stream d init) = zlen init * MBUF_DATA_SIZE).
    { apply stream_size; [apply (rep_data _ _ R)|]. intros x Hx. apply Q1. rewrite En. set_solver. }
    rewrite app_assoc in E. destruct (app_split _ _ _ _ o E) as [E1 E2]; [lia|rewrite zlen_app; lia|].
    exists pre, (drop (Z.to_nat o + length chunk) dz). split; [|split; [done|]].
    + unfold patch. rewrite app_assoc, <-E1. by rewrite <-!app_assoc.
    + unfold zlen in *. rewrite length_drop. lia.
  - done.
  - by rewrite lookup_insert_eq, zlen_app.
  - intros q' Hne. by rewrite lookup_insert_ne by done.
Qed.

Lemma mblock_size d x : sized d -> is_buf x = true -> zlen (mblock d x) = MBUF_DATA_SIZE.
Proof. intros Hd Hx. unfold mblock. by destruct (Hd x Hx) as (v & -> & ?). Qed.

(** Of [blk ++ tl], [o] bytes on: the next [n], and the rest after the block. *)
Lemma front_take (blk tl pre c post : list Z) o n :
  blk ++ tl = pre ++ c ++ post -> zlen pre = o -> 0 <= n <= zlen c -> o + n <= zlen blk ->
  take (Z.to_nat n) (drop (Z.to_nat o) blk) = take (Z.to_nat n) c.
Proof.
  intros E Hpre Hn Ho. unfold zlen in *.
  assert (E' : take (Z.to_nat n) (drop (Z.to_nat o) (blk ++ tl)) =
    take (Z.to_nat n) (drop (Z.to_nat o) (pre ++ c ++ post))) by (by rewrite E).
  rewrite drop_app_le, take_app_le in E' by (rewrite ?length_drop; lia). rewrite E'.
  rewrite <-Hpre, Nat2Z.id, drop_app_length. by rewrite take_app_le by lia.
Qed.

Lemma front_rest (blk tl pre c post : list Z) o n :
  blk ++ tl = pre ++ c ++ post -> zlen pre = o -> 0 <= n <= zlen c -> o + n = zlen blk ->
  tl = drop (Z.to_nat n) c ++ post.
Proof.
  intros E Hpre Hn Ho.
  rewrite <-(take_drop (Z.to_nat n) c), <-app_assoc, app_assoc in E.
  apply app_inj_1 in E as [_ E]; [done|].
  unfold zlen in *. rewrite length_app, length_take. lia.
Qed.

(** The bytes of the head buffer. *)
Lemma head_bytes s own q b m l n :
  queue_ok s own q b -> sized (mb_data s) -> b_nodes b = m :: l ->
  0 <= n <= zlen (b_bytes b) -> b_offs b + n <= MBUF_DATA_SIZE ->
  take (Z.to_nat n) (drop (Z.to_nat (b_offs b)) (mblock (mb_data s) m)) = take (Z.to_nat n) (b_bytes b).
Proof.
  intros [Q1 Q2 Q3 Q4 Q5 Q6 (pre & post & E & Hpre & Hpost)] Hd En Hn Ho.
  rewrite En, stream_cons in E.
  pose proof (mblock_size _ m Hd ltac:(apply Q1; rewrite En; set_solver)).
  eapply front_take; [done|done|done|lia].
Qed.

(** What is left when the bytes up to the end of the head buffer are gone. *)
Lemma tail_bytes s own q b m l n :
  queue_ok s own q b -> sized (mb_data s) -> b_nodes b = m :: l ->
  0 <= n <= zlen (b_bytes b) -> b_offs b + n = MBUF_DATA_SIZE ->
  exists post, stream (mb_data s) l = drop (Z.to_nat n) (b_bytes b) ++ post /\ zlen post < MBUF_DATA_SIZE.
Proof.
  intros [Q1 Q2 Q3 Q4 Q5 Q6 (pre & post & E & Hpre & Hpost)] Hd En Hn Ho.
  rewrite En, stream_cons in E.
  pose proof (mblock_size _ m Hd ltac:(apply Q1; rewrite En; set_solver)).
  exists post. split; [|done]. eapply front_rest; [done|done|done|lia].
Qed.

(** All the bytes are in the head buffer: it is the only one. *)
Lemma only_block s own q b m l :
  queue_ok s own q b -> sized (mb_data s) -> b_nodes b = m :: l ->
  b_offs b + zlen (b_bytes b) <= MBUF_DATA_SIZE -> l = [].
Proof.
  intros Q Hd En Hs. destruct (queue_size _ _ _ _ Hd Q) as (post & Hp & E).
  rewrite En, zlen_cons in E. pose proof (zlen_nonneg l). pose proof data_size_bound.
  apply zlen_zero. nia.
Qed.

Lemma nonempty_nodes s own q b :
  queue_ok s own q b -> b_bytes b <> [] -> exists m l, b_nodes b = m :: l.
Proof.
  intros [Q1 Q2 Q3 Q4 Q5 Q6 (pre & post & E & Hpre & Hpost)] Hne.
  destruct (b_nodes b) as [|m l]; [|eauto]. exfalso. apply Hne.
  change (stream _ []) with (@nil Z) in E. symmetry in E.
  apply app_nil in E as [_ E]. by apply app_nil in E as [-> _].
Qed.

(** Bytes leave the front, the head buffer stays. *)
Lemma rep_consume nx d la us mx sg qo ql qla w q b n :
  Rep (mk_mbufs nx d la us mx false sg qo ql qla) w ->
  w_queues w !! q = Some b ->
  0 <= n < zlen (b_bytes b) -> b_offs b + n < MBUF_DATA_SIZE ->
  Rep (mk_mbufs nx d la us mx false sg (<[q := b_offs b + n]> qo) (<[q := zlen (b_bytes b) - n]> ql) qla)
    (World (w_own w) (w_free w)
       (<[q := Bq (b_nodes b) (b_offs b + n) (drop (Z.to_nat n) (b_bytes b))]> (w_queues w))).
Proof.
  intros R Hq Hn Ho.
  pose proof (rep_queue _ _ R _ _ Hq) as [Q1 Q2 Q3 Q4 Q5 Q6 (pre & post & E & Hpre & Hpost)]; simpl in *.
  pose proof (zlen_drop n (b_bytes b) ltac:(lia)) as Hdl.
  eapply rep_bytes_change with (b := b); [exact R|done|apply (rep_data _ _ R)|done|lia|..].
  - intros E0. rewrite E0 in Hdl. unfold zlen at 1 in Hdl. simpl in Hdl. lia.
  - exists (pre ++ take (Z.to_nat n) (b_bytes b)), post.
    rewrite E, <-app_assoc, (app_assoc (take _ _)), take_drop. split; [done|].
    rewrite zlen_app, zlen_take by lia. lia.
  - by rewrite lookup_insert_eq.
  - by rewrite lookup_insert_eq, Hdl.
  - intros q' Hne. by rewrite !lookup_insert_ne by done.
Qed.

(** The head buffer [m] is taken off. *)
Lemma rep_detach nx d la us mx sg qo ql qla w q b m l c' post qo' ql' qla' :
  Rep (mk_mbufs nx d la us mx false sg qo ql qla) w ->
  w_queues w !! q = Some b -> b_nodes b = m :: l ->
  stream d l = c' ++ post -> zlen post < MBUF_DATA_SIZE ->
  qo' !! q = Some 0 -> ql' !! q = Some (zlen c') -> qla' !! q = Some (List.last l q) ->
  (forall q', q' <> q -> qo' !! q' = qo !! q' /\ ql' !! q' = ql !! q' /\ qla' !! q' = qla !! q') ->
  Rep (mk_mbufs (<[q := List.hd NULL l]> nx) d la us mx false sg qo' ql' qla')
    (World (<[m := NULL]> (w_own w)) (w_free w) (<[q := Bq l 0 c']> (w_queues w))).
Proof.
  intros R Hq En E Hpost Eo El Ela Hq'. pose proof data_size_bound as Hs.
  pose proof (rep_head _ _ R _ _ Hq) as (H0 & H1 & H2).
  pose proof (q_linked _ _ _ _ (rep_queue _ _ R _ _ Hq)) as Lq. simpl in Lq. rewrite En in Lq.
  destruct (linked_own _ _ _ _ Lq m) as [Bm Om]; [set_solver|].
  assert (Hout : forall o l', is_buf o = false -> o <> q -> o <> NULL -> linked nx (w_own w) o l' ->
    linked (<[q := List.hd NULL l]> nx) (<[m := NULL]> (w_own w)) o l').
  { intros o l' Ho Hne Hnn Hl. apply linked_give; [congruence|done|].
    apply linked_frame; [done|by rewrite cell_head by done|done]. }
  eapply rep_queue_change; [exact R|done|..].
  - intros y Hy. apply lookup_insert_is_Some'. right. by apply (rep_next _ _ R).
  - apply (rep_data _ _ R).
  - apply Hout; [apply free_head|done|done|apply (rep_free _ _ R)].
  - intros q' b' Hne Hb. pose proof (rep_head _ _ R _ _ Hb) as (? & ? & ?).
    apply Hout; [done..|]. apply (q_linked _ _ _ _ (rep_queue _ _ R _ _ Hb)).
  - done.
  - done.
  - split; simpl; try done.
    + by apply linked_tail.
    + by exists [], post.
Qed.
End moves.
