(* ===== verification/MbufOps.v ===== *)
(** * Packet buffers: the operations

    What each operation of [Mbuf] does to the represented structure: a result
    without a fault, for the counts, the bytes and the buffers. *)

From S2P Require Import Prelude Mbuf MbufInv MbufMoves.
From stdpp Require Import fin_maps gmap functions list list_relations.
Open Scope Z_scope.
Open Scope c_scope.
Import Mbuf.

(** One step of a computation; the accesses are left to the rules. *)
Ltac bx := repeat lazymatch goal with
  | |- wp (bind _ _) _ _ => apply wp_bind
  | |- wp (ret _) _ _ => apply wp_ret
  | |- wp (get _) _ _ => apply wp_get
  | |- wp (put _ _) _ _ => apply wp_put
  end.

Section ops.
Context `{MbufConfig}.
Implicit Types (own : Z -> Z) (w : world) (b : bq) (s : mbufs).

Lemma used_u8 s w : Rep s w -> 0 <= mb_used s <= MBUF_POOL_SIZE.
Proof. intros R. rewrite (rep_used _ _ R). pose proof (free_size _ _ R). lia. Qed.

(** ** The pool *)

Lemma u8_pool x : 0 <= x <= MBUF_POOL_SIZE -> u8 x = x.
Proof. intros. apply u8_small. pose proof pool_size_bound. lia. Qed.

Lemma mbuf_try_alloc_ok s w :
  Rep s w ->
  wp mbuf_try_alloc (fun m s' =>
    match w_free w with
    | [] => m = NULL /\ Rep s' w
    | x :: l => m = x /\ is_buf x = true /\ Rep s' (World (<[x := NULL]> (w_own w)) l (w_queues w))
    end) s.
Proof.
  intros R. destruct s as [nx d la us mx lk sg qo ql qla].
  pose proof (rep_lock _ _ R) as Hlk. simpl in Hlk. subst lk.
  pose proof (rep_free _ _ R) as Lf. pose proof (rep_last _ _ R) as Hla.
  pose proof (used_u8 _ _ R) as Hu. pose proof (rep_used _ _ R) as Hu'. simpl in *.
  pose proof (chain_head _ _ _ (linked_chain _ _ _ _ Lf)) as Hf.
  unfold mbuf_try_alloc, mutex_lock. bx. simpl. bx. simpl.
  eapply wp_fld_rd; [done|].
  destruct (w_free w) as [|x l] eqn:Ef; simpl in Hf |- *.
  - unfold mutex_unlock. bx. done.
  - assert (is_buf x = true) as Bx by (apply Lf; set_solver).
    rewrite (proj2 (Z.eqb_neq _ _) (buf_not_null _ Bx)).
    pose proof (chain_next _ _ _ _ (linked_chain _ _ _ _ Lf)) as Hnx.
    assert (Hl : List.hd NULL l = NULL <-> l = []).
    { destruct l as [|y l]; [done|]. split; [|done]. intros E. simpl in E. exfalso.
      apply (buf_not_null y); [apply Lf; set_solver|done]. }
    assert (R' : forall sg, Rep (mk_mbufs (<[FREE := List.hd NULL l]> nx) d (List.last l FREE) (us + 1) mx false sg qo ql qla)
      (World (<[x := NULL]> (w_own w)) l (w_queues w))) by (intros; by eapply rep_take).
    unfold take_first, mutex_unlock. bx. eapply wp_fld_rd; [done|]. bx.
    eapply wp_fld_wr; [by eexists|]. bx. apply wp_when; intros E; bx; simpl.
    + apply Z.eqb_eq, Hl in E as ->. rewrite u8_pool by (unfold zlen in Hu'; simpl in Hu'; lia). by auto.
    + apply Z.eqb_neq in E. rewrite zlen_cons in Hu'. pose proof (zlen_nonneg l).
      rewrite u8_pool by lia. split; [done|]. split; [done|].
      rewrite last_cons_d in Hla. destruct l as [|y l]; [tauto|].
      rewrite last_cons_d in Hla. specialize (R' sg). by rewrite last_cons_d, <-Hla in R'.
Qed.

Lemma mbuf_free_ok s w p :
  Rep s w -> is_buf p = true -> w_own w p = NULL ->
  wp (mbuf_free p) (fun _ s' =>
    Rep s' (World (<[p := FREE]> (w_own w)) (w_free w ++ [p]) (w_queues w))) s.
Proof.
  intros R Bp Op. destruct s as [nx d la us mx lk sg qo ql qla].
  pose proof (rep_lock _ _ R) as Hlk. simpl in Hlk. subst lk.
  pose proof (rep_release _ _ _ _ _ _ _ _ _ _ p (sg + 1) R Bp Op) as R'.
  pose proof (used_u8 _ _ R') as Hu. simpl in Hu.
  assert (Hx : is_Some (nx !! la)).
  { rewrite (rep_last _ _ R : la = _). eexists. apply chain_last, (rep_free _ _ R). }
  pose proof (rep_next _ _ R p Bp) as Hp. simpl in Hp.
  unfold mbuf_free, mutex_lock, __mbuf_release, cond_signal, mutex_unlock. bx. simpl. bx. simpl.
  apply wp_fld_wr; [done|]. bx. apply wp_fld_wr; [by apply lookup_insert_is_Some'; right|]. bx. simpl.
  by rewrite u8_pool.
Qed.

(** ** Queues *)

(** The queue [q] went from [b] to [b'], with buffers from or to the free list
    and no other change. *)
Record queue_step (w : world) (q : Z) (b : bq) (w' : world) (b' : bq) : Prop := {
  step_queues : w_queues w' = <[q := b']> (w_queues w);
  step_count : zlen (w_free w') + zlen (b_nodes b') = zlen (w_free w) + zlen (b_nodes b);
  step_held : forall x, is_buf x = true -> w_own w' x = NULL <-> w_own w x = NULL;
}.

Lemma queue_step_refl w q b : w_queues w !! q = Some b -> queue_step w q b w b.
Proof. intros E. split; [by rewrite insert_id|done|done]. Qed.

Lemma queue_step_trans w q b w1 b1 w2 b2 :
  queue_step w q b w1 b1 -> queue_step w1 q b1 w2 b2 -> queue_step w q b w2 b2.
Proof.
  intros [E1 C1 O1] [E2 C2 O2]. split.
  - by rewrite E2, E1, insert_insert_eq.
  - lia.
  - intros x Hx. by rewrite O2, O1.
Qed.

Lemma step_lookup w q b w' b' : queue_step w q b w' b' -> w_queues w' !! q = Some b'.
Proof. intros [E _ _]. by rewrite E, lookup_insert_eq. Qed.

Lemma buf_size x : is_buf x = true -> MBUF_DATA_SIZE < 2 ^ 15.
Proof.
  rewrite is_buf_range. intros. pose proof pool_bytes_bound. pose proof data_size_bound. nia.
Qed.

Lemma wp_src_rd (src : list Z) n Q s :
  0 <= n <= zlen src -> Q (take (Z.to_nat n) src) s -> wp (src_rd src n) Q s.
Proof.
  intros Hn HQ. unfold src_rd. rewrite (proj2 (Z.leb_le _ _)), (proj2 (Z.leb_le _ _)) by lia. done.
Qed.

Lemma wp_data_rd p o n dp Q s :
  mb_data s !! p = Some dp -> 0 <= o -> 0 <= n -> o + n <= MBUF_DATA_SIZE ->
  Q (take (Z.to_nat n) (drop (Z.to_nat o) dp)) s -> wp (data_rd p o n) Q s.
Proof.
  intros E Ho Hn Hs HQ. unfold data_rd. bx. eapply wp_fld_rd; [done|].
  by rewrite !(proj2 (Z.leb_le _ _)) by lia.
Qed.

Lemma wp_data_wr p o src dp Q s :
  mb_data s !! p = Some dp -> 0 <= o -> o + zlen src <= MBUF_DATA_SIZE ->
  Q tt (lset data (<[p := patch o src dp]> (mb_data s)) s) -> wp (data_wr p o src) Q s.
Proof.
  intros E Ho Hs HQ. unfold data_wr. bx. eapply wp_fld_rd; [done|].
  rewrite !(proj2 (Z.leb_le _ _)) by lia. apply wp_fld_wr; [by eexists|done].
Qed.

(** The last link and the first link of a queue. *)
Lemma queue_links s own q b :
  queue_ok s own q b ->
  mb_next s !! q = Some (List.hd NULL (b_nodes b)) /\
  is_Some (mb_next s !! List.last (b_nodes b) q).
Proof.
  intros Q. pose proof (linked_chain _ _ _ _ (q_linked _ _ _ _ Q)) as Hc. split.
  - by apply chain_head.
  - eexists. by apply chain_last.
Qed.

(** Append a new buffer to a full last one. *)
Lemma add_loop_ok q src fuel : forall s w b rem,
  Rep s w -> w_queues w !! q = Some b ->
  0 <= rem <= zlen src -> rem <= Z.of_nat fuel ->
  (rem <> 0 -> b_offs b + zlen (b_bytes b) = zlen (b_nodes b) * MBUF_DATA_SIZE) ->
  wp (add_loop fuel q src rem) (fun rem' s' => exists w' b',
    Rep s' w' /\ queue_step w q b w' b' /\ b_offs b' = b_offs b /\
    b_bytes b' = b_bytes b ++ take (Z.to_nat (rem - rem')) src /\
    rem' = Z.max 0 (rem - zlen (w_free w) * MBUF_DATA_SIZE)) s.
Proof.
  revert src. induction fuel as [|fuel IH]; intros src s w b rem R Hq Hrem Hfuel Hfull; cbn [add_loop].
  all: pose proof data_size_bound as Hs; pose proof (zlen_nonneg (w_free w)) as Hfr.
  all: destruct (Z.eqb_spec rem 0) as [->|Hnz];
    [apply wp_ret; exists w, b; split; [done|]; split; [by apply queue_step_refl|];
     split; [done|]; split; [by rewrite app_nil_r|nia]|].
  { lia. }
  apply wp_bind. eapply wp_mono; [by apply mbuf_try_alloc_ok|]. intros m s1 R1.
  destruct (w_free w) as [|x l] eqn:Ef; [destruct R1 as [-> R1]|destruct R1 as (-> & Bx & R1)].
  { rewrite Z.eqb_refl. apply wp_ret. exists w, b. split; [done|]. split; [by apply queue_step_refl|].
    split; [done|]. rewrite Z.sub_diag. split; [by rewrite app_nil_r|]. unfold zlen. simpl. lia. }
  rewrite (proj2 (Z.eqb_neq _ _) (buf_not_null _ Bx)). specialize (Hfull Hnz).
  pose proof (rep_queue _ _ R1 _ _ Hq) as Q1. pose proof (queue_links _ _ _ _ Q1) as [_ Hl1].
  pose proof (rep_data _ _ R1 x Bx) as (dx & Edx & _). pose proof (rep_next _ _ R1 x Bx) as Hnx.
  pose proof (queue_small _ _ _ _ (rep_data _ _ R1) Q1) as Hsm. pose proof (buf_size _ Bx) as Hbs.
  set (n := Z.min rem MBUF_DATA_SIZE). assert (Hn : 0 < n <= zlen src) by lia.
  pose proof (zlen_take n src ltac:(lia)) as Htk.
  destruct s1 as [nx d la us mx lk sg qo ql qla].
  pose proof (rep_lock _ _ R1) as Hlk. simpl in Hlk, Hl1, Edx, Hnx. subst lk.
  pose proof (zlen_nonneg (b_bytes b)) as Hb0. destruct (q_range _ _ _ _ Q1) as [Ho0 _].
  pose proof (rep_attach _ _ _ _ _ _ _ _ _ _ q b x dx (take (Z.to_nat n) src) R1 Hq Bx
    ltac:(simpl; apply fn_lookup_insert) Edx ltac:(lia) Hfull) as R2.
  rewrite Htk in R2. simpl in R2.
  bx. eapply wp_fld_rd; [apply (q_last _ _ _ _ Q1)|]. bx. apply wp_fld_wr; [done|].
  bx. apply wp_fld_wr; [eexists; apply (q_last _ _ _ _ Q1)|].
  bx. apply wp_fld_wr; [by apply lookup_insert_is_Some'; right|].
  bx. apply wp_src_rd; [lia|]. bx. eapply wp_data_wr; [done|lia|rewrite Htk; lia|].
  bx. eapply wp_fld_rd; [apply (q_len _ _ _ _ Q1)|]. bx.
  apply wp_fld_wr; [eexists; apply (q_len _ _ _ _ Q1)|]. simpl.
  rewrite u16_small by lia.
  eapply wp_mono; [eapply IH; [exact R2|apply lookup_insert_eq|..]|].
  - rewrite zlen_drop; lia.
  - lia.
  - simpl. rewrite !zlen_app, zlen_single, Htk. lia.
  - intros rem' s' (w' & b' & R' & Hst & Eo & Eb & Er). exists w', b'. simpl in *.
    split; [done|]. split; [|split; [done|split]].
    + eapply queue_step_trans; [|done]. split; simpl; [done| |].
      * rewrite Ef, zlen_app, !zlen_cons. change (zlen (@nil Z)) with 0. lia.
      * intros y Hy. destruct (decide (y = x)) as [->|Hne].
        { rewrite fn_lookup_insert. pose proof (rep_head _ _ R _ _ Hq) as (? & _ & _).
          destruct (linked_own _ _ _ _ (rep_free _ _ R) x) as [_ ->]; [rewrite Ef; set_solver|].
          done. }
        by rewrite !fn_lookup_insert_ne by done.
    + rewrite Eb, <-app_assoc. f_equal.
      assert (0 <= zlen l * MBUF_DATA_SIZE) by (pose proof (zlen_nonneg l); nia).
      replace (Z.to_nat (rem - rem')) with (Z.to_nat n + Z.to_nat (rem - n - rem'))%nat by lia.
      by rewrite take_take_drop.
    + assert (0 <= zlen l * MBUF_DATA_SIZE) by (pose proof (zlen_nonneg l); nia).
      rewrite zlen_cons, Z.mul_add_distr_r. lia.
Qed.

(** The bytes free in the last buffer of a queue. *)
Definition room (b : bq) : Z := zlen (b_nodes b) * MBUF_DATA_SIZE - b_offs b - zlen (b_bytes b).

Lemma room_mod s w q b :
  Rep s w -> w_queues w !! q = Some b ->
  let o := (b_offs b + zlen (b_bytes b)) mod MBUF_DATA_SIZE in
  0 <= o < MBUF_DATA_SIZE /\ room b = if o =? 0 then 0 else MBUF_DATA_SIZE - o.
Proof.
  intros R Hq o. pose proof data_size_bound as Hs.
  assert (0 <= o < MBUF_DATA_SIZE) as Ho by (by apply Z.mod_pos_bound).
  split; [done|]. unfold room. destruct (Z.eqb_spec o 0) as [E|E].
  - destruct (queue_size _ _ _ _ (rep_data _ _ R) (rep_queue _ _ R _ _ Hq)) as (post & Hp & En).
    rewrite En. enough (post = 0) as -> by ring.
    apply Z.mod_divide in E as [k Ek]; [|lia]. rewrite Ek in En.
    assert (post = (zlen (b_nodes b) - k) * MBUF_DATA_SIZE) as Ep by lia.
    clear -Hs Hp Ep. set (j := zlen (b_nodes b) - k) in *. assert (j = 0) as -> by nia. lia.
  - destruct (rep_last_block _ _ _ _ R Hq E) as (init & z & En & _ & _ & El). fold o in El.
    rewrite En, zlen_app, zlen_single. lia.
Qed.

Lemma add_last_ok q src s w b rem :
  Rep s w -> w_queues w !! q = Some b -> 0 < rem <= zlen src ->
  wp (add_last q src rem) (fun n s' => n = Z.min rem (room b) /\ exists w' b',
    Rep s' w' /\ queue_step w q b w' b' /\ w_free w' = w_free w /\ b_offs b' = b_offs b /\
    b_nodes b' = b_nodes b /\ b_bytes b' = b_bytes b ++ take (Z.to_nat n) src) s.
Proof.
  intros R Hq Hrem. destruct (room_mod _ _ _ _ R Hq) as [Ho Er].
  pose proof (rep_queue _ _ R _ _ Hq) as Q.
  pose proof (queue_small _ _ _ _ (rep_data _ _ R) Q) as Hsm.
  unfold add_last. bx. eapply wp_fld_rd; [apply (q_offs _ _ _ _ Q)|].
  bx. eapply wp_fld_rd; [apply (q_len _ _ _ _ Q)|].
  destruct (Z.eqb_spec ((b_offs b + zlen (b_bytes b)) mod MBUF_DATA_SIZE) 0) as [E|E].
  - bx. rewrite Er. split; [lia|]. exists w, b. rewrite app_nil_r.
    split; [done|]. split; [by apply queue_step_refl|done].
  - destruct (rep_last_block _ _ _ _ R Hq E) as (init & z & En & Bz & Oz & El).
    destruct (rep_data _ _ R z Bz) as (dz & Edz & _). pose proof (buf_size _ Bz) as Hbs.
    set (o := (b_offs b + zlen (b_bytes b)) mod MBUF_DATA_SIZE) in *.
    set (n := Z.min rem (MBUF_DATA_SIZE - o)).
    assert (Hz : z = List.last (b_nodes b) q) by (by rewrite En, last_snoc_d).
    pose proof (zlen_take n src ltac:(lia)) as Htk.
    pose proof (zlen_nonneg (b_bytes b)) as Hb0. destruct (q_range _ _ _ _ Q) as [Ho0 _].
    destruct s as [nx d la us mx lk sg qo ql qla].
    pose proof (rep_lock _ _ R) as Hlk. simpl in Hlk, Edz. subst lk.
    pose proof (rep_fill _ _ _ _ _ _ _ _ _ _ q b z dz (take (Z.to_nat n) src) R Hq Hz Edz
      E ltac:(rewrite Htk; lia)) as R2.
    fold o in R2. rewrite Htk in R2.
    bx. eapply wp_fld_rd; [apply (q_last _ _ _ _ Q)|]. rewrite <-Hz.
    bx. apply wp_src_rd; [lia|].
    bx. eapply wp_data_wr; [done|lia|rewrite Htk; lia|].
    bx. apply wp_fld_wr; [eexists; apply (q_len _ _ _ _ Q)|]. simpl. bx.
    rewrite u16_small by lia. split; [lia|]. do 2 eexists. split; [exact R2|].
    by split.
Qed.

Lemma mbuf_queue_add_ok q src len s w b :
  Rep s w -> w_queues w !! q = Some b -> len <= zlen src ->
  wp (mbuf_queue_add q src len) (fun n s' =>
    n = Z.max 0 (Z.min len (room b + zlen (w_free w) * MBUF_DATA_SIZE)) /\ exists w' b',
    Rep s' w' /\ queue_step w q b w' b' /\ b_offs b' = b_offs b /\
    b_bytes b' = b_bytes b ++ take (Z.to_nat n) src) s.
Proof.
  intros R Hq Hlen. destruct (room_mod _ _ _ _ R Hq) as [Ho Er]. pose proof data_size_bound as Hs.
  assert (Hr : 0 <= room b) by (rewrite Er; destruct (_ =? _); lia).
  assert (Hf : 0 <= zlen (w_free w) * MBUF_DATA_SIZE) by (pose proof (zlen_nonneg (w_free w)); nia).
  assert (Hnone : len <= 0 -> wp (ret 0) (fun n s' =>
    n = Z.max 0 (Z.min len (room b + zlen (w_free w) * MBUF_DATA_SIZE)) /\ exists w' b',
    Rep s' w' /\ queue_step w q b w' b' /\ b_offs b' = b_offs b /\
    b_bytes b' = b_bytes b ++ take (Z.to_nat n) src) s).
  { intros. bx. split; [lia|]. exists w, b. rewrite app_nil_r. split; [done|].
    split; [by apply queue_step_refl|done]. }
  unfold mbuf_queue_add. destruct (Z.ltb_spec len 0) as [Hl|Hl]; [apply Hnone; lia|].
  destruct (Z.eqb_spec len 0) as [->|Hnz]; [apply Hnone; lia|].
  bx. eapply wp_mono; [by apply add_last_ok; [..|lia]|].
  intros n s1 (En & w1 & b1 & R1 & St1 & F1 & O1 & N1 & B1).
  assert (Hn : 0 <= n <= zlen src) by lia.
  bx. eapply wp_mono; [eapply add_loop_ok; [exact R1|by eapply step_lookup|..]|].
  - rewrite zlen_drop; lia.
  - lia.
  - intros Hne. rewrite O1, N1, B1, zlen_app, zlen_take by lia. unfold room in *. lia.
  - intros rem' s2 (w2 & b2 & R2 & St2 & O2 & B2 & E2). bx. rewrite F1 in E2. split; [lia|].
    exists w2, b2. split; [done|]. split; [by eapply queue_step_trans|].
    split; [by rewrite O2|]. rewrite B2, B1, <-app_assoc. f_equal.
    replace (Z.to_nat (len - rem')) with (Z.to_nat n + Z.to_nat (len - n - rem'))%nat by lia.
    by rewrite take_take_drop.
Qed.

(** The offset a queue is left with when [n] bytes leave its front. *)
Definition front_offs (o n : Z) (c : list Z) : Z :=
  if decide (c = []) then 0 else (o + n) mod MBUF_DATA_SIZE.

(** [n] bytes were taken from the front. *)
Definition front_gone (w : world) (q : Z) (b : bq) (n : Z) (w' : world) (b' : bq) : Prop :=
  queue_step w q b w' b' /\ b_bytes b' = drop (Z.to_nat n) (b_bytes b) /\
  b_offs b' = front_offs (b_offs b) n (b_bytes b').

Lemma front_gone_0 s w q b : Rep s w -> w_queues w !! q = Some b -> front_gone w q b 0 w b.
Proof.
  intros R Hq. split; [by apply queue_step_refl|]. split; [done|].
  pose proof (rep_queue _ _ R _ _ Hq) as Q. unfold front_offs. case_decide.
  - by apply (q_empty _ _ _ _ Q).
  - rewrite Z.add_0_r, Z.mod_small; [done|apply (q_range _ _ _ _ Q)].
Qed.

Lemma front_gone_trans w q b n w1 b1 m w2 b2 :
  0 <= n -> 0 <= m -> b_bytes b1 <> [] ->
  front_gone w q b n w1 b1 -> front_gone w1 q b1 m w2 b2 -> front_gone w q b (n + m) w2 b2.
Proof.
  intros Hn Hm Hne (St1 & B1 & O1) (St2 & B2 & O2). split; [by eapply queue_step_trans|]. split.
  - rewrite B2, B1, drop_drop. f_equal. lia.
  - rewrite O2, O1. unfold front_offs. destruct (decide (b_bytes b2 = [])); [done|].
    rewrite decide_False by done. by rewrite Zplus_mod_idemp_l, Z.add_assoc.
Qed.

(** The head buffer [m] goes back to the pool, the fields of the queue being
    already those of the queue without it. *)
Lemma unlink_head_ok nx d la us mx sg qo ql qla w q b m l c' post qo' ql' qla' :
  Rep (mk_mbufs nx d la us mx false sg qo ql qla) w ->
  w_queues w !! q = Some b -> b_nodes b = m :: l ->
  stream d l = c' ++ post -> zlen post < MBUF_DATA_SIZE ->
  qo' !! q = Some 0 -> ql' !! q = Some (zlen c') -> qla' !! q = Some (List.last l q) ->
  (forall q', q' <> q -> qo' !! q' = qo !! q' /\ ql' !! q' = ql !! q' /\ qla' !! q' = qla !! q') ->
  wp (unlink_head q m) (fun _ s' => exists w', Rep s' w' /\ queue_step w q b w' (Bq l 0 c'))
    (mk_mbufs nx d la us mx false sg qo' ql' qla').
Proof.
  intros R Hq En Es Hp Eo El Ela Hq'.
  pose proof (rep_queue _ _ R _ _ Hq) as Q.
  destruct (q_nodes_own _ _ _ _ m Q) as [Bm Om]; [rewrite En; set_solver|].
  pose proof (linked_chain _ _ _ _ (q_linked _ _ _ _ Q)) as Hc. rewrite En in Hc. simpl in Hc.
  pose proof (rep_detach _ _ _ _ _ _ _ _ _ _ _ _ _ _ _ _ _ _ _ R Hq En Es Hp Eo El Ela Hq') as R1.
  unfold unlink_head. bx. eapply wp_fld_rd; [by eapply chain_next|].
  bx. apply wp_fld_wr; [eexists; apply Hc|]. simpl.
  eapply wp_mono; [apply mbuf_free_ok; [exact R1|done|simpl; apply fn_lookup_insert]|].
  intros [] s' R2. refine (ex_intro _ _ (conj R2 _)). pose proof (rep_head _ _ R _ _ Hq) as (Hqn & _ & _). split; simpl.
  - done.
  - rewrite En, zlen_app, !zlen_cons. change (zlen (@nil Z)) with 0. lia.
  - intros x Hx. destruct (decide (x = m)) as [->|Hne].
    + rewrite fn_lookup_insert. rewrite Om. done.
    + by rewrite !fn_lookup_insert_ne by done.
Qed.

Lemma advance_ok q s w b m l n :
  Rep s w -> w_queues w !! q = Some b -> b_nodes b = m :: l ->
  0 < n <= zlen (b_bytes b) -> b_offs b + n <= MBUF_DATA_SIZE ->
  wp (advance q m n) (fun r s' => exists w' b', Rep s' w' /\ front_gone w q b n w' b' /\
    match r with
    | None => b_bytes b' = []
    | Some m' => b_bytes b' <> [] /\ m' = List.hd NULL (b_nodes b')
    end) s.
Proof.
  intros R Hq En Hn Ho. pose proof (rep_queue _ _ R _ _ Hq) as Q.
  pose proof (queue_small _ _ _ _ (rep_data _ _ R) Q) as Hsm. pose proof data_size_bound as Hs.
  destruct (q_range _ _ _ _ Q) as [Ho0 _].
  destruct s as [nx d la us mx lk sg qo ql qla].
  pose proof (rep_lock _ _ R) as Hlk. simpl in Hlk. subst lk.
  pose proof (q_len _ _ _ _ Q) as El. pose proof (q_offs _ _ _ _ Q) as Eo.
  pose proof (q_last _ _ _ _ Q) as Ela. simpl in El, Eo, Ela.
  pose proof (zlen_drop n (b_bytes b) ltac:(lia)) as Hd.
  unfold advance. bx. eapply wp_fld_rd; [done|]. bx. apply wp_fld_wr; [by eexists|].
  rewrite u16_small by lia.
  destruct (Z.eqb_spec (zlen (b_bytes b) - n) 0) as [Ez|Ez].
  - assert (l = []) as -> by (eapply only_block; [exact Q|apply (rep_data _ _ R)|done|lia]).
    bx. apply wp_fld_wr; [by eexists|]. bx. apply wp_fld_wr; [by eexists|]. simpl.
    eapply wp_bind, wp_mono.
    + eapply unlink_head_ok with (c' := []) (post := []); [exact R|done|done|done|done|..].
      * apply lookup_insert_eq.
      * rewrite lookup_insert_eq. by rewrite Ez.
      * apply lookup_insert_eq.
      * intros q' Hne. by rewrite !lookup_insert_ne by done.
    + intros [] s' (w' & R' & St). bx. exists w', (Bq [] 0 []).
      split; [done|]. split; [|done]. split; [done|].
      split; [symmetry; apply zlen_zero; lia|done].
  - assert (Hne : drop (Z.to_nat n) (b_bytes b) <> []).
    { intros E. rewrite E in Hd. change (zlen (@nil Z)) with 0 in Hd. lia. }
    bx. eapply wp_fld_rd; [done|]. bx. apply wp_fld_wr; [by eexists|].
    pose proof (buf_size m ltac:(apply (q_linked _ _ _ _ Q); rewrite En; set_solver)) as Hbs.
    rewrite u16_small by lia. simpl.
    destruct (Z.eqb_spec (b_offs b + n) MBUF_DATA_SIZE) as [Ef|Ef].
    + destruct (tail_bytes _ _ _ _ m l n Q (rep_data _ _ R) En ltac:(lia) Ef) as (post & Es & Hp).
      bx. apply wp_fld_wr; [by apply lookup_insert_is_Some'; left|]. simpl.
      eapply wp_bind, wp_mono.
      * eapply unlink_head_ok with (l := l); [exact R|done|done|exact Es|done|..].
        -- apply lookup_insert_eq.
        -- rewrite lookup_insert_eq. by rewrite Hd.
        -- rewrite Ela, En, last_cons_d. destruct l as [|y l]; [|by rewrite !last_cons_d].
           change (stream _ []) with (@nil Z) in Es. symmetry in Es. by apply app_nil in Es as [? _].
        -- intros q' Hne'. by rewrite !lookup_insert_ne by done.
      * intros [] s' (w' & R' & St). pose proof (step_lookup _ _ _ _ _ St) as Hq'.
        destruct (queue_links _ _ _ _ (rep_queue _ _ R' _ _ Hq')) as [Hn1 _].
        bx. eapply wp_fld_rd; [done|]. bx. exists w', (Bq l 0 (drop (Z.to_nat n) (b_bytes b))).
        split; [done|]. split; [|by split]. split; [done|]. split; [done|].
        simpl. unfold front_offs. rewrite decide_False by done. by rewrite Ef, Z_mod_same_full.
    + pose proof (rep_consume _ _ _ _ _ _ _ _ _ _ q b n R Hq ltac:(lia) ltac:(lia)) as R'.
      bx. exists (World (w_own w) (w_free w)
        (<[q := Bq (b_nodes b) (b_offs b + n) (drop (Z.to_nat n) (b_bytes b))]> (w_queues w))),
        (Bq (b_nodes b) (b_offs b + n) (drop (Z.to_nat n) (b_bytes b))).
      split; [exact R'|]. split; [|split; [done|by rewrite En]].
      split; [|split; [done|]].
      * by split.
      * simpl. unfold front_offs. rewrite decide_False by done. by rewrite Z.mod_small by lia.
Qed.
End ops.
