(* ===== verification/MbufQueue.v ===== *)
(** * Packet buffers: removing and reading

    The loops of [mbuf_queue_remove], [mbuf_queue_trim] and [mbuf_queue_get],
    the release of whole chains, and the initial states. *)

From S2P Require Import Prelude Mbuf MbufInv MbufMoves MbufOps.
From stdpp Require Import fin_maps gmap functions list list_relations.
Open Scope Z_scope.
Open Scope c_scope.
Import Mbuf.

Section queue.
Context `{MbufConfig}.
Implicit Types (own : Z -> Z) (w : world) (b : bq) (s : mbufs).

(** What a loop over the front of a queue has to know of the round it starts:
    [n] bytes of the head buffer [m]. *)
Lemma round_facts s w q b rem m :
  Rep s w -> w_queues w !! q = Some b -> 0 < rem <= zlen (b_bytes b) ->
  m = List.hd NULL (b_nodes b) ->
  exists l dm, b_nodes b = m :: l /\ mb_data s !! m = Some dm /\
    let n := Z.min rem (MBUF_DATA_SIZE - b_offs b) in
    0 < n <= rem /\ b_offs b + n <= MBUF_DATA_SIZE /\
    take (Z.to_nat n) (drop (Z.to_nat (b_offs b)) dm) = take (Z.to_nat n) (b_bytes b).
Proof.
  intros R Hq Hrem ->. pose proof (rep_queue _ _ R _ _ Hq) as Q. destruct (q_range _ _ _ _ Q).
  destruct (nonempty_nodes _ _ _ _ Q) as (m & l & En).
  { intros E. rewrite E in Hrem. change (zlen (@nil Z)) with 0 in Hrem. lia. }
  destruct (rep_data _ _ R m) as (dm & Ed & _); [apply (q_linked _ _ _ _ Q); rewrite En; set_solver|].
  rewrite En. exists l, dm. split; [done|]. split; [done|]. intros n.
  split; [lia|]. split; [lia|].
  rewrite <-(head_bytes _ _ _ _ m l n Q (rep_data _ _ R) En) by lia. unfold mblock. by rewrite Ed.
Qed.

Lemma remove_loop_ok q fuel : forall s w b m cnt rem dst,
  Rep s w -> w_queues w !! q = Some b -> 0 <= rem <= zlen (b_bytes b) ->
  m = List.hd NULL (b_nodes b) -> rem <= Z.of_nat fuel ->
  wp (remove_loop fuel q m cnt rem dst) (fun r s' =>
    r = (cnt + rem, dst ++ take (Z.to_nat rem) (b_bytes b)) /\
    exists w' b', Rep s' w' /\ front_gone w q b rem w' b') s.
Proof.
  induction fuel as [|fuel IH]; intros s w b m cnt rem dst R Hq Hrem Hm Hf; cbn [remove_loop].
  all: destruct (Z.eqb_spec rem 0) as [->|Hnz];
    [apply wp_ret; rewrite Z.add_0_r, app_nil_r; split; [done|]; exists w, b;
     split; [done|]; by eapply front_gone_0|].
  { lia. }
  destruct (round_facts _ _ _ _ rem _ R Hq ltac:(lia) Hm) as (l & dm & En & Ed & Hn & Ho & Et).
  pose proof (rep_queue _ _ R _ _ Hq) as Q. destruct (q_range _ _ _ _ Q).
  set (n := Z.min rem (MBUF_DATA_SIZE - b_offs b)) in *.
  bx. eapply wp_fld_rd; [apply (q_offs _ _ _ _ Q)|]. fold n.
  bx. eapply wp_data_rd; [done|lia..|]. rewrite Et.
  bx. eapply wp_mono; [eapply advance_ok; [done..|lia|lia]|].
  intros [m'|] s1 (w1 & b1 & R1 & G1 & Hr).
  - destruct Hr as [Hne Hm']. pose proof G1 as (St1 & B1 & O1).
    eapply wp_mono; [eapply IH; [exact R1|by eapply step_lookup|..]|].
    + rewrite B1, zlen_drop; lia.
    + done.
    + lia.
    + intros r s2 (-> & w2 & b2 & R2 & G2). split.
      * f_equal; [lia|]. rewrite B1, <-app_assoc. f_equal.
        replace (Z.to_nat rem) with (Z.to_nat n + Z.to_nat (rem - n))%nat by lia.
        by rewrite take_take_drop.
      * exists w2, b2. split; [done|]. replace rem with (n + (rem - n)) by lia.
        eapply front_gone_trans; [lia|lia|exact Hne|done|done].
  - pose proof G1 as (St1 & B1 & O1). bx. clearbody n.
    assert (rem = n) as ->.
    { pose proof (zlen_drop n (b_bytes b) ltac:(lia)) as Hz. rewrite <-B1, Hr in Hz.
      change (zlen (@nil Z)) with 0 in Hz. lia. }
    split; [done|]. by exists w1, b1.
Qed.

Lemma mbuf_queue_remove_ok q len s w b :
  Rep s w -> w_queues w !! q = Some b -> 0 <= len ->
  let n := Z.min len (zlen (b_bytes b)) in
  wp (mbuf_queue_remove q len) (fun r s' =>
    r = (n, take (Z.to_nat n) (b_bytes b)) /\
    exists w' b', Rep s' w' /\ front_gone w q b n w' b') s.
Proof.
  intros R Hq Hlen n. pose proof (rep_queue _ _ R _ _ Hq) as Q. pose proof (zlen_nonneg (b_bytes b)).
  unfold mbuf_queue_remove. bx. eapply wp_fld_rd; [apply (q_len _ _ _ _ Q)|]. fold n.
  destruct (Z.eqb_spec n 0) as [->|Hnz].
  - bx. split; [done|]. exists w, b. split; [done|]. by eapply front_gone_0.
  - bx. eapply wp_fld_rd; [apply (queue_links _ _ _ _ Q)|].
    apply (remove_loop_ok q (Z.to_nat n) s w b _ 0 n []); [done|done|lia|done|lia].
Qed.

Lemma trim_loop_ok q fuel : forall s w b m cnt rem,
  Rep s w -> w_queues w !! q = Some b -> 0 <= rem <= zlen (b_bytes b) ->
  m = List.hd NULL (b_nodes b) -> rem <= Z.of_nat fuel ->
  wp (trim_loop fuel q m cnt rem) (fun r s' =>
    r = cnt + rem /\ exists w' b', Rep s' w' /\ front_gone w q b rem w' b') s.
Proof.
  induction fuel as [|fuel IH]; intros s w b m cnt rem R Hq Hrem Hm Hf; cbn [trim_loop].
  all: destruct (Z.eqb_spec rem 0) as [->|Hnz];
    [apply wp_ret; split; [lia|]; exists w, b; split; [done|]; by eapply front_gone_0|].
  { lia. }
  destruct (round_facts _ _ _ _ rem _ R Hq ltac:(lia) Hm) as (l & dm & En & Ed & Hn & Ho & Et).
  pose proof (rep_queue _ _ R _ _ Hq) as Q.
  set (n := Z.min rem (MBUF_DATA_SIZE - b_offs b)) in *.
  bx. eapply wp_fld_rd; [apply (q_offs _ _ _ _ Q)|]. fold n.
  bx. eapply wp_mono; [eapply advance_ok; [done..|lia|lia]|].
  intros [m'|] s1 (w1 & b1 & R1 & G1 & Hr).
  - destruct Hr as [Hne Hm']. pose proof G1 as (St1 & B1 & O1).
    eapply wp_mono; [eapply IH; [exact R1|by eapply step_lookup|..]|].
    + rewrite B1, zlen_drop; lia.
    + done.
    + lia.
    + intros r s2 (-> & w2 & b2 & R2 & G2). split; [lia|].
      exists w2, b2. split; [done|]. replace rem with (n + (rem - n)) by lia.
      eapply front_gone_trans; [lia|lia|exact Hne|done|done].
  - pose proof G1 as (St1 & B1 & O1). bx. clearbody n.
    assert (rem = n) as ->.
    { pose proof (zlen_drop n (b_bytes b) ltac:(lia)) as Hz. rewrite <-B1, Hr in Hz.
      change (zlen (@nil Z)) with 0 in Hz. lia. }
    split; [done|]. by exists w1, b1.
Qed.

Lemma mbuf_queue_trim_ok q len s w b :
  Rep s w -> w_queues w !! q = Some b -> 0 <= len ->
  let n := Z.min len (zlen (b_bytes b)) in
  wp (mbuf_queue_trim q len) (fun r s' =>
    r = n /\ exists w' b', Rep s' w' /\ front_gone w q b n w' b') s.
Proof.
  intros R Hq Hlen n. pose proof (rep_queue _ _ R _ _ Hq) as Q. pose proof (zlen_nonneg (b_bytes b)).
  unfold mbuf_queue_trim. bx. eapply wp_fld_rd; [apply (q_len _ _ _ _ Q)|]. fold n.
  destruct (Z.eqb_spec n 0) as [->|Hnz].
  - bx. split; [done|]. exists w, b. split; [done|]. by eapply front_gone_0.
  - bx. eapply wp_fld_rd; [apply (queue_links _ _ _ _ Q)|].
    apply (trim_loop_ok q (Z.to_nat n) s w b _ 0 n); [done|done|lia|done|lia].
Qed.

(** ** Reading without a change *)

(** A position of [mbuf_queue_get]: the buffers [l] are left, [rest] starts [o]
    bytes into the first of them. *)
Record cursor s (l : list Z) (o : Z) (rest : list Z) : Prop := {
  cur_links : match l with [] => True | m :: l => chain (mb_next s) m l end;
  cur_bufs : forall x, x ∈ l -> is_buf x = true;
  cur_offs : 0 <= o < MBUF_DATA_SIZE;
  cur_bytes : exists pre post, stream (mb_data s) l = pre ++ rest ++ post /\ zlen pre = o;
}.

Lemma cursor_move s l o rest n :
  sized (mb_data s) -> cursor s l o rest -> 0 < n <= zlen rest -> o + n <= MBUF_DATA_SIZE ->
  exists m l' dm, l = m :: l' /\ mb_data s !! m = Some dm /\
    mb_next s !! m = Some (List.hd NULL l') /\
    take (Z.to_nat n) (drop (Z.to_nat o) dm) = take (Z.to_nat n) rest /\
    (o + n < MBUF_DATA_SIZE -> cursor s l (o + n) (drop (Z.to_nat n) rest)) /\
    (o + n = MBUF_DATA_SIZE -> cursor s l' 0 (drop (Z.to_nat n) rest)).
Proof.
  intros Hd [Cl Cb Co (pre & post & E & Hpre)] Hn Ho. destruct l as [|m l].
  { change (stream _ []) with (@nil Z) in E. symmetry in E. apply app_nil in E as [_ E].
    apply app_nil in E as [-> _]. change (zlen (@nil Z)) with 0 in Hn. lia. }
  destruct (Hd m) as (dm & Em & Sm); [apply Cb; set_solver|].
  pose proof E as E'. rewrite stream_cons in E'. unfold mblock in E'. rewrite Em in E'. simpl in E'.
  exists m, l, dm. split; [done|]. split; [done|]. split; [by apply chain_head|].
  split; [eapply front_take; [done|done|lia|lia]|]. split; intros Hlt.
  - split; [done|done|lia|]. exists (pre ++ take (Z.to_nat n) rest), post.
    rewrite E, <-app_assoc, (app_assoc (take _ _)), take_drop. split; [done|].
    rewrite zlen_app, zlen_take; lia.
  - split; [|intros x Hx; apply Cb; set_solver|lia|].
    + by destruct l; [|destruct Cl].
    + exists [], post. split; [|done]. eapply front_rest; [done|done|lia|lia].
Qed.

Lemma get_seek_ok s fuel : forall l o rest pos,
  sized (mb_data s) -> cursor s l o rest -> 0 <= pos <= zlen rest -> pos <= Z.of_nat fuel ->
  wp (get_seek fuel (List.hd NULL l) o pos) (fun mo s' =>
    s' = s /\ exists l', fst mo = List.hd NULL l' /\ cursor s l' (snd mo) (drop (Z.to_nat pos) rest)) s.
Proof.
  induction fuel as [|fuel IH]; intros l o rest pos Hd C Hpos Hf; cbn [get_seek].
  all: destruct (Z.eqb_spec pos 0) as [->|Hnz]; [apply wp_ret; split; [done|]; by exists l|].
  { lia. }
  pose proof (cur_offs _ _ _ _ C) as Ho. set (n := Z.min pos (MBUF_DATA_SIZE - o)).
  destruct (cursor_move _ _ _ _ n Hd C ltac:(lia) ltac:(lia)) as (m & l' & dm & -> & Em & Ex & _ & C1 & C2).
  assert (Ed : drop (Z.to_nat pos) rest = drop (Z.to_nat (pos - n)) (drop (Z.to_nat n) rest)).
  { rewrite drop_drop. f_equal. lia. }
  rewrite Ed. destruct (Z.eqb_spec (o + n) MBUF_DATA_SIZE) as [E|E].
  - bx. eapply wp_fld_rd; [done|]. apply IH; [done|by apply C2| |lia]. rewrite zlen_drop; lia.
  - apply (IH (m :: l')); [done|apply C1; lia| |lia]. rewrite zlen_drop; lia.
Qed.

Lemma get_copy_ok s fuel : forall l o rest cnt rem dst,
  sized (mb_data s) -> cursor s l o rest -> 0 <= rem <= zlen rest -> rem <= Z.of_nat fuel ->
  wp (get_copy fuel (List.hd NULL l) o cnt rem dst) (fun r s' =>
    s' = s /\ r = (cnt + rem, dst ++ take (Z.to_nat rem) rest)) s.
Proof.
  induction fuel as [|fuel IH]; intros l o rest cnt rem dst Hd C Hrem Hf; cbn [get_copy].
  all: destruct (Z.eqb_spec rem 0) as [->|Hnz];
    [apply wp_ret; split; [done|]; by rewrite Z.add_0_r, app_nil_r|].
  { lia. }
  pose proof (cur_offs _ _ _ _ C) as Ho. set (n := Z.min rem (MBUF_DATA_SIZE - o)).
  destruct (cursor_move _ _ _ _ n Hd C ltac:(lia) ltac:(lia)) as (m & l' & dm & -> & Em & Ex & Et & _ & C2).
  bx. eapply wp_data_rd; [done|lia..|]. bx. eapply wp_fld_rd; [done|]. rewrite Et.
  assert (Ed : take (Z.to_nat rem) rest =
    take (Z.to_nat n) rest ++ take (Z.to_nat (rem - n)) (drop (Z.to_nat n) rest)).
  { rewrite take_take_drop. f_equal. lia. }
  destruct (Z.eq_dec rem n) as [Er|Er].
  - assert (rem - n = 0) as Ez by lia. rewrite Ed, Ez. destruct fuel; simpl.
    all: apply wp_ret; split; [done|]; rewrite app_nil_r; f_equal; lia.
  - eapply wp_mono; [apply IH; [done|apply C2; lia| |lia]|].
    + rewrite zlen_drop; lia.
    + intros r s' [-> ->]. split; [done|]. rewrite Ed, app_assoc. f_equal. lia.
Qed.

Lemma mbuf_queue_get_ok q offs len s w b :
  Rep s w -> w_queues w !! q = Some b -> 0 <= offs -> 0 <= len ->
  let n := Z.max 0 (Z.min len (zlen (b_bytes b) - offs)) in
  wp (mbuf_queue_get q offs len) (fun r s' =>
    s' = s /\ r = (n, take (Z.to_nat n) (drop (Z.to_nat offs) (b_bytes b)))) s.
Proof.
  intros R Hq Hoffs Hlen n. pose proof (rep_queue _ _ R _ _ Hq) as Q.
  unfold mbuf_queue_get. bx. eapply wp_fld_rd; [apply (q_len _ _ _ _ Q)|].
  destruct (Z.ltb_spec (zlen (b_bytes b)) offs) as [Hl|Hl].
  { bx. split; [done|]. assert (n = 0) as -> by lia. done. }
  destruct (Z.eqb_spec (Z.min len (zlen (b_bytes b) - offs)) 0) as [Hz|Hz].
  { bx. split; [done|]. assert (n = 0) as -> by lia. done. }
  bx. eapply wp_fld_rd; [apply (queue_links _ _ _ _ Q)|].
  bx. eapply wp_fld_rd; [apply (q_offs _ _ _ _ Q)|]. bx.
  assert (C : cursor s (b_nodes b) (b_offs b) (b_bytes b)).
  { split; [|apply (q_linked _ _ _ _ Q)|apply (q_range _ _ _ _ Q)|].
    - pose proof (linked_chain _ _ _ _ (q_linked _ _ _ _ Q)) as Hc.
      by destruct (b_nodes b); [|destruct Hc].
    - destruct (q_bytes _ _ _ _ Q) as (pre & post & E & Hpre & _). by exists pre, post. }
  eapply wp_mono; [apply get_seek_ok; [apply (rep_data _ _ R)|exact C|lia|lia]|].
  intros [m o] s' (-> & l' & -> & C'). cbn [fst snd] in *.
  replace (Z.min len (zlen (b_bytes b) - offs)) with n by lia.
  apply (get_copy_ok s (Z.to_nat n) l' o _ 0 n []); [apply (rep_data _ _ R)|done| |lia].
  rewrite zlen_drop; lia.
Qed.
End queue.
