(* ===== verification/MbufInit.v ===== *)
(** * Packet buffers: the pool and the queues at their start and end

    [mbuf_init] makes the free list, [mbuf_queue_init] an empty queue;
    [mbuf_queue_free] gives all the buffers of a queue back. *)

From S2P Require Import Prelude Mbuf MbufInv MbufMoves MbufOps MbufQueue.
From stdpp Require Import fin_maps gmap functions list list_relations.
Open Scope Z_scope.
Open Scope c_scope.
Import Mbuf.

Section init.
Context `{MbufConfig}.
Implicit Types (own : Z -> Z) (w : world) (b : bq) (s : mbufs).

(** ** Giving chains back *)

Lemma rep_abandon s w q b :
  Rep s w -> w_queues w !! q = Some b ->
  Rep s (World (fun x => if decide (x ∈ b_nodes b) then NULL else w_own w x)
           (w_free w) (delete q (w_queues w))).
Proof.
  intros R Hq. pose proof R as [R1 R2 R3 R4 R5 R6 R7 R8 R9].
  pose proof (linked_own _ _ _ _ (q_linked _ _ _ _ (R9 _ _ Hq))) as Hown.
  pose proof (R8 _ _ Hq) as (_ & Hqf & _).
  assert (Hout : forall o l, o <> q -> linked (mb_next s) (w_own w) o l ->
    linked (mb_next s) (fun x => if decide (x ∈ b_nodes b) then NULL else w_own w x) o l).
  { intros o l Hne [Hc Hn Hl]. split; [done|done|]. intros x Hx.
    destruct (Hl _ Hx) as [Bx Ox]. split; [done|]. rewrite decide_False; [done|].
    intros Hin. destruct (Hown _ Hin). congruence. }
  split; simpl; try done.
  - by apply Hout.
  - intros q' b' Hb. rewrite lookup_delete_Some in Hb. destruct Hb as [_ Hb]. by eapply R8.
  - intros q' b' Hb. rewrite lookup_delete_Some in Hb. destruct Hb as [Hne Hb].
    eapply queue_frame; [by apply R9|by apply Hout; [|apply R9]|done..].
Qed.

(** The loop that releases the held buffers [l]. *)
Lemma release_all_ok fuel : forall l nx d la us mx sg qo ql qla w,
  Rep (mk_mbufs nx d la us mx false sg qo ql qla) w ->
  match l with [] => True | m :: l => chain nx m l end -> NoDup l ->
  (forall x, x ∈ l -> is_buf x = true /\ w_own w x = NULL) -> (length l <= fuel)%nat ->
  wp (release_all fuel (List.hd NULL l)) (fun _ s' => exists nx' la' us' w',
    s' = mk_mbufs nx' d la' us' mx true sg qo ql qla /\
    Rep (mk_mbufs nx' d la' us' mx false sg qo ql qla) w' /\
    w_queues w' = w_queues w /\ zlen (w_free w') = zlen (w_free w) + zlen l /\
    (forall y, is_Some (nx !! y) -> is_Some (nx' !! y)) /\
    (forall x, w_own w' x = if decide (x ∈ l) then FREE else w_own w x))
    (mk_mbufs nx d la us mx true sg qo ql qla).
Proof.
  induction fuel as [|fuel IH]; intros l nx d la us mx sg qo ql qla w R Hc Hn Hl Hf; cbn [release_all].
  all: destruct l as [|m l]; simpl in Hf;
    [rewrite Z.eqb_refl; bx; exists nx, la, us, w; change (zlen (@nil Z)) with 0; rewrite Z.add_0_r;
     repeat (split; [done|]); intros x; by rewrite decide_False by set_solver|].
  { lia. }
  apply NoDup_cons in Hn as [Hm Hn]. destruct (Hl m) as [Bm Om]; [set_solver|]. simpl List.hd.
  rewrite (proj2 (Z.eqb_neq _ _) (buf_not_null _ Bm)).
  pose proof (rep_release _ _ _ _ _ _ _ _ _ _ m sg R Bm Om) as R1.
  pose proof (used_u8 _ _ R1) as Hu. simpl in Hu.
  pose proof (linked_cell _ _ _ _ la free_head (rep_free _ _ R)) as Hla.
  rewrite (rep_last _ _ R : la = _) in Hla. specialize (Hla (last_elem _ _)).
  rewrite <-(rep_last _ _ R : la = _) in Hla.
  assert (is_Some (nx !! la)) as Sla.
  { rewrite (rep_last _ _ R : la = _). eexists. apply chain_last, (rep_free _ _ R). }
  pose proof (rep_next _ _ R m Bm) as Sm. simpl in Sm.
  unfold __mbuf_release. bx. eapply wp_fld_rd; [by apply chain_head|].
  bx. apply wp_fld_wr; [done|]. bx. apply wp_fld_wr; [by apply lookup_insert_is_Some'; right|]. bx. simpl.
  rewrite u8_pool by done.
  assert (Hmla : forall x, x ∈ l -> x <> m /\ x <> la).
  { intros x Hx. split; [by intros ->|]. intros ->. destruct (Hl la) as [Bla Ola]; [set_solver|].
    rewrite cell_buf, Ola in Hla by done. discriminate Hla. }
  eapply wp_mono; [eapply (IH l); [exact R1| |done| |]|].
  - destruct l as [|m2 l]; [done|]. destruct Hc as [_ Hc].
    apply chain_frame; [intros Hin; by apply (Hmla m)|].
    apply chain_frame; [intros Hin; by apply (Hmla la)|done].
  - intros x Hx. destruct (Hmla x Hx). simpl. rewrite fn_lookup_insert_ne by congruence. apply Hl. set_solver.
  - lia.
  - intros [] s' (nx' & la' & us' & w' & -> & R' & Eq & Ef & Hs & Ho).
    exists nx', la', us', w'. split; [done|]. split; [done|]. split; [done|]. split; [|split].
    + rewrite Ef. simpl. rewrite zlen_app, !zlen_cons. change (zlen (@nil Z)) with 0. lia.
    + intros y Hy. apply Hs. by repeat (apply lookup_insert_is_Some'; right).
    + intros x. rewrite Ho. simpl. destruct (decide (x = m)) as [->|Hne].
      * rewrite decide_False by done. rewrite fn_lookup_insert. by rewrite decide_True by set_solver.
      * rewrite fn_lookup_insert_ne by done. destruct (decide (x ∈ l)).
        { by rewrite decide_True by set_solver. }
        by rewrite decide_False by set_solver.
Qed.

(** ** A new queue *)

Lemma rep_new_queue nx d la us mx sg qo ql qla w q :
  Rep (mk_mbufs nx d la us mx false sg qo ql qla) w -> is_head q ->
  Rep (mk_mbufs (<[q := NULL]> nx) d la us mx false sg (<[q := 0]> qo) (<[q := 0]> ql) (<[q := q]> qla))
    (World (w_own w) (w_free w) (<[q := Bq [] 0 []]> (w_queues w))).
Proof.
  intros R (H0 & H1 & H2). pose proof data_size_bound.
  assert (Hout : forall o l, is_buf o = false -> o <> q -> linked nx (w_own w) o l ->
    linked (<[q := NULL]> nx) (w_own w) o l).
  { intros o l Ho Hne. apply linked_frame; [done|by rewrite cell_head]. }
  eapply rep_queue_change; [exact R|done|..].
  - intros y Hy. apply lookup_insert_is_Some'. right. by apply (rep_next _ _ R).
  - apply (rep_data _ _ R).
  - apply Hout; [apply free_head|done|apply (rep_free _ _ R)].
  - intros q' b Hne Hb. apply Hout; [by apply (rep_head _ _ R _ _ Hb)|done|].
    apply (q_linked _ _ _ _ (rep_queue _ _ R _ _ Hb)).
  - intros q' Hne. by rewrite !lookup_insert_ne by done.
  - done.
  - split; simpl; rewrite ?lookup_insert_eq; try done.
    + split; [simpl; by rewrite lookup_insert_eq|constructor|by intros x ?%not_elem_of_nil].
    + by exists [], [].
Qed.

Lemma queue_init_writes q s nx d la us mx lk sg qo ql qla Q :
  s = mk_mbufs nx d la us mx lk sg qo ql qla ->
  is_Some (nx !! q) -> is_Some (qo !! q) -> is_Some (ql !! q) -> is_Some (qla !! q) ->
  Q tt (mk_mbufs (<[q := NULL]> nx) d la us mx lk sg (<[q := 0]> qo) (<[q := 0]> ql) (<[q := q]> qla)) ->
  wp (mbuf_queue_init q) Q s.
Proof.
  intros -> Hn Ho Hl Hla HQ. unfold mbuf_queue_init.
  bx. apply wp_fld_wr; [done|]. bx. apply wp_fld_wr; [done|]. bx. apply wp_fld_wr; [done|].
  by apply wp_fld_wr.
Qed.

Lemma mbuf_queue_init_ok q s w :
  Rep s w -> is_head q ->
  is_Some (mb_next s !! q) -> is_Some (mb_qoffs s !! q) -> is_Some (mb_qlen s !! q) ->
  is_Some (mb_qlast s !! q) ->
  wp (mbuf_queue_init q) (fun _ s' =>
    Rep s' (World (w_own w) (w_free w) (<[q := Bq [] 0 []]> (w_queues w)))) s.
Proof.
  intros R Hh Hn Ho Hl Hla. destruct s as [nx d la us mx lk sg qo ql qla].
  pose proof (rep_lock _ _ R) as Hlk. simpl in Hlk. subst lk.
  eapply queue_init_writes; [done..|]. by apply rep_new_queue.
Qed.

Lemma rep_signals nx d la us mx lk sg qo ql qla w sg' :
  Rep (mk_mbufs nx d la us mx lk sg qo ql qla) w -> Rep (mk_mbufs nx d la us mx lk sg' qo ql qla) w.
Proof.
  intros [R1 R2 R3 R4 R5 R6 R7 R8 R9]. split; try done. intros q b Hq.
  eapply queue_frame; [by apply R9|apply (q_linked _ _ _ _ (R9 _ _ Hq))|done..].
Qed.

Lemma mbuf_queue_free_ok q s w b :
  Rep s w -> w_queues w !! q = Some b ->
  wp (mbuf_queue_free q) (fun _ s' => exists w', Rep s' w' /\ queue_step w q b w' (Bq [] 0 [])) s.
Proof.
  intros R Hq. pose proof (rep_queue _ _ R _ _ Hq) as Q.
  destruct (queue_links _ _ _ _ Q) as [Hf _].
  pose proof (q_linked _ _ _ _ Q) as L. pose proof (rep_abandon _ _ _ _ R Hq) as R1.
  pose proof (rep_head _ _ R _ _ Hq) as Hh.
  destruct s as [nx d la us mx lk sg qo ql qla].
  pose proof (rep_lock _ _ R) as Hlk. simpl in Hlk, Hf. subst lk.
  unfold mbuf_queue_free, mutex_lock, cond_signal, mutex_unlock.
  bx. eapply wp_fld_rd; [done|]. bx. simpl. bx. simpl.
  eapply wp_mono; [eapply (release_all_ok _ (b_nodes b)); [exact R1|..]|].
  - pose proof (linked_chain _ _ _ _ L) as Hc. simpl in Hc. by destruct (b_nodes b); [|destruct Hc].
  - apply L.
  - intros x Hx. split; [by apply L|]. simpl. by rewrite decide_True.
  - pose proof (linked_size _ _ _ _ L). unfold zlen in *. lia.
  - intros [] s' (nx' & la' & us' & w' & -> & R' & Eq & Ef & Hs & Ho). bx. simpl.
    assert (R2 : Rep (mk_mbufs nx' d la' us' mx false (sg + 1) qo ql qla) w')
      by (by eapply rep_signals).
    eapply wp_fld_wr; [apply Hs; by eexists|]. bx.
    eapply wp_fld_wr; [eexists; apply (q_last _ _ _ _ Q)|]. bx.
    eapply wp_fld_wr; [eexists; apply (q_offs _ _ _ _ Q)|]. bx.
    eapply wp_fld_wr; [eexists; apply (q_len _ _ _ _ Q)|]. simpl.
    eexists. split; [by apply rep_new_queue|]. split; simpl.
    + rewrite Eq. simpl. by rewrite insert_delete_eq.
    + rewrite Ef. simpl. change (zlen (@nil Z)) with 0. lia.
    + intros x Bx. rewrite Ho. simpl. destruct (decide (x ∈ b_nodes b)) as [Hin|Hin]; [|done].
      destruct (linked_own _ _ _ _ L x Hin) as [_ ->]. destruct Hh as [Hqn _].
      split; [discriminate|done].
Qed.

(** ** The pool *)

Definition bufs (i n : Z) : list Z := POOL <$> seqZ i n.

Lemma bufs_cons i n : bufs i (Z.of_nat (S n)) = POOL i :: bufs (i + 1) (Z.of_nat n).
Proof.
  unfold bufs. rewrite Nat2Z.inj_succ, seqZ_cons by lia. rewrite fmap_cons. do 3 f_equal; lia.
Qed.

Lemma link_pool_ok n : forall i p s,
  is_Some (mb_next s !! p) -> (forall x, x ∈ bufs i (Z.of_nat n) -> is_Some (mb_next s !! x)) ->
  p ∉ bufs i (Z.of_nat n) ->
  wp (link_pool n i p) (fun r s' => exists nx',
    s' = lset next nx' s /\ r = List.last (bufs i (Z.of_nat n)) p /\
    chain (<[r := NULL]> nx') p (bufs i (Z.of_nat n)) /\
    (forall y, is_Some (mb_next s !! y) -> is_Some (nx' !! y)) /\
    (forall y, y ∉ p :: bufs i (Z.of_nat n) -> nx' !! y = mb_next s !! y)) s.
Proof.
  induction n as [|n IH]; intros i p s Hp Hb Hnin; cbn [link_pool].
  { bx. exists (mb_next s). split; [by destruct s|]. split; [done|].
    split; [simpl; by rewrite lookup_insert_eq|]. done. }
  rewrite bufs_cons in *. bx. apply wp_fld_wr; [done|].
  eapply wp_mono; [apply IH|].
  - simpl. apply lookup_insert_is_Some'. right. apply Hb. set_solver.
  - intros x Hx. simpl. apply lookup_insert_is_Some'. right. apply Hb. set_solver.
  - unfold bufs, POOL. rewrite list_elem_of_fmap. intros (j & Ej & Hj%elem_of_seqZ). lia.
  - intros r s' (nx' & -> & -> & Hc & Hs & Ho). exists nx'.
    split; [by destruct s|]. rewrite last_cons_d. split; [done|]. split; [|split].
    + split; [|done]. pose proof (last_elem (bufs (i + 1) (Z.of_nat n)) (POOL i)) as Hl.
      rewrite lookup_insert_ne by (intros E; rewrite E in Hl; done).
      rewrite Ho by done. simpl. by rewrite lookup_insert_eq.
    + intros y Hy. apply Hs. simpl. apply lookup_insert_is_Some'. by right.
    + intros y Hy. rewrite Ho by set_solver. simpl. rewrite lookup_insert_ne; [done|]. set_solver.
Qed.

Lemma elem_bufs x : x ∈ bufs 0 MBUF_POOL_SIZE <-> is_buf x = true.
Proof.
  rewrite is_buf_range. unfold bufs, POOL. rewrite list_elem_of_fmap. split.
  - intros (j & -> & Hj%elem_of_seqZ). lia.
  - intros Hx. exists (x - 16). rewrite elem_of_seqZ. lia.
Qed.

Lemma mbuf_init_ok s :
  mb_locked s = false -> is_Some (mb_next s !! FREE) ->
  (forall x, is_buf x = true -> is_Some (mb_next s !! x)) -> sized (mb_data s) ->
  wp mbuf_init (fun _ s' => Rep s' (World (fun _ => FREE) (bufs 0 MBUF_POOL_SIZE) ∅) /\
    mb_qoffs s' = mb_qoffs s /\ mb_qlen s' = mb_qlen s /\ mb_qlast s' = mb_qlast s /\
    (forall y, is_Some (mb_next s !! y) -> is_Some (mb_next s' !! y))) s.
Proof.
  intros Hlk Hf Hn Hd. pose proof pool_size_bound as Hps.
  assert (Efree : FREE ∉ bufs 0 MBUF_POOL_SIZE).
  { rewrite elem_bufs. by rewrite free_head. }
  unfold mbuf_init. bx. destruct s as [nx d la us mx lk sg qo ql qla]. simpl in *. subst lk.
  eapply wp_mono; [apply link_pool_ok; simpl; rewrite ?Z2Nat.id by lia|].
  - done.
  - intros x Hx. by apply Hn, elem_bufs.
  - done.
  - rewrite Z2Nat.id by lia. intros r s' (nx' & -> & -> & Hc & Hs & Ho). simpl in *. bx.
    assert (is_Some (nx' !! List.last (bufs 0 MBUF_POOL_SIZE) FREE)) as Sl.
    { apply Hs. pose proof (last_elem (bufs 0 MBUF_POOL_SIZE) FREE) as Hl.
      apply elem_of_cons in Hl as [->|Hl]; [done|]. by apply Hn, elem_bufs. }
    apply wp_fld_wr; [done|]. bx. simpl. split; [|split; [done|split; [done|split; [done|]]]].
    + split; simpl; try done.
      * unfold zlen, bufs. rewrite length_fmap, length_seqZ. lia.
      * intros x Hx. apply lookup_insert_is_Some'. right. by apply Hs, Hn.
      * split; [done| |]; [|intros x Hx; split; [by apply elem_bufs|done]].
        apply NoDup_fmap_2; [intros x y; unfold POOL; lia|apply NoDup_seqZ].
    + intros y Hy. apply lookup_insert_is_Some'. right. by apply Hs.
Qed.
End init.
