(* ===== verification/MbufThms.v ===== *)
(** * Packet buffers: what the module promises

    The pool as its callers see it: a number of free buffers, the buffers
    callers hold, and queues of bytes. [step] says what each call may do to
    it; the theorems show that the code of [Mbuf] does that, that the bytes of
    a queue come out in the order they went in, what the start of the module
    establishes, and how [mbuf_list_alloc] fails. *)

From S2P Require Import Prelude Mbuf MbufInv MbufMoves MbufOps MbufQueue MbufInit.
From stdpp Require Import fin_maps gmap functions list list_relations.
Open Scope Z_scope.
Open Scope c_scope.
Import Mbuf.

(** ** The abstract pool *)

Record pool := Pool {
  p_free : Z;
  p_held : gset Z;
  p_queues : gmap Z (Z * list Z);   (* offset in the first buffer, bytes *)
}.

Inductive op :=
| Alloc
| Free (p : Z)
| Add (q : Z) (buf : list Z) (len : Z)
| Remove (q len : Z)
| Trim (q len : Z)
| Get (q offs len : Z)
| QFree (q : Z).

Section spec.
Context `{MbufConfig}.

(** The call, with its result and the bytes it hands over. *)
Definition exec (o : op) : M mbufs (Z * list Z) :=
  match o with
  | Alloc => m <- mbuf_try_alloc;; ret (m, [])
  | Free p => mbuf_free p;;; ret (0, [])
  | Add q buf len => n <- mbuf_queue_add q buf len;; ret (n, [])
  | Remove q len => mbuf_queue_remove q len
  | Trim q len => n <- mbuf_queue_trim q len;; ret (n, [])
  | Get q offs len => mbuf_queue_get q offs len
  | QFree q => mbuf_queue_free q;;; ret (0, [])
  end.

(** What the caller has to see to. *)
Definition allowed (a : pool) (o : op) : Prop :=
  match o with
  | Alloc => True
  | Free p => p ∈ p_held a
  | Add q buf len => is_Some (p_queues a !! q) /\ len <= zlen buf
  | Remove q len | Trim q len => is_Some (p_queues a !! q) /\ 0 <= len
  | Get q offs len => is_Some (p_queues a !! q) /\ 0 <= offs /\ 0 <= len
  | QFree q => is_Some (p_queues a !! q)
  end.

(** The buffers a queue needs, and the space in them and in the free ones. *)
Definition nblk (o : Z) (c : list Z) : Z := (o + zlen c + (MBUF_DATA_SIZE - 1)) / MBUF_DATA_SIZE.
Definition space (a : pool) (o : Z) (c : list Z) : Z :=
  (nblk o c + p_free a) * MBUF_DATA_SIZE - o - zlen c.
Definition set_queue (a : pool) (q o : Z) (c : list Z) (o' : Z) (c' : list Z) : pool :=
  Pool (p_free a + nblk o c - nblk o' c') (p_held a) (<[q := (o', c')]> (p_queues a)).

Inductive step (a : pool) : op -> Z * list Z -> pool -> Prop :=
| step_alloc_none : p_free a = 0 -> step a Alloc (NULL, []) a
| step_alloc m :
    0 < p_free a -> is_buf m = true -> m ∉ p_held a ->
    step a Alloc (m, []) (Pool (p_free a - 1) ({[m]} ∪ p_held a) (p_queues a))
| step_free p :
    p ∈ p_held a -> step a (Free p) (0, []) (Pool (p_free a + 1) (p_held a ∖ {[p]}) (p_queues a))
| step_add q buf len o c n :
    p_queues a !! q = Some (o, c) -> n = Z.max 0 (Z.min len (space a o c)) ->
    step a (Add q buf len) (n, []) (set_queue a q o c o (c ++ take (Z.to_nat n) buf))
| step_remove q len o c n :
    p_queues a !! q = Some (o, c) -> n = Z.min len (zlen c) ->
    let c' := drop (Z.to_nat n) c in
    step a (Remove q len) (n, take (Z.to_nat n) c) (set_queue a q o c (front_offs o n c') c')
| step_trim q len o c n :
    p_queues a !! q = Some (o, c) -> n = Z.min len (zlen c) ->
    let c' := drop (Z.to_nat n) c in
    step a (Trim q len) (n, []) (set_queue a q o c (front_offs o n c') c')
| step_get q offs len o c n :
    p_queues a !! q = Some (o, c) -> n = Z.max 0 (Z.min len (zlen c - offs)) ->
    step a (Get q offs len) (n, take (Z.to_nat n) (drop (Z.to_nat offs) c)) a
| step_qfree q o c :
    p_queues a !! q = Some (o, c) -> step a (QFree q) (0, []) (set_queue a q o c 0 []).

(** The memory [s] represents the pool [a]. *)
Definition view (b : bq) : Z * list Z := (b_offs b, b_bytes b).
Record abs_w (s : mbufs) (w : world) (a : pool) : Prop := {
  abs_rep : Rep s w;
  abs_free : p_free a = zlen (w_free w);
  abs_held : forall x, x ∈ p_held a <-> is_buf x = true /\ w_own w x = NULL;
  abs_queues : p_queues a = view <$> w_queues w;
}.
Definition Abs (s : mbufs) (a : pool) : Prop := exists w, abs_w s w a.

(** ** The refinement *)

Lemma rep_nblk s w q b : Rep s w -> w_queues w !! q = Some b -> zlen (b_nodes b) = nblk (b_offs b) (b_bytes b).
Proof.
  intros R Hq. pose proof data_size_bound as Hs.
  destruct (queue_size _ _ _ _ (rep_data _ _ R) (rep_queue _ _ R _ _ Hq)) as (post & Hp & E).
  unfold nblk. apply (Z.div_unique_pos _ _ _ (MBUF_DATA_SIZE - 1 - post)); lia.
Qed.

Lemma abs_lookup s w a q :
  abs_w s w a -> is_Some (p_queues a !! q) ->
  exists b, w_queues w !! q = Some b /\ p_queues a !! q = Some (b_offs b, b_bytes b) /\
    space a (b_offs b) (b_bytes b) = room b + zlen (w_free w) * MBUF_DATA_SIZE.
Proof.
  intros [R Ef _ ->] [v Hv]. rewrite lookup_fmap_Some in Hv. destruct Hv as (b & <- & Hb).
  exists b. split; [done|]. split; [by rewrite lookup_fmap, Hb|].
  unfold space, room. rewrite <-(rep_nblk _ _ _ _ R Hb), Ef. ring.
Qed.

(** A change of one queue, with the count of free buffers that follows. *)
Lemma abs_step s w a q b s' w' b' :
  abs_w s w a -> w_queues w !! q = Some b -> Rep s' w' -> queue_step w q b w' b' ->
  abs_w s' w' (set_queue a q (b_offs b) (b_bytes b) (b_offs b') (b_bytes b')).
Proof.
  intros [R Ef Eh Eq] Hq R' St. pose proof (step_lookup _ _ _ _ _ St) as Hq'.
  destruct St as [E1 E2 E3]. split; simpl; [done| | |].
  - rewrite <-(rep_nblk _ _ _ _ R Hq), <-(rep_nblk _ _ _ _ R' Hq'), Ef. lia.
  - intros x. rewrite Eh. split; intros [Bx Ox]; (split; [done|]); by apply E3.
  - by rewrite E1, Eq, fmap_insert.
Qed.

Lemma wp_bind_ret {A B} (c : M mbufs A) (f : A -> B) Q s :
  wp c (fun a s' => Q (f a) s') s -> wp (bind c (fun a => ret (f a))) Q s.
Proof. intros Hc. by apply wp_bind. Qed.

Lemma alloc_refines s w a :
  abs_w s w a -> wp (exec Alloc) (fun r s' => exists a', step a Alloc r a' /\ Abs s' a') s.
Proof.
  intros [R Ef Eh Eq]. apply wp_bind_ret. eapply wp_mono; [by apply mbuf_try_alloc_ok|].
  intros m s' Hm. pose proof (rep_free _ _ R) as Lf.
  destruct (w_free w) as [|x l] eqn:El; simpl in Hm.
  - destruct Hm as [-> R']. exists a. split; [by constructor|]. exists w. split; [done|by rewrite El|done..].
  - destruct Hm as (-> & Bx & R'). rewrite zlen_cons in Ef. pose proof (zlen_nonneg l).
    destruct (linked_own _ _ _ _ Lf x) as [_ Ox]; [set_solver|].
    assert (x ∉ p_held a) as Hx by (rewrite Eh, Ox; by intros [_ ?]).
    eexists. split; [apply (step_alloc a x); [lia|done|done]|].
    eexists. split; [exact R'|simpl; lia| |done].
    intros y. simpl. rewrite elem_of_union, elem_of_singleton, Eh.
    destruct (decide (y = x)) as [->|Hne].
    + rewrite fn_lookup_insert. tauto.
    + rewrite fn_lookup_insert_ne by done. tauto.
Qed.

Lemma free_refines s w a p :
  abs_w s w a -> p ∈ p_held a ->
  wp (exec (Free p)) (fun r s' => exists a', step a (Free p) r a' /\ Abs s' a') s.
Proof.
  intros [R Ef Eh Eq] Hp. pose proof (proj1 (Eh p) Hp) as [Bp Op].
  apply (wp_bind_ret _ (fun _ => (0, []))). eapply wp_mono; [by apply mbuf_free_ok|].
  intros [] s' R'. eexists. split; [by apply step_free|].
  eexists. split; [exact R'| | |done]; simpl.
  - rewrite zlen_app, zlen_single. lia.
  - intros y. rewrite elem_of_difference, elem_of_singleton, Eh.
    destruct (decide (y = p)) as [->|Hne].
    + rewrite fn_lookup_insert. split; [tauto|]. by intros [_ ?].
    + rewrite fn_lookup_insert_ne by done. tauto.
Qed.

Lemma exec_refines s w a o :
  abs_w s w a -> allowed a o ->
  wp (exec o) (fun r s' => exists a', step a o r a' /\ Abs s' a') s.
Proof.
  intros A. pose proof (abs_rep _ _ _ A) as R.
  destruct o as [|p|q buf len|q len|q len|q offs len|q]; simpl allowed; intros Ho.
  - by eapply alloc_refines.
  - by eapply free_refines.
  - destruct Ho as [Hq Hl]. destruct (abs_lookup _ _ _ _ A Hq) as (b & Hb & Ea & Es).
    apply (wp_bind_ret _ (fun n => (n, []))). eapply wp_mono; [by eapply mbuf_queue_add_ok|].
    intros n s' (En & w' & b' & R' & St & Eo & Eb). rewrite <-Es in En.
    eexists. split; [by apply step_add|]. exists w'.
    pose proof (abs_step _ _ _ _ _ _ _ _ A Hb R' St) as A'. by rewrite Eb, Eo in A'.
  - destruct Ho as [Hq Hl]. destruct (abs_lookup _ _ _ _ A Hq) as (b & Hb & Ea & _).
    eapply wp_mono; [by eapply mbuf_queue_remove_ok|].
    intros r s' (-> & w' & b' & R' & St & Eb & Eo).
    eexists. split; [by apply step_remove|]. rewrite <-Eb, <-Eo. eexists. by eapply abs_step.
  - destruct Ho as [Hq Hl]. destruct (abs_lookup _ _ _ _ A Hq) as (b & Hb & Ea & _).
    apply (wp_bind_ret _ (fun n => (n, []))). eapply wp_mono; [by eapply mbuf_queue_trim_ok|].
    intros r s' (-> & w' & b' & R' & St & Eb & Eo).
    eexists. split; [by apply step_trim|]. rewrite <-Eb, <-Eo. eexists. by eapply abs_step.
  - destruct Ho as (Hq & Hoffs & Hl). destruct (abs_lookup _ _ _ _ A Hq) as (b & Hb & Ea & _).
    eapply wp_mono; [by eapply mbuf_queue_get_ok|].
    intros r s' [-> ->]. exists a. split; [by eapply step_get|by exists w].
  - destruct (abs_lookup _ _ _ _ A Ho) as (b & Hb & Ea & _).
    apply (wp_bind_ret _ (fun _ => (0, []))). eapply wp_mono; [by eapply mbuf_queue_free_ok|].
    intros [] s' (w' & R' & St). eexists. split; [by apply step_qfree|].
    eexists. by eapply (abs_step _ _ _ _ _ _ _ (Bq [] 0 [])).
Qed.
End spec.

(** ** Sequences of calls *)
Section runs.
Context `{MbufConfig}.

Fixpoint run (ops : list op) : M mbufs (list (Z * list Z)) :=
  match ops with
  | [] => ret []
  | o :: ops => r <- exec o;; rs <- run ops;; ret (r :: rs)
  end.

(** A caller that uses the queues [qs] with sensible arguments, and allocates. *)
Definition client (qs : gset Z) (o : op) : Prop :=
  match o with
  | Alloc => True
  | Free _ => False
  | Add q buf len => q ∈ qs /\ len <= zlen buf
  | Remove q len | Trim q len => q ∈ qs /\ 0 <= len
  | Get q offs len => q ∈ qs /\ 0 <= offs /\ 0 <= len
  | QFree q => q ∈ qs
  end.

(** The bytes the queue [q] accepted, and the bytes removed from it. *)
Fixpoint accepted (q : Z) (ops : list op) (rs : list (Z * list Z)) : list Z :=
  match ops, rs with
  | Add q' buf _ :: ops, (n, _) :: rs =>
    (if q' =? q then take (Z.to_nat n) buf else []) ++ accepted q ops rs
  | _ :: ops, _ :: rs => accepted q ops rs
  | _, _ => []
  end.
Fixpoint removed (q : Z) (ops : list op) (rs : list (Z * list Z)) : list Z :=
  match ops, rs with
  | Remove q' _ :: ops, (_, d) :: rs => (if q' =? q then d else []) ++ removed q ops rs
  | _ :: ops, _ :: rs => removed q ops rs
  | _, _ => []
  end.
(** Calls that do not discard bytes of [q]. *)
Definition keeps (q : Z) (o : op) : Prop :=
  match o with Trim q' _ | QFree q' => q' <> q | _ => True end.

Lemma client_allowed a o : client (dom (p_queues a)) o -> allowed a o.
Proof. destruct o; simpl; rewrite ?elem_of_dom; tauto. Qed.

Lemma set_queue_dom a q o c o' c' :
  p_queues a !! q = Some (o, c) -> dom (p_queues (set_queue a q o c o' c')) = dom (p_queues a).
Proof. intros E. simpl. rewrite dom_insert_L. apply elem_of_dom_2 in E. set_solver. Qed.

Lemma step_dom a o r a' : step a o r a' -> dom (p_queues a') = dom (p_queues a).
Proof. destruct 1; try done; by eapply set_queue_dom. Qed.

(** One call moves bytes from the accepted ones to the end of the queue and
    from its front to the removed ones. *)
Lemma step_fifo a o r a' q os c :
  step a o r a' -> p_queues a !! q = Some (os, c) -> keeps q o ->
  exists os' c', p_queues a' !! q = Some (os', c') /\
    c ++ accepted q [o] [r] = removed q [o] [r] ++ c'.
Proof.
  intros St Hq Hk.
  assert (Hsame : forall q' f d f' d', q' <> q -> p_queues (set_queue a q' f d f' d') !! q = Some (os, c)).
  { intros. simpl. by rewrite lookup_insert_ne. }
  destruct St as [| | |q' buf len o c0 n Hq' Hn|q' len o c0 n Hq' Hn c'|q' len o c0 n Hq' Hn c'|
    q' offs len o c0 n Hq' Hn|q' o c0 Hq']; simpl accepted; simpl removed; simpl in Hk;
    rewrite ?app_nil_r.
  1,2,3,7: exists os, c; done.
  - destruct (Z.eqb_spec q' q) as [->|Hne]; [|exists os, c; rewrite app_nil_r; by split; [apply Hsame|]].
    simplify_eq. do 2 eexists. simpl. rewrite lookup_insert_eq. done.
  - destruct (Z.eqb_spec q' q) as [->|Hne]; [|exists os, c; by split; [apply Hsame|]].
    simplify_eq. do 2 eexists. simpl. rewrite lookup_insert_eq. split; [done|].
    unfold c'. by rewrite take_drop.
  - exists os, c. by split; [apply Hsame|].
  - exists os, c. by split; [apply Hsame|].
Qed.

Lemma accepted_cons q o ops r rs : accepted q (o :: ops) (r :: rs) = accepted q [o] [r] ++ accepted q ops rs.
Proof. destruct o, r; simpl; by rewrite ?app_nil_r. Qed.
Lemma removed_cons q o ops r rs : removed q (o :: ops) (r :: rs) = removed q [o] [r] ++ removed q ops rs.
Proof. destruct o, r; simpl; by rewrite ?app_nil_r. Qed.

Lemma run_fifo ops : forall s a,
  Abs s a -> Forall (client (dom (p_queues a))) ops ->
  wp (run ops) (fun rs s' => exists a', Abs s' a' /\
    forall q os c, p_queues a !! q = Some (os, c) -> Forall (keeps q) ops ->
    exists os' c', p_queues a' !! q = Some (os', c') /\
      c ++ accepted q ops rs = removed q ops rs ++ c') s.
Proof.
  induction ops as [|o ops IH]; intros s a A Hc; cbn [run].
  { apply wp_ret. exists a. split; [done|]. intros q os c Hq _. exists os, c. by rewrite app_nil_r. }
  apply List.Forall_cons_iff in Hc as [Ho Hc]. apply wp_bind. destruct A as [w A].
  eapply wp_mono; [eapply exec_refines; [exact A|by apply client_allowed]|].
  intros r s1 (a1 & St & A1). apply wp_bind.
  eapply wp_mono; [apply IH; [exact A1|by rewrite (step_dom _ _ _ _ St)]|].
  intros rs s2 (a2 & A2 & Hf). apply wp_ret. exists a2. split; [done|].
  intros q os c Hq Hk. apply List.Forall_cons_iff in Hk as [Hk Hks].
  destruct (step_fifo _ _ _ _ _ _ _ St Hq Hk) as (os1 & c1 & Hq1 & E1).
  destruct (Hf _ _ _ Hq1 Hks) as (os2 & c2 & Hq2 & E2).
  exists os2, c2. split; [done|].
  rewrite accepted_cons, removed_cons, app_assoc, E1, <-!app_assoc. by rewrite E2.
Qed.

(** ** The number of buffers *)

Definition held_count (a : pool) : Z := Z.of_nat (size (p_held a)).
Definition queue_count (m : gmap Z (Z * list Z)) : Z :=
  map_fold (fun _ v acc => nblk (fst v) (snd v) + acc) 0 m.
Definition total (a : pool) : Z := p_free a + held_count a + queue_count (p_queues a).

Lemma queue_count_insert m q v :
  m !! q = None -> queue_count (<[q := v]> m) = nblk (fst v) (snd v) + queue_count m.
Proof.
  intros E. unfold queue_count. rewrite map_fold_insert_L; [done| |done].
  intros. lia.
Qed.

Lemma queue_count_update m q o c v :
  m !! q = Some (o, c) -> queue_count (<[q := v]> m) = queue_count m - nblk o c + nblk (fst v) (snd v).
Proof.
  intros E. rewrite <-(insert_delete_id m q _ E), insert_insert_eq at 1.
  rewrite <-(insert_delete_id m q _ E) at 2.
  rewrite !queue_count_insert by apply lookup_delete_eq. simpl. lia.
Qed.

Lemma step_total a o r a' : step a o r a' -> total a' = total a.
Proof.
  destruct 1; try done; unfold total, set_queue; simpl;
    try (rewrite (queue_count_update _ _ _ _ _ ltac:(eassumption)); unfold held_count; simpl; lia).
  - unfold held_count. simpl. rewrite size_union, size_singleton by set_solver. lia.
  - unfold held_count. simpl. rewrite size_difference, size_singleton by set_solver.
    assert (size ({[p]} : gset Z) <= size (p_held a))%nat by (apply subseteq_size; set_solver).
    rewrite size_singleton in *. lia.
Qed.
End runs.

(** ** Lemmas of the start and of the failing allocations *)
Section start.
Context `{MbufConfig}.

Definition start (q : Z) : M mbufs unit := mbuf_init;;; mbuf_queue_init q.

(** Memory in which the pool and the fields of [q] exist. *)
Record has_cells (s : mbufs) (q : Z) : Prop := {
  cells_lock : mb_locked s = false;
  cells_free : is_Some (mb_next s !! FREE);
  cells_next : forall x, is_buf x = true -> is_Some (mb_next s !! x);
  cells_data : sized (mb_data s);
  cells_q : is_Some (mb_next s !! q) /\ is_Some (mb_qoffs s !! q) /\ is_Some (mb_qlen s !! q) /\
    is_Some (mb_qlast s !! q);
}.

Lemma start_ok s q :
  has_cells s q -> is_head q ->
  exists s', start q s = Some (tt, s') /\ Abs s' (Pool MBUF_POOL_SIZE ∅ {[q := (0, [])]}).
Proof.
  intros [Hlk Hf Hn Hd (Hq & Ho & Hl & Hla)] Hh. pose proof pool_size_bound.
  enough (wp (start q) (fun _ s' => Abs s' (Pool MBUF_POOL_SIZE ∅ {[q := (0, [])]})) s) as W.
  { apply wp_some in W as ([] & s' & E & A). eauto. }
  apply wp_bind. eapply wp_mono; [by apply mbuf_init_ok|].
  intros [] s1 (R & E1 & E2 & E3 & Hs). eapply wp_mono.
  { apply mbuf_queue_init_ok; [exact R|done|by apply Hs|by rewrite E1|by rewrite E2|by rewrite E3]. }
  intros [] s2 R2. eexists. split; [exact R2| | |]; simpl.
  - unfold zlen, bufs. rewrite length_fmap, length_seqZ. lia.
  - intros x. split; [set_solver|]. by intros [_ ?].
  - rewrite insert_empty. by rewrite map_fmap_singleton.
Qed.

Lemma count_free_ok l : forall fuel m n s,
  match l with [] => m = NULL | x :: l => m = x /\ chain (mb_next s) x l end ->
  (forall x, x ∈ l -> x <> NULL) -> (length l <= fuel)%nat ->
  count_free fuel m n s = Some (n + zlen l, s).
Proof.
  induction l as [|x l IH]; intros fuel m n s Hm Hl Hf.
  - subst m. change (zlen (@nil Z)) with 0. rewrite Z.add_0_r. by destruct fuel.
  - destruct Hm as [-> Hc]. destruct fuel as [|fuel]; simpl in Hf; [lia|].
    cbn [count_free]. rewrite (proj2 (Z.eqb_neq _ _)) by (apply Hl; set_solver).
    unfold bind, fld_rd. simpl. rewrite (chain_head _ _ _ Hc).
    rewrite (IH fuel).
    + rewrite zlen_cons. do 2 f_equal. lia.
    + destruct l as [|y l]; [done|]. simpl. by destruct Hc.
    + intros y Hy. apply Hl. set_solver.
    + lia.
Qed.

Lemma mbuf_alloc_check_ok s a : Abs s a -> mbuf_alloc_check s = Some (0, s).
Proof.
  intros (w & [R Ef _ _]). pose proof (rep_free _ _ R) as L. pose proof (linked_size _ _ _ _ L) as Hsz.
  pose proof (linked_chain _ _ _ _ L) as Hc. destruct s as [nx d la us mx lk sg qo ql qla].
  pose proof (rep_lock _ _ R) as Hlk. pose proof (rep_used _ _ R) as Hus.
  pose proof (rep_max _ _ R) as Hmx. simpl in *. subst lk us mx.
  unfold mbuf_alloc_check, mutex_lock, bind, get, put, fld_rd. simpl.
  rewrite (chain_head _ _ _ Hc), (count_free_ok (w_free w)).
  - unfold mutex_unlock, put, ret. simpl. by rewrite (proj2 (Z.eqb_eq _ _)) by lia.
  - simpl. destruct (w_free w); [done|]. by destruct Hc.
  - intros x Hx. by apply buf_not_null, L.
  - unfold zlen in *. lia.
Qed.

(** A request of more buffers than are free. *)
Lemma list_alloc_short s a len :
  Abs s a -> p_free a < Z.quot (len + (MBUF_DATA_SIZE - 1)) MBUF_DATA_SIZE ->
  mbuf_list_alloc len s = Some (NULL, lset locked true s).
Proof.
  intros (w & [R Ef _ _]) Hn.
  unfold mbuf_list_alloc, mutex_lock, bind, get, put, ret. simpl. rewrite (rep_lock _ _ R). simpl.
  rewrite (rep_max _ _ R), (rep_used _ _ R).
  by rewrite (proj2 (Z.ltb_lt _ _)) by lia.
Qed.

(** A request of no bytes: the first free buffer is returned, and it is left as
    the only buffer of the free list. *)
Lemma list_alloc_none s a :
  Abs s a -> 0 < p_free a ->
  exists m s1 s2, is_buf m = true /\ mbuf_list_alloc 0 s = Some (m, s1) /\ mb_used s1 = mb_used s /\
    mbuf_try_alloc s1 = Some (m, s2) /\ mb_next s2 !! FREE = Some NULL.
Proof.
  intros (w & [R Ef _ _]) Hn. destruct s as [nx d la us mx lk sg qo ql qla].
  pose proof (rep_lock _ _ R) as Hlk. simpl in Hlk. subst lk.
  pose proof (rep_free _ _ R) as L. pose proof (linked_chain _ _ _ _ L) as Hc.
  pose proof (used_u8 _ _ R) as Hu. pose proof data_size_bound as Hs.
  pose proof (rep_used _ _ R) as Hus. pose proof (rep_max _ _ R) as Hmx. simpl in *.
  destruct (w_free w) as [|m l] eqn:El; [by rewrite Ef in Hn|]. destruct Hc as [Ef0 Hc].
  assert (is_buf m = true) as Bm by (apply L; set_solver).
  assert (Em : nx !! m = Some (List.hd NULL l)) by (by apply chain_head).
  assert (Hmf : m <> FREE) by (intros ->; by rewrite free_head in Bm).
  exists m. eexists. eexists. split; [done|].
  assert (Eq : Z.quot (0 + (MBUF_DATA_SIZE - 1)) MBUF_DATA_SIZE = 0) by (apply Z.quot_small; lia).
  split; [|split; [|split]].
  - unfold mbuf_list_alloc. rewrite Eq. unfold mutex_lock, bind, get, put, fld_rd, fld_wr, mutex_unlock, ret.
    simpl. rewrite (proj2 (Z.ltb_ge _ _)) by (rewrite zlen_cons in Hus; pose proof (zlen_nonneg l); lia).
    simpl. rewrite Ef0. simpl. unfold ret. simpl. rewrite Em. simpl.
    rewrite lookup_insert_ne, Ef0 by done. simpl.
    rewrite (proj2 (Z.eqb_neq _ _) (buf_not_null _ Bm)). unfold when, ret, put. simpl. reflexivity.
  - simpl. by rewrite Z.add_0_r, u8_pool.
  - unfold mbuf_try_alloc, take_first, mutex_lock, bind, get, put, fld_rd, fld_wr, mutex_unlock, ret.
    simpl. rewrite lookup_insert_eq. simpl.
    rewrite (proj2 (Z.eqb_neq _ _) (buf_not_null _ Bm)). simpl.
    rewrite lookup_insert_ne, lookup_insert_eq by done. simpl. rewrite ?lookup_insert_eq. reflexivity.
  - simpl. by rewrite lookup_insert_eq.
Qed.
End start.

(** ** A concrete pool *)

(** Memory for the default configuration, with one queue. *)
Definition Q0 : Z := 8.
Definition fill {A} (l : list Z) (v : A) : gmap Z A := list_to_map ((fun x => (x, v)) <$> l).
Definition blank : mbufs :=
  mk_mbufs (fill (FREE :: Q0 :: bufs 0 64) 0) (fill (bufs 0 64) (replicate 124 0)) 0 0 0 false 0
    {[Q0 := 0]} {[Q0 := 0]} {[Q0 := 0]}.

Lemma fill_lookup {A} (l : list Z) (v : A) x : x ∈ l -> fill l v !! x = Some v.
Proof.
  unfold fill. induction l as [|y l IH]; intros Hx; [by apply not_elem_of_nil in Hx|].
  simpl. destruct (decide (y = x)) as [->|Hne]; [by rewrite lookup_insert_eq|].
  rewrite lookup_insert_ne by done. apply IH. set_solver.
Qed.

Lemma blank_cells : has_cells blank Q0.
Proof.
  split; cbn [mb_next mb_data mb_qoffs mb_qlen mb_qlast mb_locked blank].
  - done.
  - rewrite fill_lookup by set_solver. done.
  - intros x Hx. rewrite fill_lookup; [done|]. right. right. exact (proj2 (elem_bufs x) Hx).
  - intros x Hx. rewrite fill_lookup by exact (proj2 (elem_bufs x) Hx). by eexists.
  - rewrite fill_lookup by set_solver. by rewrite !lookup_singleton_eq.
Qed.

Lemma Q0_head : is_head Q0.
Proof. done. Qed.

Lemma started : exists s, start Q0 blank = Some (tt, s) /\ Abs s (Pool 64 ∅ {[Q0 := (0, [])]}).
Proof. apply (start_ok blank Q0 blank_cells Q0_head). Qed.

(** ** The properties *)
Section properties.
Context `{MbufConfig}.

(** C9. the pool and its queues implement their specification. In a state that
    represents an abstract pool, every call the caller is entitled to returns
    (it neither faults nor blocks), with the result and the effect the
    specification allows: an allocation hands out a buffer nobody holds, or
    [NULL] exactly when none is free; [mbuf_queue_add] accepts as many bytes as
    the queue's last buffer and the free buffers have room for, in order;
    [mbuf_queue_remove], [mbuf_queue_trim] and [mbuf_queue_get] deliver the
    bytes at the front; buffers that become empty are free again; other queues
    and held buffers are untouched. *)
Theorem mbuf_refines s a o :
  Abs s a -> allowed a o ->
  exists r s' a', exec o s = Some (r, s') /\ step a o r a' /\ Abs s' a'.
Proof.
  intros [w A] Ho. destruct (wp_some _ _ _ (exec_refines s w a o A Ho)) as (r & s' & E & a' & St & A').
  by exists r, s', a'.
Qed.

(** C23. a queue is a FIFO of bytes. Over any sequence of calls on the queues of
    a pool (with allocations by others in between, whether or not the pool runs
    out of buffers), every call returns, and the bytes a queue had followed by
    the bytes it accepted are the bytes removed from it followed by the bytes
    it has, provided none of the calls discards bytes of that queue. *)
Theorem mbuf_fifo ops s a :
  Abs s a -> Forall (client (dom (p_queues a))) ops ->
  exists rs s' a', run ops s = Some (rs, s') /\ Abs s' a' /\
    forall q o c, p_queues a !! q = Some (o, c) -> Forall (keeps q) ops ->
    exists o' c', p_queues a' !! q = Some (o', c') /\
      c ++ accepted q ops rs = removed q ops rs ++ c'.
Proof.
  intros A Hc. destruct (wp_some _ _ _ (run_fifo ops s a A Hc)) as (rs & s' & E & a' & A' & Hf).
  by exists rs, s', a'.
Qed.

(** C24. no buffer is lost or counted twice. The free buffers, the buffers held
    by callers and the buffers the queues need for their bytes add up to the
    same number after every call, results of all kinds included. *)
Theorem mbuf_no_leak s a o r s' :
  Abs s a -> allowed a o -> exec o s = Some (r, s') ->
  exists a', Abs s' a' /\ total a' = total a.
Proof.
  intros [w A] Ho E. pose proof (exec_refines s w a o A Ho) as W. unfold wp in W. rewrite E in W.
  destruct W as (a' & St & A'). exists a'. split; [done|by eapply step_total].
Qed.

(** C40. [mbuf_init] followed by [mbuf_queue_init] establishes the
    representation: all the buffers of the pool are free, none is held, the
    queue is empty; and the pool's own consistency check, [mbuf_alloc_check],
    succeeds there and changes nothing. *)
Theorem mbuf_starts s q :
  has_cells s q -> is_head q ->
  exists s', start q s = Some (tt, s') /\ Abs s' (Pool MBUF_POOL_SIZE ∅ {[q := (0, [])]}) /\
    mbuf_alloc_check s' = Some (0, s').
Proof.
  intros Hc Hh. destruct (start_ok s q Hc Hh) as (s' & E & A). exists s'.
  split; [done|]. split; [done|]. by eapply mbuf_alloc_check_ok.
Qed.

(** how [mbuf_list_alloc] goes wrong. A request for more buffers than are
    free returns [NULL] without releasing the pool's mutex, so that no
    allocation and no release gets past it afterwards; a request of no bytes
    returns the first free buffer without taking it (the next allocation hands
    out the same buffer) and cuts the free list behind it (after that next
    allocation the free list is empty, however many buffers are unused). *)
Theorem mbuf_list_alloc_flaws s a :
  Abs s a ->
  (forall len, p_free a < Z.quot (len + (MBUF_DATA_SIZE - 1)) MBUF_DATA_SIZE ->
     exists s', mbuf_list_alloc len s = Some (NULL, s') /\ mb_locked s' = true /\
       mbuf_try_alloc s' = None /\ forall p, mbuf_free p s' = None) /\
  (0 < p_free a ->
     exists m s1 s2, is_buf m = true /\ mbuf_list_alloc 0 s = Some (m, s1) /\
       mb_used s1 = mb_used s /\ mbuf_try_alloc s1 = Some (m, s2) /\
       mb_next s2 !! FREE = Some NULL).
Proof.
  intros A. split.
  - intros len Hlen. exists (lset locked true s). rewrite (list_alloc_short s a len A Hlen).
    by repeat split.
  - intros Hf. by apply (list_alloc_none s a).
Qed.
End properties.

(** ** Witnesses *)

Lemma mbuf_refines_witness :
  exists s a, Abs s a /\ p_queues a = {[Q0 := (0, [])]} /\
    exists r s' a', exec (Add Q0 [1; 2; 3] 3) s = Some (r, s') /\ step a (Add Q0 [1; 2; 3] 3) r a' /\ Abs s' a'.
Proof.
  destruct started as (s & _ & A). exists s, (Pool 64 ∅ {[Q0 := (0, [])]}).
  split; [exact A|]. split; [reflexivity|].
  apply (mbuf_refines s (Pool 64 ∅ {[Q0 := (0, [])]}) (Add Q0 [1; 2; 3] 3) A).
  split; [by eexists|by apply Z.leb_le].
Defined.

Lemma mbuf_fifo_witness :
  exists s a, Abs s a /\ exists rs s' a', run [Add Q0 [1; 2; 3] 3; Alloc; Remove Q0 2] s = Some (rs, s') /\
    Abs s' a' /\ forall q o c, p_queues a !! q = Some (o, c) ->
      Forall (keeps q) [Add Q0 [1; 2; 3] 3; Alloc; Remove Q0 2] ->
      exists o' c', p_queues a' !! q = Some (o', c') /\
        c ++ accepted q [Add Q0 [1; 2; 3] 3; Alloc; Remove Q0 2] rs =
        removed q [Add Q0 [1; 2; 3] 3; Alloc; Remove Q0 2] rs ++ c'.
Proof.
  destruct started as (s & _ & A). exists s, (Pool 64 ∅ {[Q0 := (0, [])]}).
  split; [exact A|].
  apply (mbuf_fifo [Add Q0 [1; 2; 3] 3; Alloc; Remove Q0 2] s (Pool 64 ∅ {[Q0 := (0, [])]}) A).
  assert (Q0 ∈ dom ({[Q0 := (0, [])]} : gmap Z (Z * list Z))) as HQ by (apply elem_of_dom; by eexists).
  repeat constructor; done.
Defined.

Lemma mbuf_no_leak_witness :
  exists s a r s', Abs s a /\ p_free a = 64 /\ exec Alloc s = Some (r, s') /\
    exists a', Abs s' a' /\ total a' = total a.
Proof.
  destruct started as (s & _ & w & A).
  destruct (wp_some _ _ _ (exec_refines s w _ Alloc A I)) as (r & s' & E & _).
  exists s, (Pool 64 ∅ {[Q0 := (0, [])]}), r, s'.
  split; [by exists w|]. split; [reflexivity|]. split; [exact E|].
  apply (mbuf_no_leak s (Pool 64 ∅ {[Q0 := (0, [])]}) Alloc r s' (ex_intro _ w A) I E).
Defined.

Lemma mbuf_starts_witness :
  has_cells blank Q0 /\ is_head Q0 /\
  exists s', start Q0 blank = Some (tt, s') /\ Abs s' (Pool 64 ∅ {[Q0 := (0, [])]}) /\
    mbuf_alloc_check s' = Some (0, s').
Proof.
  split; [exact blank_cells|]. split; [exact Q0_head|].
  apply (mbuf_starts blank Q0 blank_cells Q0_head).
Defined.

Lemma mbuf_list_alloc_flaws_witness :
  exists s a, Abs s a /\ p_free a = 64 /\
    (exists s', mbuf_list_alloc 8000 s = Some (NULL, s') /\ mb_locked s' = true /\
       mbuf_try_alloc s' = None /\ forall p, mbuf_free p s' = None) /\
    exists m s1 s2, is_buf m = true /\ mbuf_list_alloc 0 s = Some (m, s1) /\
       mb_used s1 = mb_used s /\ mbuf_try_alloc s1 = Some (m, s2) /\ mb_next s2 !! FREE = Some NULL.
Proof.
  destruct started as (s & _ & A). exists s, (Pool 64 ∅ {[Q0 := (0, [])]}).
  split; [exact A|]. split; [reflexivity|].
  destruct (mbuf_list_alloc_flaws s (Pool 64 ∅ {[Q0 := (0, [])]}) A) as [H1 H2].
  split; [by apply H1|by apply H2].
Defined.
