(* ===== verification/Line.v ===== *)
(** * Programs that talk over a line

    The protocol code calls the [send] and [recv] operations of a [comm_dev]; it
    is an interaction tree over these two events. Two readings of such trees:
    [runs], the finite exchanges of one program with an arbitrary partner, and
    [always], what two programs connected back to back reach however the line
    splits the bytes and however their steps interleave. Both are closed under
    weak bisimulation, so that the equations of interaction trees rewrite in
    them. *)

From S2P Require Import Prelude.
From ITree Require Import ITree ITreeFacts.
From Stdlib Require Import Eqdep.
Open Scope Z_scope.

(** The result of a call, and the bytes it stored. *)
Definition rsp : Type := Z * list Z.
(** [comm->op.send(arg, buf, len)] and [comm->op.recv(arg, buf, n, tmo)]. *)
Inductive commE : Type -> Type :=
| send (buf : list Z) : commE rsp
| recv (n tmo : Z) : commE rsp.

Notation "'let*' x ':=' t 'in' k" := (ITree.bind t (fun x => k))
  (at level 10, x name, t at level 100, k at level 200).
Abbreviation io := ITree.trigger.

(** ** Equations *)

Lemma vis_inj {A} (e e' : commE rsp) (k k' : rsp -> itree commE A) :
  Vis e k ≈ Vis e' k' -> e = e' /\ forall x, k x ≈ k' x.
Proof.
  intros E. assert (e = e') as <-.
  { apply eqit_inv_Vis_weak in E as (p & He & _). rewrite (UIP_refl _ _ p) in He. exact He. }
  split; [done|]. intros x. by apply (eqit_inv_Vis eq true true _ e).
Qed.

Lemma ret_not_vis {A} (a : A) (e : commE rsp) (k : rsp -> itree commE A) : Ret a ≈ Vis e k -> False.
Proof. intros E. symmetry in E. apply eqit_inv in E. destruct E. Qed.

Lemma iter_eq {I A} (f : I -> itree commE (I + A)) i :
  ITree.iter f i ≈ ITree.bind (f i) (fun lr => match lr with inl i' => ITree.iter f i' | inr a => Ret a end).
Proof.
  rewrite unfold_iter. apply eutt_clo_bind with (UU := eq); [reflexivity|].
  intros u _ <-. destruct u; [by rewrite tau_eutt|reflexivity].
Qed.

(** ** One program *)

Inductive event := Sent (buf : list Z) (r : Z) | Got (n tmo r : Z) (bs : list Z).

(** [recv] stores as many bytes as it says, and no more than asked for. *)
Inductive runs {A} : itree commE A -> list event -> A -> Prop :=
| runs_ret t a : t ≈ Ret a -> runs t [] a
| runs_send t buf k r tr a :
    t ≈ Vis (send buf) k -> runs (k (r, [])) tr a -> runs t (Sent buf r :: tr) a
| runs_recv t n tmo k r bs tr a :
    t ≈ Vis (recv n tmo) k -> zlen bs = Z.max 0 r -> r <= n -> runs (k (r, bs)) tr a ->
    runs t (Got n tmo r bs :: tr) a.

#[export] Instance runs_proper {A} : Proper (eutt eq ==> eq ==> eq ==> iff) (@runs A).
Proof.
  assert (H : forall t t' tr (a : A), t ≈ t' -> runs t tr a -> runs t' tr a).
  { intros t t' tr a E R. destruct R as [t a Et|t buf k r tr a Et R|t n tmo k r bs tr a Et Hb Hr R].
    - apply runs_ret. by rewrite <-E.
    - apply (runs_send _ buf k); [by rewrite <-E|done].
    - apply (runs_recv _ n tmo k); [by rewrite <-E|done..]. }
  intros t t' E tr _ <- a _ <-. split; apply H; [done|by symmetry].
Qed.

Section runs_rules.
Context {A B : Type}.
Implicit Types (t : itree commE A) (tr : list event).

Lemma runs_ret_inv (a a' : A) tr : runs (Ret a) tr a' -> a' = a /\ tr = [].
Proof.
  inversion 1 as [? ? E|? ? ? ? ? ? E|? ? ? ? ? ? ? ? E]; subst.
  - apply eutt_inv_Ret in E. done.
  - by apply ret_not_vis in E.
  - by apply ret_not_vis in E.
Qed.

Lemma runs_bind_inv t (k : A -> itree commE B) tr b :
  runs (ITree.bind t k) tr b ->
  exists tr1 tr2 a, tr = tr1 ++ tr2 /\ runs t tr1 a /\ runs (k a) tr2 b.
Proof.
  remember (ITree.bind t k) as u eqn:Eu. assert (u ≈ ITree.bind t k) as E by (by rewrite Eu).
  clear Eu. intros R. revert t E.
  induction R as [u b Er|u buf ku r tr b Eu R IH|u n tmo ku r bs tr b Eu Hb Hr R IH]; intros t E; rewrite E in *.
  - apply eutt_inv_bind_ret in Er as (a & Ea & Eb). exists [], [], a.
    split; [done|]. split; by apply runs_ret.
  - apply eutt_inv_bind_vis in Eu as [(kt & Et & Ek)|(a & Ea & Ek)].
    + destruct (IH (kt (r, []))) as (tr1 & tr2 & a & -> & R1 & R2); [by rewrite Ek|].
      exists (Sent buf r :: tr1), tr2, a. split; [done|]. split; [by eapply runs_send|done].
    + exists [], (Sent buf r :: tr), a. split; [done|]. split; [by apply runs_ret|by eapply runs_send].
  - apply eutt_inv_bind_vis in Eu as [(kt & Et & Ek)|(a & Ea & Ek)].
    + destruct (IH (kt (r, bs))) as (tr1 & tr2 & a & -> & R1 & R2); [by rewrite Ek|].
      exists (Got n tmo r bs :: tr1), tr2, a. split; [done|]. split; [by eapply runs_recv|done].
    + exists [], (Got n tmo r bs :: tr), a. split; [done|]. split; [by apply runs_ret|by eapply runs_recv].
Qed.

Lemma runs_bind t (k : A -> itree commE B) tr1 tr2 a b :
  runs t tr1 a -> runs (k a) tr2 b -> runs (ITree.bind t k) (tr1 ++ tr2) b.
Proof.
  induction 1 as [t a Et|t buf kt r tr a Et R IH|t n tmo kt r bs tr a Et Hb Hr R IH]; intros R2; simpl.
  - by rewrite Et, bind_ret_l.
  - eapply runs_send; [rewrite Et; by rewrite bind_vis|]. by apply IH.
  - eapply runs_recv; [rewrite Et; by rewrite bind_vis|done|done|]. by apply IH.
Qed.
End runs_rules.

Lemma runs_call_send buf tr a : runs (io (send buf)) tr a -> exists r, tr = [Sent buf r] /\ a = (r, []).
Proof.
  unfold ITree.trigger. inversion 1 as [? ? E|? ? k r tr' ? E R|? ? ? k r bs tr' ? E Hb Hr R]; subst.
  - symmetry in E. by apply ret_not_vis in E.
  - apply vis_inj in E as [Ee Ek]. simplify_eq. rewrite <-Ek in R.
    apply runs_ret_inv in R as [-> ->]. by exists r.
  - apply vis_inj in E as [Ee _]. done.
Qed.

Lemma runs_call_recv n tmo tr a :
  runs (io (recv n tmo)) tr a ->
  tr = [Got n tmo (fst a) (snd a)] /\ zlen (snd a) = Z.max 0 (fst a) /\ fst a <= n.
Proof.
  unfold ITree.trigger. inversion 1 as [? ? E|? ? k r tr' ? E R|? ? ? k r bs tr' ? E Hb Hr R]; subst.
  - symmetry in E. by apply ret_not_vis in E.
  - apply vis_inj in E as [Ee _]. done.
  - apply vis_inj in E as [Ee Ek]. simplify_eq. rewrite <-Ek in R.
    by apply runs_ret_inv in R as [-> ->].
Qed.

Lemma runs_vis_send {A} buf (k : rsp -> itree commE A) buf' r tr a :
  runs (Vis (send buf) k) (Sent buf' r :: tr) a -> buf' = buf /\ runs (k (r, [])) tr a.
Proof.
  inversion 1 as [|? ? k' ? ? ? E R|]; subst. apply vis_inj in E as [Ee Ek]. simplify_eq. by rewrite Ek.
Qed.

Lemma runs_vis_recv {A} n tmo (k : rsp -> itree commE A) n' tmo' r bs tr a :
  runs (Vis (recv n tmo) k) (Got n' tmo' r bs :: tr) a -> runs (k (r, bs)) tr a.
Proof.
  inversion 1 as [| |? ? ? k' ? ? ? ? E Hb Hr R]; subst. apply vis_inj in E as [Ee Ek]. by rewrite Ek.
Qed.

(** Calls of a program that goes on. *)
Lemma runs_do_send {A} buf (k : rsp -> itree commE A) r tr a :
  runs (k (r, [])) tr a -> runs (ITree.bind (io (send buf)) k) (Sent buf r :: tr) a.
Proof. intros R. eapply runs_send; [rewrite bind_trigger; reflexivity|exact R]. Qed.

Lemma runs_do_recv {A} n tmo (k : rsp -> itree commE A) r bs tr a :
  zlen bs = Z.max 0 r -> r <= n -> runs (k (r, bs)) tr a ->
  runs (ITree.bind (io (recv n tmo)) k) (Got n tmo r bs :: tr) a.
Proof. intros Hb Hr R. eapply runs_recv; [rewrite bind_trigger; reflexivity|exact Hb|exact Hr|exact R]. Qed.

(** Loops whose rounds communicate: induction on the rounds of a run. *)
Lemma runs_iter {I A} (f : I -> itree commE (I + A)) (P : I -> list event -> A -> Prop) :
  (forall i tr i', runs (f i) tr (inl i') -> tr <> []) ->
  (forall i tr a, runs (f i) tr (inr a) -> P i tr a) ->
  (forall i tr1 i' tr2 a, runs (f i) tr1 (inl i') -> P i' tr2 a -> P i (tr1 ++ tr2) a) ->
  forall i tr a, runs (ITree.iter f i) tr a -> P i tr a.
Proof.
  intros Hne Hr Hl i tr. remember (length tr) as n eqn:En. revert i tr En.
  induction (lt_wf n) as [n _ IH]. intros i tr -> a R.
  rewrite iter_eq in R. apply runs_bind_inv in R as (tr1 & tr2 & [i'|a'] & -> & R1 & R2).
  - apply (Hl _ _ i'); [done|]. eapply IH; [|done|done].
    pose proof (Hne _ _ _ R1). rewrite length_app. destruct tr1; [done|]. simpl. lia.
  - apply runs_ret_inv in R2 as [-> ->]. rewrite app_nil_r. by apply Hr.
Qed.

(** ** Two programs back to back *)
Section system.
Context {A B : Type}.
Variable ETIMEDOUT : Z.   (* what [recv] returns when nothing arrives *)

(** The two programs, the bytes under way from the first to the second, and
    those from the second to the first. *)
Record cfg := Cfg { c_fst : itree commE A; c_snd : itree commE B; c_fwd : list Z; c_bwd : list Z }.

(** A program that waits for bytes while none are under way. *)
Definition starved {C} (t : itree commE C) (c : list Z) : Prop :=
  c = [] /\ exists n tmo k, t ≈ Vis (recv n tmo) k.
Definition ended {C} (t : itree commE C) : Prop := exists a, t ≈ Ret a.

(** One event. The line neither loses nor changes bytes; a [recv] takes any
    number of those under way, up to the number asked for; its timeout passes
    only when the partner can do nothing either. *)
Inductive sstep : cfg -> cfg -> Prop :=
| fst_send S R buf k c1 c2 :
    S ≈ Vis (send buf) k -> sstep (Cfg S R c1 c2) (Cfg (k (zlen buf, [])) R (c1 ++ buf) c2)
| snd_send S R buf k c1 c2 :
    R ≈ Vis (send buf) k -> sstep (Cfg S R c1 c2) (Cfg S (k (zlen buf, [])) c1 (c2 ++ buf))
| fst_recv S R n tmo k c1 bs c2 :
    S ≈ Vis (recv n tmo) k -> 0 < zlen bs <= n ->
    sstep (Cfg S R c1 (bs ++ c2)) (Cfg (k (zlen bs, bs)) R c1 c2)
| snd_recv S R n tmo k c2 bs c1 :
    R ≈ Vis (recv n tmo) k -> 0 < zlen bs <= n ->
    sstep (Cfg S R (bs ++ c1) c2) (Cfg S (k (zlen bs, bs)) c1 c2)
| fst_timeout S R n tmo k c1 :
    S ≈ Vis (recv n tmo) k -> ended R \/ starved R c1 ->
    sstep (Cfg S R c1 []) (Cfg (k (ETIMEDOUT, [])) R c1 [])
| snd_timeout S R n tmo k c2 :
    R ≈ Vis (recv n tmo) k -> ended S \/ starved S c2 ->
    sstep (Cfg S R [] c2) (Cfg S (k (ETIMEDOUT, [])) [] c2).

(** Every execution ends, in results that satisfy [Q]. *)
Inductive always (Q : A -> B -> Prop) : cfg -> Prop :=
| always_done S R c1 c2 a b : S ≈ Ret a -> R ≈ Ret b -> Q a b -> always Q (Cfg S R c1 c2)
| always_step c : (exists c', sstep c c') -> (forall c', sstep c c' -> always Q c') -> always Q c.

Implicit Types (S : itree commE A) (R : itree commE B).

Lemma starved_proper {C} (t t' : itree commE C) c : t ≈ t' -> starved t c -> starved t' c.
Proof. intros E [-> (n & tmo & k & Et)]. split; [done|]. exists n, tmo, k. by rewrite <-E. Qed.
Lemma ended_proper {C} (t t' : itree commE C) : t ≈ t' -> ended t -> ended t'.
Proof. intros E [a Ea]. exists a. by rewrite <-E. Qed.

Lemma idle_proper {C} (t t' : itree commE C) c : t ≈ t' -> ended t \/ starved t c -> ended t' \/ starved t' c.
Proof. intros E [?|?]; [left; by eapply ended_proper|right; by eapply starved_proper]. Qed.

(** The steps of bisimilar programs are the same, up to programs that are not
    concerned. *)
Lemma sstep_proper S S' R R' c1 c2 c :
  S ≈ S' -> R ≈ R' -> sstep (Cfg S R c1 c2) c ->
  exists c', sstep (Cfg S' R' c1 c2) c' /\ c_fst c ≈ c_fst c' /\ c_snd c ≈ c_snd c' /\
    c_fwd c = c_fwd c' /\ c_bwd c = c_bwd c'.
Proof.
  intros ES ER St. inversion St; subst; eexists.
  - split; [apply fst_send; by rewrite <-ES|]. done.
  - split; [apply snd_send; by rewrite <-ER|]. done.
  - split; [eapply fst_recv; [by rewrite <-ES|done]|]. done.
  - split; [eapply snd_recv; [by rewrite <-ER|done]|]. done.
  - split; [eapply fst_timeout; [by rewrite <-ES|by eapply idle_proper]|]. done.
  - split; [eapply snd_timeout; [by rewrite <-ER|by eapply idle_proper]|]. done.
Qed.

#[export] Instance always_proper Q :
  Proper (eutt eq ==> eutt eq ==> eq ==> eq ==> iff) (fun S R c1 c2 => always Q (Cfg S R c1 c2)).
Proof.
  assert (H : forall c, always Q c -> forall S' R', c_fst c ≈ S' -> c_snd c ≈ R' ->
    always Q (Cfg S' R' (c_fwd c) (c_bwd c))).
  { induction 1 as [S R c1 c2 a b Ea Eb HQ|[S R c1 c2] [c' St] Hall IH]; intros S' R' ES ER; simpl in *.
    - apply (always_done _ _ _ _ _ a b); [by rewrite <-ES|by rewrite <-ER|done].
    - apply always_step.
      + destruct (sstep_proper _ _ _ _ _ _ _ ES ER St) as (c2' & St' & _). by exists c2'.
      + intros c'' St''. symmetry in ES, ER.
        destruct (sstep_proper _ _ _ _ _ _ _ ES ER St'') as (c3 & St3 & E1 & E2 & E3 & E4).
        symmetry in E1, E2. pose proof (IH _ St3 _ _ E1 E2) as Hc.
        rewrite <-E3, <-E4 in Hc. by destruct c''. }
  intros S S' ES R R' ER c1 _ <- c2 _ <-. split; intros Ha.
  - by apply (H _ Ha).
  - apply (H _ Ha); by symmetry.
Qed.

(** ** Rules *)

Lemma always_eq Q S S' R R' c1 c2 :
  always Q (Cfg S R c1 c2) -> S ≈ S' -> R ≈ R' -> always Q (Cfg S' R' c1 c2).
Proof. intros Ha ES ER. exact (proj1 (always_proper Q _ _ ES _ _ ER _ _ eq_refl _ _ eq_refl) Ha). Qed.

Lemma always_snd_eq Q S R R' c1 c2 : R ≈ R' -> always Q (Cfg S R' c1 c2) -> always Q (Cfg S R c1 c2).
Proof. intros E Ha. eapply always_eq; [exact Ha|done|by symmetry]. Qed.

(** To step, look at what each program does next. *)
Ltac heads := repeat match goal with
  | H1 : ?t ≈ Vis _ _, H2 : ?t ≈ Vis _ _ |- _ =>
    rewrite H1 in H2; apply vis_inj in H2 as [? H2]; simplify_eq
  | H1 : ?t ≈ Vis _ _, H2 : ended ?t |- _ =>
    destruct H2 as [? H2]; rewrite H1 in H2; symmetry in H2; by apply ret_not_vis in H2
  | H1 : ?t ≈ Ret _, H2 : ?t ≈ Vis _ _ |- _ => rewrite H1 in H2; by apply ret_not_vis in H2
  | H : _ \/ starved _ _ |- _ => destruct H as [H|H]
  | H : starved _ _ |- _ => destruct H as [? (? & ? & ? & H)]; simplify_eq
  | H : ?bs ++ _ = [] |- _ => apply app_nil in H as [-> ->]
  | H : [] = ?bs ++ _ |- _ => symmetry in H; apply app_nil in H as [-> ->]
  | H : 0 < zlen [] <= _ |- _ => by destruct H
  end.
Ltac step_cases := let St := fresh "St" in intros ? St; inversion St; subst; heads.

(** The first program sends, the second waits. *)
Lemma always_fst_send Q S R c2 buf k n tmo kR :
  S ≈ Vis (send buf) k -> R ≈ Vis (recv n tmo) kR ->
  always Q (Cfg (k (zlen buf, [])) R buf c2) -> always Q (Cfg S R [] c2).
Proof.
  intros ES ER Ha. apply always_step; [eexists; by apply fst_send|]. step_cases.
  eapply always_eq; [exact Ha|done|done].
Qed.

(** The second sends, the first waits. *)
Lemma always_snd_send Q S R c1 buf k n tmo kS :
  R ≈ Vis (send buf) k -> S ≈ Vis (recv n tmo) kS ->
  always Q (Cfg S (k (zlen buf, [])) c1 buf) -> always Q (Cfg S R c1 []).
Proof.
  intros ER ES Ha. apply always_step; [eexists; by apply snd_send|]. step_cases.
  eapply always_eq; [exact Ha|done|done].
Qed.

(** One byte is under way to the first program, the second waits. *)
Lemma always_fst_recv Q S R x n tmo k n' tmo' kR :
  S ≈ Vis (recv n tmo) k -> 1 <= n -> R ≈ Vis (recv n' tmo') kR ->
  always Q (Cfg (k (1, [x])) R [] []) -> always Q (Cfg S R [] [x]).
Proof.
  intros ES Hn ER Ha. apply always_step.
  { exists (Cfg (k (zlen [x], [x])) R [] []). apply (fst_recv S R n tmo k [] [x] []); [done|].
    change (zlen [x]) with 1. lia. }
  step_cases.
  match goal with H : ?bs ++ _ = [x] |- _ => destruct bs as [|? bs]; [by heads|];
    injection H as -> H; apply app_nil in H as [-> ->] end.
  eapply always_eq; [exact Ha|done|done].
Qed.

(** The bytes [todo] are under way to the second program, or a part of them
    while the first is about to send the others and then to wait. *)
Definition feeds S (n tmo : Z) (k : rsp -> itree commE A) (todo c : list Z) : Prop :=
  (S ≈ Vis (recv n tmo) k /\ c = todo) \/
  exists buf kS, S ≈ Vis (send buf) kS /\ kS (zlen buf, []) ≈ Vis (recv n tmo) k /\ c ++ buf = todo /\ buf <> [].

Lemma always_snd_recv Q S R c1 todo n tmo k nR tR kR :
  feeds S n tmo k todo c1 -> todo <> [] -> R ≈ Vis (recv nR tR) kR -> 1 <= nR ->
  (forall S' c' bs todo', todo = bs ++ todo' -> 0 < zlen bs <= nR -> feeds S' n tmo k todo' c' ->
     always Q (Cfg S' (kR (zlen bs, bs)) c' [])) ->
  always Q (Cfg S R c1 []).
Proof.
  intros HF Hne ER HnR Hall.
  assert (Hsent : forall S c, S ≈ Vis (recv n tmo) k -> c = todo -> always Q (Cfg S R c [])).
  { intros S0 c ES ->. apply always_step.
    - destruct todo as [|x rest]; [done|]. exists (Cfg S0 (kR (1, [x])) rest []).
      apply (snd_recv S0 R nR tR kR [] [x] rest); [done|]. change (zlen [x]) with 1. lia.
    - step_cases. eapply always_eq; [eapply Hall; [reflexivity|done|by left]|done|done]. }
  destruct HF as [[ES ->]|(buf & kS & ES & EkS & Etodo & Hbuf)]; [by apply Hsent|].
  apply always_step; [eexists; by apply fst_send|]. step_cases.
  - eapply always_eq; [exact (Hsent _ _ EkS eq_refl)|done|done].
  - eapply always_eq; [eapply Hall|done|done]; [by rewrite <-app_assoc|done|].
    right. exists buf, kS. done.
Qed.

Lemma feeds_nothing S n tmo k c : feeds S n tmo k [] c -> S ≈ Vis (recv n tmo) k /\ c = [].
Proof.
  intros [[ES ->]|(buf & kS & _ & _ & E & Hbuf)]; [done|]. by apply app_nil in E as [_ ->].
Qed.

(** Both send. *)
Lemma always_send_send Q S R c1 c2 buf buf' kS kR :
  S ≈ Vis (send buf) kS -> R ≈ Vis (send buf') kR ->
  always Q (Cfg (kS (zlen buf, [])) R (c1 ++ buf) c2) ->
  always Q (Cfg S (kR (zlen buf', [])) c1 (c2 ++ buf')) -> always Q (Cfg S R c1 c2).
Proof.
  intros ES ER H1 H2. apply always_step; [eexists; by apply fst_send|]. step_cases.
  - eapply always_eq; [exact H1|done|done].
  - eapply always_eq; [exact H2|done|done].
Qed.

(** The first has ended, the second reads what was sent. *)
Lemma always_last_recv Q S R x a n tmo kR c2 :
  S ≈ Ret a -> R ≈ Vis (recv n tmo) kR -> 1 <= n ->
  always Q (Cfg S (kR (1, [x])) [] c2) -> always Q (Cfg S R [x] c2).
Proof.
  intros ES ER Hn Ha. apply always_step.
  { exists (Cfg S (kR (zlen [x], [x])) [] c2). apply (snd_recv S R n tmo kR c2 [x] []); [done|].
    change (zlen [x]) with 1. lia. }
  step_cases.
  match goal with H : ?bs ++ _ = [x] |- _ => destruct bs as [|? bs]; [by heads|];
    injection H as -> H; apply app_nil in H as [-> ->] end.
  eapply always_eq; [exact Ha|done|done].
Qed.

Lemma always_last_send Q S R a buf kR c1 c2 :
  S ≈ Ret a -> R ≈ Vis (send buf) kR ->
  always Q (Cfg S (kR (zlen buf, [])) c1 (c2 ++ buf)) -> always Q (Cfg S R c1 c2).
Proof.
  intros ES ER Ha. apply always_step; [eexists; by apply snd_send|]. step_cases.
  eapply always_eq; [exact Ha|done|done].
Qed.
(** The first has ended and nothing is under way: the timeout passes. *)
Lemma always_last_timeout Q S R a n tmo kR c2 :
  S ≈ Ret a -> R ≈ Vis (recv n tmo) kR ->
  always Q (Cfg S (kR (ETIMEDOUT, [])) [] c2) -> always Q (Cfg S R [] c2).
Proof.
  intros ES ER Ha. apply always_step.
  { eexists. eapply snd_timeout; [exact ER|]. left. by exists a. }
  step_cases. eapply always_eq; [exact Ha|done|done].
Qed.

(** The same when it is the second that has ended. *)
Lemma always_first_timeout Q S R b n tmo kS c1 :
  R ≈ Ret b -> S ≈ Vis (recv n tmo) kS ->
  always Q (Cfg (kS (ETIMEDOUT, [])) R c1 []) -> always Q (Cfg S R c1 []).
Proof.
  intros ER ES Ha. apply always_step.
  { eexists. eapply fst_timeout; [exact ES|]. left. by exists b. }
  step_cases. eapply always_eq; [exact Ha|done|done].
Qed.
End system.
