(* ===== verification/Xmodem.v ===== *)
(** * XMODEM

    [sdk/libxmodem]: the sender ([xmodem_snd.c]) and the receiver
    ([xmodem_rcv.c]), as programs over the [send] and [recv] of their
    [comm_dev]. The packet buffers are byte lists that start at their [hdr]
    fields, 3 bytes before [data]; what [recv] stores goes where the code
    points it to, so that a header byte overwritten by an answer is overwritten
    here. *)

From S2P Require Import Prelude Crc Line.
From ITree Require Import ITree.
Open Scope Z_scope.

Module Xmodem.

Definition SOH := 0x01.
Definition STX := 0x02.
Definition EOT := 0x04.
Definition ACK := 0x06.
Definition NAK := 0x15.
Definition CAN := 0x18.
Definition THINKOS_ETIMEDOUT := -1.
Definition ETIMEDOUT := 110.
Definition EINVAL := 22.
Definition EBADMSG := 74.
Definition ECANCELED := 125.

(** [n] bytes at offset [o]. *)
Definition bytes_at (o n : Z) (l : list Z) : list Z := take (Z.to_nat n) (drop (Z.to_nat o) l).

(** The frame check sequences: [unsigned short crc], [unsigned char cks]. *)
Definition crc_of (data : list Z) : Z := foldl (fun crc c => u16 (Crc.crc16ccitt_step crc c)) 0 data.
Definition cks_of (data : list Z) : Z := foldl (fun cks c => u8 (cks + c)) 0 data.

(** ** The sender *)

Inductive snd_state := XMODEM_SND_IDLE | XMODEM_SND_CRC | XMODEM_SND_CKS.
Definition XMODEM_SND_STD := 0.
Definition XMODEM_SND_1K := 1.
Definition XMODEM_SND_TMOUT_MS := 2000.

Record xmodem_snd := mk_snd {
  s_seq : Z;
  s_state : snd_state;
  s_mode : Z;
  s_data_len : Z;
  s_data_max : Z;
  s_pkt : list Z;     (* hdr and data *)
}.
Definition eta_snd (x : xmodem_snd) : xmodem_snd :=
  mk_snd (s_seq x) (s_state x) (s_mode x) (s_data_len x) (s_data_max x) (s_pkt x).
Definition seq : lens xmodem_snd Z := Lens s_seq ltac:(mk_set eta_snd s_seq).
Definition state : lens xmodem_snd snd_state := Lens s_state ltac:(mk_set eta_snd s_state).
Definition snd_len : lens xmodem_snd Z := Lens s_data_len ltac:(mk_set eta_snd s_data_len).
Definition snd_pkt : lens xmodem_snd (list Z) := Lens s_pkt ltac:(mk_set eta_snd s_pkt).

Definition max_of (mode : Z) : Z := if mode =? XMODEM_SND_1K then 1024 else 128.
(** The fields as [xmodem_snd_init], [xmodem_snd_cancel] and [xmodem_snd_eot]
    set them. *)
Definition snd_reset (mode : Z) (pkt : list Z) : xmodem_snd :=
  mk_snd 1 XMODEM_SND_IDLE mode 0 (max_of mode) pkt.

(** [while (recv(arg, pkt.data, 1024, 200) > 0);] the data at offset [o]. *)
Definition flush (o : Z) : list Z -> itree commE (list Z) :=
  ITree.iter (fun pkt =>
    let* r := io (recv 1024 200) in
    let pkt := patch o (snd r) pkt in
    if 0 <? fst r then Ret (inl pkt) else Ret (inr pkt)).

Definition xmodem_snd_init (sx : xmodem_snd) (mode : Z) : itree commE (Z * xmodem_snd) :=
  if XMODEM_SND_1K <? mode then Ret (- EINVAL, sx)
  else
    let* pkt := flush 3 (s_pkt sx) in
    Ret (0, snd_reset mode pkt).

Definition xmodem_snd_cancel (sx : xmodem_snd) : itree commE (Z * xmodem_snd) :=
  let* r := io (send [CAN]) in
  Ret (fst r, snd_reset (s_mode sx) (s_pkt sx)).

(** Wait for NAK or 'C' before the first packet: [d] the offset of [pkt] in the
    buffer. [inl]: return with the code. *)
Definition snd_wait (d : Z) (sx : xmodem_snd) : itree commE ((Z + Z) * xmodem_snd) :=
  ITree.iter (fun xr : xmodem_snd * Z =>
    let* r := io (recv 1 XMODEM_SND_TMOUT_MS) in
    let sx := lset snd_pkt (patch d (snd r) (s_pkt (fst xr))) (fst xr) in
    let retry := snd xr in
    if fst r <? 0 then
      if (fst r =? ETIMEDOUT) && (retry + 1 <? 20) then Ret (inl (sx, retry + 1))
      else Ret (inr (inl (fst r), sx))
    else
      let c := zget (s_pkt sx) d in
      if c =? CAN then Ret (inr (inl (- ECANCELED), sx))
      else if c =? 67 then Ret (inr (inr retry, lset state XMODEM_SND_CRC sx))
      else if c =? NAK then Ret (inr (inr retry, lset state XMODEM_SND_CKS sx))
      else Ret (inl (sx, retry))) (sx, 0).

Definition snd_fcs (st : snd_state) (data : list Z) : list Z :=
  match st with
  | XMODEM_SND_CRC => [Z.shiftr (crc_of data) 8; Z.land (crc_of data) 0xff]
  | _ => [cks_of data]
  end.

(** The loop that sends the packet at [d] until it is acknowledged. *)
Definition snd_error (sx : xmodem_snd) (code : Z) : itree commE ((xmodem_snd * Z) + (Z * xmodem_snd)) :=
  let* pkt := flush 3 (s_pkt sx) in Ret (inr (code, lset snd_pkt pkt sx)).
Definition snd_round (d len : Z) (fcs : list Z) (xr : xmodem_snd * Z) :
    itree commE ((xmodem_snd * Z) + (Z * xmodem_snd)) :=
  let* r := io (send (bytes_at d (len + 3) (s_pkt (fst xr)))) in
  if fst r <? 0 then Ret (inr (fst r, fst xr))
  else
    let* r := io (send fcs) in
    if fst r <? 0 then Ret (inr (fst r, fst xr))
    else
      let* r := io (recv 1 XMODEM_SND_TMOUT_MS) in
      let sx := lset snd_pkt (patch d (snd r) (s_pkt (fst xr))) (fst xr) in
      let retry := snd xr in
      if fst r <=? 0 then
        if (fst r =? ETIMEDOUT) && (retry + 1 <? 10) then Ret (inl (sx, retry + 1))
        else Ret (inr (fst r, sx))
      else
        let c := zget (s_pkt sx) d in
        if c =? ACK then Ret (inr (0, lset seq (u8 (s_seq sx + 1)) sx))
        else if c =? CAN then snd_error sx (- ECANCELED)
        else if negb (c =? NAK) then snd_error sx (- EBADMSG)
        else if retry + 1 =? 10 then snd_error sx (- ECANCELED)
        else Ret (inl (sx, retry + 1)).

(** The header and the check sequence, then the loop. *)
Definition snd_frame (d len retry : Z) (sx : xmodem_snd) : itree commE (Z * xmodem_snd) :=
  let hdr := [if len =? 1024 then STX else SOH; s_seq sx; u8 (Z.lnot (s_seq sx))] in
  let sx := lset snd_pkt (patch d hdr (s_pkt sx)) sx in
  let fcs := snd_fcs (s_state sx) (bytes_at (d + 3) len (s_pkt sx)) in
  ITree.iter (snd_round d len fcs) (sx, retry).

(** [data] is at offset [3 + d] of the buffer. *)
Definition xmodem_send_pkt (sx : xmodem_snd) (d len : Z) : itree commE (Z * xmodem_snd) :=
  match s_state sx with
  | XMODEM_SND_IDLE =>
    let* w := snd_wait d sx in
    match fst w with
    | inl code => Ret (code, snd w)
    | inr retry => snd_frame d len retry (snd w)
    end
  | _ => snd_frame d len 0 sx
  end.

(** The copy of [n] bytes into the buffer. *)
Definition snd_fill (sx : xmodem_snd) (src : list Z) (n : Z) : xmodem_snd :=
  lset snd_len (s_data_len sx + n)
    (lset snd_pkt (patch (3 + s_data_len sx) (take (Z.to_nat n) src) (s_pkt sx)) sx).
(** One round of [xmodem_snd_loop]: the buffer is filled up and sent when it is
    full. *)
Definition snd_chunk (x : xmodem_snd * list Z * Z) :
    itree commE ((xmodem_snd * list Z * Z) + (Z * xmodem_snd)) :=
  let '(sx, src, len) := x in
  let rem := s_data_max sx - s_data_len sx in
  let n := Z.min len rem in
  let sx := snd_fill sx src n in
  let next sx := if len - n =? 0 then inr (0, sx) else inl (sx, drop (Z.to_nat n) src, len - n) in
  if s_data_len sx =? s_data_max sx then
    let* r := xmodem_send_pkt sx 0 (s_data_len sx) in
    if fst r <? 0 then Ret (inr r) else Ret (next (lset snd_len 0 (snd r)))
  else Ret (next sx).
Definition xmodem_snd_loop (sx : xmodem_snd) (data : list Z) (len : Z) : itree commE (Z * xmodem_snd) :=
  if len <? 0 then Ret (- EINVAL, sx) else ITree.iter snd_chunk (sx, data, len).

(** One round of the loop of [xmodem_snd_eot], [d] the offset of [data]. *)
Definition eot_chunk (data_max : Z) (x : xmodem_snd * Z * Z) :
    itree commE ((xmodem_snd * Z * Z) + (Z * xmodem_snd)) :=
  let '(sx, d, data_len) := x in
  if 0 <? data_len then
    let len := Z.min data_len data_max in
    let pad := replicate (Z.to_nat (data_max - len)) 0 in
    let sx := lset snd_pkt (patch (3 + d + len) pad (s_pkt sx)) sx in
    let* r := xmodem_send_pkt sx d data_max in
    if fst r <? 0 then Ret (inr r) else Ret (inl (snd r, d + len, data_len - len))
  else
    let* r := io (send [EOT]) in
    Ret (inr (fst r, snd_reset (s_mode sx) (s_pkt sx))).
Definition xmodem_snd_eot (sx : xmodem_snd) : itree commE (Z * xmodem_snd) :=
  let data_max := if s_data_len sx <=? 1024 - 128 then 128 else s_data_max sx in
  ITree.iter (eot_chunk data_max) (sx, 0, s_data_len sx).

(** ** The receiver *)

Definition XMODEM_RCV_CKS := 0.
Definition XMODEM_RCV_CRC := 1.
Definition XMODEM_RCV_TMOUT_MS := 2000.

Record xmodem_rcv := mk_rcv {
  r_mode : Z;
  r_sync : Z;
  r_pktno : Z;
  r_retry : Z;
  r_data_len : Z;
  r_data_pos : Z;
  r_pkt : list Z;     (* hdr, data and fcs *)
}.
Definition eta_rcv (x : xmodem_rcv) : xmodem_rcv :=
  mk_rcv (r_mode x) (r_sync x) (r_pktno x) (r_retry x) (r_data_len x) (r_data_pos x) (r_pkt x).
Definition sync : lens xmodem_rcv Z := Lens r_sync ltac:(mk_set eta_rcv r_sync).
Definition retry : lens xmodem_rcv Z := Lens r_retry ltac:(mk_set eta_rcv r_retry).
Definition data_pos : lens xmodem_rcv Z := Lens r_data_pos ltac:(mk_set eta_rcv r_data_pos).
Definition rcv_pkt : lens xmodem_rcv (list Z) := Lens r_pkt ltac:(mk_set eta_rcv r_pkt).

Definition xmodem_rcv_init (rx : xmodem_rcv) (mode : Z) : Z * xmodem_rcv :=
  if XMODEM_RCV_CRC <? mode then (- EINVAL, rx)
  else
    let mode := s8 mode in   (* a signed char of the structure *)
    (0, mk_rcv mode (if mode =? XMODEM_RCV_CRC then 67 else NAK) 1 30 0 0 (r_pkt rx)).

Definition xmodem_rcv_cancel (rx : xmodem_rcv) : itree commE (Z * xmodem_rcv) :=
  let rx := lset rcv_pkt (patch 0 [CAN; CAN; CAN] (r_pkt rx)) rx in
  let* _ := io (send (bytes_at 0 3 (r_pkt rx))) in
  Ret (0, rx).

(** The ways out of the two reading loops of [xmodem_rcv_pkt]. *)
Inductive heard :=
| Timeout            (* goto timeout *)
| Failed (code : Z)  (* return *)
| Begin (cnt : Z)    (* a packet of [cnt] bytes begins *)
| Ending.            (* EOT *)

Definition rcv_header (rx : xmodem_rcv) : itree commE (heard * xmodem_rcv) :=
  ITree.iter (fun rx =>
    let* r := io (recv 1 XMODEM_RCV_TMOUT_MS) in
    let rx := lset rcv_pkt (patch 0 (snd r) (r_pkt rx)) rx in
    if fst r =? THINKOS_ETIMEDOUT then Ret (inr (Timeout, rx))
    else if fst r <? 0 then Ret (inr (Failed (fst r), rx))
    else
      let c := zget (r_pkt rx) 0 in
      if c =? STX then Ret (inr (Begin 1024, rx))
      else if c =? SOH then Ret (inr (Begin 128, rx))
      else if c =? EOT then Ret (inr (Ending, rx))
      else Ret (inl rx)) rx.

(** One round of [while (rem)], [pos] the offset of [cp]; the loop. *)
Definition fill_round (x : xmodem_rcv * Z * Z) :
    itree commE ((xmodem_rcv * Z * Z) + (option heard * xmodem_rcv)) :=
  let '(rx, rem, pos) := x in
  if rem =? 0 then Ret (inr (None, rx))
  else
    let* r := io (recv rem 500) in
    let rx := lset rcv_pkt (patch pos (snd r) (r_pkt rx)) rx in
    if fst r =? THINKOS_ETIMEDOUT then Ret (inr (Some Timeout, rx))
    else if fst r <? 0 then Ret (inr (Some (Failed (fst r)), rx))
    else Ret (inl (rx, rem - fst r, pos + fst r)).
Definition rcv_fill (rx : xmodem_rcv) (rem : Z) : itree commE (option heard * xmodem_rcv) :=
  ITree.iter fill_round (rx, rem, 1).

(** The checks on a complete packet of [cnt] bytes: the sequence number against
    its complement, the check sequence against the data. *)
Definition frame_ok (mode cnt : Z) (pkt : list Z) : bool :=
  let data := bytes_at 3 cnt pkt in
  let cp i := zget pkt (3 + i) in
  (zget pkt 1 =? Z.land (Z.lnot (zget pkt 2)) 0xff) &&
  (if mode =? 0 then cp cnt =? cks_of data
   else u16 (Z.lor (Z.shiftl (cp cnt) 8) (cp (cnt + 1))) =? crc_of data).

(** The labels [timeout] and [error], to the end of the round of the outer loop
    or, when the retries are used up, of the function. *)
Definition rcv_timeout (rx : xmodem_rcv) : itree commE (xmodem_rcv + (Z * xmodem_rcv)) :=
  let rx := lset retry (u8 (r_retry rx - 1)) rx in
  if r_retry rx =? 0 then
    let rx := lset rcv_pkt (patch 0 [CAN; CAN; CAN] (r_pkt rx)) rx in
    let* _ := io (send (bytes_at 0 3 (r_pkt rx))) in
    Ret (inr (-1, rx))
  else Ret (inl rx).
Definition rcv_error (rx : xmodem_rcv) : itree commE (xmodem_rcv + (Z * xmodem_rcv)) :=
  let* pkt := flush 0 (r_pkt rx) in
  rcv_timeout (lset sync NAK (lset rcv_pkt pkt rx)).

(** A packet of [cnt] bytes is in the buffer. *)
Definition rcv_check (rx : xmodem_rcv) (cnt : Z) : itree commE (xmodem_rcv + (Z * xmodem_rcv)) :=
  let seq := zget (r_pkt rx) 1 in
  if negb (frame_ok (r_mode rx) cnt (r_pkt rx)) then rcv_error rx
  else if seq =? Z.land (r_pktno rx - 1) 0xff then Ret (inl (lset sync ACK rx))
  else if negb (seq =? r_pktno rx) then rcv_error rx
  else Ret (inr (cnt,
    mk_rcv (r_mode rx) ACK (Z.land (r_pktno rx + 1) 0xff) 10 cnt 0 (r_pkt rx))).

(** The outer loop after its [send], [r] the result of that. *)
Definition rcv_answer (rx : xmodem_rcv) (r : Z) : itree commE (xmodem_rcv + (Z * xmodem_rcv)) :=
  if r <? 0 then Ret (inr (r, rx))
  else
    let* h := rcv_header rx in
    let rx := snd h in
    match fst h with
    | Failed code => Ret (inr (code, rx))
    | Timeout => rcv_timeout rx
    | Ending =>
      let rx := lset rcv_pkt (patch 0 [ACK] (r_pkt rx)) rx in
      let* r := io (send (bytes_at 0 1 (r_pkt rx))) in
      if fst r <? 0 then Ret (inr (fst r, rx)) else Ret (inr (0, rx))
    | Begin cnt =>
      let* f := rcv_fill rx (cnt + (if r_mode rx =? 0 then 3 else 4)) in
      match fst f with
      | Some (Failed code) => Ret (inr (code, snd f))
      | Some _ => rcv_timeout (snd f)
      | None => rcv_check (snd f) cnt
      end
    end.
Definition rcv_round (rx : xmodem_rcv) : itree commE (xmodem_rcv + (Z * xmodem_rcv)) :=
  let* r := io (send [r_sync rx]) in
  rcv_answer rx (fst r).
Definition xmodem_rcv_pkt : xmodem_rcv -> itree commE (Z * xmodem_rcv) := ITree.iter rcv_round.

(** The result, the bytes stored at [data], the state. *)
Definition xmodem_rcv_loop (rx : xmodem_rcv) (len : Z) : itree commE (Z * list Z * xmodem_rcv) :=
  if len <=? 0 then Ret (- EINVAL, [], rx)
  else
    ITree.iter (fun rx =>
      let rem := r_data_len rx - r_data_pos rx in
      if 0 <? rem then
        let n := Z.min rem len in
        Ret (inr (n, bytes_at (3 + r_data_pos rx) n (r_pkt rx), lset data_pos (r_data_pos rx + n) rx))
      else
        let* r := xmodem_rcv_pkt rx in
        if 0 <? fst r then Ret (inl (snd r)) else Ret (inr (fst r, [], snd r))) rx.
End Xmodem.
