(* ===== verification/XmodemSnd.v ===== *)
(** * XMODEM: what the sender sends

    [script]: the exchanges of a program that sends given blocks, each until it
    is acknowledged, and then EOT. [xmodem_snd_loop] followed by
    [xmodem_snd_eot] is such a program, for the data cut into blocks and padded
    with zeros. *)

From S2P Require Import Prelude Crc Line Xmodem.
From ITree Require Import ITree ITreeFacts.
Open Scope Z_scope.
Import Xmodem.

(** ** Packet buffers *)

Lemma patch_lookup o src blk i :
  0 <= o <= zlen blk ->
  patch o src blk !! i =
    if decide (i < Z.to_nat o)%nat then blk !! i
    else if decide (i < Z.to_nat o + length src)%nat then src !! (i - Z.to_nat o)%nat else blk !! i.
Proof.
  intros Ho. unfold patch, zlen in *. case_decide as H1.
  - rewrite lookup_app_l by (rewrite length_take; lia). by rewrite lookup_take_lt.
  - rewrite lookup_app_r by (rewrite length_take; lia). rewrite length_take, Nat.min_l by lia.
    case_decide as H2.
    + by rewrite lookup_app_l by lia.
    + rewrite lookup_app_r by lia. rewrite lookup_drop. f_equal. lia.
Qed.

Lemma bytes_at_lookup o n l i :
  bytes_at o n l !! i = if decide (i < Z.to_nat n)%nat then l !! (Z.to_nat o + i)%nat else None.
Proof.
  unfold bytes_at. case_decide.
  - by rewrite lookup_take_lt, lookup_drop.
  - by rewrite lookup_take_ge by lia.
Qed.

Lemma zlen_bytes_at o n l : 0 <= o -> 0 <= n -> o + n <= zlen l -> zlen (bytes_at o n l) = n.
Proof. unfold bytes_at, zlen. intros. rewrite length_take, length_drop. lia. Qed.

(** Equality of byte lists, byte by byte. *)
Ltac bytewise := apply list_eq; intros ?i;
  repeat first [rewrite bytes_at_lookup | rewrite patch_lookup by (unfold zlen in *; lia) | rewrite lookup_app];
  repeat case_decide; try reflexivity; try (exfalso; lia).

Lemma bytes_at_keep o n o' src blk :
  0 <= o' <= zlen blk -> 0 <= o -> o' + zlen src <= o \/ o + n <= o' ->
  bytes_at o n (patch o' src blk) = bytes_at o n blk.
Proof. unfold zlen. intros Ho' Ho Hd. bytewise. Qed.

Lemma bytes_at_patch o src blk :
  0 <= o <= zlen blk -> bytes_at o (zlen src) (patch o src blk) = src.
Proof.
  intros Ho. unfold zlen in *. apply list_eq. intros i. rewrite bytes_at_lookup, patch_lookup by (unfold zlen; lia).
  repeat case_decide; try lia.
  - f_equal. lia.
  - symmetry. apply lookup_ge_None_2. lia.
Qed.

Lemma bytes_at_split o n m l :
  0 <= o -> 0 <= n -> 0 <= m -> bytes_at o (n + m) l = bytes_at o n l ++ bytes_at (o + n) m l.
Proof.
  intros. unfold bytes_at. rewrite Z2Nat.inj_add, <-take_take_drop, drop_drop by lia. do 3 f_equal. lia.
Qed.

(** Appending in the buffer. *)
Lemma bytes_at_extend o a src blk :
  0 <= o -> 0 <= a -> o + a <= zlen blk ->
  bytes_at o (a + zlen src) (patch (o + a) src blk) = bytes_at o a blk ++ src.
Proof.
  intros. pose proof (zlen_nonneg src).
  rewrite bytes_at_split, bytes_at_patch, bytes_at_keep by lia. done.
Qed.

Lemma zget_patch o x src blk : 0 <= o <= zlen blk -> zget (patch o (x :: src) blk) o = x.
Proof.
  intros Ho. unfold zget. rewrite (proj2 (Z.ltb_ge _ _)), patch_lookup by lia.
  rewrite decide_False, decide_True by (simpl; lia). by rewrite Nat.sub_diag.
Qed.

(** ** Scripts *)

Definition sync_of (st : snd_state) : Z := match st with XMODEM_SND_CRC => 67 | _ => NAK end.
Definition active (st : snd_state) : Prop := st <> XMODEM_SND_IDLE.
Definition header (sq len : Z) : list Z := [if len =? 1024 then STX else SOH; sq; u8 (Z.lnot sq)].

(** [S] sends the block and waits; once it is acknowledged, [P]. *)
Definition sends_frame (st : snd_state) (sq : Z) (blk : list Z) (P : itree commE Z -> Prop) (S : itree commE Z) : Prop :=
  exists k1 k2 k3, S ≈ Vis (send (header sq (zlen blk) ++ blk)) k1 /\
    k1 (zlen (header sq (zlen blk) ++ blk), []) ≈ Vis (send (snd_fcs st blk)) k2 /\
    k2 (zlen (snd_fcs st blk), []) ≈ Vis (recv 1 XMODEM_SND_TMOUT_MS) k3 /\
    P (k3 (1, [ACK])).
Definition sends_eot (S : itree commE Z) : Prop :=
  exists k, S ≈ Vis (send [EOT]) k /\ k (1, []) ≈ Ret 1.
Fixpoint script (st : snd_state) (sq : Z) (blks : list (list Z)) (S : itree commE Z) : Prop :=
  match blks with
  | [] => sends_eot S
  | blk :: blks => sends_frame st sq blk (script st (u8 (sq + 1)) blks) S
  end.
(** From the idle state: the receiver says first which check it wants. *)
Definition script_from (st : snd_state) (sq : Z) (blks : list (list Z)) (S : itree commE Z) : Prop :=
  match st, blks with
  | XMODEM_SND_IDLE, _ :: _ =>
    exists k, S ≈ Vis (recv 1 XMODEM_SND_TMOUT_MS) k /\
      forall st', active st' -> script st' sq blks (k (1, [sync_of st']))
  | _, _ => script st sq blks S
  end.

Lemma script_eq st sq blks S S' : S ≈ S' -> script st sq blks S -> script st sq blks S'.
Proof.
  intros E. destruct blks; simpl.
  - intros (k & Ek & ?). exists k. by rewrite <-E.
  - intros (k1 & k2 & k3 & Ek & ?). exists k1, k2, k3. by rewrite <-E.
Qed.
Lemma script_from_eq st sq blks S S' : S ≈ S' -> script_from st sq blks S -> script_from st sq blks S'.
Proof.
  intros E. destruct st, blks; try exact (script_eq _ _ _ _ _ E).
  intros (k & Ek & ?). exists k. by rewrite <-E.
Qed.

(** ** One packet *)

(** The buffer after a packet: only the header has changed. *)
Record sent (d : Z) (st : snd_state) (sx sx' : xmodem_snd) : Prop := {
  sent_seq : s_seq sx' = u8 (s_seq sx + 1);
  sent_state : s_state sx' = st;
  sent_mode : s_mode sx' = s_mode sx;
  sent_len : s_data_len sx' = s_data_len sx;
  sent_max : s_data_max sx' = s_data_max sx;
  sent_size : zlen (s_pkt sx') = zlen (s_pkt sx);
  sent_data : forall o n, d + 3 <= o -> bytes_at o n (s_pkt sx') = bytes_at o n (s_pkt sx);
}.

Lemma snd_frame_script st sx d len retry K blks :
  s_state sx = st -> active st -> 0 <= d -> 0 <= len -> 3 + d + len <= zlen (s_pkt sx) ->
  (forall sx', sent d st sx sx' -> script st (u8 (s_seq sx + 1)) blks (K (0, sx'))) ->
  script st (s_seq sx) (bytes_at (3 + d) len (s_pkt sx) :: blks) (ITree.bind (snd_frame d len retry sx) K).
Proof.
  intros Est Ha Hd Hl Hsz HK. unfold snd_frame. cbn [script]. unfold sends_frame.
  set (hdr := [_; s_seq sx; _]).
  set (sx1 := lset snd_pkt (patch d hdr (s_pkt sx)) sx).
  set (blk := bytes_at (3 + d) len (s_pkt sx)).
  assert (Hz : zlen blk = len) by (apply zlen_bytes_at; lia).
  assert (Hblk : bytes_at (d + 3) len (s_pkt sx1) = blk).
  { unfold sx1, blk. simpl. rewrite bytes_at_keep; [by rewrite Z.add_comm|lia|lia|]. left. change (zlen hdr) with 3. lia. }
  assert (Hfr : bytes_at d (len + 3) (s_pkt sx1) = header (s_seq sx) (zlen blk) ++ blk).
  { rewrite Z.add_comm, bytes_at_split, Hblk by lia. f_equal. rewrite Hz. apply (bytes_at_patch d hdr). lia. }
  rewrite Hblk. change (s_state sx1) with (s_state sx). rewrite Est.
  set (fcs := snd_fcs st blk).
  assert (Hsz1 : zlen (patch d hdr (s_pkt sx)) = zlen (s_pkt sx)).
  { apply patch_size; [lia|]. change (zlen hdr) with 3. lia. }
  do 3 eexists. split; [|split; [|split]].
  - rewrite iter_eq, bind_bind. unfold snd_round. rewrite bind_bind, bind_trigger.
    cbn [fst]. rewrite Hfr. reflexivity.
  - cbn [fst snd]. rewrite (proj2 (Z.ltb_ge _ _)) by apply zlen_nonneg.
    rewrite bind_bind, bind_trigger. reflexivity.
  - cbn [fst snd]. rewrite (proj2 (Z.ltb_ge _ _)) by apply zlen_nonneg.
    rewrite bind_bind, bind_trigger. reflexivity.
  - cbn [fst snd]. change (1 <=? 0) with false. cbn match.
    assert (Hc : zget (s_pkt (lset snd_pkt (patch d [ACK] (s_pkt sx1)) sx1)) d = ACK).
    { simpl. apply zget_patch. lia. }
    rewrite Hc. change (ACK =? ACK) with true. cbn match.
    eapply script_eq; [rewrite bind_ret_l, bind_ret_l; reflexivity|]. apply HK.
    split; try done; simpl.
    + rewrite patch_size; [done|lia|]. change (zlen [ACK]) with 1. lia.
    + intros o n Ho. rewrite !bytes_at_keep; [done|..]; try (change (zlen [ACK]) with 1);
        try (change (zlen hdr) with 3); lia.
Qed.

Lemma snd_wait_answer st d sx (K : (Z + Z) * xmodem_snd -> itree commE Z) :
  active st -> 0 <= d < zlen (s_pkt sx) ->
  exists k, ITree.bind (snd_wait d sx) K ≈ Vis (recv 1 XMODEM_SND_TMOUT_MS) k /\
    forall st', active st' ->
      k (1, [sync_of st']) ≈
        K (inr 0, lset state st' (lset snd_pkt (patch d [sync_of st'] (s_pkt sx)) sx)).
Proof.
  intros Ha Hd. eexists. split.
  - unfold snd_wait. rewrite iter_eq, bind_bind, bind_bind, bind_trigger. reflexivity.
  - intros st' Ha'. cbn [fst snd]. change (1 <? 0) with false. cbn match.
    assert (Hc : forall x, zget (s_pkt (lset snd_pkt (patch d [x] (s_pkt sx)) sx)) d = x).
    { intros x. apply zget_patch. lia. }
    rewrite Hc. destruct st'; [by destruct Ha'|..]; cbn match; cbn.
    all: rewrite !bind_ret_l; reflexivity.
Qed.

Lemma send_pkt_script sx d len K blks :
  0 <= d -> 0 <= len -> 3 + d + len <= zlen (s_pkt sx) ->
  (forall st sx', active st -> sent d st sx sx' -> script st (u8 (s_seq sx + 1)) blks (K (0, sx'))) ->
  script_from (s_state sx) (s_seq sx) (bytes_at (3 + d) len (s_pkt sx) :: blks)
    (ITree.bind (xmodem_send_pkt sx d len) K).
Proof.
  intros Hd Hl Hsz HK. unfold xmodem_send_pkt. destruct (s_state sx) eqn:Est.
  2,3: apply snd_frame_script; try done; intros sx' Hs; by apply HK.
  destruct (snd_wait_answer XMODEM_SND_CRC d sx (fun w => ITree.bind (match fst w with
    | inl code => Ret (code, snd w) | inr retry => snd_frame d len retry (snd w) end) K))
    as (k & Ek & Hk); [done|lia|].
  exists k. split; [by rewrite bind_bind|]. intros st' Ha. eapply script_eq; [symmetry; by apply Hk|].
  cbn [fst snd]. set (sx1 := lset state st' _).
  assert (Hk1 : forall o n, d + 3 <= o -> bytes_at o n (s_pkt sx1) = bytes_at o n (s_pkt sx)).
  { intros o n Ho. simpl. apply bytes_at_keep; [lia|lia|]. left. change (zlen [sync_of st']) with 1. lia. }
  assert (Hs1 : zlen (s_pkt sx1) = zlen (s_pkt sx)).
  { simpl. apply patch_size; [lia|]. change (zlen [sync_of st']) with 1. lia. }
  rewrite <-(Hk1 (3 + d) len) by lia. apply (snd_frame_script st' sx1); try done; [lia|].
  intros sx' [S1 S2 S3 S4 S5 S6 S7]. apply HK; [done|]. split; try done.
  - by rewrite S6.
  - intros o n Ho. by rewrite S7, Hk1.
Qed.

(** ** Whole transfers *)

(** What the sender has in its buffer between calls. *)
Record snd_ok (st : snd_state) (sq : Z) (mode : Z) (pend : list Z) (sx : xmodem_snd) : Prop := {
  ok_state : s_state sx = st;
  ok_seq : s_seq sx = sq;
  ok_mode : s_mode sx = mode;
  ok_max : s_data_max sx = max_of mode;
  ok_len : s_data_len sx = zlen pend;
  ok_room : zlen pend < max_of mode;
  ok_size : zlen (s_pkt sx) = 1027;
  ok_pend : bytes_at 3 (zlen pend) (s_pkt sx) = pend;
}.

Lemma max_of_cases mode : max_of mode = 128 \/ max_of mode = 1024.
Proof. unfold max_of. destruct (_ =? _); lia. Qed.

(** The state and number after [n] packets. *)
Definition later (st : snd_state) (full : list (list Z)) (st' : snd_state) : Prop :=
  match full with [] => st' = st | _ => active st' end.

Lemma script_from_active st sq blks S : active st -> script st sq blks S -> script_from st sq blks S.
Proof. destruct st; [by intros []|done..]. Qed.

Lemma u8_add a b : u8 (u8 a + b) = u8 (a + b).
Proof. unfold u8, wrap. by rewrite Zplus_mod_idemp_l. Qed.

Lemma fill_buffer st sq mode pend sx src n :
  snd_ok st sq mode pend sx -> 0 <= n <= zlen src -> zlen pend + n <= max_of mode ->
  let sx1 := snd_fill sx src n in
  zlen (s_pkt sx1) = 1027 /\ s_data_len sx1 = zlen pend + n /\ s_data_max sx1 = max_of mode /\
  s_state sx1 = st /\ s_seq sx1 = sq /\ s_mode sx1 = mode /\
  bytes_at 3 (zlen pend + n) (s_pkt sx1) = pend ++ take (Z.to_nat n) src.
Proof.
  intros [O1 O2 O3 O4 O5 O6 O7 O8] Hn Hm sx1. pose proof (max_of_cases mode). pose proof (zlen_nonneg pend).
  pose proof (zlen_take n src Hn) as Ht. unfold sx1. simpl. rewrite O5.
  split; [rewrite patch_size; lia|]. do 5 (split; [done|]).
  rewrite <-Ht at 1. rewrite bytes_at_extend, O8 by lia. done.
Qed.

Lemma script_active st sq blks S : active st -> script_from st sq blks S -> script st sq blks S.
Proof. destruct st; [by intros []|done..]. Qed.

Lemma chunk_short sx src (K : Z * xmodem_snd -> itree commE Z) :
  0 <= zlen src -> s_data_len sx + zlen src < s_data_max sx ->
  s_data_len (snd_fill sx src (zlen src)) <> s_data_max (snd_fill sx src (zlen src)) ->
  ITree.bind (ITree.iter snd_chunk (sx, src, zlen src)) K ≈ K (0, snd_fill sx src (zlen src)).
Proof.
  intros H0 Hlt Hne. rewrite iter_eq. unfold snd_chunk at 1. cbn zeta match.
  rewrite Z.min_l by lia. set (sx1 := snd_fill _ _ _) in *.
  rewrite (proj2 (Z.eqb_neq _ _) Hne), Z.sub_diag, bind_ret_l. change (0 =? 0) with true. cbn match.
  by rewrite bind_ret_l.
Qed.

Lemma chunk_full sx src n (K : Z * xmodem_snd -> itree commE Z) :
  n = s_data_max sx - s_data_len sx -> n <= zlen src ->
  s_data_len (snd_fill sx src n) = s_data_max (snd_fill sx src n) ->
  ITree.bind (ITree.iter snd_chunk (sx, src, zlen src)) K ≈
  ITree.bind (xmodem_send_pkt (snd_fill sx src n) 0 (s_data_len (snd_fill sx src n))) (fun r =>
    if fst r <? 0 then K r
    else if zlen src - n =? 0 then K (0, lset snd_len 0 (snd r))
    else ITree.bind (ITree.iter snd_chunk (lset snd_len 0 (snd r), drop (Z.to_nat n) src, zlen src - n)) K).
Proof.
  intros -> Hle Heq. rewrite iter_eq. unfold snd_chunk at 1. cbn zeta match.
  rewrite Z.min_r by lia. set (sx1 := snd_fill _ _ _) in *.
  rewrite (proj2 (Z.eqb_eq _ _) Heq), !bind_bind. apply eutt_clo_bind with (UU := eq); [reflexivity|].
  intros r _ <-. destruct (fst r <? 0).
  - rewrite !bind_ret_l. reflexivity.
  - rewrite bind_ret_l. destruct (_ =? 0); [by rewrite bind_ret_l|]. reflexivity.
Qed.

(** The rounds of [xmodem_snd_loop]: the full blocks are sent, the rest stays in
    the buffer. *)
Lemma snd_loop_script full : forall rest src st sq mode pend sx blks K,
  0 <= sq < 256 -> snd_ok st sq mode pend sx ->
  pend ++ src = concat full ++ rest -> zlen rest < max_of mode ->
  Forall (fun b => zlen b = max_of mode) full ->
  (forall st' sx', later st full st' -> snd_ok st' (u8 (sq + zlen full)) mode rest sx' ->
     script_from st' (u8 (sq + zlen full)) blks (K (0, sx'))) ->
  script_from st sq (full ++ blks) (ITree.bind (ITree.iter snd_chunk (sx, src, zlen src)) K).
Proof.
  induction full as [|b full IH]; intros rest src st sq mode pend sx blks K Hsq O Ecut Hrest Hfull HK.
  all: pose proof (max_of_cases mode) as Hmax; pose proof (zlen_nonneg pend) as Hp0;
    pose proof (zlen_nonneg src) as Hs0; pose proof (f_equal zlen Ecut) as Ez; rewrite !zlen_app in Ez;
    pose proof (ok_room _ _ _ _ _ O) as Hroom;
    pose proof (ok_len _ _ _ _ _ O) as Hlen; pose proof (ok_max _ _ _ _ _ O) as Hm.
  - change (zlen (concat [])) with 0 in Ez. simpl in Ecut.
    destruct (fill_buffer _ _ _ _ _ src (zlen src) O ltac:(lia) ltac:(lia)) as (F1 & F2 & F3 & F4 & F5 & F6 & F7).
    rewrite (take_ge src), Ecut in F7 by (unfold zlen; lia).
    eapply script_from_eq; [symmetry; apply chunk_short; lia|].
    change (zlen (@nil (list Z))) with 0 in HK. rewrite Z.add_0_r, u8_small in HK by lia.
    apply HK; [done|]. split; try done; try lia. by replace (zlen rest) with (zlen pend + zlen src) by lia.
  - apply List.Forall_cons_iff in Hfull as [Hb Hfull]. cbn [concat] in Ecut, Ez. rewrite zlen_app, Hb in Ez.
    rewrite <-app_assoc in Ecut. pose proof (zlen_nonneg (concat full)). pose proof (zlen_nonneg rest).
    set (k := max_of mode - zlen pend). assert (Hk : 0 < k <= zlen src) by lia.
    destruct (app_split _ _ _ _ k Ecut ltac:(lia) ltac:(lia)) as [Eb Erest].
    destruct (fill_buffer _ _ _ _ _ src k O ltac:(lia) ltac:(lia)) as (F1 & F2 & F3 & F4 & F5 & F6 & F7).
    replace (zlen pend + k) with (max_of mode) in F2, F7 by lia. rewrite <-Eb in F7.
    set (sx1 := snd_fill sx src k) in *.
    eapply script_from_eq; [symmetry; apply (chunk_full sx src k); [lia|lia|fold sx1; by rewrite F2, F3]|].
    fold sx1. rewrite <-F4, <-F5, <-F7, F2. cbn [app]. apply (send_pkt_script sx1 0 (max_of mode)); [lia|lia|lia|].
    rewrite F5. intros st' sx' Ha [S1 S2 S3 S4 S5 S6 S7]. cbn [fst snd]. change (0 <? 0) with false. cbn match.
    assert (O' : snd_ok st' (u8 (sq + 1)) mode [] (lset snd_len 0 sx')).
    { split; simpl; try done; change (zlen (@nil Z)) with 0.
      - by rewrite S1, F5.
      - by rewrite S3.
      - by rewrite S5.
      - lia.
      - by rewrite S6. }
    assert (HK' : forall st2 sx2, later st' full st2 -> snd_ok st2 (u8 (u8 (sq + 1) + zlen full)) mode rest sx2 ->
      script_from st2 (u8 (u8 (sq + 1) + zlen full)) blks (K (0, sx2))).
    { rewrite u8_add. replace (sq + 1 + zlen full) with (sq + zlen (b :: full)) by (rewrite zlen_cons; lia).
      intros st2 sx2 Hl. apply HK. destruct full; [simpl in Hl; by rewrite Hl|exact Hl]. }
    apply script_active; [done|]. destruct (Z.eqb_spec (zlen src - k) 0) as [E0|E0].
    + assert (concat full ++ rest = []) as En by (apply zlen_zero; rewrite zlen_app; lia).
      apply app_nil in En as [En ->].
      assert (full = []) as ->.
      { destruct full as [|b' full]; [done|]. apply List.Forall_cons_iff in Hfull as [Hb' _].
        simpl in En. apply app_nil in En as [-> _]. change (zlen (@nil Z)) with 0 in Hb'. lia. }
      change (zlen (@nil (list Z))) with 0 in HK'. rewrite Z.add_0_r, u8_small in HK' by apply u8_bound.
      by apply HK'.
    + rewrite <-(zlen_drop k) by lia. apply (IH rest _ st' (u8 (sq + 1)) mode []); try done.
      apply u8_bound.
Qed.

Lemma eot_end dm sx d rem (K : Z * xmodem_snd -> itree commE Z) :
  rem <= 0 -> (forall sx', K (1, sx') ≈ Ret 1) ->
  sends_eot (ITree.bind (ITree.iter (eot_chunk dm) (sx, d, rem)) K).
Proof.
  intros Hr HK. eexists. split.
  - rewrite iter_eq, bind_bind. unfold eot_chunk at 1. rewrite (proj2 (Z.ltb_ge _ _)) by lia.
    rewrite bind_bind, bind_trigger. reflexivity.
  - cbn [fst snd]. rewrite bind_ret_l, bind_ret_l. apply HK.
Qed.

Lemma eot_block dm sx d rem (K : Z * xmodem_snd -> itree commE Z) :
  0 < rem -> let len := Z.min rem dm in
  ITree.bind (ITree.iter (eot_chunk dm) (sx, d, rem)) K ≈
  ITree.bind (xmodem_send_pkt
    (lset snd_pkt (patch (3 + d + len) (replicate (Z.to_nat (dm - len)) 0) (s_pkt sx)) sx) d dm) (fun r =>
    if fst r <? 0 then K r else ITree.bind (ITree.iter (eot_chunk dm) (snd r, d + len, rem - len)) K).
Proof.
  intros Hr len. rewrite iter_eq. unfold eot_chunk at 1. rewrite (proj2 (Z.ltb_lt _ _)) by lia.
  fold len. rewrite !bind_bind. apply eutt_clo_bind with (UU := eq); [reflexivity|].
  intros r _ <-. destruct (fst r <? 0); rewrite !bind_ret_l; reflexivity.
Qed.

(** The rounds of [xmodem_snd_eot]: the [rest] at offset [d] is sent in blocks of
    [dm] bytes, the last one padded with [p] zeros. *)
Lemma eot_script dm blks : forall rest p st sq sx d K,
  0 < dm -> 0 <= sq < 256 -> 0 <= d ->
  concat blks = rest ++ replicate (Z.to_nat p) 0 -> 0 <= p < dm ->
  Forall (fun b => zlen b = dm) blks -> 3 + d + zlen (concat blks) <= zlen (s_pkt sx) ->
  s_state sx = st -> s_seq sx = sq -> bytes_at (3 + d) (zlen rest) (s_pkt sx) = rest ->
  (forall sx', K (1, sx') ≈ Ret 1) ->
  script_from st sq blks (ITree.bind (ITree.iter (eot_chunk dm) (sx, d, zlen rest)) K).
Proof.
  induction blks as [|b blks IH]; intros rest p st sq sx d K Hdm Hsq Hd Ecut Hp Hb Hsz Est Esq Hrest HK.
  - simpl in Ecut. symmetry in Ecut. apply app_nil in Ecut as [-> _].
    destruct st; by apply eot_end.
  - apply List.Forall_cons_iff in Hb as [Hb Hbs]. cbn [concat] in *.
    pose proof (zlen_nonneg rest) as Hr0. pose proof (zlen_nonneg (concat blks)) as Hc0.
    pose proof (f_equal zlen Ecut) as Ez. rewrite !zlen_app, zlen_replicate in Ez by lia. rewrite zlen_app in Hsz.
    assert (Hr : 0 < zlen rest) by lia.
    eapply script_from_eq; [symmetry; by apply eot_block|].
    set (len := Z.min (zlen rest) dm). set (pad := replicate (Z.to_nat (dm - len)) 0).
    assert (Hpad : zlen pad = dm - len) by (apply zlen_replicate; lia).
    set (sx1 := lset snd_pkt _ sx).
    assert (Hsz1 : zlen (s_pkt sx1) = zlen (s_pkt sx)) by (apply patch_size; lia).
    assert (Hblk : bytes_at (3 + d) dm (s_pkt sx1) = b /\ exists p', 0 <= p' < dm /\
      concat blks = drop (Z.to_nat len) rest ++ replicate (Z.to_nat p') 0).
    { assert (Hf : bytes_at (3 + d) dm (s_pkt sx1) = take (Z.to_nat len) rest ++ pad).
      { replace dm with (len + zlen pad) at 1 by lia. unfold sx1. simpl.
        rewrite bytes_at_extend by lia. f_equal.
        transitivity (take (Z.to_nat len) (bytes_at (3 + d) (zlen rest) (s_pkt sx))); [|by rewrite Hrest].
        unfold bytes_at. rewrite take_take. f_equal. lia. }
      rewrite Hf. destruct (Z_le_gt_dec dm (zlen rest)) as [Hge|Hlt].
      - assert (len = dm) as El by lia. assert (pad = []) as -> by (apply zlen_zero; lia). rewrite app_nil_r.
        destruct (app_split [] (rest ++ replicate (Z.to_nat p) 0) b (concat blks) dm) as [E1 E2];
          [done|lia|by rewrite Hb|]. simpl in E1. rewrite E1, E2, El. unfold zlen in *.
        split; [by rewrite take_app_le by lia|]. exists p. by rewrite drop_app_le by lia.
      - assert (len = zlen rest) as El by lia.
        assert (zlen (concat blks) = 0) as Ec0.
        { destruct blks as [|b' blks]; [done|]. apply List.Forall_cons_iff in Hbs as [Hb' _].
          cbn [concat] in *. rewrite zlen_app in *. pose proof (zlen_nonneg (concat blks)). lia. }
        apply zlen_zero in Ec0 as Ec. rewrite Ec, app_nil_r in Ecut. rewrite Ec. split.
        + rewrite Ecut. unfold pad. rewrite El. replace (dm - zlen rest) with p by lia.
          unfold zlen. by rewrite Nat2Z.id, firstn_all.
        + exists 0. rewrite El. unfold zlen. by rewrite Nat2Z.id, drop_all. }
    destruct Hblk as [Hblk (p' & Hp' & Ec)].
    assert (zlen (drop (Z.to_nat len) rest) = zlen rest - len) as Hdr by (apply zlen_drop; lia).
    change (s_state sx) with (s_state sx1) in Est. change (s_seq sx) with (s_seq sx1) in Esq.
    rewrite <-Est, <-Esq, <-Hblk. apply (send_pkt_script sx1 d dm); [done|lia|lia|].
    intros st' sx' Ha [S1 S2 S3 S4 S5 S6 S7]. cbn [fst snd]. change (0 <? 0) with false. cbn match.
    apply script_active; [done|]. rewrite <-Hdr. rewrite Esq.
    apply (IH _ p'); try done.
    + apply u8_bound.
    + lia.
    + lia.
    + by rewrite S1, Esq.
    + rewrite S7 by lia. unfold sx1. simpl. rewrite Hdr.
      rewrite bytes_at_keep by lia. 
      transitivity (drop (Z.to_nat len) (bytes_at (3 + d) (zlen rest) (s_pkt sx))); [|by rewrite Hrest].
      unfold bytes_at. rewrite skipn_firstn_comm, drop_drop. f_equal; [lia|]. f_equal. lia.
Qed.

(** ** The whole transfer *)

Lemma cut_blocks m n : forall l : list Z, 0 < m -> (length l <= n)%nat ->
  exists full rest, l = concat full ++ rest /\ zlen rest < m /\ Forall (fun b => zlen b = m) full.
Proof.
  induction n as [n IH] using lt_wf_ind. intros l Hm Hl.
  destruct (Z_lt_le_dec (zlen l) m) as [Hlt|Hge]; [by exists [], l|].
  destruct (IH (n - 1)%nat ltac:(unfold zlen in *; lia) (drop (Z.to_nat m) l) Hm) as (full & rest & E & Hr & Hf).
  { rewrite length_drop. unfold zlen in *. lia. }
  exists (take (Z.to_nat m) l :: full), rest. split; [|split; [done|]].
  - cbn [concat]. by rewrite <-app_assoc, <-E, take_drop.
  - constructor; [|done]. apply zlen_take. lia.
Qed.

Lemma zlen_concat m (blks : list (list Z)) :
  Forall (fun b => zlen b = m) blks -> zlen (concat blks) = zlen blks * m.
Proof. induction 1 as [|b blks Hb _ IH]; [done|]. cbn [concat]. rewrite zlen_app, zlen_cons. lia. Qed.

(** A whole number of blocks. *)
Lemma cut_exact m (l : list Z) :
  0 < m -> zlen l mod m = 0 -> exists blks, l = concat blks /\ Forall (fun b => zlen b = m) blks.
Proof.
  intros Hm Hl. destruct (cut_blocks m (length l) l Hm) as (full & rest & -> & Hr & Hf); [lia|].
  exists full. split; [|done]. rewrite zlen_app, (zlen_concat m) in Hl by done.
  rewrite Z.add_comm, Z_mod_plus_full, Z.mod_small in Hl by (pose proof (zlen_nonneg rest); lia).
  by rewrite (zlen_zero _ Hl), app_nil_r.
Qed.

Definition padding (n : Z) : list Z := replicate (Z.to_nat (- n mod 128)) 0.

(** A client of the sender: one buffer of data, then the end. *)
Definition xmodem_put (sx : xmodem_snd) (data : list Z) : itree commE Z :=
  let* r := xmodem_snd_loop sx data (zlen data) in
  if fst r <? 0 then Ret (fst r)
  else let* q := xmodem_snd_eot (snd r) in Ret (fst q).

Lemma tail_blocks mode rest :
  zlen rest < max_of mode ->
  let dm := if zlen rest <=? 1024 - 128 then 128 else max_of mode in
  exists p blks, concat blks = rest ++ replicate (Z.to_nat p) 0 /\ 0 <= p < dm /\ p = - zlen rest mod 128 /\
    Forall (fun b => zlen b = dm) blks /\ zlen (concat blks) <= 1024 /\ (dm = 128 \/ dm = 1024).
Proof.
  intros Hr dm. pose proof (max_of_cases mode) as Hmax. pose proof (zlen_nonneg rest) as Hr0.
  assert (Hdm : dm = 128 \/ (dm = 1024 /\ 896 < zlen rest)).
  { unfold dm. destruct (Z.leb_spec (zlen rest) (1024 - 128)); lia. }
  set (p := - zlen rest mod 128). assert (Hp : 0 <= p < 128) by (by apply Z.mod_pos_bound).
  assert (Hdiv : exists k, zlen rest + p = dm * k /\ 0 <= k /\ dm * k <= 1024).
  { assert (exists j, zlen rest + p = 128 * j) as [j Ej].
    { exists ((zlen rest + p) / 128). apply Z_div_exact_full_2; [done|]. unfold p.
      rewrite Zplus_mod_idemp_r. replace (zlen rest + - zlen rest) with 0 by lia. done. }
    destruct Hdm as [->|[-> H896]].
    - exists j. lia.
    - exists 1. lia. }
  destruct Hdiv as (k & Ek & Hk & Hk').
  assert (zlen (replicate (Z.to_nat p) 0) = p) as Hz by (apply zlen_replicate; lia).
  destruct (cut_exact dm (rest ++ replicate (Z.to_nat p) 0)) as (blks & Eb & Hb).
  - lia.
  - rewrite zlen_app, Hz, Ek, Z.mul_comm. apply Z_mod_mult.
  - exists p, blks. split; [done|]. split; [lia|]. split; [done|]. split; [done|]. split; [|lia].
    rewrite <-Eb, zlen_app, Hz. lia.
Qed.

Lemma put_script mode pkt data :
  zlen pkt = 1027 ->
  exists blks, concat blks = data ++ padding (zlen data) /\
    Forall (fun b => zlen b = 128 \/ zlen b = 1024) blks /\
    script_from XMODEM_SND_IDLE 1 blks (xmodem_put (snd_reset mode pkt) data).
Proof.
  intros Hpkt. pose proof (max_of_cases mode) as Hmax.
  destruct (cut_blocks (max_of mode) (length data) data) as (full & rest & Ed & Hrest & Hfull); [lia|done|].
  pose proof (tail_blocks mode rest Hrest) as Ht. cbv zeta in Ht.
  set (dm := if zlen rest <=? 1024 - 128 then 128 else max_of mode) in *.
  destruct Ht as (p & blks & Eb & Hp & Ep & Hb & Hsz & Hdm).
  exists (full ++ blks). split; [|split].
  - rewrite concat_app, Eb, app_assoc, <-Ed. f_equal. unfold padding. do 2 f_equal.
    pose proof (f_equal zlen Ed) as Ez. rewrite zlen_app, (zlen_concat _ _ Hfull) in Ez. rewrite Ep, Ez.
    destruct Hmax as [->| ->]; [|replace 1024 with (8 * 128) by done].
    + replace (- (zlen full * 128 + zlen rest)) with (- zlen rest + (- zlen full) * 128) by lia.
      by rewrite Z_mod_plus_full.
    + replace (- (zlen full * (8 * 128) + zlen rest)) with (- zlen rest + (- zlen full * 8) * 128) by lia.
      by rewrite Z_mod_plus_full.
  - apply List.Forall_app. split; (eapply List.Forall_impl; [|done]); intros b Hbl; simpl in Hbl; lia.
  - unfold xmodem_put, xmodem_snd_loop. rewrite (proj2 (Z.ltb_ge _ _)) by apply zlen_nonneg.
    apply (snd_loop_script full rest data _ 1 mode []); try done.
    + split; try done; change (zlen (@nil Z)) with 0; lia.
    + intros st' sx' Hl O. cbn [fst snd]. change (0 <? 0) with false. cbn match. unfold xmodem_snd_eot.
      rewrite (ok_len _ _ _ _ _ O), (ok_max _ _ _ _ _ O). fold dm.
      apply (eot_script dm blks rest p); try done.
      * lia.
      * apply u8_bound.
      * rewrite (ok_size _ _ _ _ _ O). lia.
      * apply (ok_state _ _ _ _ _ O).
      * apply (ok_seq _ _ _ _ _ O).
      * apply (ok_pend _ _ _ _ _ O).
Qed.
