(* ===== verification/XmodemRcv.v ===== *)
(** * XMODEM: what the receiver does with it

    The receiver and a client that collects what it delivers, as equations
    between interaction trees; then the two ends of the line together. *)

From S2P Require Import Prelude Crc Line Xmodem XmodemSnd.
From ITree Require Import ITree ITreeFacts.
Open Scope Z_scope.
Import Xmodem.

(** A client of the receiver: it asks for [blen] bytes at a time until it gets
    none. *)
Definition get_round (blen : Z) (x : xmodem_rcv * list Z) :
    itree commE ((xmodem_rcv * list Z) + (Z * list Z)) :=
  let* r := xmodem_rcv_loop (fst x) blen in
  if 0 <? fst (fst r) then Ret (inl (snd r, snd x ++ snd (fst r))) else Ret (inr (fst (fst r), snd x)).
Definition xmodem_get (rx : xmodem_rcv) (blen : Z) (acc : list Z) : itree commE (Z * list Z) :=
  ITree.iter (get_round blen) (rx, acc).

Section receiver.
Variable blen : Z.
Hypothesis Hblen : 0 < blen.

(** ** Delivery *)

Lemma get_deliver rx acc n :
  0 < r_data_len rx - r_data_pos rx -> n = Z.min (r_data_len rx - r_data_pos rx) blen ->
  xmodem_get rx blen acc ≈
  xmodem_get (lset data_pos (r_data_pos rx + n) rx) blen
    (acc ++ bytes_at (3 + r_data_pos rx) n (r_pkt rx)).
Proof.
  intros Hr ->. unfold xmodem_get at 1. rewrite iter_eq. unfold get_round at 1. cbn [fst snd].
  unfold xmodem_rcv_loop. rewrite (proj2 (Z.leb_gt _ _)) by lia. rewrite iter_eq.
  rewrite (proj2 (Z.ltb_lt _ _)) by lia. cbn zeta. rewrite !bind_ret_l. cbn [fst snd].
  rewrite (proj2 (Z.ltb_lt _ _)) by lia. rewrite bind_ret_l. reflexivity.
Qed.

Lemma get_delivers n : forall rx acc,
  0 <= r_data_pos rx <= r_data_len rx -> r_data_len rx - r_data_pos rx <= Z.of_nat n ->
  xmodem_get rx blen acc ≈
  xmodem_get (lset data_pos (r_data_len rx) rx) blen
    (acc ++ bytes_at (3 + r_data_pos rx) (r_data_len rx - r_data_pos rx) (r_pkt rx)).
Proof.
  induction n as [|n IH]; intros rx acc Hp Hn.
  all: destruct (Z.eq_dec (r_data_pos rx) (r_data_len rx)) as [E|E];
    [rewrite E, Z.sub_diag, app_nil_r; destruct rx; simpl in *; subst; reflexivity|].
  { lia. }
  rewrite get_deliver by (reflexivity || lia). set (k := Z.min _ _). rewrite IH by (simpl; lia). simpl.
  rewrite <-app_assoc. replace (r_data_len rx - r_data_pos rx) with (k + (r_data_len rx - (r_data_pos rx + k))) by lia.
  rewrite bytes_at_split by lia. rewrite Z.add_assoc. reflexivity.
Qed.

(** What the client does with the result of [xmodem_rcv_pkt]. *)
Definition got (acc : list Z) (r : Z * xmodem_rcv) : itree commE (Z * list Z) :=
  if 0 <? fst r then xmodem_get (snd r) blen acc else Ret (fst r, acc).

Lemma get_next rx acc :
  r_data_len rx - r_data_pos rx <= 0 ->
  xmodem_get rx blen acc ≈ ITree.bind (xmodem_rcv_pkt rx) (got acc).
Proof.
  intros Hr. unfold xmodem_get at 1. rewrite iter_eq. unfold get_round at 1. cbn [fst snd].
  unfold xmodem_rcv_loop at 1. rewrite (proj2 (Z.leb_gt _ _)) by lia. rewrite iter_eq.
  rewrite (proj2 (Z.ltb_ge _ _)) by lia. rewrite !bind_bind.
  apply eutt_clo_bind with (UU := eq); [reflexivity|]. intros r _ <-. unfold got.
  destruct (0 <? fst r) eqn:E; rewrite bind_ret_l.
  - unfold xmodem_get. rewrite (iter_eq (get_round blen)). unfold get_round at 2. cbn [fst snd].
    unfold xmodem_rcv_loop. rewrite (proj2 (Z.leb_gt _ _)) by lia. rewrite bind_bind. reflexivity.
  - rewrite !bind_ret_l. cbn [fst snd]. rewrite E, bind_ret_l. reflexivity.
Qed.

(** ** One packet *)

(** The receiver has sent its byte and waits for a packet. *)
Definition listening (rx : xmodem_rcv) (acc : list Z) : itree commE (Z * list Z) :=
  ITree.bind (rcv_answer rx 1) (fun lr =>
    match lr with inl rx' => ITree.bind (xmodem_rcv_pkt rx') (got acc) | inr r => got acc r end).

Lemma rcv_pkt_sync rx acc :
  exists k, ITree.bind (xmodem_rcv_pkt rx) (got acc) ≈ Vis (send [r_sync rx]) k /\ k (1, []) ≈ listening rx acc.
Proof.
  eexists. split.
  - unfold xmodem_rcv_pkt. rewrite iter_eq. unfold rcv_round at 1. rewrite !bind_bind, bind_trigger. reflexivity.
  - cbn [fst]. unfold listening. rewrite ?bind_bind. apply eutt_clo_bind with (UU := eq); [reflexivity|].
    intros [rx'|r] _ <-; [reflexivity|]. by rewrite bind_ret_l.
Qed.

(** The rest of [rcv_answer] after a header byte that begins a packet. *)
Definition filling (rx : xmodem_rcv) (acc : list Z) (cnt : Z) : itree commE (Z * list Z) :=
  ITree.bind (rcv_fill rx (cnt + (if r_mode rx =? 0 then 3 else 4))) (fun f =>
    ITree.bind (match fst f with
      | Some (Failed code) => Ret (inr (code, snd f))
      | Some _ => rcv_timeout (snd f)
      | None => rcv_check (snd f) cnt
      end) (fun lr =>
    match lr with inl rx' => ITree.bind (xmodem_rcv_pkt rx') (got acc) | inr r => got acc r end)).

Lemma listening_hears rx acc :
  0 < zlen (r_pkt rx) ->
  exists k, listening rx acc ≈ Vis (recv 1 XMODEM_RCV_TMOUT_MS) k /\
    let heard c := lset rcv_pkt (patch 0 [c] (r_pkt rx)) rx in
    k (1, [SOH]) ≈ filling (heard SOH) acc 128 /\
    k (1, [STX]) ≈ filling (heard STX) acc 1024 /\
    exists k', k (1, [EOT]) ≈ Vis (send [ACK]) k' /\ k' (1, []) ≈ Ret (0, acc).
Proof.
  intros Hz. eexists. split; [|cbv zeta; split; [|split]].
  - unfold listening, rcv_answer. change (1 <? 0) with false. cbn match.
    unfold rcv_header. rewrite iter_eq, !bind_bind, bind_trigger. reflexivity.
  - cbn [fst snd]. change (1 =? THINKOS_ETIMEDOUT) with false. change (1 <? 0) with false. cbn match.
    cbn [r_pkt lset rcv_pkt]. rewrite zget_patch by lia. cbn. rewrite !bind_ret_l. cbn [fst snd].
    rewrite bind_bind. reflexivity.
  - cbn [fst snd]. change (1 =? THINKOS_ETIMEDOUT) with false. change (1 <? 0) with false. cbn match.
    cbn [r_pkt lset rcv_pkt]. rewrite zget_patch by lia. cbn. rewrite !bind_ret_l. cbn [fst snd].
    rewrite bind_bind. reflexivity.
  - cbn [fst snd]. change (1 =? THINKOS_ETIMEDOUT) with false. change (1 <? 0) with false. cbn match.
    cbn [r_pkt lset rcv_pkt]. rewrite zget_patch by lia. cbn. eexists. split.
    + rewrite !bind_ret_l. cbn [fst snd]. rewrite bind_bind, bind_trigger. reflexivity.
    + cbn. rewrite bind_ret_l. reflexivity.
Qed.

(** ** Both ends *)

Implicit Types (S : itree commE Z).

Lemma patch_patch pos bs todo blk :
  0 <= pos -> pos + zlen bs + zlen todo <= zlen blk ->
  patch (pos + zlen bs) todo (patch pos bs blk) = patch pos (bs ++ todo) blk.
Proof.
  intros Hp Hs. pose proof (zlen_nonneg bs). pose proof (zlen_nonneg todo). apply list_eq. intros i.
  rewrite !patch_lookup; rewrite ?patch_size; try lia.
  rewrite lookup_app, length_app. unfold zlen in *. repeat case_decide; try lia; try done.
  - destruct (bs !! (i - Z.to_nat pos)%nat) eqn:E; [done|]. apply lookup_ge_None_1 in E. lia.
  - rewrite (lookup_ge_None_2 bs) by lia. f_equal. lia.
Qed.

(** The receiver reads [todo], however it arrives. *)
Lemma fill_sys Q n tmo k F m : forall todo S c rx pos,
  zlen todo <= Z.of_nat m -> feeds S n tmo k todo c ->
  0 <= pos -> pos + zlen todo <= zlen (r_pkt rx) ->
  (forall S', S' ≈ Vis (recv n tmo) k ->
     always THINKOS_ETIMEDOUT Q (Cfg S' (F (None, lset rcv_pkt (patch pos todo (r_pkt rx)) rx)) [] [])) ->
  always THINKOS_ETIMEDOUT Q (Cfg S (ITree.bind (ITree.iter (fun x : xmodem_rcv * Z * Z =>
    let '(rx, rem, pos) := x in
    if rem =? 0 then Ret (inr (None, rx))
    else
      let* r := io (recv rem 500) in
      let rx := lset rcv_pkt (patch pos (snd r) (r_pkt rx)) rx in
      if fst r =? THINKOS_ETIMEDOUT then Ret (inr (Some Timeout, rx))
      else if fst r <? 0 then Ret (inr (Some (Failed (fst r)), rx))
      else Ret (inl (rx, rem - fst r, pos + fst r))) (rx, zlen todo, pos)) F : itree commE (Z * list Z)) c []).
Proof.
  induction m as [|m IH]; intros todo S c rx pos Hm HF Hp Hs Hall.
  all: destruct todo as [|x todo'];
    [apply feeds_nothing in HF as [ES ->]; eapply always_eq; [apply (Hall S ES)|reflexivity|];
     rewrite iter_eq; change (zlen (@nil Z) =? 0) with true; cbn match; rewrite !bind_ret_l;
     unfold patch; simpl; rewrite Nat.add_0_r, take_drop; by destruct rx|].
  { pose proof (zlen_nonneg todo'). rewrite zlen_cons in Hm. lia. }
  set (todo := x :: todo') in *. assert (Hne : todo <> []) by done.
  assert (H0 : 0 < zlen todo) by (unfold todo; rewrite zlen_cons; pose proof (zlen_nonneg todo'); lia).
  clearbody todo. eapply always_eq; [|reflexivity|].
  2:{ symmetry. rewrite iter_eq. rewrite (proj2 (Z.eqb_neq _ _)) by lia.
      rewrite !bind_bind, bind_trigger. reflexivity. }
  eapply (always_snd_recv _ _ _ _ _ todo); [exact HF|done|reflexivity|lia|].
  intros S' c' bs rest -> Hbs HF'. cbn [fst snd].
  assert ((zlen bs =? THINKOS_ETIMEDOUT) = false) as E1 by (apply Z.eqb_neq; unfold THINKOS_ETIMEDOUT; lia).
  assert ((zlen bs <? 0) = false) as E2 by (apply Z.ltb_ge; lia).
  rewrite zlen_app in *. pose proof (zlen_nonneg rest).
  eapply always_eq; [eapply (IH rest S' c' (lset rcv_pkt (patch pos bs (r_pkt rx)) rx) (pos + zlen bs))|reflexivity|].
  - lia.
  - exact HF'.
  - lia.
  - simpl. rewrite patch_size; lia.
  - intros S2 ES2. simpl. rewrite patch_patch by lia. by apply Hall.
  - rewrite E1, E2. rewrite bind_ret_l. replace (zlen bs + zlen rest - zlen bs) with (zlen rest) by lia.
    reflexivity.
Qed.

(** ** A correct packet is accepted *)

Definition mode_st (mode : Z) : snd_state := if mode =? 0 then XMODEM_SND_CKS else XMODEM_SND_CRC.
Lemma mode_active mode : active (mode_st mode).
Proof. unfold mode_st. by destruct (_ =? _). Qed.

Lemma zget_front l pkt i : 0 <= i < zlen l -> zlen l <= zlen pkt -> zget (patch 0 l pkt) i = zget l i.
Proof.
  intros Hi Hl. unfold zget. rewrite (proj2 (Z.ltb_ge _ _)), patch_lookup by lia.
  rewrite decide_False, decide_True by (unfold zlen in *; lia). by rewrite Nat.sub_0_r.
Qed.

Lemma zget_app_r (l l' : list Z) i : 0 <= i -> zget (l ++ l') (zlen l + i) = zget l' i.
Proof.
  intros Hi. unfold zget, zlen. rewrite !(proj2 (Z.ltb_ge _ _)) by lia.
  rewrite lookup_app_r by lia. do 2 f_equal. lia.
Qed.

Lemma complement_ok sq : 0 <= sq < 256 -> (sq =? Z.land (Z.lnot (u8 (Z.lnot sq))) 0xff) = true.
Proof.
  intros Hs. apply Z.eqb_eq. change 0xff with (Z.ones 8). rewrite Z.land_ones by lia.
  unfold u8, wrap, Z.lnot. change (2 ^ 8) with 256. lia.
Qed.

Lemma crc_bytes x : 0 <= x < 2 ^ 16 ->
  u16 (Z.lor (Z.shiftl (Z.shiftr x 8) 8) (Z.land x 0xff)) = x.
Proof.
  intros Hx. assert (Z.lor (Z.shiftl (Z.shiftr x 8) 8) (Z.land x 0xff) = x) as ->; [|by apply u16_small].
  apply Z.bits_inj'. intros i Hi. rewrite Z.lor_spec, Z.land_spec. change 0xff with (Z.ones 8).
  destruct (Z_lt_le_dec i 8).
  - rewrite Z.shiftl_spec_low, Z.ones_spec_low, andb_true_r by lia. done.
  - rewrite Z.shiftl_spec_high, Z.shiftr_spec, Z.ones_spec_high, andb_false_r, orb_false_r by lia.
    f_equal. lia.
Qed.

Lemma crc_of_bound l : 0 <= crc_of l < 2 ^ 16.
Proof.
  unfold crc_of. induction l as [|x l _] using rev_ind; [done|]. rewrite foldl_snoc. apply u16_bound.
Qed.

Lemma frame_accepted mode sq blk pkt :
  0 <= sq < 256 -> zlen blk + 5 <= zlen pkt ->
  let full := patch 0 (header sq (zlen blk) ++ blk ++ snd_fcs (mode_st mode) blk) pkt in
  frame_ok mode (zlen blk) full = true /\ zget full 1 = sq /\ bytes_at 3 (zlen blk) full = blk.
Proof.
  intros Hsq Hsz full. pose proof (zlen_nonneg blk) as Hb.
  set (fcs := snd_fcs (mode_st mode) blk). set (l := header sq (zlen blk) ++ blk ++ fcs).
  assert (Hf : zlen fcs = if mode =? 0 then 1 else 2) by (unfold fcs, mode_st; by destruct (mode =? 0)).
  assert (Hl : zlen l = 3 + zlen blk + zlen fcs) by (unfold l; rewrite !zlen_app; change (zlen (header sq (zlen blk))) with 3; lia).
  pose proof (zlen_nonneg fcs) as Hf0.
  assert (Hle : zlen l <= zlen pkt) by (rewrite Hl, Hf; destruct (mode =? 0); lia).
  assert (Hg : forall i, 0 <= i < zlen l -> zget full i = zget l i) by (intros; by apply zget_front).
  assert (Hfc : forall i, 0 <= i < zlen fcs -> zget full (3 + (zlen blk + i)) = zget fcs i).
  { intros i Hi. rewrite Hg by lia. unfold l. change 3 with (zlen (header sq (zlen blk))).
    rewrite zget_app_r by lia. by rewrite zget_app_r by lia. }
  assert (Hdata : bytes_at 3 (zlen blk) full = blk).
  { unfold full. fold fcs l. apply list_eq. intros i. rewrite bytes_at_lookup, patch_lookup by lia.
    unfold zlen in Hl. repeat case_decide; try (unfold zlen in *; lia).
    - unfold l. rewrite !lookup_app. unfold zlen in *. destruct (header _ _ !! _) eqn:E; [apply lookup_lt_Some in E; simpl in E; lia|].
      replace (Z.to_nat 3 + i - Z.to_nat 0 - length (header sq (Z.of_nat (length blk))))%nat with i by (simpl; lia).
      destruct (blk !! i) eqn:E2; [done|]. apply lookup_ge_None_1 in E2. lia.
    - symmetry. apply lookup_ge_None_2. unfold zlen in *. lia. }
  assert (Hsq1 : zget full 1 = sq) by (rewrite Hg by lia; done).
  split; [|done]. unfold frame_ok. rewrite Hdata, Hsq1.
  rewrite (Hg 2) by lia. change (zget l 2) with (u8 (Z.lnot sq)). rewrite complement_ok by done.
  unfold fcs, mode_st in Hfc, Hf. destruct (mode =? 0).
  - cbn [snd_fcs] in *. pose proof (Hfc 0 ltac:(lia)) as H1. rewrite Z.add_0_r in H1. rewrite H1.
    by rewrite Z.eqb_refl.
  - cbn [snd_fcs] in *. pose proof (Hfc 0 ltac:(lia)) as H1. rewrite Z.add_0_r in H1.
    rewrite H1, (Hfc 1) by lia. change (zget _ 0) with (Z.shiftr (crc_of blk) 8).
    change (zget _ 1) with (Z.land (crc_of blk) 0xff). rewrite crc_bytes by apply crc_of_bound.
    by rewrite Z.eqb_refl.
Qed.

Lemma number_not_previous sq : 0 <= sq < 256 -> (sq =? Z.land (sq - 1) 0xff) = false.
Proof.
  intros Hs. apply Z.eqb_neq. change 0xff with (Z.ones 8). rewrite Z.land_ones by lia.
  change (2 ^ 8) with 256. lia.
Qed.

Lemma number_next sq : Z.land (sq + 1) 0xff = u8 (sq + 1).
Proof. change 0xff with (Z.ones 8). by rewrite Z.land_ones by lia. Qed.
End receiver.
