(* ===== verification/XmodemSafe.v ===== *)
(** * XMODEM: the receiver against any partner

    What [xmodem_rcv_pkt] accepts, whatever arrives on the line and whatever
    [send] and [recv] return, and that it never writes outside of its buffer. *)

From S2P Require Import Prelude Crc Line Xmodem XmodemSnd.
From ITree Require Import ITree ITreeFacts.
Open Scope Z_scope.
Import Xmodem.

(** The bytes received in an exchange. *)
Fixpoint received (tr : list event) : list Z :=
  match tr with
  | [] => []
  | Sent _ _ :: tr => received tr
  | Got _ _ _ bs :: tr => bs ++ received tr
  end.

Lemma received_app tr1 tr2 : received (tr1 ++ tr2) = received tr1 ++ received tr2.
Proof. induction tr1 as [|[] tr1 IH]; simpl; [done|done|]. by rewrite IH, app_assoc. Qed.

(** The fields a failed round leaves alone, and the size of the buffer. *)
Definition kept (rx rx' : xmodem_rcv) : Prop :=
  r_mode rx' = r_mode rx /\ r_pktno rx' = r_pktno rx /\ zlen (r_pkt rx') = 1029.

Lemma kept_trans rx1 rx2 rx3 : kept rx1 rx2 -> kept rx2 rx3 -> kept rx1 rx3.
Proof. unfold kept. intros (-> & -> & _) (-> & -> & ?). done. Qed.

(** Split a run at its first call; a call to [recv]; a run that has ended. *)
Ltac run_bind H R := let tr1 := fresh "tr" in let tr2 := fresh "tr" in let a := fresh "a" in
  apply runs_bind_inv in H as (tr1 & tr2 & a & -> & R & H).
Ltac run_recv H := let R := fresh "R" in let Hb := fresh "Hb" in let Hr := fresh "Hr" in
  run_bind H R; apply runs_call_recv in R as (-> & Hb & Hr).
Ltac run_ret H := apply runs_ret_inv in H as [H ->]; simplify_eq.
(** Every branch of the code in a run. *)
Ltac run_cases H := repeat match type of H with
  | runs (if ?b then _ else _) _ _ => let E := fresh "E" in destruct b eqn:E
  end; run_ret H.

Lemma flush_kept o : 0 <= o -> forall pkt tr pkt',
  runs (flush o pkt) tr pkt' -> o + 1024 <= zlen pkt -> zlen pkt' = zlen pkt.
Proof.
  intros Ho. unfold flush.
  apply (runs_iter _ (fun pkt _ pkt' => o + 1024 <= zlen pkt -> zlen pkt' = zlen pkt)).
  - intros i tr' i' R. run_recv R. done.
  - intros i tr' a R Hz. run_recv R. run_cases R. rewrite patch_size; lia.
  - intros i tr1 i' tr2 a R IH Hz. run_recv R. run_cases R.
    assert (zlen (patch o (snd a0) i) = zlen i) as Hp by (rewrite patch_size; lia). rewrite IH; lia.
Qed.

Lemma timeout_kept rx tr x :
  zlen (r_pkt rx) = 1029 -> runs (rcv_timeout rx) tr x ->
  match x with inl rx' => kept rx rx' | inr (n, _) => n = -1 end.
Proof.
  intros Hz R. unfold rcv_timeout in R. destruct (_ =? 0).
  - run_bind R R0. by run_ret R.
  - by run_ret R.
Qed.

Lemma error_kept rx tr x :
  zlen (r_pkt rx) = 1029 -> runs (rcv_error rx) tr x ->
  match x with inl rx' => kept rx rx' | inr (n, _) => n = -1 end.
Proof.
  intros Hz R. unfold rcv_error in R. run_bind R R0.
  apply flush_kept in R0; [|lia|lia].
  apply timeout_kept in R; [|simpl; lia]. destruct x as [rx'|[n ?]]; done.
Qed.

(** ** The two reading loops *)

Lemma header_kept rx tr x :
  runs (rcv_header rx) tr x -> zlen (r_pkt rx) = 1029 ->
  kept rx (snd x) /\ (forall cnt, fst x = Begin cnt -> cnt = 128 \/ cnt = 1024) /\
  (forall code, fst x = Failed code -> code < 0).
Proof.
  unfold rcv_header. revert rx tr x.
  apply (runs_iter _ (fun rx _ x => zlen (r_pkt rx) = 1029 ->
    kept rx (snd x) /\ (forall cnt, fst x = Begin cnt -> cnt = 128 \/ cnt = 1024) /\
    (forall code, fst x = Failed code -> code < 0))).
  - intros i tr i' R. run_recv R. done.
  - intros rx tr x R Hz. run_recv R.
    assert (zlen (patch 0 (snd a) (r_pkt rx)) = 1029) by (rewrite patch_size; lia).
    run_cases R; (split; [done|split; intros ? ?; simplify_eq/=; lia]).
  - intros rx tr1 rx1 tr2 x R IH Hz. run_recv R.
    assert (zlen (patch 0 (snd a) (r_pkt rx)) = 1029) as Hp by (rewrite patch_size; lia).
    run_cases R. destruct (IH Hp) as [Hk Hc]. split; [|done]. eapply kept_trans; [|exact Hk]. done.
Qed.

(** A round of [rcv_fill] stores what it received at its offset. *)
Lemma fill_round_inv rx rem pos tr x :
  runs (fill_round (rx, rem, pos)) tr x ->
  0 <= rem -> 1 <= pos -> pos + rem <= 1029 -> zlen (r_pkt rx) = 1029 ->
  match x with
  | inl (rx', rem', pos') =>
    kept rx rx' /\ tr <> [] /\ exists bs, received tr = bs /\ r_pkt rx' = patch pos bs (r_pkt rx) /\
      rem' = rem - zlen bs /\ pos' = pos + zlen bs /\ zlen bs <= rem
  | inr (None, rx') => rem = 0 /\ rx' = rx /\ tr = []
  | inr (Some h, rx') => kept rx rx' /\ (forall code, h = Failed code -> code < 0) /\
      bytes_at 1 (pos - 1) (r_pkt rx') = bytes_at 1 (pos - 1) (r_pkt rx)
  end.
Proof.
  intros R H1 H2 H3 Hz. unfold fill_round in R. destruct (Z.eqb_spec rem 0) as [E|E].
  { by run_ret R. }
  run_recv R. cbv zeta in R.
  assert (zlen (patch pos (snd a) (r_pkt rx)) = 1029) as Hp by (rewrite patch_size; lia).
  assert (bytes_at 1 (pos - 1) (patch pos (snd a) (r_pkt rx)) = bytes_at 1 (pos - 1) (r_pkt rx))
    by (apply bytes_at_keep; lia).
  run_cases R.
  - by repeat split.
  - split; [done|]. split; [|done]. intros ? [= <-]. lia.
  - split; [done|]. split; [done|]. exists (snd a). simpl. rewrite app_nil_r. repeat split; lia.
Qed.

Lemma patched_prefix pos bs blk blk' :
  1 <= pos -> pos + zlen bs <= zlen blk -> zlen blk' = zlen blk ->
  bytes_at 1 (pos + zlen bs - 1) blk' = bytes_at 1 (pos + zlen bs - 1) (patch pos bs blk) ->
  bytes_at 1 (pos - 1) blk' = bytes_at 1 (pos - 1) blk /\ bytes_at pos (zlen bs) blk' = bs.
Proof.
  intros Hp Hb Hz. pose proof (zlen_nonneg bs).
  replace (pos + zlen bs - 1) with ((pos - 1) + zlen bs) by lia.
  rewrite !(bytes_at_split 1 (pos - 1)) by lia. replace (1 + (pos - 1)) with pos by lia.
  rewrite bytes_at_patch, bytes_at_keep by lia. intros E. apply app_inj_1 in E; [done|].
  apply Nat2Z.inj. change (zlen (bytes_at 1 (pos - 1) blk') = zlen (bytes_at 1 (pos - 1) blk)).
  rewrite !zlen_bytes_at by lia. done.
Qed.

(** [rcv_fill] that comes to its end has stored what it received, byte for
    byte, from the offset 1 on. *)
Lemma fill_kept rx rem tr x :
  runs (rcv_fill rx rem) tr x -> 0 <= rem <= 1028 -> zlen (r_pkt rx) = 1029 ->
  kept rx (snd x) /\ (forall code, fst x = Some (Failed code) -> code < 0) /\
  (fst x = None -> received tr = bytes_at 1 rem (r_pkt (snd x))).
Proof.
  pose (P := fun (y : xmodem_rcv * Z * Z) tr (x : option heard * xmodem_rcv) =>
    let '(rx, rem, pos) := y in
    0 <= rem -> 1 <= pos -> pos + rem <= 1029 -> zlen (r_pkt rx) = 1029 ->
    kept rx (snd x) /\ (forall code, fst x = Some (Failed code) -> code < 0) /\
    bytes_at 1 (pos - 1) (r_pkt (snd x)) = bytes_at 1 (pos - 1) (r_pkt rx) /\
    (fst x = None -> received tr = bytes_at pos rem (r_pkt (snd x)))).
  intros R Hr Hz. enough (P (rx, rem, 1) tr x) as HP.
  { destruct HP as (K1 & K2 & _ & K4); [lia..|done|]. done. }
  revert R. apply (runs_iter fill_round P); clear.
  - intros [[rx rem] pos] tr i' R. unfold fill_round in R. destruct (rem =? 0); [run_ret R|]. run_recv R. done.
  - intros [[rx rem] pos] tr [[h|] rx'] R H1 H2 H3 Hz;
      pose proof (fill_round_inv _ _ _ _ _ R H1 H2 H3 Hz) as Hi; simpl in Hi.
    + destruct Hi as (K & Hc & Hk). split; [done|]. split; [intros ? [= ->]; by apply Hc|]. done.
    + destruct Hi as (-> & -> & ->). done.
  - intros [[rx rem] pos] tr1 [[rx1 rem1] pos1] tr2 x R IH H1 H2 H3 Hz.
    destruct (fill_round_inv _ _ _ _ _ R H1 H2 H3 Hz) as (K & _ & bs & Er & Ep & -> & -> & Hbs).
    pose proof (zlen_nonneg bs). pose proof K as (_ & _ & Hz1).
    destruct IH as (K1 & K2 & K3 & K4); [lia..|done|]. rewrite Ep in K3.
    apply patched_prefix in K3 as [S1 S2]; [|lia..|by rewrite Hz; apply K1].
    split; [eapply kept_trans; [exact K|exact K1]|]. split; [done|]. split; [done|].
    intros En. rewrite received_app, Er, K4 by done.
    replace rem with (zlen bs + (rem - zlen bs)) at 2 by lia. rewrite bytes_at_split by lia. by rewrite S2.
Qed.

(** ** One packet *)

(** The receiver [rx'] after a packet of [n] bytes was accepted by [rx]: the
    bytes on the line end with the packet that is in the buffer. *)
Record accepted (rx : xmodem_rcv) (n : Z) (tr : list event) (rx' : xmodem_rcv) : Prop := {
  acc_size : n = 128 \/ n = 1024;
  acc_check : frame_ok (r_mode rx) n (r_pkt rx') = true;
  acc_number : zget (r_pkt rx') 1 = r_pktno rx;
  acc_next : rx' = mk_rcv (r_mode rx) ACK (Z.land (r_pktno rx + 1) 0xff) 10 n 0 (r_pkt rx');
  acc_buf : zlen (r_pkt rx') = 1029;
  acc_line : exists before,
    received tr = before ++ bytes_at 1 (n + (if r_mode rx =? 0 then 3 else 4)) (r_pkt rx');
}.

(** What a round of the receiver comes to. *)
Definition outcome (rx : xmodem_rcv) (tr : list event) (x : xmodem_rcv + (Z * xmodem_rcv)) : Prop :=
  match x with
  | inl rx' => kept rx rx'
  | inr (n, rx') => 0 < n -> accepted rx n tr rx'
  end.

Lemma outcome_stop rx rx' tr x :
  kept rx rx' -> match x with inl rx'' => kept rx' rx'' | inr (n, _) => n = -1 end -> outcome rx tr x.
Proof. intros K. destruct x as [rx''|[n ?]]; simpl; [by apply kept_trans|lia]. Qed.

Lemma accepted_kept rx rx1 n tr rx' : kept rx rx1 -> accepted rx1 n tr rx' -> accepted rx n tr rx'.
Proof. intros (K1 & K2 & _) [A1 A2 A3 A4 A5 A6]. rewrite K1, K2 in *. by split. Qed.

Lemma outcome_kept rx rx1 tr x : kept rx rx1 -> outcome rx1 tr x -> outcome rx tr x.
Proof.
  intros K. destruct x as [rx'|[n rx']]; simpl; [by apply kept_trans|].
  intros H Hn. by apply (accepted_kept rx rx1), H.
Qed.

Lemma check_outcome rx cnt tr0 tr x :
  cnt = 128 \/ cnt = 1024 -> zlen (r_pkt rx) = 1029 ->
  (exists before, received tr0 = before ++ bytes_at 1 (cnt + (if r_mode rx =? 0 then 3 else 4)) (r_pkt rx)) ->
  runs (rcv_check rx cnt) tr x -> outcome rx (tr0 ++ tr) x.
Proof.
  intros Hc Hz Hl R. unfold rcv_check in R. cbv zeta in R.
  destruct (frame_ok _ _ _) eqn:Ef; cbn [negb] in R.
  2: { eapply outcome_stop, error_kept; [done|done|exact R]. }
  destruct (_ =? Z.land _ _); [by run_ret R|].
  destruct (Z.eqb_spec (zget (r_pkt rx) 1) (r_pktno rx)) as [En|En]; cbn [negb] in R.
  2: { eapply outcome_stop, error_kept; [done|done|exact R]. }
  run_ret R. intros _. split; try done. simpl. by rewrite app_nil_r.
Qed.

Lemma round_outcome rx tr x :
  zlen (r_pkt rx) = 1029 -> runs (rcv_round rx) tr x -> tr <> [] /\ outcome rx tr x.
Proof.
  intros Hz R. unfold rcv_round in R. run_bind R R0. apply runs_call_send in R0 as (r & -> & ->).
  cbn [fst] in R. split; [done|]. unfold rcv_answer in R.
  destruct (Z.ltb_spec r 0) as [Er|Er]; [run_ret R; simpl; lia|].
  run_bind R Rh. apply header_kept in Rh as (Kh & Hcnt & Hcode); [|done].
  destruct a as [h rx1]. simpl in Kh, Hcnt, Hcode, R. pose proof Kh as (Em & _ & Hz1).
  destruct h as [|code|cnt|].
  - eapply outcome_stop, timeout_kept; [exact Kh|done|exact R].
  - run_ret R. simpl. specialize (Hcode code eq_refl). lia.
  - specialize (Hcnt cnt eq_refl). run_bind R Rf. destruct a as [f rx2]. simpl in R.
    apply fill_kept in Rf as (Kf & Hcode' & Hline); [|destruct (r_mode rx1 =? 0); lia|done].
    simpl in Kf, Hline, Hcode'. pose proof Kf as (Em2 & _ & Hz2).
    assert (Hto : forall tr tr', runs (rcv_timeout rx2) tr x -> outcome rx tr' x).
    { intros tr' tr'' Rt. eapply outcome_stop, timeout_kept; [eapply kept_trans; [exact Kh|exact Kf]|done|exact Rt]. }
    destruct f as [[|code| |]|]; try exact (Hto _ _ R).
    + run_ret R. simpl. specialize (Hcode' code eq_refl). lia.
    + rewrite !app_assoc. eapply outcome_kept; [eapply kept_trans; [exact Kh|exact Kf]|].
      eapply check_outcome; [done|done| |exact R].
      rewrite Em2, <-Hline, received_app by done. by eexists.
  - run_bind R R1. apply runs_call_send in R1 as (r1 & -> & ->). cbn [fst] in R.
    destruct (Z.ltb_spec r1 0); run_ret R; simpl; lia.
Qed.

Lemma rcv_pkt_outcome rx tr n rx' :
  zlen (r_pkt rx) = 1029 -> runs (xmodem_rcv_pkt rx) tr (n, rx') -> 0 < n -> accepted rx n tr rx'.
Proof.
  intros Hz R. revert Hz.
  pose (P := fun rx tr (x : Z * xmodem_rcv) => zlen (r_pkt rx) = 1029 -> 0 < fst x -> accepted rx (fst x) tr (snd x)).
  change (P rx tr (n, rx')). revert rx tr R. generalize (n, rx'). intros x rx tr. revert rx tr x.
  unfold xmodem_rcv_pkt. apply (runs_iter rcv_round P); clear.
  - intros rx tr rx' R. unfold rcv_round in R. run_bind R R0. by apply runs_call_send in R0 as (r & -> & _).
  - intros rx tr [n rx'] R Hz Hn. apply round_outcome in R as [_ R]; [|done]. by apply R.
  - intros rx tr1 rx1 tr2 [n rx'] R IH Hz Hn. apply round_outcome in R as [_ R]; [|done]. simpl in R.
    pose proof R as (_ & _ & Hz1). destruct (IH Hz1 Hn) as [A1 A2 A3 A4 A5 [before A6]].
    eapply accepted_kept; [exact R|]. split; try done.
    exists (received tr1 ++ before). by rewrite received_app, A6, app_assoc.
Qed.
