(* ===== verification/XmodemThms.v ===== *)
(** * XMODEM: transfers

    The sender and the receiver at the two ends of a line, what a receiver
    accepts from any partner, and what happens to a refused packet. *)

From S2P Require Import Prelude Crc Line Xmodem XmodemSnd XmodemRcv XmodemSafe.
From ITree Require Import ITree ITreeFacts.
Open Scope Z_scope.
Import Xmodem.

Section transfer.
Variable blen : Z.
Hypothesis Hblen : 0 < blen.
Implicit Types (S : itree commE Z).

(** The receiver between packets. *)
Record rcv_ready (mode sq : Z) (rx : xmodem_rcv) : Prop := {
  ready_mode : r_mode rx = mode;
  ready_pktno : r_pktno rx = sq;
  ready_range : 0 <= sq < 256;
  ready_size : zlen (r_pkt rx) = 1029;
}.

(** A packet that is complete is delivered, and the receiver goes on. *)
Lemma check_delivers mode sq blk pkt rx acc :
  rcv_ready mode sq rx -> 0 < zlen blk <= 1024 -> zlen pkt = 1029 ->
  let rx1 := lset rcv_pkt (patch 0 (header sq (zlen blk) ++ blk ++ snd_fcs (mode_st mode) blk) pkt) rx in
  exists rx2, rcv_ready mode (u8 (sq + 1)) rx2 /\ r_sync rx2 = ACK /\
    ITree.bind (rcv_check rx1 (zlen blk)) (fun lr =>
      match lr with inl rx' => ITree.bind (xmodem_rcv_pkt rx') (got blen acc) | inr r => got blen acc r end) ≈
    ITree.bind (xmodem_rcv_pkt rx2) (got blen (acc ++ blk)).
Proof.
  intros [R1 R2 R3 R4] Hb Hp rx1.
  destruct (frame_accepted mode sq blk pkt R3 ltac:(lia)) as (F1 & F2 & F3).
  set (full := patch 0 _ pkt) in *.
  exists (mk_rcv mode ACK (u8 (sq + 1)) 10 (zlen blk) (zlen blk) full).
  assert (Hfull : zlen full = 1029).
  { unfold full. rewrite patch_size; [done|lia|]. rewrite !zlen_app. change (zlen (header sq (zlen blk))) with 3.
    unfold mode_st. destruct (mode =? 0); cbn [snd_fcs]; unfold zlen in *; simpl; lia. }
  split; [split; try done; apply u8_bound|]. split; [done|].
  unfold rcv_check. cbn [r_pkt r_mode r_pktno rx1 lset rcv_pkt]. rewrite R1, R2, F1, F2.
  rewrite number_not_previous, Z.eqb_refl by done. cbn [negb]. rewrite bind_ret_l, number_next.
  unfold got at 1. cbn [fst snd]. rewrite (proj2 (Z.ltb_lt _ _)) by lia.
  rewrite (get_delivers blen Hblen (Z.to_nat (zlen blk))) by (simpl; lia). simpl r_data_pos. simpl r_data_len.
  simpl r_pkt. rewrite Z.sub_0_r, Z.add_0_r, F3. rewrite (get_next blen Hblen) by (simpl; lia). reflexivity.
Qed.

(** From a sender that runs a script and a receiver that listens. *)
Lemma transfer_script mode blks : forall sq acc rx S,
  Forall (fun b => zlen b = 128 \/ zlen b = 1024) blks ->
  rcv_ready mode sq rx -> script (mode_st mode) sq blks S ->
  always THINKOS_ETIMEDOUT (fun a b => a = 1 /\ b = (0, acc ++ concat blks)) (Cfg S (listening blen rx acc) [] []).
Proof.
  induction blks as [|blk blks IH]; intros sq acc rx S Hb Hrx Hs.
  - destruct Hs as (k & ES & Ek). pose proof (ready_size _ _ _ Hrx) as Hsz.
    destruct (listening_hears blen rx acc) as (kH & EL & _ & _ & k' & EH & Ek'); [lia|].
    eapply always_snd_eq; [exact EL|]. eapply always_fst_send; [exact ES|reflexivity|].
    eapply always_last_recv; [exact Ek|reflexivity|lia|].
    eapply always_last_send; [exact Ek|exact EH|].
    eapply always_done; [exact Ek|exact Ek'|]. by rewrite app_nil_r.
  - apply List.Forall_cons_iff in Hb as [Hblk Hb]. destruct Hs as (k1 & k2 & k3 & E1 & E2 & E3 & HS).
    pose proof Hrx as [R1 R2 R3 R4].
    destruct (listening_hears blen rx acc) as (kH & EL & HSOH & HSTX & _); [lia|]. cbv zeta in HSOH, HSTX.
    eapply always_snd_eq; [exact EL|]. eapply always_fst_send; [exact E1|reflexivity|].
    set (fcs := snd_fcs (mode_st mode) blk) in *. set (frame := header sq (zlen blk) ++ blk) in *.
    assert (Hfcs : fcs <> []) by (unfold fcs; by destruct (mode_st mode)).
    assert (HF : feeds (k1 (zlen frame, [])) 1 XMODEM_SND_TMOUT_MS k3 (frame ++ fcs) frame).
    { right. exists fcs, k2. done. }
    eapply always_snd_recv; [exact HF|done|reflexivity|lia|].
    intros S' c' bs todo Etodo Hbs HF'.
    destruct bs as [|c [|? ?]]; [by destruct Hbs|..]; [|rewrite !zlen_cons in Hbs; pose proof (zlen_nonneg l); lia].
    set (tl := sq :: u8 (Z.lnot sq) :: blk ++ fcs).
    assert (Ec : c = (if zlen blk =? 1024 then STX else SOH) /\ todo = tl) by (by injection Etodo as <- <-).
    destruct Ec as [-> ->].
    set (c := if zlen blk =? 1024 then STX else SOH) in *.
    assert (Hk : kH (1, [c]) ≈ filling blen (lset rcv_pkt (patch 0 [c] (r_pkt rx)) rx) acc (zlen blk)).
    { unfold c. destruct Hblk as [->| ->]; [exact HSOH|exact HSTX]. }
    eapply always_snd_eq; [exact Hk|].
    set (rx1 := lset rcv_pkt _ rx). unfold filling, rcv_fill.
    assert (Htl : zlen blk + (if r_mode rx1 =? 0 then 3 else 4) = zlen tl).
    { simpl. rewrite R1. unfold tl, fcs, mode_st. rewrite !zlen_cons, zlen_app.
      destruct (mode =? 0); cbn [snd_fcs]; unfold zlen; simpl; lia. }
    rewrite Htl. pose proof (zlen_nonneg tl) as Htl0.
    assert (Htl1 : zlen tl <= 1028) by (rewrite <-Htl; destruct (r_mode rx1 =? 0); lia).
    assert (Hsz1 : zlen (r_pkt rx1) = 1029) by (simpl; rewrite patch_size; [done|lia|change (zlen [c]) with 1; lia]).
    eapply (fill_sys _ _ _ k3 _ (Z.to_nat (zlen tl))); [lia|exact HF'|lia|lia|].
    intros S2 ES2. cbn [fst snd].
    assert (Ep : patch 1 tl (r_pkt rx1) = patch 0 (header sq (zlen blk) ++ blk ++ fcs) (r_pkt rx)).
    { apply (patch_patch 0 [c] tl); [lia|]. change (zlen [c]) with 1. lia. }
    destruct (check_delivers mode sq blk (r_pkt rx) rx1 acc) as (rx2 & Hrx2 & Hsync & Eck).
    { split; done. }
    { lia. }
    { done. }
    rewrite Ep. eapply always_snd_eq; [exact Eck|].
    destruct (rcv_pkt_sync blen rx2 (acc ++ blk)) as (kR & ER & EkR). rewrite Hsync in ER.
    eapply always_snd_eq; [exact ER|].
    eapply always_snd_send; [reflexivity|exact ES2|].
    change (zlen [ACK]) with 1. eapply always_snd_eq; [exact EkR|].
    destruct (listening_hears blen rx2 (acc ++ blk)) as (kH2 & EL2 & _); [rewrite (ready_size _ _ _ Hrx2); lia|].
    eapply always_snd_eq; [exact EL2|].
    eapply always_fst_recv; [exact ES2|lia|reflexivity|].
    eapply always_snd_eq; [symmetry; exact EL2|].
    cbn [concat]. rewrite app_assoc. by apply (IH (u8 (sq + 1))).
Qed.

(** A whole transfer. *)
Lemma transfer mode_s mode_r pkt rpkt data :
  zlen pkt = 1027 -> zlen rpkt = 1029 -> mode_r = XMODEM_RCV_CKS \/ mode_r = XMODEM_RCV_CRC ->
  forall n rx, xmodem_rcv_init (mk_rcv 0 0 0 0 0 0 rpkt) mode_r = (n, rx) ->
  always THINKOS_ETIMEDOUT (fun a b => a = 1 /\ b = (0, data ++ padding (zlen data)))
    (Cfg (xmodem_put (snd_reset mode_s pkt) data) (xmodem_get rx blen []) [] []).
Proof.
  intros Hp Hrp Hmode n rx Hinit. destruct (put_script mode_s pkt data Hp) as (blks & Eb & Hblks & Hs).
  assert (Hrx : rcv_ready mode_r 1 rx /\ r_sync rx = sync_of (mode_st mode_r) /\ r_data_len rx - r_data_pos rx <= 0).
  { destruct Hmode as [-> | ->]; injection Hinit as _ <-; by repeat split. }
  destruct Hrx as (Hrx & Hsync & Hdata).
  destruct (rcv_pkt_sync blen rx []) as (kR & ER & EkR). rewrite Hsync in ER.
  destruct (listening_hears blen rx []) as (kH & EL & _ & _ & k' & EH & Ek'); [rewrite (ready_size _ _ _ Hrx); lia|].
  eapply always_snd_eq; [etransitivity; [by apply get_next|exact ER]|].
  rewrite <-Eb. destruct blks as [|blk blks].
  - destruct Hs as (k & ES & Ek).
    eapply always_send_send; [exact ES|reflexivity|..].
    + eapply always_last_send; [exact Ek|reflexivity|]. change (zlen [sync_of _]) with 1.
      eapply always_snd_eq; [exact EkR|].
      eapply always_last_recv; [exact Ek|exact EL|lia|].
      eapply always_last_send; [exact Ek|exact EH|]. by eapply always_done.
    + change (zlen [sync_of _]) with 1. eapply always_snd_eq; [exact EkR|].
      eapply always_fst_send; [exact ES|exact EL|].
      eapply always_last_recv; [exact Ek|exact EL|lia|].
      eapply always_last_send; [exact Ek|exact EH|]. by eapply always_done.
  - destruct Hs as (k & ES & Hk).
    eapply always_snd_send; [reflexivity|exact ES|]. change (zlen [sync_of _]) with 1.
    eapply always_snd_eq; [exact EkR|]. eapply always_snd_eq; [exact EL|].
    eapply always_fst_recv; [exact ES|lia|reflexivity|].
    eapply always_snd_eq; [symmetry; exact EL|].
    apply (transfer_script mode_r (blk :: blks) 1 []); [done|done|]. apply Hk. apply mode_active.
Qed.
End transfer.

(** The client of the receiver ends with the receiver's error. *)
Lemma rcv_error_end blen rx' :
  (fun lr => match lr with
    | inl rx' => ITree.bind (xmodem_rcv_pkt rx') (got blen [])
    | inr r => got blen [] r end) (inr (-1, rx')) ≈ Ret (-1, []).
Proof. unfold got. simpl. reflexivity. Qed.

(** A round of a receiver nobody answers. *)
Lemma rcv_unanswered blen rx :
  exists k1 k2, ITree.bind (xmodem_rcv_pkt rx) (got blen []) ≈ Vis (send [r_sync rx]) k1 /\
    k1 (1, []) ≈ Vis (recv 1 XMODEM_RCV_TMOUT_MS) k2 /\
    k2 (THINKOS_ETIMEDOUT, []) ≈ ITree.bind (rcv_timeout (lset rcv_pkt (patch 0 [] (r_pkt rx)) rx)) (fun lr =>
      match lr with
      | inl rx' => ITree.bind (xmodem_rcv_pkt rx') (got blen [])
      | inr r => got blen [] r end).
Proof.
  destruct (rcv_pkt_sync blen rx []) as (k & E1 & Ek). do 2 eexists. split; [exact E1|]. split.
  - rewrite Ek. unfold listening, rcv_answer, rcv_header. change (1 <? 0) with false. cbn match.
    rewrite iter_eq, !bind_bind, bind_trigger. reflexivity.
  - cbn [fst snd]. change (THINKOS_ETIMEDOUT =? THINKOS_ETIMEDOUT) with true. cbn match.
    rewrite !bind_ret_l. cbn [fst snd]. reflexivity.
Qed.

(** Each of its bytes is followed by a timeout, until the retries are used up. *)
Lemma rcv_alone blen n : forall rx c2,
  r_retry rx = Z.of_nat (S n) -> r_retry rx < 256 ->
  always THINKOS_ETIMEDOUT (fun (a : Z) b => b = (-1, []))
    (Cfg (Ret 0) (ITree.bind (xmodem_rcv_pkt rx) (got blen [])) [] c2).
Proof.
  induction n as [|n IH]; intros rx c2 Hr Hb.
  all: destruct (rcv_unanswered blen rx) as (k1 & k2 & E1 & E2 & E3);
    eapply always_last_send; [reflexivity|exact E1|]; change (zlen [r_sync rx]) with 1;
    eapply always_last_timeout; [reflexivity|exact E2|];
    eapply always_snd_eq; [exact E3|]; unfold rcv_timeout; set (rx1 := lset retry _ _);
    assert (Er : r_retry rx1 = r_retry rx - 1) by (simpl; unfold u8, wrap; rewrite Z.mod_small; lia).
  - rewrite Er, Hr. change (Z.of_nat 1 - 1 =? 0) with true. cbn match.
    eapply always_last_send; [reflexivity|rewrite bind_bind, bind_trigger; reflexivity|].
    eapply always_done; [reflexivity|rewrite bind_ret_l; apply rcv_error_end|done].
  - rewrite (proj2 (Z.eqb_neq _ _)) by lia.
    eapply always_snd_eq; [rewrite bind_ret_l; reflexivity|]. apply IH; lia.
Qed.

(** A packet that is refused is sent again behind the byte that refused it. *)
Lemma resend d len sx f1 r1 fcs r2 f2 r3 tr x :
  3 + d + len <= zlen (s_pkt sx) -> 0 <= d -> 0 <= len -> 0 <= r1 -> 0 <= r2 ->
  runs (snd_frame d len 0 sx)
    (Sent f1 r1 :: Sent fcs r2 :: Got 1 XMODEM_SND_TMOUT_MS 1 [NAK] :: Sent f2 r3 :: tr) x ->
  f1 = header (s_seq sx) len ++ bytes_at (3 + d) len (s_pkt sx) /\ f2 = NAK :: tail f1.
Proof.
  intros Hsz Hd Hl Hr1 Hr2 R. unfold snd_frame in R.
  set (pkt := patch d _ (s_pkt sx)) in R.
  assert (Hz : zlen pkt = zlen (s_pkt sx)) by (apply patch_size; [lia|change (zlen [_; _; _]) with 3; lia]).
  rewrite iter_eq in R. unfold snd_round at 1 in R. rewrite bind_bind, bind_trigger in R.
  apply runs_vis_send in R as [-> R]. cbn [fst] in R. rewrite (proj2 (Z.ltb_ge _ _)) in R by lia.
  rewrite bind_bind, bind_trigger in R. apply runs_vis_send in R as [-> R]. cbn [fst] in R.
  rewrite (proj2 (Z.ltb_ge _ _)) in R by lia.
  rewrite bind_bind, bind_trigger in R. apply runs_vis_recv in R. cbn [fst snd] in R.
  change (1 <=? 0) with false in R. cbn match in R. simpl s_pkt in R. rewrite zget_patch in R by lia.
  change (NAK =? ACK) with false in R. change (NAK =? CAN) with false in R. change (negb (NAK =? NAK)) with false in R.
  change (0 + 1 =? 10) with false in R. cbn match in R. rewrite bind_ret_l in R.
  rewrite iter_eq in R. unfold snd_round at 1 in R. rewrite bind_bind, bind_trigger in R.
  apply runs_vis_send in R as [-> R]. cbn [fst snd]. simpl s_pkt.
  assert (Hdata : forall o n b, d + zlen b <= o -> bytes_at o n (patch d b pkt) = bytes_at o n pkt).
  { intros o n b Ho. apply bytes_at_keep; [lia|pose proof (zlen_nonneg b); lia|lia]. }
  assert (Hpkt : bytes_at d (len + 3) pkt = header (s_seq sx) len ++ bytes_at (3 + d) len (s_pkt sx)).
  { rewrite Z.add_comm, bytes_at_split by lia. f_equal; [apply (bytes_at_patch d (header (s_seq sx) len)); lia|].
    unfold pkt. rewrite bytes_at_keep; [f_equal; lia|lia|lia|change (zlen [_; _; _]) with 3; lia]. }
  split; [exact Hpkt|]. replace (len + 3) with (1 + (len + 2)) by lia.
  rewrite !(bytes_at_split d 1) by lia. rewrite (Hdata (d + 1)) by (change (zlen [NAK]) with 1; lia).
  rewrite (bytes_at_patch d [NAK]) by lia. cbn [app]. f_equal.
  assert (zlen (bytes_at d 1 pkt) = 1) as H1 by (apply zlen_bytes_at; lia).
  destruct (bytes_at d 1 pkt) as [|y [|? ?]]; [done|done|rewrite !zlen_cons in H1; pose proof (zlen_nonneg l); lia].
Qed.

(** ** Properties *)

(** C8. A transfer over a line that neither loses nor changes bytes succeeds,
    whatever the chunks in which [recv] returns them and however the two ends
    interleave: from any sender that [xmodem_snd_init] has reset, in either
    block size, to any receiver that [xmodem_rcv_init] has reset, in either
    check mode. All executions end; the sender's calls return success, and what
    the receiver has delivered, [blen] bytes at a time at most, is the data
    followed by the zeros that fill the last block of 128 bytes, with 0 as its
    last result. *)
Theorem xmodem_transfer blen mode_s mode_r pkt rpkt data n rx :
  0 < blen -> zlen pkt = 1027 -> zlen rpkt = 1029 ->
  mode_r = XMODEM_RCV_CKS \/ mode_r = XMODEM_RCV_CRC ->
  xmodem_rcv_init (mk_rcv 0 0 0 0 0 0 rpkt) mode_r = (n, rx) ->
  always THINKOS_ETIMEDOUT (fun a b => a = 1 /\ b = (0, data ++ padding (zlen data)))
    (Cfg (xmodem_put (snd_reset mode_s pkt) data) (xmodem_get rx blen []) [] []).
Proof. intros Hb Hp Hrp Hm Hi. by eapply transfer. Qed.

Lemma xmodem_transfer_witness :
  always THINKOS_ETIMEDOUT (fun a b => a = 1 /\ b = (0, replicate 200 65 ++ replicate 56 0))
    (Cfg (xmodem_put (snd_reset XMODEM_SND_1K (replicate 1027 0)) (replicate 200 65))
         (xmodem_get (mk_rcv XMODEM_RCV_CRC 67 1 30 0 0 (replicate 1029 0)) 64 []) [] []).
Proof.
  exact (xmodem_transfer 64 XMODEM_SND_1K XMODEM_RCV_CRC (replicate 1027 0) (replicate 1029 0) (replicate 200 65)
    0 _ eq_refl eq_refl eq_refl (or_intror eq_refl) eq_refl).
Defined.

(** C21. What the receiver accepts, from any partner: when [xmodem_rcv_pkt]
    returns a packet, its size is 128 or 1024, the number is the expected one
    and the complement of the byte after it, the check sequence is the one of
    the data, and the packet in the buffer, from its number to its check
    sequence, is what the line delivered last, byte for byte; the expected
    number goes up by one modulo 256, the retries are set to 10, and the buffer
    keeps its size. *)
Theorem xmodem_accepts rx tr n rx' :
  zlen (r_pkt rx) = 1029 -> runs (xmodem_rcv_pkt rx) tr (n, rx') -> 0 < n ->
  (n = 128 \/ n = 1024) /\ frame_ok (r_mode rx) n (r_pkt rx') = true /\
  zget (r_pkt rx') 1 = r_pktno rx /\
  rx' = mk_rcv (r_mode rx) ACK (Z.land (r_pktno rx + 1) 0xff) 10 n 0 (r_pkt rx') /\
  zlen (r_pkt rx') = 1029 /\
  exists before, received tr = before ++ bytes_at 1 (n + (if r_mode rx =? 0 then 3 else 4)) (r_pkt rx').
Proof. intros Hz R Hn. destruct (rcv_pkt_outcome _ _ _ _ Hz R Hn) as [A1 A2 A3 A4 A5 A6]. by repeat split. Qed.

Lemma xmodem_accepts_witness :
  let rx := mk_rcv XMODEM_RCV_CKS NAK 1 30 0 0 (replicate 1029 0) in
  let body := [1; 254] ++ replicate 129 0 in
  let pkt := patch 1 body (patch 0 [SOH] (replicate 1029 0)) in
  let rx' := mk_rcv XMODEM_RCV_CKS ACK 2 10 128 0 pkt in
  runs (xmodem_rcv_pkt rx) [Sent [NAK] 1; Got 1 XMODEM_RCV_TMOUT_MS 1 [SOH]; Got 131 500 131 body] (128, rx') /\
  frame_ok XMODEM_RCV_CKS 128 pkt = true /\
  exists before, [SOH] ++ body = before ++ bytes_at 1 131 pkt.
Proof.
  intros rx body pkt rx'.
  assert (R : runs (xmodem_rcv_pkt rx)
    [Sent [NAK] 1; Got 1 XMODEM_RCV_TMOUT_MS 1 [SOH]; Got 131 500 131 body] (128, rx')).
  { unfold xmodem_rcv_pkt. rewrite iter_eq. unfold rcv_round at 1. rewrite bind_bind. apply runs_do_send.
    unfold rcv_answer, rcv_header. simpl fst. change (1 <? 0) with false. cbn match.
    rewrite iter_eq, !bind_bind. apply runs_do_recv; [done|done|].
    vm_compute (zget _ _). cbn -[rx body patch rcv_fill]. rewrite !bind_ret_l. cbn [fst snd].
    unfold rcv_fill. rewrite iter_eq. unfold fill_round at 1. cbn [r_mode rx]. change (128 + _ =? 0) with false. cbn match.
    rewrite !bind_bind. apply runs_do_recv; [done|done|]. cbn -[rx body patch fill_round rcv_check].
    rewrite !bind_ret_l, iter_eq. unfold fill_round at 1.
    change (128 + 3 - 131 =? 0) with true. cbn match. rewrite !bind_ret_l. cbn -[rx body patch rcv_check].
    apply runs_ret. set (rx1 := mk_rcv _ _ _ _ _ _ _).
    assert (E : rcv_check rx1 128 = Ret (inr (128, rx'))).
    { unfold rcv_check. replace (frame_ok _ _ _) with true by (vm_compute; reflexivity).
      replace (zget (r_pkt rx1) 1) with 1 by (vm_compute; reflexivity). reflexivity. }
    rewrite E, bind_ret_l. reflexivity. }
  split; [exact R|].
  destruct (xmodem_accepts rx _ 128 rx' eq_refl R eq_refl) as (_ & H2 & _ & _ & _ & H6).
  split; [exact H2|exact H6].
Defined.

(** C22. Nobody is left waiting for a line that is dead: a receiver nobody
    answers gives up. From any number of retries that is left, at least one, all
    executions against a partner that has ended come to an end, and the client's
    call returns -1 with nothing delivered. *)
Theorem xmodem_gives_up blen rx :
  0 < blen -> r_data_len rx <= r_data_pos rx -> 0 < r_retry rx < 256 ->
  always THINKOS_ETIMEDOUT (fun (a : Z) b => b = (-1, [])) (Cfg (Ret 0) (xmodem_get rx blen []) [] []).
Proof.
  intros Hb Hd Hr. eapply always_snd_eq; [apply get_next; lia|].
  apply (rcv_alone blen (Z.to_nat (r_retry rx - 1))); lia.
Qed.

Lemma xmodem_gives_up_witness :
  always THINKOS_ETIMEDOUT (fun (a : Z) b => b = (-1, []))
    (Cfg (Ret 0) (xmodem_get (mk_rcv XMODEM_RCV_CRC 67 1 30 0 0 (replicate 1029 0)) 64 []) [] []).
Proof. apply (xmodem_gives_up 64); [reflexivity|discriminate|split; reflexivity]. Defined.

(** C39. How a refused packet is resent: the byte that refused it was stored over
    the packet's first header byte, and the sender sends the same bytes again
    without restoring it, so that the second attempt begins with NAK in the
    place of SOH or STX, whatever the packet. *)
Theorem xmodem_resends_wrong_header d len sx f1 r1 fcs r2 f2 r3 tr x :
  3 + d + len <= zlen (s_pkt sx) -> 0 <= d -> 0 <= len -> 0 <= r1 -> 0 <= r2 ->
  runs (snd_frame d len 0 sx)
    (Sent f1 r1 :: Sent fcs r2 :: Got 1 XMODEM_SND_TMOUT_MS 1 [NAK] :: Sent f2 r3 :: tr) x ->
  f1 = header (s_seq sx) len ++ bytes_at (3 + d) len (s_pkt sx) /\ f2 = NAK :: tail f1.
Proof. apply resend. Qed.

Lemma xmodem_resends_wrong_header_witness :
  let sx := mk_snd 1 XMODEM_SND_CKS 0 128 128 (replicate 1027 0) in
  let frame := [SOH; 1; 254] ++ replicate 128 0 in
  let again := [NAK; 1; 254] ++ replicate 128 0 in
  runs (snd_frame 0 128 0 sx)
    [Sent frame 131; Sent [0] 1; Got 1 XMODEM_SND_TMOUT_MS 1 [NAK]; Sent again (-1)]
    (-1, lset snd_pkt (patch 0 again (replicate 1027 0)) sx) /\
  again = NAK :: tail frame.
Proof.
  intros sx frame again.
  assert (R : runs (snd_frame 0 128 0 sx)
    [Sent frame 131; Sent [0] 1; Got 1 XMODEM_SND_TMOUT_MS 1 [NAK]; Sent again (-1)]
    (-1, lset snd_pkt (patch 0 again (replicate 1027 0)) sx)).
  { unfold snd_frame. set (f := snd_fcs _ _). assert (f = [0]) as -> by (vm_compute; reflexivity).
    rewrite iter_eq. unfold snd_round at 1. rewrite bind_bind. cbn [fst].
    replace (bytes_at _ _ _) with frame by (vm_compute; reflexivity).
    apply runs_do_send. cbn [fst]. change (131 <? 0) with false. cbn match. rewrite bind_bind.
    apply runs_do_send. cbn [fst]. change (1 <? 0) with false. cbn match. rewrite bind_bind.
    apply runs_do_recv; [done|done|]. cbn [fst snd]. change (1 <=? 0) with false. cbn match.
    replace (zget _ _) with NAK by (vm_compute; reflexivity).
    change (NAK =? ACK) with false. change (NAK =? CAN) with false. change (negb (NAK =? NAK)) with false.
    change (0 + 1 =? 10) with false. cbn match. rewrite bind_ret_l.
    rewrite iter_eq. unfold snd_round at 1. rewrite bind_bind. cbn [fst snd].
    replace (bytes_at _ _ _) with again by (vm_compute; reflexivity).
    apply runs_do_send. cbn [fst]. change (-1 <? 0) with true. cbn match. rewrite bind_ret_l.
    apply runs_ret. f_equiv. f_equal. }
  split; [exact R|]. by eapply xmodem_resends_wrong_header in R as [_ R].
Defined.
