(* ===== verification/Js.v ===== *)
(** * MicroJS: the virtual machine

    [sdk/libmicrojs/microjs_vm.c] with the byte code of [microjs-rt.h]. The data
    words and the stack are one array, the memory from [data] on: a stack of its
    own is somewhere behind the data, and without one [microjs_vm_init] puts the
    stack there. The stack and exception
    pointers are indices of that array, the program counter one of the code. An
    access outside of either, a division by zero and a shift by a count out of
    range have no result; signed arithmetic wraps, as the processor's does. The
    functions of [microjs_extern] are the application's: a parameter. *)

From S2P Require Import Prelude.
Open Scope Z_scope.

Module Js.

(** ** Byte code *)

Definition MISCOP := 0x00.
Definition OPC_ABT := 0.
Definition OPC_RET := 1.
Definition OPC_XPT := 2.
Definition OPC_POP := 3.
Definition OPC_INV := 4.
Definition OPC_NEG := 5.
Definition OPC_I8 := 6.
Definition OPC_I16 := 7.
Definition OPC_I32 := 8.
Definition OPC_EXT := 9.
Definition OPC_INC := 10.
Definition OPC_DEC := 11.
Definition OPC_NOT := 12.
Definition OPC_I4 := 0x10.
Definition INTOP := 0x20.
Definition OPC_ADD := INTOP + 0.
Definition OPC_SUB := INTOP + 1.
Definition OPC_MUL := INTOP + 2.
Definition OPC_DIV := INTOP + 3.
Definition OPC_MOD := INTOP + 4.
Definition OPC_ASR := INTOP + 5.
Definition OPC_SHL := INTOP + 6.
Definition OPC_OR := INTOP + 7.
Definition OPC_AND := INTOP + 8.
Definition OPC_XOR := INTOP + 9.
Definition OPC_LT := INTOP + 10.
Definition OPC_GT := INTOP + 11.
Definition OPC_EQ := INTOP + 12.
Definition OPC_NE := INTOP + 13.
Definition OPC_LE := INTOP + 14.
Definition OPC_GE := INTOP + 15.
Definition OPC_ISP := 0x30.
Definition OPC_LD := 0x40.
Definition OPC_ST := 0x50.
Definition OPC_PUSHX := 0x60.
Definition OPC_JMP := 0x70.
Definition OPC_JEQ := 0x80.

Definition ERR_INVALID_INSTRUCTION := 25.

(** ** The machine *)

(** The application's functions: [xid], the environment and the arguments give
    the number of values returned or a negative code, what is stored from the
    first argument on, and the environment. *)
Class JsHost := {
  env : Type;
  microjs_extern : Z -> env -> list Z -> option (Z * list Z * env);
}.

Section vm.
Context `{JsHost}.

Record vm := mk_vm { v_pc : Z; v_sp : Z; v_xp : Z; v_data : list Z; v_env : env }.
Definition eta_vm (v : vm) : vm := mk_vm (v_pc v) (v_sp v) (v_xp v) (v_data v) (v_env v).
Definition pc : lens vm Z := Lens v_pc ltac:(mk_set eta_vm v_pc).
Definition sp : lens vm Z := Lens v_sp ltac:(mk_set eta_vm v_sp).
Definition xp : lens vm Z := Lens v_xp ltac:(mk_set eta_vm v_xp).
Definition data : lens vm (list Z) := Lens v_data ltac:(mk_set eta_vm v_data).
Definition envir : lens vm env := Lens v_env ltac:(mk_set eta_vm v_env).

(** [microjs_vm_init], then the start of [microjs_exec]; [stack]: none for a null
    pointer, else the words from [data] to [stack]. *)
Definition stack_base (data_sz : Z) (stack : option Z) : Z :=
  match stack with
  | None => data_sz / 4
  | Some o => if o =? 0 then data_sz / 4 else o
  end.
Definition microjs_vm_init (data_sz : Z) (stack : option Z) (mem : list Z) (e : env) : vm :=
  mk_vm 0 (stack_base data_sz stack) (stack_base data_sz stack) mem e.
Definition microjs_vm_clr_data (data_sz : Z) : M vm unit :=
  for_ (data_sz / 4) (fun i => arr_wr data i 0).

(** [STACK_PUSH], [STACK_POP], [STACK_ADJUST]. *)
Definition push (x : Z) : M vm unit := p <- get sp;; put sp (p + 1);;; arr_wr data p x.
Definition pop : M vm Z := p <- get sp;; put sp (p - 1);;; arr_rd data (p - 1).
Definition adjust (n : Z) : M vm unit := p <- get sp;; put sp (p - n).

Definition SIGNEXT4BIT (x : Z) : Z := swrap 4 x.
Definition SIGNEXT12BIT (x : Z) : Z := swrap 12 x.

Variable code : list Z.

(** A byte of the code; [*pc++]; the operand [( *pc++ << 4) + opt]. *)
Definition byte_of (i : Z) : M vm Z := fun s =>
  if (0 <=? i) && (i <? zlen code) then Some (zget code i, s) else None.
Definition fetch : M vm Z := p <- get pc;; put pc (p + 1);;; byte_of p.
Definition operand (opt : Z) : M vm Z := b <- fetch;; ret (Z.shiftl b 4 + opt).
Definition jump (offs : Z) : M vm unit := p <- get pc;; put pc (p + offs).

(** The label [except]. *)
Definition except (r1 : Z) : M vm unit :=
  x <- get xp;; put sp x;;;
  r0 <- pop;;
  push r1;;;
  put pc (Z.land r0 0xffff);;;
  put xp (Z.shiftr r0 16).

(** [INTOP]: [r2] from [r1], the lower operand, and [r0]. *)
Definition b2z (b : bool) : Z := if b then 1 else 0.
Definition int_op (opt r1 r0 : Z) : option Z :=
  let shift_ok := (0 <=? r0) && (r0 <? 32) in
  let div_ok := negb (r0 =? 0) && negb ((r1 =? - 2 ^ 31) && (r0 =? -1)) in
  if opt =? OPC_LT - INTOP then Some (b2z (r1 <? r0))
  else if opt =? OPC_GT - INTOP then Some (b2z (r0 <? r1))
  else if opt =? OPC_EQ - INTOP then Some (b2z (r1 =? r0))
  else if opt =? OPC_NE - INTOP then Some (b2z (negb (r1 =? r0)))
  else if opt =? OPC_LE - INTOP then Some (b2z (r1 <=? r0))
  else if opt =? OPC_GE - INTOP then Some (b2z (r0 <=? r1))
  else if opt =? OPC_ASR - INTOP then if shift_ok then Some (Z.shiftr r1 r0) else None
  else if opt =? OPC_SHL - INTOP then if shift_ok then Some (s32 (Z.shiftl r1 r0)) else None
  else if opt =? OPC_ADD - INTOP then Some (s32 (r1 + r0))
  else if opt =? OPC_SUB - INTOP then Some (s32 (r1 - r0))
  else if opt =? OPC_MUL - INTOP then Some (s32 (r1 * r0))
  else if opt =? OPC_DIV - INTOP then if div_ok then Some (Z.quot r1 r0) else None
  else if opt =? OPC_MOD - INTOP then if div_ok then Some (Z.rem r1 r0) else None
  else if opt =? OPC_OR - INTOP then Some (Z.lor r1 r0)
  else if opt =? OPC_AND - INTOP then Some (Z.land r1 r0)
  else Some (Z.lxor r1 r0).

(** The call of an external function with [argc] arguments on the stack. *)
Definition extern (xid argc : Z) : M vm unit :=
  p <- get sp;;
  fun s =>
  if (0 <=? p - argc) && (p <=? zlen (v_data s)) then
    match microjs_extern xid (v_env s) (take (Z.to_nat argc) (drop (Z.to_nat (p - argc)) (v_data s))) with
    | Some (r0, out, e) =>
      if p - argc + zlen out <=? zlen (v_data s) then
        (put data (patch (p - argc) out (v_data s));;; put envir e;;;
         if r0 <? 0 then except (- r0) else adjust (argc - r0)) s
      else None
    | None => None
    end
  else None.

(** [MISCOP]. *)
Definition misc_op (opt : Z) : M vm (option Z) :=
  if opt =? OPC_INV then r0 <- pop;; push (Z.lnot r0);;; ret None
  else if opt =? OPC_NEG then r0 <- pop;; push (s32 (- r0));;; ret None
  else if opt =? OPC_NOT then r0 <- pop;; push (b2z (r0 =? 0));;; ret None
  else if opt =? OPC_INC then r0 <- pop;; push (s32 (r0 + 1));;; ret None
  else if opt =? OPC_DEC then r0 <- pop;; push (s32 (r0 - 1));;; ret None
  else if opt =? OPC_POP then adjust 1;;; ret None
  else if opt =? OPC_I32 then
    b0 <- fetch;; b1 <- fetch;; b2 <- fetch;; b3 <- fetch;;
    push (s32 (Z.lor (Z.lor (Z.lor b0 (Z.shiftl b1 8)) (Z.shiftl b2 16)) (Z.shiftl b3 24)));;; ret None
  else if opt =? OPC_I16 then
    b0 <- fetch;; b1 <- fetch;; push (swrap 16 (Z.lor b0 (Z.shiftl b1 8)));;; ret None
  else if opt =? OPC_I8 then b0 <- fetch;; push (s8 b0);;; ret None
  else if opt =? OPC_EXT then xid <- fetch;; argc <- fetch;; extern xid argc;;; ret None
  else if opt =? OPC_XPT then r1 <- pop;; except r1;;; ret None
  else if opt =? OPC_RET then r0 <- pop;; ret (Some r0)
  else if opt =? OPC_ABT then ret (Some 0)
  else except ERR_INVALID_INSTRUCTION;;; ret None.

(** One round of the loop, [Some]: [goto done]; the [switch] by the high half of
    the byte, [opt] the low half. *)
Definition exec_op (opc opt : Z) : M vm (option Z) :=
  if opc =? OPC_JMP then a <- operand opt;; jump (SIGNEXT12BIT a);;; ret None
  else if opc =? OPC_JEQ then
    a <- operand opt;; r1 <- pop;;
    when (r1 =? 0) (jump (SIGNEXT12BIT a));;; ret None
  else if opc =? OPC_PUSHX then
    r0 <- operand opt;;
    x <- get xp;;
    push (s32 (Z.lor r0 (Z.shiftl x 16)));;;
    p <- get sp;; put xp p;;; ret None
  else if opc =? OPC_ISP then a <- operand opt;; adjust (SIGNEXT12BIT a);;; ret None
  else if opc =? OPC_LD then a <- operand opt;; r0 <- arr_rd data a;; push r0;;; ret None
  else if opc =? OPC_ST then a <- operand opt;; r0 <- pop;; arr_wr data a r0;;; ret None
  else if opc =? OPC_I4 then push (SIGNEXT4BIT opt);;; ret None
  else if opc =? INTOP then
    r0 <- pop;; r1 <- pop;;
    (fun s => match int_op opt r1 r0 with Some r2 => push r2 s | None => None end);;; ret None
  else if opc =? MISCOP then misc_op opt
  else except ERR_INVALID_INSTRUCTION;;; ret None.
Definition step : M vm (option Z) := b <- fetch;; exec_op (Z.shiftl (Z.shiftr b 4) 4) (Z.land b 0xf).

(** The loop, for at most [fuel] instructions. *)
Fixpoint microjs_exec (fuel : nat) : M vm Z :=
  match fuel with
  | O => fault
  | S fuel => r <- step;; match r with Some r0 => ret r0 | None => microjs_exec fuel end
  end.
End vm.
End Js.
