(* ===== verification/JsLl.v ===== *)
(** * MicroJS: the tables of the parser

    [sdk/libmicrojs/microjs_ll.h] and [microjs_ll.c]: the symbols of the grammar,
    the prediction table, a row per nonterminal sorted by the lookahead, and the
    productions; [microjs_ll_push] looks the production up by binary search. *)

From S2P Require Import Prelude.
Open Scope Z_scope.

Module Ll.

(** ** Symbols *)

Definition T_EOF := 0.
Definition T_DOT := 1.
Definition T_COMMA := 2.
Definition T_SEMICOLON := 3.
Definition T_COLON := 4.
Definition T_PLUS := 5.
Definition T_MINUS := 6.
Definition T_STAR := 7.
Definition T_SLASH := 8.
Definition T_PERCENT := 9.
Definition T_AMPERSAND := 10.
Definition T_BAR := 11.
Definition T_CARET := 12.
Definition T_TILDE := 13.
Definition T_EXCLAM := 14.
Definition T_QUEST := 15.
Definition T_EQUALS := 16.
Definition T_LESSTHEN := 17.
Definition T_GREATTHEN := 18.
Definition T_LBRACKET := 19.
Definition T_RBRACKET := 20.
Definition T_LPAREN := 21.
Definition T_RPAREN := 22.
Definition T_LBRACE := 23.
Definition T_RBRACE := 24.
Definition T_GTE := 25.
Definition T_LTE := 26.
Definition T_EQU := 27.
Definition T_NEQ := 28.
Definition T_ASR := 29.
Definition T_SHL := 30.
Definition T_LOGICOR := 31.
Definition T_LOGICAND := 32.
Definition T_CATCH := 33.
Definition T_ELSE := 34.
Definition T_FALSE := 35.
Definition T_FOR := 36.
Definition T_IF := 37.
Definition T_THROW := 38.
Definition T_TRUE := 39.
Definition T_TRY := 40.
Definition T_VAR := 41.
Definition T_WHILE := 42.
Definition T_ID := 43.
Definition T_INT := 44.
Definition T_CHAR := 45.
Definition T_STRING := 46.
Definition T_ERR := 47.
Definition T_NOT := 48.
Definition NONTERM_BASE := 49.
Definition N_PROGRAM := 49.
Definition N_STAT := 50.
Definition N_SEMI_STAT := 51.
Definition N_SEMI_LIST := 52.
Definition N_COMPOUND_STAT := 53.
Definition N_VAR_LIST := 54.
Definition N_VAR := 55.
Definition N_VAR_LIST1 := 56.
Definition N_VAR_ASSIGN_OPT := 57.
Definition N_EXP := 58.
Definition N_ASSIGN_OR_CALL1 := 59.
Definition N_FUNCTION_CALL := 60.
Definition N_ATTR_ASSIGN := 61.
Definition N_ATTR_ASSIGN2 := 62.
Definition N_METHOD_CALL := 63.
Definition N_ARG_LIST_OPT := 64.
Definition N_ARG_LIST := 65.
Definition N_ARG_LIST1 := 66.
Definition N_EXP_LST_OPT := 67.
Definition N_EXP_LST := 68.
Definition N_EXP_LST1 := 69.
Definition N_AND_EXP := 70.
Definition N_OR_EXP := 71.
Definition N_RELATIONAL_EXP := 72.
Definition N_AND_EXP1 := 73.
Definition N_SHIFT_EXP := 74.
Definition N_RELATIONAL_EXP1 := 75.
Definition N_ADDITIVE_EXP := 76.
Definition N_SHIFT_EXP1 := 77.
Definition N_DIV_EXP := 78.
Definition N_ADDITIVE_EXP1 := 79.
Definition N_MULT_EXP := 80.
Definition N_DIV_EXP1 := 81.
Definition N_UNARY_EXP := 82.
Definition N_MULT_EXP1 := 83.
Definition N_PRIMARY_EXP := 84.
Definition N_ID_EVAL := 85.
Definition N_ID_EVAL1 := 86.
Definition N_ATTR_EVAL := 87.
Definition N_ATTR_EVAL1 := 88.
Definition N_STAT_LIST := 89.
Definition N_CONDITION := 90.
Definition N_ELSE_OPT := 91.
Definition N_CATCH_OPT := 92.
Definition ACTION_BASE := 93.
Definition A_OP_VAR_DECL := 93.
Definition A_OP_PUSH_TMP := 94.
Definition A_OP_POP_TMP := 95.
Definition A_OP_VAR_ASSIGN := 96.
Definition A_OP_RET_DISCARD := 97.
Definition A_OP_ARRAY_XLAT := 98.
Definition A_OP_OBJECT_GET := 99.
Definition A_OP_ATTR_ASSIGN := 100.
Definition A_OP_ARRAY_ASSIGN := 101.
Definition A_OP_METHOD_LOOKUP := 102.
Definition A_OP_CALL := 103.
Definition A_OP_FUNCTION_LOOKUP := 104.
Definition A_OP_ARG := 105.
Definition A_OP_OR := 106.
Definition A_OP_LOGIC_OR := 107.
Definition A_OP_XOR := 108.
Definition A_OP_AND := 109.
Definition A_OP_LOGIC_AND := 110.
Definition A_OP_LT := 111.
Definition A_OP_GT := 112.
Definition A_OP_EQU := 113.
Definition A_OP_NEQ := 114.
Definition A_OP_GTE := 115.
Definition A_OP_LTE := 116.
Definition A_OP_SHL := 117.
Definition A_OP_ASR := 118.
Definition A_OP_ADD := 119.
Definition A_OP_SUB := 120.
Definition A_OP_DIV := 121.
Definition A_OP_MOD := 122.
Definition A_OP_MUL := 123.
Definition A_OP_INV := 124.
Definition A_OP_MINUS := 125.
Definition A_OP_NOT := 126.
Definition A_OP_PUSH_INT := 127.
Definition A_OP_PUSH_STRING := 128.
Definition A_OP_PUSH_TRUE := 129.
Definition A_OP_PUSH_FALSE := 130.
Definition A_OP_VAR_EVAL := 131.
Definition A_OP_CALL_RET := 132.
Definition A_OP_ATTR_EVAL := 133.
Definition A_OP_ARRAY_EVAL := 134.
Definition A_OP_BLK_OPEN := 135.
Definition A_OP_BLK_CLOSE := 136.
Definition A_OP_FOR_INIT := 137.
Definition A_OP_FOR_COND := 138.
Definition A_OP_FOR_AFTER := 139.
Definition A_OP_FOR_END := 140.
Definition A_OP_WHILE_BEGIN := 141.
Definition A_OP_WHILE_COND := 142.
Definition A_OP_WHILE_END := 143.
Definition A_OP_IF_COND := 144.
Definition A_OP_IF_END := 145.
Definition A_OP_TRY_BEGIN := 146.
Definition A_OP_THROW := 147.
Definition A_OP_IF_ELSE := 148.
Definition A_OP_TRY_END := 149.
Definition A_OP_CATCH := 150.
Definition A_OP_CATCH_END := 151.

(** ** Tables *)

(** Pairs of a lookahead and a production. *)
Definition predict_vec : list (Z * Z) :=
  [
   (0, 0); (23, 3); (36, 1); (37, 1); (38, 2); (40, 1); (41, 2); (42, 1); (43, 2); (36, 88); (37, 90);
   (40, 91); (42, 89); (38, 93); (41, 94); (43, 95); (0, 4); (3, 5); (23, 84); (43, 6); (43, 9); (0, 7);
   (2, 8); (3, 7); (0, 10); (2, 10); (3, 10); (16, 11); (6, 32); (13, 32); (21, 32); (35, 32); (39, 32);
   (43, 32); (44, 32); (45, 32); (46, 32); (48, 32); (1, 15); (16, 12); (19, 14); (21, 13); (21, 21);
   (43, 16); (16, 17); (19, 18); (21, 19); (21, 20); (6, 23); (13, 23); (21, 23); (22, 22); (35, 23);
   (39, 23); (43, 23); (44, 23); (45, 23); (46, 23); (48, 23); (6, 24); (13, 24); (21, 24); (35, 24);
   (39, 24); (43, 24); (44, 24); (45, 24); (46, 24); (48, 24); (2, 26); (22, 25); (3, 27); (22, 27);
   (43, 28); (43, 29); (2, 31); (3, 30); (22, 30); (6, 37); (13, 37); (21, 37); (35, 37); (39, 37); (43, 37);
   (44, 37); (45, 37); (46, 37); (48, 37); (0, 33); (2, 33); (3, 33); (11, 34); (12, 36); (20, 33); (22, 33);
   (31, 35); (6, 41); (13, 41); (21, 41); (35, 41); (39, 41); (43, 41); (44, 41); (45, 41); (46, 41);
   (48, 41); (0, 38); (2, 38); (3, 38); (10, 39); (11, 38); (12, 38); (20, 38); (22, 38); (31, 38); (32, 40);
   (6, 49); (13, 49); (21, 49); (35, 49); (39, 49); (43, 49); (44, 49); (45, 49); (46, 49); (48, 49);
   (0, 42); (2, 42); (3, 42); (10, 42); (11, 42); (12, 42); (17, 43); (18, 44); (20, 42); (22, 42); (25, 47);
   (26, 48); (27, 45); (28, 46); (31, 42); (32, 42); (6, 53); (13, 53); (21, 53); (35, 53); (39, 53);
   (43, 53); (44, 53); (45, 53); (46, 53); (48, 53); (0, 50); (2, 50); (3, 50); (10, 50); (11, 50); (12, 50);
   (17, 50); (18, 50); (20, 50); (22, 50); (25, 50); (26, 50); (27, 50); (28, 50); (29, 52); (30, 51);
   (31, 50); (32, 50); (6, 57); (13, 57); (21, 57); (35, 57); (39, 57); (43, 57); (44, 57); (45, 57);
   (46, 57); (48, 57); (0, 54); (2, 54); (3, 54); (5, 55); (6, 56); (10, 54); (11, 54); (12, 54); (17, 54);
   (18, 54); (20, 54); (22, 54); (25, 54); (26, 54); (27, 54); (28, 54); (29, 54); (30, 54); (31, 54);
   (32, 54); (6, 61); (13, 61); (21, 61); (35, 61); (39, 61); (43, 61); (44, 61); (45, 61); (46, 61);
   (48, 61); (0, 58); (2, 58); (3, 58); (5, 58); (6, 58); (8, 59); (9, 60); (10, 58); (11, 58); (12, 58);
   (17, 58); (18, 58); (20, 58); (22, 58); (25, 58); (26, 58); (27, 58); (28, 58); (29, 58); (30, 58);
   (31, 58); (32, 58); (6, 66); (13, 65); (21, 64); (35, 64); (39, 64); (43, 64); (44, 64); (45, 64);
   (46, 64); (48, 67); (0, 62); (2, 62); (3, 62); (5, 62); (6, 62); (7, 63); (8, 62); (9, 62); (10, 62);
   (11, 62); (12, 62); (17, 62); (18, 62); (20, 62); (22, 62); (25, 62); (26, 62); (27, 62); (28, 62);
   (29, 62); (30, 62); (31, 62); (32, 62); (21, 68); (35, 73); (39, 72); (43, 74); (44, 69); (45, 70);
   (46, 71); (43, 75); (0, 76); (1, 79); (2, 76); (3, 76); (5, 76); (6, 76); (7, 76); (8, 76); (9, 76);
   (10, 76); (11, 76); (12, 76); (17, 76); (18, 76); (19, 78); (20, 76); (21, 77); (22, 76); (25, 76);
   (26, 76); (27, 76); (28, 76); (29, 76); (30, 76); (31, 76); (32, 76); (43, 80); (0, 81); (2, 81); (3, 81);
   (5, 81); (6, 81); (7, 81); (8, 81); (9, 81); (10, 81); (11, 81); (12, 81); (17, 81); (18, 81); (19, 83);
   (20, 81); (21, 82); (22, 81); (25, 81); (26, 81); (27, 81); (28, 81); (29, 81); (30, 81); (31, 81);
   (32, 81); (24, 85); (36, 86); (37, 86); (38, 87); (40, 86); (41, 87); (42, 86); (43, 87); (21, 92);
   (0, 96); (23, 96); (24, 96); (34, 97); (36, 96); (37, 96); (38, 96); (40, 96); (41, 96); (42, 96);
   (43, 96); (0, 98); (23, 98); (24, 98); (33, 99); (36, 98); (37, 98); (38, 98); (40, 98); (41, 98);
   (42, 98); (43, 98)
  ].
(** The row of each nonterminal: offset and length. *)
Definition predict_idx : list (Z * Z) :=
  [
   (0, 9); (9, 4); (13, 3); (16, 2); (18, 1); (19, 1); (20, 1); (21, 3); (24, 4); (28, 10); (38, 4); (42, 1);
   (43, 1); (44, 3); (47, 1); (48, 11); (59, 10); (69, 2); (71, 3); (74, 1); (75, 3); (78, 10); (88, 8);
   (96, 10); (106, 10); (116, 10); (126, 16); (142, 10); (152, 18); (170, 10); (180, 20); (200, 10);
   (210, 22); (232, 10); (242, 23); (265, 7); (272, 1); (273, 26); (299, 1); (300, 25); (325, 8); (333, 1);
   (334, 11); (345, 11)
  ].
(** The right-hand sides, one after the other. *)
Definition rule_vec : list Z :=
  [
   T_EOF; N_STAT; N_PROGRAM; N_SEMI_STAT; N_SEMI_LIST; N_COMPOUND_STAT; N_PROGRAM; T_EOF; T_SEMICOLON;
   N_PROGRAM; N_VAR; N_VAR_LIST1; T_COMMA; N_VAR_LIST; T_ID; A_OP_VAR_DECL; A_OP_PUSH_TMP; N_VAR_ASSIGN_OPT;
   A_OP_POP_TMP; T_EQUALS; N_EXP; A_OP_VAR_ASSIGN; T_EQUALS; N_EXP; A_OP_VAR_ASSIGN; N_FUNCTION_CALL;
   A_OP_RET_DISCARD; T_LBRACKET; N_EXP; T_RBRACKET; A_OP_ARRAY_XLAT; T_DOT; N_ATTR_ASSIGN; T_DOT;
   A_OP_OBJECT_GET; N_ATTR_ASSIGN; T_ID; A_OP_PUSH_TMP; N_ATTR_ASSIGN2; T_EQUALS; N_EXP; A_OP_ATTR_ASSIGN;
   T_LBRACKET; N_EXP; T_RBRACKET; T_EQUALS; N_EXP; A_OP_ARRAY_ASSIGN; N_METHOD_CALL; A_OP_RET_DISCARD;
   A_OP_METHOD_LOOKUP; T_LPAREN; N_ARG_LIST_OPT; T_RPAREN; A_OP_CALL; A_OP_FUNCTION_LOOKUP; T_LPAREN;
   N_ARG_LIST_OPT; T_RPAREN; A_OP_CALL; N_ARG_LIST; N_EXP; A_OP_ARG; N_ARG_LIST1; T_COMMA; N_ARG_LIST;
   N_EXP_LST; T_ID; A_OP_PUSH_TMP; N_ASSIGN_OR_CALL1; N_EXP_LST1; T_COMMA; N_EXP_LST; N_AND_EXP; N_OR_EXP;
   T_BAR; N_EXP; A_OP_OR; T_LOGICOR; N_EXP; A_OP_LOGIC_OR; T_CARET; N_EXP; A_OP_XOR; N_RELATIONAL_EXP;
   N_AND_EXP1; T_AMPERSAND; N_AND_EXP; A_OP_AND; T_LOGICAND; N_AND_EXP; A_OP_LOGIC_AND; N_SHIFT_EXP;
   N_RELATIONAL_EXP1; T_LESSTHEN; N_RELATIONAL_EXP; A_OP_LT; T_GREATTHEN; N_RELATIONAL_EXP; A_OP_GT; T_EQU;
   N_RELATIONAL_EXP; A_OP_EQU; T_NEQ; N_RELATIONAL_EXP; A_OP_NEQ; T_GTE; N_RELATIONAL_EXP; A_OP_GTE; T_LTE;
   N_RELATIONAL_EXP; A_OP_LTE; N_ADDITIVE_EXP; N_SHIFT_EXP1; T_SHL; N_SHIFT_EXP; A_OP_SHL; T_ASR;
   N_SHIFT_EXP; A_OP_ASR; N_DIV_EXP; N_ADDITIVE_EXP1; T_PLUS; N_ADDITIVE_EXP; A_OP_ADD; T_MINUS;
   N_ADDITIVE_EXP; A_OP_SUB; N_MULT_EXP; N_DIV_EXP1; T_SLASH; N_DIV_EXP; A_OP_DIV; T_PERCENT; N_DIV_EXP;
   A_OP_MOD; N_UNARY_EXP; N_MULT_EXP1; T_STAR; N_MULT_EXP; A_OP_MUL; N_PRIMARY_EXP; T_TILDE; N_UNARY_EXP;
   A_OP_INV; T_MINUS; N_UNARY_EXP; A_OP_MINUS; T_NOT; N_UNARY_EXP; A_OP_NOT; T_LPAREN; N_EXP; T_RPAREN;
   T_INT; A_OP_PUSH_INT; T_CHAR; A_OP_PUSH_INT; T_STRING; A_OP_PUSH_STRING; T_TRUE; A_OP_PUSH_TRUE; T_FALSE;
   A_OP_PUSH_FALSE; N_ID_EVAL; T_ID; A_OP_PUSH_TMP; N_ID_EVAL1; A_OP_VAR_EVAL; N_FUNCTION_CALL;
   A_OP_CALL_RET; T_LBRACKET; N_EXP; T_RBRACKET; A_OP_ARRAY_XLAT; T_DOT; N_ATTR_EVAL; T_DOT; A_OP_OBJECT_GET;
   N_ATTR_EVAL; T_ID; A_OP_PUSH_TMP; N_ATTR_EVAL1; A_OP_ATTR_EVAL; N_METHOD_CALL; A_OP_CALL_RET; T_LBRACKET;
   N_EXP; T_RBRACKET; A_OP_ARRAY_EVAL; T_LBRACE; A_OP_BLK_OPEN; N_STAT_LIST; T_RBRACE; A_OP_BLK_CLOSE;
   N_STAT; N_STAT_LIST; N_SEMI_STAT; T_SEMICOLON; N_STAT_LIST; T_FOR; T_LPAREN; N_EXP_LST_OPT; T_SEMICOLON;
   A_OP_FOR_INIT; N_EXP; A_OP_FOR_COND; T_SEMICOLON; N_EXP_LST_OPT; A_OP_FOR_AFTER; T_RPAREN;
   N_COMPOUND_STAT; A_OP_FOR_END; T_WHILE; A_OP_WHILE_BEGIN; N_CONDITION; A_OP_WHILE_COND; N_COMPOUND_STAT;
   A_OP_WHILE_END; T_IF; N_CONDITION; A_OP_IF_COND; N_COMPOUND_STAT; N_ELSE_OPT; A_OP_IF_END; T_TRY;
   A_OP_TRY_BEGIN; N_COMPOUND_STAT; N_CATCH_OPT; T_LPAREN; N_EXP; T_RPAREN; T_THROW; N_EXP; A_OP_THROW;
   T_VAR; N_VAR_LIST; T_ID; A_OP_PUSH_TMP; N_ASSIGN_OR_CALL1; T_ELSE; A_OP_IF_ELSE; N_COMPOUND_STAT;
   A_OP_TRY_END; T_CATCH; A_OP_CATCH; A_OP_BLK_OPEN; T_LPAREN; T_ID; A_OP_VAR_DECL; A_OP_PUSH_TMP;
   A_OP_VAR_ASSIGN; T_RPAREN; T_LBRACE; N_STAT_LIST; T_RBRACE; A_OP_BLK_CLOSE; A_OP_CATCH_END
  ].
(** The right-hand side of each production: offset and length. *)
Definition rule_idx : list (Z * Z) :=
  [
   (0, 1); (1, 2); (3, 2); (5, 2); (7, 1); (8, 2); (10, 2); (12, 0); (12, 2); (14, 4); (18, 1); (19, 3);
   (22, 3); (25, 2); (27, 6); (33, 3); (36, 3); (39, 3); (42, 6); (48, 2); (50, 5); (55, 5); (60, 0);
   (60, 1); (61, 3); (64, 0); (64, 2); (66, 0); (66, 1); (67, 4); (71, 0); (71, 2); (73, 2); (75, 0);
   (75, 3); (78, 3); (81, 3); (84, 2); (86, 0); (86, 3); (89, 3); (92, 2); (94, 0); (94, 3); (97, 3);
   (100, 3); (103, 3); (106, 3); (109, 3); (112, 2); (114, 0); (114, 3); (117, 3); (120, 2); (122, 0);
   (122, 3); (125, 3); (128, 2); (130, 0); (130, 3); (133, 3); (136, 2); (138, 0); (138, 3); (141, 1);
   (142, 3); (145, 3); (148, 3); (151, 3); (154, 2); (156, 2); (158, 2); (160, 2); (162, 2); (164, 1);
   (165, 3); (168, 1); (169, 2); (171, 6); (177, 3); (180, 3); (183, 1); (184, 2); (186, 4); (190, 5);
   (195, 0); (195, 2); (197, 3); (200, 13); (213, 6); (219, 6); (225, 4); (229, 3); (232, 3); (235, 2);
   (237, 3); (240, 0); (240, 3); (243, 1); (244, 14)
  ].

(** ** [microjs_ll_push] *)

Definition vec_at (l : list (Z * Z)) (i : Z) : option (Z * Z) :=
  if i <? 0 then None else l !! Z.to_nat i.

(** The binary search of [vec] for [tok]; [imin], [imax] count from 1. *)
Fixpoint search (fuel : nat) (off imin imax tok : Z) : option Z :=
  match fuel with
  | O => None
  | S fuel =>
    if imin <? imax then
      let imid := (imin + imax) / 2 in
      '(t, _) ← vec_at predict_vec (off + imid - 1);
      if t <? tok then search fuel off (imid + 1) imax tok else search fuel off imin imid tok
    else Some imin
  end.

(** The production to push for [sym] when [tok] is next: [inl] the code -1. *)
Definition microjs_ll_push (sym tok : Z) : option (Z + list Z) :=
  if sym <? NONTERM_BASE then Some (inl (-1))
  else
    '(off, cnt) ← vec_at predict_idx (sym - NONTERM_BASE);
    imin ← search 64 off 1 cnt tok;
    '(t, r) ← vec_at predict_vec (off + imin - 1);
    if negb (t =? tok) then Some (inl (-1))
    else
      '(o, n) ← vec_at rule_idx r;
      Some (inr (take (Z.to_nat n) (drop (Z.to_nat o) rule_vec))).

(** The symbols [microjs_ll_start] puts on the empty stack. *)
Definition microjs_ll_start : list Z := [N_PROGRAM; T_EOF].
End Ll.
