(* ===== verification/JsLex.v ===== *)
(** * MicroJS: the lexical analyser

    [sdk/libmicrojs/microjs_lex.c]. A text is a list of bytes and reads as zeros
    behind its end, where the scan of an identifier goes without looking at the
    length. The pointer of a token into the text is the bytes it points to: for
    a name as many as the qualifier says, for a string the rest of the text. *)

From S2P Require Import Prelude JsLl.
Open Scope Z_scope.
Import Ll.

Module Lex.

Definition ERR_UNEXPECTED_CHAR := 2.
Definition ERR_UNCLOSED_STRING := 4.
Definition ERR_UNCLOSED_COMMENT := 5.
Definition ERR_INVALID_LITERAL := 6.

(** ** Characters: [libc/ctype.c] *)

Definition isupper (c : Z) : bool := (65 <=? c) && (c <=? 90).
Definition islower (c : Z) : bool := (97 <=? c) && (c <=? 122).
Definition isdigit (c : Z) : bool := (48 <=? c) && (c <=? 57).
Definition isalpha (c : Z) : bool := isupper c || islower c.
Definition isalnum (c : Z) : bool := isupper c || islower c || isdigit c.
Definition isxdigit (c : Z) : bool := isdigit c || (65 <=? c) && (c <=? 70) || (97 <=? c) && (c <=? 102).
Definition isspace (c : Z) : bool := (9 <=? c) && (c <=? 13) || (c =? 32).

(** ** Tokens *)

Record token := mk_token { typ : Z; qlf : Z; t_u32 : Z; t_s : list Z }.
Record lexer := mk_lexer { l_off : Z; l_len : Z; l_txt : list Z }.

Definition lexer_open (txt : list Z) (len : Z) : lexer := mk_lexer 0 (u16 len) txt.

(** The build's switch for traces, which adds labels to the compiler's
    descriptors, and the row the search for keywords reads behind the table. *)
Class JsConfig := {
  trace_enabled : bool;
  lex_beyond : Z * list Z;
}.

Definition lex_keyword : list (Z * list Z) :=
  [(T_CATCH, [99; 97; 116; 99; 104]); (T_ELSE, [101; 108; 115; 101]); (T_FALSE, [102; 97; 108; 115; 101]);
   (T_FOR, [102; 111; 114]); (T_IF, [105; 102]); (T_THROW, [116; 104; 114; 111; 119]);
   (T_TRUE, [116; 114; 117; 101]); (T_TRY, [116; 114; 121]); (T_VAR, [118; 97; 114]);
   (T_WHILE, [119; 104; 105; 108; 101])].

(** ** Scanning *)

Section scan.
Context `{JsConfig}.
Variables (txt : list Z) (len : Z).

Definition chr (off : Z) : Z := zget txt off.
Definition slice (k n : Z) : list Z := take (Z.to_nat n) (drop (Z.to_nat k) txt).

(** A token and the offset behind it. *)
Definition tok (t off : Z) : option (token * Z) := Some (mk_token t 0 0 [], off).
Definition err (e off : Z) : option (token * Z) := Some (mk_token T_ERR e 0 [], off).

(** The end of an identifier, the closing quote. *)
Fixpoint id_end (fuel : nat) (off : Z) : option Z :=
  match fuel with
  | O => None
  | S fuel => let off := off + 1 in
    if isalnum (chr off) || (chr off =? 95) then id_end fuel off else Some off
  end.
Fixpoint quote_end (fuel : nat) (qt off : Z) : option (Z + Z) :=
  match fuel with
  | O => None
  | S fuel => let off := off + 1 in
    if off =? len then Some (inl off)
    else if chr off =? qt then Some (inr off) else quote_end fuel qt off
  end.

(** The type of a name: the last row of the table, or of what follows it, that
    is the name. *)
Definition keyword (nm : list Z) : Z :=
  foldl (fun ty kw => if bool_decide (snd kw = nm) then fst kw else ty) T_ID (lex_keyword ++ [lex_beyond]).

(** The digits of a number: the value, the offset and the last character seen. *)
Definition hex_digit (c : Z) : Z :=
  if 97 <=? c then c - (97 - 10) else if 65 <=? c then c - (65 - 10) else c - 48.
Fixpoint hex_digits (fuel : nat) (val c off : Z) : option (Z * Z * Z) :=
  match fuel with
  | O => None
  | S fuel =>
    let val := u32 (u32 (Z.shiftl val 4) + hex_digit c) in
    let off := off + 1 in
    if off =? len then Some (val, off, hex_digit c)
    else if isxdigit (chr off) then hex_digits fuel val (chr off) off else Some (val, off, chr off)
  end.
Fixpoint dec_digits (fuel : nat) (val c off : Z) : option (Z * Z * Z) :=
  match fuel with
  | O => None
  | S fuel =>
    let val := u32 (u32 (Z.shiftl (u32 (Z.shiftl val 2) + val) 1) + (c - 48)) in
    let off := off + 1 in
    if off =? len then Some (val, off, c)
    else if isdigit (chr off) then dec_digits fuel val (chr off) off else Some (val, off, chr off)
  end.

Definition number_end (r : Z * Z * Z) : option (token * Z) :=
  let '(val, off, c) := r in
  if isalpha c || (c =? 95) then err ERR_INVALID_LITERAL off
  else Some (mk_token T_INT 0 val [], off).
Definition number (fuel : nat) (c off : Z) : option (token * Z) :=
  if (c =? 48) && (off + 1 <? len) && ((chr (off + 1) =? 120) || (chr (off + 1) =? 88)) then
    let off := off + 2 in
    if off =? len then err ERR_INVALID_LITERAL off
    else if negb (isxdigit (chr off)) then err ERR_INVALID_LITERAL off
    else r ← hex_digits fuel 0 (chr off) off; number_end r
  else r ← dec_digits fuel 0 c off; number_end r.

(** The end of a [//] comment; of a [/*] comment, [inl] when it is unclosed. *)
Fixpoint line_end (fuel : nat) (c off : Z) : option Z :=
  match fuel with
  | O => None
  | S fuel =>
    if negb (c =? 10) && (off + 1 <? len) then line_end fuel (chr (off + 1)) (off + 1)
    else Some (if c =? 10 then off else off + 1)
  end.
Fixpoint comment_end (fuel : nat) (off : Z) : option (Z + Z) :=
  match fuel with
  | O => None
  | S fuel =>
    let off := off + 1 in
    if off =? len then Some (inl off)
    else if chr off =? 42 then
      let off := off + 1 in
      if off =? len then Some (inl off)
      else if chr off =? 47 then Some (inr (off + 1)) else comment_end fuel off
    else comment_end fuel off
  end.

(** Two-character punctuation: [alts] the second characters. *)
Definition two (off single : Z) (alts : list (Z * Z)) : option (token * Z) :=
  let off := off + 1 in
  if off <? len then
    match find (fun a => chr off =? fst a) alts with
    | Some (_, t) => tok t (off + 1)
    | None => tok single off
    end
  else tok single off.
(** [|] and [&]: the second character is not read. *)
Definition doubled (off single double : Z) : option (token * Z) :=
  let off := off + 1 in if off <? len then tok double (off + 1) else tok single off.

Definition punctuation : list (Z * Z) :=
  [(46, T_DOT); (44, T_COMMA); (59, T_SEMICOLON); (94, T_CARET); (126, T_TILDE); (42, T_STAR); (37, T_PERCENT);
   (43, T_PLUS); (45, T_MINUS); (40, T_LPAREN); (41, T_RPAREN); (123, T_LBRACE); (125, T_RBRACE);
   (91, T_LBRACKET); (93, T_RBRACKET); (26, T_EOF)].
Definition punct (c off : Z) : option (token * Z) :=
  if c =? 60 then two off T_LESSTHEN [(60, T_SHL); (61, T_LTE)]
  else if c =? 62 then two off T_GREATTHEN [(62, T_ASR); (61, T_GTE)]
  else if c =? 61 then two off T_EQUALS [(61, T_EQU)]
  else if c =? 33 then two off T_NOT [(61, T_NEQ)]
  else if c =? 124 then doubled off T_BAR T_LOGICOR
  else if c =? 38 then doubled off T_AMPERSAND T_LOGICAND
  else match find (fun a => c =? fst a) punctuation with
    | Some (_, t) => tok t (off + 1)
    | None => err ERR_UNEXPECTED_CHAR off
    end.

Fixpoint scan (fuel : nat) (off : Z) : option (token * Z) :=
  match fuel with
  | O => None
  | S fuel' =>
    if negb (off <? len) then tok T_EOF off
    else
      let c := chr off in
      if isspace c then scan fuel' (off + 1)
      else if (c =? 39) || (c =? 34) then
        q ← quote_end fuel c off;
        match q with
        | inl off => err ERR_UNCLOSED_STRING off
        | inr end_ =>
          let k := off + 1 in let n := end_ - k in
          if (n =? 1) && (c =? 39) then Some (mk_token T_CHAR 0 (chr k) [], end_ + 1)
          else Some (mk_token T_STRING (u8 n) 0 (drop (Z.to_nat k) txt), end_ + 1)
        end
      else if isalpha c || (c =? 95) then
        e ← id_end (S (length txt)) off;
        let n := e - off in
        Some (mk_token (keyword (slice off n)) (u8 n) 0 (slice off (u8 n)), e)
      else if isdigit c then number fuel c off
      else if (c =? 47) && (off + 1 <? len) then
        let off := off + 1 in
        let c := chr off in
        if c =? 47 then e ← line_end fuel c off; scan fuel' e
        else if c =? 42 then
          e ← comment_end fuel off;
          match e with inl off => err ERR_UNCLOSED_COMMENT off | inr off => scan fuel' off end
        else tok T_SLASH off
      else if c =? 47 then err ERR_UNEXPECTED_CHAR (off + 1)
      else punct c off
  end.
End scan.

Definition lexer_scan `{JsConfig} (lex : lexer) : option (token * lexer) :=
  '(t, off) ← scan (l_txt lex) (l_len lex) (S (Z.to_nat (l_len lex))) (l_off lex);
  Some (t, mk_lexer (u16 off) (l_len lex) (l_txt lex)).
End Lex.
