(* ===== verification/JsSym.v ===== *)
(** * MicroJS: symbols and strings

    [sdk/libmicrojs/microjs_sym.c] and [microjs_str.c]. The objects grow from the
    bottom of the table's buffer and the compiler's stack from its top; both are
    lists here, with the sizes in bytes the code gives their elements, so that
    [bp], [sp] and the tests for a full table are the code's. An element of the
    stack keeps its type: reading it as another one has no result. *)

From S2P Require Import Prelude JsLl JsLex.
Open Scope Z_scope.
Import Ll Lex.

Module Sym.

Definition ERR_STRBUF_OVERFLOW := 11.
Definition ERR_STRING_NOT_FOUND := 10.
Definition ERR_EXTERN_UNKNOWN := 15.
Definition ERR_SYM_PUSH_FAIL := 18.
Definition ERR_SYM_POP_FAIL := 19.
Definition ERR_EXTERN_NOT_MEMBER := 32.

(** ** The table *)

Definition SYM_OBJ_ALLOC := 0x80.
Definition SYM_OBJ_GLOBAL := 0x40.
Record sym_obj := mk_obj { o_nm : list Z; o_flags : Z; o_size : Z; o_addr : Z }.

(** What the compiler pushes. *)
Inductive entry :=
| Tmp (nm : list Z)
| Ref (addr : Z)
| Fld (a0 a1 a2 a3 : Z)
| Wld (loop cond : Z)
| Cld (cid : Z)
| Call (xid argcnt argmin argmax retcnt : Z)
| Addr (a : Z)
| Sf (prev bp : Z).

(** [t_objs] and [t_stk]: the newest first. [t_stale]: what a walk from the front
    finds behind [bp], where a rollback leaves no end of the list, the oldest
    first; none when the stack has grown over it. *)
Record symtab := mk_tab {
  t_stack_sz : Z;
  t_data_sz : Z;
  t_objs : list sym_obj;
  t_stk : list entry;
  t_fp : Z;
  t_top : Z;
  t_stale : option (list sym_obj);
}.

Section sym.
Context `{JsConfig}.

Definition lbl_size : Z := if trace_enabled then 2 else 0.
Definition entry_size (e : entry) : Z :=
  match e with
  | Tmp _ => 8
  | Ref _ => 2 + lbl_size
  | Fld _ _ _ _ => 8 + lbl_size
  | Wld _ _ => 4 + lbl_size
  | Cld _ => 1
  | Call _ _ _ _ _ => 5
  | Addr _ => 2
  | Sf _ _ => 4
  end.
Definition obj_len (nm : list Z) : Z := 6 + zlen nm + 1.

Fixpoint stk_size (l : list entry) : Z :=
  match l with [] => 0 | e :: l => entry_size e + stk_size l end.
Fixpoint objs_size (l : list sym_obj) : Z :=
  match l with [] => 0 | o :: l => obj_len (o_nm o) + objs_size l end.
Definition t_sp (t : symtab) : Z := t_top t - stk_size (t_stk t).
Definition t_bp (t : symtab) : Z := objs_size (t_objs t).

Definition set_stk (stk : list entry) (t : symtab) : symtab :=
  mk_tab (t_stack_sz t) (t_data_sz t) (t_objs t) stk (t_fp t) (t_top t) (t_stale t).
Definition set_fp (fp : Z) (t : symtab) : symtab :=
  mk_tab (t_stack_sz t) (t_data_sz t) (t_objs t) (t_stk t) fp (t_top t) (t_stale t).
Definition set_objs (objs : list sym_obj) (t : symtab) : symtab :=
  mk_tab (t_stack_sz t) (t_data_sz t) objs (t_stk t) (t_fp t) (t_top t) (t_stale t).
Definition set_stack_sz (n : Z) (t : symtab) : symtab :=
  mk_tab n (t_data_sz t) (t_objs t) (t_stk t) (t_fp t) (t_top t) (t_stale t).
Definition set_data_sz (n : Z) (t : symtab) : symtab :=
  mk_tab (t_stack_sz t) n (t_objs t) (t_stk t) (t_fp t) (t_top t) (t_stale t).

Definition set_stale (s : option (list sym_obj)) (t : symtab) : symtab :=
  mk_tab (t_stack_sz t) (t_data_sz t) (t_objs t) (t_stk t) (t_fp t) (t_top t) s.
Definition symtab_init (buf_len : Z) : symtab :=
  let top := u16 (buf_len - (12 + lbl_size)) in mk_tab 0 0 [] [] top top (Some []).

(** ** The stack *)

(** The stack at [sp]: it overwrites what is behind [bp] and its end. *)
Definition overwrite (sp : Z) (t : symtab) : symtab :=
  match t_stale t with
  | Some (_ :: _ as l) => if sp <? t_bp t + objs_size l + 2 then set_stale None t else t
  | _ => t
  end.
Definition sym_push (e : entry) (t : symtab) : Z * symtab :=
  if t_sp t - entry_size e <? t_bp t + 2 then (- ERR_SYM_PUSH_FAIL, t)
  else (0, set_stk (e :: t_stk t) (overwrite (t_sp t - entry_size e) t)).
Definition sym_pop (t : symtab) : option ((Z + entry) * symtab) :=
  if t_fp t <=? t_sp t then Some (inl (- ERR_SYM_POP_FAIL), t)
  else match t_stk t with e :: l => Some (inr e, set_stk l t) | [] => None end.

(** The stack from the byte offset [o] up. *)
Fixpoint stk_from (top o : Z) (l : list entry) : option (list entry) :=
  if top - stk_size l =? o then Some l
  else match l with e :: l => stk_from top o l | [] => None end.
(** The lowest element of the frame: it ends where the frame does. *)
Fixpoint pick (top fp : Z) (l : list entry) : option entry :=
  match l with
  | [] => None
  | e :: l => if top - stk_size l =? fp then Some e else pick top fp l
  end.
Definition sym_pick (t : symtab) : option entry := pick (t_top t) (t_fp t) (t_stk t).

Definition sym_sf_push (t : symtab) : Z * symtab :=
  let '(ret, t') := sym_push (Sf (t_fp t) (t_bp t)) t in
  if ret =? 0 then (ret, set_fp (t_sp t') t') else (ret, t').

(** The objects below [bp]. *)
Fixpoint objs_below (bp : Z) (l : list sym_obj) : list sym_obj :=
  match l with
  | [] => []
  | o :: l' => if objs_size l <=? bp then l else objs_below bp l'
  end.
Definition sym_sf_pop (t : symtab) : option (Z * symtab) :=
  if t_top t <=? t_fp t then Some (ERR_SYM_POP_FAIL, t)
  else
    match stk_from (t_top t) (t_fp t) (t_stk t) with
    | Some (Sf prev bp :: l) => Some (0, set_stale (Some []) (set_objs (objs_below bp (t_objs t)) (set_fp prev (set_stk l t))))
    | _ => None
    end.
Definition sym_sf_get (t : symtab) : option (Z * Z) :=
  if t_top t <=? t_fp t then Some (0, 0)
  else
    match stk_from (t_top t) (t_fp t) (t_stk t) with
    | Some (Sf prev bp :: _) => Some (prev, bp)
    | _ => None
    end.

(** The objects from [bp] on, the oldest first. *)
Fixpoint objs_above (bp : Z) (l : list sym_obj) : list sym_obj :=
  match l with
  | [] => []
  | o :: l' => if objs_size l <=? bp then [] else objs_above bp l' ++ [o]
  end.

Definition symtab_state_save (t : symtab) : Z * Z := (t_sp t, t_bp t).
Fixpoint pop_frames (fuel : nat) (t : symtab) : option symtab :=
  match fuel with
  | O => None
  | S fuel => if t_fp t =? t_top t then Some t else '(_, t) ← sym_sf_pop t; pop_frames fuel t
  end.
Definition symtab_state_rollback (st : Z * Z) (t : symtab) : option symtab :=
  t ← pop_frames (S (length (t_stk t))) t;
  l ← stk_from (t_top t) (fst st) (t_stk t);
  if t_bp t <? snd st then None
  else
    let stale := s ← t_stale t; Some (objs_above (snd st) (t_objs t) ++ s) in
    Some (set_stale stale (set_objs (objs_below (snd st) (t_objs t)) (set_stk l t))).

(** ** Objects *)

(** A new object, without an address. Its length goes into a byte of each of its
    neighbours; a longer name breaks the list. *)
Definition sym_obj_new (nm : list Z) (t : symtab) : option (option sym_obj * symtab) :=
  if t_sp t <? t_bp t + obj_len nm + 2 then Some (None, t)
  else if 255 <? obj_len nm then None
  else
    let o := mk_obj nm (if t_fp t =? t_top t then SYM_OBJ_GLOBAL else 0) 0 0 in
    Some (Some o, set_stale (Some []) (set_objs (o :: t_objs t) t)).

(** From the innermost scope outwards. *)
Definition sym_obj_lookup (nm : list Z) (t : symtab) : option sym_obj :=
  find (fun o => bool_decide (o_nm o = nm)) (t_objs t).

Definition sym_obj_scope_lookup (nm : list Z) (t : symtab) : option (option sym_obj) :=
  '(_, bp) ← sym_sf_get t;
  match find (fun o => bool_decide (o_nm o = nm)) (objs_above bp (t_objs t)) with
  | Some o => Some (Some o)
  | None => s ← t_stale t; Some (find (fun o => bool_decide (o_nm o = nm)) s)
  end.

Definition symtab_data_size (t : symtab) : option Z :=
  s ← t_stale t; Some (foldr (fun o n => o_size o + n) 0 (s ++ t_objs t)).
End sym.

(** ** The library *)

Definition O_ARRAY := 1.
Definition O_MEMBER := 2.
Definition O_SIZEOFFS := 4.
Definition O_READONLY := 8.
Definition O_SINGLETON := 8.
Definition O_FUNCTION := 0.
Definition O_INTEGER := 0x40.
Definition O_OBJECT := 0x80.

(** The members of the union are fields of their own: each is read after a test
    of the type. *)
Record extdef := mk_ext {
  x_nm : list Z;
  x_opt : Z;
  x_argmin : Z;
  x_argmax : Z;
  x_ret : Z;
  x_cdef : Z;
  x_inst : Z;
  x_size : Z;
  x_offs : Z;
}.
Record classdef := mk_class { c_nm : list Z; c_first : Z; c_last : Z }.
Record ext_libdef := mk_lib { classtab : list classdef; xdefs : list extdef }.

Definition EXTDEF_TYPE (x : extdef) : Z := Z.land (x_opt x) 0xc0.
Definition EXTDEF_FLAG (x : extdef) (o : Z) : bool := negb (Z.land (x_opt x) o =? 0).

(** The first index from [i] on whose name is [nm]. *)
Fixpoint find_nm (nm : list Z) (i : Z) (l : list extdef) : option Z :=
  match l with
  | [] => None
  | x :: l => if bool_decide (x_nm x = nm) then Some i else find_nm nm (i + 1) l
  end.
Definition lib_extern_get (lib : ext_libdef) (xid : Z) : option extdef := xdefs lib !! Z.to_nat xid.
Definition lib_lookup (lib : ext_libdef) (nm : list Z) : Z := default (-1) (find_nm nm 0 (xdefs lib)).
Definition lib_member_lookup (lib : ext_libdef) (cid : Z) (nm : list Z) : option Z :=
  c ← classtab lib !! Z.to_nat cid;
  let members := take (Z.to_nat (c_last c - c_first c + 1)) (drop (Z.to_nat (c_first c)) (xdefs lib)) in
  Some (default (- ERR_EXTERN_NOT_MEMBER) (find_nm nm (c_first c) members)).

(** ** The string pool

    The bytes of [var_strbuf]: [cnt], [pos], the offsets, then the strings from
    the top down. *)

Definition get16 (b : list Z) (i : Z) : Z := zget b i + 256 * zget b (i + 1).
Definition set16 (b : list Z) (i v : Z) : list Z := patch i [u8 v; u8 (Z.shiftr v 8)] b.
Definition str_cnt (b : list Z) : Z := get16 b 0.
Definition str_pos (b : list Z) : Z := get16 b 2.
Definition str_offs (b : list Z) (i : Z) : Z := get16 b (4 + 2 * i).

Definition strbuf_init (b : list Z) (len : Z) : list Z := set16 (set16 (set16 b 2 len) 0 0) 4 0.

Definition cxlate (c : Z) : Z :=
  match find (fun p => fst p =? c) [(97, 7); (98, 8); (102, 12); (110, 10); (114, 13); (116, 9); (118, 11)] with
  | Some (_, x) => x
  | None => c
  end.

(** The bytes [cstrncpy] stores for the first [len] of [src]. *)
Fixpoint cstrncpy (esc : bool) (len : nat) (src : list Z) : list Z :=
  match len with
  | O => [0]
  | S len =>
    let c := hd 0 src in
    if esc then cxlate c :: cstrncpy false len (tail src)
    else if c =? 92 then cstrncpy true len (tail src)
    else c :: cstrncpy false len (tail src)
  end.

(** [n] is unsigned: an escape as the last character makes it wrap. *)
Fixpoint cstrncmp (fuel : nat) (s1 czs : list Z) (n : Z) : option bool :=
  match fuel with
  | O => None
  | S fuel =>
    if 0 <? n then
      let c2 := hd 0 czs in
      let '(c2, czs, n) := if c2 =? 92 then (cxlate (hd 0 (tail czs)), tail (tail czs), u32 (n - 1))
                           else (c2, tail czs, n) in
      if negb (hd 0 s1 =? c2) then Some false
      else cstrncmp fuel (tail s1) czs (u32 (n - 1))
    else Some (hd 0 s1 =? 0)
  end.

Fixpoint cstr_lookup_from (fuel : nat) (i : Z) (b cs : list Z) (len : Z) : option Z :=
  match fuel with
  | O => Some (- ERR_STRING_NOT_FOUND)
  | S fuel =>
    r ← cstrncmp (S (length b + length cs)) (drop (Z.to_nat (str_offs b i)) b) cs len;
    if (r : bool) then Some i else cstr_lookup_from fuel (i + 1) b cs len
  end.
Definition cstr_lookup (b cs : list Z) (len : Z) : option Z :=
  cstr_lookup_from (Z.to_nat (str_cnt b)) 0 b cs len.

(** The test for room compares as unsigned: a negative offset passes it. *)
Definition cstr_add (b cs : list Z) (len : Z) : option (Z * list Z) :=
  idx ← cstr_lookup b cs len;
  if 0 <=? idx then Some (idx, b)
  else
    let offs := str_pos b - (len + 1) in
    let idx := str_cnt b in
    if u32 offs <? (idx + 1) * 2 then Some (- ERR_STRBUF_OVERFLOW, b)
    else if offs <? 0 then None
    else
      let b := patch offs (cstrncpy false (Z.to_nat len) cs) b in
      let b := set16 b (4 + 2 * idx) offs in
      let b := set16 b 0 (str_cnt b + 1) in
      Some (idx, set16 b 2 (str_pos b - (len + 1))).

(** [str]: the offset of the string, none for the empty one. *)
Definition str (b : list Z) (idx : Z) : option Z := if str_cnt b <=? idx then None else Some (str_offs b idx).
End Sym.
