(* ===== verification/JsSdt.v ===== *)
(** * MicroJS: the compiler

    [sdk/libmicrojs/microjs_sdt.c]: the semantic actions, which write the byte
    code while the parser runs, and the table-driven parser. Optimisations and
    strings are enabled, functions are not, as in every configuration of the
    repository. A write outside of the code buffer has no result: the test for
    its size comes after each action. *)

From S2P Require Import Prelude Js JsLl JsLex JsSym.
Open Scope Z_scope.
Import Ll Lex Sym.

Module Sdt.

Definition ERR_UNEXPECED_EOF := 1.
Definition ERR_UNEXPECTED_SYMBOL := 3.
Definition ERR_SYNTAX_ERROR := 12.
Definition ERR_VAR_UNKNOWN := 14.
Definition ERR_ARG_MISSING := 16.
Definition ERR_TOO_MANY_ARGS := 17.
Definition ERR_OBJ_NEW_FAIL := 20.
Definition ERR_SDT_STACK_OVERFLOW := 21.
Definition ERR_CODE_MEM_OVERFLOW := 23.
Definition ERR_RET_COUNT_MISMATCH := 24.
Definition ERR_STACK_UNDERFLOW := 27.
Definition ERR_EXTERN_NOT_FUNCTION := 28.
Definition ERR_EXTERN_NOT_ARRAY := 29.
Definition ERR_EXTERN_NOT_OBJECT := 30.
Definition ERR_EXTERN_NOT_INTEGER := 31.
Definition ERR_EXTERN_READONLY := 33.
Definition ERR_EXTERN_NOT_SCALAR := 27.

Section sdt.
Context `{JsConfig}.
Variable libdef : ext_libdef.

(** ** The state

    [d_ll]: the parser's stack, the top first; [d_cap]: the bytes it has room
    for. *)
Record microjs_sdt := mk_sdt {
  d_tok : token;
  d_tab : symtab;
  d_strbuf : list Z;
  d_code : list Z;
  d_cdsz : Z;
  d_pc : Z;
  d_stack_pos : Z;
  d_data_pos : Z;
  d_cap : Z;
  d_ll : list Z;
  d_spc : Z;
}.
Definition eta_sdt (d : microjs_sdt) : microjs_sdt :=
  mk_sdt (d_tok d) (d_tab d) (d_strbuf d) (d_code d) (d_cdsz d) (d_pc d) (d_stack_pos d) (d_data_pos d)
    (d_cap d) (d_ll d) (d_spc d).
Definition ctok : lens microjs_sdt token := Lens d_tok ltac:(mk_set eta_sdt d_tok).
Definition tab : lens microjs_sdt symtab := Lens d_tab ltac:(mk_set eta_sdt d_tab).
Definition strbuf : lens microjs_sdt (list Z) := Lens d_strbuf ltac:(mk_set eta_sdt d_strbuf).
Definition code : lens microjs_sdt (list Z) := Lens d_code ltac:(mk_set eta_sdt d_code).
Definition cdsz : lens microjs_sdt Z := Lens d_cdsz ltac:(mk_set eta_sdt d_cdsz).
Definition cpc : lens microjs_sdt Z := Lens d_pc ltac:(mk_set eta_sdt d_pc).
Definition stack_pos : lens microjs_sdt Z := Lens d_stack_pos ltac:(mk_set eta_sdt d_stack_pos).
Definition dpos : lens microjs_sdt Z := Lens d_data_pos ltac:(mk_set eta_sdt d_data_pos).
Definition ll : lens microjs_sdt (list Z) := Lens d_ll ltac:(mk_set eta_sdt d_ll).
Definition spc : lens microjs_sdt Z := Lens d_spc ltac:(mk_set eta_sdt d_spc).

Abbreviation C := (M microjs_sdt).

(** ** Calls with early returns *)

Definition bail (c : C Z) (k : C Z) : C Z := r <- c;; if r <? 0 then ret r else k.
Definition sym (f : symtab -> Z * symtab) : C Z :=
  t <- get tab;; let '(r, t) := f t in put tab t;;; ret r.
Definition symo {A} (f : symtab -> option (A * symtab)) : C A :=
  fun s => match f (d_tab s) with Some (a, t) => Some (a, lset tab t s) | None => None end.
Definition push_sym (e : entry) : C Z := sym (sym_push e).
(** [sym_pop] of an element that [f] takes apart. *)
Definition popped {A} (f : entry -> option A) (k : A -> C Z) : C Z :=
  r <- symo sym_pop;;
  match r with
  | inl code => ret code
  | inr e => match f e with Some a => k a | None => fault end
  end.
Definition as_tmp (e : entry) : option (list Z) := match e with Tmp nm => Some nm | _ => None end.
Definition as_ref (e : entry) : option Z := match e with Ref a => Some a | _ => None end.
Definition as_fld (e : entry) : option (Z * Z * Z * Z) :=
  match e with Fld a0 a1 a2 a3 => Some (a0, a1, a2, a3) | _ => None end.
Definition as_wld (e : entry) : option (Z * Z) := match e with Wld l c => Some (l, c) | _ => None end.
Definition as_cld (e : entry) : option Z := match e with Cld c => Some c | _ => None end.
Definition as_call (e : entry) : option (Z * Z * Z * Z * Z) :=
  match e with Call x n lo hi r => Some (x, n, lo, hi, r) | _ => None end.
Definition as_addr (e : entry) : option Z := match e with Addr a => Some a | _ => None end.

(** ** Target memory *)

Definition tgt_alloc32 : C Z :=
  p <- get dpos;;
  let addr := Z.land (p + 3) (Z.lnot 3) in
  put dpos (u16 (addr + 4));;;
  p <- get dpos;; t <- get tab;;
  when (t_data_sz t <? p) (put tab (set_data_sz p t));;;
  ret addr.
Definition tgt_stack_push : C Z :=
  p <- get stack_pos;;
  put stack_pos (u16 (p + 4));;;
  p <- get stack_pos;; t <- get tab;;
  when (t_stack_sz t <? p) (put tab (set_stack_sz p t));;;
  ret 0.
Definition tgt_stack_pop : C Z :=
  p <- get stack_pos;;
  if p =? 0 then ret (- ERR_STACK_UNDERFLOW) else put stack_pos (u16 (p - 4));;; ret 0.
Definition tgt_stack_adjust (cnt : Z) : C Z :=
  p <- get stack_pos;;
  let addr := p + cnt * 4 in
  if addr <? 0 then ret (- ERR_STACK_UNDERFLOW) else put stack_pos (u16 addr);;; ret 0.

(** ** Code generation *)

Definition emit (b : Z) : C unit :=
  p <- get cpc;; arr_wr code p (u8 b);;; put cpc (u16 (p + 1)).
Definition save_spc : C unit := p <- get cpc;; put spc p.

(** An opcode with a 12-bit operand. *)
Definition emit12 (opc a : Z) : C unit := emit (opc + Z.land a 0xf);;; emit (Z.shiftr a 4).
Definition ext_call (xid n : Z) : C unit := emit Js.OPC_EXT;;; emit xid;;; emit n.

Definition encode_int (x : Z) : C Z :=
  save_spc;;;
  (if (-8 <=? x) && (x <? 8) then emit (Js.OPC_I4 + Z.land x 0xf)
   else if (-128 <=? x) && (x <? 128) then emit Js.OPC_I8;;; emit x
   else if (-32768 <=? x) && (x <? 32768) then emit Js.OPC_I16;;; emit x;;; emit (Z.shiftr x 8)
   else emit Js.OPC_I32;;; emit x;;; emit (Z.shiftr x 8);;; emit (Z.shiftr x 16);;; emit (Z.shiftr x 24));;;
  ret 0.

Definition is_constant : C (option Z) :=
  p <- get spc;;
  opc <- arr_rd code p;;
  if Z.land opc 0xf0 =? Js.OPC_I4 then ret (Some (Js.SIGNEXT4BIT (Z.land opc 0xf)))
  else if opc =? Js.OPC_I8 then b0 <- arr_rd code (p + 1);; ret (Some (s8 b0))
  else if opc =? Js.OPC_I16 then
    b0 <- arr_rd code (p + 1);; b1 <- arr_rd code (p + 2);;
    ret (Some (swrap 16 (Z.lor b0 (Z.shiftl b1 8))))
  else if opc =? Js.OPC_I32 then
    b0 <- arr_rd code (p + 1);; b1 <- arr_rd code (p + 2);;
    b2 <- arr_rd code (p + 3);; b3 <- arr_rd code (p + 4);;
    ret (Some (s32 (Z.lor (Z.lor (Z.lor b0 (Z.shiftl b1 8)) (Z.shiftl b2 16)) (Z.shiftl b3 24))))
  else ret None.
Definition is_const (k : Z) : C bool :=
  v <- is_constant;; ret (match v with Some v => v =? k | None => false end).
Definition rollback : C unit := p <- get spc;; put cpc p.

Definition op_push_tmp : C Z := t <- get ctok;; push_sym (Tmp (t_s t)).
Definition op_pop_tmp : C Z := popped as_tmp (fun _ => ret 0).

(** ** Scopes *)

Definition op_blk_open : C Z :=
  p <- get dpos;; push_sym (Addr p);;; sym sym_sf_push.
Definition op_blk_close : C Z :=
  bail (symo sym_sf_pop) (popped as_addr (fun a => put dpos a;;; ret 0)).

(** ** Variables *)

Definition op_var_decl : C Z :=
  t <- get ctok;;
  o <- symo (fun tb => o ← sym_obj_scope_lookup (t_s t) tb; Some (o, tb));;
  match o with
  | Some _ => ret 0
  | None =>
    o <- symo (sym_obj_new (t_s t));;
    match o with
    | None => ret (- ERR_OBJ_NEW_FAIL)
    | Some o =>
      addr <- tgt_alloc32;;
      tb <- get tab;;
      put tab (set_objs (mk_obj (o_nm o) (Z.lor (o_flags o) SYM_OBJ_ALLOC) 4 addr :: tail (t_objs tb)) tb);;;
      ret 0
    end
  end.
Definition op_var_eval : C Z :=
  popped as_tmp (fun nm =>
    tb <- get tab;;
    match sym_obj_lookup nm tb with
    | None => ret (- ERR_VAR_UNKNOWN)
    | Some o =>
      save_spc;;;
      emit12 Js.OPC_LD (Z.land (Z.shiftr (o_addr o) 2) 0xfff);;;
      tgt_stack_push
    end).
Definition op_var_assign : C Z :=
  popped as_tmp (fun nm =>
    tb <- get tab;;
    match sym_obj_lookup nm tb with
    | None => ret (- ERR_VAR_UNKNOWN)
    | Some o =>
      save_spc;;;
      emit12 Js.OPC_ST (Z.land (Z.shiftr (o_addr o) 2) 0xfff);;;
      tgt_stack_pop
    end).

(** ** Objects of the library *)

(** The definition behind an index of the library. *)
Definition xdef (xid : Z) (k : extdef -> C Z) : C Z :=
  match lib_extern_get libdef xid with Some x => k x | None => fault end.

Definition op_object_get : C Z :=
  popped as_tmp (fun nm =>
    let xid := lib_lookup libdef nm in
    if xid <? 0 then ret (- ERR_EXTERN_UNKNOWN)
    else xdef xid (fun x =>
      if negb (EXTDEF_TYPE x =? O_OBJECT) then ret (- ERR_EXTERN_NOT_OBJECT)
      else if EXTDEF_FLAG x O_ARRAY then ret (- ERR_EXTERN_NOT_SCALAR)
      else
        (if EXTDEF_FLAG x O_SINGLETON then encode_int (x_inst x);;; ret tt else ext_call xid 0);;;
        tgt_stack_push;;;
        push_sym (Cld (x_cdef x)))).
Definition op_array_xlat : C Z :=
  popped as_tmp (fun nm =>
    let xid := lib_lookup libdef nm in
    if xid <? 0 then ret (- ERR_EXTERN_UNKNOWN)
    else xdef xid (fun x =>
      if negb (EXTDEF_TYPE x =? O_OBJECT) then ret (- ERR_EXTERN_NOT_OBJECT)
      else if negb (EXTDEF_FLAG x O_ARRAY) then ret (- ERR_EXTERN_NOT_ARRAY)
      else
        (if EXTDEF_FLAG x O_SIZEOFFS then
           when (1 <? x_size x) (encode_int (x_size x);;; emit Js.OPC_MUL);;;
           when (negb (x_offs x =? 0)) (encode_int (x_offs x);;; emit Js.OPC_ADD)
         else ext_call xid 1);;;
        push_sym (Cld (x_cdef x)))).

Definition class_member_pop (k : Z -> extdef -> C Z) : C Z :=
  popped as_tmp (fun nm =>
  popped as_cld (fun cid =>
    match lib_member_lookup libdef cid nm with
    | None => fault
    | Some xid =>
      if xid <? 0 then ret (- ERR_EXTERN_UNKNOWN)
      else xdef xid (fun x =>
        if negb (EXTDEF_FLAG x O_MEMBER) then ret (- ERR_EXTERN_NOT_MEMBER) else k xid x)
    end)).

Definition op_attr_eval : C Z :=
  class_member_pop (fun xid x =>
    if negb (EXTDEF_TYPE x =? O_INTEGER) then ret (- ERR_EXTERN_NOT_INTEGER)
    else if EXTDEF_FLAG x O_ARRAY then ret (- ERR_EXTERN_NOT_SCALAR)
    else ext_call xid 1;;; ret 0).
Definition op_array_eval : C Z :=
  class_member_pop (fun xid x =>
    if negb (EXTDEF_TYPE x =? O_INTEGER) then ret (- ERR_EXTERN_NOT_INTEGER)
    else if negb (EXTDEF_FLAG x O_ARRAY) then ret (- ERR_EXTERN_NOT_ARRAY)
    else ext_call xid 2;;; ret 0).
Definition op_attr_assign : C Z :=
  class_member_pop (fun xid x =>
    if negb (EXTDEF_TYPE x =? O_INTEGER) then ret (- ERR_EXTERN_NOT_INTEGER)
    else if EXTDEF_FLAG x O_READONLY then ret (- ERR_EXTERN_READONLY)
    else if EXTDEF_FLAG x O_ARRAY then ret (- ERR_EXTERN_NOT_SCALAR)
    else ext_call xid 2;;; tgt_stack_adjust (-2)).
Definition op_array_assign : C Z :=
  class_member_pop (fun xid x =>
    if negb (EXTDEF_TYPE x =? O_INTEGER) then ret (- ERR_EXTERN_NOT_INTEGER)
    else if EXTDEF_FLAG x O_READONLY then ret (- ERR_EXTERN_READONLY)
    else if negb (EXTDEF_FLAG x O_ARRAY) then ret (- ERR_EXTERN_NOT_ARRAY)
    else ext_call xid 3;;; tgt_stack_adjust (-3)).

(** ** Calls *)

Definition op_method_lookup : C Z :=
  class_member_pop (fun xid x =>
    if negb (EXTDEF_TYPE x =? O_FUNCTION) then ret (- ERR_EXTERN_NOT_FUNCTION)
    else push_sym (Call xid 1 (x_argmin x) (x_argmax x) (x_ret x))).
Definition op_function_lookup : C Z :=
  popped as_tmp (fun nm =>
    let xid := lib_lookup libdef nm in
    if xid <? 0 then ret (- ERR_EXTERN_UNKNOWN)
    else xdef xid (fun x =>
      if negb (EXTDEF_TYPE x =? O_FUNCTION) then ret (- ERR_EXTERN_NOT_FUNCTION)
      else push_sym (Call xid 0 (x_argmin x) (x_argmax x) (x_ret x)))).
Definition op_arg : C Z :=
  popped as_call (fun c => let '(xid, n, lo, hi, r) := c in push_sym (Call xid (u8 (n + 1)) lo hi r)).
Definition op_call : C Z :=
  popped as_call (fun c =>
    let '(xid, n, lo, hi, r) := c in
    if n <? lo then ret (- ERR_ARG_MISSING)
    else if hi <? n then ret (- ERR_TOO_MANY_ARGS)
    else
      save_spc;;; ext_call xid n;;;
      bail (tgt_stack_adjust (r - n)) (push_sym (Call xid n lo hi r))).

(** The results that are not used. *)
Definition discard (n : Z) : C unit :=
  save_spc;;; if 1 <? n then emit Js.OPC_ISP;;; emit n else emit Js.OPC_POP.
Definition op_ret_discard : C Z :=
  popped as_call (fun c =>
    let '(_, _, _, _, r) := c in
    when (0 <? r) (discard r);;; tgt_stack_adjust (- r)).
Definition op_call_ret : C Z :=
  popped as_call (fun c =>
    let '(_, _, _, _, r) := c in
    if r <? 1 then ret (- ERR_RET_COUNT_MISMATCH)
    else if 0 <? r - 1 then discard (r - 1);;; bail (tgt_stack_adjust (- (r - 1))) (ret 0)
    else ret 0).

(** ** Operators *)

Definition op_bin (opc : Z) : C Z := save_spc;;; emit opc;;; tgt_stack_pop.
Definition op_un (opc : Z) : C Z := save_spc;;; emit opc;;; ret 0.

Definition op_equ : C Z :=
  b <- is_const 0;;
  if b : bool then rollback;;; emit Js.OPC_NOT;;; ret 0 else op_bin Js.OPC_EQ.
Definition op_neq : C Z := op_bin Js.OPC_NE.
Definition op_gt : C Z := op_bin Js.OPC_GT.
Definition op_lt : C Z := op_bin Js.OPC_LT.
Definition op_gte : C Z := op_bin Js.OPC_GE.
Definition op_lte : C Z := op_bin Js.OPC_LE.
Definition op_logic_or : C Z := op_bin Js.OPC_OR.
Definition op_logic_and : C Z := op_bin Js.OPC_AND.
Definition op_add : C Z :=
  b <- is_const 1;;
  if b : bool then rollback;;; emit Js.OPC_INC;;; tgt_stack_pop else op_bin Js.OPC_ADD.
Definition op_sub : C Z :=
  b <- is_const 1;;
  if b : bool then rollback;;; emit Js.OPC_DEC;;; tgt_stack_pop else op_bin Js.OPC_SUB.
Definition op_or : C Z := op_bin Js.OPC_OR.
Definition op_xor : C Z := op_bin Js.OPC_XOR.
Definition op_mul : C Z := op_bin Js.OPC_MUL.
Definition op_div : C Z := op_bin Js.OPC_DIV.
Definition op_mod : C Z := op_bin Js.OPC_MOD.
Definition op_and : C Z := op_bin Js.OPC_AND.
Definition op_shl : C Z := op_bin Js.OPC_SHL.
Definition op_asr : C Z := op_bin Js.OPC_ASR.
Definition op_inv : C Z := op_un Js.OPC_INV.
Definition op_minus : C Z :=
  v <- is_constant;;
  match v with
  | Some v => rollback;;; encode_int (s32 (- v))
  | None => op_un Js.OPC_NEG
  end.
Definition op_not : C Z := op_un Js.OPC_NOT.

(** ** Constants *)

Definition op_push_false : C Z := save_spc;;; emit (Js.OPC_I4 + 0);;; tgt_stack_push.
Definition op_push_true : C Z := save_spc;;; emit (Js.OPC_I4 + 1);;; tgt_stack_push.
Definition op_push_string : C Z :=
  t <- get ctok;;
  b <- get strbuf;;
  match cstr_add b (t_s t) (qlf t) with
  | None => fault
  | Some (isz, b) =>
    put strbuf b;;;
    if isz <? 0 then ret isz
    else
      save_spc;;;
      (if isz <? 4 then emit (Js.OPC_I4 + isz) else emit Js.OPC_I8;;; emit isz);;;
      tgt_stack_push
  end.
Definition op_push_int : C Z :=
  t <- get ctok;; encode_int (s32 (t_u32 t));;; tgt_stack_push.

(** ** Jumps *)

(** A jump whose operand is not known yet; its operand. *)
Definition reserve (opc : Z) : C unit :=
  p <- get cpc;; arr_wr code p opc;;; put cpc (u16 (p + 2)).
Definition fix_at (a offs : Z) : C unit :=
  b <- arr_rd code a;;
  arr_wr code a (u8 (b + Z.land offs 0xf));;;
  arr_wr code (a + 1) (u8 (Z.shiftr offs 4)).

Definition op_patch_ref : C Z :=
  popped as_ref (fun a => p <- get cpc;; fix_at a (p - 2 - a);;; ret 0).

Definition op_try_begin : C Z :=
  save_spc;;;
  p <- get cpc;;
  reserve Js.OPC_PUSHX;;;
  bail tgt_stack_push (push_sym (Ref p)).
Definition op_try_end : C Z :=
  popped as_ref (fun a =>
    save_spc;;;
    emit12 Js.OPC_JMP 1;;;
    p <- get cpc;;
    fix_at a p;;;
    emit Js.OPC_XPT;;;
    tgt_stack_pop).
Definition op_catch : C Z :=
  popped as_ref (fun a =>
    save_spc;;;
    p <- get cpc;;
    reserve Js.OPC_JMP;;;
    bail (push_sym (Ref p)) (
      p <- get cpc;; fix_at a p;;; ret 0)).
Definition op_throw : C Z := save_spc;;; emit Js.OPC_XPT;;; ret 0.

Definition op_if_cond : C Z :=
  save_spc;;; p <- get cpc;; reserve Js.OPC_JEQ;;; push_sym (Ref p).
Definition op_if_else : C Z :=
  popped as_ref (fun a =>
    save_spc;;;
    p <- get cpc;;
    fix_at a (p - a);;;
    reserve Js.OPC_JMP;;;
    push_sym (Ref p)).

Definition op_while_begin : C Z := p <- get cpc;; push_sym (Wld p 0).
Definition op_while_cond : C Z :=
  popped as_wld (fun w =>
    save_spc;;; p <- get cpc;; reserve Js.OPC_JEQ;;; push_sym (Wld (fst w) p)).
Definition op_while_end : C Z :=
  popped as_wld (fun w =>
    let '(loop, cond) := w in
    p <- get cpc;;
    fix_at cond (p - cond);;;
    save_spc;;;
    emit12 Js.OPC_JMP (loop - (p + 2));;;
    ret 0).

Definition op_for_init : C Z := p <- get cpc;; push_sym (Fld p 0 0 0).
Definition op_for_cond : C Z :=
  popped as_fld (fun f =>
    let '(a0, _, _, _) := f in
    a1 <- get cpc;;
    reserve Js.OPC_JEQ;;;
    save_spc;;;
    a2 <- get cpc;;
    reserve Js.OPC_JMP;;;
    a3 <- get cpc;;
    push_sym (Fld a0 a1 a2 a3)).
Definition op_for_after : C Z :=
  popped as_fld (fun f =>
    let '(a0, a1, a2, a3) := f in
    p <- get cpc;;
    fix_at a2 (p - a2);;;
    save_spc;;;
    emit12 Js.OPC_JMP (a0 - (p + 2));;;
    push_sym (Fld a0 a1 a2 a3)).
Definition op_for_end : C Z :=
  popped as_fld (fun f =>
    let '(a0, a1, a2, a3) := f in
    save_spc;;;
    p <- get cpc;;
    fix_at a1 (p - a1);;;
    emit12 Js.OPC_JMP (a3 - (p + 2));;;
    ret 0).

(** The table [op], in the order of the actions' numbers. *)
Definition op : list (C Z) :=
  [op_var_decl; op_push_tmp; op_pop_tmp; op_var_assign; op_ret_discard; op_array_xlat; op_object_get;
   op_attr_assign; op_array_assign; op_method_lookup; op_call; op_function_lookup; op_arg; op_or; op_logic_or;
   op_xor; op_and; op_logic_and; op_lt; op_gt; op_equ; op_neq; op_gte; op_lte; op_shl; op_asr; op_add; op_sub;
   op_div; op_mod; op_mul; op_inv; op_minus; op_not; op_push_int; op_push_string; op_push_true; op_push_false;
   op_var_eval; op_call_ret; op_attr_eval; op_array_eval; op_blk_open; op_blk_close; op_for_init; op_for_cond;
   op_for_after; op_for_end; op_while_begin; op_while_cond; op_while_end; op_if_cond; op_patch_ref;
   op_try_begin; op_throw; op_if_else; op_try_end; op_catch; op_patch_ref].
Definition action (sym : Z) : C Z := match op !! Z.to_nat (sym - ACTION_BASE) with Some f => f | None => fault end.

(** ** The parser *)

Inductive cres := Go (t : token) (lex : lexer) | Stop (r : Z).

(** The next token, [k] if it is one. *)
Definition scan_next (lex : lexer) (k : token -> lexer -> C cres) : C cres :=
  match lexer_scan lex with
  | None => fault
  | Some (t, lex) => if typ t =? T_ERR then ret (Stop (- qlf t)) else k t lex
  end.

(** The end of [struct microjs_sdt] where pointers have four bytes: [cdsz], [pc],
    [stack_pos], [data_pos], [size], [ll_sp], [spc] and two bytes of padding. *)
Definition SDT_SIZE := 44.
Definition last_fields (s : microjs_sdt) : list Z :=
  concat (map (fun x => [Z.land x 0xff; Z.shiftr x 8])
    [d_cdsz s; d_pc s; d_stack_pos s; d_data_pos s; u16 (SDT_SIZE + d_cap s); 0; d_spc s; 0]).
(** The symbols [low] of the parser's stack lie below its end, over these fields:
    [microjs_ll_push] writes before the pointer is tested. (The pointer itself is
    saved again on the way out; the table, which is before these fields, is not
    reached from a stack that had room for what was on it.) *)
Definition run_over (low : list Z) : C unit := fun s =>
  let f := take (16 - length low) (last_fields s) ++ low in
  let w i := zget f (2 * i) + Z.shiftl (zget f (2 * i + 1)) 8 in
  Some (tt, mk_sdt (d_tok s) (d_tab s) (d_strbuf s) (d_code s) (w 0) (w 1) (w 2) (w 3) (w 4 - SDT_SIZE) (d_ll s) (w 6)).

(** One round of the loop of [microjs_compile], [t] the lookahead. *)
Definition compile_step (t : token) (lex : lexer) : C cres :=
  stack <- get ll;;
  match stack with
  | [] => p <- get cpc;; ret (Stop p)
  | sym :: rest =>
    put ll rest;;;
    if sym <? NONTERM_BASE then
      if negb (sym =? typ t) then ret (Stop (- ERR_UNEXPECTED_SYMBOL))
      else put ctok t;;; scan_next lex (fun t lex => ret (Go t lex))
    else if ACTION_BASE <=? sym then
      err <- action sym;;
      if err <? 0 then ret (Stop err)
      else
        p <- get cpc;; n <- get cdsz;;
        if n <=? p then ret (Stop (- ERR_CODE_MEM_OVERFLOW)) else ret (Go t lex)
    else
      match microjs_ll_push sym (typ t) with
      | None => fault
      | Some (inl _) =>
        put ll stack;;;
        ret (Stop (if typ t =? T_EOF then - ERR_UNEXPECED_EOF else - ERR_SYNTAX_ERROR))
      | Some (inr prod) =>
        put ll (prod ++ rest);;;
        fun s =>
          let over := zlen (d_ll s) - d_cap s in
          if 0 <? over then (run_over (take (Z.to_nat over) (d_ll s));;; ret (Stop (- ERR_SDT_STACK_OVERFLOW))) s
          else Some (Go t lex, s)
      end
  end.
Fixpoint compile_loop (fuel : nat) (t : token) (lex : lexer) : C Z :=
  match fuel with
  | O => fault
  | S fuel =>
    r <- compile_step t lex;;
    match r with Go t lex => compile_loop fuel t lex | Stop r => ret r end
  end.
Definition microjs_compile (fuel : nat) (txt : list Z) (len : Z) : C Z :=
  if len =? 0 then ret 0
  else
    r <- scan_next (lexer_open txt len) (fun t lex => ret (Go t lex));;
    match r with Go t lex => compile_loop fuel t lex | Stop r => ret r end.

Definition microjs_sdt_reset : C unit := put ll microjs_ll_start.
Definition symtab_isempty (t : symtab) : bool := match t_stk t with [] => true | _ => false end.

Definition microjs_sdt_begin (buf : list Z) (code_size : Z) : C Z :=
  put cpc 0;;; put cdsz (u16 code_size);;; put code buf;;;
  microjs_sdt_reset;;;
  t <- get tab;;
  (if symtab_isempty t then push_sym (Ref 0) else ret 0);;;
  save_spc;;;
  reserve Js.OPC_PUSHX;;;
  tgt_stack_push.
Definition microjs_sdt_end : C Z :=
  p <- get cpc;; n <- get cdsz;;
  if n <? p + 3 then ret (- ERR_CODE_MEM_OVERFLOW)
  else bail tgt_stack_pop (
    emit Js.OPC_POP;;;
    emit Js.OPC_ABT;;;
    t <- get tab;;
    match sym_pick t with
    | Some (Ref a) => p <- get cpc;; fix_at a p;;; emit Js.OPC_RET;;; get cpc
    | _ => fault
    end).

(** [sdt_size] bytes, of which the parser's stack has what the structure leaves. *)
Definition microjs_sdt_init (cap : Z) (t : symtab) (strs : list Z) : option microjs_sdt :=
  n ← symtab_data_size t;
  if t_data_sz t <? n then None
  else Some (mk_sdt (mk_token 0 0 0 []) t strs [] 0 0 0 (u16 n) cap [] 0).

(** What [js] of [test/slcdev-sim/shell.c] calls to compile: the code's length, or
    the error that it prints. *)
Definition js_build (fuel : nat) (buf : list Z) (code_size : Z) (txt : list Z) (len : Z) : C Z :=
  t <- get tab;;
  let st := symtab_state_save t in
  let undo r := symo (fun t => t ← symtab_state_rollback st t; Some (tt, t));;; ret r in
  microjs_sdt_begin buf code_size;;;
  r <- microjs_compile fuel txt len;;
  if r <? 0 then undo r
  else r <- microjs_sdt_end;; if r <? 0 then undo r else ret r.
End sdt.
End Sdt.
