(* ===== verification/JsLang.v ===== *)
(** * MicroJS: the language

    Programs as trees, the tokens they are written with, and what they mean,
    without a compiler or a machine. The trees are those of [microjs.gr]: every
    binary operator groups to the right, and each has a level of its own among
    seven; parentheses are printed where a tree needs them. Meanings are those the
    grammar's authors gave the operators: [&&] and [||] are bitwise. Blocks open
    scopes; a variable has no value before its first assignment. *)

From S2P Require Import Prelude Js JsLl JsLex JsSym.
Open Scope Z_scope.
Import Ll Lex Sym.

Module Lang.

(** ** Syntax *)

Inductive binop :=
| Or | LogicOr | Xor | And | LogicAnd
| Lt | Gt | Equ | Neq | Gte | Lte
| Shl | Asr | Add | Sub | Div | Mod | Mul.
Inductive unop := Inv | Minus | Not.

Inductive exp :=
| EInt (n : Z)
| ETrue
| EFalse
| EVar (x : list Z)
| EUn (o : unop) (a : exp)
| EBin (o : binop) (a b : exp)
| ECall (f : list Z) (args : list exp).

(** What a [for] may have in its first and third parts. *)
Inductive item :=
| IAssign (x : list Z) (e : exp)
| ICall (f : list Z) (args : list exp).

Inductive stm :=
| SItem (i : item)
| SVar (d : list Z * option exp) (ds : list (list Z * option exp))
| SThrow (e : exp)
| SIf (c : exp) (b : list stm)
| SIfElse (c : exp) (b1 b2 : list stm)
| SWhile (c : exp) (b : list stm)
| SFor (init : list item) (c : exp) (after : list item) (b : list stm).
(** A program's statements; only they may be blocks. *)
Inductive top := TStm (s : stm) | TBlock (b : list stm).

(** ** Tokens *)

Definition tk (t : Z) : token := mk_token t 0 0 [].
Definition tk_id (x : list Z) : token := mk_token T_ID (u8 (zlen x)) 0 x.
Definition tk_int (n : Z) : token := mk_token T_INT 0 n [].

Definition bin_level (o : binop) : nat :=
  match o with
  | Or | LogicOr | Xor => 0
  | And | LogicAnd => 1
  | Lt | Gt | Equ | Neq | Gte | Lte => 2
  | Shl | Asr => 3
  | Add | Sub => 4
  | Div | Mod => 5
  | Mul => 6
  end.
Definition bin_tok (o : binop) : Z :=
  match o with
  | Or => T_BAR | LogicOr => T_LOGICOR | Xor => T_CARET | And => T_AMPERSAND | LogicAnd => T_LOGICAND
  | Lt => T_LESSTHEN | Gt => T_GREATTHEN | Equ => T_EQU | Neq => T_NEQ | Gte => T_GTE | Lte => T_LTE
  | Shl => T_SHL | Asr => T_ASR | Add => T_PLUS | Sub => T_MINUS | Div => T_SLASH | Mod => T_PERCENT
  | Mul => T_STAR
  end.
Definition un_tok (o : unop) : Z := match o with Inv => T_TILDE | Minus => T_MINUS | Not => T_NOT end.
Definition level (e : exp) : nat :=
  match e with EBin o _ _ => bin_level o | EUn _ _ => 7 | _ => 8 end.

Definition parens (l L : nat) (ts : list token) : list token :=
  if (l <? L)%nat then tk T_LPAREN :: ts ++ [tk T_RPAREN] else ts.
(** Items with commas between them. *)
Definition commas {A} (f : A -> list token) (l : list A) : list token :=
  match l with [] => [] | x :: l => f x ++ concat (map (fun x => tk T_COMMA :: f x) l) end.

(** An expression where the grammar wants one of level [L] at least. *)
Fixpoint toks (L : nat) (e : exp) : list token :=
  match e with
  | EInt n => [tk_int n]
  | ETrue => [tk T_TRUE]
  | EFalse => [tk T_FALSE]
  | EVar x => [tk_id x]
  | EUn o a => parens 7 L (tk (un_tok o) :: toks 7 a)
  | EBin o a b =>
    parens (bin_level o) L (toks (S (bin_level o)) a ++ tk (bin_tok o) :: toks (bin_level o) b)
  | ECall f args => tk_id f :: tk T_LPAREN :: commas (toks 0) args ++ [tk T_RPAREN]
  end.

Definition item_toks (i : item) : list token :=
  match i with
  | IAssign x e => tk_id x :: tk T_EQUALS :: toks 0 e
  | ICall f args => tk_id f :: tk T_LPAREN :: commas (toks 0) args ++ [tk T_RPAREN]
  end.
Definition decl_toks (d : list Z * option exp) : list token :=
  tk_id (fst d) :: match snd d with Some e => tk T_EQUALS :: toks 0 e | None => [] end.
Definition cond_toks (e : exp) : list token := tk T_LPAREN :: toks 0 e ++ [tk T_RPAREN].
Definition braces (ts : list token) : list token := tk T_LBRACE :: ts ++ [tk T_RBRACE].

Fixpoint stm_toks (s : stm) : list token :=
  match s with
  | SItem i => item_toks i ++ [tk T_SEMICOLON]
  | SVar d ds => tk T_VAR :: commas decl_toks (d :: ds) ++ [tk T_SEMICOLON]
  | SThrow e => tk T_THROW :: toks 0 e ++ [tk T_SEMICOLON]
  | SIf c b => tk T_IF :: cond_toks c ++ braces (concat (map stm_toks b))
  | SIfElse c b1 b2 =>
    tk T_IF :: cond_toks c ++ braces (concat (map stm_toks b1)) ++
    tk T_ELSE :: braces (concat (map stm_toks b2))
  | SWhile c b => tk T_WHILE :: cond_toks c ++ braces (concat (map stm_toks b))
  | SFor i c a b =>
    tk T_FOR :: tk T_LPAREN :: commas item_toks i ++ tk T_SEMICOLON :: toks 0 c ++
    tk T_SEMICOLON :: commas item_toks a ++ tk T_RPAREN :: braces (concat (map stm_toks b))
  end.
Definition top_toks (t : top) : list token :=
  match t with TStm s => stm_toks s | TBlock b => braces (concat (map stm_toks b)) end.
Definition prog_toks (p : list top) : list token := concat (map top_toks p).

(** ** Meaning *)

Section meaning.
Context `{Js.JsHost}.
Variable libdef : ext_libdef.

(** Results: an exception's code or a value, and the environment of the external
    functions. No result: the meaning is undefined, or there was no fuel. *)
Definition ev (A : Type) : Type := Js.env -> option ((Z + A) * Js.env).
Definition val {A} (a : A) : ev A := fun e => Some (inr a, e).
Definition throw {A} (c : Z) : ev A := fun e => Some (inl c, e).
Definition undef {A} : ev A := fun _ => None.
Definition andthen {A B} (c : ev A) (k : A -> ev B) : ev B := fun e =>
  match c e with
  | Some (inr a, e) => k a e
  | Some (inl x, e) => Some (inl x, e)
  | None => None
  end.
Definition some {A} (o : option A) : ev A := match o with Some a => val a | None => undef end.

Definition truth (b : bool) : Z := if b then 1 else 0.
Definition bin_sem (o : binop) (a b : Z) : option Z :=
  match o with
  | Or | LogicOr => Some (Z.lor a b)
  | Xor => Some (Z.lxor a b)
  | And | LogicAnd => Some (Z.land a b)
  | Lt => Some (truth (a <? b))
  | Gt => Some (truth (b <? a))
  | Equ => Some (truth (a =? b))
  | Neq => Some (truth (negb (a =? b)))
  | Gte => Some (truth (b <=? a))
  | Lte => Some (truth (a <=? b))
  | Shl => if (0 <=? b) && (b <? 32) then Some (s32 (a * 2 ^ b)) else None
  | Asr => if (0 <=? b) && (b <? 32) then Some (a / 2 ^ b) else None
  | Add => Some (s32 (a + b))
  | Sub => Some (s32 (a - b))
  | Mul => Some (s32 (a * b))
  | Div => if (b =? 0) || (a =? - 2 ^ 31) && (b =? -1) then None else Some (Z.quot a b)
  | Mod => if (b =? 0) || (a =? - 2 ^ 31) && (b =? -1) then None else Some (Z.rem a b)
  end.
Definition un_sem (o : unop) (a : Z) : Z :=
  match o with Inv => - a - 1 | Minus => s32 (- a) | Not => truth (a =? 0) end.

(** An external function: a negative result is an exception. *)
Definition call (f : list Z) (args : list Z) : ev (list Z) := fun e =>
  match Js.microjs_extern (lib_lookup libdef f) e args with
  | Some (r, out, e) => if r <? 0 then Some (inl (- r), e) else Some (inr (take (Z.to_nat r) out), e)
  | None => None
  end.

(** *** Variables: frames of names, the innermost first *)

Definition frame : Type := list (list Z * option Z).
Definition find_var {A} (x : list Z) (f : list (list Z * A)) : option A :=
  snd <$> find (fun b => bool_decide (fst b = x)) f.
Definition lookup (x : list Z) (r : list frame) : option (option Z) := find_var x (concat r).
Definition set_var {A} (x : list Z) (v : A) (f : list (list Z * A)) : list (list Z * A) :=
  map (fun b => if bool_decide (fst b = x) then (fst b, v) else b) f.
Fixpoint assign (x : list Z) (v : Z) (r : list frame) : option (list frame) :=
  match r with
  | [] => None
  | f :: r =>
    match find_var x f with
    | Some _ => Some (set_var x (Some v) f :: r)
    | None => r ← assign x v r; Some (f :: r)
    end
  end.
Definition declare (x : list Z) (r : list frame) : list frame :=
  match r with
  | [] => []
  | f :: r => match find_var x f with Some _ => f :: r | None => ((x, None) :: f) :: r end
  end.

Section args.
Variable f : exp -> ev Z.
Fixpoint eval_all (l : list exp) : ev (list Z) :=
  match l with
  | [] => val []
  | e :: l => andthen (f e) (fun v => andthen (eval_all l) (fun vs => val (v :: vs)))
  end.
End args.

Fixpoint eval (r : list frame) (e : exp) : ev Z :=
  match e with
  | EInt n => val (s32 n)
  | ETrue => val 1
  | EFalse => val 0
  | EVar x => match lookup x r with Some (Some v) => val v | _ => undef end
  | EUn o a => andthen (eval r a) (fun v => val (un_sem o v))
  | EBin o a b => andthen (eval r a) (fun v => andthen (eval r b) (fun w => some (bin_sem o v w)))
  | ECall f args => andthen (eval_all (eval r) args) (fun vs => andthen (call f vs) (fun out => some (head out)))
  end.

Definition exec_item (i : item) (r : list frame) : ev (list frame) :=
  match i with
  | IAssign x e => andthen (eval r e) (fun v => some (assign x v r))
  | ICall f args => andthen (eval_all (eval r) args) (fun vs => andthen (call f vs) (fun _ => val r))
  end.
Definition exec_decl (d : list Z * option exp) (r : list frame) : ev (list frame) :=
  let r := declare (fst d) r in
  match snd d with
  | None => val r
  | Some e => andthen (eval r e) (fun v => some (assign (fst d) v r))
  end.
(** One after the other. *)
Fixpoint all {A} (f : A -> list frame -> ev (list frame)) (l : list A) (r : list frame) : ev (list frame) :=
  match l with [] => val r | x :: l => andthen (f x r) (all f l) end.
(** In a scope of its own. *)
Definition scoped (f : list frame -> ev (list frame)) (r : list frame) : ev (list frame) :=
  andthen (f ([] :: r)) (fun r => val (tail r)).

(** At most [fuel] nested statements and rounds of loops. *)
Fixpoint exec (fuel : nat) (s : stm) (r : list frame) : ev (list frame) :=
  match fuel with
  | O => undef
  | S fuel =>
    let block b := scoped (all (exec fuel) b) in
    match s with
    | SItem i => exec_item i r
    | SVar d ds => all exec_decl (d :: ds) r
    | SThrow e => andthen (eval r e) throw
    | SIf c b => andthen (eval r c) (fun v => if v =? 0 then val r else block b r)
    | SIfElse c b1 b2 => andthen (eval r c) (fun v => if v =? 0 then block b2 r else block b1 r)
    | SWhile c b =>
      andthen (eval r c) (fun v =>
        if v =? 0 then val r else andthen (block b r) (exec fuel (SWhile c b)))
    | SFor i c a b =>
      andthen (all exec_item i r) (fun r =>
      andthen (eval r c) (fun v =>
        if v =? 0 then val r
        else andthen (block b r) (fun r => andthen (all exec_item a r) (exec fuel (SFor [] c a b)))))
    end
  end.
Definition exec_top (fuel : nat) (t : top) (r : list frame) : ev (list frame) :=
  match t with TStm s => exec fuel s r | TBlock b => scoped (all (exec fuel) b) r end.

(** What [microjs_exec] returns: 0, or the code of the exception. *)
Definition run (fuel : nat) (p : list top) (e : Js.env) : option (Z * Js.env) :=
  match all (exec_top fuel) p [[]] e with
  | Some (inr _, e) => Some (0, e)
  | Some (inl c, e) => Some (c, e)
  | None => None
  end.
End meaning.
End Lang.
