(* ===== verification/JsGen.v ===== *)
(** * MicroJS: the code of a program

    The byte code of each construct, as a function of its tree: what the actions
    of [microjs_sdt.c] add up to. A scope gives each variable the address of a
    word of the data memory. *)

From S2P Require Import Prelude Js JsLl JsLex JsSym JsLang.
Open Scope Z_scope.
Import Lex Sym Lang.

Module Gen.

(** ** Instructions *)

Definition int_bytes (x : Z) : list Z :=
  if (-8 <=? x) && (x <? 8) then [Js.OPC_I4 + Z.land x 0xf]
  else if (-128 <=? x) && (x <? 128) then [Js.OPC_I8; u8 x]
  else if (-32768 <=? x) && (x <? 32768) then [Js.OPC_I16; u8 x; u8 (Z.shiftr x 8)]
  else [Js.OPC_I32; u8 x; u8 (Z.shiftr x 8); u8 (Z.shiftr x 16); u8 (Z.shiftr x 24)].
Definition op12 (opc a : Z) : list Z := [opc + Z.land a 0xf; u8 (Z.shiftr a 4)].
Definition bin_opc (o : binop) : Z :=
  match o with
  | Or | LogicOr => Js.OPC_OR | Xor => Js.OPC_XOR | And | LogicAnd => Js.OPC_AND
  | Lt => Js.OPC_LT | Gt => Js.OPC_GT | Equ => Js.OPC_EQ | Neq => Js.OPC_NE | Gte => Js.OPC_GE | Lte => Js.OPC_LE
  | Shl => Js.OPC_SHL | Asr => Js.OPC_ASR | Add => Js.OPC_ADD | Sub => Js.OPC_SUB
  | Div => Js.OPC_DIV | Mod => Js.OPC_MOD | Mul => Js.OPC_MUL
  end.
Definition un_opc (o : unop) : Z :=
  match o with Inv => Js.OPC_INV | Minus => Js.OPC_NEG | Not => Js.OPC_NOT end.

(** ** Scopes *)

(** The frames, the innermost first; the data memory in use; the most that has
    been in use. *)
Record ctx := mk_ctx { vars : list (list (list Z * Z)); used : Z; most : Z }.

Definition address (x : list Z) (g : list (list (list Z * Z))) : option Z := find_var x (concat g).
(** Addresses have 12 bits, in words; a name has to leave its object's length a
    byte. *)
Definition new_var (x : list Z) (c : ctx) : option ctx :=
  match vars c with
  | [] => None
  | f :: g =>
    match find_var x f with
    | Some _ => Some c
    | None =>
      if (used c + 4 <=? 16384) && (obj_len x <=? 255) then
        Some (mk_ctx (((x, used c) :: f) :: g) (used c + 4) (Z.max (most c) (used c + 4)))
      else None
    end
  end.
Definition open_scope (c : ctx) : ctx := mk_ctx ([] :: vars c) (used c) (most c).
Definition close_scope (c c' : ctx) : ctx := mk_ctx (vars c) (used c) (most c').

(** ** Expressions *)

Section gen.
Variable libdef : ext_libdef.

(** A function's number and results, when it takes [n] arguments. *)
Definition fun_def (f : list Z) (n : Z) : option (Z * Z) :=
  let xid := lib_lookup libdef f in
  if xid <? 0 then None
  else
    x ← lib_extern_get libdef xid;
    if (EXTDEF_TYPE x =? O_FUNCTION) && (x_argmin x <=? n) && (n <=? x_argmax x) && (n <? 256) && (xid <? 256)
       && (0 <=? x_ret x)
    then Some (xid, x_ret x) else None.

(** The value of an expression whose code is one instruction that pushes a
    constant. *)
Fixpoint konst (e : exp) : option Z :=
  match e with
  | EInt n => Some (s32 n)
  | ETrue => Some 1
  | EFalse => Some 0
  | EUn Minus a => (fun v => s32 (- v)) <$> konst a
  | _ => None
  end.
(** The operators that absorb a constant. *)
Definition folded (o : binop) (k : option Z) : option Z :=
  match o, k with
  | Equ, Some 0 => Some Js.OPC_NOT
  | Add, Some 1 => Some Js.OPC_INC
  | Sub, Some 1 => Some Js.OPC_DEC
  | _, _ => None
  end.

Section args.
Variable f : exp -> option (list Z).
Fixpoint gen_all (l : list exp) : option (list Z) :=
  match l with [] => Some [] | e :: l => c ← f e; cs ← gen_all l; Some (c ++ cs) end.
End args.

(** A call, [spare] of its results to be dropped: one at most, see
    [isp_drops_too_many]. *)
Definition gen_call (xid n spare : Z) : option (list Z) :=
  if spare =? 0 then Some [Js.OPC_EXT; xid; n]
  else if spare =? 1 then Some [Js.OPC_EXT; xid; n; Js.OPC_POP]
  else None.

Fixpoint gen_exp (g : list (list (list Z * Z))) (e : exp) : option (list Z) :=
  match e with
  | EInt n => Some (int_bytes (s32 n))
  | ETrue => Some (int_bytes 1)
  | EFalse => Some (int_bytes 0)
  | EVar x => a ← address x g; Some (op12 Js.OPC_LD (a / 4))
  | EUn o a =>
    match konst e with
    | Some v => Some (int_bytes v)
    | None => c ← gen_exp g a; Some (c ++ [un_opc o])
    end
  | EBin o a b =>
    ca ← gen_exp g a; cb ← gen_exp g b;
    match folded o (konst b) with
    | Some opc => Some (ca ++ [opc])
    | None => Some (ca ++ cb ++ [bin_opc o])
    end
  | ECall f args =>
    cs ← gen_all (gen_exp g) args;
    '(xid, r) ← fun_def f (zlen args);
    c ← gen_call xid (zlen args) (r - 1);
    Some (cs ++ c)
  end.

(** ** Statements *)

Definition gen_item (g : list (list (list Z * Z))) (i : item) : option (list Z) :=
  match i with
  | IAssign x e => c ← gen_exp g e; a ← address x g; Some (c ++ op12 Js.OPC_ST (a / 4))
  | ICall f args =>
    cs ← gen_all (gen_exp g) args;
    '(xid, r) ← fun_def f (zlen args);
    c ← gen_call xid (zlen args) r;
    Some (cs ++ c)
  end.
Definition gen_decl (d : list Z * option exp) (c : ctx) : option (list Z * ctx) :=
  c ← new_var (fst d) c;
  match snd d with
  | None => Some ([], c)
  | Some e => bs ← gen_item (vars c) (IAssign (fst d) e); Some (bs, c)
  end.

Section each.
Context {A : Type}.
Variable f : A -> ctx -> option (list Z * ctx).
Fixpoint each (l : list A) (c : ctx) : option (list Z * ctx) :=
  match l with
  | [] => Some ([], c)
  | x :: l => '(bs, c) ← f x c; '(bs', c) ← each l c; Some (bs ++ bs', c)
  end.
Definition block (l : list A) (c : ctx) : option (list Z * ctx) :=
  '(bs, c') ← each l (open_scope c); Some (bs, close_scope c c').
End each.
Definition items (g : list (list (list Z * Z))) (l : list item) : option (list Z) :=
  foldr (fun i cs => c ← gen_item g i; cs ← cs; Some (c ++ cs)) (Some []) l.

Fixpoint gen_stm (s : stm) (c : ctx) : option (list Z * ctx) :=
  match s with
  | SItem i => bs ← gen_item (vars c) i; Some (bs, c)
  | SVar d ds => each gen_decl (d :: ds) c
  | SThrow e => bs ← gen_exp (vars c) e; Some (bs ++ [Js.OPC_XPT], c)
  | SIf e b =>
    ce ← gen_exp (vars c) e; '(cb, c) ← block gen_stm b c;
    Some (ce ++ op12 Js.OPC_JEQ (zlen cb) ++ cb, c)
  | SIfElse e b1 b2 =>
    ce ← gen_exp (vars c) e; '(c1, c) ← block gen_stm b1 c; '(c2, c) ← block gen_stm b2 c;
    Some (ce ++ op12 Js.OPC_JEQ (zlen c1 + 2) ++ c1 ++ op12 Js.OPC_JMP (zlen c2) ++ c2, c)
  | SWhile e b =>
    ce ← gen_exp (vars c) e; '(cb, c) ← block gen_stm b c;
    Some (ce ++ op12 Js.OPC_JEQ (zlen cb + 2) ++ cb ++ op12 Js.OPC_JMP (- (zlen ce + zlen cb + 4)), c)
  | SFor i e a b =>
    ci ← items (vars c) i; ce ← gen_exp (vars c) e; ca ← items (vars c) a;
    '(cb, c) ← block gen_stm b c;
    Some (ci ++ ce ++ op12 Js.OPC_JEQ (zlen ca + zlen cb + 6) ++ op12 Js.OPC_JMP (zlen ca + 2) ++
          ca ++ op12 Js.OPC_JMP (- (zlen ce + zlen ca + 6)) ++
          cb ++ op12 Js.OPC_JMP (- (zlen ca + zlen cb + 4)), c)
  end.
Definition gen_top (t : top) (c : ctx) : option (list Z * ctx) :=
  match t with TStm s => gen_stm s c | TBlock b => block gen_stm b c end.

(** A whole program: the default exception frame, the statements, the normal end
    and the end with an exception's code. The data memory it needs. *)
Definition gen_prog (p : list top) : option (list Z * Z) :=
  '(bs, c) ← each gen_top p (mk_ctx [[]] 0 0);
  Some (op12 Js.OPC_PUSHX (zlen bs + 4) ++ bs ++ [Js.OPC_POP; Js.OPC_ABT; Js.OPC_RET], most c).
End gen.
End Gen.
