(* ===== verification/JsVm.v ===== *)
(** * MicroJS: the machine runs the code

    Rules for the instructions on states whose stack is known: the memory is the
    words below the stack pointer and the rest. Code at an address, as a part of
    the whole code. *)

From S2P Require Import Prelude Js JsLl JsLex JsSym JsLang JsGen.
From stdpp Require Import relations.
Open Scope Z_scope.
Import Lex Sym Lang Gen.

(** ** Numbers in the code *)

Lemma lor_add k a b : 0 <= k -> 0 <= a < 2 ^ k -> Z.lor a (Z.shiftl b k) = a + b * 2 ^ k.
Proof.
  intros Hk Ha. assert (Z.land a (Z.shiftl b k) = 0) as Hd.
  { apply Z.bits_inj'. intros i Hi. rewrite Z.land_spec, Z.bits_0, Z.shiftl_spec by lia.
    destruct (Z_lt_le_dec i k).
    - rewrite (Z.testbit_neg_r b) by lia. apply andb_false_r.
    - by rewrite (testbit_high a k i) by lia. }
  rewrite <-Z.shiftl_mul_pow2, Z.add_nocarry_lxor by done. symmetry. by apply Z.lxor_lor.
Qed.

Lemma lor_bytes b0 b1 b2 b3 :
  0 <= b0 < 2 ^ 8 -> 0 <= b1 < 2 ^ 8 -> 0 <= b2 < 2 ^ 8 ->
  Z.lor (Z.lor (Z.lor b0 (Z.shiftl b1 8)) (Z.shiftl b2 16)) (Z.shiftl b3 24) =
  b0 + b1 * 2 ^ 8 + b2 * 2 ^ 16 + b3 * 2 ^ 24.
Proof. intros. rewrite (lor_add 8), (lor_add 16), (lor_add 24); lia. Qed.

Lemma land_low k a : 0 <= k -> Z.land a (2 ^ k - 1) = a mod 2 ^ k.
Proof. intros. rewrite <-Z.land_ones by done. by rewrite Z.ones_equiv, <-Z.sub_1_r. Qed.

Lemma swrap_id w x : 0 < w -> - 2 ^ (w - 1) <= x < 2 ^ (w - 1) -> swrap w x = x.
Proof.
  intros Hw H. assert (2 ^ w = 2 * 2 ^ (w - 1)) as E.
  { rewrite <-Z.pow_succ_r by lia. f_equal. lia. }
  unfold swrap, wrap. destruct (Z_lt_le_dec x 0).
  - rewrite <-(Z_mod_plus_full x 1 (2 ^ w)), Z.mod_small by lia.
    destruct (Z.ltb_spec (x + 1 * 2 ^ w) (2 ^ (w - 1))); lia.
  - rewrite Z.mod_small by lia. destruct (Z.ltb_spec x (2 ^ (w - 1))); lia.
Qed.

Lemma swrap_mod w x : 0 <= w -> swrap w (x mod 2 ^ w) = swrap w x.
Proof. intros. unfold swrap, wrap. by rewrite Zmod_mod. Qed.

Lemma op12_len opc a : zlen (op12 opc a) = 2.
Proof. done. Qed.
Lemma op12_operand a : Z.shiftl (u8 (Z.shiftr a 4)) 4 + Z.land a 0xf = a mod 4096.
Proof.
  change 0xf with (2 ^ 4 - 1). rewrite land_low, Z.shiftl_mul_pow2, Z.shiftr_div_pow2 by lia.
  unfold u8, wrap. change (2 ^ 4) with 16. change (2 ^ 8) with 256. lia.
Qed.

(** An operand read back. *)
Lemma imm4 x : -8 <= x < 8 -> Js.SIGNEXT4BIT (Z.land x 15) = x.
Proof.
  intros. unfold Js.SIGNEXT4BIT. change 15 with (2 ^ 4 - 1). rewrite land_low, swrap_mod, swrap_id by lia. done.
Qed.
Lemma imm8 x : -128 <= x < 128 -> s8 (u8 x) = x.
Proof. intros. unfold s8, u8, wrap. rewrite swrap_mod, swrap_id by lia. done. Qed.
Lemma imm16 x : -32768 <= x < 32768 ->
  swrap 16 (Z.lor (u8 x) (Z.shiftl (u8 (Z.shiftr x 8)) 8)) = x.
Proof.
  intros. rewrite lor_add, Z.shiftr_div_pow2 by (lia || apply u8_bound). unfold u8, wrap.
  replace (x mod 2 ^ 8 + (x / 2 ^ 8) mod 2 ^ 8 * 2 ^ 8) with (x mod 2 ^ 16)
    by (change (2 ^ 8) with 256; change (2 ^ 16) with 65536; lia).
  rewrite swrap_mod, swrap_id by lia. done.
Qed.
Lemma imm32 x : - 2 ^ 31 <= x < 2 ^ 31 ->
  s32 (Z.lor (Z.lor (Z.lor (u8 x) (Z.shiftl (u8 (Z.shiftr x 8)) 8)) (Z.shiftl (u8 (Z.shiftr x 16)) 16))
    (Z.shiftl (u8 (Z.shiftr x 24)) 24)) = x.
Proof.
  intros. rewrite lor_bytes, !Z.shiftr_div_pow2 by (lia || apply u8_bound). unfold u8, wrap.
  replace (_ + _ * 2 ^ 24) with (x mod 2 ^ 32)
    by (change (2 ^ 8) with 256; change (2 ^ 16) with 65536; change (2 ^ 24) with 16777216;
        change (2 ^ 32) with 4294967296; lia).
  unfold s32. rewrite swrap_mod, swrap_id by lia. done.
Qed.

Lemma s32_range x : - 2 ^ 31 <= s32 x < 2 ^ 31.
Proof.
  unfold s32, swrap. pose proof (u32_bound x) as H. unfold u32 in H.
  destruct (Z.ltb_spec (wrap 32 x) (2 ^ (32 - 1))); lia.
Qed.

(** ** Code at an address *)

Definition code_at (C : list Z) (pc : Z) (bs : list Z) : Prop :=
  exists pre post, C = pre ++ bs ++ post /\ zlen pre = pc.

Lemma code_at_left C pc bs bs' : code_at C pc (bs ++ bs') -> code_at C pc bs.
Proof. intros (pre & post & -> & Hz). exists pre, (bs' ++ post). by rewrite <-app_assoc. Qed.
Lemma code_at_right C pc bs bs' : code_at C pc (bs ++ bs') -> code_at C (pc + zlen bs) bs'.
Proof.
  intros (pre & post & -> & Hz). exists (pre ++ bs), post. rewrite <-!app_assoc, zlen_app. by rewrite Hz.
Qed.
Lemma code_at_head C pc b bs : code_at C pc (b :: bs) -> 0 <= pc < zlen C /\ zget C pc = b.
Proof.
  intros (pre & post & -> & <-). pose proof (zlen_nonneg pre). rewrite zlen_app. simpl.
  rewrite zlen_cons. pose proof (zlen_nonneg (bs ++ post)). split; [lia|].
  apply zget_lookup; [done|]. unfold zlen. rewrite Nat2Z.id, lookup_app_r by done. by rewrite Nat.sub_diag.
Qed.
Lemma code_at_tail C pc b bs : code_at C pc (b :: bs) -> code_at C (pc + 1) bs.
Proof. intros H. by apply (code_at_right _ _ [b]) in H. Qed.

(** ** Instructions *)

Section machine.
Context `{Js.JsHost}.
Variable C : list Z.

(** The stack holds [low]; behind it, [rest]. *)
Definition at_ (pc : Z) (low rest : list Z) (x : Z) (e : Js.env) : Js.vm :=
  Js.mk_vm pc (zlen low) x (low ++ rest) e.
Definition goes (s s' : Js.vm) : Prop := Js.step C s = Some (None, s').
Abbreviation runs_to := (rtc goes).
(** The machine stops, with [r]. *)
Definition ends (s : Js.vm) (r : Z) (e : Js.env) : Prop :=
  exists s1 s2, runs_to s s1 /\ Js.step C s1 = Some (Some r, s2) /\ Js.v_env s2 = e.

Lemma ends_after s s' r e : runs_to s s' -> ends s' r e -> ends s r e.
Proof. intros R (s1 & s2 & R1 & E). exists s1, s2. split; [by etrans|done]. Qed.

Lemma ends_exec s r e : ends s r e -> exists n, forall k, (n <= k)%nat ->
  exists s', Js.microjs_exec C k s = Some (r, s') /\ Js.v_env s' = e.
Proof.
  intros (s1 & s2 & R & E & Ee). induction R as [s|s s' s'' G R IH].
  - exists 1%nat. intros [|k] Hk; [lia|]. exists s2. simpl. unfold bind. by rewrite E.
  - destruct (IH E) as [n Hn]. exists (S n). intros [|k] Hk; [lia|].
    destruct (Hn k) as (s3 & E3 & Ee3); [lia|]. exists s3. simpl. unfold bind. by rewrite G.
Qed.

(** A computation whose first part is known. *)
Lemma run_bind {S A B} (c : M S A) (k : A -> M S B) s a s' :
  c s = Some (a, s') -> bind c k s = k a s'.
Proof. unfold bind. by intros ->. Qed.

Lemma fetch_at pc b bs x sp d e :
  code_at C pc (b :: bs) -> Js.fetch C (Js.mk_vm pc sp x d e) = Some (b, Js.mk_vm (pc + 1) sp x d e).
Proof.
  intros Hc. destruct (code_at_head _ _ _ _ Hc) as [Hb E]. unfold Js.fetch, Js.byte_of, bind, get, put. simpl.
  rewrite (proj2 (Z.leb_le _ _)), (proj2 (Z.ltb_lt _ _)) by lia. by rewrite E.
Qed.

Lemma zset_append low v r rest : zset (low ++ r :: rest) (zlen low) v = (low ++ [v]) ++ rest.
Proof.
  unfold zset, zlen. rewrite Nat2Z.id, <-app_assoc. simpl.
  rewrite insert_app_r_alt by lia. by rewrite Nat.sub_diag.
Qed.
Lemma zget_append low v rest : zget (low ++ v :: rest) (zlen low) = v.
Proof.
  apply zget_lookup; [apply zlen_nonneg|]. unfold zlen. rewrite Nat2Z.id, lookup_app_r by lia. by rewrite Nat.sub_diag.
Qed.

Lemma push_at pc low r rest x e v :
  Js.push v (at_ pc low (r :: rest) x e) = Some (tt, at_ pc (low ++ [v]) rest x e).
Proof.
  unfold Js.push, at_, arr_wr, bind, get, put. simpl.
  rewrite (proj2 (Z.leb_le _ _)), (proj2 (Z.ltb_lt _ _)); [|rewrite zlen_app, zlen_cons; pose proof (zlen_nonneg rest); lia|apply zlen_nonneg].
  simpl. by rewrite zset_append, zlen_app, zlen_single.
Qed.
Lemma pop_at pc low rest x e v :
  Js.pop (at_ pc (low ++ [v]) rest x e) = Some (v, at_ pc low (v :: rest) x e).
Proof.
  unfold Js.pop, at_, arr_rd, bind, get, put. simpl. rewrite zlen_app, zlen_single, <-app_assoc. simpl.
  replace (zlen low + 1 - 1) with (zlen low) by lia.
  rewrite (proj2 (Z.leb_le _ _)), (proj2 (Z.ltb_lt _ _)); [|rewrite zlen_app, zlen_cons; pose proof (zlen_nonneg rest); lia|apply zlen_nonneg].
  simpl. by rewrite zget_append.
Qed.

Lemma load_at pc low rest x e a :
  0 <= a < zlen low -> arr_rd Js.data a (at_ pc low rest x e) = Some (zget low a, at_ pc low rest x e).
Proof.
  intros Ha. unfold arr_rd, at_. simpl.
  rewrite (proj2 (Z.leb_le _ _)), (proj2 (Z.ltb_lt _ _)) by (rewrite ?zlen_app; pose proof (zlen_nonneg rest); lia).
  simpl. do 2 f_equal. unfold zget. rewrite lookup_app_l by (unfold zlen in Ha; lia). done.
Qed.
Lemma store_at pc low rest x e a v :
  0 <= a < zlen low -> arr_wr Js.data a v (at_ pc low rest x e) = Some (tt, at_ pc (zset low a v) rest x e).
Proof.
  intros Ha. unfold arr_wr, at_. simpl.
  rewrite (proj2 (Z.leb_le _ _)), (proj2 (Z.ltb_lt _ _)) by (rewrite ?zlen_app; pose proof (zlen_nonneg rest); lia).
  simpl. rewrite zlen_zset. do 3 f_equal. unfold zset. by rewrite insert_app_l by (unfold zlen in Ha; lia).
Qed.

(** The byte fetched decides the case of the [switch]. *)
Lemma step_at pc b bs opc opt low rest x e :
  code_at C pc (b :: bs) -> b = opc + opt -> opc mod 16 = 0 -> 0 <= opt < 16 ->
  Js.step C (at_ pc low rest x e) = Js.exec_op C opc opt (at_ (pc + 1) low rest x e).
Proof.
  intros Hc -> Ho Ht. unfold Js.step. erewrite run_bind by (by eapply fetch_at).
  replace (Z.shiftl (Z.shiftr (opc + opt) 4) 4) with opc.
  2: { rewrite Z.shiftl_mul_pow2, Z.shiftr_div_pow2 by lia. change (2 ^ 4) with 16. lia. }
  replace (Z.land (opc + opt) 0xf) with opt; [done|].
  change 0xf with (2 ^ 4 - 1). rewrite land_low by lia. change (2 ^ 4) with 16. lia.
Qed.

Lemma step_misc pc opt bs low rest x e :
  code_at C pc (opt :: bs) -> 0 <= opt < 16 ->
  Js.step C (at_ pc low rest x e) = Js.misc_op C opt (at_ (pc + 1) low rest x e).
Proof. intros Hc Ho. by rewrite (step_at pc opt bs Js.MISCOP opt). Qed.

Lemma operand_at pc a bs x sp d e :
  code_at C pc (u8 (Z.shiftr a 4) :: bs) ->
  Js.operand C (Z.land a 0xf) (Js.mk_vm pc sp x d e) = Some (a mod 4096, Js.mk_vm (pc + 1) sp x d e).
Proof.
  intros Hc. unfold Js.operand. erewrite run_bind by (by eapply fetch_at). unfold ret. by rewrite op12_operand.
Qed.

Lemma nibble a : 0 <= Z.land a 0xf < 16.
Proof. change 0xf with (2 ^ 4 - 1). rewrite land_low by lia. change (2 ^ 4) with 16. lia. Qed.

(** *** One rule each *)

(** Run through the primitives of an instruction. *)
Ltac run1 := first
  [ erewrite run_bind; [|apply push_at] | erewrite run_bind; [|apply pop_at]
  | erewrite run_bind; [|eapply operand_at; eassumption] | erewrite run_bind; [|eapply fetch_at; eassumption]
  | erewrite run_bind; [|apply load_at; lia] | erewrite run_bind; [|apply store_at; lia]
  | erewrite run_bind; [|reflexivity] ].

Lemma go_imm pc x bs low r rest X e :
  code_at C pc (int_bytes x ++ bs) -> - 2 ^ 31 <= x < 2 ^ 31 ->
  goes (at_ pc low (r :: rest) X e) (at_ (pc + zlen (int_bytes x)) (low ++ [x]) rest X e).
Proof.
  intros Hc Hx. unfold goes. apply code_at_left in Hc. unfold int_bytes in *.
  destruct ((-8 <=? x) && (x <? 8)) eqn:E4; [|destruct ((-128 <=? x) && (x <? 128)) eqn:E8;
    [|destruct ((-32768 <=? x) && (x <? 32768)) eqn:E16]].
  - erewrite (step_at pc _ _ Js.OPC_I4); [|exact Hc|reflexivity|reflexivity|apply nibble].
    unfold Js.exec_op. simpl. rewrite imm4 by lia. run1. reflexivity.
  - pose proof (code_at_tail _ _ _ _ Hc) as Hc1.
    erewrite step_misc by (exact Hc || done). unfold Js.misc_op. simpl.
    run1. rewrite imm8, <-Z.add_assoc by lia. run1. reflexivity.
  - pose proof (code_at_tail _ _ _ _ Hc) as Hc1. pose proof (code_at_tail _ _ _ _ Hc1) as Hc2.
    erewrite step_misc by (exact Hc || done). unfold Js.misc_op. simpl.
    do 2 run1. rewrite imm16, <-!Z.add_assoc by lia. run1. reflexivity.
  - pose proof (code_at_tail _ _ _ _ Hc) as Hc1. pose proof (code_at_tail _ _ _ _ Hc1) as Hc2.
    pose proof (code_at_tail _ _ _ _ Hc2) as Hc3. pose proof (code_at_tail _ _ _ _ Hc3) as Hc4.
    erewrite step_misc by (exact Hc || done). unfold Js.misc_op. simpl.
    do 4 run1. rewrite imm32, <-!Z.add_assoc by lia. run1. reflexivity.
Qed.

Lemma int_op_sem o a b v :
  bin_sem o a b = Some v -> Js.int_op (bin_opc o - Js.INTOP) a b = Some v.
Proof.
  assert (Hdiv : (b =? 0) || (a =? - 2 ^ 31) && (b =? -1) = negb (negb (b =? 0) && negb ((a =? - 2 ^ 31) && (b =? -1)))).
  { by destruct (b =? 0), (a =? - 2 ^ 31), (b =? -1). }
  destruct o; cbn [bin_sem]; try exact (fun E => E).
  - unfold Js.int_op. simpl. destruct ((0 <=? b) && (b <? 32)) eqn:E; [|done]. intros [= <-].
    by rewrite Z.shiftl_mul_pow2 by lia.
  - unfold Js.int_op. simpl. destruct ((0 <=? b) && (b <? 32)) eqn:E; [|done]. intros [= <-].
    by rewrite Z.shiftr_div_pow2 by lia.
  - rewrite Hdiv. unfold Js.int_op. cbn -[Z.quot Z.pow]. by destruct (negb _ && _).
  - rewrite Hdiv. unfold Js.int_op. cbn -[Z.rem Z.pow]. by destruct (negb _ && _).
Qed.

Lemma go_bin o a b v pc bs low rest X e :
  code_at C pc (bin_opc o :: bs) -> bin_sem o a b = Some v ->
  goes (at_ pc (low ++ [a; b]) rest X e) (at_ (pc + 1) (low ++ [v]) (b :: rest) X e).
Proof.
  intros Hc Hs. apply int_op_sem in Hs. unfold goes.
  rewrite (step_at pc (bin_opc o) bs Js.INTOP (bin_opc o - Js.INTOP)); [|exact Hc|lia|done|by destruct o].
  unfold Js.exec_op. cbn [Z.eqb Pos.eqb Js.INTOP Js.OPC_JMP Js.OPC_JEQ Js.OPC_PUSHX Js.OPC_ISP Js.OPC_LD Js.OPC_ST Js.OPC_I4].
  replace (low ++ [a; b]) with ((low ++ [a]) ++ [b]) by by rewrite <-app_assoc.
  do 2 run1. unfold bind. rewrite Hs, push_at. reflexivity.
Qed.

Lemma go_un o a pc bs low rest X e :
  code_at C pc (un_opc o :: bs) ->
  goes (at_ pc (low ++ [a]) rest X e) (at_ (pc + 1) (low ++ [un_sem o a]) rest X e).
Proof.
  intros Hc. unfold goes. rewrite (step_misc pc (un_opc o) bs) by (exact Hc || by destruct o).
  destruct o; unfold Js.misc_op; simpl; do 2 run1; reflexivity.
Qed.

(** The operators with a constant in them. *)
Lemma go_folded o k opc a v pc bs low rest X e :
  folded o (Some k) = Some opc -> bin_sem o a k = Some v -> code_at C pc (opc :: bs) ->
  goes (at_ pc (low ++ [a]) rest X e) (at_ (pc + 1) (low ++ [v]) rest X e).
Proof.
  intros Hf Hs Hc. unfold goes.
  assert (Hop : 0 <= opc < 16) by (destruct o, k as [|[]|]; simpl in Hf; simplify_eq; done).
  rewrite (step_misc pc opc bs) by done.
  destruct o, k as [|[]|]; simpl in Hf; simplify_eq; injection Hs as <-; unfold Js.misc_op; simpl;
    do 2 run1; reflexivity.
Qed.

Lemma go_pop v pc bs low rest X e :
  code_at C pc (Js.OPC_POP :: bs) -> goes (at_ pc (low ++ [v]) rest X e) (at_ (pc + 1) low (v :: rest) X e).
Proof.
  intros Hc. unfold goes. rewrite (step_misc pc Js.OPC_POP bs) by done.
  unfold Js.misc_op. simpl. unfold Js.adjust, at_, bind, get, put, ret. simpl.
  rewrite zlen_app, zlen_single, <-app_assoc. do 3 f_equal. lia.
Qed.

Ltac op12_case opc a := unfold goes;
  match goal with Hc : code_at C _ (op12 opc a ++ _) |- _ =>
    let Hc1 := fresh "Hc1" in pose proof (code_at_tail _ _ _ _ Hc) as Hc1; simpl in Hc1;
    erewrite (step_at _ _ _ opc); [|exact Hc|reflexivity|reflexivity|apply nibble]; unfold Js.exec_op; simpl;
    run1 end.

Lemma go_load a pc bs low r rest X e :
  code_at C pc (op12 Js.OPC_LD a ++ bs) -> 0 <= a < zlen low -> a < 4096 ->
  goes (at_ pc low (r :: rest) X e) (at_ (pc + 2) (low ++ [zget low a]) rest X e).
Proof.
  intros Hc Ha Ha'. op12_case Js.OPC_LD a. rewrite Z.mod_small by lia. rewrite <-Z.add_assoc.
  run1. run1. reflexivity.
Qed.

Lemma go_store a v pc bs low rest X e :
  code_at C pc (op12 Js.OPC_ST a ++ bs) -> 0 <= a < zlen low -> a < 4096 ->
  goes (at_ pc (low ++ [v]) rest X e) (at_ (pc + 2) (zset low a v) (v :: rest) X e).
Proof.
  intros Hc Ha Ha'. op12_case Js.OPC_ST a. rewrite Z.mod_small by lia. rewrite <-Z.add_assoc.
  run1. run1. reflexivity.
Qed.

Lemma signext a : -2048 <= a < 2048 -> Js.SIGNEXT12BIT (a mod 4096) = a.
Proof. intros. unfold Js.SIGNEXT12BIT. change 4096 with (2 ^ 12). rewrite swrap_mod, swrap_id by lia. done. Qed.

Lemma go_jmp d pc bs low rest X e :
  code_at C pc (op12 Js.OPC_JMP d ++ bs) -> -2048 <= d < 2048 ->
  goes (at_ pc low rest X e) (at_ (pc + 2 + d) low rest X e).
Proof.
  intros Hc Hd. op12_case Js.OPC_JMP d. rewrite signext by done.
  unfold Js.jump, at_, bind, get, put, ret. simpl. do 3 f_equal. lia.
Qed.

Lemma go_jeq d v pc bs low rest X e :
  code_at C pc (op12 Js.OPC_JEQ d ++ bs) -> -2048 <= d < 2048 ->
  goes (at_ pc (low ++ [v]) rest X e) (at_ (if v =? 0 then pc + 2 + d else pc + 2) low (v :: rest) X e).
Proof.
  intros Hc Hd. op12_case Js.OPC_JEQ d. rewrite signext by done. run1.
  unfold Js.jump, at_, when, bind, get, put, ret. destruct (v =? 0); simpl; do 3 f_equal; lia.
Qed.

Lemma go_pushx h X pc bs low r rest e :
  code_at C pc (op12 Js.OPC_PUSHX h ++ bs) -> 0 <= h < 4096 -> 0 <= X < 32768 ->
  goes (at_ pc low (r :: rest) X e)
    (at_ (pc + 2) (low ++ [h + X * 2 ^ 16]) rest (zlen low + 1) e).
Proof.
  intros Hc Hh HX. op12_case Js.OPC_PUSHX h. rewrite Z.mod_small by lia. rewrite <-Z.add_assoc. run1.
  change (lget Js.xp _) with X. rewrite (lor_add 16), s32_small by lia. run1. unfold bind, get, put, ret, at_. simpl.
  by rewrite zlen_app, zlen_single.
Qed.

(** *** External functions *)

(** The instruction, up to what it does with the number returned. *)
Lemma extern_at xid n pc bs low args rest x e r out e' :
  code_at C pc (Js.OPC_EXT :: xid :: n :: bs) -> n = zlen args ->
  Js.microjs_extern xid e args = Some (r, out, e') -> zlen out <= zlen args + zlen rest ->
  Js.step C (at_ pc (low ++ args) rest x e) =
  bind (if r <? 0 then Js.except (- r) else Js.adjust (zlen args - r)) (fun _ => ret None)
    (Js.mk_vm (pc + 3) (zlen (low ++ args)) x (patch (zlen low) out (low ++ args ++ rest)) e').
Proof.
  intros Hc -> Hx Ho.
  pose proof (code_at_tail _ _ _ _ Hc) as Hc1. pose proof (code_at_tail _ _ _ _ Hc1) as Hc2.
  pose proof (zlen_nonneg low). pose proof (zlen_nonneg args). pose proof (zlen_nonneg rest).
  rewrite (step_misc pc Js.OPC_EXT (xid :: zlen args :: bs)) by done. unfold Js.misc_op. simpl. do 2 run1.
  unfold Js.extern, bind at 1 2. unfold get at 1. simpl. rewrite zlen_app.
  rewrite (proj2 (Z.leb_le _ _)), (proj2 (Z.leb_le _ _)) by (rewrite ?zlen_app; lia). simpl.
  replace (zlen low + zlen args - zlen args) with (zlen low) by lia.
  rewrite <-app_assoc. rewrite drop_app_length' by (unfold zlen; lia).
  rewrite take_app_length' by (unfold zlen; lia). rewrite Hx.
  rewrite (proj2 (Z.leb_le _ _)) by (rewrite !zlen_app; lia).
  unfold put at 1 2. unfold bind at 1 2. simpl. rewrite <-!Z.add_assoc. reflexivity.
Qed.

Lemma call_returns xid n pc bs low args rest X e r out e' :
  code_at C pc (Js.OPC_EXT :: xid :: n :: bs) -> n = zlen args ->
  Js.microjs_extern xid e args = Some (r, out, e') -> 0 <= r <= zlen out ->
  zlen out <= zlen args + zlen rest ->
  exists rest', goes (at_ pc (low ++ args) rest X e) (at_ (pc + 3) (low ++ take (Z.to_nat r) out) rest' X e') /\
    zlen rest' = zlen args + zlen rest - r.
Proof.
  intros Hc -> Hx Hr Ho.
  pose proof (zlen_nonneg low). pose proof (zlen_nonneg args). pose proof (zlen_nonneg rest).
  exists (drop (Z.to_nat r) out ++ drop (length out) (args ++ rest)). split.
  - unfold goes. rewrite (extern_at _ _ _ _ _ _ _ _ _ _ _ _ Hc eq_refl Hx Ho), (proj2 (Z.ltb_ge _ _)) by lia.
    unfold bind, Js.adjust, get, put, ret, at_. simpl. do 3 f_equal.
    + rewrite !zlen_app, zlen_take by lia. lia.
    + unfold patch. rewrite take_app_length' by (unfold zlen; lia).
      rewrite <-app_assoc. f_equal. rewrite drop_app_ge by (unfold zlen; lia).
      rewrite (app_assoc (take _ out)), take_drop. do 2 f_equal. unfold zlen. lia.
  - unfold zlen in *. rewrite length_app, !length_drop, length_app. lia.
Qed.

(** *** Exceptions *)

(** The default exception frame: at [D], it sends exceptions to [H]. *)
Definition framed (D h : Z) (low : list Z) : Prop := 0 <= D < zlen low /\ zget low D = h + D * 2 ^ 16.

Lemma framed_app D h low l : framed D h low -> framed D h (low ++ l).
Proof.
  intros [Hd Hw]. pose proof (zlen_nonneg l). split; [rewrite zlen_app; lia|]. rewrite <-Hw.
  unfold zget. by rewrite lookup_app_l by (unfold zlen in Hd; lia).
Qed.

Section exceptions.
Variables D h : Z.
Hypothesis HD : 0 <= D < 32768.
Hypothesis Hh : 0 <= h < 4096.
Hypothesis Hret : code_at C h [Js.OPC_RET].

Lemma raise c s :
  Js.v_xp s = D + 1 -> D < zlen (Js.v_data s) -> zget (Js.v_data s) D = h + D * 2 ^ 16 ->
  exists s', Js.except c s = Some (tt, s') /\ ends s' c (Js.v_env s).
Proof.
  intros Hx Hz Hw. destruct s as [pc sp xp d e]. simpl in *. subst xp.
  unfold Js.except, Js.pop, Js.push, bind, get, put, arr_rd, arr_wr, ret. simpl.
  replace (D + 1 - 1) with D by lia.
  rewrite (proj2 (Z.leb_le _ _)), (proj2 (Z.ltb_lt _ _)) by lia. simpl.
  rewrite (proj2 (Z.leb_le _ _)), (proj2 (Z.ltb_lt _ _)) by lia. simpl.
  eexists. split; [reflexivity|]. rewrite Hw.
  replace (Z.land (h + D * 2 ^ 16) 65535) with h.
  2: { change 65535 with (2 ^ 16 - 1). rewrite land_low by lia. change (2 ^ 16) with 65536. lia. }
  destruct (code_at_head _ _ _ _ Hret) as [Hb Hg].
  eexists _, _. split; [apply rtc_refl|]. split; cycle 1.
  { instantiate (1 := Js.mk_vm (h + 1) D (Z.shiftr (h + D * 2 ^ 16) 16) (zset d D c) e). reflexivity. }
  unfold Js.step. erewrite run_bind by (by eapply fetch_at).
  change (Z.shiftl (Z.shiftr Js.OPC_RET 4) 4) with Js.MISCOP. change (Z.land Js.OPC_RET 0xf) with Js.OPC_RET.
  change (Js.exec_op C Js.MISCOP Js.OPC_RET) with (bind Js.pop (fun r0 => ret (Some r0))).
  unfold Js.pop, bind, get, put, arr_rd, ret. simpl.
  replace (D + 1 - 1) with D by lia. rewrite zlen_zset.
  rewrite (proj2 (Z.leb_le _ _)), (proj2 (Z.ltb_lt _ _)) by lia. simpl.
  by rewrite zget_zset_eq by lia.
Qed.

Lemma ends_step s1 s2 c e : Js.step C s1 = Some (None, s2) -> ends s2 c e -> ends s1 c e.
Proof. intros G. apply ends_after. by apply rtc_once. Qed.

Lemma throw_ends c pc bs low rest e :
  framed D h low -> code_at C pc (Js.OPC_XPT :: bs) ->
  ends (at_ pc (low ++ [c]) rest (D + 1) e) c e.
Proof.
  intros [Hd Hw] Hc.
  destruct (raise c (at_ (pc + 1) low (c :: rest) (D + 1) e)) as (s' & E & He); simpl.
  - done.
  - rewrite zlen_app. pose proof (zlen_nonneg (c :: rest)). lia.
  - destruct (framed_app D h low (c :: rest)) as [_ Hw']; done.
  - eapply ends_step; [|exact He]. rewrite (step_misc pc Js.OPC_XPT bs) by done.
    unfold Js.misc_op. simpl. run1. by rewrite (run_bind _ _ _ _ _ E).
Qed.

Lemma call_raises xid n pc bs low args rest e r out e' :
  code_at C pc (Js.OPC_EXT :: xid :: n :: bs) -> n = zlen args ->
  Js.microjs_extern xid e args = Some (r, out, e') -> r < 0 ->
  zlen out <= zlen args + zlen rest -> framed D h low ->
  ends (at_ pc (low ++ args) rest (D + 1) e) (- r) e'.
Proof.
  intros Hc -> Hx Hr Ho [Hd Hw].
  pose proof (zlen_nonneg low). pose proof (zlen_nonneg args). pose proof (zlen_nonneg rest).
  set (d := patch (zlen low) out (low ++ args ++ rest)).
  destruct (raise (- r) (Js.mk_vm (pc + 3) (zlen (low ++ args)) (D + 1) d e')) as (s' & E & He); simpl.
  - done.
  - unfold d. rewrite patch_size; rewrite ?zlen_app; lia.
  - rewrite <-Hw. unfold d, patch, zget. rewrite take_app_length' by (unfold zlen; lia).
    rewrite lookup_app_l by (unfold zlen in Hd; lia). done.
  - eapply ends_step; [|exact He].
    rewrite (extern_at _ _ _ _ _ _ _ _ _ _ _ _ Hc eq_refl Hx Ho), (proj2 (Z.ltb_lt _ _)) by lia.
    fold d. unfold bind. by rewrite E.
Qed.
End exceptions.
End machine.
