(* ===== verification/JsScope.v ===== *)
(** * MicroJS: scopes and resources of a program

    Induction over expressions and statements, the stack a program needs, names
    and their addresses, and what the code generator keeps of a scope: variables
    have words of their own below the mark of the data memory. *)

From S2P Require Import Prelude Js JsLl JsLex JsSym JsLang JsGen JsVm.
From stdpp Require Import relations.
Open Scope Z_scope.
Import Lex Sym Lang Gen.

(** ** Induction over expressions *)

Section exp_ind.
Variable P : exp -> Prop.
Hypothesis HInt : forall n, P (EInt n).
Hypothesis HTrue : P ETrue.
Hypothesis HFalse : P EFalse.
Hypothesis HVar : forall x, P (EVar x).
Hypothesis HUn : forall o a, P a -> P (EUn o a).
Hypothesis HBin : forall o a b, P a -> P b -> P (EBin o a b).
Hypothesis HCall : forall f args, Forall P args -> P (ECall f args).
Fixpoint exp_nested (e : exp) : P e :=
  match e with
  | EInt n => HInt n
  | ETrue => HTrue
  | EFalse => HFalse
  | EVar x => HVar x
  | EUn o a => HUn o a (exp_nested a)
  | EBin o a b => HBin o a b (exp_nested a) (exp_nested b)
  | ECall f args =>
    HCall f args ((fix go l : Forall P l :=
      match l with [] => List.Forall_nil P | e :: l => List.Forall_cons P e l (exp_nested e) (go l) end) args)
  end.
End exp_ind.

Section stm_ind.
Variable P : stm -> Prop.
Hypothesis HItem : forall i, P (SItem i).
Hypothesis HVar : forall d ds, P (SVar d ds).
Hypothesis HThrow : forall e, P (SThrow e).
Hypothesis HIf : forall e b, Forall P b -> P (SIf e b).
Hypothesis HIfElse : forall e b1 b2, Forall P b1 -> Forall P b2 -> P (SIfElse e b1 b2).
Hypothesis HWhile : forall e b, Forall P b -> P (SWhile e b).
Hypothesis HFor : forall i e a b, Forall P b -> P (SFor i e a b).
Fixpoint stm_nested (s : stm) : P s :=
  let fix go l : Forall P l :=
    match l with [] => List.Forall_nil P | s :: l => List.Forall_cons P s l (stm_nested s) (go l) end in
  match s with
  | SItem i => HItem i
  | SVar d ds => HVar d ds
  | SThrow e => HThrow e
  | SIf e b => HIf e b (go b)
  | SIfElse e b1 b2 => HIfElse e b1 b2 (go b1) (go b2)
  | SWhile e b => HWhile e b (go b)
  | SFor i e a b => HFor i e a b (go b)
  end.
End stm_ind.

(** ** The stack a program needs *)

Section need_args.
Variable f : exp -> Z.
Fixpoint need_all (l : list exp) : Z :=
  match l with [] => 0 | e :: l => Z.max (f e) (1 + need_all l) end.
End need_args.
Fixpoint need (e : exp) : Z :=
  match e with
  | EUn _ a => need a
  | EBin _ a b => Z.max (need a) (1 + need b)
  | ECall _ args => Z.max 2 (need_all need args)
  | _ => 1
  end.
Definition need_item (i : item) : Z :=
  match i with IAssign _ e => need e | ICall _ args => Z.max 2 (need_all need args) end.
Definition need_list {A} (f : A -> Z) (l : list A) : Z := foldr (fun x n => Z.max (f x) n) 0 l.
Definition need_decl (d : list Z * option exp) : Z := match snd d with Some e => need e | None => 0 end.
Fixpoint need_stm (s : stm) : Z :=
  match s with
  | SItem i => need_item i
  | SVar d ds => need_list need_decl (d :: ds)
  | SThrow e => need e
  | SIf c b => Z.max (need c) (need_list need_stm b)
  | SIfElse c b1 b2 => Z.max (need c) (Z.max (need_list need_stm b1) (need_list need_stm b2))
  | SWhile c b => Z.max (need c) (need_list need_stm b)
  | SFor i c a b =>
    Z.max (need_list need_item i) (Z.max (need c) (Z.max (need_list need_item a) (need_list need_stm b)))
  end.
Definition need_top (t : top) : Z :=
  match t with TStm s => need_stm s | TBlock b => need_list need_stm b end.

Lemma need_nonneg e : 1 <= need e.
Proof. induction e using exp_nested; simpl; lia. Qed.
Lemma need_all_len args : zlen args <= need_all need args.
Proof. induction args as [|e args IH]; [done|]. rewrite zlen_cons. simpl. lia. Qed.

(** ** Variables and memory *)

Lemma find_var_cons {A} (x y : list Z) (v : A) f :
  find_var x ((y, v) :: f) = if decide (y = x) then Some v else find_var x f.
Proof.
  unfold find_var. simpl. destruct (decide (y = x)) as [->|Hne].
  - by rewrite bool_decide_eq_true_2.
  - by rewrite bool_decide_eq_false_2.
Qed.

Lemma find_var_app {A} (x : list Z) (f f' : list (list Z * A)) :
  find_var x (f ++ f') = match find_var x f with Some v => Some v | None => find_var x f' end.
Proof.
  induction f as [|[y v] f IH]; [done|]. cbn [app]. rewrite !find_var_cons. by destruct (decide (y = x)).
Qed.

Lemma find_var_set {A} (x y : list Z) (v : A) f :
  find_var x (set_var y v f) = if decide (y = x) then (fun _ => v) <$> find_var x f else find_var x f.
Proof.
  induction f as [|[z w] f IH]; simpl.
  { by destruct (decide _). }
  destruct (decide (z = y)) as [->|Hne].
  - rewrite bool_decide_eq_true_2 by done. rewrite !find_var_cons, IH. by destruct (decide (y = x)).
  - rewrite bool_decide_eq_false_2 by done. rewrite !find_var_cons, IH.
    destruct (decide (z = x)) as [->|]; [|done]. by rewrite decide_False.
Qed.

Lemma find_var_In {A} (x : list Z) (v : A) f : find_var x f = Some v -> In (x, v) f.
Proof.
  induction f as [|[y w] f IH]; [done|]. rewrite find_var_cons.
  destruct (decide (y = x)) as [->|]; [intros [= ->]; by left|]. intros E. right. auto.
Qed.

(** Variables in words of their own. *)
Definition separate (g : list (list (list Z * Z))) : Prop := NoDup ((fun b => snd b / 4) <$> concat g).

Lemma NoDup_map_inj {A B} (k : A -> B) l p q : NoDup (k <$> l) -> In p l -> In q l -> k p = k q -> p = q.
Proof.
  induction l as [|x l IH]; [done|]. simpl. rewrite NoDup_cons. intros [Hx Hl] [->|Hp] [->|Hq] E; [done|..].
  - destruct Hx. rewrite E. by apply list_elem_of_fmap_2, list_elem_of_In.
  - destruct Hx. rewrite <-E. by apply list_elem_of_fmap_2, list_elem_of_In.
  - by apply IH.
Qed.

Lemma separate_cons f g : separate (f :: g) ->
  separate g /\
  (forall x a y b, find_var x f = Some a -> find_var y f = Some b -> a / 4 = b / 4 -> x = y) /\
  (forall x a y b, In (x, a) f -> In (y, b) (concat g) -> a / 4 <> b / 4).
Proof.
  unfold separate. simpl. rewrite fmap_app, NoDup_app. intros (Hf & Hfg & Hg). split_and!; [done|..].
  - intros x a y b Ha Hb E. apply find_var_In in Ha, Hb.
    by injection (NoDup_map_inj _ _ _ _ Hf Ha Hb E).
  - intros x a y b Ha Hb E. apply (Hfg (a / 4)).
    + by apply (list_elem_of_fmap_2 (fun b => snd b / 4) f (x, a)), list_elem_of_In.
    + rewrite E. by apply (list_elem_of_fmap_2 (fun b => snd b / 4) (concat g) (y, b)), list_elem_of_In.
Qed.

Lemma konst_range e v : konst e = Some v -> - 2 ^ 31 <= v < 2 ^ 31.
Proof.
  destruct e; try done; simpl.
  - intros [= <-]. apply s32_range.
  - by intros [= <-].
  - by intros [= <-].
  - destruct o; try done. destruct (konst e); [|done]. intros [= <-]. apply s32_range.
Qed.

(** ** Scopes *)

(** A construct of the code generator: its parts have code. *)
Ltac parts Hg := repeat (simpl in Hg; match type of Hg with
  | (_ ← ?x; _) = Some _ => let E := fresh "E" in destruct x as [[? ?]|] eqn:E; [|done]
  | (_ ← ?x; _) = Some _ => let E := fresh "E" in destruct x as [?|] eqn:E; [|done]
  end); simpl in Hg; injection Hg as <- <-.

Section scopes.
Variable libdef : ext_libdef.

Lemma fun_def_ok f n xid rt : fun_def libdef f n = Some (xid, rt) ->
  exists x, lib_lookup libdef f = xid /\ lib_extern_get libdef xid = Some x /\ EXTDEF_TYPE x = O_FUNCTION /\
    x_argmin x <= n <= x_argmax x /\ x_ret x = rt /\ 0 <= xid < 256 /\ n < 256 /\ 0 <= rt.
Proof.
  unfold fun_def. destruct (Z.ltb_spec (lib_lookup libdef f) 0); [done|].
  destruct (lib_extern_get libdef _) as [x|] eqn:Ex; simpl; [|done].
  match goal with |- (if ?b then _ else _) = _ -> _ => destruct b eqn:E end; [|done].
  intros [= <- <-]. exists x. split_and!; try done; lia.
Qed.
Lemma fun_def_xid f n xid rt : fun_def libdef f n = Some (xid, rt) -> lib_lookup libdef f = xid /\ 0 <= rt.
Proof. intros Hf. by destruct (fun_def_ok _ _ _ _ Hf) as (x & ? & _ & _ & _ & _ & _ & _ & ?). Qed.

Definition ctx_ok (c : ctx) : Prop :=
  separate (vars c) /\ (forall x a, In (x, a) (concat (vars c)) -> 0 <= a /\ a / 4 < used c / 4) /\
  0 <= used c <= Z.min (most c) 16384 /\ used c mod 4 = 0.
(** What code leaves of a scope. *)
Definition extends (c c' : ctx) : Prop :=
  ctx_ok c' /\ most c <= most c' /\ used c <= used c' /\ tail (vars c') = tail (vars c).

Lemma extends_refl c : ctx_ok c -> extends c c.
Proof. done. Qed.
Lemma extends_trans c1 c2 c3 : extends c1 c2 -> extends c2 c3 -> extends c1 c3.
Proof. intros (_ & ? & ? & E1) (? & ? & ? & E2). split_and!; [done|lia..|by rewrite E2]. Qed.

Lemma new_var_ok x c c' : ctx_ok c -> new_var x c = Some c' -> extends c c'.
Proof.
  intros Hok. pose proof Hok as (Hs & Ha & Hu & Hm). unfold new_var.
  destruct (vars c) as [|f g] eqn:Ev; [done|]. destruct (find_var x f) eqn:Ef.
  - intros [= <-]. by apply extends_refl.
  - destruct ((used c + 4 <=? 16384) && _) eqn:Er; [|done]. intros [= <-]. unfold extends, ctx_ok. simpl. rewrite Ev. split_and!; try lia; [|..|done].
    + unfold separate in *. simpl in *. apply NoDup_cons. split; [|done].
      intros Hin. apply list_elem_of_fmap in Hin as ([y b] & E & Hin). apply list_elem_of_In in Hin.
      destruct (Ha _ _ Hin). simpl in E. lia.
    + intros y b [[= <- <-]|Hin]; [split; lia|]. destruct (Ha _ _ Hin). split; lia.
Qed.

Lemma open_ok c : ctx_ok c -> ctx_ok (open_scope c).
Proof. done. Qed.
Lemma close_ok c c' : ctx_ok c -> extends (open_scope c) c' -> extends c (close_scope c c').
Proof.
  intros (? & ? & ? & ?) (? & Hm & ? & ?). unfold extends, ctx_ok. simpl in *. split_and!; try done; lia.
Qed.

Section lists.
Context {A : Type}.
Variable gf : A -> ctx -> option (list Z * ctx).
Definition keeps (x : A) : Prop := forall c bs c', gf x c = Some (bs, c') -> ctx_ok c -> extends c c'.

Lemma each_extends l : Forall keeps l ->
  forall c bs c', each gf l c = Some (bs, c') -> ctx_ok c -> extends c c'.
Proof.
  induction 1 as [|x l Hx Hl IH]; intros c bs c' Hg Hc; simpl in Hg.
  - injection Hg as <- <-. by apply extends_refl.
  - destruct (gf x c) as [[b1 c1]|] eqn:E1; [|done]. simpl in Hg.
    destruct (each gf l c1) as [[b2 c2]|] eqn:E2; [|done]. injection Hg as <- <-.
    specialize (Hx _ _ _ E1 Hc). eapply extends_trans; [done|]. eapply IH; [done|]. by destruct Hx.
Qed.

Lemma block_extends l : Forall keeps l ->
  forall c bs c', block gf l c = Some (bs, c') -> ctx_ok c ->
  exists c1, each gf l (open_scope c) = Some (bs, c1) /\ c' = close_scope c c1 /\
    extends (open_scope c) c1 /\ extends c c'.
Proof.
  intros Hl c bs c' Hg Hc. unfold block in Hg.
  destruct (each gf l (open_scope c)) as [[b1 c1]|] eqn:E; [|done]. injection Hg as <- <-.
  assert (extends (open_scope c) c1) by (eapply each_extends; [done..|by apply open_ok]).
  exists c1. split_and!; try done. by apply close_ok.
Qed.

End lists.

#[local] Arguments gen_item : simpl never.

Lemma decl_keeps d : keeps (gen_decl libdef) d.
Proof.
  intros c bs c' Hg Hok. unfold gen_decl in Hg. destruct (new_var (fst d) c) as [c1|] eqn:E; [|done]. simpl in Hg.
  assert (c' = c1) as ->.
  { destruct (snd d) as [e|]; [|by injection Hg].
    destruct (gen_item libdef (vars c1) _); [|done]. by injection Hg. }
  by eapply new_var_ok.
Qed.

Lemma stm_keeps s : keeps (gen_stm libdef) s.
Proof.
  induction s as [i|d ds|e|e b Hb|e b1 b2 Hb1 Hb2|e b Hb|i e a b Hb] using stm_nested;
    intros c bs c' Hg Hok; simpl in Hg.
  - parts Hg. by apply extends_refl.
  - by eapply (each_extends (gen_decl libdef) (d :: ds)); [apply Forall_true, decl_keeps|..].
  - parts Hg. by apply extends_refl.
  - parts Hg. by destruct (block_extends _ _ Hb _ _ _ E0 Hok) as (? & ? & ? & ? & ?).
  - parts Hg. destruct (block_extends _ _ Hb1 _ _ _ E0 Hok) as (? & ? & ? & ? & Hx1).
    destruct (block_extends _ _ Hb2 _ _ _ E1 ltac:(by destruct Hx1)) as (? & ? & ? & ? & Hx2).
    by eapply extends_trans.
  - parts Hg. by destruct (block_extends _ _ Hb _ _ _ E0 Hok) as (? & ? & ? & ? & ?).
  - parts Hg. by destruct (block_extends _ _ Hb _ _ _ E2 Hok) as (? & ? & ? & ? & ?).
Qed.

Lemma top_keeps t : keeps (gen_top libdef) t.
Proof.
  destruct t as [s|b]; intros c bs c' Hg Hok; [by eapply stm_keeps|].
  by destruct (block_extends _ b (Forall_true _ _ stm_keeps) _ _ _ Hg Hok) as (? & _ & _ & _ & ?).
Qed.

Lemma block_keeps b c bs c' : block (gen_stm libdef) b c = Some (bs, c') -> ctx_ok c ->
  vars c' = vars c /\ most c <= most c' /\ ctx_ok c'.
Proof.
  intros Hg Hok.
  by destruct (block_extends _ b (Forall_true _ _ stm_keeps) _ _ _ Hg Hok) as (c1 & _ & -> & _ & (? & ? & _)).
Qed.

End scopes.

Lemma init_ok : ctx_ok (mk_ctx [[]] 0 0).
Proof. split; [by apply NoDup_nil|]. by split. Qed.
