(* ===== verification/JsRun.v ===== *)
(** * MicroJS: the code does what the program means

    A simulation of the meaning of [JsLang.v] by the machine on the code of
    [JsGen.v]: expressions leave their value on the stack, statements change the
    words of their variables, an exception ends the run with its code. *)

From S2P Require Import Prelude Js JsLl JsLex JsSym JsLang JsGen JsVm JsScope.
From stdpp Require Import relations.
Open Scope Z_scope.
Import Lex Sym Lang Gen.

Lemma room (rest : list Z) : 1 <= zlen rest -> exists r rest', rest = r :: rest' /\ zlen rest' = zlen rest - 1.
Proof. destruct rest as [|r rest]; [done|]. intros _. exists r, rest. rewrite zlen_cons. split; [done|lia]. Qed.

Section run.
Context `{Js.JsHost}.
Variable libdef : ext_libdef.

(** What the external functions promise: a negative code, or as many values as
    their definition says, in the room they have. *)
Definition host_ok : Prop :=
  forall f xid n ret e args r out e',
    fun_def libdef f n = Some (xid, ret) -> zlen args = n ->
    Js.microjs_extern xid e args = Some (r, out, e') ->
    zlen out <= Z.max n ret /\ (0 <= r -> r = ret /\ r <= zlen out).

Hypothesis Hhost : host_ok.
Variable C : list Z.
Variables D h : Z.
Hypothesis HD : 0 <= D < 32768.
Hypothesis Hh : 0 <= h < 4096.
Hypothesis Hret : code_at C h [Js.OPC_RET].
Hypothesis HC : zlen C <= 2048.

(** A frame of names, the addresses of its words and their values. *)
Definition frame_in (low : list Z) (f : list (list Z * Z)) (rf : frame) : Prop :=
  forall x, match find_var x f, find_var x rf with
            | Some a, Some ov => 0 <= a / 4 < Z.min D 4096 /\ (forall v, ov = Some v -> zget low (a / 4) = v)
            | None, None => True
            | _, _ => False
            end.
Definition vars_in (low : list Z) : list (list (list Z * Z)) -> list frame -> Prop := Forall2 (frame_in low).

Lemma frame_in_ext low low' f rf :
  frame_in low f rf ->
  (forall x a, find_var x f = Some a -> zget low' (a / 4) = zget low (a / 4)) -> frame_in low' f rf.
Proof.
  intros Hf He x. specialize (Hf x). specialize (He x).
  destruct (find_var x f) as [a|], (find_var x rf) as [ov|]; try done.
  destruct Hf as [Ha Hv]. split; [done|]. intros v E. rewrite He by done. by apply Hv.
Qed.

Lemma vars_in_app low l g r : D < zlen low -> vars_in low g r -> vars_in (low ++ l) g r.
Proof.
  intros Hl Hg. induction Hg as [|f rf g r Hf Hg IH]; constructor; [|done].
  eapply frame_in_ext; [done|]. intros x a E. specialize (Hf x). rewrite E in Hf.
  destruct (find_var x rf); [|done]. unfold zget. rewrite lookup_app_l by (unfold zlen in Hl; lia). done.
Qed.

Lemma vars_in_lookup low g r x :
  vars_in low g r ->
  match address x g, lookup x r with
  | Some a, Some ov => 0 <= a / 4 < Z.min D 4096 /\ (forall v, ov = Some v -> zget low (a / 4) = v)
  | None, None => True
  | _, _ => False
  end.
Proof.
  unfold address, lookup. induction 1 as [|f rf g r Hf Hg IH]; [done|]. simpl.
  rewrite !find_var_app. specialize (Hf x).
  destruct (find_var x f), (find_var x rf); done.
Qed.

(** ** Simulation

    The machine at [pc], the stack holding [low] with room for [n] more. *)
Definition At (pc : Z) (low : list Z) (n : Z) (e : Js.env) (s : Js.vm) : Prop :=
  exists rest, s = at_ pc low rest (D + 1) e /\ zlen rest = n.
Definition sim {A} (s : Js.vm) (res : option ((Z + A) * Js.env)) (Q : A -> Js.env -> Js.vm -> Prop) : Prop :=
  match res with
  | Some (inr a, e) => exists s', rtc (goes C) s s' /\ Q a e s'
  | Some (inl c, e) => ends C s c e
  | None => True
  end.
#[local] Arguments sim : simpl never.

Lemma sim_val {A} (a : A) e s (Q : A -> Js.env -> Js.vm -> Prop) : Q a e s -> sim s (val a e) Q.
Proof. intros HQ. exists s. split; [apply rtc_refl|done]. Qed.
Lemma sim_bind {A B} (c : ev A) (k : A -> ev B) e s P Q :
  sim s (c e) P -> (forall a e s, P a e s -> sim s (k a e) Q) -> sim s (andthen c k e) Q.
Proof.
  unfold sim at 1, andthen. destruct (c e) as [[[x|a] e']|]; [done| |done].
  intros (s' & R & HP) Hk. specialize (Hk _ _ _ HP). unfold sim in *.
  destruct (k a e') as [[[x|b] e'']|]; [by eapply ends_after| |done].
  destruct Hk as (s'' & R' & HQ). exists s''. split; [by etrans|done].
Qed.
Lemma sim_mono {A} s (res : option ((Z + A) * Js.env)) (P Q : A -> Js.env -> Js.vm -> Prop) :
  sim s res P -> (forall a e s, P a e s -> Q a e s) -> sim s res Q.
Proof.
  unfold sim. destruct res as [[[x|a] e]|]; [done| |done]. intros (s' & R & HP) HQ. exists s'. auto.
Qed.
Lemma sim_after {A} s s' (res : option ((Z + A) * Js.env)) Q : goes C s s' -> sim s' res Q -> sim s res Q.
Proof.
  intros G. unfold sim. destruct res as [[[x|a] e]|]; [|intros (s'' & R & HQ)|done].
  - apply ends_after. by apply rtc_once.
  - exists s''. split; [by eapply rtc_l|done].
Qed.
Lemma sim_more {A} s (res : option ((Z + A) * Js.env)) (P Q : A -> Js.env -> Js.vm -> Prop) :
  sim s res P -> (forall a e s, P a e s -> exists s', goes C s s' /\ Q a e s') -> sim s res Q.
Proof.
  unfold sim. destruct res as [[[x|a] e]|]; [done| |done]. intros (s' & R & HP) HQ.
  destruct (HQ _ _ _ HP) as (s'' & G & HQ'). exists s''. split; [by eapply rtc_r|done].
Qed.
Lemma sim_undef {A} s e (Q : A -> Js.env -> Js.vm -> Prop) : sim s (undef e) Q.
Proof. done. Qed.

(** *** One rule per instruction *)

Section rules.
Context {A : Type}.
Variables (res : option ((Z + A) * Js.env)) (Q : A -> Js.env -> Js.vm -> Prop).

Ltac rule := let rest := fresh "rest" in let Hn := fresh "Hn" in
  intros (rest & -> & Hn);
  try (destruct (room rest) as (? & ? & -> & ?); [lia|]);
  let K := fresh "K" in intros K;
  eapply sim_after; [|eapply K; eexists; split; [reflexivity|]].

Lemma sim_imm x bs pc low n e s :
  At pc low n e s -> code_at C pc (int_bytes x ++ bs) -> - 2 ^ 31 <= x < 2 ^ 31 -> 1 <= n ->
  (forall s', At (pc + zlen (int_bytes x)) (low ++ [x]) (n - 1) e s' -> sim s' res Q) -> sim s res Q.
Proof. intros HA Hc Hx Hr; revert HA. rule; [by apply go_imm with bs|lia]. Qed.

Lemma sim_load a bs pc low n e s :
  At pc low n e s -> code_at C pc (op12 Js.OPC_LD a ++ bs) -> 0 <= a < Z.min D 4096 -> D < zlen low -> 1 <= n ->
  (forall s', At (pc + 2) (low ++ [zget low a]) (n - 1) e s' -> sim s' res Q) -> sim s res Q.
Proof. intros HA Hc Ha Hl Hr; revert HA. rule; [apply go_load with bs; (done || lia)|lia]. Qed.

Lemma sim_store a v bs pc low n e s :
  At pc (low ++ [v]) n e s -> code_at C pc (op12 Js.OPC_ST a ++ bs) -> 0 <= a < Z.min D 4096 -> D < zlen low ->
  (forall s', At (pc + 2) (zset low a v) (n + 1) e s' -> sim s' res Q) -> sim s res Q.
Proof.
  intros (rest & -> & Hn) Hc Ha Hl K. eapply sim_after; [apply go_store with bs; (done || lia)|].
  apply K. eexists. split; [done|]. by rewrite zlen_cons, Hn.
Qed.

Lemma sim_un o a bs pc low n e s :
  At pc (low ++ [a]) n e s -> code_at C pc (un_opc o :: bs) ->
  (forall s', At (pc + 1) (low ++ [un_sem o a]) n e s' -> sim s' res Q) -> sim s res Q.
Proof.
  intros (rest & -> & Hn) Hc K. eapply sim_after; [by apply go_un with bs|]. apply K. by eexists.
Qed.

Lemma sim_bin o a b v bs pc low n e s :
  At pc (low ++ [a; b]) n e s -> code_at C pc (bin_opc o :: bs) -> bin_sem o a b = Some v ->
  (forall s', At (pc + 1) (low ++ [v]) (n + 1) e s' -> sim s' res Q) -> sim s res Q.
Proof.
  intros (rest & -> & Hn) Hc Hv K. eapply sim_after; [by apply (go_bin C o a b v pc bs)|].
  apply K. eexists. split; [done|]. by rewrite zlen_cons, Hn.
Qed.

Lemma sim_folded o k opc a v bs pc low n e s :
  At pc (low ++ [a]) n e s -> folded o (Some k) = Some opc -> code_at C pc (opc :: bs) -> bin_sem o a k = Some v ->
  (forall s', At (pc + 1) (low ++ [v]) n e s' -> sim s' res Q) -> sim s res Q.
Proof.
  intros (rest & -> & Hn) Hf Hc Hv K. eapply sim_after; [by eapply go_folded|]. apply K. by eexists.
Qed.

Lemma sim_pop v bs pc low n e s :
  At pc (low ++ [v]) n e s -> code_at C pc (Js.OPC_POP :: bs) ->
  (forall s', At (pc + 1) low (n + 1) e s' -> sim s' res Q) -> sim s res Q.
Proof.
  intros (rest & -> & Hn) Hc K. eapply sim_after; [by apply go_pop with bs|].
  apply K. eexists. split; [done|]. by rewrite zlen_cons, Hn.
Qed.

Lemma sim_jmp d bs pc low n e s :
  At pc low n e s -> code_at C pc (op12 Js.OPC_JMP d ++ bs) -> -2048 <= d < 2048 ->
  (forall s', At (pc + 2 + d) low n e s' -> sim s' res Q) -> sim s res Q.
Proof.
  intros (rest & -> & Hn) Hc Hd K. eapply sim_after; [by apply go_jmp with bs|]. apply K. by eexists.
Qed.

Lemma sim_jeq d v bs pc low n e s :
  At pc (low ++ [v]) n e s -> code_at C pc (op12 Js.OPC_JEQ d ++ bs) -> -2048 <= d < 2048 ->
  (forall s', At (if v =? 0 then pc + 2 + d else pc + 2) low (n + 1) e s' -> sim s' res Q) -> sim s res Q.
Proof.
  intros (rest & -> & Hn) Hc Hd K. eapply sim_after; [by apply go_jeq with bs|].
  apply K. eexists. split; [done|]. by rewrite zlen_cons, Hn.
Qed.

Lemma sim_throw c bs pc low n e s :
  At pc (low ++ [c]) n e s -> framed D h low -> code_at C pc (Js.OPC_XPT :: bs) -> sim s (throw c e) Q.
Proof. intros (rest & -> & Hn) Hf Hc. by eapply throw_ends; eauto; lia. Qed.
End rules.

(** *** Calls *)

Lemma sim_ext f n xid rt args bs pc low k e s :
  fun_def libdef f n = Some (xid, rt) -> zlen args = n -> code_at C pc (Js.OPC_EXT :: xid :: n :: bs) ->
  rt <= n + k -> 0 <= k -> framed D h low -> At pc (low ++ args) k e s ->
  sim s (call libdef f args e) (fun out e s => zlen out = rt /\ At (pc + 3) (low ++ out) (n + k - rt) e s).
Proof.
  intros Hf Hn Hc Hk Hk0 Hfr (rest & -> & Hr). destruct (fun_def_xid _ _ _ _ _ Hf) as [Hx Hrt].
  unfold call. rewrite Hx.
  destruct (Js.microjs_extern xid e args) as [[[r out] e']|] eqn:E; [|done].
  destruct (Hhost _ _ _ _ _ _ _ _ _ Hf Hn E) as [Ho Hret'].
  destruct (Z.ltb_spec r 0).
  - simpl. by eapply call_raises; eauto; lia.
  - destruct Hret' as [-> Hro]; [done|].
    destruct (call_returns C xid n pc bs low args rest (D + 1) e rt out e') as (rest' & G & Hz); try done; try lia.
    exists (at_ (pc + 3) (low ++ take (Z.to_nat rt) out) rest' (D + 1) e'). split; [by apply rtc_once|].
    split; [by apply zlen_take|]. exists rest'. split; [done|lia].
Qed.

Lemma sim_call f n xid rt keep c args pc low k e s :
  At pc (low ++ args) k e s -> fun_def libdef f n = Some (xid, rt) -> gen_call xid n (rt - keep) = Some c ->
  keep = 0 \/ keep = 1 -> zlen args = n -> code_at C pc c -> 2 <= n + k -> 0 <= k -> framed D h low ->
  sim s (call libdef f args e) (fun out e s =>
    exists v, (if keep =? 0 then True else head out = Some v) /\
      At (pc + zlen c) (low ++ if keep =? 0 then [] else [v]) (n + k - keep) e s).
Proof.
  intros HA Hf Hg Hkp Hn Hc Hk Hk0 Hfr. unfold gen_call in Hg.
  destruct (fun_def_xid _ _ _ _ _ Hf) as [_ Hrt].
  destruct (Z.eqb_spec (rt - keep) 0) as [E0|E0].
  - injection Hg as <-. eapply sim_mono; [apply (sim_ext f n xid rt args [] pc low k e s); (done || lia)|].
    intros out e1 s1 [Ho H1]. replace rt with keep in * by lia.
    destruct Hkp as [-> | ->]; simpl.
    + destruct out; [|by rewrite zlen_cons in Ho; pose proof (zlen_nonneg out); lia]. by exists 0.
    + destruct out as [|v [|w out]]; [done| |rewrite !zlen_cons in Ho; pose proof (zlen_nonneg out); lia].
      exists v. done.
  - destruct (Z.eqb_spec (rt - keep) 1) as [E1|E1]; [|done]. injection Hg as <-.
    eapply sim_more; [apply (sim_ext f n xid rt args [Js.OPC_POP] pc low k e s); (done || lia)|].
    intros out e1 s1 [Ho (rest & -> & Hr)].
    change [Js.OPC_EXT; xid; n; Js.OPC_POP] with ([Js.OPC_EXT; xid; n] ++ [Js.OPC_POP]) in Hc.
    apply code_at_right in Hc. change (zlen [Js.OPC_EXT; xid; n]) with 3 in Hc.
    destruct Hkp as [-> | ->]; simpl.
    + destruct out as [|v [|w out]]; rewrite ?zlen_cons in Ho; [by change (zlen []) with 0 in Ho; lia| |pose proof (zlen_nonneg out); lia].
      eexists. split; [by apply go_pop with []|]. exists 0. split; [done|]. rewrite app_nil_r.
      eexists. split; [by rewrite <-Z.add_assoc|rewrite zlen_cons; lia].
    + destruct out as [|v [|w [|? out]]]; rewrite ?zlen_cons in Ho;
        [by change (zlen []) with 0 in Ho; lia|by change (zlen []) with 0 in Ho; lia| |pose proof (zlen_nonneg out); lia].
      replace (low ++ [v; w]) with ((low ++ [v]) ++ [w]) by by rewrite <-app_assoc.
      eexists. split; [by apply go_pop with []|]. exists v. split; [done|].
      eexists. split; [by rewrite <-Z.add_assoc|rewrite zlen_cons; lia].
Qed.

(** *** Expressions *)

Lemma konst_eval e v r : konst e = Some v -> eval libdef r e = val v.
Proof.
  revert v. induction e using exp_nested; intros v; simpl; try done; try (by intros [= <-]).
  destruct o; try done. destruct (konst e) as [w|]; [|done]. intros [= <-].
  by rewrite (IHe w).
Qed.

Lemma framed_D low : framed D h low -> D < zlen low.
Proof. intros [[_ Hd] _]. exact Hd. Qed.

Ltac beta_hyps := repeat match goal with H : (fun _ => _) _ _ _ |- _ => cbv beta in H end.
Ltac side := beta_hyps; solve
  [ eassumption | done | lia | by apply framed_D | by apply framed_app
  | by eapply code_at_left | by eapply code_at_right | by rewrite app_nil_r
  | apply vars_in_app; [by apply framed_D|done] ].

Definition exp_runs (e : exp) : Prop :=
  forall g bs r pc low n ev s,
    At pc low n ev s -> gen_exp libdef g e = Some bs -> code_at C pc bs -> vars_in low g r -> framed D h low ->
    need e <= n ->
    sim s (eval libdef r e ev) (fun v ev s => At (pc + zlen bs) (low ++ [v]) (n - 1) ev s).

Lemma args_run args : Forall exp_runs args ->
  forall g bs r pc low n ev s,
    At pc low n ev s -> gen_all (gen_exp libdef g) args = Some bs -> code_at C pc bs -> vars_in low g r ->
    framed D h low -> need_all need args <= n ->
    sim s (eval_all (eval libdef r) args ev) (fun vs ev s =>
      zlen vs = zlen args /\ At (pc + zlen bs) (low ++ vs) (n - zlen args) ev s).
Proof.
  induction 1 as [|e args He Hargs IH]; intros g bs r pc low n ev s HA Hg Hc Hv Hf Hn.
  - injection Hg as <-. apply sim_val. split; [done|]. by rewrite Z.add_0_r, app_nil_r, Z.sub_0_r.
  - simpl in Hg. destruct (gen_exp libdef g e) as [c|] eqn:E1; [|done]. simpl in Hg.
    destruct (gen_all (gen_exp libdef g) args) as [cs|] eqn:E2; [|done]. injection Hg as <-. simpl in Hn |- *.
    eapply sim_bind; [eapply He; side|].
    intros v ev1 s1 H1. eapply sim_bind.
    + eapply (IH g cs r); side.
    + intros vs ev2 s2 [Hz H2]. apply sim_val. rewrite !zlen_cons, zlen_app, <-app_assoc in *.
      split; [lia|]. replace (n - (zlen args + 1)) with (n - 1 - zlen args) by lia. by rewrite Z.add_assoc.
Qed.

Lemma exp_runs_all e : exp_runs e.
Proof.
  induction e using exp_nested; intros g bs r pc low k ev s HA Hg Hc Hv Hf Hn; simpl in Hg, Hn.
  - injection Hg as <-. eapply sim_imm with (bs := []); try side; [apply s32_range|].
    intros s' H'. by apply sim_val.
  - injection Hg as <-. eapply sim_imm with (bs := []); try side. intros s' H'. by apply sim_val.
  - injection Hg as <-. eapply sim_imm with (bs := []); try side. intros s' H'. by apply sim_val.
  - pose proof (vars_in_lookup low g r x Hv) as Hx. destruct (address x g) as [a|]; [|done].
    injection Hg as <-. simpl. destruct (lookup x r) as [[v|]|]; [|done..].
    destruct Hx as [Ha Hx].
    eapply sim_load with (bs := []); try side.
    intros s' H'. apply sim_val. by rewrite (Hx v) in H'.
  - destruct (konst (EUn o e)) as [v|] eqn:Ek.
    + assert (bs = int_bytes v) as -> by (simpl in Ek, Hg; by destruct o; rewrite ?Ek in Hg; simplify_eq/=).
      rewrite (konst_eval _ _ r Ek). pose proof (need_nonneg e). eapply sim_imm with (bs := []); try side; [by eapply konst_range|].
      intros s' H'. by apply sim_val.
    + destruct (gen_exp libdef g e) as [c|] eqn:Ec.
      2: { simpl in Ek. destruct o; simpl in Hg; try done; destruct (konst e); done. }
      assert (bs = c ++ [un_opc o]) as ->.
      { simpl in Ek. by destruct o; simpl in Hg; try (destruct (konst e); [done|]); simplify_eq/=. }
      simpl. eapply sim_bind; [eapply IHe; side|].
      intros v ev1 s1 H1. eapply sim_un with (bs := []); try side.
      intros s' H'. apply sim_val. by rewrite zlen_app, zlen_single, Z.add_assoc.
  - destruct (gen_exp libdef g e1) as [ca|] eqn:E1; [|done]. destruct (gen_exp libdef g e2) as [cb|] eqn:E2; [|done].
    simpl in Hg |- *. destruct (folded o (konst e2)) as [opc|] eqn:Ef; injection Hg as <-.
    + destruct (konst e2) as [w|] eqn:Ek; [|by destruct o].
      eapply sim_bind; [eapply IHe1; side|].
      intros v ev1 s1 H1. rewrite (konst_eval _ _ r Ek).
      change (andthen (val w) ?k ev1) with (k w ev1). cbv beta.
      destruct (bin_sem o v w) as [u|] eqn:Eb; [|done]. simpl.
      eapply sim_folded with (bs := []); try side.
      intros s' H'. apply sim_val. by rewrite zlen_app, zlen_single, Z.add_assoc.
    + eapply sim_bind; [eapply IHe1; side|].
      intros v ev1 s1 H1. pose proof (framed_D _ Hf). apply code_at_right in Hc.
      eapply sim_bind.
      { eapply (IHe2 g cb r); side. }
      intros w ev2 s2 H2. cbv beta in H2. rewrite <-app_assoc in H2. change ([v] ++ [w]) with [v; w] in H2.
      destruct (bin_sem o v w) as [u|] eqn:Eb; [|done]. simpl.
      eapply sim_bin with (bs := []); try side.
      intros s' H'. apply sim_val. rewrite !zlen_app, zlen_single, !Z.add_assoc.
      by replace (k - 1) with (k - 1 - 1 + 1) by lia.
  - destruct (gen_all (gen_exp libdef g) args) as [cs|] eqn:E1; [|done]. simpl in Hg.
    destruct (fun_def libdef f (zlen args)) as [[xid rt]|] eqn:E2; [|done]. simpl in Hg.
    destruct (gen_call xid (zlen args) (rt - 1)) as [c|] eqn:E3; [|done]. injection Hg as <-. simpl.
    eapply sim_bind; [eapply args_run; side|].
    intros vs ev1 s1 [Hz H1]. pose proof (need_all_len args). pose proof (zlen_nonneg args).
    eapply sim_bind; [eapply (sim_call f (zlen args) xid rt 1 c vs); try side; by right|].
    intros out ev2 s2 (v & Hv2 & HA2). simpl in Hv2. rewrite Hv2. apply sim_val.
    rewrite zlen_app, Z.add_assoc. simpl in HA2. by replace (k - 1) with (zlen args + (k - zlen args) - 1) by lia.
Qed.

(** ** Assignments *)

Lemma frame_in_zset low f rf a v :
  D < zlen low -> 0 <= a / 4 -> frame_in low f rf ->
  (forall y b, find_var y f = Some b -> b / 4 <> a / 4) -> frame_in (zset low (a / 4) v) f rf.
Proof.
  intros Hl Ha Hf Hne. eapply frame_in_ext; [done|]. intros x b E.
  apply zget_zset_ne; [|done]. by apply not_eq_sym, (Hne x).
Qed.

Lemma frame_in_assign low f rf x a v :
  D < zlen low -> frame_in low f rf -> find_var x f = Some a ->
  (forall y b, find_var y f = Some b -> b / 4 = a / 4 -> y = x) ->
  frame_in (zset low (a / 4) v) f (set_var x (Some v) rf).
Proof.
  intros Hl Hf Hx Hi y. pose proof (Hf x) as Hfx. rewrite Hx in Hfx. destruct (find_var x rf) as [ov|] eqn:Ex; [|done].
  destruct Hfx as [Ha _]. rewrite find_var_set. specialize (Hf y). specialize (Hi y).
  destruct (decide (x = y)) as [<-|Hne].
  - rewrite Hx, Ex. simpl. split; [done|]. intros w [= <-]. apply zget_zset_eq. lia.
  - destruct (find_var y f) as [b|], (find_var y rf) as [ov'|]; try done.
    destruct Hf as [Hb Hv]. split; [done|]. intros w E. rewrite zget_zset_ne; [by apply Hv| |lia].
    intros E'. apply Hne. symmetry. by apply (Hi b).
Qed.

Lemma vars_in_zset low g r a v :
  D < zlen low -> 0 <= a / 4 -> vars_in low g r ->
  (forall y b, In (y, b) (concat g) -> b / 4 <> a / 4) -> vars_in (zset low (a / 4) v) g r.
Proof.
  intros Hl Ha Hv Hne. induction Hv as [|f rf g r Hf Hg IH]; constructor.
  - apply frame_in_zset; try done. intros y b E. apply (Hne y). apply in_or_app. left. by apply find_var_In.
  - apply IH. intros y b Hb. apply (Hne y). apply in_or_app. by right.
Qed.

Lemma vars_in_assign low g r x a v :
  D < zlen low -> vars_in low g r -> separate g -> address x g = Some a ->
  exists r', assign x v r = Some r' /\ vars_in (zset low (a / 4) v) g r' /\ 0 <= a / 4 < Z.min D 4096.
Proof.
  intros Hl Hv. unfold address. induction Hv as [|f rf g r Hf Hg IH]; [done|]. simpl. intros Hs.
  apply separate_cons in Hs as (Hs & Hi & Hd). rewrite find_var_app. pose proof (Hf x) as Hfx.
  destruct (find_var x f) as [b|] eqn:Ef.
  - intros [= ->]. destruct (find_var x rf); [|done]. destruct Hfx as [Ha _].
    exists (set_var x (Some v) rf :: r). split; [done|]. split; [|done]. constructor.
    + apply frame_in_assign; try done. intros y b Hb E. by apply (Hi y b x a).
    + apply vars_in_zset; [done|lia|done|]. intros y b Hb E. by apply (Hd x a y b); [by apply find_var_In|..].
  - intros Ea. destruct (find_var x rf); [done|]. destruct (IH Hs Ea) as (r' & -> & Hv' & Ha).
    exists (rf :: r'). split; [done|]. split; [|done]. constructor; [|done].
    apply frame_in_zset; [done|lia|done|]. intros y b Hb E. apply (Hd y b x a); try done; apply find_var_In; done.
Qed.

(** ** Statements

    Between statements the stack holds the data and the default exception frame. *)
Definition St (pc : Z) (g : list (list (list Z * Z))) (n : Z) (r : list frame) (e : Js.env) (s : Js.vm) : Prop :=
  exists low, At pc low n e s /\ zlen low = D + 1 /\ framed D h low /\ vars_in low g r.
(** And with a value on top. *)
Definition Sv (pc : Z) (g : list (list (list Z * Z))) (n : Z) (r : list frame) (v : Z) (e : Js.env) (s : Js.vm) : Prop :=
  exists low, At pc (low ++ [v]) (n - 1) e s /\ zlen low = D + 1 /\ framed D h low /\ vars_in low g r.

Lemma exp_in e g bs r pc n ev s :
  St pc g n r ev s -> gen_exp libdef g e = Some bs -> code_at C pc bs -> need e <= n ->
  sim s (eval libdef r e ev) (Sv (pc + zlen bs) g n r).
Proof.
  intros (low & HA & Hl & Hf & Hv) Hg Hc Hn. eapply sim_mono; [eapply exp_runs_all; side|].
  intros v ev1 s1 H1. by exists low.
Qed.

Lemma framed_zset low a v : framed D h low -> 0 <= a < D -> framed D h (zset low a v).
Proof.
  intros [Hd Hw] Ha. split; [by rewrite zlen_zset|]. rewrite zget_zset_ne by lia. done.
Qed.

Lemma item_runs i g bs r pc n ev s :
  St pc g n r ev s -> gen_item libdef g i = Some bs -> code_at C pc bs -> separate g -> need_item i <= n ->
  sim s (exec_item libdef i r ev) (St (pc + zlen bs) g n).
Proof.
  intros HS Hg Hc Hs Hn. destruct i as [x e|f args]; simpl in *.
  - destruct (gen_exp libdef g e) as [c|] eqn:E1; [|done]. simpl in Hg.
    destruct (address x g) as [a|] eqn:E2; [|done]. injection Hg as <-.
    eapply sim_bind; [eapply exp_in; side|]. intros v ev1 s1 (low & HA & Hl & Hf & Hv).
    destruct (vars_in_assign low g r x a v) as (r' & -> & Hv' & Ha); try done; [lia|].
    eapply sim_store with (bs := []); try side.
    { rewrite app_nil_r. by eapply code_at_right. }
    intros s2 H2. apply sim_val. exists (zset low (a / 4) v). split_and!; [|by rewrite zlen_zset|apply framed_zset; (done || lia)|done].
    rewrite zlen_app. change (zlen (op12 Js.OPC_ST (a / 4))) with 2. rewrite Z.add_assoc. by replace n with (n - 1 + 1) by lia.
  - destruct (gen_all (gen_exp libdef g) args) as [cs|] eqn:E1; [|done]. simpl in Hg.
    destruct (fun_def libdef f (zlen args)) as [[xid rt]|] eqn:E2; [|done]. simpl in Hg.
    destruct (gen_call xid (zlen args) rt) as [c|] eqn:E3; [|done]. injection Hg as <-.
    destruct HS as (low & HA & Hl & Hf & Hv).
    eapply sim_bind; [eapply args_run; try side; apply Forall_true, exp_runs_all|].
    intros vs ev1 s1 [Hz H1]. pose proof (need_all_len args). pose proof (zlen_nonneg args).
    eapply sim_bind; [eapply (sim_call f (zlen args) xid rt 0 c vs); try side; by rewrite Z.sub_0_r|].
    intros out ev2 s2 (v & _ & HA2). apply sim_val. exists low. split_and!; try done.
    simpl in HA2. rewrite zlen_app, Z.add_assoc. rewrite app_nil_r in HA2.
    by replace n with (zlen args + (n - zlen args) - 0) by lia.
Qed.

Lemma items_run l g bs r pc n ev s :
  St pc g n r ev s -> items libdef g l = Some bs -> code_at C pc bs -> separate g -> need_list need_item l <= n ->
  sim s (all (exec_item libdef) l r ev) (St (pc + zlen bs) g n).
Proof.
  revert bs r pc ev s. induction l as [|i l IH]; intros bs r pc ev s HS Hg Hc Hs Hn; simpl in Hg, Hn |- *.
  - injection Hg as <-. apply sim_val. by rewrite Z.add_0_r.
  - destruct (gen_item libdef g i) as [c|] eqn:E1; [|done]. simpl in Hg.
    change (foldr _ _ l) with (items libdef g l) in Hg.
    destruct (items libdef g l) as [cs|] eqn:E2; [|done]. injection Hg as <-.
    eapply sim_bind; [eapply item_runs; side|]. intros r1 ev1 s1 H1.
    rewrite zlen_app, Z.add_assoc. eapply IH; side.
Qed.

Lemma vars_in_new x c c' low r :
  ctx_ok c -> new_var x c = Some c' -> most c' <= 4 * Z.min D 4096 -> vars_in low (vars c) r -> vars_in low (vars c') (declare x r).
Proof.
  intros (_ & _ & Hu & _). unfold new_var. destruct (vars c) as [|f g] eqn:Ev; [done|]. intros Hn Hm Hv.
  apply Forall2_cons_inv_l in Hv as (rf & r' & Hf & Hv & ->). simpl. pose proof (Hf x) as Hfx.
  destruct (find_var x f) eqn:Ef.
  - injection Hn as <-. rewrite Ev. destruct (find_var x rf); [by constructor|done].
  - destruct (find_var x rf); [done|]. destruct (_ && _); [|done]. injection Hn as <-. simpl in *.
    constructor; [|done]. intros y. rewrite !find_var_cons. destruct (decide (x = y)); [|apply Hf].
    split; [lia|done].
Qed.

Section lists.
Context {A : Type}.
Variable gf : A -> ctx -> option (list Z * ctx).

Variable ex : A -> list frame -> ev (list frame).
Variable nd : A -> Z.
Definition runs (x : A) : Prop :=
  forall c bs c' r pc n ev s,
    St pc (vars c) n r ev s -> gf x c = Some (bs, c') -> code_at C pc bs -> ctx_ok c -> most c' <= 4 * Z.min D 4096 ->
    nd x <= n -> sim s (ex x r ev) (St (pc + zlen bs) (vars c') n).

Lemma each_runs l : Forall (keeps gf) l -> Forall runs l ->
  forall c bs c' r pc n ev s,
    St pc (vars c) n r ev s -> each gf l c = Some (bs, c') -> code_at C pc bs -> ctx_ok c -> most c' <= 4 * Z.min D 4096 ->
    need_list nd l <= n -> sim s (all ex l r ev) (St (pc + zlen bs) (vars c') n).
Proof.
  intros Hk Hr. revert Hk. induction Hr as [|x l Hx Hl IH]; intros Hk c bs c' r pc n ev s HS Hg Hc Hok Hm Hn; simpl in Hg, Hn |- *.
  - injection Hg as <- <-. apply sim_val. by rewrite Z.add_0_r.
  - apply Forall_cons in Hk as [Hkx Hk]. destruct (gf x c) as [[b1 c1]|] eqn:E1; [|done]. simpl in Hg.
    destruct (each gf l c1) as [[b2 c2]|] eqn:E2; [|done]. injection Hg as <- <-.
    pose proof (Hkx _ _ _ E1 Hok) as Hx1. destruct Hx1 as (Hok1 & Hm1 & _).
    destruct (each_extends gf l Hk _ _ _ E2 Hok1) as (_ & Hm2 & _).
    eapply sim_bind; [eapply Hx; side|]. intros r1 ev1 s1 H1.
    rewrite zlen_app, Z.add_assoc. eapply IH; side.
Qed.

Lemma block_runs l : Forall (keeps gf) l -> Forall runs l ->
  forall c bs c' r pc n ev s,
    St pc (vars c) n r ev s -> block gf l c = Some (bs, c') -> code_at C pc bs -> ctx_ok c -> most c' <= 4 * Z.min D 4096 ->
    need_list nd l <= n -> sim s (scoped (all ex l) r ev) (St (pc + zlen bs) (vars c') n).
Proof.
  intros Hk Hr c bs c' r pc n ev s HS Hg Hc Hok Hm Hn.
  destruct (block_extends gf l Hk _ _ _ Hg Hok) as (c1 & E & -> & (Hok1 & Hm1 & Hu1 & Ht) & _).
  unfold scoped. eapply sim_bind.
  { eapply each_runs; [done..| |exact E|done|by apply open_ok|done|done].
    destruct HS as (low & HA & Hl & Hf & Hv). exists low. split_and!; try done.
    constructor; [|done]. by intros x. }
  intros r1 ev1 s1 (low & HA & Hl & Hf & Hv). apply sim_val. exists low. split_and!; try done.
  simpl in *. rewrite <-Ht. destruct Hv; [constructor|done].
Qed.
End lists.

#[local] Arguments gen_item : simpl never.
Lemma decl_runs d : runs (gen_decl libdef) (exec_decl libdef) need_decl d.
Proof.
  intros c bs c' r pc n ev s HS Hg Hc Hok Hm Hn. pose proof (decl_keeps libdef d _ _ _ Hg Hok) as (Hok' & _).
  unfold gen_decl in Hg. destruct (new_var (fst d) c) as [c1|] eqn:E; [|done]. simpl in Hg.
  destruct HS as (low & HA & Hl & Hf & Hv). unfold exec_decl, need_decl in *. destruct d as [x [e|]]; simpl in *.
  - destruct (gen_item libdef (vars c1) (IAssign x e)) as [b1|] eqn:E1; [|done]. injection Hg as <- <-.
    apply (item_runs (IAssign x e) (vars c1)); [|done|done|by destruct Hok'|done].
    exists low. split_and!; try done. by apply (vars_in_new x c c1).
  - injection Hg as <- <-. apply sim_val. exists low. rewrite Z.add_0_r. split_and!; try done. by apply (vars_in_new x c c1).
Qed.

Lemma sim_st_jmp {A} (res : option ((Z + A) * Js.env)) Q d bs pc g n r e s :
  St pc g n r e s -> code_at C pc (op12 Js.OPC_JMP d ++ bs) -> -2048 <= d < 2048 ->
  (forall s, St (pc + 2 + d) g n r e s -> sim s res Q) -> sim s res Q.
Proof.
  intros (low & HA & Hl) Hc Hd K. eapply sim_jmp; [done..|]. intros s1 H1. apply K. by exists low.
Qed.

Lemma sim_jmp_last d bs pc g n res s :
  sim s res (St pc g n) -> code_at C pc (op12 Js.OPC_JMP d ++ bs) -> -2048 <= d < 2048 ->
  sim s res (St (pc + 2 + d) g n).
Proof.
  intros Hs Hc Hd. eapply sim_more; [done|]. intros r e s1 (low & (rest & -> & Hr) & Hl).
  eexists. split; [by apply go_jmp with bs|]. exists low. split; [by exists rest|done].
Qed.

Lemma sim_st_jeq {A} (res : option ((Z + A) * Js.env)) Q d bs pc g n r v e s :
  Sv pc g n r v e s -> code_at C pc (op12 Js.OPC_JEQ d ++ bs) -> -2048 <= d < 2048 ->
  (forall s, St (if v =? 0 then pc + 2 + d else pc + 2) g n r e s -> sim s res Q) -> sim s res Q.
Proof.
  intros (low & HA & Hl) Hc Hd K. eapply sim_jeq; [done..|]. intros s1 H1. apply K. exists low.
  split; [|done]. by replace n with (n - 1 + 1) by lia.
Qed.

Lemma code_at_len pc bs : code_at C pc bs -> 0 <= pc /\ pc + zlen bs <= 2048.
Proof.
  intros (pre & post & E & <-). rewrite E in HC. rewrite !zlen_app in HC.
  pose proof (zlen_nonneg pre). pose proof (zlen_nonneg post). lia.
Qed.

(** The parts of the code at an address, each at its own. *)
Ltac code_parts Hc := match type of Hc with
  | code_at _ _ (?a ++ ?b) =>
    let Hl := fresh "Hc" in pose proof (code_at_left _ _ _ _ Hc) as Hl;
    apply code_at_right in Hc; code_parts Hc
  | _ => idtac
  end.
#[local] Opaque op12.
Lemma code_at_nil pc bs : code_at C pc bs -> code_at C pc (bs ++ []).
Proof. by rewrite app_nil_r. Qed.
Lemma St_at pc pc' g n r e s : pc = pc' -> St pc g n r e s -> St pc' g n r e s.
Proof. by intros ->. Qed.

Section fuel.
Variable fuel : nat.
Hypothesis IH : forall s, runs (gen_stm libdef) (exec libdef fuel) need_stm s.

Lemma block_in b c bs c' r pc n ev st :
  St pc (vars c) n r ev st -> block (gen_stm libdef) b c = Some (bs, c') -> code_at C pc bs -> ctx_ok c ->
  most c' <= 4 * Z.min D 4096 -> need_list need_stm b <= n ->
  sim st (scoped (all (exec libdef fuel) b) r ev) (St (pc + zlen bs) (vars c) n).
Proof.
  intros HS Hg Hc Hok Hm Hn.
  destruct (block_extends _ b (Forall_true _ _ (stm_keeps libdef)) _ _ _ Hg Hok) as (c1 & _ & -> & _).
  apply (block_runs (gen_stm libdef) (exec libdef fuel) need_stm b
    (Forall_true _ _ (stm_keeps libdef)) (Forall_true _ _ IH) c bs (close_scope c c1)); done.
Qed.

(** After the condition of a statement. *)
Ltac layout Hc := let H := fresh "Hlen" in pose proof (code_at_len _ _ Hc) as H;
  code_parts Hc; rewrite ?zlen_app, ?op12_len in *.

Lemma if_runs e b : runs (gen_stm libdef) (exec libdef (S fuel)) need_stm (SIf e b).
Proof.
  intros c bs c' r pc n ev st HS Hg Hc Hok Hm Hn. simpl in Hg, Hn |- *.
  destruct (gen_exp libdef (vars c) e) as [ce|] eqn:Ee; [|done]. simpl in Hg.
  destruct (block _ b c) as [[cb c1]|] eqn:Eb; [|done]. injection Hg as <- <-.
  destruct (block_keeps libdef _ _ _ _ Eb Hok) as (Hv & _). rewrite Hv.
  pose proof (zlen_nonneg ce). pose proof (zlen_nonneg cb). layout Hc.
  eapply sim_bind; [eapply exp_in; side|]. intros v ev1 s1 HS1.
  eapply sim_st_jeq; [done|by apply code_at_nil|lia|]. intros s2 HS2.
  destruct (v =? 0).
  - apply sim_val. eapply St_at; [|done]. lia.
  - eapply sim_mono; [eapply block_in; side|]. intros r' ev2 s3. apply St_at. lia.
Qed.

Lemma if_else_runs e b1 b2 : runs (gen_stm libdef) (exec libdef (S fuel)) need_stm (SIfElse e b1 b2).
Proof.
  intros c bs c' r pc n ev st HS Hg Hc Hok Hm Hn. simpl in Hg, Hn |- *.
  destruct (gen_exp libdef (vars c) e) as [ce|] eqn:Ee; [|done]. simpl in Hg.
  destruct (block _ b1 c) as [[cb1 c1]|] eqn:Eb1; [|done]. simpl in Hg.
  destruct (block _ b2 c1) as [[cb2 c2]|] eqn:Eb2; [|done]. injection Hg as <- <-.
  destruct (block_keeps libdef _ _ _ _ Eb1 Hok) as (Hv1 & Hm1 & Hok1).
  destruct (block_keeps libdef _ _ _ _ Eb2 Hok1) as (Hv2 & Hm2 & _). rewrite Hv2, Hv1.
  pose proof (zlen_nonneg ce). pose proof (zlen_nonneg cb1). pose proof (zlen_nonneg cb2). layout Hc.
  eapply sim_bind; [eapply exp_in; side|]. intros v ev1 s1 HS1.
  eapply sim_st_jeq; [done|by apply code_at_nil|lia|]. intros s2 HS2.
  destruct (v =? 0).
  - rewrite <-Hv1 in HS2 |- *. apply (St_at _ (pc + zlen ce + 2 + zlen cb1 + 2)) in HS2; [|lia].
    eapply sim_mono; [eapply (block_in b2 c1); side|]. intros r' ev2 s3. apply St_at. lia.
  - eapply sim_mono; [eapply sim_jmp_last; [eapply (block_in b1 c); side|by apply code_at_nil|lia]|].
    intros r' ev2 s3. apply St_at. lia.
Qed.

Lemma while_runs e b : runs (gen_stm libdef) (exec libdef (S fuel)) need_stm (SWhile e b).
Proof.
  intros c bs c' r pc n ev st HS Hg Hc Hok Hm Hn. pose proof Hg as Hg0. pose proof Hc as Hc0. simpl in Hg, Hn |- *.
  destruct (gen_exp libdef (vars c) e) as [ce|] eqn:Ee; [|done]. simpl in Hg.
  destruct (block _ b c) as [[cb c1]|] eqn:Eb; [|done]. injection Hg as <- <-.
  destruct (block_keeps libdef _ _ _ _ Eb Hok) as (Hv & _).
  pose proof (zlen_nonneg ce). pose proof (zlen_nonneg cb). layout Hc.
  eapply sim_bind; [eapply exp_in; side|]. intros v ev1 s1 HS1.
  eapply sim_st_jeq; [done|by apply code_at_nil|lia|]. intros s2 HS2.
  destruct (v =? 0).
  - apply sim_val. rewrite Hv. eapply St_at; [|done]. lia.
  - eapply sim_bind; [eapply block_in; side|]. intros r1 ev2 s3 HS3.
    eapply sim_st_jmp; [done|by apply code_at_nil|lia|]. intros s4 HS4.
    eapply sim_mono; [eapply (IH (SWhile e b)); [|exact Hg0|exact Hc0|done..]|].
    + eapply St_at; [|done]. lia.
    + intros r' ev3 s5. apply St_at. rewrite !zlen_app, !op12_len. lia.
Qed.

Lemma for_runs i e a b : runs (gen_stm libdef) (exec libdef (S fuel)) need_stm (SFor i e a b).
Proof.
  intros c bs c' r pc n ev st HS Hg Hc Hok Hm Hn. assert (Hsep : separate (vars c)) by (by destruct Hok).
  cbn [gen_stm need_stm exec] in Hg, Hn |- *.
  destruct (items libdef (vars c) i) as [ci|] eqn:Ei; [|done]. simpl in Hg.
  destruct (gen_exp libdef (vars c) e) as [ce|] eqn:Ee; [|done]. simpl in Hg.
  destruct (items libdef (vars c) a) as [ca|] eqn:Ea; [|done]. simpl in Hg.
  destruct (block _ b c) as [[cb c1]|] eqn:Eb; [|done]. injection Hg as <- <-.
  destruct (block_keeps libdef _ _ _ _ Eb Hok) as (Hv & _).
  pose proof (code_at_right _ _ _ _ Hc) as Hloop.
  pose proof (zlen_nonneg ci). pose proof (zlen_nonneg ce). pose proof (zlen_nonneg ca). pose proof (zlen_nonneg cb).
  layout Hc.
  eapply sim_bind; [eapply (items_run i (vars c)); side|]. intros r1 ev1 s1 HS1.
  eapply sim_bind; [eapply exp_in; side|]. intros v ev2 s2 HS2.
  eapply sim_st_jeq; [done|by apply code_at_nil|lia|]. intros s3 HS3.
  destruct (v =? 0).
  { apply sim_val. rewrite Hv. eapply St_at; [|done]. lia. }
  eapply sim_st_jmp; [done|by apply code_at_nil|lia|]. intros s4 HS4.
  apply (St_at _ (pc + zlen ci + zlen ce + 2 + 2 + zlen ca + 2)) in HS4; [|lia].
  eapply sim_bind; [eapply block_in; side|].
  intros r2 ev3 s5 HS5.
  eapply sim_st_jmp; [done|by apply code_at_nil|lia|]. intros s6 HS6.
  apply (St_at _ (pc + zlen ci + zlen ce + 2 + 2)) in HS6; [|lia].
  eapply sim_bind; [eapply (items_run a (vars c)); side|].
  intros r3 ev4 s7 HS7.
  eapply sim_st_jmp; [done|by apply code_at_nil|lia|]. intros s8 HS8.
  eapply sim_mono; [eapply (IH (SFor [] e a b) _ _ _ _ _ n); [| |exact Hloop|done|done|pose proof (need_nonneg e); simpl; lia]|].
  - eapply St_at; [|done]. lia.
  - cbn [gen_stm]. change (items libdef (vars c) []) with (Some (@nil Z)). simpl. rewrite Ee. simpl.
    rewrite Ea. simpl. by rewrite Eb.
  - intros r' ev5 s9. apply St_at. rewrite !zlen_app, !op12_len. lia.
Qed.
End fuel.

Theorem stm_runs fuel s : runs (gen_stm libdef) (exec libdef fuel) need_stm s.
Proof.
  revert s. induction fuel as [|fuel IH]; intros s; [by intros c bs c' r pc n ev st|].
  destruct s; [..|by apply if_runs|by apply if_else_runs|by apply while_runs|by apply for_runs];
    intros c bs c' r pc n ev st HS Hg Hc Hok Hm Hn; simpl in Hg, Hn |- *.
  - parts Hg. eapply item_runs; try done. by destruct Hok.
  - eapply (each_runs (gen_decl libdef) (exec_decl libdef) need_decl (d :: ds)); try done;
      apply Forall_true; [apply decl_keeps|apply decl_runs].
  - parts Hg. eapply sim_bind; [eapply exp_in; side|].
    intros v ev1 s1 (low & HA & Hl & Hf & Hv). eapply sim_throw; [done..|]. by eapply code_at_right.
Qed.

Lemma top_runs fuel t : runs (gen_top libdef) (exec_top libdef fuel) need_top t.
Proof.
  destruct t as [s|b]; intros c bs c' r pc n ev st HS Hg Hc Hok Hm Hn; [by eapply stm_runs|].
  destruct (block_keeps libdef b c bs c' Hg Hok) as (-> & _). eapply block_in; try done. apply stm_runs.
Qed.
End run.

(** ** Programs *)

Theorem prog_runs `{Js.JsHost} (libdef : ext_libdef) p code sz data_sz stack mem fuel e x e' :
  host_ok libdef -> gen_prog libdef p = Some (code, sz) ->
  zlen code <= 2048 -> sz <= data_sz < 16384 -> data_sz mod 4 = 0 ->
  data_sz / 4 <= Js.stack_base data_sz stack < 32768 ->
  Js.stack_base data_sz stack + 1 + need_list need_top p <= zlen mem ->
  run libdef fuel p e = Some (x, e') ->
  exists n, forall k, (n <= k)%nat ->
    exists s, Js.microjs_exec code k (Js.microjs_vm_init data_sz stack mem e) = Some (x, s) /\ Js.v_env s = e'.
Proof.
  intros Hhost Hg Hcode Hsz Hmod HD Hmem Hrun. unfold gen_prog in Hg.
  destruct (each (gen_top libdef) p (mk_ctx [[]] 0 0)) as [[bs c]|] eqn:Eb; [|done]. injection Hg as <- <-.
  set (C := op12 Js.OPC_PUSHX (zlen bs + 4) ++ bs ++ [Js.OPC_POP; Js.OPC_ABT; Js.OPC_RET]) in *.
  change (zlen C <= 2048) in Hcode.
  assert (Hc : code_at C 0 C) by (exists [], []; by rewrite app_nil_r).
  destruct (each_extends (gen_top libdef) p (Forall_true _ _ (top_keeps libdef)) _ _ _ Eb init_ok) as ((_ & _ & Hu & _) & _).
  set (D := Js.stack_base data_sz stack) in *. assert (0 <= D < 32768) by lia.
  assert (zlen C = zlen bs + 5) as Hlen by (unfold C; rewrite !zlen_app; change (zlen [_; _; _]) with 3; rewrite op12_len; lia).
  pose proof (zlen_nonneg bs).
  assert (Hn : 0 <= need_list need_top p) by (clear; induction p; simpl; lia).
  pose proof Hc as Hp. unfold C at 2 in Hc. apply code_at_right in Hc as Hb. rewrite op12_len in Hb.
  pose proof (code_at_left _ _ _ _ Hb) as Hbs. apply code_at_right in Hb.
  set (h := zlen bs + 4). assert (Hret : code_at C h [Js.OPC_RET]).
  { apply (code_at_right _ _ [Js.OPC_POP; Js.OPC_ABT]) in Hb. by replace h with (0 + 2 + zlen bs + 2) by (unfold h; lia). }
  destruct (room (drop (Z.to_nat D) mem)) as (r & rest & Er & Hr); [rewrite zlen_drop; lia|].
  rewrite zlen_drop in Hr by lia.
  assert (Hlow : zlen (take (Z.to_nat D) mem) = D) by (apply zlen_take; lia).
  assert (Es : Js.microjs_vm_init data_sz stack mem e = at_ 0 (take (Z.to_nat D) mem) (r :: rest) D e).
  { unfold at_. by rewrite <-Er, take_drop, Hlow. }
  apply ends_exec. rewrite Es.
  eapply ends_after; [apply rtc_once; eapply (go_pushx C h D); [exact Hc|unfold h; lia|lia]|].
  rewrite Hlow. set (low := take (Z.to_nat D) mem ++ [h + D * 2 ^ 16]).
  assert (zlen low = D + 1) by (unfold low; rewrite zlen_app, Hlow; done).
  assert (Hh : 0 <= h < 4096) by (unfold h; lia).
  assert (Hsim : sim C (at_ (0 + 2) low rest (D + 1) e) (all (exec_top libdef fuel) p [[]] e)
    (St D h (0 + 2 + zlen bs) (vars c) (zlen rest))).
  { eapply (each_runs C D h) with (nd := need_top) (c := mk_ctx [[]] 0 0); try done.
    - apply Forall_true, (top_keeps libdef).
    - apply Forall_true. intros t. by apply top_runs.
    - exists low. split_and!; [by exists rest|done| |].
      + split; [lia|]. transitivity (zget low (zlen (take (Z.to_nat D) mem))); [by rewrite Hlow|apply zget_append].
      + constructor; [|constructor]. by intros y.
    - apply init_ok.
    - unfold D; lia.
    - lia. }
  unfold run in Hrun. destruct (all (exec_top libdef fuel) p [[]] e) as [[[y|rf] e1]|]; [|..|done].
  - injection Hrun as <- <-. exact Hsim.
  - injection Hrun as <- <-. destruct Hsim as (s1 & R & low1 & (rest1 & -> & Hr1) & Hl1 & _).
    eapply ends_after; [exact R|]. destruct (exists_last (l := low1)) as (low2 & v & ->).
    { intros ->. by change (zlen []) with 0 in Hl1; lia. }
    eexists _, _. split; [apply rtc_once; by eapply go_pop|].
    rewrite (step_misc C _ Js.OPC_ABT [Js.OPC_RET]); [|by eapply code_at_tail|done]. done.
Qed.
