(* ===== verification/JsTab.v ===== *)
(** * MicroJS: the symbol table of the compiler

    Room in the table, scopes opened and closed, and the table of a scope of the
    language: its objects are the variables, the innermost frame's behind the
    mark of the stack frame. *)

From S2P Require Import Prelude Js JsLl JsLex JsSym JsLang JsGen JsScope.
Open Scope Z_scope.
Import Ll Lex Sym Lang Gen.

Section tab.
Context `{JsConfig}.

(** Bytes free between the objects and the stack. *)
Definition free (t : symtab) : Z := t_sp t - t_bp t - 2.

(** Under an element pushed. *)
Lemma entry_size_pos e : 1 <= entry_size e.
Proof. unfold entry_size, lbl_size. destruct e, trace_enabled; lia. Qed.

Lemma t_sp_push e t : t_sp (set_stk (e :: t_stk t) t) = t_sp t - entry_size e.
Proof. unfold t_sp. simpl. lia. Qed.

Lemma free_push e t : free (set_stk (e :: t_stk t) t) = free t - entry_size e.
Proof. unfold free. rewrite t_sp_push. unfold t_bp. simpl. lia. Qed.

Definition opened (p : Z) (t : symtab) : symtab :=
  let t' := set_stk (Sf (t_fp t) (t_bp t) :: Addr p :: t_stk t) t in set_fp (t_sp t') t'.
(** [t] again, after a block that left the table [t']. *)
Definition closed (t t' : symtab) : symtab :=
  mk_tab (t_stack_sz t') (t_data_sz t') (t_objs t) (t_stk t) (t_fp t) (t_top t) (t_stale t).
(** What code leaves of a table. *)
Definition grows (t t' : symtab) : Prop :=
  t_stk t' = t_stk t /\ t_fp t' = t_fp t /\ t_top t' = t_top t /\ t_stale t' = t_stale t /\ exists new, t_objs t' = new ++ t_objs t.

Lemma objs_size_app l l' : objs_size (l ++ l') = objs_size l + objs_size l'.
Proof. induction l as [|o l IH]; simpl; [done|]. lia. Qed.

Lemma obj_len_pos nm : 7 <= obj_len nm.
Proof. unfold obj_len. pose proof (zlen_nonneg nm). lia. Qed.

Lemma objs_size_nonneg l : 0 <= objs_size l.
Proof. induction l as [|o l IH]; simpl; [done|]. pose proof (obj_len_pos (o_nm o)). lia. Qed.

Lemma objs_below_app new old : objs_below (objs_size old) (new ++ old) = old.
Proof.
  induction new as [|o new IH]; simpl.
  - destruct old as [|o old]; [done|]. simpl. by rewrite Z.leb_refl.
  - rewrite objs_size_app. pose proof (objs_size_nonneg new). pose proof (obj_len_pos (o_nm o)).
    by rewrite (proj2 (Z.leb_gt _ _)) by lia.
Qed.

Lemma objs_above_app new old : objs_above (objs_size old) (new ++ old) = rev new.
Proof.
  induction new as [|o new IH]; simpl.
  - destruct old as [|o old]; [done|]. simpl. by rewrite Z.leb_refl.
  - rewrite objs_size_app. pose proof (objs_size_nonneg new). pose proof (obj_len_pos (o_nm o)).
    rewrite (proj2 (Z.leb_gt _ _)) by lia. by rewrite IH.
Qed.

Lemma stk_size_nonneg l : 0 <= stk_size l.
Proof. induction l as [|e l IH]; simpl; [done|]. pose proof (entry_size_pos e). lia. Qed.

Lemma sf_pop_opened p t t' : t_sp t <= t_fp t -> grows (opened p t) t' -> t_stale t' = Some [] ->
  sym_sf_pop t' = Some (0, set_stk (Addr p :: t_stk t) (closed t t')).
Proof.
  intros Hf (Hs & Hfp & Htop & Hst & new & Ho) Hst'. change (t_stale (opened p t)) with (t_stale t) in Hst. unfold sym_sf_pop. rewrite Hfp, Htop, Hs. simpl.
  pose proof (stk_size_nonneg (t_stk t)).
  assert (Hsp : t_sp (set_stk (Sf (t_fp t) (t_bp t) :: Addr p :: t_stk t) t) = t_top t - (4 + (2 + stk_size (t_stk t)))) by done.
  rewrite Hsp. rewrite (proj2 (Z.leb_gt _ _)) by lia. rewrite Z.eqb_refl. rewrite Ho. simpl.
  unfold t_bp. rewrite objs_below_app. unfold set_objs, set_fp, set_stk, closed. simpl. by rewrite Htop, <-Hst, Hst'.
Qed.

Definition named (l : list sym_obj) : list (list Z * Z) := (fun o => (o_nm o, o_addr o)) <$> l.
(** The table holds the variables of a context. *)
Definition scope_ok (t : symtab) (c : ctx) : Prop :=
  exists f g new old prev,
    vars c = f :: g /\ t_objs t = new ++ old /\ named new = f /\ named old = concat g /\
    sym_sf_get t = Some (prev, objs_size old) /\ t_data_sz t = most c /\ t_sp t <= t_fp t <= t_top t.

Lemma sf_get_push e t : t_sp t <= t_fp t -> sym_sf_get (set_stk (e :: t_stk t) t) = sym_sf_get t.
Proof.
  intros Hf. unfold sym_sf_get. simpl. destruct (t_top t <=? t_fp t); [done|].
  unfold t_sp in Hf. pose proof (entry_size_pos e). by rewrite (proj2 (Z.eqb_neq _ _)) by lia.
Qed.

Lemma scope_ok_push e t c : scope_ok t c -> scope_ok (set_stk (e :: t_stk t) t) c.
Proof.
  intros (f & g & new & old & prev & Hv & Ho & Hf & Hg & Hs & Hd & Hfp).
  exists f, g, new, old, prev. rewrite sf_get_push, t_sp_push by lia. simpl. pose proof (entry_size_pos e).
  split_and!; try done; lia.
Qed.

Lemma scope_ok_stack_sz n t c : scope_ok t c -> scope_ok (set_stack_sz n t) c.
Proof. done. Qed.

Lemma scope_ok_fp t c : scope_ok t c -> t_sp t <= t_fp t.
Proof. intros (f & g & new & old & prev & H'). tauto. Qed.

Lemma find_named nm l : find_var nm (named l) = o_addr <$> find (fun o => bool_decide (o_nm o = nm)) l.
Proof.
  induction l as [|o l IH]; [done|]. unfold named. simpl. rewrite find_var_cons. destruct (decide (o_nm o = nm)).
  - by rewrite bool_decide_eq_true_2.
  - by rewrite bool_decide_eq_false_2.
Qed.

Lemma named_app l l' : named (l ++ l') = named l ++ named l'.
Proof. apply fmap_app. Qed.

Lemma lookup_scope t c nm a : scope_ok t c -> address nm (vars c) = Some a ->
  exists o, sym_obj_lookup nm t = Some o /\ o_addr o = a.
Proof.
  intros (f & g & new & old & prev & Hv & Ho & Hf & Hg & _) Ha. unfold address in Ha. rewrite Hv in Ha. simpl in Ha.
  rewrite <-Hf, <-Hg, <-named_app, <-Ho, find_named in Ha. unfold sym_obj_lookup.
  destruct (find _ (t_objs t)) as [o|]; [|done]. injection Ha as <-. by exists o.
Qed.

Lemma scope_lookup t f new old prev nm :
  t_objs t = new ++ old -> t_stale t = Some [] -> named new = f -> sym_sf_get t = Some (prev, objs_size old) ->
  exists o, sym_obj_scope_lookup nm t = Some o /\ (o = None <-> find_var nm f = None).
Proof.
  intros Ho Hst Hf Hs. unfold sym_obj_scope_lookup. rewrite Hs. simpl. rewrite Ho, objs_above_app, Hst. simpl.
  exists (find (fun o => bool_decide (o_nm o = nm)) (rev new)). split; [by destruct (find _ _)|]. rewrite <-Hf, find_named.
  assert (Hrev : find (fun o => bool_decide (o_nm o = nm)) (rev new) = None <->
    find (fun o => bool_decide (o_nm o = nm)) new = None).
  { split; intros Hn.
    - destruct (find _ new) eqn:E; [|done]. apply find_some in E as [Hin E].
      apply in_rev in Hin. by rewrite (find_none _ _ Hn _ Hin) in E.
    - destruct (find _ (rev new)) eqn:E; [|done]. apply find_some in E as [Hin E].
      apply in_rev in Hin. by rewrite (find_none _ _ Hn _ Hin) in E. }
  destruct (find _ new); simpl; rewrite Hrev; split; done.
Qed.

Lemma scope_ok_open p t c : scope_ok t c -> scope_ok (opened p t) (open_scope c).
Proof.
  intros (f & g & new & old & prev & Hv & Ho & Hf & Hg & Hs & Hd & Hfp).
  exists [], (vars c), [], (t_objs t), (t_fp t). unfold opened, t_sp in *. simpl. split_and!; try done; try lia.
  - by rewrite Ho, named_app, Hf, Hg, Hv.
  - unfold sym_sf_get. simpl. unfold t_sp. simpl. pose proof (stk_size_nonneg (t_stk t)).
    rewrite (proj2 (Z.leb_gt _ _)) by lia. by rewrite Z.eqb_refl.
Qed.

Lemma scope_ok_close p t t' c c' :
  scope_ok t c -> grows (opened p t) t' -> scope_ok t' c' -> scope_ok (closed t t') (close_scope c c').
Proof.
  intros (f & g & new & old & prev & Hv & Ho & Hf & Hg & Hs & Hd & Hfp) _
    (f' & g' & new' & old' & prev' & Hv' & Ho' & Hf' & Hg' & Hs' & Hd' & Hfp').
  by exists f, g, new, old, prev.
Qed.

Lemma grows_refl t : grows t t.
Proof. split_and!; try done. by exists []. Qed.

Lemma grows_trans t1 t2 t3 : grows t1 t2 -> grows t2 t3 -> grows t1 t3.
Proof.
  intros (? & ? & ? & ? & n1 & E1) (? & ? & ? & ? & n2 & E2). split_and!; try congruence.
  exists (n2 ++ n1). by rewrite E2, E1, app_assoc.
Qed.
End tab.
