(* ===== verification/JsAct.v ===== *)
(** * MicroJS: what the compiler's actions do

    The compiler's state as the code written so far, the symbol table, the place
    of the last instruction, the marks of stack and data memory, the last token.
    A rule for each primitive, and for each action the grammar's expressions and
    statements use. *)

From S2P Require Import Prelude Js JsLl JsLex JsSym JsSdt JsLang JsGen JsVm JsScope JsTab.
Open Scope Z_scope.
Import Ll Lex Sym Sdt Lang Gen.

Section act.
Context `{JsConfig}.
Variable libdef : ext_libdef.
(** The sizes of the code buffer and of the parser's stack. *)
Variables N cap : Z.
Hypothesis HN : 0 <= N < 65536.

Record ast := mk_ast { a_cs : list Z; a_tab : symtab; a_spc : Z; a_pos : Z; a_dp : Z; a_tok : token }.

Record rep (d : microjs_sdt) (a : ast) (ls : list Z) : Prop := {
  r_ll : d_ll d = ls;
  r_tok : d_tok d = a_tok a;
  r_tab : d_tab d = a_tab a;
  r_spc : d_spc d = a_spc a;
  r_pos : d_stack_pos d = a_pos a;
  r_dp : d_data_pos d = a_dp a;
  r_pc : d_pc d = zlen (a_cs a);
  r_code : exists j, d_code d = a_cs a ++ j /\ zlen (a_cs a) + zlen j = N;
  r_cdsz : d_cdsz d = N;
  r_cap : d_cap d = cap;
  r_stale : t_stale (a_tab a) = Some [];
}.

Definition add (bs : list Z) (a : ast) : ast := mk_ast (a_cs a ++ bs) (a_tab a) (a_spc a) (a_pos a) (a_dp a) (a_tok a).
Definition set_cs (cs : list Z) (a : ast) : ast := mk_ast cs (a_tab a) (a_spc a) (a_pos a) (a_dp a) (a_tok a).
Definition at_spc (p : Z) (a : ast) : ast := mk_ast (a_cs a) (a_tab a) p (a_pos a) (a_dp a) (a_tok a).
Definition at_pos (p : Z) (a : ast) : ast := mk_ast (a_cs a) (a_tab a) (a_spc a) p (a_dp a) (a_tok a).
Definition at_tab (t : symtab) (a : ast) : ast := mk_ast (a_cs a) t (a_spc a) (a_pos a) (a_dp a) (a_tok a).
Definition at_dp (p : Z) (a : ast) : ast := mk_ast (a_cs a) (a_tab a) (a_spc a) (a_pos a) p (a_tok a).
Definition at_tok (t : token) (a : ast) : ast := mk_ast (a_cs a) (a_tab a) (a_spc a) (a_pos a) (a_dp a) t.

(** [f] ends, without a negative result, in a state that [Q] holds of. *)
Definition does {A} (f : M microjs_sdt A) (a : ast) (Q : A -> ast -> Prop) : Prop :=
  forall d ls, rep d a ls -> wp f (fun r d => exists a, rep d a ls /\ Q r a) d.

Lemma does_ret {A} (x : A) a (Q : A -> ast -> Prop) : Q x a -> does (ret x) a Q.
Proof. intros HQ d ls Hr. apply wp_ret. by exists a. Qed.
Lemma does_bind {A B} (f : M microjs_sdt A) (k : A -> M microjs_sdt B) a Q :
  does f a (fun x a => does (k x) a Q) -> does (bind f k) a Q.
Proof.
  intros Hf d ls Hr. apply wp_bind. eapply wp_mono; [by apply Hf|]. intros x d' (a' & Hr' & Hk). by apply Hk.
Qed.
Lemma does_mono {A} (f : M microjs_sdt A) a (P Q : A -> ast -> Prop) :
  does f a P -> (forall x a, P x a -> Q x a) -> does f a Q.
Proof.
  intros Hf HPQ d ls Hr. eapply wp_mono; [by apply Hf|]. intros x d' (a' & Hr' & HP). exists a'. auto.
Qed.

Lemma does_tok a (Q : token -> ast -> Prop) : Q (a_tok a) a -> does (get ctok) a Q.
Proof. intros HQ d ls Hr. apply wp_get. exists a. split; [done|]. simpl. by rewrite (r_tok _ _ _ Hr). Qed.
Lemma does_tab a (Q : symtab -> ast -> Prop) : Q (a_tab a) a -> does (get tab) a Q.
Proof. intros HQ d ls Hr. apply wp_get. exists a. split; [done|]. simpl. by rewrite (r_tab _ _ _ Hr). Qed.
Lemma does_pc a (Q : Z -> ast -> Prop) : Q (zlen (a_cs a)) a -> does (get cpc) a Q.
Proof. intros HQ d ls Hr. apply wp_get. exists a. split; [done|]. simpl. by rewrite (r_pc _ _ _ Hr). Qed.
Lemma does_spc a (Q : Z -> ast -> Prop) : Q (a_spc a) a -> does (get spc) a Q.
Proof. intros HQ d ls Hr. apply wp_get. exists a. split; [done|]. simpl. by rewrite (r_spc _ _ _ Hr). Qed.
Lemma does_pos a (Q : Z -> ast -> Prop) : Q (a_pos a) a -> does (get stack_pos) a Q.
Proof. intros HQ d ls Hr. apply wp_get. exists a. split; [done|]. simpl. by rewrite (r_pos _ _ _ Hr). Qed.
Lemma does_dp a (Q : Z -> ast -> Prop) : Q (a_dp a) a -> does (get dpos) a Q.
Proof. intros HQ d ls Hr. apply wp_get. exists a. split; [done|]. simpl. by rewrite (r_dp _ _ _ Hr). Qed.

(** Nothing is behind the objects of the table. *)
Lemma does_stale {A} (f : M microjs_sdt A) a (Q : A -> ast -> Prop) :
  (t_stale (a_tab a) = Some [] -> does f a Q) -> does f a Q.
Proof. intros Hf d ls Hr. apply Hf; [|done]. apply (r_stale _ _ _ Hr). Qed.
Lemma does_put_tab a t (Q : unit -> ast -> Prop) :
  (t_stale (a_tab a) = Some [] -> t_stale t = Some []) -> Q tt (at_tab t a) -> does (put tab t) a Q.
Proof. intros Hs HQ d ls []. apply wp_put. exists (at_tab t a). split; [split; auto|done]. Qed.
Lemma does_put_spc a p (Q : unit -> ast -> Prop) : Q tt (at_spc p a) -> does (put spc p) a Q.
Proof. intros HQ d ls []. apply wp_put. exists (at_spc p a). split; [by split|done]. Qed.
Lemma does_put_pos a p (Q : unit -> ast -> Prop) : Q tt (at_pos p a) -> does (put stack_pos p) a Q.
Proof. intros HQ d ls []. apply wp_put. exists (at_pos p a). split; [by split|done]. Qed.
Lemma does_put_dp a p (Q : unit -> ast -> Prop) : Q tt (at_dp p a) -> does (put dpos p) a Q.
Proof. intros HQ d ls []. apply wp_put. exists (at_dp p a). split; [by split|done]. Qed.
Lemma does_when (b : bool) f a (Q : unit -> ast -> Prop) :
  (b = true -> does f a Q) -> (b = false -> Q tt a) -> does (when b f) a Q.
Proof. destruct b; intros H1 H2; [by apply H1|by apply does_ret, H2]. Qed.

(** ** Code *)

Lemma zget_app_l l l' i : i < zlen l -> zget (l ++ l') i = zget l i.
Proof.
  intros Hi. unfold zget. destruct (Z.ltb_spec i 0); [done|]. rewrite lookup_app_l; [done|]. unfold zlen in Hi. lia.
Qed.
Lemma zset_app_l l l' i v : 0 <= i < zlen l -> zset (l ++ l') i v = zset l i v ++ l'.
Proof. intros Hi. unfold zset. rewrite insert_app_l; [done|]. unfold zlen in Hi. lia. Qed.

Lemma does_emit b a (Q : unit -> ast -> Prop) :
  zlen (a_cs a) < N -> Q tt (add [u8 b] a) -> does (emit b) a Q.
Proof.
  intros Hl HQ d ls [? ? ? ? ? ? Hpc (j & Hj & Hz) ? ? ?]. destruct j as [|x j].
  { change (zlen []) with 0 in Hz. lia. }
  rewrite zlen_cons in Hz. pose proof (zlen_nonneg (a_cs a)).
  unfold emit. apply wp_bind, wp_get. simpl. rewrite Hpc. apply wp_bind, wp_arr_wr.
  { simpl. rewrite Hj, zlen_app, zlen_cons. pose proof (zlen_nonneg j). lia. }
  apply wp_put. exists (add [u8 b] a). split; [|done]. split; try done; simpl.
  - rewrite zlen_app, zlen_single. apply u16_small. lia.
  - exists j. rewrite Hj, zset_append. rewrite zlen_app, zlen_single. split; [done|lia].
Qed.

(** The byte skipped keeps what the buffer had. *)
Lemma does_reserve opc a (Q : unit -> ast -> Prop) :
  zlen (a_cs a) + 2 <= N -> (forall j, Q tt (add [opc; j] a)) -> does (reserve opc) a Q.
Proof.
  intros Hl HQ d ls [? ? ? ? ? ? Hpc (j & Hj & Hz) ? ? ?]. destruct j as [|x [|y j]]; rewrite ?zlen_cons in Hz.
  { change (zlen []) with 0 in Hz. lia. }
  { change (zlen []) with 0 in Hz. lia. }
  pose proof (zlen_nonneg (a_cs a)).
  unfold reserve. apply wp_bind, wp_get. simpl. rewrite Hpc. apply wp_bind, wp_arr_wr.
  { simpl. rewrite Hj, zlen_app, !zlen_cons. pose proof (zlen_nonneg j). lia. }
  apply wp_put. exists (add [opc; y] a). split; [|done]. split; try done; simpl.
  - rewrite zlen_app. apply u16_small. change (zlen [opc; y]) with 2. lia.
  - exists j. rewrite Hj, zset_append, <-!app_assoc. rewrite zlen_app. change (zlen [opc; y]) with 2. split; [done|lia].
Qed.

Lemma does_fix pre opc j mid offs p a (Q : unit -> ast -> Prop) :
  a_cs a = pre ++ [opc; j] ++ mid -> p = zlen pre -> 0 <= opc <= 0xf0 ->
  Q tt (set_cs (pre ++ op12 opc offs ++ mid) a) -> does (fix_at p offs) a Q.
Proof.
  intros Hcs -> Ho HQ d ls [? ? ? ? ? ? Hpc (k & Hk & Hz) ? ? ?]. rewrite Hcs in *.
  pose proof (zlen_nonneg pre). pose proof (zlen_nonneg mid). pose proof (zlen_nonneg k).
  unfold fix_at. apply wp_bind, wp_arr_rd.
  { simpl. rewrite Hk, !zlen_app. change (zlen [opc; j]) with 2. lia. }
  apply wp_bind, wp_arr_wr.
  { simpl. rewrite Hk, !zlen_app. change (zlen [opc; j]) with 2. lia. }
  apply wp_arr_wr.
  { simpl. rewrite zlen_zset, Hk, !zlen_app. change (zlen [opc; j]) with 2. lia. }
  exists (set_cs (pre ++ op12 opc offs ++ mid) a). split; [|done]. split; try done; simpl.
  - rewrite Hpc, !zlen_app. change (zlen [opc; j]) with 2. rewrite !zlen_cons. lia.
  - exists k. split; [|rewrite !zlen_app in *; change (zlen [opc; j]) with 2 in Hz; rewrite !zlen_cons in *; lia].
    assert (E : zget (d_code d) (zlen pre) = opc).
    { rewrite Hk, <-!app_assoc. apply zget_append. }
    rewrite E, Hk. rewrite <-!app_assoc. simpl. rewrite zset_append, <-app_assoc. simpl.
    replace (pre ++ u8 (opc + Z.land offs 15) :: j :: mid ++ k)
      with ((pre ++ [u8 (opc + Z.land offs 15)]) ++ j :: (mid ++ k)) by by rewrite <-app_assoc.
    replace (zlen pre + 1) with (zlen (pre ++ [u8 (opc + Z.land offs 15)])) by by rewrite zlen_app.
    rewrite zset_append, <-!app_assoc. simpl. rewrite u8_small; [done|].
    pose proof (nibble offs). lia.
Qed.

Lemma add_add bs bs' a : add bs' (add bs a) = add (bs ++ bs') a.
Proof. unfold add. simpl. by rewrite <-app_assoc. Qed.

Lemma does_save_spc a (Q : unit -> ast -> Prop) : Q tt (at_spc (zlen (a_cs a)) a) -> does save_spc a Q.
Proof. intros HQ. by apply does_bind, does_pc, does_put_spc. Qed.

Lemma does_emit12 opc x a (Q : unit -> ast -> Prop) :
  0 <= opc <= 0xf0 -> zlen (a_cs a) + 2 <= N -> Q tt (add (op12 opc x) a) -> does (emit12 opc x) a Q.
Proof.
  intros Ho Hl HQ. apply does_bind, does_emit; [lia|]. apply does_emit; [simpl; rewrite zlen_app, zlen_single; lia|].
  rewrite add_add. pose proof (nibble x). by rewrite u8_small by lia.
Qed.

Lemma does_ext_call xid n a (Q : unit -> ast -> Prop) :
  0 <= xid < 256 -> 0 <= n < 256 -> zlen (a_cs a) + 3 <= N ->
  Q tt (add [Js.OPC_EXT; xid; n] a) -> does (ext_call xid n) a Q.
Proof.
  intros Hx Hn Hl HQ. apply does_bind, does_emit; [lia|].
  apply does_bind, does_emit; [simpl; rewrite zlen_app, zlen_single; lia|].
  apply does_emit; [simpl; rewrite !zlen_app, !zlen_single; lia|].
  rewrite !add_add. by rewrite (u8_small xid), (u8_small n) by lia.
Qed.

Ltac emits := repeat lazymatch goal with
  | |- does (emit _) _ _ => apply does_emit; [simpl; rewrite ?zlen_app, ?zlen_single; lia|]
  | |- does (bind _ _) _ _ => apply does_bind
  end.

Lemma does_encode_int x a (Q : Z -> ast -> Prop) :
  zlen (a_cs a) + 5 <= N -> Q 0 (add (int_bytes x) (at_spc (zlen (a_cs a)) a)) -> does (encode_int x) a Q.
Proof.
  intros Hl HQ. apply does_bind, does_save_spc, does_bind. unfold int_bytes in HQ.
  destruct ((-8 <=? x) && (x <? 8)); [|destruct ((-128 <=? x) && (x <? 128));
    [|destruct ((-32768 <=? x) && (x <? 32768))]]; emits; rewrite ?add_add; apply does_ret; try done.
  pose proof (nibble x). rewrite u8_small; [done|]. unfold Js.OPC_I4. lia.
Qed.

Lemma does_rd p a (Q : Z -> ast -> Prop) :
  0 <= p < zlen (a_cs a) -> Q (zget (a_cs a) p) a -> does (arr_rd code p) a Q.
Proof.
  intros Hp HQ d ls Hr. pose proof Hr as [_ _ _ _ _ _ _ (j & Hj & Hz) _ _]. apply wp_arr_rd.
  - simpl. rewrite Hj, zlen_app. pose proof (zlen_nonneg j). lia.
  - exists a. split; [done|]. simpl. by rewrite Hj, zget_app_l by lia.
Qed.

(** ** The last instruction

    Either it pushes a constant or it does not begin like one that does. *)
Definition not_const (b : Z) : Prop :=
  Z.land b 0xf0 <> Js.OPC_I4 /\ b <> Js.OPC_I8 /\ b <> Js.OPC_I16 /\ b <> Js.OPC_I32.
Definition last_ins (ins : list Z) (k : option Z) : Prop :=
  match k with
  | Some v => ins = int_bytes v /\ - 2 ^ 31 <= v < 2 ^ 31
  | None => exists b l, ins = b :: l /\ not_const b
  end.

Lemma zget_mid pre l i : 0 <= i -> zget (pre ++ l) (zlen pre + i) = zget l i.
Proof.
  intros Hi. unfold zget. pose proof (zlen_nonneg pre). destruct (Z.ltb_spec (zlen pre + i) 0); [lia|].
  destruct (Z.ltb_spec i 0); [lia|]. rewrite lookup_app_r by (unfold zlen; lia). do 2 f_equal. unfold zlen. lia.
Qed.

Lemma low_nibble n : 0 <= n < 16 ->
  Z.land (Js.OPC_I4 + n) 0xf0 = Js.OPC_I4 /\ Z.land (Js.OPC_I4 + n) 0xf = n.
Proof. intros. destruct n as [|p|]; [done| |lia]. do 4 (try destruct p as [p|p|]); (done || lia). Qed.

Lemma does_is_constant pre ins k a (Q : option Z -> ast -> Prop) :
  last_ins ins k -> a_cs a = pre ++ ins -> a_spc a = zlen pre -> Q k a -> does is_constant a Q.
Proof.
  intros Hk Hcs Hs HQ. apply does_bind, does_spc. rewrite Hs.
  pose proof (zlen_nonneg pre).
  assert (Hrd : forall i Q', 0 <= i < zlen ins -> Q' (zget ins i) a -> does (arr_rd code (zlen pre + i)) a Q').
  { intros i Q' Hi HQ'. apply does_rd; rewrite Hcs; [rewrite zlen_app; lia|by rewrite zget_mid by lia]. }
  apply does_bind. replace (zlen pre) with (zlen pre + 0) at 1 by lia.
  destruct k as [v|]; simpl in Hk.
  - destruct Hk as [-> Hv]. unfold int_bytes in *.
    destruct ((-8 <=? v) && (v <? 8)) eqn:E4; [|destruct ((-128 <=? v) && (v <? 128)) eqn:E8;
      [|destruct ((-32768 <=? v) && (v <? 32768)) eqn:E16]]; (apply Hrd; [done|]);
      change (zget (?b :: _) 0) with b.
    + destruct (low_nibble (Z.land v 15) (nibble v)) as [-> ->]. apply does_ret. by rewrite imm4 by lia.
    + simpl. apply does_bind, Hrd; [done|]. apply does_ret. change (zget _ 1) with (u8 v). by rewrite imm8 by lia.
    + simpl. apply does_bind, Hrd; [done|]. apply does_bind, Hrd; [done|]. apply does_ret.
      change (zget _ 1) with (u8 v). change (zget _ 2) with (u8 (Z.shiftr v 8)). by rewrite imm16 by lia.
    + simpl. do 4 (apply does_bind, Hrd; [done|]). apply does_ret.
      change (zget _ 1) with (u8 v). change (zget _ 2) with (u8 (Z.shiftr v 8)).
      change (zget _ 3) with (u8 (Z.shiftr v 16)). change (zget _ 4) with (u8 (Z.shiftr v 24)). by rewrite imm32 by lia.
  - destruct Hk as (b & l & -> & H4 & H8 & H16 & H32). apply Hrd; [rewrite zlen_cons; pose proof (zlen_nonneg l); lia|].
    change (zget (b :: l) 0) with b.
    rewrite (proj2 (Z.eqb_neq _ _) H4), (proj2 (Z.eqb_neq _ _) H8), (proj2 (Z.eqb_neq _ _) H16), (proj2 (Z.eqb_neq _ _) H32).
    by apply does_ret.
Qed.

Lemma does_rollback pre ins a (Q : unit -> ast -> Prop) :
  a_cs a = pre ++ ins -> a_spc a = zlen pre -> Q tt (set_cs pre a) -> does rollback a Q.
Proof.
  intros Hcs Hs HQ. apply does_bind, does_spc. rewrite Hs. intros d ls [? ? ? ? ? ? ? (j & Hj & Hz) ? ? ?].
  apply wp_put. exists (set_cs pre a). split; [|done]. split; try done. exists (ins ++ j). simpl.
  rewrite Hj, Hcs, <-app_assoc in *. rewrite !zlen_app in *. split; [done|lia].
Qed.

(** ** The marks of the target's stack *)

Lemma does_stack_push a (Q : Z -> ast -> Prop) :
  0 <= a_pos a < 65532 -> (forall n, Q 0 (at_pos (a_pos a + 4) (at_tab (set_stack_sz n (a_tab a)) a))) ->
  does tgt_stack_push a Q.
Proof.
  intros Hp HQ. unfold tgt_stack_push. apply does_bind, does_pos, does_bind, does_put_pos.
  rewrite u16_small by lia. apply does_bind, does_pos, does_bind, does_tab, does_bind. simpl.
  apply does_when; intros _.
  - apply does_put_tab; [done|]. apply does_ret, HQ.
  - apply does_ret. specialize (HQ (t_stack_sz (a_tab a))). by destruct a as [? [] ? ? ? ?].
Qed.
Lemma does_stack_pop a (Q : Z -> ast -> Prop) :
  4 <= a_pos a < 65536 -> Q 0 (at_pos (a_pos a - 4) a) -> does tgt_stack_pop a Q.
Proof.
  intros Hp HQ. apply does_bind, does_pos. rewrite (proj2 (Z.eqb_neq _ _)) by lia.
  apply does_bind, does_put_pos. rewrite u16_small by lia. by apply does_ret.
Qed.
Lemma does_stack_adjust n a (Q : Z -> ast -> Prop) :
  0 <= a_pos a + n * 4 < 65536 -> Q 0 (at_pos (a_pos a + n * 4) a) -> does (tgt_stack_adjust n) a Q.
Proof.
  intros Hp HQ. apply does_bind, does_pos. cbv zeta. rewrite (proj2 (Z.ltb_ge _ _)) by lia.
  apply does_bind, does_put_pos. rewrite u16_small by lia. by apply does_ret.
Qed.
Lemma does_bail f k a (Q : Z -> ast -> Prop) :
  does f a (fun r a => 0 <= r /\ does k a Q) -> does (bail f k) a Q.
Proof.
  intros Hf. apply does_bind. eapply does_mono; [done|]. intros r a' [Hr Hk].
  by rewrite (proj2 (Z.ltb_ge _ _)) by lia.
Qed.

(** ** The compiler's stack *)

Lemma does_sym f a r t (Q : Z -> ast -> Prop) :
  f (a_tab a) = (r, t) -> (t_stale (a_tab a) = Some [] -> t_stale t = Some []) -> Q r (at_tab t a) -> does (sym f) a Q.
Proof. intros E Hs HQ. apply does_bind, does_tab. rewrite E. apply does_bind, does_put_tab; [done|]. by apply does_ret. Qed.
Lemma does_symo {A} (f : symtab -> option (A * symtab)) a x t (Q : A -> ast -> Prop) :
  f (a_tab a) = Some (x, t) -> (t_stale (a_tab a) = Some [] -> t_stale t = Some []) -> Q x (at_tab t a) -> does (symo f) a Q.
Proof.
  intros E Hs HQ d ls Hr. unfold wp, symo. rewrite (r_tab _ _ _ Hr), E. exists (at_tab t a). split; [|done].
  destruct Hr. split; auto.
Qed.
Lemma does_push_sym e a (Q : Z -> ast -> Prop) :
  entry_size e <= free (a_tab a) -> Q 0 (at_tab (set_stk (e :: t_stk (a_tab a)) (a_tab a)) a) ->
  does (push_sym e) a Q.
Proof.
  intros Hf HQ. apply does_stale; intros Hs. eapply does_sym; [| |exact HQ]; [|done].
  unfold sym_push, overwrite, free in *. by rewrite Hs, (proj2 (Z.ltb_ge _ _)) by lia.
Qed.
Lemma does_popped {A} (f : entry -> option A) k a e l x (Q : Z -> ast -> Prop) :
  t_stk (a_tab a) = e :: l -> t_sp (a_tab a) < t_fp (a_tab a) -> f e = Some x ->
  does (k x) (at_tab (set_stk l (a_tab a)) a) Q -> does (popped f k) a Q.
Proof.
  intros Hs Hf Hx HQ. apply does_bind. eapply does_symo; [| |].
  { unfold sym_pop. rewrite (proj2 (Z.leb_gt _ _)) by lia. by rewrite Hs. }
  { done. }
  simpl. by rewrite Hx.
Qed.

(** What is below an element that was pushed: pops undo pushes. *)
Lemma does_pop_top {A} (f : entry -> option A) k a t e x (Q : Z -> ast -> Prop) :
  a_tab a = set_stk (e :: t_stk t) t -> t_sp t <= t_fp t -> f e = Some x ->
  does (k x) (at_tab t a) Q -> does (popped f k) a Q.
Proof.
  intros Ht Hf Hx HQ. eapply does_popped; rewrite ?Ht; [done| |done|].
  - rewrite t_sp_push. simpl. pose proof (entry_size_pos e). lia.
  - by destruct t.
Qed.

(** ** Actions *)

(** Steps of a computation in a known state. *)
Ltac stepc := lazymatch goal with
  | |- does (bind _ _) _ _ => apply does_bind
  | |- does (ret _) _ _ => apply does_ret
  | |- does save_spc _ _ => apply does_save_spc
  | |- does (get ctok) _ _ => apply does_tok
  | |- does (get tab) _ _ => apply does_tab
  | |- does (get cpc) _ _ => apply does_pc
  | |- does (get dpos) _ _ => apply does_dp
  | |- does (put tab _) _ _ => apply does_put_tab; [done|]
  | |- does (put dpos _) _ _ => apply does_put_dp
  end.
Ltac stepsc := simpl; repeat (stepc; simpl).

Lemma does_push_tmp a (Q : Z -> ast -> Prop) :
  8 <= free (a_tab a) -> Q 0 (at_tab (set_stk (Tmp (t_s (a_tok a)) :: t_stk (a_tab a)) (a_tab a)) a) ->
  does op_push_tmp a Q.
Proof. intros Hf HQ. unfold op_push_tmp. stepsc. by apply does_push_sym. Qed.

Lemma does_pop_tmp a t nm (Q : Z -> ast -> Prop) :
  a_tab a = set_stk (Tmp nm :: t_stk t) t -> t_sp t <= t_fp t -> Q 0 (at_tab t a) -> does op_pop_tmp a Q.
Proof. intros Ht Hf HQ. eapply does_pop_top; [done..|]. by apply does_ret. Qed.

(** A word's address in an instruction. *)
Lemma word_addr a : 0 <= a < 16384 -> Z.land (Z.shiftr a 2) 0xfff = a / 4.
Proof.
  intros Ha. change 0xfff with (2 ^ 12 - 1). rewrite land_low, Z.shiftr_div_pow2 by lia.
  change (2 ^ 2) with 4. apply Z.mod_small. change (2 ^ 12) with 4096. lia.
Qed.

Lemma does_var_eval a t nm o (Q : Z -> ast -> Prop) :
  a_tab a = set_stk (Tmp nm :: t_stk t) t -> t_sp t <= t_fp t -> sym_obj_lookup nm t = Some o ->
  0 <= o_addr o < 16384 -> zlen (a_cs a) + 2 <= N -> 0 <= a_pos a < 65532 ->
  (forall n, Q 0 (at_pos (a_pos a + 4) (add (op12 Js.OPC_LD (o_addr o / 4))
    (at_spc (zlen (a_cs a)) (at_tab (set_stack_sz n t) a))))) ->
  does op_var_eval a Q.
Proof.
  intros Ht Hf Ho Ha Hl Hp HQ. eapply does_pop_top; [done..|]. stepsc. rewrite Ho. stepsc.
  rewrite word_addr by done. apply does_emit12; [done..|]. apply does_stack_push; [done|]. exact HQ.
Qed.

Lemma does_var_assign a t nm o (Q : Z -> ast -> Prop) :
  a_tab a = set_stk (Tmp nm :: t_stk t) t -> t_sp t <= t_fp t -> sym_obj_lookup nm t = Some o ->
  0 <= o_addr o < 16384 -> zlen (a_cs a) + 2 <= N -> 4 <= a_pos a < 65536 ->
  Q 0 (at_pos (a_pos a - 4) (add (op12 Js.OPC_ST (o_addr o / 4)) (at_spc (zlen (a_cs a)) (at_tab t a)))) ->
  does op_var_assign a Q.
Proof.
  intros Ht Hf Ho Ha Hl Hp HQ. eapply does_pop_top; [done..|]. stepsc. rewrite Ho. stepsc.
  rewrite word_addr by done. apply does_emit12; [done..|]. by apply does_stack_pop.
Qed.

Lemma does_push_int a n (Q : Z -> ast -> Prop) :
  t_u32 (a_tok a) = n -> zlen (a_cs a) + 5 <= N -> 0 <= a_pos a < 65532 ->
  (forall m, Q 0 (at_pos (a_pos a + 4) (add (int_bytes (s32 n))
    (at_spc (zlen (a_cs a)) (at_tab (set_stack_sz m (a_tab a)) a))))) ->
  does op_push_int a Q.
Proof.
  intros Hn Hl Hp HQ. unfold op_push_int. stepsc. rewrite Hn. apply does_encode_int; [done|].
  apply does_stack_push; [done|]. exact HQ.
Qed.
Lemma does_push_bit (b : bool) a (Q : Z -> ast -> Prop) :
  zlen (a_cs a) + 1 <= N -> 0 <= a_pos a < 65532 ->
  (forall m, Q 0 (at_pos (a_pos a + 4) (add (int_bytes (if b then 1 else 0))
    (at_spc (zlen (a_cs a)) (at_tab (set_stack_sz m (a_tab a)) a))))) ->
  does (if b then op_push_true else op_push_false) a Q.
Proof.
  intros Hl Hp HQ. destruct b; (unfold op_push_true, op_push_false; stepsc; apply does_emit; [simpl; lia|];
    apply does_stack_push; [done|]; exact HQ).
Qed.

(** *** Calls *)

Lemma does_function_lookup a t f n xid rt (Q : Z -> ast -> Prop) :
  a_tab a = set_stk (Tmp f :: t_stk t) t -> t_sp t <= t_fp t -> fun_def libdef f n = Some (xid, rt) ->
  5 <= free t ->
  (forall lo hi, lo <= n <= hi -> Q 0 (at_tab (set_stk (Call xid 0 lo hi rt :: t_stk t) t) a)) ->
  does (op_function_lookup libdef) a Q.
Proof.
  intros Ht Hf Hd Hfree HQ. destruct (fun_def_ok _ _ _ _ _ Hd) as (x & Hx & Hg & Hty & Hn & Hrt & Hxid & _).
  eapply does_pop_top; [done..|]. simpl. rewrite Hx. rewrite (proj2 (Z.ltb_ge _ _)) by lia.
  unfold xdef. rewrite Hg. rewrite Hty. simpl. apply does_push_sym; [done|]. rewrite Hrt. by apply HQ.
Qed.

Lemma does_arg a t xid k lo hi rt (Q : Z -> ast -> Prop) :
  a_tab a = set_stk (Call xid k lo hi rt :: t_stk t) t -> t_sp t <= t_fp t -> 5 <= free t -> 0 <= k < 255 ->
  Q 0 (at_tab (set_stk (Call xid (k + 1) lo hi rt :: t_stk t) t) a) -> does op_arg a Q.
Proof.
  intros Ht Hf Hfree Hk HQ. eapply does_pop_top; [done..|]. simpl. apply does_push_sym; [done|].
  by rewrite u8_small by lia.
Qed.

Lemma does_call a t xid n lo hi rt (Q : Z -> ast -> Prop) :
  a_tab a = set_stk (Call xid n lo hi rt :: t_stk t) t -> t_sp t <= t_fp t -> 5 <= free t ->
  lo <= n <= hi -> 0 <= n < 256 -> 0 <= xid < 256 -> zlen (a_cs a) + 3 <= N -> 0 <= a_pos a + (rt - n) * 4 < 65536 ->
  Q 0 (at_tab (set_stk (Call xid n lo hi rt :: t_stk t) t)
    (at_pos (a_pos a + (rt - n) * 4) (add [Js.OPC_EXT; xid; n] (at_spc (zlen (a_cs a)) (at_tab t a))))) ->
  does op_call a Q.
Proof.
  intros Ht Hf Hfree Hb Hn Hx Hl Hp HQ. eapply does_pop_top; [done..|]. simpl.
  rewrite (proj2 (Z.ltb_ge _ _)), (proj2 (Z.ltb_ge _ _)) by lia. stepsc.
  apply does_ext_call; [done..|]. apply does_bail, does_stack_adjust; [done|]. split; [done|].
  by apply does_push_sym.
Qed.

(** The results a call leaves behind are dropped, [keep] of them not. *)
Lemma does_drop a t xid n lo hi rt keep c (Q : Z -> ast -> Prop) :
  a_tab a = set_stk (Call xid n lo hi rt :: t_stk t) t -> t_sp t <= t_fp t ->
  gen_call xid n (rt - keep) = Some ([Js.OPC_EXT; xid; n] ++ c) -> keep = 0 \/ keep = 1 -> 0 <= rt ->
  zlen (a_cs a) + 1 <= N -> 0 <= a_pos a - (rt - keep) * 4 -> a_pos a < 65536 ->
  (forall s, (c = [] -> s = a_spc a) -> (c <> [] -> s = zlen (a_cs a)) ->
    Q 0 (at_pos (a_pos a - (rt - keep) * 4) (add c (at_spc s (at_tab t a))))) ->
  does (if keep =? 0 then op_ret_discard else op_call_ret) a Q.
Proof.
  intros Ht Hf Hg Hk Hrt Hl Hp Hp' HQ. unfold gen_call in Hg.
  assert (Hc : rt - keep = 0 /\ c = [] \/ rt - keep = 1 /\ c = [Js.OPC_POP]).
  { destruct (Z.eqb_spec (rt - keep) 0); [left; split; [done|by injection Hg]|].
    destruct (Z.eqb_spec (rt - keep) 1); [right; split; [done|by injection Hg]|done]. }
  destruct Hk as [-> | ->]; simpl.
  - eapply does_pop_top; [done..|]. simpl. apply does_bind, does_when; intros Hr.
    + destruct Hc as [[? ->]|[E ->]]; [lia|]. replace rt with 1 in * by lia. unfold discard. simpl. stepsc.
      apply does_emit; [simpl; lia|]. apply does_stack_adjust; simpl; [lia|]. by apply HQ.
    + destruct Hc as [[E ->]|[? ->]]; [|lia]. replace rt with 0 in * by lia.
      apply does_stack_adjust; simpl; [lia|]. specialize (HQ (a_spc a)). unfold add in HQ. simpl in *.
      rewrite app_nil_r in HQ. by apply HQ.
  - eapply does_pop_top; [done..|]. simpl. rewrite (proj2 (Z.ltb_ge _ _)) by lia.
    destruct (Z.ltb_spec 0 (rt - 1)).
    + destruct Hc as [[? ->]|[E ->]]; [lia|]. replace rt with 2 in * by lia. unfold discard. simpl. stepsc.
      apply does_emit; [simpl; lia|]. apply does_bail, does_stack_adjust; simpl; [lia|]. split; [done|]. apply does_ret. by apply HQ.
    + destruct Hc as [[E ->]|[? ->]]; [|lia]. replace rt with 1 in * by lia.
      apply does_ret. specialize (HQ (a_spc a)). unfold add, at_pos in HQ. simpl in *.
      rewrite app_nil_r, Z.sub_0_r in HQ. by apply HQ.
Qed.

(** *** Operators *)

Definition bin_act (o : binop) : M microjs_sdt Z :=
  match o with
  | Or => op_or | LogicOr => op_logic_or | Xor => op_xor | And => op_and | LogicAnd => op_logic_and
  | Lt => op_lt | Gt => op_gt | Equ => op_equ | Neq => op_neq | Gte => op_gte | Lte => op_lte
  | Shl => op_shl | Asr => op_asr | Add => op_add | Sub => op_sub | Div => op_div | Mod => op_mod | Mul => op_mul
  end.
Definition un_act (o : unop) : M microjs_sdt Z :=
  match o with Inv => op_inv | Minus => op_minus | Not => op_not end.

Lemma bin_opc_byte o : u8 (bin_opc o) = bin_opc o.
Proof. by destruct o. Qed.

Lemma does_op_bin o a (Q : Z -> ast -> Prop) :
  zlen (a_cs a) + 1 <= N -> 4 <= a_pos a < 65536 ->
  Q 0 (at_pos (a_pos a - 4) (add [bin_opc o] (at_spc (zlen (a_cs a)) a))) -> does (op_bin (bin_opc o)) a Q.
Proof.
  intros Hl Hp HQ. unfold op_bin. stepsc. apply does_emit; [simpl; lia|]. apply does_stack_pop; [done|].
  by rewrite bin_opc_byte.
Qed.

Lemma does_is_const c pre ins k a (Q : bool -> ast -> Prop) :
  last_ins ins k -> a_cs a = pre ++ ins -> a_spc a = zlen pre ->
  Q (match k with Some v => v =? c | None => false end) a -> does (is_const c) a Q.
Proof. intros Hk Hcs Hs HQ. apply does_bind. eapply does_is_constant; [done..|]. by apply does_ret. Qed.

Lemma does_bin o pre ins k a (Q : Z -> ast -> Prop) :
  last_ins ins k -> a_cs a = pre ++ ins -> a_spc a = zlen pre -> zlen (a_cs a) + 1 <= N -> 4 <= a_pos a < 65536 ->
  match folded o k with
  | Some opc => forall p, a_pos a - 4 <= p <= a_pos a -> Q 0 (at_pos p (set_cs (pre ++ [opc]) a))
  | None => Q 0 (at_pos (a_pos a - 4) (add [bin_opc o] (at_spc (zlen (a_cs a)) a)))
  end -> does (bin_act o) a Q.
Proof.
  intros Hk Hcs Hs Hl Hp HQ.
  assert (Hpre : zlen pre + 1 <= N) by (rewrite Hcs, zlen_app in Hl; pose proof (zlen_nonneg ins); lia).
  destruct o; lazymatch goal with
    | |- does (bin_act Equ) _ _ => idtac | |- does (bin_act Add) _ _ => idtac | |- does (bin_act Sub) _ _ => idtac
    | |- does (bin_act ?o) _ _ => exact (does_op_bin o a Q Hl Hp HQ)
    end.
  - apply does_bind. eapply does_is_const; [done..|]. simpl in HQ.
    destruct k as [[]|]; simpl; try exact (does_op_bin Equ a Q Hl Hp HQ).
    apply does_bind. eapply does_rollback; [done..|]. stepsc. apply does_emit; [simpl; lia|]. apply does_ret.
    specialize (HQ (a_pos a)). by apply HQ; lia.
  - apply does_bind. eapply does_is_const; [done..|]. simpl in HQ.
    destruct k as [[|[]|]|]; simpl; try exact (does_op_bin Add a Q Hl Hp HQ).
    apply does_bind. eapply does_rollback; [done..|]. stepsc. apply does_emit; [simpl; lia|]. apply does_stack_pop; [done|].
    by apply HQ; simpl; lia.
  - apply does_bind. eapply does_is_const; [done..|]. simpl in HQ.
    destruct k as [[|[]|]|]; simpl; try exact (does_op_bin Sub a Q Hl Hp HQ).
    apply does_bind. eapply does_rollback; [done..|]. stepsc. apply does_emit; [simpl; lia|]. apply does_stack_pop; [done|].
    by apply HQ; simpl; lia.
Qed.

(** [k]: the constant pushed, when the operand is one. *)
Lemma does_un o pre ins k a (Q : Z -> ast -> Prop) :
  last_ins ins k -> a_cs a = pre ++ ins -> a_spc a = zlen pre -> (k <> None -> zlen pre + 5 <= N) ->
  zlen (a_cs a) + 1 <= N ->
  match o, k with
  | Minus, Some v => Q 0 (set_cs (pre ++ int_bytes (s32 (- v))) a)
  | _, _ => Q 0 (add [un_opc o] (at_spc (zlen (a_cs a)) a))
  end -> does (un_act o) a Q.
Proof.
  intros Hk Hcs Hs Hl5 Hl HQ.
  assert (Hun : forall a', a' = a -> Q 0 (add [un_opc o] (at_spc (zlen (a_cs a)) a)) -> does (op_un (un_opc o)) a' Q).
  { intros a' -> HQ'. unfold op_un. stepsc. apply does_emit; [simpl; lia|]. apply does_ret. by destruct o. }
  destruct o; [by apply Hun| |by apply Hun].
  apply does_bind. eapply does_is_constant; [done..|]. destruct k as [v|]; [|by apply Hun].
  apply does_bind. eapply does_rollback; [done..|]. apply does_encode_int; [by apply Hl5|]. simpl.
  unfold add, at_spc, set_cs in *. simpl. by rewrite <-Hs.
Qed.

(** *** Jumps *)

(** The same code with its parts grouped otherwise. *)
Ltac regroup := unfold add, set_cs, at_tab, at_spc; simpl;
  lazymatch goal with |- mk_ast _ _ _ _ _ _ = mk_ast _ _ _ _ _ _ => f_equal | _ => idtac end;
  repeat (rewrite <-app_assoc; simpl); try done.
Ltac by_code HQ := lazymatch goal with |- ?Q 0 _ => eapply (eq_ind _ (Q 0)); [apply HQ|regroup] end.

Lemma does_throw a (Q : Z -> ast -> Prop) :
  zlen (a_cs a) + 1 <= N -> Q 0 (add [Js.OPC_XPT] (at_spc (zlen (a_cs a)) a)) -> does op_throw a Q.
Proof. intros Hl HQ. unfold op_throw. stepsc. apply does_emit; [simpl; lia|]. by apply does_ret. Qed.

Lemma does_if_cond a (Q : Z -> ast -> Prop) :
  zlen (a_cs a) + 2 <= N -> 2 + lbl_size <= free (a_tab a) ->
  (forall j s, Q 0 (add [Js.OPC_JEQ; j] (at_spc s
    (at_tab (set_stk (Ref (zlen (a_cs a)) :: t_stk (a_tab a)) (a_tab a)) a)))) ->
  does op_if_cond a Q.
Proof.
  intros Hl Hf HQ. unfold op_if_cond. stepsc. apply does_reserve; [done|]. intros j.
  apply does_push_sym; [done|]. apply HQ.
Qed.

(** Code with the jump at [pre] filled in. *)
Lemma does_patch_ref a t pre opc j mid (Q : Z -> ast -> Prop) :
  a_tab a = set_stk (Ref (zlen pre) :: t_stk t) t -> t_sp t <= t_fp t ->
  a_cs a = pre ++ [opc; j] ++ mid -> 0 <= opc <= 0xf0 ->
  Q 0 (set_cs (pre ++ op12 opc (zlen mid) ++ mid) (at_tab t a)) -> does op_patch_ref a Q.
Proof.
  intros Ht Hf Hcs Ho HQ. eapply does_pop_top; [done..|]. stepsc. eapply does_fix; [done..|]. apply does_ret.
  rewrite Hcs, !zlen_app. change (zlen [opc; j]) with 2.
  by replace (zlen pre + (2 + zlen mid) - 2 - zlen pre) with (zlen mid) by lia.
Qed.

Lemma does_if_else a t pre j mid (Q : Z -> ast -> Prop) :
  a_tab a = set_stk (Ref (zlen pre) :: t_stk t) t -> t_sp t <= t_fp t ->
  a_cs a = pre ++ [Js.OPC_JEQ; j] ++ mid -> zlen (a_cs a) + 2 <= N -> 2 + lbl_size <= free t ->
  (forall j' s, Q 0 (mk_ast (pre ++ op12 Js.OPC_JEQ (zlen mid + 2) ++ mid ++ [Js.OPC_JMP; j'])
    (set_stk (Ref (zlen (a_cs a)) :: t_stk t) t) s (a_pos a) (a_dp a) (a_tok a))) ->
  does op_if_else a Q.
Proof.
  intros Ht Hf Hcs Hl Hfree HQ. eapply does_pop_top; [done..|]. stepsc. eapply does_fix; [done..|].
  apply does_bind, does_reserve.
  { simpl. rewrite Hcs in Hl. rewrite !zlen_app in *. simpl. rewrite !zlen_cons in *. change (zlen []) with 0 in *. lia. }
  intros j'. apply does_push_sym; [done|]. rewrite Hcs, !zlen_app in *. change (zlen [_; j]) with 2 in *.
  replace (zlen pre + (2 + zlen mid) - zlen pre) with (zlen mid + 2) by lia.
  by_code HQ.
Qed.

Lemma does_while_begin a (Q : Z -> ast -> Prop) :
  4 + lbl_size <= free (a_tab a) ->
  Q 0 (at_tab (set_stk (Wld (zlen (a_cs a)) 0 :: t_stk (a_tab a)) (a_tab a)) a) -> does op_while_begin a Q.
Proof. intros Hf HQ. unfold op_while_begin. stepsc. by apply does_push_sym. Qed.

Lemma does_while_cond a t p0 c0 (Q : Z -> ast -> Prop) :
  a_tab a = set_stk (Wld p0 c0 :: t_stk t) t -> t_sp t <= t_fp t ->
  zlen (a_cs a) + 2 <= N -> 4 + lbl_size <= free t ->
  (forall j s, Q 0 (add [Js.OPC_JEQ; j] (at_spc s (at_tab (set_stk (Wld p0 (zlen (a_cs a)) :: t_stk t) t) a)))) ->
  does op_while_cond a Q.
Proof.
  intros Ht Hf Hl Hfree HQ. eapply does_pop_top; [done..|]. stepsc. apply does_reserve; [done|]. intros j.
  apply does_push_sym; [done|]. apply HQ.
Qed.

Lemma does_while_end a t pre ce j mid (Q : Z -> ast -> Prop) :
  a_tab a = set_stk (Wld (zlen pre) (zlen (pre ++ ce)) :: t_stk t) t -> t_sp t <= t_fp t ->
  a_cs a = (pre ++ ce) ++ [Js.OPC_JEQ; j] ++ mid -> zlen (a_cs a) + 2 <= N ->
  (forall s, Q 0 (mk_ast (pre ++ ce ++ op12 Js.OPC_JEQ (zlen mid + 2) ++ mid ++
    op12 Js.OPC_JMP (- (zlen ce + zlen mid + 4))) t s (a_pos a) (a_dp a) (a_tok a))) ->
  does op_while_end a Q.
Proof.
  intros Ht Hf Hcs Hl HQ. eapply does_pop_top; [done..|]. stepsc. eapply does_fix; [done..|]. stepsc.
  apply does_emit12; [done| |].
  { simpl. rewrite Hcs in Hl. rewrite !zlen_app in *. simpl. rewrite !zlen_cons in *. change (zlen []) with 0 in *. lia. }
  apply does_ret. rewrite Hcs, !zlen_app in *. change (zlen [_; j]) with 2 in *.
  replace (zlen pre + zlen ce + (2 + zlen mid) - (zlen pre + zlen ce)) with (zlen mid + 2) by lia.
  replace (zlen pre - (zlen pre + zlen ce + (2 + zlen mid) + 2)) with (- (zlen ce + zlen mid + 4)) by lia.
  by_code HQ.
Qed.

Lemma does_for_init a (Q : Z -> ast -> Prop) :
  8 + lbl_size <= free (a_tab a) ->
  Q 0 (at_tab (set_stk (Fld (zlen (a_cs a)) 0 0 0 :: t_stk (a_tab a)) (a_tab a)) a) -> does op_for_init a Q.
Proof. intros Hf HQ. unfold op_for_init. stepsc. by apply does_push_sym. Qed.

Lemma does_for_cond a t p0 (Q : Z -> ast -> Prop) :
  a_tab a = set_stk (Fld p0 0 0 0 :: t_stk t) t -> t_sp t <= t_fp t ->
  zlen (a_cs a) + 4 <= N -> 8 + lbl_size <= free t ->
  (forall j j' s, Q 0 (add [Js.OPC_JEQ; j; Js.OPC_JMP; j'] (at_spc s
    (at_tab (set_stk (Fld p0 (zlen (a_cs a)) (zlen (a_cs a) + 2) (zlen (a_cs a) + 4) :: t_stk t) t) a)))) ->
  does op_for_cond a Q.
Proof.
  intros Ht Hf Hl Hfree HQ. eapply does_pop_top; [done..|]. stepsc. apply does_reserve; [simpl; lia|]. intros j. stepsc.
  apply does_reserve; [simpl; rewrite zlen_app; change (zlen [_; j]) with 2; lia|]. intros j'. stepsc.
  apply does_push_sym; [done|]. rewrite !zlen_app. change (zlen [_; j]) with 2. change (zlen [_; j']) with 2.
  rewrite <-Z.add_assoc. by_code (HQ j j').
Qed.

Lemma does_for_after a t pre ce j j' ca (Q : Z -> ast -> Prop) :
  let p1 := zlen (pre ++ ce) in
  a_tab a = set_stk (Fld (zlen pre) p1 (p1 + 2) (p1 + 4) :: t_stk t) t -> t_sp t <= t_fp t ->
  a_cs a = pre ++ ce ++ [Js.OPC_JEQ; j] ++ [Js.OPC_JMP; j'] ++ ca -> zlen (a_cs a) + 2 <= N ->
  8 + lbl_size <= free t ->
  (forall s, Q 0 (mk_ast (pre ++ ce ++ [Js.OPC_JEQ; j] ++ op12 Js.OPC_JMP (zlen ca + 2) ++ ca ++
      op12 Js.OPC_JMP (- (zlen ce + zlen ca + 6))) (a_tab a) s (a_pos a) (a_dp a) (a_tok a))) ->
  does op_for_after a Q.
Proof.
  intros p1 Ht Hf Hcs Hl Hfree HQ. eapply does_pop_top; [done..|]. stepsc.
  assert (Hcs' : a_cs a = (pre ++ ce ++ [Js.OPC_JEQ; j]) ++ [Js.OPC_JMP; j'] ++ ca) by by rewrite <-!app_assoc.
  eapply does_fix; [exact Hcs'|unfold p1; rewrite !zlen_app; change (zlen [_; j]) with 2; lia|done|]. stepsc.
  apply does_emit12; [done| |].
  { simpl. rewrite Hcs in Hl. rewrite !zlen_app in *. simpl in *. rewrite !zlen_cons in *. change (zlen []) with 0 in *. lia. }
  apply does_push_sym; [done|]. simpl. rewrite Hcs, !zlen_app in *. change (zlen [_; j]) with 2 in *. change (zlen [_; j']) with 2 in *.
  unfold p1 in *. rewrite zlen_app in *.
  replace (zlen pre + (zlen ce + (2 + (2 + zlen ca))) - (zlen pre + zlen ce + 2)) with (zlen ca + 2) by lia.
  replace (zlen pre - (zlen pre + (zlen ce + (2 + (2 + zlen ca))) + 2)) with (- (zlen ce + zlen ca + 6)) by lia.
  rewrite Ht in HQ. by_code HQ.
Qed.

Lemma does_for_end a t pre ce j mid cb (Q : Z -> ast -> Prop) :
  let p1 := zlen (pre ++ ce) in
  a_tab a = set_stk (Fld (zlen pre) p1 (p1 + 2) (p1 + 4) :: t_stk t) t -> t_sp t <= t_fp t ->
  a_cs a = pre ++ ce ++ [Js.OPC_JEQ; j] ++ mid ++ cb -> zlen (a_cs a) + 2 <= N -> 2 <= zlen mid ->
  (forall s, Q 0 (mk_ast (pre ++ ce ++ op12 Js.OPC_JEQ (zlen mid + zlen cb + 2) ++ mid ++ cb ++
      op12 Js.OPC_JMP (- (zlen mid - 2 + zlen cb + 2))) t s (a_pos a) (a_dp a) (a_tok a))) ->
  does op_for_end a Q.
Proof.
  intros p1 Ht Hf Hcs Hl Hm HQ. eapply does_pop_top; [done..|]. stepsc.
  assert (Hcs' : a_cs a = (pre ++ ce) ++ [Js.OPC_JEQ; j] ++ (mid ++ cb)) by by rewrite <-!app_assoc.
  eapply does_fix; [exact Hcs'|done|done|]. stepsc.
  apply does_emit12; [done| |].
  { simpl. rewrite Hcs in Hl. rewrite !zlen_app in *. simpl in *. rewrite !zlen_cons, !zlen_app in *. change (zlen []) with 0 in *. lia. }
  apply does_ret. simpl. rewrite Hcs, !zlen_app in *. change (zlen [_; j]) with 2 in *. unfold p1 in *. rewrite zlen_app in *.
  replace (zlen pre + (zlen ce + (2 + (zlen mid + zlen cb))) - (zlen pre + zlen ce)) with (zlen mid + zlen cb + 2) by lia.
  replace (zlen pre + zlen ce + 4 - (zlen pre + (zlen ce + (2 + (zlen mid + zlen cb))) + 2))
    with (- (zlen mid - 2 + zlen cb + 2)) by lia.
  by_code HQ.
Qed.

(** *** Scopes *)

Lemma does_blk_open a (Q : Z -> ast -> Prop) :
  6 <= free (a_tab a) -> Q 0 (at_tab (opened (a_dp a) (a_tab a)) a) -> does op_blk_open a Q.
Proof.
  intros Hf HQ. unfold op_blk_open. stepsc. apply does_push_sym; [simpl; lia|].
  apply does_stale; intros Hs. eapply does_sym; [| |exact HQ]; [|done]. unfold sym_sf_push, sym_push, overwrite.
  set (t1 := set_stk (Addr (a_dp a) :: t_stk (a_tab a)) (a_tab a)).
  change (a_tab (at_tab t1 a)) with t1. change (t_fp t1) with (t_fp (a_tab a)). change (t_bp t1) with (t_bp (a_tab a)).
  change (t_stale t1) with (t_stale (a_tab a)). simpl in Hs. rewrite Hs.
  pose proof (free_push (Addr (a_dp a)) (a_tab a)) as E. fold t1 in E. unfold free in E, Hf. simpl in E.
  rewrite (proj2 (Z.ltb_ge _ _)); [done|]. simpl. change (t_bp t1) with (t_bp (a_tab a)) in E. lia.
Qed.

Lemma does_blk_close p t a (Q : Z -> ast -> Prop) :
  t_sp t <= t_fp t -> grows (opened p t) (a_tab a) -> Q 0 (at_dp p (at_tab (closed t (a_tab a)) a)) ->
  does op_blk_close a Q.
Proof.
  intros Hf Hg HQ. apply does_stale; intros Hst. pose proof Hg as (_ & _ & _ & Hst' & _). apply does_bail.
  eapply does_symo; [by apply sf_pop_opened|intros _; change (t_stale (opened p t) = Some []); by rewrite <-Hst'|]. split; [done|].
  eapply does_pop_top with (t := closed t (a_tab a)); [done|done|done|]. stepsc. exact HQ.
Qed.

(** *** Declarations *)

Lemma does_var_decl c c' a (Q : Z -> ast -> Prop) :
  scope_ok (a_tab a) c -> new_var (t_s (a_tok a)) c = Some c' -> a_dp a = used c -> ctx_ok c ->
  obj_len (t_s (a_tok a)) <= free (a_tab a) ->
  (forall t, grows (a_tab a) t -> scope_ok t c' -> free (a_tab a) - obj_len (t_s (a_tok a)) <= free t ->
    Q 0 (at_dp (used c') (at_tab t a))) ->
  does op_var_decl a Q.
Proof.
  intros Hs Hn Hdp (_ & _ & Hu & Hm) Hfree HQ.
  pose proof Hs as (f & g & new & old & prev & Hv & Ho & Hf & Hg & Hsf & Hd & Hfp).
  apply does_stale; intros Hst.
  destruct (scope_lookup (a_tab a) f new old prev (t_s (a_tok a)) Ho Hst Hf Hsf) as (o & El & Hnone).
  pose proof (obj_len_pos (t_s (a_tok a))).
  unfold op_var_decl. stepsc. eapply does_symo; [by rewrite El|done|].
  unfold new_var in Hn. rewrite Hv in Hn. destruct (find_var (t_s (a_tok a)) f) as [x|] eqn:Ef.
  - destruct o as [o|]; [|by destruct Hnone as [Hn' _]; discriminate Hn']. injection Hn as <-. apply does_ret.
    specialize (HQ _ (grows_refl _) Hs ltac:(lia)). destruct a as [? ? ? ? dp ?]. simpl in *. by subst dp.
  - destruct o as [o|]; [by destruct Hnone as [_ Hn']; discriminate (Hn' eq_refl)|].
    destruct ((used c + 4 <=? 16384) && (obj_len (t_s (a_tok a)) <=? 255)) eqn:Er; [|done]. injection Hn as <-.
    stepsc. unfold free in Hfree. eapply does_symo; [| |].
    { unfold sym_obj_new. simpl. rewrite (proj2 (Z.ltb_ge _ _)), (proj2 (Z.ltb_ge _ _)) by lia. done. }
    { done. }
    stepsc. unfold tgt_alloc32. stepsc.
    assert (Ea : Z.land (a_dp a + 3) (Z.lnot 3) = used c).
    { rewrite Hdp. change (Z.land ?x (Z.lnot 3)) with (Z.land x (Z.lnot 3)).
      rewrite <-Z.ldiff_land. change 3 with (Z.ones 2) at 2. rewrite Z.ldiff_ones_r by lia.
      rewrite Z.shiftl_mul_pow2, Z.shiftr_div_pow2 by lia. change (2 ^ 2) with 4. lia. }
    rewrite Ea. rewrite u16_small by lia.
    set (obj := mk_obj _ _ _ _). set (t1 := set_objs _ _).
    assert (Hfin : forall t2, t_stk t2 = t_stk (a_tab a) -> t_fp t2 = t_fp (a_tab a) -> t_top t2 = t_top (a_tab a) ->
      t_stale t2 = Some [] ->
      (exists fl, t_objs t2 = mk_obj (t_s (a_tok a)) fl 4 (used c) :: t_objs (a_tab a)) ->
      t_data_sz t2 = Z.max (most c) (used c + 4) -> Q 0 (at_dp (used c + 4) (at_tab t2 a))).
    { intros t2 E1 E2 E3 Es (fl & E4) E5. apply HQ.
      - split_and!; try done; [by rewrite Hst|]. by exists [mk_obj (t_s (a_tok a)) fl 4 (used c)].
      - exists ((t_s (a_tok a), used c) :: f), g, (mk_obj (t_s (a_tok a)) fl 4 (used c) :: new), old, prev.
        unfold t_sp in *. rewrite E1, E2, E3, E4, Ho. split_and!; try done; try lia; [by rewrite <-Hf|].
        unfold sym_sf_get in *. by rewrite E1, E2, E3.
      - unfold free, t_sp, t_bp. rewrite E1, E3, E4. simpl. fold (t_bp (a_tab a)). fold (t_sp (a_tab a)). lia. }
    apply does_when; intros Hlt; stepsc; simpl in Hlt;
      lazymatch goal with |- Q 0 (at_tab ?t _) => change (Q 0 (at_dp (used c + 4) (at_tab t a))) end;
      apply Hfin; try done; try (by eexists); simpl; lia.
Qed.
End act.
