(* ===== verification/JsParse.v ===== *)
(** * MicroJS: the parser

    The driver of [microjs_compile] on a known stack and input: a stack of
    symbols eats the tokens of what it derives, its actions change the compiler's
    state. Then the expressions: whatever their level, the parser writes the code
    of [gen_exp]. *)

From S2P Require Import Prelude Js JsLl JsLex JsSym JsSdt JsLang JsGen JsVm JsScope JsTab JsAct.
From stdpp Require Import relations.
Open Scope Z_scope.
Import Ll Lex Sym Sdt Lang Gen.

(** ** The tables

    The nonterminal of each level of expressions, and what follows its first
    operand. *)
Definition nt (L : nat) : Z :=
  nth L [N_EXP; N_AND_EXP; N_RELATIONAL_EXP; N_SHIFT_EXP; N_ADDITIVE_EXP; N_DIV_EXP; N_MULT_EXP; N_UNARY_EXP; N_PRIMARY_EXP] 0.
Definition tl (L : nat) : Z :=
  nth L [N_OR_EXP; N_AND_EXP1; N_RELATIONAL_EXP1; N_SHIFT_EXP1; N_ADDITIVE_EXP1; N_DIV_EXP1; N_MULT_EXP1] 0.
Definition first_prim : list Z := [T_LPAREN; T_FALSE; T_TRUE; T_ID; T_INT].
Definition first_exp : list Z := [T_MINUS; T_TILDE; T_NOT] ++ first_prim.
Definition ops : list (list Z) :=
  [[T_BAR; T_LOGICOR; T_CARET]; [T_AMPERSAND; T_LOGICAND];
   [T_LESSTHEN; T_GREATTHEN; T_EQU; T_NEQ; T_GTE; T_LTE]; [T_SHL; T_ASR]; [T_PLUS; T_MINUS]; [T_SLASH; T_PERCENT];
   [T_STAR]].
Definition follow (L : nat) : list Z :=
  [T_EOF; T_COMMA; T_SEMICOLON; T_RBRACKET; T_RPAREN] ++ concat (take L ops).
Definition bin_sym (o : binop) : Z :=
  match o with
  | Or => A_OP_OR | LogicOr => A_OP_LOGIC_OR | Xor => A_OP_XOR | And => A_OP_AND | LogicAnd => A_OP_LOGIC_AND
  | Lt => A_OP_LT | Gt => A_OP_GT | Equ => A_OP_EQU | Neq => A_OP_NEQ | Gte => A_OP_GTE | Lte => A_OP_LTE
  | Shl => A_OP_SHL | Asr => A_OP_ASR | Add => A_OP_ADD | Sub => A_OP_SUB | Div => A_OP_DIV | Mod => A_OP_MOD
  | Mul => A_OP_MUL
  end.
Definition un_sym (o : unop) : Z := match o with Inv => A_OP_INV | Minus => A_OP_MINUS | Not => A_OP_NOT end.

Definition pushes (s t : Z) (prod : list Z) : Prop := microjs_ll_push s t = Some (inr prod).
Definition pushes_b (s t : Z) (prod : list Z) : bool :=
  match microjs_ll_push s t with Some (inr p) => bool_decide (p = prod) | _ => false end.
Lemma pushes_ok s t prod : pushes_b s t prod = true -> pushes s t prod.
Proof.
  unfold pushes_b, pushes. destruct (microjs_ll_push s t) as [[|p]|]; [done| |done].
  intros E. by apply bool_decide_eq_true in E as ->.
Qed.

(** A table's entries, one by one. *)
Lemma by_levels (P : nat -> Z -> bool) (F : nat -> list Z) n :
  forallb (fun L => forallb (P L) (F L)) (seq 0 n) = true ->
  forall L t, (L < n)%nat -> In t (F L) -> P L t = true.
Proof.
  intros HF L t HL Ht. rewrite forallb_forall in HF. specialize (HF L). rewrite forallb_forall in HF.
  apply HF; [|done]. apply in_seq. lia.
Qed.

Lemma ll_down L t : (L < 7)%nat -> In t first_exp -> pushes (nt L) t [nt (S L); tl L].
Proof.
  intros HL Ht. apply pushes_ok. revert L t HL Ht.
  apply (by_levels (fun L t => pushes_b (nt L) t [nt (S L); tl L]) (fun _ => first_exp)). by vm_compute.
Qed.
Lemma ll_eps L t : (L < 7)%nat -> In t (follow L) -> pushes (tl L) t [].
Proof.
  intros HL Ht. apply pushes_ok. revert L t HL Ht.
  apply (by_levels (fun L t => pushes_b (tl L) t []) follow). by vm_compute.
Qed.
Lemma ll_prim t : In t first_prim -> pushes N_UNARY_EXP t [N_PRIMARY_EXP].
Proof.
  intros Ht. apply pushes_ok. revert Ht.
  apply (by_levels (fun _ t => pushes_b N_UNARY_EXP t [N_PRIMARY_EXP]) (fun _ => first_prim) 1 eq_refl 0). lia.
Qed.
Lemma ll_op o : pushes (tl (bin_level o)) (bin_tok o) [bin_tok o; nt (bin_level o); bin_sym o].
Proof. by destruct o. Qed.
Lemma ll_un o : pushes N_UNARY_EXP (un_tok o) [un_tok o; N_UNARY_EXP; un_sym o].
Proof. by destruct o. Qed.
Lemma ll_var t : In t (follow 7) -> pushes N_ID_EVAL1 t [A_OP_VAR_EVAL].
Proof.
  intros Ht. apply pushes_ok. revert Ht.
  apply (by_levels (fun _ t => pushes_b N_ID_EVAL1 t [A_OP_VAR_EVAL]) (fun _ => follow 7) 1 eq_refl 0). lia.
Qed.

Lemma follow_mono L L' t : (L <= L')%nat -> In t (follow L) -> In t (follow L').
Proof.
  intros HL Ht. unfold follow in *. apply in_app_or in Ht as [Ht|Ht]; apply in_or_app; [by left|right].
  apply in_concat in Ht as (x & Hx & Ht). apply in_concat. exists x. split; [|done].
  replace L with (L `min` L')%nat in Hx by lia. rewrite <-take_take in Hx.
  rewrite <-(take_drop L (take L' ops)). apply in_or_app. by left.
Qed.
Lemma op_follows o L : (bin_level o < L)%nat -> In (bin_tok o) (follow L).
Proof.
  intros HL. apply (follow_mono (S (bin_level o))); [lia|]. destruct o; simpl; tauto.
Qed.

Lemma ll_args t : In t first_exp ->
  pushes N_ARG_LIST_OPT t [N_ARG_LIST] /\ pushes N_ARG_LIST t [N_EXP; A_OP_ARG; N_ARG_LIST1].
Proof.
  intros Ht. split; apply pushes_ok; revert Ht.
  - apply (by_levels (fun _ t => pushes_b N_ARG_LIST_OPT t [N_ARG_LIST]) (fun _ => first_exp) 1 eq_refl 0). lia.
  - apply (by_levels (fun _ t => pushes_b N_ARG_LIST t [N_EXP; A_OP_ARG; N_ARG_LIST1]) (fun _ => first_exp) 1 eq_refl 0). lia.
Qed.

(** What expressions begin with. *)
Lemma toks_first L e : exists t l, toks L e = t :: l /\ In (typ t) first_exp.
Proof.
  revert L. induction e using exp_nested; intros L; simpl; try (eexists _, _; split; [done|]; simpl; tauto).
  - unfold parens. destruct (_ <? _)%nat; simpl; (eexists _, _; split; [done|]); [simpl; tauto|]. by destruct o; simpl; tauto.
  - unfold parens. destruct (_ <? _)%nat; simpl; [eexists _, _; split; [done|]; simpl; tauto|].
    destruct (IHe1 (S (bin_level o))) as (t & l & -> & Ht). by eexists _, _.
Qed.
Lemma toks_prim L e : level e = 8%nat -> exists t l, toks L e = t :: l /\ In (typ t) first_prim.
Proof.
  destruct e; simpl; try done; intros Hl; try (eexists _, _; split; [done|]; simpl; tauto).
  by destruct o.
Qed.
Lemma level_le e : (level e <= 8)%nat.
Proof. destruct e; simpl; try lia. destruct o; simpl; lia. Qed.

(** ** The code of an expression *)

Section gens.
Variable libdef : ext_libdef.

Lemma int_bytes_len x : 1 <= zlen (int_bytes x) <= 5.
Proof. unfold int_bytes. repeat case_match; done. Qed.

Lemma konst_gen g e v : konst e = Some v -> gen_exp libdef g e = Some (int_bytes v).
Proof.
  destruct e; try done; simpl; [by intros [= <-]..|].
  destruct o; try done. destruct (konst e); [|done]. by intros [= <-].
Qed.

Lemma gen_exp_len g e bs : gen_exp libdef g e = Some bs -> 1 <= zlen bs.
Proof.
  destruct e; simpl; try (by intros [= <-]); try (intros [= <-]; apply int_bytes_len).
  - destruct (address x g); [|done]. by intros [= <-].
  - destruct (match o with Minus => _ | _ => None end) as [v|]; [intros [= <-]; apply int_bytes_len|].
    destruct (gen_exp libdef g e); [|done]. intros [= <-]. rewrite zlen_app, zlen_single. pose proof (zlen_nonneg l). lia.
  - destruct (gen_exp libdef g e1); [|done]. destruct (gen_exp libdef g e2); [|done]. simpl.
    destruct (folded o (konst e2)); intros [= <-]; rewrite !zlen_app, zlen_single; pose proof (zlen_nonneg l); pose proof (zlen_nonneg l0); lia.
  - destruct (gen_all _ _); [|done]. simpl. destruct (fun_def libdef f (zlen args)) as [[xid rt]|]; [|done]. simpl.
    unfold gen_call. repeat case_match; try done; intros [= <-]; rewrite zlen_app; pose proof (zlen_nonneg l); simpl; rewrite !zlen_cons; pose proof (zlen_nonneg (@nil Z)); lia.
Qed.

(** A constant's code may get shorter when its sign changes: it counts as one
    byte, and the buffer has room for five. *)
Definition code_room (e : exp) (bs : list Z) : Z := match konst e with Some _ => 1 | None => zlen bs end.

Lemma code_room_le g e bs : gen_exp libdef g e = Some bs -> code_room e bs <= zlen bs.
Proof. intros Hg. pose proof (gen_exp_len _ _ _ Hg). unfold code_room. destruct (konst e); lia. Qed.

Lemma gen_un g o e bs : gen_exp libdef g (EUn o e) = Some bs ->
  exists be, gen_exp libdef g e = Some be /\
    match o, konst e with
    | Minus, Some v => konst (EUn o e) = Some (s32 (- v)) /\ bs = int_bytes (s32 (- v))
    | _, _ => konst (EUn o e) = None /\ bs = be ++ [un_opc o]
    end.
Proof.
  intros Hg. destruct (konst e) as [v|] eqn:Ek.
  - rewrite (konst_gen g e v Ek). exists (int_bytes v). split; [done|].
    simpl in *. destruct o; rewrite ?Ek in *; simpl in Hg; rewrite ?(konst_gen g e v Ek) in Hg; by injection Hg as <-.
  - simpl in *. destruct o; rewrite ?Ek in *; simpl in Hg; destruct (gen_exp libdef g e) as [be|]; try done;
      injection Hg as <-; by exists be.
Qed.

Lemma gen_bin g o e1 e2 bs : gen_exp libdef g (EBin o e1 e2) = Some bs ->
  exists ca cb, gen_exp libdef g e1 = Some ca /\ gen_exp libdef g e2 = Some cb /\
    bs = match folded o (konst e2) with Some opc => ca ++ [opc] | None => ca ++ cb ++ [bin_opc o] end.
Proof.
  simpl. destruct (gen_exp libdef g e1) as [ca|]; [|done]. destruct (gen_exp libdef g e2) as [cb|]; [|done]. simpl.
  intros Hg. exists ca, cb. split_and!; try done. destruct (folded o (konst e2)); by injection Hg as <-.
Qed.

Lemma gen_call_inv xid n k c2 : gen_call xid n k = Some c2 ->
  exists c, c2 = [Js.OPC_EXT; xid; n] ++ c /\ (k = 0 /\ c = [] \/ k = 1 /\ c = [Js.OPC_POP]).
Proof.
  unfold gen_call. destruct (Z.eqb_spec k 0); [intros [= <-]; exists []; by split; [|left]|].
  destruct (Z.eqb_spec k 1); [intros [= <-]; exists [Js.OPC_POP]; by split; [|right]|done].
Qed.

Lemma un_not_const o : not_const (un_opc o).
Proof. by destruct o. Qed.

Lemma bin_not_const o : not_const (bin_opc o).
Proof. by destruct o. Qed.

Lemma folded_not_const o k opc : folded o k = Some opc -> not_const opc /\ exists v, k = Some v.
Proof. destruct o, k as [[|[]|]|]; simpl; try done; intros [= <-]; (split; [done|by eexists]). Qed.

Lemma bin_level_lt o : (bin_level o < 7)%nat.
Proof. destruct o; simpl; lia. Qed.
End gens.

(** ** The driver *)

(** The lexer's token is the one wanted, as far as the compiler looks. *)
Definition tok_is (t t0 : token) : Prop :=
  typ t = typ t0 /\ (typ t = T_ID -> t_s t = t_s t0) /\ (typ t = T_INT -> t_u32 t = t_u32 t0).

Section parse.
Context `{JsConfig}.
Variable libdef : ext_libdef.
Variables N cap : Z.
Hypothesis HN : 0 <= N < 65536.

Fixpoint reads (lex : lexer) (l : list token) : Prop :=
  match l with
  | [] => True
  | t0 :: l => exists t lex', lexer_scan lex = Some (t, lex') /\ tok_is t t0 /\ typ t <> T_ERR /\ reads lex' l
  end.
(** [t] the lookahead, [lex] behind it. *)
Definition inp (l : list token) (t : token) (lex : lexer) : Prop :=
  match l with [] => False | t0 :: l => tok_is t t0 /\ reads lex l end.

Definition pstate : Type := token * lexer * microjs_sdt.
Definition pstep (s s' : pstate) : Prop :=
  let '(t, lex, d) := s in let '(t', lex', d') := s' in compile_step libdef t lex d = Some (Go t' lex', d').

Abbreviation rep := (rep N cap).
Abbreviation does := (does N cap).

(** On top of at most [m] other symbols, the stack [ss] eats what [Q] leaves of
    the input [l]. *)
Definition parses (m : Z) (ss : list Z) (l : list token) (a : ast) (Q : list token -> ast -> Prop) : Prop :=
  forall rest t lex d, zlen rest <= m -> rep d a (ss ++ rest) -> inp l t lex ->
  exists t' lex' d' l' a', rtc pstep (t, lex, d) (t', lex', d') /\ inp l' t' lex' /\ rep d' a' rest /\ Q l' a'.

Lemma p_done m l a (Q : list token -> ast -> Prop) : Q l a -> parses m [] l a Q.
Proof. intros HQ rest t lex d Hm Hr Hi. exists t, lex, d, l, a. by split_and!; [apply rtc_refl|..]. Qed.

Lemma p_app m s1 s2 l a Q :
  parses (m + zlen s2) s1 l a (fun l a => parses m s2 l a Q) -> parses m (s1 ++ s2) l a Q.
Proof.
  clear HN. intros Hp rest t lex d Hm Hr Hi. rewrite <-app_assoc in Hr.
  destruct (Hp (s2 ++ rest) t lex d) as (t1 & lex1 & d1 & l1 & a1 & R1 & Hi1 & Hr1 & Hp1); [rewrite zlen_app; lia|done..|].
  destruct (Hp1 rest t1 lex1 d1 Hm Hr1 Hi1) as (t2 & lex2 & d2 & l2 & a2 & R2 & H2).
  exists t2, lex2, d2, l2, a2. split; [by etrans|done].
Qed.

Lemma p_mono m ss l a (P Q : list token -> ast -> Prop) :
  parses m ss l a P -> (forall l a, P l a -> Q l a) -> parses m ss l a Q.
Proof.
  intros Hp HPQ rest t lex d Hm Hr Hi. destruct (Hp rest t lex d Hm Hr Hi) as (t' & lex' & d' & l' & a' & ? & ? & ? & ?).
  exists t', lex', d', l', a'. auto.
Qed.

Lemma rep_pop d a s ls : rep d a (s :: ls) -> rep (lset ll ls d) a ls.
Proof. intros []. by split. Qed.

Lemma p_tok m s ss t0 l a Q :
  typ t0 = s -> s < NONTERM_BASE -> l <> [] ->
  (forall t, tok_is t t0 -> parses m ss l (at_tok t a) Q) -> parses m (s :: ss) (t0 :: l) a Q.
Proof.
  clear HN. intros Hs Hlt Hl Hp rest t lex d Hm Hr [Ht Hread]. destruct l as [|t1 l]; [done|].
  destruct Hread as (t1' & lex' & Hscan & Ht1 & Herr & Hread).
  destruct (Hp t Ht rest t1' lex' (lset ctok t (lset ll (ss ++ rest) d)) Hm) as (t' & lex'' & d' & l' & a' & R & H').
  { apply rep_pop in Hr. destruct Hr. by split. }
  { done. }
  exists t', lex'', d', l', a'. split; [|done]. eapply rtc_l; [|exact R].
  unfold pstep, compile_step, bind, get, put. simpl. rewrite (r_ll _ _ _ _ _ Hr). simpl.
  rewrite (proj2 (Z.ltb_lt _ _)) by done. destruct Ht as [Ht _]. rewrite Ht, Hs, Z.eqb_refl. simpl.
  unfold scan_next. rewrite Hscan. by rewrite (proj2 (Z.eqb_neq _ _) Herr).
Qed.

Lemma p_act m s ss l a Q :
  ACTION_BASE <= s ->
  does (action libdef s) a (fun r a => 0 <= r /\ zlen (a_cs a) < N /\ parses m ss l a Q) ->
  parses m (s :: ss) l a Q.
Proof.
  clear HN. intros Hs Hd rest t lex d Hm Hr Hi. change ((s :: ss) ++ rest) with (s :: (ss ++ rest)) in Hr.
  pose proof (Hd _ _ (rep_pop _ _ _ _ Hr)) as W. unfold wp in W.
  destruct (action libdef s (lset ll (ss ++ rest) d)) as [[r d1]|] eqn:E; [|done].
  destruct W as (a1 & Hr1 & Hge & Hlen & Hp).
  destruct (Hp rest t lex d1 Hm Hr1 Hi) as (t' & lex' & d' & l' & a' & R & H').
  exists t', lex', d', l', a'. split; [|done]. eapply rtc_l; [|exact R].
  unfold pstep, compile_step. unfold bind at 1, get at 1. change (lget ll d) with (d_ll d). rewrite (r_ll _ _ _ _ _ Hr).
  unfold bind at 1, put at 1. unfold ACTION_BASE, NONTERM_BASE in *.
  rewrite (proj2 (Z.ltb_ge _ _)), (proj2 (Z.leb_le _ _)) by lia. unfold bind at 1. rewrite E.
  rewrite (proj2 (Z.ltb_ge _ _)) by lia. unfold bind, get. simpl.
  rewrite (r_pc _ _ _ _ _ Hr1), (r_cdsz _ _ _ _ _ Hr1). by rewrite (proj2 (Z.leb_gt _ _)) by lia.
Qed.

Lemma p_nt m s ss t0 l a prod Q :
  NONTERM_BASE <= s < ACTION_BASE -> pushes s (typ t0) prod -> zlen (prod ++ ss) + m <= cap ->
  parses m (prod ++ ss) (t0 :: l) a Q -> parses m (s :: ss) (t0 :: l) a Q.
Proof.
  clear HN. intros Hs Hpush Hcap Hp rest t lex d Hm Hr Hi. change ((s :: ss) ++ rest) with (s :: (ss ++ rest)) in Hr.
  destruct (Hp rest t lex (lset ll (prod ++ ss ++ rest) d) Hm) as (t' & lex' & d' & l' & a' & R & H').
  { rewrite <-app_assoc. destruct Hr. by split. }
  { done. }
  exists t', lex', d', l', a'. split; [|done]. eapply rtc_l; [|exact R].
  unfold pstep, compile_step. unfold bind at 1, get at 1. change (lget ll d) with (d_ll d). rewrite (r_ll _ _ _ _ _ Hr).
  unfold bind at 1, put at 1. unfold ACTION_BASE, NONTERM_BASE in *.
  rewrite (proj2 (Z.ltb_ge _ _)), (proj2 (Z.leb_gt _ _)) by lia.
  destruct Hi as [[Ht _] _]. rewrite Ht, Hpush. unfold bind, put. simpl. rewrite (r_cap _ _ _ _ _ Hr).
  rewrite !zlen_app in *. by rewrite (proj2 (Z.ltb_ge _ _)) by lia.
Qed.

(** ** Expressions *)

Definition starts (F : list Z) (l : list token) : Prop :=
  match l with t :: _ => In (typ t) F | [] => False end.

(** Room for an expression of the tokens [ts] and [w] bytes of code: on the parser's
    stack, in the symbol table, in the code buffer, below the limit of the mark
    of the target's stack. *)
Definition fits (m : Z) (L : nat) (ts : list token) (w : Z) (a : ast) : Prop :=
  m + 16 * zlen ts - Z.of_nat L <= cap /\ 16 * zlen ts <= free (a_tab a) /\
  zlen (a_cs a) + w + 8 <= N /\ 0 <= a_pos a /\ a_pos a + 4 * zlen ts < 65532.

(** What an expression of [n] tokens leaves, a constant if [k]. *)
Definition wrote_exp (k : option Z) (bs : list Z) (n : Z) (a a' : ast) : Prop :=
  a_cs a' = a_cs a ++ bs /\ (exists z, a_tab a' = set_stack_sz z (a_tab a)) /\ a_dp a' = a_dp a /\
  a_pos a + 4 <= a_pos a' <= a_pos a + 4 * n /\
  exists pre ins, a_cs a' = pre ++ ins /\ a_spc a' = zlen pre /\ last_ins ins k /\ (k <> None -> pre = a_cs a).

(** Of one instruction. *)
Lemma wrote_one k bs n z a a' :
  a_cs a' = a_cs a ++ bs -> a_tab a' = set_stack_sz z (a_tab a) -> a_dp a' = a_dp a ->
  a_pos a + 4 <= a_pos a' <= a_pos a + 4 * n -> a_spc a' = zlen (a_cs a) -> last_ins bs k ->
  wrote_exp k bs n a a'.
Proof.
  intros Hcs Ht Hd Hp Hs Hk. split; [done|]. split; [by exists z|]. split; [done|]. split; [done|].
  by exists (a_cs a), bs.
Qed.
Lemma int_last v : - 2 ^ 31 <= v < 2 ^ 31 -> last_ins (int_bytes v) (Some v).
Proof. done. Qed.
Lemma op12_not_const opc a : opc = Js.OPC_LD -> not_const (opc + Z.land a 0xf).
Proof.
  intros ->. pose proof (nibble a) as Hn. revert Hn. generalize (Z.land a 15). intros n Hn.
  destruct n as [|p|]; [done| |lia]. do 4 (try destruct p as [p|p|]); (done || lia).
Qed.
Lemma not_const_last b l : not_const b -> last_ins (b :: l) None.
Proof. intros Hb. by exists b, l. Qed.

Section exps.
Variable c : ctx.
Hypothesis Hc : ctx_ok c.

Definition exp_parses (L : nat) (ts : list token) (e : exp) : Prop :=
  forall m l a bs, gen_exp libdef (vars c) e = Some bs -> scope_ok (a_tab a) c -> starts (follow L) l ->
    fits m L ts (code_room e bs) a ->
    parses m [nt L] (ts ++ l) a (fun l' a' => l' = l /\ wrote_exp (konst e) bs (zlen ts) a a').

Lemma nt_range L : (L <= 8)%nat -> NONTERM_BASE <= nt L < ACTION_BASE.
Proof. intros HL. do 9 (destruct L as [|L]; [done|]). lia. Qed.
Lemma tl_range L : (L < 7)%nat -> NONTERM_BASE <= tl L < ACTION_BASE.
Proof. intros HL. do 7 (destruct L as [|L]; [done|]). lia. Qed.

Lemma exp_up L ts e : (L < 7)%nat -> starts first_exp ts -> exp_parses (S L) ts e -> exp_parses L ts e.
Proof.
  intros HL Hfst He m l a bs Hg Hs Hl Hfit. pose proof Hfit as (Hm & Hfit').
  destruct ts as [|t0 ts]; [done|]. rewrite zlen_cons in Hm. pose proof (zlen_nonneg ts). simpl app.
  eapply p_nt; [apply nt_range; lia|by apply ll_down|change (zlen _) with 2; lia|].
  change ([nt (S L); tl L] ++ []) with ([nt (S L)] ++ [tl L]). apply p_app. change (zlen [tl L]) with 1.
  destruct l as [|t1 l]; [done|]. eapply p_mono.
  - apply (He (m + 1) (t1 :: l) a bs Hg Hs).
    + apply (follow_mono L); [lia|exact Hl].
    + split; [|done]. rewrite zlen_cons. lia.
  - intros l' a' [-> W]. eapply p_nt; [by apply tl_range|by apply ll_eps|change (zlen _) with 0; lia|].
    by apply p_done.
Qed.

Lemma exp_prim ts e : starts first_prim ts -> exp_parses 8 ts e -> exp_parses 7 ts e.
Proof.
  intros Hfst He m l a bs Hg Hs Hl Hfit. pose proof Hfit as (Hm & Hfit').
  destruct ts as [|t0 ts]; [done|]. rewrite zlen_cons in Hm. pose proof (zlen_nonneg ts). simpl app.
  eapply p_nt; [done|by apply ll_prim|change (zlen _) with 1; lia|].
  apply (He m l a bs Hg Hs Hl). split; [|done]. rewrite zlen_cons. lia.
Qed.

(** From any level down to a lower one. *)
Lemma exp_down L L' ts e :
  (L <= L' <= 8)%nat -> starts first_exp ts -> (L' = 8%nat -> starts first_prim ts) ->
  exp_parses L' ts e -> exp_parses L ts e.
Proof.
  intros HL Hf Hp He. remember (L' - L)%nat as n eqn:En. revert L HL En.
  induction n as [|n IH]; intros L HL En.
  - by replace L with L' by lia.
  - destruct (decide (L = 7%nat)) as [->|Hne].
    + assert (L' = 8%nat) by lia. apply exp_prim; [by apply Hp|]. apply IH; lia.
    + apply exp_up; [lia|done|]. apply IH; lia.
Qed.

Lemma exp_parens ts e :
  exp_parses 0 ts e -> exp_parses 8 (tk T_LPAREN :: ts ++ [tk T_RPAREN]) e.
Proof.
  intros He m l a bs Hg Hs Hl Hfit. pose proof Hfit as (Hm & Hfit'). rewrite zlen_cons, zlen_app, zlen_single in *.
  pose proof (zlen_nonneg ts). simpl app. rewrite <-app_assoc.
  eapply (p_nt _ _ _ _ _ _ [T_LPAREN; N_EXP; T_RPAREN]); [done|done|change (zlen _) with 3; lia|].
  apply p_tok; [done|done|by destruct ts|]. intros t _.
  change [N_EXP; T_RPAREN] with ([N_EXP] ++ [T_RPAREN]). simpl app. apply (p_app m [N_EXP] [T_RPAREN]). change (zlen [T_RPAREN]) with 1.
  eapply p_mono.
  - apply (He (m + 1) ([tk T_RPAREN] ++ l) (at_tok t a) bs Hg Hs).
    + simpl. tauto.
    + unfold fits in *. simpl. lia.
  - intros l' a' [-> W]. destruct l as [|t1 l]; [done|]. apply p_tok; [done|done|done|]. intros t' _.
    apply p_done. split; [done|]. destruct W as (? & ? & ? & ? & ?). unfold wrote_exp. simpl in *. split_and!; try done; lia.
Qed.

Lemma exp_int n : exp_parses 8 [tk_int n] (EInt n).
Proof.
  intros m l a bs Hg Hs Hl (Hm & Hfree & Hlen & Hp). injection Hg as <-. change (zlen [tk_int n]) with 1 in *.
  destruct l as [|t1 l]; [done|]. simpl app. pose proof (int_bytes_len (s32 n)). unfold code_room in Hlen. simpl in Hlen.
  eapply (p_nt _ _ _ _ _ _ [T_INT; A_OP_PUSH_INT]); [done|done|change (zlen _) with 2; lia|].
  apply p_tok; [done|done|done|]. intros t (Hty & _ & Ht). simpl. apply p_act; [done|].
  apply (does_push_int N cap HN (at_tok t a) n); [by apply Ht; rewrite Hty|simpl; lia|simpl; lia|].
  intros z. split; [done|]. split; [simpl; rewrite zlen_app; lia|]. apply p_done. split; [done|].
  apply (wrote_one _ _ _ z); simpl; try done; try lia. apply int_last, s32_range.
Qed.

Lemma exp_bit (b : bool) :
  exp_parses 8 [tk (if b then T_TRUE else T_FALSE)] (if b then ETrue else EFalse).
Proof.
  intros m l a bs Hg Hs Hl (Hm & Hfree & Hlen & Hp). change (zlen [_]) with 1 in *.
  assert (bs = int_bytes (if b then 1 else 0)) as -> by (by destruct b; injection Hg).
  destruct l as [|t1 l]; [done|]. simpl app. pose proof (int_bytes_len (if b then 1 else 0)).
  assert (code_room (if b then ETrue else EFalse) (int_bytes (if b then 1 else 0)) = 1) as E1 by by destruct b.
  rewrite E1 in Hlen.
  eapply (p_nt _ _ _ _ _ _ [if b then T_TRUE else T_FALSE; if b then A_OP_PUSH_TRUE else A_OP_PUSH_FALSE]);
    [done|by destruct b|change (zlen _) with 2; lia|].
  apply p_tok; [done|by destruct b|done|]. intros t _. simpl. apply p_act; [by destruct b|].
  replace (action libdef _) with (if b then op_push_true else op_push_false) by by destruct b.
  apply (does_push_bit N cap HN b (at_tok t a)); [simpl; lia|simpl; lia|].
  intros z. split; [done|]. split; [simpl; rewrite zlen_app; lia|]. apply p_done. split; [done|].
  apply (wrote_one _ _ _ z); simpl; try done; try lia. by destruct b.
Qed.

Lemma exp_var x : exp_parses 8 [tk_id x] (EVar x).
Proof.
  intros m l a bs Hg Hs Hl (Hm & Hfree & Hlen & Hp). change (zlen [_]) with 1 in *.
  simpl in Hg. destruct (address x (vars c)) as [ad|] eqn:Ead; [|done]. injection Hg as <-.
  destruct (lookup_scope _ _ _ _ Hs Ead) as (o & Ho & Hoa). pose proof Hc as (_ & Hadr & Hu & _).
  apply find_var_In in Ead. apply Hadr in Ead. change (code_room _ _) with 2 in Hlen.
  destruct l as [|t1 l]; [done|]. simpl app.
  eapply (p_nt _ _ _ _ _ _ [N_ID_EVAL]); [done|done|change (zlen _) with 1; lia|].
  eapply (p_nt _ _ _ _ _ _ [T_ID; A_OP_PUSH_TMP; N_ID_EVAL1]); [done|done|change (zlen _) with 3; lia|].
  apply p_tok; [done|done|done|]. intros t (Hty & Ht & _). simpl. apply p_act; [done|].
  apply does_push_tmp; [done..|simpl; lia|]. split; [done|]. split; [simpl; lia|]. simpl. rewrite Ht by by rewrite Hty.
  eapply (p_nt _ _ _ _ _ _ [A_OP_VAR_EVAL]); [done|by apply ll_var|change (zlen _) with 1; lia|].
  apply p_act; [done|]. eapply (does_var_eval N cap HN); [done|by eapply scope_ok_fp|exact Ho|lia|simpl; lia|simpl; lia|].
  intros z. split; [done|]. split; [simpl; rewrite zlen_app; change (zlen (op12 _ _)) with 2; lia|]. apply p_done. split; [done|].
  rewrite Hoa. apply (wrote_one _ _ _ z); simpl; try done; try lia.
  apply not_const_last. by apply op12_not_const.
Qed.

(** Another instruction behind what is there. *)
Lemma wrote_more bs b n z a a' :
  a_cs a' = a_cs a ++ bs ++ [b] -> a_tab a' = set_stack_sz z (a_tab a) -> a_dp a' = a_dp a ->
  a_pos a + 4 <= a_pos a' <= a_pos a + 4 * n -> a_spc a' = zlen (a_cs a ++ bs) -> not_const b ->
  wrote_exp None (bs ++ [b]) n a a'.
Proof.
  intros Hcs Ht Hd Hp Hs Hk. split; [done|]. split; [by exists z|]. split; [done|]. split; [done|].
  exists (a_cs a ++ bs), [b]. rewrite Hcs. split_and!; try done; [by rewrite <-app_assoc|by exists b, []].
Qed.

Lemma exp_unary o e : exp_parses 7 (toks 7 e) e -> exp_parses 7 (tk (un_tok o) :: toks 7 e) (EUn o e).
Proof.
  intros He m l a bs Hg Hs Hl (Hm & Hfree & Hlen & Hp). rewrite zlen_cons in *. pose proof (zlen_nonneg (toks 7 e)).
  destruct (gen_un _ _ _ _ _ Hg) as (be & Hbe & Hbs). simpl app.
  assert (Hw : code_room (EUn o e) bs = match o, konst e with Minus, Some _ => 1 | _, _ => zlen be + 1 end).
  { unfold code_room. destruct o, (konst e) as [v|]; destruct Hbs as [-> ->]; rewrite ?zlen_app, ?zlen_single; done. }
  rewrite Hw in Hlen. remember (konst (EUn o e)) as K eqn:EK. clear EK. pose proof (gen_exp_len _ _ _ _ Hbe). pose proof (code_room_le _ _ _ _ Hbe).
  eapply p_nt; [done|apply ll_un|change (zlen _) with 3; lia|].
  apply p_tok; [done|by destruct o|by destruct (toks_first 7 e) as (? & ? & -> & _)|]. intros t _.
  apply (p_app m [N_UNARY_EXP] [un_sym o]). change (zlen [_]) with 1.
  eapply p_mono.
  { apply (He (m + 1) l (at_tok t a) be Hbe Hs Hl). unfold fits. simpl. unfold code_room in *.
    destruct o, (konst e); lia. }
  intros l' a' [-> (Hcs & (z & Ht) & Hd & Hp' & pre & ins & Hcs' & Hspc & Hk & Hpre)]. simpl in *.
  assert (Hkb : forall v, konst e = Some v -> pre = a_cs a /\ be = int_bytes v).
  { intros v E. rewrite E in *. rewrite (Hpre ltac:(done)) in *. split; [done|]. destruct Hk as [-> _].
    rewrite Hcs in Hcs'. by apply app_inv_head in Hcs'. }
  assert (Hl5 : zlen (a_cs a') + 2 <= N).
  { rewrite Hcs, zlen_app. destruct (konst e) as [v|]; [|destruct o; lia]. destruct (Hkb v eq_refl) as [_ ->].
    pose proof (int_bytes_len v). destruct o; lia. }
  apply p_act; [by destruct o|]. replace (action libdef (un_sym o)) with (un_act o) by by destruct o.
  eapply (does_un N cap HN o pre ins (konst e)); [done|done|done| |lia|].
  { intros Hne. rewrite Hpre by done. destruct o, (konst e); lia. }
  assert (Hadd : K = None -> bs = be ++ [un_opc o] -> 0 <= 0 /\
    zlen (a_cs (add [un_opc o] (at_spc (zlen (a_cs a')) a'))) < N /\
    parses m [] l (add [un_opc o] (at_spc (zlen (a_cs a')) a'))
      (fun l' a' => l' = l /\ wrote_exp K bs (zlen (toks 7 e) + 1) a a')).
  { intros Ek ->. split; [done|]. split; [simpl; rewrite zlen_app, zlen_single; lia|]. apply p_done. split; [done|].
    rewrite Ek. apply (wrote_more _ _ _ z); simpl; try done; try lia; [by rewrite Hcs, <-app_assoc|by rewrite Hcs|apply un_not_const]. }
  destruct o; [by destruct Hbs; apply Hadd| |by destruct Hbs; apply Hadd].
  destruct (konst e) as [v|] eqn:Ek; destruct Hbs as [Ek' Hbs]; [|by apply Hadd].
  destruct (Hkb v eq_refl) as [-> ->]. split; [done|]. pose proof (int_bytes_len (s32 (- v))).
  split; [simpl; rewrite zlen_app; lia|]. apply p_done. split; [done|]. rewrite Ek', Hbs.
  apply (wrote_one _ _ _ z); simpl; try done; try lia. apply int_last, s32_range.
Qed.

Lemma exp_binary o e1 e2 :
  let L := bin_level o in
  exp_parses (S L) (toks (S L) e1) e1 -> exp_parses L (toks L e2) e2 ->
  exp_parses L (toks (S L) e1 ++ tk (bin_tok o) :: toks L e2) (EBin o e1 e2).
Proof.
  intros L He1 He2 m l a bs Hg Hs Hl (Hm & Hfree & Hlen & Hp).
  destruct (gen_bin _ _ _ _ _ _ Hg) as (ca & cb & Hca & Hcb & ->). pose proof (bin_level_lt o) as HL. fold L in HL.
  change (code_room _ ?x) with (zlen x) in Hlen. rewrite !zlen_app, zlen_cons in *.
  pose proof (zlen_nonneg (toks (S L) e1)). pose proof (zlen_nonneg (toks L e2)).
  pose proof (code_room_le _ _ _ _ Hca). pose proof (code_room_le _ _ _ _ Hcb). pose proof (zlen_nonneg cb).
  assert (Hroom : zlen (a_cs a) + zlen ca + code_room e2 cb + 8 <= N).
  { destruct (folded o (konst e2)) eqn:Ef; rewrite !zlen_app, ?zlen_single in Hlen; [|lia].
    destruct (folded_not_const _ _ _ Ef) as [_ [v Ev]]. unfold code_room. rewrite Ev. lia. }
  pose proof (gen_exp_len _ _ _ _ Hcb).
  assert (Hroom' : zlen (a_cs a) + zlen ca + 9 <= N).
  { destruct (folded o (konst e2)); rewrite !zlen_app, ?zlen_single in Hlen; lia. }
  destruct (toks_first (S L) e1) as (t0 & l0 & E0 & Hf0).
  rewrite E0. simpl app. eapply p_nt; [apply nt_range; lia|by apply ll_down|change (zlen _) with 2; lia|].
  change (t0 :: (l0 ++ ?x) ++ l) with ((t0 :: l0 ++ x) ++ l). change (t0 :: l0 ++ ?x) with ((t0 :: l0) ++ x). rewrite <-E0.
  rewrite <-app_assoc. apply (p_app m [nt (S L)] [tl L]). change (zlen [_]) with 1. eapply p_mono.
  { apply (He1 (m + 1) ((tk (bin_tok o) :: toks L e2) ++ l) a ca Hca Hs); [apply op_follows; unfold L; lia|].
    unfold fits. lia. }
  intros l' a1 [-> (Hcs1 & (z1 & Ht1) & Hd1 & Hp1 & _)]. simpl app.
  eapply p_nt; [by apply tl_range|apply ll_op|change (zlen _) with 3; lia|]. fold L.
  apply p_tok; [done|by destruct o|by destruct (toks_first L e2) as (? & ? & -> & _)|]. intros t _.
  apply (p_app m [nt L] [bin_sym o]). change (zlen [_]) with 1. eapply p_mono.
  { apply (He2 (m + 1) l (at_tok t a1) cb Hcb); [by simpl; rewrite Ht1|done|].
    unfold fits. simpl. rewrite Ht1, Hcs1, zlen_app. change (free (set_stack_sz z1 (a_tab a))) with (free (a_tab a)). lia. }
  intros l' a2 [-> (Hcs2 & (z2 & Ht2) & Hd2 & Hp2 & pre & ins & Hcs2' & Hspc & Hk & Hpre)]. simpl in *.
  assert (Hl1 : zlen (a_cs a2) + 2 <= N).
  { rewrite Hcs2, Hcs1, !zlen_app. unfold code_room in Hroom. destruct (konst e2) as [v|] eqn:Ek; [|lia].
    rewrite (konst_gen _ _ _ _ Ek) in Hcb. injection Hcb as <-. pose proof (int_bytes_len v). lia. }
  apply p_act; [by destruct o|]. replace (action libdef (bin_sym o)) with (bin_act o) by by destruct o.
  eapply (does_bin N cap HN o pre ins (konst e2)); [done|done|done|lia|lia|].
  destruct (folded o (konst e2)) as [opc|] eqn:Ef.
  - intros p Hpp. destruct (folded_not_const _ _ _ Ef) as [Hnc [v Ev]]. rewrite Ev in Hpre.
    specialize (Hpre ltac:(done)) as ->. split; [done|].
    split; [simpl; rewrite Hcs1, !zlen_app, zlen_single; lia|]. apply p_done. split; [done|].
    apply (wrote_more _ _ _ z2); simpl; try done; try lia.
    + by rewrite Hcs1, <-app_assoc.
    + by rewrite Ht2, Ht1.
    + by rewrite Hspc, Hcs1.
  - split; [done|]. split; [simpl; rewrite zlen_app, zlen_single; lia|]. apply p_done. split; [done|].
    rewrite app_assoc. apply (wrote_more _ _ _ z2); simpl; try done; try lia.
    + by rewrite Hcs2, Hcs1, <-!app_assoc.
    + by rewrite Ht2, Ht1.
    + by rewrite Hcs2, Hcs1, <-!app_assoc.
    + apply bin_not_const.
Qed.

(** *** Calls *)

Definition parses_anywhere (e : exp) : Prop := forall L, (L <= 8)%nat -> exp_parses L (toks L e) e.

Lemma commas_tail {A} (f : A -> list token) x l :
  concat (map (fun x => tk T_COMMA :: f x) (x :: l)) = tk T_COMMA :: commas f (x :: l).
Proof. done. Qed.

Lemma args_parse xid lo hi rt args : Forall parses_anywhere args -> args <> [] ->
  forall m l a cs k t,
    gen_all (gen_exp libdef (vars c)) args = Some cs ->
    a_tab a = set_stk (Call xid k lo hi rt :: t_stk t) t -> scope_ok t c -> 0 <= k -> k + zlen args < 256 ->
    let ts := commas (toks 0) args in
    m + 16 * zlen ts + 3 <= cap -> 16 * zlen ts + 5 <= free t -> zlen (a_cs a) + zlen cs + 8 <= N ->
    0 <= a_pos a -> a_pos a + 4 * zlen ts < 65532 ->
    parses m [N_ARG_LIST] (ts ++ tk T_RPAREN :: l) a (fun l' a' =>
      l' = tk T_RPAREN :: l /\ a_cs a' = a_cs a ++ cs /\
      (exists z, a_tab a' = set_stk (Call xid (k + zlen args) lo hi rt :: t_stk t) (set_stack_sz z t)) /\
      a_dp a' = a_dp a /\ a_pos a + 4 * zlen args <= a_pos a' <= a_pos a + 4 * zlen ts).
Proof.
  induction 1 as [|e args He Hargs IH]; [done|]. intros _ m l a cs k t Hg Ht Hs Hk Hn ts Hm Hfree Hlen Hp Hp'.
  simpl in Hg. destruct (gen_exp libdef (vars c) e) as [ce|] eqn:Ee; [|done]. simpl in Hg.
  destruct (gen_all (gen_exp libdef (vars c)) args) as [cs'|] eqn:Es; [|done]. injection Hg as <-.
  set (tl := concat (map (fun x => tk T_COMMA :: toks 0 x) args)).
  assert (Hts : ts = toks 0 e ++ tl) by done. rewrite Hts, !zlen_app, zlen_cons in *.
  pose proof (zlen_nonneg (toks 0 e)). pose proof (zlen_nonneg tl). pose proof (zlen_nonneg args).
  pose proof (code_room_le _ _ _ _ Ee). pose proof (zlen_nonneg cs').
  assert (Htl : exists x y, tl ++ tk T_RPAREN :: l = x :: y /\ In (typ x) (follow 0)).
  { unfold tl. destruct args; simpl; eexists _, _; (split; [done|]); simpl; tauto. }
  destruct (toks_first 0 e) as (t0 & l0 & E0 & Hf0). destruct (ll_args _ Hf0) as [_ Hpush].
  rewrite <-app_assoc, E0. simpl app.
  eapply p_nt; [done|exact Hpush|change (zlen _) with 3; rewrite E0, zlen_cons in *; pose proof (zlen_nonneg l0); lia|].
  change (t0 :: l0 ++ ?x) with ((t0 :: l0) ++ x). rewrite <-E0.
  apply (p_app m [N_EXP] [A_OP_ARG; N_ARG_LIST1]). change (zlen [_; _]) with 2. eapply p_mono.
  { apply (He 0%nat ltac:(lia) (m + 2) (tl ++ tk T_RPAREN :: l) a ce Ee).
    - rewrite Ht. by apply scope_ok_push.
    - destruct Htl as (x & y & -> & Hx). exact Hx.
    - unfold fits. rewrite Ht, free_push. simpl. lia. }
  intros l' a1 [-> (Hcs1 & (z & Ht1) & Hd1 & Hp1 & _)].
  apply p_act; [done|]. rewrite Ht in Ht1.
  eapply (does_arg N cap HN a1 (set_stack_sz z t) xid k lo hi rt); [exact Ht1|by eapply (scope_ok_fp t)| |lia|].
  { change (free (set_stack_sz z t)) with (free t). lia. }
  split; [done|]. split; [simpl; rewrite Hcs1, zlen_app; lia|].
  destruct args as [|e' args].
  - unfold tl. simpl app. injection Es as <-.
    eapply (p_nt _ _ _ _ _ _ []); [done|done|change (zlen _) with 0; lia|]. apply p_done.
    simpl. rewrite app_nil_r, Hd1. change (zlen []) with 0 in *. split_and!; try done; try lia. by exists z.
  - assert (Etl : tl = tk T_COMMA :: commas (toks 0) (e' :: args)) by done.
    pose proof (zlen_cons (tk T_COMMA) (commas (toks 0) (e' :: args))) as Ez. rewrite <-Etl in Ez. rewrite Etl.
    change ((tk T_COMMA :: ?x) ++ ?y) with (tk T_COMMA :: (x ++ y)).
    eapply (p_nt _ _ _ _ _ _ [T_COMMA; N_ARG_LIST]); [done|done|change (zlen _) with 2; lia|].
    apply p_tok; [done|done| |].
    { destruct (toks_first 0 e') as (? & ? & E & _). unfold commas. by rewrite E. }
    intros t1 _. eapply p_mono.
    { eapply (IH ltac:(done) m l _ cs' (k + 1) (set_stack_sz z t)); try done; simpl a_pos; simpl a_cs; try lia.
      - change (free (set_stack_sz z t)) with (free t). lia.
      - rewrite Hcs1, zlen_app. lia. }
    intros l' a2 (-> & Hcs2 & (z2 & Ht2) & Hd2 & Hp2). simpl a_pos in *. simpl a_dp in *. simpl a_cs in *.
    rewrite <-Etl. split_and!; try done; try lia.
    + by rewrite Hcs2, Hcs1, <-app_assoc.
    + exists z2. rewrite Ht2. by replace (k + (zlen (e' :: args) + 1)) with (k + 1 + zlen (e' :: args)) by lia.
Qed.

Lemma call_parse f args xid rt : Forall parses_anywhere args ->
  forall m l a cs t,
    let ts := tk T_LPAREN :: commas (toks 0) args ++ [tk T_RPAREN] in let n := zlen args in
    gen_all (gen_exp libdef (vars c)) args = Some cs -> fun_def libdef f n = Some (xid, rt) ->
    a_tab a = set_stk (Tmp f :: t_stk t) t -> scope_ok t c -> l <> [] ->
    m + 16 * zlen ts <= cap -> 16 * zlen ts <= free t -> zlen (a_cs a) + zlen cs + 11 <= N ->
    0 <= a_pos a -> a_pos a + 4 * zlen ts + 4 * rt < 65540 ->
    parses m [N_FUNCTION_CALL] (ts ++ l) a (fun l' a' => l' = l /\ a_cs a' = a_cs a ++ cs ++ [Js.OPC_EXT; xid; n] /\
      (exists z lo hi, a_tab a' = set_stk (Call xid n lo hi rt :: t_stk t) (set_stack_sz z t)) /\
      a_dp a' = a_dp a /\ a_spc a' = zlen (a_cs a ++ cs) /\
      a_pos a + 4 * rt <= a_pos a' <= a_pos a + 4 * zlen ts + 4 * rt - 8).
Proof.
  intros Hargs m l a cs t ts n Hg Hf Ht Hs Hl Hm Hfree Hlen Hp Hp'.
  destruct (fun_def_ok _ _ _ _ _ Hf) as (x & _ & _ & _ & _ & _ & Hxid & Hn & Hrt).
  assert (Hts : zlen ts = zlen (commas (toks 0) args) + 2) by (unfold ts; rewrite zlen_cons, zlen_app, zlen_single; lia).
  pose proof (zlen_nonneg (commas (toks 0) args)). pose proof (zlen_nonneg args). pose proof (zlen_nonneg cs).
  pose proof (scope_ok_fp _ _ Hs) as Hsp. fold n in H1.
  unfold ts. change ((tk T_LPAREN :: ?x) ++ l) with (tk T_LPAREN :: (x ++ l)). rewrite <-app_assoc.
  eapply (p_nt _ _ _ _ _ _ [A_OP_FUNCTION_LOOKUP; T_LPAREN; N_ARG_LIST_OPT; T_RPAREN; A_OP_CALL]);
    [done|done|change (zlen _) with 5; lia|].
  apply p_act; [done|]. eapply (does_function_lookup libdef N cap HN a t f n xid rt); [done|done|done|lia|].
  intros lo hi Hb. split; [done|]. split; [simpl; lia|].
  apply p_tok; [done|done|by destruct (commas (toks 0) args)|]. intros tk1 _.
  (** the arguments *)
  assert (Hopt : forall Q, (forall a1 z, a_cs a1 = a_cs a ++ cs ->
      a_tab a1 = set_stk (Call xid n lo hi rt :: t_stk t) (set_stack_sz z t) -> a_dp a1 = a_dp a ->
      a_pos a + 4 * n <= a_pos a1 <= a_pos a + 4 * zlen (commas (toks 0) args) -> Q (tk T_RPAREN :: l) a1) ->
    parses (m + 2) [N_ARG_LIST_OPT] (commas (toks 0) args ++ [tk T_RPAREN] ++ l)
      (at_tok tk1 (at_tab (set_stk (Call xid 0 lo hi rt :: t_stk t) t) a)) Q).
  { intros Q HQ. destruct args as [|e args].
    - injection Hg as <-. eapply (p_nt _ _ _ _ _ _ []); [done|done|change (zlen _) with 0; lia|]. apply p_done.
      apply (HQ _ (t_stack_sz t)); simpl; rewrite ?app_nil_r; try done. unfold n. change (zlen []) with 0. lia.
    - destruct (toks_first 0 e) as (t0 & l0 & E0 & Hf0). destruct (ll_args _ Hf0) as [Hpush _].
      assert (E : exists l1, commas (toks 0) (e :: args) = t0 :: l1) by (simpl; rewrite E0; by eexists).
      destruct E as [l1 E]. rewrite E. simpl app.
      eapply p_nt; [done|exact Hpush|change (zlen _) with 1; lia|].
      change (t0 :: l1 ++ ?x) with ((t0 :: l1) ++ x). rewrite <-E.
      eapply p_mono.
      { eapply (args_parse xid lo hi rt (e :: args) Hargs ltac:(done) (m + 2) l _ cs 0 t); try done; simpl a_pos; simpl a_cs; lia. }
      intros l' a1 (-> & Hcs1 & (z & Ht1) & Hd1 & Hp1). by apply (HQ a1 z). }
  apply (p_app m [N_ARG_LIST_OPT] [T_RPAREN; A_OP_CALL]). change (zlen [_; _]) with 2. apply Hopt.
  intros a1 z Hcs1 Ht1 Hd1 Hp1. apply p_tok; [done|done|done|]. intros tk2 _. apply p_act; [done|].
  eapply (does_call N cap HN (at_tok tk2 a1) (set_stack_sz z t) xid n lo hi rt); try done; simpl.
  - change (free (set_stack_sz z t)) with (free t). lia.
  - rewrite Hcs1, zlen_app. lia.
  - lia.
  - split; [done|]. split; [rewrite Hcs1, !zlen_app; change (zlen [_; _; n]) with 3; lia|]. apply p_done. simpl.
    split; [done|]. split; [by rewrite Hcs1, <-app_assoc|]. split; [by exists z, lo, hi|].
    split; [done|]. split; [by rewrite Hcs1|]. fold ts. lia.
Qed.

Lemma exp_call f args : Forall parses_anywhere args ->
  exp_parses 8 (toks 8 (ECall f args)) (ECall f args).
Proof.
  intros Hargs m l a bs Hg Hs Hl (Hm & Hfree & Hlen & Hp). simpl in Hg.
  destruct (gen_all (gen_exp libdef (vars c)) args) as [cs|] eqn:E1; [|done]. simpl in Hg.
  destruct (fun_def libdef f (zlen args)) as [[xid rt]|] eqn:E2; [|done]. simpl in Hg.
  destruct (gen_call xid (zlen args) (rt - 1)) as [c2|] eqn:E3; [|done]. injection Hg as <-.
  destruct (gen_call_inv _ _ _ _ E3) as (c3 & -> & Hc3).
  change (code_room _ ?x) with (zlen x) in Hlen.
  assert (Hrt : 0 <= rt <= 2) by (destruct (fun_def_xid _ _ _ _ _ E2); lia).
  set (ts := tk T_LPAREN :: commas (toks 0) args ++ [tk T_RPAREN]).
  change (toks 8 (ECall f args)) with (tk_id f :: ts) in *. rewrite !zlen_app, zlen_cons in *.
  change (zlen [_; _; zlen args]) with 3 in Hlen.
  pose proof (zlen_nonneg ts). pose proof (zlen_nonneg cs). pose proof (zlen_nonneg c3).
  remember (zlen ts + 1) as tot eqn:Etot.
  destruct l as [|t1 l]; [done|]. change ((tk_id f :: ts) ++ t1 :: l) with (tk_id f :: (ts ++ t1 :: l)).
  eapply (p_nt _ _ _ _ _ _ [N_ID_EVAL]); [done|done|change (zlen _) with 1; lia|].
  eapply (p_nt _ _ _ _ _ _ [T_ID; A_OP_PUSH_TMP; N_ID_EVAL1]); [done|done|change (zlen _) with 3; lia|].
  apply p_tok; [done|done|done|]. intros t (Hty & Ht & _). simpl app. apply p_act; [done|].
  apply (does_push_tmp N cap HN); [simpl; lia|]. split; [done|]. split; [simpl; lia|].
  change (t_s (a_tok (at_tok t a))) with (t_s t). rewrite Ht by by rewrite Hty. change (t_s (tk_id f)) with f.
  unfold ts. change ((tk T_LPAREN :: ?x) ++ ?y) with (tk T_LPAREN :: (x ++ y)).
  eapply (p_nt _ _ _ _ _ _ [N_FUNCTION_CALL; A_OP_CALL_RET]); [done|done|change (zlen _) with 2; lia|].
  change (tk T_LPAREN :: (?x ++ ?y)) with ((tk T_LPAREN :: x) ++ y). fold ts.
  apply (p_app m [N_FUNCTION_CALL] [A_OP_CALL_RET]). change (zlen [_]) with 1. eapply p_mono.
  { eapply (call_parse f args xid rt Hargs (m + 1) (t1 :: l) _ cs (a_tab a)); try done; fold ts; simpl a_pos; simpl a_cs; lia. }
  intros l' a1 (-> & Hcs1 & (z & lo & hi & Ht1) & Hd1 & Hs1 & Hp1). fold ts in Hp1. simpl a_pos in *. simpl a_cs in *. simpl a_dp in *.
  apply p_act; [done|].
  apply (does_drop N cap HN a1 (set_stack_sz z (a_tab a)) xid (zlen args) lo hi rt 1 c3); try done.
  - by eapply (scope_ok_fp (a_tab a)).
  - by right.
  - lia.
  - rewrite Hcs1, !zlen_app. change (zlen [_; _; zlen args]) with 3. lia.
  - lia.
  - lia.
  - intros s Hs0 Hs1'. split; [done|].
    split; [simpl; rewrite Hcs1, !zlen_app; change (zlen [_; _; zlen args]) with 3; lia|].
    apply p_done. split; [done|]. split; [simpl; by rewrite Hcs1, <-!app_assoc|]. split; [by exists z|].
    split; [done|]. split; [simpl; lia|]. destruct Hc3 as [[_ ->]|[_ ->]].
    + exists (a_cs a ++ cs), [Js.OPC_EXT; xid; zlen args]. simpl. rewrite app_nil_r, Hcs1, <-app_assoc.
      split_and!; [done|by rewrite Hs0, Hs1|by eexists _, _|done].
    + exists (a_cs a1), [Js.OPC_POP]. simpl. split_and!; [done|by rewrite Hs1'|by eexists _, _|done].
Qed.

(** *** Every expression, at every level *)

Lemma at_levels e ts :
  (forall L, (L <= 8)%nat -> toks L e = parens (level e) L ts) -> exp_parses (level e) ts e -> parses_anywhere e.
Proof.
  intros Hts He L HL. pose proof (level_le e) as Hle.
  assert (E0 : toks 0 e = ts) by (by rewrite Hts by lia).
  assert (Hf : starts first_exp ts).
  { destruct (toks_first 0 e) as (t & l & E & Ht). rewrite <-E0, E. exact Ht. }
  assert (Hp : level e = 8%nat -> starts first_prim ts).
  { intros E. destruct (toks_prim 0 e E) as (t & l & E' & Ht). rewrite <-E0, E'. exact Ht. }
  assert (Hdown : forall L, (L <= level e)%nat -> exp_parses L ts e).
  { intros L' HL'. by apply (exp_down L' (level e)). }
  rewrite Hts by done. unfold parens. destruct (Nat.ltb_spec (level e) L) as [Hlt|Hge]; [|by apply Hdown].
  apply (exp_down L 8); [lia|simpl; tauto|simpl; tauto|]. apply exp_parens, Hdown. lia.
Qed.

Theorem exps_parse e : parses_anywhere e.
Proof.
  induction e as [n| | |x|o e IH|o e1 e2 IH1 IH2|f args IH] using exp_nested.
  - apply (at_levels _ [tk_int n]); [|apply exp_int]. by intros L HL; unfold parens; do 9 (destruct L as [|L]; [done|]); lia.
  - apply (at_levels _ [tk T_TRUE]); [|apply (exp_bit true)].
    by intros L HL; unfold parens; do 9 (destruct L as [|L]; [done|]); lia.
  - apply (at_levels _ [tk T_FALSE]); [|apply (exp_bit false)].
    by intros L HL; unfold parens; do 9 (destruct L as [|L]; [done|]); lia.
  - apply (at_levels _ [tk_id x]); [|apply exp_var].
    by intros L HL; unfold parens; do 9 (destruct L as [|L]; [done|]); lia.
  - apply (at_levels _ (tk (un_tok o) :: toks 7 e)); [done|]. apply exp_unary, IH. lia.
  - apply (at_levels _ (toks (S (bin_level o)) e1 ++ tk (bin_tok o) :: toks (bin_level o) e2)); [done|].
    pose proof (bin_level_lt o). apply exp_binary; [apply IH1|apply IH2]; lia.
  - apply (at_levels _ (toks 8 (ECall f args))); [|by apply exp_call].
    by intros L HL; unfold parens; do 9 (destruct L as [|L]; [done|]); lia.
Qed.
End exps.
End parse.
