(* ===== verification/JsComp.v ===== *)
(** * MicroJS: the compiler writes the code of the program

    Statements, blocks and programs through the parser: the code buffer gets the
    code of [gen_prog], jumps patched, the symbol table the scopes of [JsGen.v]. *)

From S2P Require Import Prelude Js JsLl JsLex JsSym JsSdt JsLang JsGen JsVm JsScope JsTab JsAct JsParse.
From stdpp Require Import relations.
Open Scope Z_scope.
Import Ll Lex Sym Sdt Lang Gen.

(** Bytes of the symbol table for an input: a share of each token, and names. *)
Definition cost (ts : list token) : Z := foldr (fun t n => 16 + zlen (t_s t) + n) 0 ts.
Lemma cost_cons t ts : cost (t :: ts) = 16 + zlen (t_s t) + cost ts.
Proof. done. Qed.
Lemma cost_app ts ts' : cost (ts ++ ts') = cost ts + cost ts'.
Proof. induction ts as [|t ts IH]; [done|]. simpl app. rewrite !cost_cons, IH. lia. Qed.
Lemma cost_len ts : 16 * zlen ts <= cost ts.
Proof. induction ts as [|t ts IH]; [done|]. rewrite zlen_cons, cost_cons. pose proof (zlen_nonneg (t_s t)). lia. Qed.

(** The table with its marks of stack and data moved. *)
Definition resized (z d : Z) (t : symtab) : symtab := set_data_sz d (set_stack_sz z t).

Section comp.
Context `{JsConfig}.
Variable libdef : ext_libdef.
Variables N cap : Z.
Hypothesis HN : 0 <= N < 65536.

Abbreviation parses := (parses libdef N cap).

Lemma scope_ok_sized z t c : scope_ok t c -> scope_ok (set_stack_sz z t) c.
Proof. done. Qed.

(** A production. *)
Ltac expand prod := eapply (p_nt _ _ _ _ _ _ _ _ _ prod);
  [done|done|let n := eval compute in (zlen prod) in change (zlen _) with n; lia|].
Ltac token := apply p_tok; [done|done|done|].

(** ** Expressions, with their resources as numbers *)

Lemma exp_here c e m l a bs :
  ctx_ok c -> gen_exp libdef (vars c) e = Some bs -> scope_ok (a_tab a) c -> starts (follow 0) l ->
  m + 16 * zlen (toks 0 e) <= cap -> 16 * zlen (toks 0 e) <= free (a_tab a) ->
  zlen (a_cs a) + zlen bs + 8 <= N -> 0 <= a_pos a -> a_pos a + 4 * zlen (toks 0 e) < 65532 ->
  parses m [N_EXP] (toks 0 e ++ l) a (fun l' a' => l' = l /\ a_cs a' = a_cs a ++ bs /\
    (exists z, a_tab a' = set_stack_sz z (a_tab a)) /\ a_dp a' = a_dp a /\
    a_pos a + 4 <= a_pos a' <= a_pos a + 4 * zlen (toks 0 e)).
Proof.
  intros Hc Hg Hs Hl Hm Hfree Hlen Hp Hp'. pose proof (code_room_le _ _ _ _ Hg).
  eapply p_mono.
  - apply (exps_parse libdef N cap HN c Hc e 0%nat ltac:(lia) m l a bs Hg Hs Hl). unfold fits. lia.
  - intros l' a' [-> (? & ? & ? & ? & _)]. done.
Qed.

(** ** Assignments and calls *)

(** [n] tokens of an item are eaten. *)
Definition wrote_item (bs : list Z) (n : Z) (a a' : ast) : Prop :=
  a_cs a' = a_cs a ++ bs /\ (exists z, a_tab a' = set_stack_sz z (a_tab a)) /\ a_dp a' = a_dp a /\
  a_pos a <= a_pos a' <= a_pos a + 4 * n.
(** Room for a construct of the tokens [ts] and [w] bytes of code. *)
Definition sfits (m : Z) (ts : list token) (w : Z) (a : ast) : Prop :=
  m + 16 * zlen ts <= cap /\ cost ts <= free (a_tab a) /\ zlen (a_cs a) + w + 8 <= N /\
  0 <= a_pos a /\ a_pos a + 4 * zlen ts < 65532.

Lemma lookup_addr c t x ad : ctx_ok c -> scope_ok t c -> address x (vars c) = Some ad ->
  exists o, sym_obj_lookup x t = Some o /\ o_addr o = ad /\ 0 <= ad < 16384.
Proof.
  intros (_ & Hadr & Hu & _) Hs Ha. destruct (lookup_scope _ _ _ _ Hs Ha) as (o & Ho & Hoa).
  exists o. split_and!; try done; apply find_var_In, Hadr in Ha; lia.
Qed.

Lemma item_parse c i m l a bs :
  ctx_ok c -> gen_item libdef (vars c) i = Some bs -> scope_ok (a_tab a) c -> starts (follow 0) l ->
  sfits m (item_toks i) (zlen bs) a ->
  parses m [T_ID; A_OP_PUSH_TMP; N_ASSIGN_OR_CALL1] (item_toks i ++ l) a
    (fun l' a' => l' = l /\ wrote_item bs (zlen (item_toks i)) a a').
Proof.
  intros Hc Hg Hs Hl (Hm & Hfree & Hlen & Hp & Hp'). pose proof (cost_len (item_toks i)) as Hcost.
  pose proof (scope_ok_fp _ _ Hs) as Hsp. destruct l as [|t1 l]; [done|].
  destruct i as [x e|f args]; simpl in Hg.
  - destruct (gen_exp libdef (vars c) e) as [ce|] eqn:Ee; [|done]. simpl in Hg.
    destruct (address x (vars c)) as [ad|] eqn:Ea; [|done]. injection Hg as <-.
    destruct (lookup_addr _ _ _ _ Hc Hs Ea) as (o & Ho & Hoa & Had).
    change (item_toks (IAssign x e)) with (tk_id x :: tk T_EQUALS :: toks 0 e) in *.
    rewrite !zlen_cons, zlen_app in *. change (zlen (op12 _ _)) with 2 in *. pose proof (zlen_nonneg (toks 0 e)). pose proof (gen_exp_len libdef _ _ _ Ee).
    simpl app. token. intros t (Hty & Ht & _). apply p_act; [done|].
    apply (does_push_tmp N cap HN); [simpl; lia|]. split; [done|]. split; [simpl; lia|].
    change (t_s (a_tok (at_tok t a))) with (t_s t). rewrite Ht by by rewrite Hty. change (t_s (tk_id x)) with x.
    expand [T_EQUALS; N_EXP; A_OP_VAR_ASSIGN].
    apply p_tok; [done|done|by destruct (toks 0 e)|]. intros t2 _.
    apply (p_app _ _ _ m [N_EXP] [A_OP_VAR_ASSIGN]). change (zlen [_]) with 1. eapply p_mono.
    { eapply (exp_here c e (m + 1) (t1 :: l) _ ce Hc Ee); try done; simpl; try lia; [by apply scope_ok_push|].
      rewrite free_push. simpl. lia. }
    intros l' a1 (-> & Hcs1 & (z & Ht1) & Hd1 & Hp1). simpl in *. apply p_act; [done|].
    eapply (does_var_assign N cap HN a1 (set_stack_sz z (a_tab a)) x o); try done; try lia.
    { rewrite Hcs1, zlen_app. lia. }
    split; [done|]. split; [simpl; rewrite Hcs1, !zlen_app; change (zlen (op12 _ _)) with 2; lia|].
    apply p_done. split; [done|]. split; [simpl; by rewrite Hcs1, Hoa, <-app_assoc|]. split; [by exists z|].
    split; [done|]. simpl. lia.
  - destruct (gen_all (gen_exp libdef (vars c)) args) as [cs|] eqn:E1; [|done]. simpl in Hg.
    destruct (fun_def libdef f (zlen args)) as [[xid rt]|] eqn:E2; [|done]. simpl in Hg.
    destruct (gen_call xid (zlen args) rt) as [c2|] eqn:E3; [|done]. injection Hg as <-.
    destruct (gen_call_inv _ _ _ _ E3) as (c3 & -> & Hc3).
    assert (Hrt : 0 <= rt <= 1) by (destruct (fun_def_xid _ _ _ _ _ E2); lia).
    set (ts := tk T_LPAREN :: commas (toks 0) args ++ [tk T_RPAREN]).
    change (item_toks (ICall f args)) with (tk_id f :: ts) in *. rewrite !zlen_app, zlen_cons in *.
    change (zlen [_; _; zlen args]) with 3 in Hlen.
    pose proof (zlen_nonneg ts). pose proof (zlen_nonneg cs). pose proof (zlen_nonneg c3).
    remember (zlen ts + 1) as tot eqn:Etot.
    change ((tk_id f :: ts) ++ t1 :: l) with (tk_id f :: (ts ++ t1 :: l)).
    token. intros t (Hty & Ht & _). apply p_act; [done|].
    apply (does_push_tmp N cap HN); [simpl; lia|]. split; [done|]. split; [simpl; lia|].
    change (t_s (a_tok (at_tok t a))) with (t_s t). rewrite Ht by by rewrite Hty. change (t_s (tk_id f)) with f.
    unfold ts. change ((tk T_LPAREN :: ?x) ++ ?y) with (tk T_LPAREN :: (x ++ y)).
    expand [N_FUNCTION_CALL; A_OP_RET_DISCARD].
    change (tk T_LPAREN :: (?x ++ ?y)) with ((tk T_LPAREN :: x) ++ y). fold ts.
    apply (p_app _ _ _ m [N_FUNCTION_CALL] [A_OP_RET_DISCARD]). change (zlen [_]) with 1. eapply p_mono.
    { eapply (call_parse libdef N cap HN c f args xid rt (Forall_true _ _ (exps_parse libdef N cap HN c Hc)) (m + 1) (t1 :: l) _ cs (a_tab a));
        try done; fold ts; simpl a_pos; simpl a_cs; lia. }
    intros l' a1 (-> & Hcs1 & (z & lo & hi & Ht1) & Hd1 & Hs1 & Hp1). fold ts in Hp1. simpl a_pos in *. simpl a_cs in *. simpl a_dp in *.
    apply p_act; [done|].
    apply (does_drop N cap HN a1 (set_stack_sz z (a_tab a)) xid (zlen args) lo hi rt 0 c3); try done.
    + by rewrite Z.sub_0_r.
    + by left.
    + lia.
    + rewrite Hcs1, !zlen_app. change (zlen [_; _; zlen args]) with 3. lia.
    + lia.
    + lia.
    + intros s _ _. split; [done|].
      split; [simpl; rewrite Hcs1, !zlen_app; change (zlen [_; _; zlen args]) with 3; lia|].
      apply p_done. split; [done|]. split; [simpl; by rewrite Hcs1, <-!app_assoc|]. split; [by exists z|].
      split; [done|]. simpl. lia.
Qed.

Lemma wrote_item_trans b1 b2 n1 n2 a1 a2 a3 :
  wrote_item b1 n1 a1 a2 -> wrote_item b2 n2 a2 a3 -> wrote_item (b1 ++ b2) (n1 + n2) a1 a3.
Proof. clear HN.
  intros (C1 & (z1 & T1) & D1 & P1) (C2 & (z2 & T2) & D2 & P2).
  split; [by rewrite C2, C1, app_assoc|]. split; [exists z2; by rewrite T2, T1|]. split; [congruence|lia].
Qed.
Lemma item_first i : exists x l, item_toks i = tk_id x :: l.
Proof. destruct i; by eexists _, _. Qed.
Lemma wrote_item_tok bs n t a a' : wrote_item bs n (at_tok t a) a' -> wrote_item bs n a a'.
Proof. done. Qed.

Lemma exp_lst_parse c ii : ctx_ok c -> ii <> [] -> forall m l a bs,
  items libdef (vars c) ii = Some bs -> scope_ok (a_tab a) c -> starts [T_SEMICOLON; T_RPAREN] l ->
  sfits (m + 4) (commas item_toks ii) (zlen bs) a ->
  parses m [N_EXP_LST] (commas item_toks ii ++ l) a
    (fun l' a' => l' = l /\ wrote_item bs (zlen (commas item_toks ii)) a a').
Proof.
  intros Hc. induction ii as [|i ii IH]; [done|]. intros _ m l a bs Hg Hs Hl (Hm & Hfree & Hlen & Hp & Hp').
  simpl in Hg. destruct (gen_item libdef (vars c) i) as [b1|] eqn:E1; [|done]. simpl in Hg.
  change (foldr _ _ ii) with (items libdef (vars c) ii) in Hg.
  destruct (items libdef (vars c) ii) as [b2|] eqn:E2; [|done]. injection Hg as <-.
  set (tl := concat (map (fun x => tk T_COMMA :: item_toks x) ii)).
  assert (Hts : commas item_toks (i :: ii) = item_toks i ++ tl) by done. rewrite Hts, !zlen_app, cost_app in *.
  pose proof (zlen_nonneg (item_toks i)). pose proof (zlen_nonneg tl). pose proof (cost_len tl). pose proof (cost_len (item_toks i)). pose proof (zlen_nonneg b2).
  pose proof (zlen_nonneg b1).
  assert (Htl : starts (follow 0) (tl ++ l)).
  { unfold tl. destruct ii; simpl; [|tauto]. destruct l as [|t1 l]; [done|]. simpl in Hl. simpl. tauto. }
  assert (Hl1 : pushes N_EXP_LST T_ID [T_ID; A_OP_PUSH_TMP; N_ASSIGN_OR_CALL1; N_EXP_LST1]) by done.
  destruct (item_first i) as (x & l0 & E0). rewrite <-app_assoc, E0. simpl app.
  eapply p_nt; [done|exact Hl1|change (zlen _) with 4; rewrite E0, zlen_cons in *; pose proof (zlen_nonneg l0); lia|].
  change (tk_id x :: l0 ++ ?y) with ((tk_id x :: l0) ++ y). rewrite <-E0.
  apply (p_app _ _ _ m [T_ID; A_OP_PUSH_TMP; N_ASSIGN_OR_CALL1] [N_EXP_LST1]). change (zlen [_]) with 1. eapply p_mono.
  { apply (item_parse c i (m + 1) (tl ++ l) a b1 Hc E1 Hs Htl). unfold sfits. lia. }
  intros l' a1 [-> W1]. pose proof W1 as (Hcs1 & (z & Ht1) & Hd1 & Hp1).
  destruct ii as [|i' ii].
  - injection E2 as <-. unfold tl. simpl app. destruct l as [|t1 l]; [done|].
    eapply (p_nt _ _ _ _ _ _ _ _ _ []); [done| |change (zlen _) with 0; lia|].
    { simpl in Hl. destruct Hl as [<-|[<-|[]]]; done. }
    apply p_done. split; [done|]. rewrite app_nil_r. change (zlen tl) with 0. by rewrite Z.add_0_r.
  - assert (Etl : tl = tk T_COMMA :: commas item_toks (i' :: ii)) by done.
    pose proof (zlen_cons (tk T_COMMA) (commas item_toks (i' :: ii))) as Ez.
    pose proof (cost_cons (tk T_COMMA) (commas item_toks (i' :: ii))) as Ec. change (zlen (t_s (tk T_COMMA))) with 0 in Ec.
    rewrite <-Etl in Ez, Ec. rewrite Etl at 1.
    change ((tk T_COMMA :: ?x) ++ ?y) with (tk T_COMMA :: (x ++ y)). expand [T_COMMA; N_EXP_LST].
    apply p_tok; [done|done|by destruct (item_first i') as (? & ? & E); simpl; rewrite E|]. intros t1 _. eapply p_mono.
    { apply (IH ltac:(done) m l (at_tok t1 a1) b2 eq_refl); [by simpl; rewrite Ht1|done|].
      unfold sfits. simpl a_tab. simpl a_cs. simpl a_pos. rewrite Ht1, Hcs1, zlen_app.
      change (free (set_stack_sz z (a_tab a))) with (free (a_tab a)). lia. }
    intros l' a2 [-> W2]. split; [done|]. rewrite Ez. apply wrote_item_tok in W2.
    destruct (wrote_item_trans _ _ _ _ _ _ _ W1 W2) as (? & ? & ? & ?). split_and!; try done; lia.
Qed.

Lemma exp_lst_opt_parse c ii m l a bs : ctx_ok c ->
  items libdef (vars c) ii = Some bs -> scope_ok (a_tab a) c -> starts [T_SEMICOLON; T_RPAREN] l ->
  sfits (m + 4) (commas item_toks ii) (zlen bs) a ->
  parses m [N_EXP_LST_OPT] (commas item_toks ii ++ l) a
    (fun l' a' => l' = l /\ wrote_item bs (zlen (commas item_toks ii)) a a').
Proof.
  intros Hc Hg Hs Hl Hfit. pose proof Hfit as (Hm & _). destruct ii as [|i ii].
  - injection Hg as <-. simpl app. destruct l as [|t1 l]; [done|]. change (zlen (commas item_toks [])) with 0 in *.
    eapply (p_nt _ _ _ _ _ _ _ _ _ []); [done| |change (zlen _) with 0; lia|].
    { simpl in Hl. destruct Hl as [<-|[<-|[]]]; done. }
    apply p_done. split; [done|]. split; [by rewrite app_nil_r|]. split; [|split; [done|lia]].
    exists (t_stack_sz (a_tab a)). by destruct (a_tab a).
  - destruct (item_first i) as (x & l0 & E0).
    assert (E : exists l1, commas item_toks (i :: ii) = tk_id x :: l1) by (simpl; rewrite E0; by eexists).
    destruct E as [l1 E]. pose proof (zlen_nonneg (commas item_toks (i :: ii))). rewrite E. simpl app.
    eapply (p_nt _ _ _ _ _ _ _ _ _ [N_EXP_LST]); [done|done|change (zlen _) with 1; lia|].
    change (tk_id x :: l1 ++ ?y) with ((tk_id x :: l1) ++ y). rewrite <-E. by apply (exp_lst_parse c).
Qed.

(** ** Declarations *)

#[local] Arguments gen_item : simpl never.

Definition in_scope (c : ctx) (a : ast) : Prop := ctx_ok c /\ scope_ok (a_tab a) c /\ a_dp a = used c.
(** The tokens [ts] of a statement are eaten, in the scope [c'] now. *)
Definition wrote_stm (c' : ctx) (bs : list Z) (ts : list token) (a a' : ast) : Prop :=
  a_cs a' = a_cs a ++ bs /\ grows (a_tab a) (a_tab a') /\ scope_ok (a_tab a') c' /\ a_dp a' = used c' /\
  free (a_tab a) - cost ts <= free (a_tab a') /\ a_pos a <= a_pos a' <= a_pos a + 4 * zlen ts.

Lemma wrote_stm_trans c1 c2 b1 b2 l1 l2 a1 a2 a3 :
  wrote_stm c1 b1 l1 a1 a2 -> wrote_stm c2 b2 l2 a2 a3 -> wrote_stm c2 (b1 ++ b2) (l1 ++ l2) a1 a3.
Proof. clear HN.
  intros (C1 & G1 & S1 & D1 & F1 & P1) (C2 & G2 & S2 & D2 & F2 & P2).
  split; [by rewrite C2, C1, app_assoc|]. split; [by eapply grows_trans|].
  rewrite cost_app, zlen_app. split_and!; try done; lia.
Qed.
Lemma wrote_stm_tok c' bs ts t a a' : wrote_stm c' bs ts (at_tok t a) a' -> wrote_stm c' bs ts a a'.
Proof. done. Qed.
(** More tokens: those that change nothing. *)
Lemma wrote_stm_more c' bs ts ts' a a' :
  cost ts <= cost ts' -> zlen ts <= zlen ts' -> wrote_stm c' bs ts a a' -> wrote_stm c' bs ts' a a'.
Proof. clear HN. intros ? ? (? & ? & ? & ? & ? & ?). split_and!; try done; lia. Qed.
Lemma grows_sized z t : grows t (set_stack_sz z t).
Proof. split_and!; try done. by exists []. Qed.
Lemma item_wrote c bs ts a a' : in_scope c a -> wrote_item bs (zlen ts) a a' -> wrote_stm c bs ts a a'.
Proof. clear HN.
  intros (Hc & Hs & Hd) (C1 & (z & T1) & D1 & P1). pose proof (cost_len ts). pose proof (zlen_nonneg ts).
  split; [done|]. rewrite T1, D1. change (free (set_stack_sz z (a_tab a))) with (free (a_tab a)). split; [apply grows_sized|].
  split; [done|]. split; [done|]. lia.
Qed.

Lemma decl_parse c c' d m l a bs :
  in_scope c a -> gen_decl libdef d c = Some (bs, c') -> starts [T_COMMA; T_SEMICOLON] l ->
  sfits (m + 4) (decl_toks d) (zlen bs) a ->
  parses m [N_VAR] (decl_toks d ++ l) a (fun l' a' => l' = l /\ wrote_stm c' bs (decl_toks d) a a').
Proof.
  intros (Hc & Hs & Hd) Hg Hl (Hm & Hfree & Hlen & Hp & Hp'). destruct l as [|t1 l]; [done|].
  pose proof (decl_keeps libdef d c bs c' Hg Hc) as (Hc' & _).
  unfold gen_decl in Hg. destruct (new_var (fst d) c) as [c1|] eqn:Ec; [|done]. simpl in Hg.
  assert (c1 = c') as ->.
  { destruct (snd d) as [e|]; [|by injection Hg]. destruct (gen_item libdef (vars c1) _); [|done]. by injection Hg. }
  destruct d as [x oe]. simpl in Ec, Hg.
  set (te := match oe with Some e => tk T_EQUALS :: toks 0 e | None => [] end).
  change (decl_toks (x, oe)) with (tk_id x :: te) in *. rewrite zlen_cons, cost_cons in *.
  change (t_s (tk_id x)) with x in *. pose proof (zlen_nonneg te). pose proof (zlen_nonneg x). pose proof (cost_len te).
  change ((tk_id x :: te) ++ t1 :: l) with (tk_id x :: (te ++ t1 :: l)).
  pose proof (zlen_nonneg bs).
  expand [T_ID; A_OP_VAR_DECL; A_OP_PUSH_TMP; N_VAR_ASSIGN_OPT].
  apply p_tok; [done|done|by destruct te|]. intros t (Hty & Ht & _).
  assert (Ex : t_s t = x) by (rewrite Ht by (by rewrite Hty); done).
  assert (Eo : obj_len x = 7 + zlen x) by (unfold obj_len; lia).
  apply p_act; [done|].
  eapply (does_var_decl N cap HN c c'); [exact Hs|by simpl; rewrite Ex|done|done|simpl; rewrite Ex; lia|].
  simpl. rewrite Ex. intros t2 Hg2 Hs2 Hf2. split; [done|]. split; [lia|].
  pose proof (scope_ok_fp _ _ Hs2). apply p_act; [done|].
  apply (does_push_tmp N cap HN); [simpl; lia|]. split; [done|]. split; [simpl; lia|]. simpl. rewrite Ex.
  destruct oe as [e|].
  - destruct (gen_item libdef (vars c') (IAssign x e)) as [b1|] eqn:Ei; [|done]. injection Hg as <-. unfold gen_item in Ei.
    destruct (gen_exp libdef (vars c') e) as [ce|] eqn:Ee; [|done]. simpl in Ei.
    destruct (address x (vars c')) as [ad|] eqn:Ea; [|done]. injection Ei as <-.
    destruct (lookup_addr _ _ _ _ Hc' Hs2 Ea) as (o & Ho & Hoa & Had).
    change te with (tk T_EQUALS :: toks 0 e) in *. rewrite zlen_cons, cost_cons, zlen_app in *.
    change (zlen (op12 _ _)) with 2 in *. change (zlen (t_s (tk T_EQUALS))) with 0 in *.
    pose proof (zlen_nonneg (toks 0 e)). pose proof (gen_exp_len libdef _ _ _ Ee). pose proof (cost_len (toks 0 e)).
    change ((tk T_EQUALS :: ?x) ++ ?y) with (tk T_EQUALS :: (x ++ y)). expand [T_EQUALS; N_EXP; A_OP_VAR_ASSIGN].
    apply p_tok; [done|done|by destruct (toks 0 e)|]. intros t3 _.
    apply (p_app _ _ _ m [N_EXP] [A_OP_VAR_ASSIGN]). change (zlen [_]) with 1. eapply p_mono.
    { eapply (exp_here c' e (m + 1) (t1 :: l) _ ce Hc' Ee); try done; simpl; try lia; [by apply scope_ok_push| |].
      - simpl in Hl. tauto.
      - rewrite free_push. simpl. lia. }
    intros l' a1 (-> & Hcs1 & (z & Ht1) & Hd1 & Hp1). simpl in *. apply p_act; [done|].
    eapply (does_var_assign N cap HN a1 (set_stack_sz z t2) x o); try done; try lia.
    { rewrite Hcs1, zlen_app. lia. }
    split; [done|]. split; [simpl; rewrite Hcs1, !zlen_app; change (zlen (op12 _ _)) with 2; lia|].
    apply p_done. split; [done|]. split; [simpl; by rewrite Hcs1, Hoa, <-app_assoc|].
    split; [done|]. split; [done|]. split; [done|]. simpl. rewrite !zlen_cons.
    change (free (set_stack_sz z t2)) with (free t2). change (zlen (@nil Z)) with 0. lia.
  - injection Hg as <-. change te with (@nil token) in *. simpl app. change (zlen (@nil token)) with 0 in *.
    eapply (p_nt _ _ _ _ _ _ _ _ _ [A_OP_POP_TMP]); [done| |change (zlen _) with 1; lia|].
    { simpl in Hl. destruct Hl as [<-|[<-|[]]]; done. }
    apply p_act; [done|]. eapply (does_pop_tmp N cap HN); [done|done|]. split; [done|]. split; [simpl; lia|].
    apply p_done. split; [done|]. split; [by rewrite app_nil_r|]. split; [done|]. split; [done|]. split; [done|]. simpl.
    change (zlen [_]) with 1. rewrite Eo in *. lia.
Qed.

Lemma wrote_stm_scope c c' bs ts a a' :
  in_scope c a -> extends c c' -> wrote_stm c' bs ts a a' -> in_scope c' a'.
Proof. intros _ (? & _) (_ & _ & ? & ? & _). done. Qed.

(** What is left for a construct behind another. *)
Lemma sfits_after m ts1 ts2 (b1 b2 : list Z) c1 a a1 :
  sfits m (ts1 ++ ts2) (zlen (b1 ++ b2)) a -> wrote_stm c1 b1 ts1 a a1 -> sfits m ts2 (zlen b2) a1.
Proof. clear HN.
  intros (Hm & Hf & Hl & Hp & Hp') (C1 & _ & _ & _ & F1 & P1). unfold sfits.
  rewrite !zlen_app, cost_app in *. rewrite C1, zlen_app. pose proof (zlen_nonneg ts1). pose proof (zlen_nonneg b1). lia.
Qed.
Lemma sfits_part m ts1 ts2 (b1 b2 : list Z) a : sfits m (ts1 ++ ts2) (zlen (b1 ++ b2)) a -> sfits m ts1 (zlen b1) a.
Proof. clear HN.
  intros (Hm & Hf & Hl & Hp & Hp'). unfold sfits. rewrite !zlen_app, cost_app in *.
  pose proof (zlen_nonneg ts2). pose proof (zlen_nonneg b2). pose proof (cost_len ts2). lia.
Qed.
Lemma sfits_tok m ts w t a : sfits m ts w a -> sfits m ts w (at_tok t a).
Proof. done. Qed.
Lemma sfits_more m m' ts w a : m' <= m -> sfits m ts w a -> sfits m' ts w a.
Proof. clear HN. unfold sfits. lia. Qed.
Lemma in_scope_tok c t a : in_scope c a -> in_scope c (at_tok t a).
Proof. done. Qed.

Lemma wrote_none c ts a : in_scope c a -> wrote_stm c [] ts a a.
Proof. clear HN.
  intros (_ & Hs & Hd). pose proof (cost_len ts). pose proof (zlen_nonneg ts).
  split; [by rewrite app_nil_r|]. split; [apply grows_refl|]. split; [done|]. split; [done|]. lia.
Qed.

Lemma decl_first d : exists x l, decl_toks d = tk_id x :: l.
Proof. by eexists _, _. Qed.

Lemma decls_parse ds : ds <> [] -> forall c c' m l a bs,
  in_scope c a -> each (gen_decl libdef) ds c = Some (bs, c') -> starts [T_SEMICOLON] l ->
  sfits (m + 5) (commas decl_toks ds) (zlen bs) a ->
  parses m [N_VAR_LIST] (commas decl_toks ds ++ l) a
    (fun l' a' => l' = l /\ wrote_stm c' bs (commas decl_toks ds) a a').
Proof.
  induction ds as [|d ds IH]; [done|]. intros _ c c' m l a bs Hin Hg Hl Hfit. simpl in Hg.
  destruct (gen_decl libdef d c) as [[b1 c1]|] eqn:E1; [|done]. simpl in Hg.
  destruct (each (gen_decl libdef) ds c1) as [[b2 c2]|] eqn:E2; [|done]. injection Hg as <- <-.
  set (tl := concat (map (fun x => tk T_COMMA :: decl_toks x) ds)).
  change (commas decl_toks (d :: ds)) with (decl_toks d ++ tl) in *.
  pose proof Hfit as (Hm & _). rewrite zlen_app in Hm. pose proof (zlen_nonneg (decl_toks d)). pose proof (zlen_nonneg tl).
  pose proof Hin as (Hc & _). pose proof (decl_keeps libdef d c b1 c1 E1 Hc) as Hext.
  destruct (decl_first d) as (x & l0 & E0). rewrite <-app_assoc, E0. simpl app.
  eapply (p_nt _ _ _ _ _ _ _ _ _ [N_VAR; N_VAR_LIST1]); [done|done|change (zlen _) with 2; lia|].
  change (tk_id x :: l0 ++ ?y) with ((tk_id x :: l0) ++ y). rewrite <-E0.
  apply (p_app _ _ _ m [N_VAR] [N_VAR_LIST1]). change (zlen [_]) with 1. eapply p_mono.
  { apply (decl_parse c c1 d (m + 1) (tl ++ l) a b1 Hin E1).
    - unfold tl. destruct ds; simpl; [|tauto]. destruct l as [|t1 l]; [done|]. simpl in *. tauto.
    - eapply sfits_part, sfits_more; [|exact Hfit]. lia. }
  intros l' a1 [-> W1]. pose proof (sfits_after _ _ _ _ _ _ _ _ Hfit W1) as Hfit2.
  pose proof (wrote_stm_scope _ _ _ _ _ _ Hin Hext W1) as Hin1.
  destruct ds as [|d' ds].
  - injection E2 as <- <-. unfold tl in *. simpl app. destruct l as [|t1 l]; [done|].
    eapply (p_nt _ _ _ _ _ _ _ _ _ []); [done| |change (zlen _) with 0; lia|].
    { simpl in Hl. destruct Hl as [<-|[]]; done. }
    apply p_done. split; [done|]. simpl concat. by rewrite !app_nil_r.
  - assert (Etl : tl = tk T_COMMA :: commas decl_toks (d' :: ds)) by done. rewrite Etl in *.
    change ((tk T_COMMA :: ?x) ++ ?y) with (tk T_COMMA :: (x ++ y)). expand [T_COMMA; N_VAR_LIST].
    apply p_tok; [done|done|done|]. intros t1 _. eapply p_mono.
    { apply (IH ltac:(done) c1 c2 m l (at_tok t1 a1) b2); [by apply in_scope_tok|done|done|].
      apply sfits_tok. apply (sfits_after _ [tk T_COMMA] _ [] b2 c1 a1 a1); [exact Hfit2|].
      by apply wrote_none. }
    intros l' a2 [-> W2]. split; [done|]. apply wrote_stm_tok in W2.
    eapply wrote_stm_trans; [exact W1|]. eapply wrote_stm_more; [| |exact W2].
    + rewrite cost_cons. change (zlen (t_s (tk T_COMMA))) with 0. lia.
    + rewrite zlen_cons. lia.
Qed.

(** ** Statements

    Some end with a semicolon, which is not the statement's own. *)
Definition semi (s : stm) : bool := match s with SItem _ | SVar _ _ | SThrow _ => true | _ => false end.
Definition body (s : stm) : list token :=
  match s with
  | SItem i => item_toks i
  | SVar d ds => tk T_VAR :: commas decl_toks (d :: ds)
  | SThrow e => tk T_THROW :: toks 0 e
  | _ => stm_toks s
  end.
Definition first_semi : list Z := [T_THROW; T_VAR; T_ID].
Definition first_stat : list Z := [T_FOR; T_IF; T_WHILE].
Definition behind (s : stm) : list Z :=
  if semi s then [T_SEMICOLON] else [T_EOF; T_LBRACE; T_RBRACE] ++ first_semi ++ first_stat.

Lemma body_toks s : stm_toks s = body s ++ if semi s then [tk T_SEMICOLON] else [].
Proof. destruct s; simpl; rewrite ?app_nil_r; try done. Qed.
Lemma body_first s : exists t l, body s = t :: l /\ In (typ t) (if semi s then first_semi else first_stat).
Proof. clear HN.
  destruct s; simpl; try (eexists _, _; split; [done|]; simpl; tauto).
  destruct (item_first i) as (x & l & ->). eexists _, _. split; [done|]. simpl. tauto.
Qed.

Definition stm_parses (s : stm) : Prop :=
  forall c c' m l a bs,
    in_scope c a -> gen_stm libdef s c = Some (bs, c') -> starts (behind s) l -> sfits m (body s) (zlen bs) a ->
    parses m [if semi s then N_SEMI_STAT else N_STAT] (body s ++ l) a
      (fun l' a' => l' = l /\ wrote_stm c' bs (body s) a a').

Lemma item_stm_parses i : stm_parses (SItem i).
Proof.
  intros c c' m l a bs Hin Hg Hl Hfit. simpl in Hg, Hfit |- *.
  destruct (gen_item libdef (vars c) i) as [b|] eqn:Ei; [|done]. injection Hg as <- <-.
  destruct (item_first i) as (x & l0 & E0). pose proof Hfit as (Hm & _). rewrite E0, zlen_cons in Hm. pose proof (zlen_nonneg l0).
  rewrite E0. simpl app. eapply (p_nt _ _ _ _ _ _ _ _ _ [T_ID; A_OP_PUSH_TMP; N_ASSIGN_OR_CALL1]); [done|done|change (zlen _) with 3; lia|].
  change (tk_id x :: l0 ++ l) with ((tk_id x :: l0) ++ l). rewrite <-E0. pose proof Hin as (Hc & Hs & _).
  eapply p_mono; [apply (item_parse c i m l a b Hc Ei Hs); [|done]|].
  - destruct l as [|t1 l]; [done|]. simpl in *. tauto.
  - intros l' a' [-> W]. split; [done|]. by apply item_wrote.
Qed.

Lemma var_stm_parses d ds : stm_parses (SVar d ds).
Proof.
  intros c c' m l a bs Hin Hg Hl Hfit. cbn [semi body gen_stm] in *. pose proof Hfit as (Hm & _).
  rewrite zlen_cons in Hm. pose proof (zlen_nonneg (commas decl_toks (d :: ds))).
  change ((tk T_VAR :: ?x) ++ l) with (tk T_VAR :: (x ++ l)). expand [T_VAR; N_VAR_LIST].
  apply p_tok; [done|done|done|]. intros t _. eapply p_mono.
  - apply (decls_parse (d :: ds) ltac:(done) c c' m l (at_tok t a) bs); [by apply in_scope_tok|done|exact Hl|].
    unfold sfits in *. rewrite zlen_cons, cost_cons in Hfit. change (zlen (t_s (tk T_VAR))) with 0 in Hfit.
    cbn [a_cs a_tab a_pos at_tok]. lia.
  - intros l' a' [-> W]. split; [done|]. apply wrote_stm_tok in W. eapply wrote_stm_more; [| |exact W].
    + rewrite cost_cons. change (zlen (t_s (tk T_VAR))) with 0. lia.
    + rewrite zlen_cons. lia.
Qed.

Lemma throw_stm_parses e : stm_parses (SThrow e).
Proof.
  intros c c' m l a bs Hin Hg Hl (Hm & Hf & Hlen & Hp & Hp'). simpl in Hg |- *.
  destruct (gen_exp libdef (vars c) e) as [b|] eqn:Ee; [|done]. injection Hg as <- <-. simpl body in *.
  rewrite zlen_cons, cost_cons in *. pose proof (zlen_nonneg (toks 0 e)). pose proof (cost_len (toks 0 e)).
  rewrite zlen_app, zlen_single in *. pose proof (zlen_nonneg b). pose proof Hin as (Hc & Hs & Hd).
  change (zlen (t_s (tk T_THROW))) with 0 in *.
  expand [T_THROW; N_EXP; A_OP_THROW]. apply p_tok; [done|done|by destruct (toks_first 0 e) as (? & ? & -> & _)|].
  intros t _. apply (p_app _ _ _ m [N_EXP] [A_OP_THROW]). change (zlen [_]) with 1. eapply p_mono.
  { eapply (exp_here c e (m + 1) l (at_tok t a) b Hc Ee); try done; simpl; try lia.
    destruct l as [|t1 l]; [done|]. simpl in *. tauto. }
  intros l' a1 (-> & Hcs1 & (z & Ht1) & Hd1 & Hp1). simpl in *. apply p_act; [done|].
  apply (does_throw N cap HN); [rewrite Hcs1, zlen_app; lia|].
  split; [done|]. split; [simpl; rewrite Hcs1, !zlen_app, zlen_single; lia|]. apply p_done. split; [done|].
  split; [simpl; by rewrite Hcs1, <-app_assoc|]. simpl. rewrite Ht1, Hd1. split; [apply grows_sized|].
  split; [done|]. split; [done|]. change (free (set_stack_sz z (a_tab a))) with (free (a_tab a)). rewrite zlen_cons. pose proof (zlen_nonneg (@nil Z)). lia.
Qed.

(** *** Lists and blocks *)

Lemma ll_list_semi t : In t first_semi -> pushes N_STAT_LIST t [N_SEMI_STAT; T_SEMICOLON; N_STAT_LIST].
Proof. intros [<-|[<-|[<-|[]]]]; done. Qed.
Lemma ll_list_stat t : In t first_stat -> pushes N_STAT_LIST t [N_STAT; N_STAT_LIST].
Proof. intros [<-|[<-|[<-|[]]]]; done. Qed.

(** A statement, its semicolon included, on top of [s2]. *)
Lemma stm_whole s s2 c c' m l a bs Q :
  stm_parses s -> in_scope c a -> gen_stm libdef s c = Some (bs, c') ->
  (semi s = false -> starts (behind s) l) -> l <> [] ->
  sfits (m + zlen s2 + 1) (stm_toks s) (zlen bs) a ->
  (forall a', wrote_stm c' bs (stm_toks s) a a' -> parses m s2 l a' Q) ->
  parses m (if semi s then N_SEMI_STAT :: T_SEMICOLON :: s2 else N_STAT :: s2) (stm_toks s ++ l) a Q.
Proof.
  intros Hs Hin Hg Hl Hne Hfit HQ. rewrite body_toks in *. pose proof (cost_len (body s)).
  destruct (semi s) eqn:Es.
  - rewrite <-app_assoc. apply (p_app _ _ _ m [N_SEMI_STAT] (T_SEMICOLON :: s2)). eapply p_mono.
    { specialize (Hs c c' (m + zlen (T_SEMICOLON :: s2)) ([tk T_SEMICOLON] ++ l) a bs Hin Hg). rewrite Es in Hs. apply Hs.
      - unfold behind. rewrite Es. simpl. tauto.
      - unfold sfits in *. rewrite zlen_app, cost_app, zlen_cons in *. change (zlen [_]) with 1 in *. change (cost [_]) with 16 in *. lia. }
    intros l' a1 [-> W]. simpl app. apply p_tok; [done|done|done|]. intros t _. apply HQ.
    eapply wrote_stm_more; [| |exact W]; [rewrite cost_app; change (cost [_]) with 16; lia|rewrite zlen_app; change (zlen [_]) with 1; lia].
  - rewrite app_nil_r in *. apply (p_app _ _ _ m [N_STAT] s2). eapply p_mono.
    { specialize (Hs c c' (m + zlen s2) l a bs Hin Hg). rewrite Es in Hs. apply Hs; [by apply Hl|].
      unfold sfits in *. lia. }
    intros l' a1 [-> W]. by apply HQ.
Qed.

Lemma behind_list s b l : semi s = false -> starts (behind s) l -> starts (behind s) (concat (map stm_toks b) ++ l).
Proof. clear HN.
  intros Es Hl. destruct b as [|s' b]; [done|]. simpl. rewrite body_toks.
  destruct (body_first s') as (t & l' & E & Ht). rewrite E. simpl. unfold behind. rewrite Es.
  destruct (semi s'); simpl in *; tauto.
Qed.

Lemma list_parse b : Forall stm_parses b -> forall c c' m l a bs,
  in_scope c a -> each (gen_stm libdef) b c = Some (bs, c') ->
  sfits (m + 4) (concat (map stm_toks b)) (zlen bs) a ->
  parses m [N_STAT_LIST] (concat (map stm_toks b) ++ tk T_RBRACE :: l) a
    (fun l' a' => l' = tk T_RBRACE :: l /\ wrote_stm c' bs (concat (map stm_toks b)) a a').
Proof.
  induction 1 as [|s b Hs Hb IH]; intros c c' m l a bs Hin Hg Hfit; simpl in Hg |- *.
  - injection Hg as <- <-. pose proof Hfit as (Hm & _). change (zlen (concat _)) with 0 in Hm.
    eapply (p_nt _ _ _ _ _ _ _ _ _ []); [done|done|change (zlen _) with 0; lia|]. apply p_done. split; [done|]. by apply wrote_none.
  - destruct (gen_stm libdef s c) as [[b1 c1]|] eqn:E1; [|done]. simpl in Hg.
    destruct (each (gen_stm libdef) b c1) as [[b2 c2]|] eqn:E2; [|done]. injection Hg as <- <-.
    simpl in Hfit. pose proof Hfit as (Hm & _). rewrite zlen_app in Hm.
    pose proof (zlen_nonneg (stm_toks s)). pose proof (zlen_nonneg (concat (map stm_toks b))).
    pose proof Hin as (Hc & _). pose proof (stm_keeps libdef s c b1 c1 E1 Hc) as Hext.
    assert (Hstart : exists t l', stm_toks s = t :: l' /\ pushes N_STAT_LIST (typ t)
      (if semi s then [N_SEMI_STAT; T_SEMICOLON; N_STAT_LIST] else [N_STAT; N_STAT_LIST])).
    { destruct (body_first s) as (t & l' & E & Ht). rewrite body_toks, E. eexists _, _. split; [done|].
      destruct (semi s); [by apply ll_list_semi|by apply ll_list_stat]. }
    destruct Hstart as (t & l' & E & Hpush). rewrite <-app_assoc.
    rewrite E. simpl app. eapply p_nt; [done|exact Hpush|destruct (semi s); [change (zlen _) with 3|change (zlen _) with 2]; lia|].
    change (t :: l' ++ ?y) with ((t :: l') ++ y). rewrite <-E.
    replace ((if semi s then [N_SEMI_STAT; T_SEMICOLON; N_STAT_LIST] else [N_STAT; N_STAT_LIST]) ++ [])
      with (if semi s then N_SEMI_STAT :: T_SEMICOLON :: [N_STAT_LIST] else N_STAT :: [N_STAT_LIST]) by by destruct (semi s).
    eapply stm_whole; [exact Hs|exact Hin|exact E1| |by destruct (concat (map stm_toks b))| |].
    + intros Es. apply behind_list; [done|]. unfold behind. rewrite Es. simpl. tauto.
    + change (zlen [N_STAT_LIST]) with 1. eapply sfits_part, sfits_more; [|exact Hfit]. lia.
    + intros a1 W1. eapply p_mono.
      { apply (IH c1 c2 m l a1 b2); [by eapply wrote_stm_scope|done|]. by eapply sfits_after. }
      intros l2 a2 [-> W2]. split; [done|]. by eapply wrote_stm_trans.
Qed.
End comp.
