(* ===== verification/JsBlock.v ===== *)
(** * MicroJS: the compiler writes the code of the program: blocks

    Blocks, and the statements that have them: their jumps forward are written
    when what they jump over has been. *)

From S2P Require Import Prelude Js JsLl JsLex JsSym JsSdt JsLang JsGen JsVm JsScope JsTab JsAct JsParse JsComp.
Open Scope Z_scope.
Import Ll Lex Sym Sdt Lang Gen.

Section block.
Context `{JsConfig}.
Variable libdef : ext_libdef.
Variables N cap : Z.
Hypothesis HN : 0 <= N < 65536.

Abbreviation parses := (parses libdef N cap).
Abbreviation sfits := (sfits N cap).

(** A construct that leaves its scope: [n] tokens are eaten, [d] bytes of data
    have been in use. *)
Definition wrote_flat (d : Z) (bs : list Z) (n : Z) (a a' : ast) : Prop :=
  a_cs a' = a_cs a ++ bs /\ (exists z, a_tab a' = resized z d (a_tab a)) /\ a_dp a' = a_dp a /\
  a_pos a <= a_pos a' <= a_pos a + 4 * n.

Lemma scope_data t c : scope_ok t c -> t_data_sz t = most c.
Proof. by intros (f & g & new & old & prev & _ & _ & _ & _ & _ & ? & _). Qed.

Lemma scope_resized z t c c' : scope_ok t c -> vars c' = vars c -> scope_ok (resized z (most c') t) c'.
Proof.
  intros (f & g & new & old & prev & Hv & Ho & Hf & Hg & Hs & Hd & Hfp) Hv'.
  exists f, g, new, old, prev. by rewrite Hv'.
Qed.
Lemma sized_resized z t : set_stack_sz z t = resized z (t_data_sz t) t.
Proof. done. Qed.
Lemma grows_resized z d t : grows t (resized z d t).
Proof. split_and!; try done. by exists []. Qed.

Lemma item_flat c bs n a a' : scope_ok (a_tab a) c -> wrote_item bs n a a' -> wrote_flat (most c) bs n a a'.
Proof.
  intros Hs (C1 & (z & T1) & D1 & P1). split; [done|]. split; [|done]. exists z.
  by rewrite T1, sized_resized, (scope_data _ _ Hs).
Qed.

Lemma flat_wrote c c' bs ts a a' :
  in_scope c a -> vars c' = vars c -> used c' = used c -> wrote_flat (most c') bs (zlen ts) a a' ->
  wrote_stm c' bs ts a a'.
Proof. clear HN.
  intros (Hc & Hs & Hd) Hv Hu (C1 & (z & T1) & D1 & P1). pose proof (cost_len ts). pose proof (zlen_nonneg ts).
  split; [done|]. rewrite T1, D1. split; [apply grows_resized|]. split; [by eapply scope_resized|]. split; [congruence|].
  change (free (resized z (most c') (a_tab a))) with (free (a_tab a)). lia.
Qed.

(** Lengths are natural. *)
Ltac lens := repeat match goal with
  | _ : context [zlen ?l] |- _ => lazymatch goal with _ : 0 <= zlen l |- _ => fail | _ => pose proof (zlen_nonneg l) end
  | |- context [zlen ?l] => lazymatch goal with _ : 0 <= zlen l |- _ => fail | _ => pose proof (zlen_nonneg l) end
  end.
Ltac expand prod := eapply (p_nt _ _ _ _ _ _ _ _ _ prod);
  [done|done|let n := eval compute in (zlen prod) in change (zlen _) with n; lia|].
Ltac token := apply p_tok; [done|done|done|].

Lemma cond_parse c e m l a bs :
  ctx_ok c -> gen_exp libdef (vars c) e = Some bs -> scope_ok (a_tab a) c -> l <> [] ->
  sfits m (cond_toks e) (zlen bs) a ->
  parses m [N_CONDITION] (cond_toks e ++ l) a
    (fun l' a' => l' = l /\ wrote_flat (most c) bs (zlen (cond_toks e)) a a').
Proof.
  intros Hc Hg Hs Hl (Hm & Hf & Hlen & Hp & Hp'). unfold cond_toks in *.
  rewrite zlen_cons, cost_cons, zlen_app, cost_app in *. change (zlen [_]) with 1 in *. change (cost [_]) with 16 in *.
  change (zlen (t_s (tk T_LPAREN))) with 0 in *. pose proof (cost_len (toks 0 e)). lens.
  change ((tk T_LPAREN :: ?x) ++ l) with (tk T_LPAREN :: (x ++ l)). rewrite <-app_assoc.
  expand [T_LPAREN; N_EXP; T_RPAREN]. apply p_tok; [done|done|by destruct (toks 0 e)|]. intros t _.
  apply (p_app _ _ _ m [N_EXP] [T_RPAREN]). change (zlen [_]) with 1. eapply p_mono.
  { apply (exp_here libdef N cap HN c e (m + 1) ([tk T_RPAREN] ++ l) (at_tok t a) bs Hc Hg); [done|simpl; tauto|..];
      cbn [a_cs a_tab a_pos at_tok]; lia. }
  intros l' a1 (-> & Hcs1 & (z & Ht1) & Hd1 & Hp1). simpl app. apply p_tok; [done|done|done|]. intros t1 _.
  apply p_done. split; [done|]. split; [done|]. split; [|split; [done|]]; cbn [a_cs a_tab a_pos at_tok] in *; [|lia].
  exists z. by rewrite Ht1, sized_resized, (scope_data _ _ Hs).
Qed.

Lemma block_parse b c c' m l a bs :
  Forall (stm_parses libdef N cap) b -> in_scope c a -> block (gen_stm libdef) b c = Some (bs, c') -> l <> [] ->
  sfits m (braces (concat (map stm_toks b))) (zlen bs) a ->
  parses m [N_COMPOUND_STAT] (braces (concat (map stm_toks b)) ++ l) a
    (fun l' a' => l' = l /\ wrote_flat (most c') bs (zlen (braces (concat (map stm_toks b)))) a a').
Proof.
  intros Hb (Hc & Hs & Hd) Hg Hl (Hm & Hf & Hlen & Hp & Hp'). unfold block in Hg.
  destruct (each (gen_stm libdef) b (open_scope c)) as [[b1 c1]|] eqn:E1; [|done]. injection Hg as <- <-.
  set (ts := concat (map stm_toks b)) in *. unfold braces in *.
  rewrite zlen_cons, cost_cons, zlen_app, cost_app in *. change (zlen [_]) with 1 in *. change (cost [_]) with 16 in *.
  change (zlen (t_s (tk T_LBRACE))) with 0 in *. pose proof (cost_len ts). lens. pose proof (scope_ok_fp _ _ Hs).
  change ((tk T_LBRACE :: ?x) ++ l) with (tk T_LBRACE :: (x ++ l)). rewrite <-app_assoc.
  expand [T_LBRACE; A_OP_BLK_OPEN; N_STAT_LIST; T_RBRACE; A_OP_BLK_CLOSE].
  apply p_tok; [done|done|by destruct ts|]. intros t _. apply p_act; [done|].
  apply (does_blk_open N cap HN); [simpl; lia|]. split; [done|]. split; [simpl; lia|].
  apply (p_app _ _ _ m [N_STAT_LIST] [T_RBRACE; A_OP_BLK_CLOSE]). change (zlen [_; _]) with 2. eapply p_mono.
  { apply (list_parse libdef N cap HN b Hb (open_scope c) c1 (m + 2) l _ b1).
    - split; [by apply open_ok|]. split; [by apply scope_ok_open|done].
    - exact E1.
    - unfold sfits. fold ts. cbn [a_cs a_tab a_pos at_tok at_tab].
      assert (Ef : free (opened (a_dp a) (a_tab a)) = free (a_tab a) - 6) by (unfold opened, free, t_sp, t_bp; cbn -[Z.add Z.sub]; lia).
      change (a_dp (at_tok t a)) with (a_dp a). rewrite Ef. lia. }
  fold ts. intros l' a1 [-> (C1 & G1 & S1 & D1 & F1 & P1)]. cbn [a_cs a_tab a_pos at_tok at_tab a_dp] in *.
  apply p_tok; [done|done|done|]. intros t1 _. apply p_act; [done|].
  eapply (does_blk_close N cap HN (a_dp a) (a_tab a)); [done|exact G1|]. split; [done|].
  split; [simpl; rewrite C1, zlen_app; lia|]. apply p_done. split; [done|]. split; [done|].
  split; [|split; [done|]]; cbn [a_cs a_tab a_pos at_tok at_tab at_dp a_dp] in *; [|lia].
  exists (t_stack_sz (a_tab a1)). unfold closed, resized. by rewrite (scope_data _ _ S1).
Qed.

(** ** Conditionals *)

Lemma resized_resized z d z' d' t : resized z' d' (resized z d t) = resized z' d' t.
Proof. done. Qed.
Lemma lbl_size_le : 0 <= lbl_size <= 2.
Proof. clear HN. unfold lbl_size. destruct trace_enabled; lia. Qed.

(** A construct behind an element of the symbol table's stack. *)
Lemma in_scope_under e z c c' a a1 :
  in_scope c a -> ctx_ok c' -> vars c' = vars c -> used c' = used c -> a_dp a1 = a_dp a ->
  a_tab a1 = set_stk (e :: t_stk (a_tab a)) (resized z (most c') (a_tab a)) -> in_scope c' a1.
Proof.
  intros (Hc & Hs & Hd) Hc' Hv Hu Hd1 Ht. split; [done|]. split; [|congruence]. rewrite Ht.
  change (t_stk (a_tab a)) with (t_stk (resized z (most c') (a_tab a))). by eapply scope_ok_push, scope_resized.
Qed.

Definition behind_block : list Z := [T_EOF; T_LBRACE; T_RBRACE] ++ first_semi ++ first_stat.
Lemma ll_no_else t : In t behind_block -> pushes N_ELSE_OPT t [].
Proof.
  intros Ht. apply pushes_ok. revert Ht.
  apply (by_levels (fun _ t => pushes_b N_ELSE_OPT t []) (fun _ => behind_block) 1 eq_refl 0). lia.
Qed.

(** The condition of an [if], and its jump. *)
Lemma if_parse c e m l a ce rest Q :
  in_scope c a -> gen_exp libdef (vars c) e = Some ce -> l <> [] -> zlen rest <= 8 ->
  sfits (m + 8) (tk T_IF :: cond_toks e) (zlen ce + 2) a ->
  (forall a1 j z, a_cs a1 = (a_cs a ++ ce) ++ [Js.OPC_JEQ; j] ->
    a_tab a1 = set_stk (Ref (zlen (a_cs a ++ ce)) :: t_stk (a_tab a)) (resized z (most c) (a_tab a)) ->
    a_dp a1 = a_dp a -> a_pos a <= a_pos a1 <= a_pos a + 4 * zlen (cond_toks e) ->
    parses m rest l a1 Q) ->
  parses m (T_IF :: N_CONDITION :: A_OP_IF_COND :: rest) (tk T_IF :: cond_toks e ++ l) a Q.
Proof.
  intros (Hc & Hs & Hd) Hg Hl Hrest (Hm & Hf & Hlen & Hp & Hp') HQ. rewrite zlen_cons, cost_cons in *.
  change (zlen (t_s (tk T_IF))) with 0 in *. pose proof lbl_size_le. lens.
  apply p_tok; [done|done|done|]. intros t _.
  apply (p_app _ _ _ m [N_CONDITION] (A_OP_IF_COND :: rest)). rewrite zlen_cons. eapply p_mono.
  { apply (cond_parse c e (m + (zlen rest + 1)) l (at_tok t a) ce Hc Hg Hs Hl).
    unfold JsComp.sfits. cbn [a_cs a_tab a_pos at_tok]. lia. }
  intros l' a1 (-> & C1 & (z & T1) & D1 & P1). cbn [a_cs a_tab a_pos at_tok a_dp] in *. apply p_act; [done|].
  apply (does_if_cond N cap HN); [rewrite C1, zlen_app; lia| |].
  { rewrite T1. change (free (resized z (most c) (a_tab a))) with (free (a_tab a)).
    pose proof (cost_len (cond_toks e)). assert (2 <= zlen (cond_toks e)); [|lia].
    unfold cond_toks. rewrite zlen_cons, zlen_app. change (zlen [_]) with 1. pose proof (zlen_nonneg (toks 0 e)). lia. }
  intros j s. split; [done|]. split; [simpl; rewrite C1, !zlen_app; change (zlen [_; _]) with 2; lia|].
  apply (HQ _ j z); [simpl; by rewrite C1|simpl; by rewrite T1, C1|done|simpl; lia].
Qed.

Ltac costs := repeat match goal with
  | _ : context [cost ?l] |- _ => lazymatch goal with _ : 16 * zlen l <= cost l |- _ => fail | _ => pose proof (cost_len l) end
  | |- context [cost ?l] => lazymatch goal with _ : 16 * zlen l <= cost l |- _ => fail | _ => pose proof (cost_len l) end
  end.
Create Rewrite HintDb room.
#[local] Hint Rewrite @zlen_app @zlen_cons @zlen_single cost_app cost_cons op12_len : room.
(** Room: by the lengths of the parts. *)
Ltac room := unfold JsComp.sfits in *; cbn [a_cs a_tab a_pos a_dp at_tok] in *;
  autorewrite with room in *; change (zlen (t_s (tk _))) with 0 in *; change (zlen (@nil _)) with 0 in *; costs; lens; lia.
Ltac unfolds prod := eapply (p_nt _ _ _ _ _ _ _ _ _ prod);
  [done|done|room|].

Lemma block_used b c bs c' : block (gen_stm libdef) b c = Some (bs, c') -> used c' = used c.
Proof. unfold block. destruct (each _ _ _) as [[? ?]|]; [by intros [= <- <-]|done]. Qed.
Lemma braces_min ts : 2 <= zlen (braces ts).
Proof. clear HN. unfold braces. room. Qed.
(** The room of the table under an element. *)
Lemma free_under e z d t : free (set_stk (e :: t_stk t) (resized z d t)) = free t - entry_size e.
Proof. apply (free_push e (resized z d t)). Qed.

Lemma if_stm_parses e b : Forall (stm_parses libdef N cap) b -> stm_parses libdef N cap (SIf e b).
Proof.
  intros Hb c c' m l a bs Hin Hg Hl Hfit. simpl in Hg. cbn [semi body stm_toks] in *.
  destruct (gen_exp libdef (vars c) e) as [ce|] eqn:Ee; [|done]. simpl in Hg.
  destruct (block (gen_stm libdef) b c) as [[cb c1]|] eqn:Eb; [|done]. injection Hg as <- <-.
  pose proof Hin as (Hc & Hs & Hd). destruct (block_keeps libdef b c cb c1 Eb Hc) as (Hv & Hm1 & Hc1).
  pose proof (block_used _ _ _ _ Eb) as Hu.
  set (br := braces (concat (map stm_toks b))) in *. pose proof (scope_ok_fp _ _ Hs).
  pose proof (braces_min (concat (map stm_toks b))) as Hbr. fold br in Hbr. destruct l as [|t1 l]; [done|]. rewrite <-app_comm_cons, <-app_assoc.
  unfolds [T_IF; N_CONDITION; A_OP_IF_COND; N_COMPOUND_STAT; N_ELSE_OPT; A_OP_IF_END].
  apply (if_parse c e m (br ++ t1 :: l) a ce [N_COMPOUND_STAT; N_ELSE_OPT; A_OP_IF_END] _ Hin Ee).
  { by destruct br. }
  { done. }
  { room. }
  intros a1 j z C1 T1 D1 P1. apply (p_app _ _ _ m [N_COMPOUND_STAT] [N_ELSE_OPT; A_OP_IF_END]).
  change (zlen [_; _]) with 2. eapply p_mono.
  { apply (block_parse b c c1 (m + 2) (t1 :: l) a1 cb Hb); [|done|done|].
    - by eapply (in_scope_under _ z c c a).
    - fold br. unfold JsComp.sfits. rewrite T1, C1, free_under. simpl entry_size. pose proof lbl_size_le. room. }
  fold br. intros l' a2 (-> & C2 & (z2 & T2) & D2 & P2).
  eapply p_nt; [done|by apply ll_no_else|change (zlen _) with 1; room|]. apply p_act; [done|].
  eapply (does_patch_ref N cap HN a2 (resized z2 (most c1) (a_tab a)) (a_cs a ++ ce) Js.OPC_JEQ j cb).
  { by rewrite T2, T1. }
  { done. }
  { by rewrite C2, C1, <-app_assoc. }
  { done. }
  split; [done|]. split; [cbn [a_cs set_cs at_tab]; room|]. apply p_done. split; [done|]. 
  apply (flat_wrote c); try done. split; [cbn [a_cs set_cs at_tab]; by rewrite <-app_assoc|].
  split; [by exists z2|]. split; [cbn [a_dp set_cs at_tab]; congruence|]. cbn [a_pos set_cs at_tab]. room.
Qed.

Lemma if_else_stm_parses e b1 b2 : Forall (stm_parses libdef N cap) b1 -> Forall (stm_parses libdef N cap) b2 ->
  stm_parses libdef N cap (SIfElse e b1 b2).
Proof.
  intros Hb1 Hb2 c c' m l a bs Hin Hg Hl Hfit. simpl in Hg. cbn [semi body stm_toks] in *.
  destruct (gen_exp libdef (vars c) e) as [ce|] eqn:Ee; [|done]. simpl in Hg.
  destruct (block (gen_stm libdef) b1 c) as [[k1 c1]|] eqn:Eb1; [|done]. simpl in Hg.
  destruct (block (gen_stm libdef) b2 c1) as [[k2 c2]|] eqn:Eb2; [|done]. injection Hg as <- <-.
  pose proof Hin as (Hc & Hs & Hd). destruct (block_keeps libdef b1 c k1 c1 Eb1 Hc) as (Hv & Hm1 & Hc1).
  destruct (block_keeps libdef b2 c1 k2 c2 Eb2 Hc1) as (Hv2 & Hm2 & Hc2).
  pose proof (block_used _ _ _ _ Eb1) as Hu. pose proof (block_used _ _ _ _ Eb2) as Hu2.
  set (br1 := braces (concat (map stm_toks b1))) in *. set (br2 := braces (concat (map stm_toks b2))) in *.
  pose proof (scope_ok_fp _ _ Hs). pose proof lbl_size_le.
  pose proof (braces_min (concat (map stm_toks b1))) as Hbr1. fold br1 in Hbr1.
  pose proof (braces_min (concat (map stm_toks b2))) as Hbr2. fold br2 in Hbr2.
  rewrite <-app_comm_cons, <-!app_assoc, <-app_comm_cons.
  unfolds [T_IF; N_CONDITION; A_OP_IF_COND; N_COMPOUND_STAT; N_ELSE_OPT; A_OP_IF_END].
  apply (if_parse c e m (br1 ++ tk T_ELSE :: br2 ++ l) a ce [N_COMPOUND_STAT; N_ELSE_OPT; A_OP_IF_END] _ Hin Ee).
  { by destruct br1. }
  { done. }
  { room. }
  intros a1 j z C1 T1 D1 P1. apply (p_app _ _ _ m [N_COMPOUND_STAT] [N_ELSE_OPT; A_OP_IF_END]).
  change (zlen [_; _]) with 2. eapply p_mono.
  { apply (block_parse b1 c c1 (m + 2) (tk T_ELSE :: br2 ++ l) a1 k1 Hb1); [|done|done|].
    - by eapply (in_scope_under _ z c c a).
    - fold br1. unfold JsComp.sfits. rewrite T1, C1, free_under. simpl entry_size. room. }
  fold br1. intros l' a2 (-> & C2 & (z2 & T2) & D2 & P2).
  unfolds [T_ELSE; A_OP_IF_ELSE; N_COMPOUND_STAT]. apply p_tok; [done|done|by destruct br2|]. intros t _. apply p_act; [done|].
  eapply (does_if_else N cap HN (at_tok t a2) (resized z2 (most c1) (a_tab a)) (a_cs a ++ ce) j k1);
    [by cbn [a_tab at_tok]; rewrite T2, T1|done|by cbn [a_cs at_tok]; rewrite C2, C1, <-app_assoc|
     cbn [a_cs at_tok]; rewrite C2, C1; room|
     change (free (resized z2 (most c1) (a_tab a))) with (free (a_tab a)); room|].
  intros j' s. split; [done|]. split; [room|].
  apply (p_app _ _ _ m [N_COMPOUND_STAT] [A_OP_IF_END]). change (zlen [_]) with 1. eapply p_mono.
  { apply (block_parse b2 c1 c2 (m + 1) l _ k2 Hb2); [|done|by destruct l|].
    - by eapply (in_scope_under _ z2 c c1 a); simpl; try congruence.
    - fold br2. unfold JsComp.sfits. cbn [a_tab a_cs a_pos at_tok]. rewrite free_push. simpl entry_size.
      change (free (resized _ _ (a_tab a))) with (free (a_tab a)). room. }
  fold br2. intros l' a3 (-> & C3 & (z3 & T3) & D3 & P3). cbn [a_tab a_cs a_pos a_dp at_tok] in *.
  apply p_act; [done|].
  eapply (does_patch_ref N cap HN a3 (resized z3 (most c2) (a_tab a)) (a_cs a ++ ce ++ op12 Js.OPC_JEQ (zlen k1 + 2) ++ k1) Js.OPC_JMP j' k2).
  { rewrite T3. replace (zlen (_ ++ _)) with (zlen (a_cs a2)) by (rewrite C2, C1; room). done. }
  { done. }
  { by rewrite C3, <-!app_assoc. }
  { done. }
  split; [done|]. split; [cbn [a_cs set_cs at_tab]; room|]. apply p_done. split; [done|].
  apply (flat_wrote c); [done|congruence..|]. split; [cbn [a_cs set_cs at_tab]; by rewrite <-!app_assoc|].
  split; [by exists z3|]. split; [cbn [a_dp set_cs at_tab]; congruence|]. cbn [a_pos set_cs at_tab]. room.
Qed.

(** ** Loops *)

Lemma while_stm_parses e b : Forall (stm_parses libdef N cap) b -> stm_parses libdef N cap (SWhile e b).
Proof.
  intros Hb c c' m l a bs Hin Hg Hl Hfit. simpl in Hg. cbn [semi body stm_toks] in *.
  destruct (gen_exp libdef (vars c) e) as [ce|] eqn:Ee; [|done]. simpl in Hg.
  destruct (block (gen_stm libdef) b c) as [[cb c1]|] eqn:Eb; [|done]. injection Hg as <- <-.
  pose proof Hin as (Hc & Hs & Hd). destruct (block_keeps libdef b c cb c1 Eb Hc) as (Hv & Hm1 & Hc1).
  pose proof (block_used _ _ _ _ Eb) as Hu. set (br := braces (concat (map stm_toks b))) in *.
  pose proof (scope_ok_fp _ _ Hs). pose proof lbl_size_le.
  pose proof (braces_min (concat (map stm_toks b))) as Hbr. fold br in Hbr.
  rewrite <-app_comm_cons, <-!app_assoc.
  unfolds [T_WHILE; A_OP_WHILE_BEGIN; N_CONDITION; A_OP_WHILE_COND; N_COMPOUND_STAT; A_OP_WHILE_END].
  apply p_tok; [done|done|done|]. intros t _. apply p_act; [done|].
  apply (does_while_begin N cap HN); [room|]. split; [done|]. split; [cbn [a_cs at_tab]; room|].
  apply (p_app _ _ _ m [N_CONDITION] [A_OP_WHILE_COND; N_COMPOUND_STAT; A_OP_WHILE_END]). change (zlen [_; _; _]) with 3.
  eapply p_mono.
  { apply (cond_parse c e (m + 3) (br ++ l) _ ce Hc Ee); [by apply scope_ok_push|by destruct br|].
    unfold JsComp.sfits. cbn [a_tab a_cs a_pos at_tok at_tab]. rewrite free_push. simpl entry_size. room. }
  intros l' a1 (-> & C1 & (z & T1) & D1 & P1). cbn [a_tab a_cs a_pos a_dp at_tok at_tab] in *.
  apply p_act; [done|].
  eapply (does_while_cond N cap HN a1 (resized z (most c) (a_tab a)));
    [by rewrite T1|done|rewrite C1; room|change (free (resized _ _ (a_tab a))) with (free (a_tab a)); room|].
  intros j s. split; [done|]. split; [cbn [a_cs add at_spc at_tab]; rewrite C1; room|].
  apply (p_app _ _ _ m [N_COMPOUND_STAT] [A_OP_WHILE_END]). change (zlen [_]) with 1. eapply p_mono.
  { apply (block_parse b c c1 (m + 1) l _ cb Hb); [|done|by destruct l|].
    - by eapply (in_scope_under _ z c c a).
    - fold br. unfold JsComp.sfits. cbn [a_tab a_cs a_pos add at_spc at_tab]. rewrite free_push. simpl entry_size.
      change (free (resized _ _ (a_tab a))) with (free (a_tab a)). rewrite C1. room. }
  fold br. intros l' a2 (-> & C2 & (z2 & T2) & D2 & P2). cbn [a_tab a_cs a_pos a_dp add at_spc at_tab] in *.
  apply p_act; [done|].
  eapply (does_while_end N cap HN a2 (resized z2 (most c1) (a_tab a)) (a_cs a) ce j cb).
  { by rewrite T2, C1. }
  { done. }
  { by rewrite C2, C1, <-!app_assoc. }
  { rewrite C2, C1. room. }
  intros s'. split; [done|]. split; [cbn [a_cs]; room|]. apply p_done. split; [done|].
  apply (flat_wrote c); [done|congruence..|]. split; [done|].
  split; [by exists z2|]. split; [cbn [a_dp]; congruence|]. cbn [a_pos]. room.
Qed.

(** The head of a [for], to its second semicolon. *)
Lemma for_parse c i e m l a ci ce rest Q :
  in_scope c a -> items libdef (vars c) i = Some ci -> gen_exp libdef (vars c) e = Some ce -> l <> [] -> zlen rest <= 8 ->
  sfits (m + 16) (tk T_FOR :: commas item_toks i ++ tk T_SEMICOLON :: toks 0 e) (zlen ci + zlen ce + 4) a ->
  (forall a1 j j' z, a_cs a1 = (a_cs a ++ ci) ++ ce ++ [Js.OPC_JEQ; j] ++ [Js.OPC_JMP; j'] ->
    (let p1 := zlen ((a_cs a ++ ci) ++ ce) in
     a_tab a1 = set_stk (Fld (zlen (a_cs a ++ ci)) p1 (p1 + 2) (p1 + 4) :: t_stk (a_tab a)) (resized z (most c) (a_tab a))) ->
    a_dp a1 = a_dp a -> a_pos a <= a_pos a1 <= a_pos a + 4 * (zlen (commas item_toks i) + zlen (toks 0 e)) ->
    parses m rest l a1 Q) ->
  parses m (T_FOR :: T_LPAREN :: N_EXP_LST_OPT :: T_SEMICOLON :: A_OP_FOR_INIT :: N_EXP :: A_OP_FOR_COND :: T_SEMICOLON :: rest)
    (tk T_FOR :: tk T_LPAREN :: commas item_toks i ++ tk T_SEMICOLON :: toks 0 e ++ tk T_SEMICOLON :: l) a Q.
Proof.
  intros (Hc & Hs & Hd) Hi Hg Hl Hrest Hfit HQ. pose proof lbl_size_le. pose proof (scope_ok_fp _ _ Hs).
  apply p_tok; [done|done|done|]. intros t _. apply p_tok; [done|done|by destruct (commas item_toks i)|]. intros t1 _.
  apply (p_app _ _ _ m [N_EXP_LST_OPT] (T_SEMICOLON :: A_OP_FOR_INIT :: N_EXP :: A_OP_FOR_COND :: T_SEMICOLON :: rest)).
  eapply p_mono.
  { apply (exp_lst_opt_parse libdef N cap HN c i _ (tk T_SEMICOLON :: toks 0 e ++ tk T_SEMICOLON :: l)
      (at_tok t1 (at_tok t a)) ci Hc Hi Hs); [simpl; tauto|room]. }
  intros l' a1 [-> W1]. apply (item_flat c) in W1 as (C1 & (z & T1) & D1 & P1); [|done].
  cbn [a_tab a_cs a_pos a_dp at_tok at_tab] in *. apply p_tok; [done|done|by destruct (toks 0 e)|]. intros t2 _.
  apply p_act; [done|].
  apply (does_for_init N cap HN); [cbn [a_tab at_tok]; rewrite T1; change (free (resized _ _ (a_tab a))) with (free (a_tab a)); room|].
  split; [done|]. split; [cbn [a_cs at_tab at_tok]; rewrite C1; room|].
  apply (p_app _ _ _ m [N_EXP] (A_OP_FOR_COND :: T_SEMICOLON :: rest)). eapply p_mono.
  { apply (exp_here libdef N cap HN c e _ (tk T_SEMICOLON :: l) _ ce Hc Hg); [|simpl; tauto|..];
      cbn [a_tab a_cs a_pos a_dp at_tok at_tab]; rewrite ?T1, ?C1; try room.
    - apply (scope_ok_push _ (resized z (most c) (a_tab a))). by eapply scope_resized.
    - rewrite free_push. simpl entry_size. change (free (resized _ _ (a_tab a))) with (free (a_tab a)). room. }
  intros l' a2 (-> & C2 & (z2 & T2) & D2 & P2). cbn [a_tab a_cs a_pos a_dp at_tok at_tab] in *. rewrite T1 in T2.
  apply p_act; [done|].
  eapply (does_for_cond N cap HN a2 (resized z2 (most c) (a_tab a)) (zlen (a_cs a1)));
    [by rewrite T2|done|rewrite C2, C1; room|change (free (resized _ _ (a_tab a))) with (free (a_tab a)); room|].
  intros j j' s. split; [done|]. split; [cbn [a_cs add at_spc at_tab]; rewrite C2, C1; room|].
  apply p_tok; [done|done|done|]. intros t3 _. apply (HQ _ j j' z2); cbn [a_tab a_cs a_pos a_dp add at_spc at_tok at_tab].
  - by rewrite C2, C1, <-!app_assoc.
  - by rewrite C2, C1.
  - congruence.
  - room.
Qed.

Lemma for_stm_parses i e af b : Forall (stm_parses libdef N cap) b -> stm_parses libdef N cap (SFor i e af b).
Proof.
  intros Hb c c' m l a bs Hin Hg Hl Hfit. simpl in Hg. cbn [semi body stm_toks] in *.
  destruct (items libdef (vars c) i) as [ci|] eqn:Ei; [|done]. simpl in Hg.
  destruct (gen_exp libdef (vars c) e) as [ce|] eqn:Ee; [|done]. simpl in Hg.
  destruct (items libdef (vars c) af) as [ca|] eqn:Ea; [|done]. simpl in Hg.
  destruct (block (gen_stm libdef) b c) as [[cb c1]|] eqn:Eb; [|done]. injection Hg as <- <-.
  pose proof Hin as (Hc & Hs & Hd). destruct (block_keeps libdef b c cb c1 Eb Hc) as (Hv & Hm1 & Hc1).
  pose proof (block_used _ _ _ _ Eb) as Hu. set (br := braces (concat (map stm_toks b))) in *.
  pose proof (scope_ok_fp _ _ Hs). pose proof lbl_size_le.
  pose proof (braces_min (concat (map stm_toks b))) as Hbr. fold br in Hbr.
  repeat (rewrite <-app_comm_cons || rewrite <-app_assoc).
  unfolds [T_FOR; T_LPAREN; N_EXP_LST_OPT; T_SEMICOLON; A_OP_FOR_INIT; N_EXP; A_OP_FOR_COND; T_SEMICOLON;
    N_EXP_LST_OPT; A_OP_FOR_AFTER; T_RPAREN; N_COMPOUND_STAT; A_OP_FOR_END].
  apply (for_parse c i e m (commas item_toks af ++ tk T_RPAREN :: br ++ l) a ci ce
    [N_EXP_LST_OPT; A_OP_FOR_AFTER; T_RPAREN; N_COMPOUND_STAT; A_OP_FOR_END]); [done..|by destruct (commas item_toks af)|done|room|].
  intros a1 j j' z C1 T1 D1 P1. cbv zeta in T1.
  apply (p_app _ _ _ m [N_EXP_LST_OPT] [A_OP_FOR_AFTER; T_RPAREN; N_COMPOUND_STAT; A_OP_FOR_END]).
  assert (S1 : scope_ok (a_tab a1) c).
  { rewrite T1. apply (scope_ok_push _ (resized z (most c) (a_tab a))). by eapply scope_resized. }
  eapply p_mono.
  { apply (exp_lst_opt_parse libdef N cap HN c af _ (tk T_RPAREN :: br ++ l) a1 ca Hc Ea S1); [simpl; tauto|].
    unfold JsComp.sfits. rewrite T1, C1, free_under. simpl entry_size. room. }
  intros l' a2 [-> W2]. apply (item_flat c) in W2 as (C2 & (z2 & T2) & D2 & P2); [|done].
  apply p_act; [done|].
  eapply (does_for_after N cap HN a2 (resized z2 (most c) (a_tab a)) (a_cs a ++ ci) ce j j' ca);
    [by rewrite T2, T1|done|by rewrite C2, C1; repeat (rewrite <-app_assoc)|rewrite C2, C1; room
    |change (free (resized _ _ (a_tab a))) with (free (a_tab a)); room|].
  intros s. split; [done|]. split; [cbn [a_cs]; room|].
  apply p_tok; [done|done|by destruct br|]. intros t _.
  apply (p_app _ _ _ m [N_COMPOUND_STAT] [A_OP_FOR_END]). change (zlen [_]) with 1. eapply p_mono.
  { apply (block_parse b c c1 (m + 1) l _ cb Hb); [|done|by destruct l|].
    - eapply (in_scope_under _ z2 c c a); try done; cbn [a_tab a_dp at_tok]; [congruence|by rewrite T2, T1].
    - fold br. unfold JsComp.sfits. cbn [a_tab a_cs a_pos at_tok]. rewrite T2, T1.
      change (free (resized z2 (most c) ?t)) with (free t). rewrite free_under. simpl entry_size. room. }
  fold br. intros l' a3 (-> & C3 & (z3 & T3) & D3 & P3). cbn [a_tab a_cs a_pos a_dp at_tok] in *.
  apply p_act; [done|].
  eapply (does_for_end N cap HN a3 (resized z3 (most c1) (a_tab a)) (a_cs a ++ ci) ce j
    (op12 Js.OPC_JMP (zlen ca + 2) ++ ca ++ op12 Js.OPC_JMP (- (zlen ce + zlen ca + 6))) cb).
  { by rewrite T3, T2, T1. }
  { done. }
  { by rewrite C3; repeat (rewrite <-app_assoc). }
  { rewrite C3. room. }
  { room. }
  rewrite !zlen_app, !op12_len.
  intros s'. split; [done|]. split; [cbn [a_cs]; room|]. apply p_done. split; [done|].
  apply (flat_wrote c); [done|congruence..|]. split.
  { cbn [a_cs]. replace (2 + (zlen ca + 2) + zlen cb + 2) with (zlen ca + zlen cb + 6) by lia.
    replace (2 + (zlen ca + 2) - 2 + zlen cb + 2) with (zlen ca + zlen cb + 4) by lia. by rewrite <-!app_assoc. }
  split; [by exists z3|]. split; [cbn [a_dp]; congruence|]. cbn [a_pos]. room.
Qed.

Theorem stms_parse s : stm_parses libdef N cap s.
Proof.
  induction s as [i|d ds|e|e b Hb|e b1 b2 Hb1 Hb2|e b Hb|i e a b Hb] using stm_nested.
  - by apply item_stm_parses.
  - by apply var_stm_parses.
  - by apply throw_stm_parses.
  - by apply if_stm_parses.
  - by apply if_else_stm_parses.
  - by apply while_stm_parses.
  - by apply for_stm_parses.
Qed.
End block.
