(* ===== verification/JsProg.v ===== *)
(** * MicroJS: compiling and running a program

    The parser on a whole program, and the calls a user of the compiler makes:
    the buffer gets the code of [gen_prog], which runs as the program means. *)

From S2P Require Import Prelude Js JsLl JsLex JsSym JsSdt JsLang JsGen JsVm JsScope JsRun JsTab JsAct JsParse JsComp JsBlock.
From stdpp Require Import relations.
Open Scope Z_scope.
Import Ll Lex Sym Sdt Lang Gen.

Section prog.
Context `{JsConfig}.
Variable libdef : ext_libdef.
Variables N cap : Z.
Hypothesis HN : 0 <= N < 65536.

Abbreviation parses := (parses libdef N cap).
Abbreviation sfits := (sfits N cap).

(** ** Programs *)

Lemma ll_prog_semi t : In t first_semi -> pushes N_PROGRAM t [N_SEMI_STAT; N_SEMI_LIST].
Proof. intros [<-|[<-|[<-|[]]]]; done. Qed.
Lemma ll_prog_stat t : In t first_stat -> pushes N_PROGRAM t [N_STAT; N_PROGRAM].
Proof. intros [<-|[<-|[<-|[]]]]; done. Qed.

Lemma behind_prog p l : starts behind_block l -> starts behind_block (prog_toks p ++ l).
Proof.
  intros Hl. destruct p as [|[s|b] p]; [done| |simpl; tauto].
  unfold prog_toks. cbn [map concat top_toks]. rewrite body_toks. destruct (body_first s) as (t & l' & E & Ht). rewrite E.
  unfold behind_block. simpl. destruct (semi s); simpl in *; tauto.
Qed.

(** A statement of the program and what follows. *)
Lemma prog_stm_parse s m l a c c1 b Q :
  in_scope c a -> gen_stm libdef s c = Some (b, c1) -> starts behind_block l ->
  sfits (m + 4) (stm_toks s) (zlen b) a ->
  (forall a', wrote_stm c1 b (stm_toks s) a a' -> parses m [N_PROGRAM] l a' Q) ->
  parses m [N_PROGRAM] (stm_toks s ++ l) a Q.
Proof.
  intros Hin Hg Hl Hfit HQ. pose proof (stms_parse libdef N cap HN s) as Hs. rewrite body_toks in *.
  destruct (body_first s) as (t & l' & E & Ht).
  assert (1 <= zlen (body s)) by (rewrite E, zlen_cons; pose proof (zlen_nonneg l'); lia).
  assert (Hn : l <> []) by by destruct l. destruct (semi s) eqn:Es.
  - rewrite <-app_assoc. rewrite E at 1. simpl app.
    eapply p_nt; [done|by apply ll_prog_semi|change (zlen _) with 2; unfold JsComp.sfits in Hfit; rewrite zlen_app in Hfit; change (zlen [_]) with 1 in *; lia|].
    change (t :: l' ++ ?y) with ((t :: l') ++ y). rewrite <-E.
    apply (p_app _ _ _ m [N_SEMI_STAT] [N_SEMI_LIST]). change (zlen [_]) with 1. eapply p_mono.
    { specialize (Hs c c1 (m + 1) ([tk T_SEMICOLON] ++ l) a b Hin Hg). rewrite Es in Hs. apply Hs.
      - unfold behind. rewrite Es. simpl. tauto.
      - eapply sfits_more; [|eapply (sfits_part _ _ _ _ [tk T_SEMICOLON] _ []); rewrite app_nil_r; exact Hfit]. lia. }
    intros l2 a1 [-> W]. simpl app.
    eapply (p_nt _ _ _ _ _ _ _ _ _ [T_SEMICOLON; N_PROGRAM]); [done|done|change (zlen _) with 2; unfold JsComp.sfits in Hfit; rewrite zlen_app in Hfit; change (zlen [_]) with 1 in *; lia|].
    apply p_tok; [done|done|done|]. intros t2 _. apply HQ.
    eapply wrote_stm_more; [| |exact W]; [rewrite cost_app; change (cost [_]) with 16; lia|rewrite zlen_app; change (zlen [_]) with 1; lia].
  - rewrite app_nil_r in *. rewrite E at 1. simpl app.
    eapply p_nt; [done|by apply ll_prog_stat|change (zlen _) with 2; unfold JsComp.sfits in Hfit; lia|].
    change (t :: l' ++ ?y) with ((t :: l') ++ y). rewrite <-E.
    apply (p_app _ _ _ m [N_STAT] [N_PROGRAM]). change (zlen [_]) with 1. eapply p_mono.
    { specialize (Hs c c1 (m + 1) l a b Hin Hg). rewrite Es in Hs. apply Hs.
      - unfold behind. by rewrite Es.
      - eapply sfits_more; [|exact Hfit]. lia. }
    intros l2 a1 [-> W]. by apply HQ.
Qed.

Lemma prog_parse p : forall c c' m l a bs,
  in_scope c a -> each (gen_top libdef) p c = Some (bs, c') -> l <> [] ->
  sfits (m + 4) (prog_toks p) (zlen bs) a ->
  parses m [N_PROGRAM] (prog_toks p ++ tk T_EOF :: l) a
    (fun l' a' => l' = l /\ exists t a1, a' = at_tok t a1 /\ wrote_stm c' bs (prog_toks p) a a1).
Proof.
  induction p as [|s p IH]; intros c c' m l a bs Hin Hg Hl Hfit; simpl in Hg.
  - injection Hg as <- <-. unfold JsComp.sfits in Hfit. change (zlen (prog_toks [])) with 0 in Hfit. simpl app.
    eapply (p_nt _ _ _ _ _ _ _ _ _ [T_EOF]); [done|done|change (zlen _) with 1; lia|].
    apply p_tok; [done|done|done|]. intros t _. apply p_done. split; [done|]. exists t, a. split; [done|].
    by apply wrote_none.
  - destruct (gen_top libdef s c) as [[b1 c1]|] eqn:E1; [|done]. simpl in Hg.
    destruct (each (gen_top libdef) p c1) as [[b2 c2]|] eqn:E2; [|done]. injection Hg as <- <-.
    change (prog_toks (s :: p)) with (top_toks s ++ prog_toks p) in *. rewrite <-app_assoc.
    pose proof Hin as (Hc & _). pose proof (top_keeps libdef s c b1 c1 E1 Hc) as Hext.
    assert (Hl1 : starts behind_block (prog_toks p ++ tk T_EOF :: l)) by (apply behind_prog; simpl; tauto).
    assert (HQ : forall a1, wrote_stm c1 b1 (top_toks s) a a1 -> parses m [N_PROGRAM] (prog_toks p ++ tk T_EOF :: l) a1
      (fun l' a' => l' = l /\ exists t a3, a' = at_tok t a3 /\ wrote_stm c2 (b1 ++ b2) (top_toks s ++ prog_toks p) a a3)).
    { intros a1 W1. eapply p_mono.
      { apply (IH c1 c2 m l a1 b2); [by eapply wrote_stm_scope|done|done|]. by eapply sfits_after. }
      intros l2 a2 (-> & t & a3 & -> & W2). split; [done|]. exists t, a3. split; [done|]. by eapply wrote_stm_trans. }
    destruct s as [s|b]; simpl in E1, HQ |- *.
    + eapply prog_stm_parse; [exact Hin|exact E1|exact Hl1| |exact HQ]. by eapply sfits_part.
    + destruct (block_keeps libdef b c b1 c1 E1 Hc) as (Hv & _). pose proof (block_used libdef _ _ _ _ E1) as Hu.
      pose proof Hfit as (Hm & _). simpl top_toks in *. pose proof (braces_min (concat (map stm_toks b))) as Hb.
      rewrite zlen_app in Hm. pose proof (zlen_nonneg (prog_toks p)).
      eapply (p_nt _ _ _ _ _ _ _ _ _ [N_COMPOUND_STAT; N_PROGRAM]); [done|done|change (zlen _) with 2; lia|].
      apply (p_app _ _ _ m [N_COMPOUND_STAT] [N_PROGRAM]). change (zlen [_]) with 1. eapply p_mono.
      { apply (block_parse libdef N cap HN b c c1 (m + 1) (prog_toks p ++ tk T_EOF :: l) a b1); try done.
        - apply Forall_true, stms_parse. done.
        - by destruct (prog_toks p).
        - eapply sfits_more; [|by eapply sfits_part]. lia. }
      intros l2 a1 [-> W]. by apply HQ, (flat_wrote c).
Qed.

(** ** The loop *)

Lemma loop_steps t lex d t' lex' d' : rtc (pstep libdef) (t, lex, d) (t', lex', d') ->
  exists n, forall k, compile_loop libdef (n + k) t lex d = compile_loop libdef k t' lex' d'.
Proof.
  intros R. remember (t, lex, d) as s eqn:Es. remember (t', lex', d') as s' eqn:Es'. revert t lex d Es.
  induction R as [s|s1 s2 s3 R1 R IH]; intros t lex d ->.
  - injection Es' as <- <- <-. by exists 0%nat.
  - destruct s2 as [[t2 lex2] d2]. destruct (IH Es' _ _ _ eq_refl) as [n Hn]. exists (S n). intros k. simpl.
    unfold bind. unfold pstep in R1. rewrite R1. apply Hn.
Qed.
Lemma loop_done k t lex d : d_ll d = [] -> compile_loop libdef (S k) t lex d = Some (d_pc d, d).
Proof. intros Hl. simpl. unfold compile_step, bind, get. simpl. by rewrite Hl. Qed.

(** ** The compiler's calls *)

Definition init_tab (len : Z) : symtab :=
  let t := symtab_init len in set_stk (Ref 0 :: t_stk t) t.

Lemma init_free len : 14 <= len < 65536 -> free (symtab_init len) = len - (14 + lbl_size).
Proof.
  intros Hlen. pose proof lbl_size_le. unfold symtab_init, free, t_sp, t_bp. cbn [t_top t_stk t_objs stk_size objs_size].
  rewrite u16_small by lia. lia.
Qed.

Lemma begin_writes len strs buf d0 :
  zlen buf = N -> 20 <= len < 65536 -> 2 <= N -> microjs_sdt_init cap (symtab_init len) strs = Some d0 ->
  wp (microjs_sdt_begin buf N) (fun _ d => exists a z j, rep N cap d a [N_PROGRAM; T_EOF] /\
    a_cs a = [Js.OPC_PUSHX; j] /\ a_tab a = set_stack_sz z (init_tab len) /\ a_pos a = 4 /\ a_dp a = 0) d0.
Proof.
  intros Hb Hlen HN2 Hi. pose proof lbl_size_le. unfold microjs_sdt_init in Hi. simpl in Hi. injection Hi as <-.
  set (d1 := mk_sdt (mk_token 0 0 0 []) (symtab_init len) strs buf N 0 0 0 cap [N_PROGRAM; T_EOF] 0).
  set (a1 := mk_ast [] (symtab_init len) 0 0 0 (mk_token 0 0 0 [])).
  assert (R1 : rep N cap d1 a1 [N_PROGRAM; T_EOF]).
  { split; try done. by exists buf. }
  assert (Hd : does N cap (t <- get tab;; (if symtab_isempty t then push_sym (Ref 0) else ret 0);;;
    save_spc;;; reserve Js.OPC_PUSHX;;; tgt_stack_push)%c a1 (fun _ a => exists z j, a_cs a = [Js.OPC_PUSHX; j] /\
      a_tab a = set_stack_sz z (init_tab len) /\ a_pos a = 4 /\ a_dp a = 0)).
  { apply does_bind, does_tab. simpl. apply does_bind, (does_push_sym N cap HN).
    { change (entry_size (Ref 0) <= free (symtab_init len)). rewrite init_free by lia. unfold entry_size. lia. }
    apply does_bind, does_save_spc, does_bind, (does_reserve N cap HN); [change (zlen _) with 0; lia|]. intros j.
    apply (does_stack_push N cap HN); [simpl; lia|]. intros n. by exists n, j. }
  unfold microjs_sdt_begin. do 3 (apply wp_bind, wp_put). apply wp_bind, wp_put.
  eapply wp_mono; [apply (Hd _ [N_PROGRAM; T_EOF])|].
  - split; try done; simpl; [|by rewrite u16_small by lia]. by exists buf.
  - intros _ d (a & R & z & j & E). by exists a, z, j.
Qed.

Lemma end_writes a bs j d0 d ls :
  rep N cap d a ls -> a_cs a = [Js.OPC_PUSHX; j] ++ bs -> sym_pick (a_tab a) = Some (Ref 0) -> zlen bs + 5 <= N -> 4 <= a_pos a < 65536 -> t_data_sz (a_tab a) = d0 ->
  let cs := op12 Js.OPC_PUSHX (zlen bs + 4) ++ bs ++ [Js.OPC_POP; Js.OPC_ABT; Js.OPC_RET] in
  wp microjs_sdt_end (fun r d => r = zlen cs /\ (exists j, d_code d = cs ++ j) /\ t_data_sz (d_tab d) = d0) d.
Proof.
  intros Hr Hcs Hpick HN5 Hpos Hd0 cs. pose proof (zlen_nonneg bs).
  assert (Hlen : zlen (a_cs a) = zlen bs + 2) by (rewrite Hcs, zlen_app; change (zlen [_; j]) with 2; lia).
  unfold microjs_sdt_end. apply wp_bind, wp_get, wp_bind, wp_get. simpl.
  rewrite (r_pc _ _ _ _ _ Hr), (r_cdsz _ _ _ _ _ Hr), (proj2 (Z.ltb_ge _ _)) by lia.
  eapply wp_mono with (Q := fun r d => exists a', rep N cap d a' ls /\ r = zlen cs /\ a_cs a' = cs /\ t_data_sz (a_tab a') = d0).
  2: { intros r d' (a' & Hr' & -> & Hcs' & Hd). split; [done|]. destruct (r_code _ _ _ _ _ Hr') as (k & Hk & _).
       rewrite (r_tab _ _ _ _ _ Hr'). split; [|done]. exists k. by rewrite Hk, Hcs'. }
  revert d ls Hr. change (does N cap (bail tgt_stack_pop (emit Js.OPC_POP;;; emit Js.OPC_ABT;;; t <- get tab;;
    match sym_pick t with Some (Ref a) => p <- get cpc;; fix_at a p;;; emit Js.OPC_RET;;; get cpc | _ => fault end)%c) a
    (fun r a' => r = zlen cs /\ a_cs a' = cs /\ t_data_sz (a_tab a') = d0)).
  apply (does_bail N cap HN), (does_stack_pop N cap HN); [done|]. split; [done|].
  apply does_bind, (does_emit N cap HN); [simpl; lia|]. apply does_bind, (does_emit N cap HN).
  { simpl. rewrite zlen_app, zlen_single. lia. }
  apply does_bind, does_tab. simpl. rewrite Hpick.
  apply does_bind, does_pc. apply does_bind, (does_fix N cap HN [] Js.OPC_PUSHX j (bs ++ [Js.OPC_POP; Js.OPC_ABT])); [|done|done|].
  { simpl. by rewrite Hcs, <-!app_assoc. }
  apply does_bind, (does_emit N cap HN).
  { simpl. rewrite !zlen_cons, !zlen_app. change (zlen [_; _]) with 2. lia. }
  apply does_pc. simpl. rewrite !zlen_app, Hlen. change (zlen [_]) with 1.
  replace (zlen bs + 2 + 1 + 1) with (zlen bs + 4) by lia. unfold cs.
  assert (E : (Js.OPC_PUSHX + Z.land (zlen bs + 4) 15 :: u8 (Z.shiftr (zlen bs + 4) 4) :: bs ++ [Js.OPC_POP; Js.OPC_ABT]) ++ [u8 Js.OPC_RET]
    = op12 Js.OPC_PUSHX (zlen bs + 4) ++ bs ++ [Js.OPC_POP; Js.OPC_ABT; Js.OPC_RET]).
  { simpl. by rewrite <-app_assoc. }
  rewrite <-E. done.
Qed.

Lemma init_scope z len : 14 <= len < 65536 -> scope_ok (set_stack_sz z (init_tab len)) (mk_ctx [[]] 0 0).
Proof.
  intros Hlen. pose proof lbl_size_le. exists [], [], [], [], 0. split_and!; try done.
  - unfold sym_sf_get, init_tab, symtab_init. simpl. by rewrite Z.leb_refl.
  - unfold init_tab. change (t_sp (set_stack_sz z ?t)) with (t_sp t). rewrite t_sp_push. unfold t_sp, symtab_init, entry_size. simpl. lia.
Qed.

Lemma grows_pick z len t : grows (set_stack_sz z (init_tab len)) t -> sym_pick t = Some (Ref 0).
Proof.
  intros (Hs & Hf & Ht & _). unfold sym_pick. rewrite Hs, Hf, Ht. unfold init_tab, symtab_init. simpl.
  by rewrite Z.sub_0_r, Z.eqb_refl.
Qed.

(** From the first token to the empty stack. *)
Lemma program_loop p bs c a d t lex j z len :
  each (gen_top libdef) p (mk_ctx [[]] 0 0) = Some (bs, c) ->
  rep N cap d a [N_PROGRAM; T_EOF] -> a_cs a = [Js.OPC_PUSHX; j] -> a_tab a = set_stack_sz z (init_tab len) ->
  a_pos a = 4 -> a_dp a = 0 -> inp (prog_toks p ++ [tk T_EOF; tk T_EOF; tk T_EOF]) t lex ->
  zlen bs + 10 <= N -> 16 * zlen (prog_toks p) + 5 <= cap -> cost (prog_toks p) + 20 <= len < 65536 ->
  exists n d' a', (forall k, compile_loop libdef (n + S k) t lex d = Some (d_pc d', d')) /\ rep N cap d' a' [] /\
    wrote_stm c bs (prog_toks p) a a'.
Proof.
  intros Eb R Hcs Htab Hpos Hdp Hi Hl Hcap Hlen. pose proof lbl_size_le. pose proof (cost_len (prog_toks p)).
  pose proof (zlen_nonneg (prog_toks p)).
  assert (Hp : parses 0 ([N_PROGRAM] ++ [T_EOF]) (prog_toks p ++ tk T_EOF :: [tk T_EOF; tk T_EOF]) a
    (fun _ a' => wrote_stm c bs (prog_toks p) a a')).
  { apply p_app. change (zlen [_]) with 1. eapply p_mono.
    - apply (prog_parse p (mk_ctx [[]] 0 0) c (0 + 1) [tk T_EOF; tk T_EOF] a bs); [|done|done|].
      + split; [apply init_ok|]. rewrite Htab. split; [apply init_scope; lia|done].
      + unfold JsComp.sfits. rewrite Htab, Hcs, Hpos. change (zlen [_; j]) with 2.
        change (free (set_stack_sz z ?t)) with (free t). unfold init_tab. rewrite free_push, init_free by lia.
        unfold entry_size. lia.
    - intros l a1 (-> & t1 & a2 & -> & W). apply p_tok; [done|done|done|]. intros t2 _. by apply p_done. }
  destruct (Hp [] t lex d ltac:(done) R Hi) as (t' & lex' & d' & l' & a' & Hrtc & _ & R' & W).
  destruct (loop_steps _ _ _ _ _ _ Hrtc) as [n Hn]. exists n, d', a'. split_and!; [|done|done].
  intros k. rewrite Hn. apply loop_done, (r_ll _ _ _ _ _ R').
Qed.

Lemma build_ok fuel buf size txt n d d1 d2 d3 r1 r2 r3 :
  microjs_sdt_begin buf size d = Some (r1, d1) -> microjs_compile libdef fuel txt n d1 = Some (r2, d2) -> 0 <= r2 ->
  microjs_sdt_end d2 = Some (r3, d3) -> 0 <= r3 -> js_build libdef fuel buf size txt n d = Some (r3, d3).
Proof.
  intros E1 E2 H2 E3 H3. unfold js_build, bind, get. rewrite E1, E2, (proj2 (Z.ltb_ge _ _)), E3 by done.
  by rewrite (proj2 (Z.ltb_ge _ _)).
Qed.

(** The calls write the code of the program, and say what memory it takes. *)
Theorem build_writes p cs sz len strs buf txt n :
  gen_prog libdef p = Some (cs, sz) -> reads (lexer_open txt n) (prog_toks p ++ [tk T_EOF; tk T_EOF; tk T_EOF]) -> n <> 0 ->
  zlen buf = N -> zlen cs + 5 <= N -> 16 * zlen (prog_toks p) + 5 <= cap -> cost (prog_toks p) + 20 <= len < 65536 ->
  exists d0 k0, microjs_sdt_init cap (symtab_init len) strs = Some d0 /\ forall k, (k0 <= k)%nat ->
    exists d j, js_build libdef k buf N txt n d0 = Some (zlen cs, d) /\ d_code d = cs ++ j /\ t_data_sz (d_tab d) = sz.
Proof.
  intros Hg Hread Hn0 Hbuf Hcs Hcap Hlen. unfold gen_prog in Hg.
  destruct (each (gen_top libdef) p (mk_ctx [[]] 0 0)) as [[bs c]|] eqn:Eb; [|done]. injection Hg as <- <-.
  set (cs := op12 Js.OPC_PUSHX (zlen bs + 4) ++ bs ++ [Js.OPC_POP; Js.OPC_ABT; Js.OPC_RET]).
  change (zlen cs + 5 <= N) in Hcs. assert (Ecs : zlen cs = zlen bs + 5).
  { unfold cs. rewrite !zlen_app. change (zlen (op12 _ _)) with 2. change (zlen [_; _; _]) with 3. lia. }
  pose proof (zlen_nonneg bs). pose proof (cost_len (prog_toks p)). pose proof (zlen_nonneg (prog_toks p)).
  destruct (microjs_sdt_init cap (symtab_init len) strs) as [d0|] eqn:Ei; [|done]. exists d0.
  pose proof (begin_writes len strs buf d0 Hbuf ltac:(lia) ltac:(lia) Ei) as Hbeg. unfold wp in Hbeg.
  destruct (microjs_sdt_begin buf N d0) as [[r d1]|] eqn:Ebeg; [|done].
  destruct Hbeg as (a & z & j & R & Hacs & Htab & Hpos & Hdp).
  assert (Hscan : exists t lex, lexer_scan (lexer_open txt n) = Some (t, lex) /\ typ t <> T_ERR /\
    inp (prog_toks p ++ [tk T_EOF; tk T_EOF; tk T_EOF]) t lex).
  { destruct (prog_toks p) as [|t0 l]; simpl app in *; destruct Hread as (t & lex & Hs & Ht & He & Hr); exists t, lex; done. }
  destruct Hscan as (t & lex & Hs & He & Hi).
  destruct (program_loop p bs c a d1 t lex j z len Eb R Hacs Htab Hpos Hdp Hi ltac:(lia) Hcap Hlen) as (m & d2 & a2 & Hloop & R2 & W).
  pose proof W as (C2 & G2 & S2 & _ & _ & P2). exists (m + 1)%nat. split; [done|]. intros k Hk.
  assert (Hend : wp microjs_sdt_end (fun r d => r = zlen cs /\ (exists j, d_code d = cs ++ j) /\ t_data_sz (d_tab d) = most c) d2).
  { apply (end_writes a2 bs j (most c) d2 []); try done.
    - by rewrite C2, Hacs.
    - eapply grows_pick. by rewrite <-Htab.
    - lia.
    - lia.
    - by apply scope_data. }
  unfold wp in Hend. destruct (microjs_sdt_end d2) as [[r3 d3]|] eqn:Eend; [|done]. destruct Hend as (-> & (k3 & Hk3) & Hd3).
  exists d3, k3. split; [|done]. eapply build_ok; [exact Ebeg| | |exact Eend|apply zlen_nonneg].
  - unfold microjs_compile. rewrite (proj2 (Z.eqb_neq _ _)) by done.
    unfold bind at 1, scan_next. rewrite Hs, (proj2 (Z.eqb_neq _ _)) by done. simpl.
    replace k with (m + S (k - m - 1))%nat by lia. apply Hloop.
  - rewrite (r_pc _ _ _ _ _ R2). apply zlen_nonneg.
Qed.
End prog.
