(* ===== verification/JsText.v ===== *)
(** * MicroJS: texts

    A program as a text: a blank before each token. The lexical analyser reads the
    tokens back, but for [|] and [&], which have no text. *)

From Stdlib Require Import ZifyBool.
From S2P Require Import Prelude Js JsLl JsLex JsSym JsSdt JsLang JsGen JsVm JsScope JsTab JsAct JsParse.
Open Scope Z_scope.
Import Ll Lex Lang.

(** ** Words *)

(** A number in decimal, with at most [fuel] digits. *)
Fixpoint dec (fuel : nat) (n : Z) : list Z :=
  match fuel with
  | O => []
  | S fuel => if n <? 10 then [48 + n] else dec fuel (n / 10) ++ [48 + n mod 10]
  end.
Definition spelling : list (Z * list Z) :=
  [(T_COMMA, [44]); (T_SEMICOLON, [59]); (T_PLUS, [43]); (T_MINUS, [45]); (T_STAR, [42]); (T_SLASH, [47]);
   (T_PERCENT, [37]); (T_CARET, [94]); (T_TILDE, [126]); (T_EQUALS, [61]); (T_LESSTHEN, [60]); (T_GREATTHEN, [62]);
   (T_LPAREN, [40]); (T_RPAREN, [41]); (T_LBRACE, [123]); (T_RBRACE, [125]); (T_GTE, [62; 61]); (T_LTE, [60; 61]);
   (T_EQU, [61; 61]); (T_NEQ, [33; 61]); (T_ASR, [62; 62]); (T_SHL, [60; 60]); (T_LOGICOR, [124; 124]);
   (T_LOGICAND, [38; 38]); (T_NOT, [33])].
Definition word (t : token) : list Z :=
  if typ t =? T_ID then t_s t
  else if typ t =? T_INT then dec 10 (t_u32 t)
  else
    match find (fun s => fst s =? typ t) (spelling ++ lex_keyword) with Some (_, w) => w | None => [] end.
Definition text (ts : list token) : list Z := concat (map (fun t => 32 :: word t) ts) ++ [32].

Definition name_char (c : Z) : bool := isalnum c || (c =? 95).
Definition is_name (x : list Z) : bool :=
  match x with
  | c :: l => (isalpha c || (c =? 95)) && forallb name_char l && (zlen x <? 256)
  | [] => false
  end.

Section text.
Context `{JsConfig}.

(** A token that has a text. *)
Definition printable (t : token) : bool :=
  if typ t =? T_ID then is_name (t_s t) && (keyword (t_s t) =? T_ID)
  else if typ t =? T_INT then (0 <=? t_u32 t) && (t_u32 t <? 2 ^ 32)
  else existsb (fun s => fst s =? typ t) (spelling ++ lex_keyword).
(** The row behind the table of keywords is none of them. *)
Definition beyond_ok : bool := forallb (fun kw => keyword (snd kw) =? fst kw) lex_keyword.

(** ** Scans

    [txt] has the word at [k], and a blank behind it. *)
Section scans.
Variable txt : list Z.
Abbreviation len := (zlen txt).

Lemma chr_head k c l : code_at txt k (c :: l) -> chr txt k = c /\ 0 <= k < len.
Proof. intros Hc. by destruct (code_at_head _ _ _ _ Hc). Qed.
Lemma chr_next k c d l : code_at txt k (c :: d :: l) -> chr txt (k + 1) = d /\ 0 <= k + 1 < len.
Proof. intros Hc. apply code_at_tail in Hc. by eapply chr_head. Qed.

Lemma scan_blank fuel k l : code_at txt k (32 :: l) -> scan txt len (S fuel) k = scan txt len fuel (k + 1).
Proof.
  intros Hc. destruct (chr_head _ _ _ Hc) as [E Hk]. simpl. rewrite (proj2 (Z.ltb_lt _ _)) by lia. by rewrite E.
Qed.
Lemma scan_end fuel : scan txt len (S fuel) len = Some (tk T_EOF, len).
Proof. simpl. by rewrite Z.ltb_irrefl. Qed.

Lemma scan_spelled fuel k t w : In (t, w) spelling -> code_at txt k (w ++ [32]) ->
  scan txt len (S fuel) k = Some (tk t, k + zlen w).
Proof.
  intros Hin Hc. unfold spelling in Hin. simpl in Hin.
  repeat (destruct Hin as [[= <- <-]|Hin]; [
    simpl app in Hc; destruct (chr_head _ _ _ Hc) as [E0 Hk]; destruct (chr_next _ _ _ _ Hc) as [E1 Hk1];
    cbn [scan]; rewrite (proj2 (Z.ltb_lt k len)) by lia; rewrite E0; cbn -[Z.add Z.ltb chr];
    unfold two, doubled; rewrite ?(proj2 (Z.ltb_lt (k + 1) len)) by lia; rewrite ?E1; cbn -[Z.add];
    unfold tok; do 2 f_equal; first [change (zlen _) with 2; lia|change (zlen _) with 1; lia]|]).
  done.
Qed.

(** *** Names and keywords *)

Lemma id_end_name l : forall fuel k c, code_at txt k (c :: l ++ [32]) -> forallb name_char l = true ->
  (length l < fuel)%nat -> id_end txt fuel k = Some (k + zlen l + 1).
Proof.
  induction l as [|d l IH]; intros fuel k c Hc Hl Hf; (destruct fuel as [|fuel]; [simpl in Hf; lia|]); simpl app in Hc;
    destruct (chr_next _ _ _ _ Hc) as [E _]; cbn [id_end]; rewrite E.
  - simpl. change (zlen (@nil Z)) with 0. f_equal. lia.
  - simpl in Hl. apply andb_prop in Hl as [Hd Hl]. unfold name_char in Hd. rewrite Hd. apply code_at_tail in Hc.
    rewrite (IH fuel (k + 1) d Hc Hl) by (simpl in Hf; lia). rewrite zlen_cons. f_equal. lia.
Qed.

Lemma slice_word k w l : code_at txt k (w ++ l) -> slice txt k (zlen w) = w.
Proof.
  intros (pre & post & -> & <-). unfold slice, zlen. rewrite !Nat2Z.id, drop_app_length, <-app_assoc. apply take_app_length.
Qed.

Lemma scan_name fuel k w : is_name w = true -> code_at txt k (w ++ [32]) ->
  scan txt len (S fuel) k = Some (mk_token (keyword w) (zlen w) 0 w, k + zlen w).
Proof.
  intros Hw Hc. pose proof (slice_word _ _ _ Hc) as Es. destruct w as [|c l]; [done|]. simpl in Hw.
  apply andb_prop in Hw as [Hw Hlen]. apply andb_prop in Hw as [Hcc Hl]. apply Z.ltb_lt in Hlen. pose proof (zlen_nonneg l).
  simpl app in Hc. destruct (chr_head _ _ _ Hc) as [E0 Hk].
  assert (Hfuel : (length l < S (length txt))%nat).
  { destruct Hc as (pre & post & -> & _). rewrite !length_app. simpl. rewrite length_app. lia. }
  pose proof (id_end_name l (S (length txt)) k c Hc Hl Hfuel) as Ee.
  cbn [scan]. rewrite (proj2 (Z.ltb_lt k len)), E0 by lia. cbn [negb].
  assert (Hsp : isspace c = false /\ (c =? 39) || (c =? 34) = false).
  { unfold isspace, isalpha, isupper, islower in *. lia. }
  destruct Hsp as [-> ->]. rewrite Hcc, Ee. simpl. replace (k + zlen l + 1 - k) with (zlen (c :: l)) by (rewrite zlen_cons; lia).
  rewrite u8_small by (rewrite zlen_cons in *; lia). rewrite Es. do 2 f_equal. rewrite zlen_cons. lia.
Qed.

(** *** Numbers *)

Definition value (v : Z) (l : list Z) : Z := foldl (fun v c => 10 * v + (c - 48)) v l.

Lemma value_le l : forall v, 0 <= v -> forallb isdigit l = true -> v <= value v l.
Proof.
  induction l as [|c l IH]; intros v Hv Hl; simpl in *; [lia|]. apply andb_prop in Hl as [Hc Hl].
  unfold isdigit in Hc. specialize (IH (10 * v + (c - 48)) ltac:(lia) Hl). unfold value in *. lia.
Qed.
Lemma dec_next v c : 0 <= v -> isdigit c = true -> 10 * v + (c - 48) < 2 ^ 32 ->
  u32 (u32 (Z.shiftl (u32 (Z.shiftl v 2) + v) 1) + (c - 48)) = 10 * v + (c - 48).
Proof.
  intros Hv Hc Hlt. unfold isdigit in Hc. rewrite !Z.shiftl_mul_pow2 by lia.
  rewrite (u32_small (v * 2 ^ 2)) by lia. rewrite (u32_small ((v * 2 ^ 2 + v) * 2 ^ 1)) by lia. apply u32_small || rewrite u32_small; lia.
Qed.

Lemma dec_digits_read l : forall fuel v c k, code_at txt k (c :: l ++ [32]) -> 0 <= v ->
  forallb isdigit (c :: l) = true -> value v (c :: l) < 2 ^ 32 -> (length l < fuel)%nat ->
  dec_digits txt len fuel v c k = Some (value v (c :: l), k + zlen l + 1, 32).
Proof.
  induction l as [|d l IH]; intros fuel v c k Hc Hv Hd Hlt Hf; (destruct fuel as [|fuel]; [simpl in Hf; lia|]); simpl app in Hc;
    destruct (chr_next _ _ _ _ Hc) as [E Hk]; cbn [dec_digits]; rewrite E; cbn [forallb] in Hd; apply andb_prop in Hd as [Hd Hl];
    (rewrite dec_next; [|done|done|]); rewrite ?(proj2 (Z.eqb_neq (k + 1) len)) by lia.
  - cbn -[Z.add]. change (zlen (@nil Z)) with 0. repeat f_equal; lia.
  - exact Hlt.
  - apply andb_prop in Hl as [Hd' Hl]. rewrite Hd'. apply code_at_tail in Hc. simpl in Hf. unfold isdigit in Hd.
    rewrite (IH fuel (10 * v + (c - 48)) d (k + 1) Hc) ; [|lia|cbn [forallb]; by rewrite Hd', Hl|done|lia].
    rewrite zlen_cons. do 3 f_equal. lia.
  - unfold isdigit in Hd. pose proof (value_le (d :: l) (10 * v + (c - 48)) ltac:(lia) Hl) as Hle. simpl in Hlt, Hle. unfold value in *. simpl in *. lia.
Qed.

Lemma scan_number fuel k w : w <> [] -> forallb isdigit w = true -> value 0 w < 2 ^ 32 -> (length w <= S fuel)%nat ->
  code_at txt k (w ++ [32]) -> scan txt len (S fuel) k = Some (mk_token T_INT 0 (value 0 w) [], k + zlen w).
Proof.
  intros Hne Hd Hlt Hf Hc. destruct w as [|c l]; [done|]. simpl app in Hc. destruct (chr_head _ _ _ Hc) as [E0 Hk].
  pose proof (dec_digits_read l (S fuel) 0 c k Hc ltac:(lia) Hd Hlt ltac:(simpl in Hf; lia)) as Ed.
  cbn [forallb] in Hd. apply andb_prop in Hd as [Hdc Hdl].
  cbn [scan]. rewrite (proj2 (Z.ltb_lt k len)), E0 by lia. cbn [negb].
  assert (Hsp : isspace c = false /\ (c =? 39) || (c =? 34) = false /\ isalpha c || (c =? 95) = false).
  { unfold isspace, isalpha, isupper, islower, isdigit in *. lia. }
  destruct Hsp as (-> & -> & ->). rewrite Hdc. unfold number.
  assert (Hx : (chr txt (k + 1) =? 120) || (chr txt (k + 1) =? 88) = false).
  { destruct l as [|d l]; simpl app in Hc; destruct (chr_next _ _ _ _ Hc) as [-> _]; [done|].
    simpl in Hdl. unfold isdigit in Hdl. lia. }
  rewrite Hx, andb_false_r, Ed. simpl. do 2 f_equal. rewrite zlen_cons. lia.
Qed.
End scans.

(** ** Numbers in decimal *)

Lemma value_app v l c : value v (l ++ [c]) = 10 * value v l + (c - 48).
Proof. unfold value. by rewrite foldl_app. Qed.
Lemma dec_reads fuel n : 0 <= n < 10 ^ Z.of_nat (S fuel) ->
  value 0 (dec (S fuel) n) = n /\ forallb isdigit (dec (S fuel) n) = true /\ dec (S fuel) n <> [].
Proof.
  revert n. induction fuel as [|fuel IH]; intros n Hn.
  - change (10 ^ Z.of_nat 1) with 10 in Hn. simpl. rewrite (proj2 (Z.ltb_lt _ _)) by lia.
    cbn -[Z.add Z.sub]. unfold value, isdigit. cbn -[Z.add Z.sub]. split; [lia|]. split; [lia|done].
  - remember (S fuel) as g eqn:Eg. cbn [dec]. destruct (Z.ltb_spec n 10).
    + unfold value, isdigit. cbn -[Z.add Z.sub]. split; [lia|]. split; [lia|done].
    + destruct (IH (n / 10)) as (Ev & Ed & _).
      { rewrite Nat2Z.inj_succ, Z.pow_succ_r in Hn by lia. split; [apply Z.div_pos; lia|apply Z.div_lt_upper_bound; lia]. }
      rewrite value_app, Ev, forallb_app, Ed. split; [lia|]. split; [|by destruct (dec g (n / 10))].
      simpl. unfold isdigit. pose proof (Z.mod_pos_bound n 10 ltac:(lia)). lia.
Qed.

(** ** The text is read *)

Lemma word_reads txt fuel k t : beyond_ok = true -> printable t = true -> code_at txt k (word t ++ [32]) ->
  (length (word t) <= S fuel)%nat ->
  exists t', scan txt (zlen txt) (S fuel) k = Some (t', k + zlen (word t)) /\ tok_is t' t /\ typ t' <> T_ERR.
Proof.
  intros Hb Hp Hc Hf. unfold printable, word in *. destruct (Z.eqb_spec (typ t) T_ID) as [E|E].
  { apply andb_prop in Hp as [Hn Hk]. apply Z.eqb_eq in Hk. eexists. split; [by apply scan_name|].
    unfold tok_is. simpl. by rewrite Hk, E. }
  destruct (Z.eqb_spec (typ t) T_INT) as [E'|E'].
  { apply andb_prop in Hp as [H0 H1]. apply Z.leb_le in H0. apply Z.ltb_lt in H1.
    destruct (dec_reads 9 (t_u32 t)) as (Ev & Ed & Hne); [lia|]. exists (mk_token T_INT 0 (t_u32 t) []). split; [|by unfold tok_is; simpl; rewrite E'].
    assert (Hs := scan_number txt fuel k (dec 10 (t_u32 t)) Hne Ed). rewrite Ev in Hs. by apply Hs. }
  destruct (find (fun s => fst s =? typ t) (spelling ++ lex_keyword)) as [[ty w]|] eqn:Ef.
  2: { apply existsb_exists in Hp as (x & Hin & Hx). by rewrite (find_none _ _ Ef _ Hin) in Hx. }
  apply find_some in Ef as [Hin Hty]. apply Z.eqb_eq in Hty. simpl in Hty. apply in_app_or in Hin as [Hin|Hin].
  - exists (tk ty). split; [by apply scan_spelled|]. unfold tok_is. simpl. rewrite Hty. split; [by split_and!|].
    rewrite <-Hty. unfold spelling in Hin. simpl in Hin. repeat (destruct Hin as [[= <- _]|Hin]; [done|]). done.
  - unfold beyond_ok in Hb. rewrite forallb_forall in Hb. specialize (Hb _ Hin). apply Z.eqb_eq in Hb. simpl in Hb.
    assert (Hn : is_name w = true).
    { unfold lex_keyword in Hin. simpl in Hin. repeat (destruct Hin as [[= _ <-]|Hin]; [done|]). done. }
    eexists. split; [by apply scan_name|]. unfold tok_is. simpl. rewrite Hb, Hty. split; [by split_and!|].
    rewrite <-Hty. unfold lex_keyword in Hin. simpl in Hin. repeat (destruct Hin as [[= <- _]|Hin]; [done|]). done.
Qed.

Lemma text_cons t ts : text (t :: ts) = 32 :: word t ++ text ts.
Proof. unfold text. simpl. by rewrite <-app_assoc. Qed.
Lemma text_head ts : exists l, text ts = 32 :: l.
Proof. destruct ts; by eexists. Qed.

Lemma end_reads txt n : zlen txt < 65536 -> reads (mk_lexer (zlen txt) (zlen txt) txt) (replicate n (tk T_EOF)).
Proof.
  intros Hlen. induction n as [|n IH]; [done|]. simpl. exists (tk T_EOF), (mk_lexer (zlen txt) (zlen txt) txt).
  split_and!; try done. unfold lexer_scan. cbn [l_txt l_len l_off]. rewrite scan_end. cbn -[u16].
  pose proof (zlen_nonneg txt). by rewrite u16_small by lia.
Qed.

Lemma text_reads_from ts n : beyond_ok = true -> forallb printable ts = true -> forall pre txt,
  txt = pre ++ text ts -> zlen txt < 65536 ->
  reads (mk_lexer (zlen pre) (zlen txt) txt) (ts ++ replicate (S n) (tk T_EOF)).
Proof.
  intros Hb. induction ts as [|t ts IH]; intros Hp pre txt Et Hlen.
  - assert (Hz : zlen txt = zlen pre + 1) by (rewrite Et, zlen_app; done). pose proof (zlen_nonneg pre).
    simpl. exists (tk T_EOF), (mk_lexer (zlen txt) (zlen txt) txt). split_and!; try done; [|by apply end_reads].
    unfold lexer_scan. cbn [l_txt l_len l_off]. rewrite (scan_blank _ _ _ []) by (exists pre, []; done).
    rewrite <-Hz. replace (Z.to_nat (zlen txt)) with (S (Z.to_nat (zlen txt - 1))) by lia. rewrite scan_end. cbn -[u16].
    by rewrite u16_small by lia.
  - simpl in Hp. apply andb_prop in Hp as [Ht Hp]. destruct (text_head ts) as [l Hl].
    rewrite text_cons in Et. assert (Hz : zlen txt = zlen pre + zlen (word t) + zlen (text ts) + 1).
    { rewrite Et, zlen_app, zlen_cons, zlen_app. lia. }
    assert (Hz1 : 1 <= zlen (text ts)) by (rewrite Hl, zlen_cons; pose proof (zlen_nonneg l); lia).
    pose proof (zlen_nonneg pre). pose proof (zlen_nonneg (word t)).
    assert (Hc : code_at txt (zlen pre) (32 :: word t ++ [32])).
    { exists pre, l. rewrite Et, Hl. simpl. by rewrite <-app_assoc. }
    destruct (word_reads txt (Z.to_nat (zlen txt - 1)) (zlen pre + 1) t Hb Ht) as (t' & Hs & Htok & Herr).
    { by apply code_at_tail in Hc. }
    { unfold zlen in *. lia. }
    simpl. exists t', (mk_lexer (zlen (pre ++ 32 :: word t)) (zlen txt) txt). split_and!; [|done|done|].
    + unfold lexer_scan. cbn [l_txt l_len l_off]. rewrite (scan_blank _ _ _ _ Hc).
      replace (Z.to_nat (zlen txt)) with (S (Z.to_nat (zlen txt - 1))) by lia. rewrite Hs. cbn -[u16].
      rewrite u16_small by lia. do 3 f_equal. rewrite zlen_app, zlen_cons. lia.
    + apply IH; [done| |done]. rewrite Et. by rewrite <-app_assoc.
Qed.

(** The tokens printed are the tokens read. *)
Lemma text_reads ts : beyond_ok = true -> forallb printable ts = true -> zlen (text ts) < 65536 ->
  reads (lexer_open (text ts) (zlen (text ts))) (ts ++ [tk T_EOF; tk T_EOF; tk T_EOF]).
Proof.
  intros Hb Hp Hlen. pose proof (zlen_nonneg (text ts)). unfold lexer_open. rewrite u16_small by lia.
  by apply (text_reads_from ts 2 Hb Hp []).
Qed.
End text.
