(* ===== verification/JsGrammar.v ===== *)
(** * MicroJS: the grammar

    [sdk/libmicrojs/microjs.gr] as a list of productions, its nullable symbols and
    its FIRST and FOLLOW sets. The tables of the parser are its LL(1) tables, and
    the stack machine they drive takes the sentences of the grammar, and no
    others. *)

From S2P Require Import Prelude JsLl.
From stdpp Require Import relations.
Open Scope Z_scope.
Import Ll.

Module Gr.

(** ** Productions, in the order of the file *)

Definition grammar : list (Z * list Z) :=
  [(N_PROGRAM, [T_EOF]); (N_PROGRAM, [N_STAT; N_PROGRAM]); (N_PROGRAM, [N_SEMI_STAT; N_SEMI_LIST]);
   (N_PROGRAM, [N_COMPOUND_STAT; N_PROGRAM]); (N_SEMI_LIST, [T_EOF]); (N_SEMI_LIST, [T_SEMICOLON; N_PROGRAM]);
   (N_VAR_LIST, [N_VAR; N_VAR_LIST1]); (N_VAR_LIST1, []); (N_VAR_LIST1, [T_COMMA; N_VAR_LIST]);
   (N_VAR, [T_ID; A_OP_VAR_DECL; A_OP_PUSH_TMP; N_VAR_ASSIGN_OPT]); (N_VAR_ASSIGN_OPT, [A_OP_POP_TMP]);
   (N_VAR_ASSIGN_OPT, [T_EQUALS; N_EXP; A_OP_VAR_ASSIGN]); (N_ASSIGN_OR_CALL1, [T_EQUALS; N_EXP; A_OP_VAR_ASSIGN]);
   (N_ASSIGN_OR_CALL1, [N_FUNCTION_CALL; A_OP_RET_DISCARD]);
   (N_ASSIGN_OR_CALL1, [T_LBRACKET; N_EXP; T_RBRACKET; A_OP_ARRAY_XLAT; T_DOT; N_ATTR_ASSIGN]);
   (N_ASSIGN_OR_CALL1, [T_DOT; A_OP_OBJECT_GET; N_ATTR_ASSIGN]);
   (N_ATTR_ASSIGN, [T_ID; A_OP_PUSH_TMP; N_ATTR_ASSIGN2]); (N_ATTR_ASSIGN2, [T_EQUALS; N_EXP; A_OP_ATTR_ASSIGN]);
   (N_ATTR_ASSIGN2, [T_LBRACKET; N_EXP; T_RBRACKET; T_EQUALS; N_EXP; A_OP_ARRAY_ASSIGN]);
   (N_ATTR_ASSIGN2, [N_METHOD_CALL; A_OP_RET_DISCARD]);
   (N_METHOD_CALL, [A_OP_METHOD_LOOKUP; T_LPAREN; N_ARG_LIST_OPT; T_RPAREN; A_OP_CALL]);
   (N_FUNCTION_CALL, [A_OP_FUNCTION_LOOKUP; T_LPAREN; N_ARG_LIST_OPT; T_RPAREN; A_OP_CALL]); (N_ARG_LIST_OPT, []);
   (N_ARG_LIST_OPT, [N_ARG_LIST]); (N_ARG_LIST, [N_EXP; A_OP_ARG; N_ARG_LIST1]); (N_ARG_LIST1, []);
   (N_ARG_LIST1, [T_COMMA; N_ARG_LIST]); (N_EXP_LST_OPT, []); (N_EXP_LST_OPT, [N_EXP_LST]);
   (N_EXP_LST, [T_ID; A_OP_PUSH_TMP; N_ASSIGN_OR_CALL1; N_EXP_LST1]); (N_EXP_LST1, []);
   (N_EXP_LST1, [T_COMMA; N_EXP_LST]); (N_EXP, [N_AND_EXP; N_OR_EXP]); (N_OR_EXP, []);
   (N_OR_EXP, [T_BAR; N_EXP; A_OP_OR]); (N_OR_EXP, [T_LOGICOR; N_EXP; A_OP_LOGIC_OR]);
   (N_OR_EXP, [T_CARET; N_EXP; A_OP_XOR]); (N_AND_EXP, [N_RELATIONAL_EXP; N_AND_EXP1]); (N_AND_EXP1, []);
   (N_AND_EXP1, [T_AMPERSAND; N_AND_EXP; A_OP_AND]); (N_AND_EXP1, [T_LOGICAND; N_AND_EXP; A_OP_LOGIC_AND]);
   (N_RELATIONAL_EXP, [N_SHIFT_EXP; N_RELATIONAL_EXP1]); (N_RELATIONAL_EXP1, []);
   (N_RELATIONAL_EXP1, [T_LESSTHEN; N_RELATIONAL_EXP; A_OP_LT]);
   (N_RELATIONAL_EXP1, [T_GREATTHEN; N_RELATIONAL_EXP; A_OP_GT]);
   (N_RELATIONAL_EXP1, [T_EQU; N_RELATIONAL_EXP; A_OP_EQU]);
   (N_RELATIONAL_EXP1, [T_NEQ; N_RELATIONAL_EXP; A_OP_NEQ]);
   (N_RELATIONAL_EXP1, [T_GTE; N_RELATIONAL_EXP; A_OP_GTE]);
   (N_RELATIONAL_EXP1, [T_LTE; N_RELATIONAL_EXP; A_OP_LTE]); (N_SHIFT_EXP, [N_ADDITIVE_EXP; N_SHIFT_EXP1]);
   (N_SHIFT_EXP1, []); (N_SHIFT_EXP1, [T_SHL; N_SHIFT_EXP; A_OP_SHL]);
   (N_SHIFT_EXP1, [T_ASR; N_SHIFT_EXP; A_OP_ASR]); (N_ADDITIVE_EXP, [N_DIV_EXP; N_ADDITIVE_EXP1]);
   (N_ADDITIVE_EXP1, []); (N_ADDITIVE_EXP1, [T_PLUS; N_ADDITIVE_EXP; A_OP_ADD]);
   (N_ADDITIVE_EXP1, [T_MINUS; N_ADDITIVE_EXP; A_OP_SUB]); (N_DIV_EXP, [N_MULT_EXP; N_DIV_EXP1]); (N_DIV_EXP1, []);
   (N_DIV_EXP1, [T_SLASH; N_DIV_EXP; A_OP_DIV]); (N_DIV_EXP1, [T_PERCENT; N_DIV_EXP; A_OP_MOD]);
   (N_MULT_EXP, [N_UNARY_EXP; N_MULT_EXP1]); (N_MULT_EXP1, []); (N_MULT_EXP1, [T_STAR; N_MULT_EXP; A_OP_MUL]);
   (N_UNARY_EXP, [N_PRIMARY_EXP]); (N_UNARY_EXP, [T_TILDE; N_UNARY_EXP; A_OP_INV]);
   (N_UNARY_EXP, [T_MINUS; N_UNARY_EXP; A_OP_MINUS]); (N_UNARY_EXP, [T_NOT; N_UNARY_EXP; A_OP_NOT]);
   (N_PRIMARY_EXP, [T_LPAREN; N_EXP; T_RPAREN]); (N_PRIMARY_EXP, [T_INT; A_OP_PUSH_INT]);
   (N_PRIMARY_EXP, [T_CHAR; A_OP_PUSH_INT]); (N_PRIMARY_EXP, [T_STRING; A_OP_PUSH_STRING]);
   (N_PRIMARY_EXP, [T_TRUE; A_OP_PUSH_TRUE]); (N_PRIMARY_EXP, [T_FALSE; A_OP_PUSH_FALSE]);
   (N_PRIMARY_EXP, [N_ID_EVAL]); (N_ID_EVAL, [T_ID; A_OP_PUSH_TMP; N_ID_EVAL1]); (N_ID_EVAL1, [A_OP_VAR_EVAL]);
   (N_ID_EVAL1, [N_FUNCTION_CALL; A_OP_CALL_RET]);
   (N_ID_EVAL1, [T_LBRACKET; N_EXP; T_RBRACKET; A_OP_ARRAY_XLAT; T_DOT; N_ATTR_EVAL]);
   (N_ID_EVAL1, [T_DOT; A_OP_OBJECT_GET; N_ATTR_EVAL]); (N_ATTR_EVAL, [T_ID; A_OP_PUSH_TMP; N_ATTR_EVAL1]);
   (N_ATTR_EVAL1, [A_OP_ATTR_EVAL]); (N_ATTR_EVAL1, [N_METHOD_CALL; A_OP_CALL_RET]);
   (N_ATTR_EVAL1, [T_LBRACKET; N_EXP; T_RBRACKET; A_OP_ARRAY_EVAL]);
   (N_COMPOUND_STAT, [T_LBRACE; A_OP_BLK_OPEN; N_STAT_LIST; T_RBRACE; A_OP_BLK_CLOSE]); (N_STAT_LIST, []);
   (N_STAT_LIST, [N_STAT; N_STAT_LIST]); (N_STAT_LIST, [N_SEMI_STAT; T_SEMICOLON; N_STAT_LIST]);
   (N_STAT, [T_FOR; T_LPAREN; N_EXP_LST_OPT; T_SEMICOLON; A_OP_FOR_INIT; N_EXP; A_OP_FOR_COND; T_SEMICOLON; N_EXP_LST_OPT; A_OP_FOR_AFTER; T_RPAREN; N_COMPOUND_STAT; A_OP_FOR_END]);
   (N_STAT, [T_WHILE; A_OP_WHILE_BEGIN; N_CONDITION; A_OP_WHILE_COND; N_COMPOUND_STAT; A_OP_WHILE_END]);
   (N_STAT, [T_IF; N_CONDITION; A_OP_IF_COND; N_COMPOUND_STAT; N_ELSE_OPT; A_OP_IF_END]);
   (N_STAT, [T_TRY; A_OP_TRY_BEGIN; N_COMPOUND_STAT; N_CATCH_OPT]); (N_CONDITION, [T_LPAREN; N_EXP; T_RPAREN]);
   (N_SEMI_STAT, [T_THROW; N_EXP; A_OP_THROW]); (N_SEMI_STAT, [T_VAR; N_VAR_LIST]);
   (N_SEMI_STAT, [T_ID; A_OP_PUSH_TMP; N_ASSIGN_OR_CALL1]); (N_ELSE_OPT, []);
   (N_ELSE_OPT, [T_ELSE; A_OP_IF_ELSE; N_COMPOUND_STAT]); (N_CATCH_OPT, [A_OP_TRY_END]);
   (N_CATCH_OPT, [T_CATCH; A_OP_CATCH; A_OP_BLK_OPEN; T_LPAREN; T_ID; A_OP_VAR_DECL; A_OP_PUSH_TMP; A_OP_VAR_ASSIGN; T_RPAREN; T_LBRACE; N_STAT_LIST; T_RBRACE; A_OP_BLK_CLOSE; A_OP_CATCH_END])].

Definition is_tok (s : Z) : bool := (0 <=? s) && (s <? NONTERM_BASE).
Definition is_nt (s : Z) : bool := (NONTERM_BASE <=? s) && (s <? ACTION_BASE).

(** [ss] derives the tokens [ts]; actions derive nothing. *)
Inductive derives : list Z -> list Z -> Prop :=
| d_nil : derives [] []
| d_tok t ss ts : is_tok t = true -> derives ss ts -> derives (t :: ss) (t :: ts)
| d_act a ss ts : ACTION_BASE <= a -> derives ss ts -> derives (a :: ss) ts
| d_nt n rhs ss ts : In (n, rhs) grammar -> derives (rhs ++ ss) ts -> derives (n :: ss) ts.

(** ** Sets of symbols, as bits *)

Section sets.
Variable null : Z.
Definition null_sym (s : Z) : bool := if s <? NONTERM_BASE then false else if ACTION_BASE <=? s then true else Z.testbit null s.
Definition null_seq (ss : list Z) : bool := forallb null_sym ss.
Variable sets : list Z.
Definition set_of (s : Z) : Z := nth (Z.to_nat (s - NONTERM_BASE)) sets 0.
(** FIRST of a sequence. *)
Fixpoint first_seq (ss : list Z) : Z :=
  match ss with
  | [] => 0
  | s :: ss =>
    if s <? NONTERM_BASE then 2 ^ s
    else if ACTION_BASE <=? s then first_seq ss
    else Z.lor (set_of s) (if null_sym s then first_seq ss else 0)
  end.
Definition add_to (s x : Z) : list Z :=
  let i := Z.to_nat (s - NONTERM_BASE) in <[i := Z.lor (nth i sets 0) x]> sets.
End sets.

Definition empty : list Z := replicate 44 0.
Definition null_round (null : Z) : Z :=
  foldl (fun m r => if null_seq m (snd r) then Z.setbit m (fst r) else m) null grammar.
Definition nullable : Z := Eval vm_compute in Nat.iter 8 null_round 0.
Definition first_round (sets : list Z) : list Z :=
  foldl (fun sets r => add_to sets (fst r) (first_seq nullable sets (snd r))) sets grammar.
Definition first : list Z := Eval vm_compute in Nat.iter 16 first_round empty.
Definition FIRST (ss : list Z) : Z := first_seq nullable first ss.

(** FOLLOW: what comes behind each occurrence. The program has the end of the text
    behind it. *)
Fixpoint follow_rule (n : Z) (rhs : list Z) (sets : list Z) : list Z :=
  match rhs with
  | [] => sets
  | s :: rhs =>
    follow_rule n rhs
      (if is_nt s then add_to sets s (Z.lor (FIRST rhs) (if null_seq nullable rhs then set_of sets n else 0)) else sets)
  end.
Definition follow_round (sets : list Z) : list Z := foldl (fun sets r => follow_rule (fst r) (snd r) sets) sets grammar.
Definition follow : list Z := Eval vm_compute in Nat.iter 16 follow_round (add_to empty N_PROGRAM (2 ^ T_EOF)).
Definition FOLLOW (n : Z) : Z := set_of follow n.

(** The productions of [n] that the lookahead [t] allows. *)
Definition allows (t n : Z) (rhs : list Z) : bool :=
  Z.testbit (FIRST rhs) t || null_seq nullable rhs && Z.testbit (FOLLOW n) t.
Definition ll1 (n t : Z) : list (list Z) :=
  snd <$> List.filter (fun r => (fst r =? n) && allows t n (snd r)) grammar.

(** The stack machine of [compile_step], on the types of the tokens. *)
Inductive ll_step : list Z * list Z -> list Z * list Z -> Prop :=
| st_eat t ss ts : is_tok t = true -> ll_step (t :: ss, t :: ts) (ss, ts)
| st_act a ss ts : ACTION_BASE <= a -> ll_step (a :: ss, ts) (ss, ts)
| st_expand n ss t ts rhs : is_tok t = true -> is_nt n = true -> microjs_ll_push n t = Some (inr rhs) ->
    ll_step (n :: ss, t :: ts) (rhs ++ ss, t :: ts).
End Gr.
Import Gr.

(** ** The tables are the grammar's *)

Definition same (l : list (list Z)) (r : option (Z + list Z)) : bool :=
  match l, r with
  | [rhs], Some (inr rhs') => bool_decide (rhs = rhs')
  | [], Some (inl e) => e =? -1
  | _, _ => false
  end.
Lemma same_spec l r : same l r = true -> l = [] /\ r = Some (inl (-1)) \/ exists rhs, l = [rhs] /\ r = Some (inr rhs).
Proof.
  destruct l as [|rhs [|]], r as [[e|rhs']|]; try done; simpl; intros E.
  - apply Z.eqb_eq in E as ->. by left.
  - apply bool_decide_eq_true in E as ->. right. by exists rhs'.
Qed.
Definition entries : list Z := (fun i => Z.of_nat i) <$> seq 0 93.
Lemma entries_in z : 0 <= z < 93 -> In z entries.
Proof.
  intros Hz. unfold entries. apply list_elem_of_In, list_elem_of_fmap. exists (Z.to_nat z).
  split; [lia|]. apply elem_of_seq. lia.
Qed.
Lemma all_entries (P : Z -> Z -> bool) :
  forallb (fun n => if is_nt n then forallb (fun t => if is_tok t then P n t else true) entries else true) entries = true ->
  forall n t, is_nt n = true -> is_tok t = true -> P n t = true.
Proof.
  intros Ha n t Hn Ht. rewrite forallb_forall in Ha.
  assert (Hn' : 0 <= n < 93) by (unfold is_nt, NONTERM_BASE, ACTION_BASE in Hn; lia).
  assert (Ht' : 0 <= t < 93) by (unfold is_tok, NONTERM_BASE in Ht; lia).
  specialize (Ha n (entries_in n Hn')). rewrite Hn, forallb_forall in Ha. specialize (Ha t (entries_in t Ht')).
  by rewrite Ht in Ha.
Qed.
Lemma all_same n t : is_nt n = true -> is_tok t = true -> same (ll1 n t) (microjs_ll_push n t) = true.
Proof. apply (all_entries (fun n t => same (ll1 n t) (microjs_ll_push n t))). by vm_compute. Qed.

(** What the binary search finds is the grammar's only production that the
    lookahead allows; there is no entry where there is none. *)
Lemma ll_push_ll1 n t : is_nt n = true -> is_tok t = true ->
  ll1 n t = [] /\ microjs_ll_push n t = Some (inl (-1)) \/
  exists rhs, ll1 n t = [rhs] /\ microjs_ll_push n t = Some (inr rhs).
Proof.
  intros Hn Ht. apply same_spec, (all_same n t Hn Ht).
Qed.

Lemma ll1_in n t rhs : In rhs (ll1 n t) <-> In (n, rhs) grammar /\ allows t n rhs = true.
Proof.
  unfold ll1. rewrite <-list_elem_of_In, list_elem_of_fmap. split.
  - intros ([n' r] & -> & Hin). apply list_elem_of_In, filter_In in Hin as [Hin Hf]. simpl in *.
    apply andb_prop in Hf as [E Ha]. apply Z.eqb_eq in E as ->. done.
  - intros [Hin Ha]. exists (n, rhs). split; [done|]. apply list_elem_of_In, filter_In. split; [done|]. simpl.
    by rewrite Z.eqb_refl, Ha.
Qed.

(** ** The sets are closed under the productions *)

Definition sub_set (a b : Z) : bool := Z.land a (Z.lnot b) =? 0.
Lemma sub_set_bit a b t : sub_set a b = true -> Z.testbit a t = true -> Z.testbit b t = true.
Proof.
  unfold sub_set. intros Hs Ha. apply Z.eqb_eq in Hs. destruct (decide (0 <= t)); [|by rewrite Z.testbit_neg_r in Ha by lia].
  assert (E : Z.testbit (Z.land a (Z.lnot b)) t = false) by (rewrite Hs; apply Z.bits_0).
  rewrite Z.land_spec, Z.lnot_spec, Ha in E by done. simpl in E. by destruct (Z.testbit b t).
Qed.

Fixpoint follow_ok (n : Z) (rhs : list Z) : bool :=
  match rhs with
  | [] => true
  | s :: rhs =>
    (negb (is_nt s) || sub_set (FIRST rhs) (FOLLOW s) && (negb (null_seq nullable rhs) || sub_set (FOLLOW n) (FOLLOW s)))
    && follow_ok n rhs
  end.
Lemma rules_closed : forallb (fun r => is_nt (fst r) && forallb (fun s => 0 <=? s) (snd r)
    && (negb (null_seq nullable (snd r)) || Z.testbit nullable (fst r))
    && sub_set (FIRST (snd r)) (set_of first (fst r)) && follow_ok (fst r) (snd r)) grammar = true.
Proof. by vm_compute. Qed.
Lemma rule_closed n rhs : In (n, rhs) grammar ->
  is_nt n = true /\ (null_seq nullable rhs = true -> Z.testbit nullable n = true) /\
  (forall t, Z.testbit (FIRST rhs) t = true -> Z.testbit (set_of first n) t = true) /\ follow_ok n rhs = true.
Proof.
  intros Hin. pose proof rules_closed as Hc. rewrite forallb_forall in Hc. specialize (Hc _ Hin). cbn [fst snd] in Hc.
  apply andb_prop in Hc as [Hc Hf]. apply andb_prop in Hc as [Hc Hs]. apply andb_prop in Hc as [Hc Hn].
  apply andb_prop in Hc as [Hc _]. split_and!; try done.
  - intros E. by rewrite E in Hn.
  - intros t. by apply sub_set_bit.
Qed.

Lemma nt_sym n : is_nt n = true -> (n <? NONTERM_BASE) = false /\ (ACTION_BASE <=? n) = false.
Proof. unfold is_nt, NONTERM_BASE, ACTION_BASE. lia. Qed.

Lemma null_sound ss ts : derives ss ts -> ts = [] -> null_seq nullable ss = true.
Proof.
  induction 1 as [|t ss ts Ht Hd IH|a ss ts Ha Hd IH|n rhs ss ts Hin Hd IH]; intros E; [done|done| |].
  - simpl. rewrite IH, andb_true_r by done. unfold null_sym, NONTERM_BASE, ACTION_BASE in *.
    by rewrite (proj2 (Z.ltb_ge _ _)), (proj2 (Z.leb_le _ _)) by lia.
  - specialize (IH E). unfold null_seq in *. rewrite forallb_app in IH. apply andb_prop in IH as [Hr Hs].
    destruct (rule_closed _ _ Hin) as (Hn & Hnull & _). simpl. rewrite Hs, andb_true_r.
    unfold null_sym. destruct (nt_sym _ Hn) as [-> ->]. by apply Hnull.
Qed.

Lemma FIRST_app ss ss' t : Z.testbit (FIRST (ss ++ ss')) t = Z.testbit (FIRST ss) t || null_seq nullable ss && Z.testbit (FIRST ss') t.
Proof.
  unfold FIRST. induction ss as [|s ss IH]; simpl; [by rewrite Z.bits_0|]. unfold null_sym.
  destruct (s <? NONTERM_BASE); simpl; [by rewrite orb_false_r|]. destruct (ACTION_BASE <=? s); simpl; [done|].
  rewrite !Z.lor_spec. destruct (Z.testbit nullable s); simpl; [by rewrite IH, orb_assoc|].
  by rewrite Z.bits_0, !orb_false_r.
Qed.

Lemma first_sound ss ts : derives ss ts -> forall t ts', ts = t :: ts' -> Z.testbit (FIRST ss) t = true.
Proof.
  induction 1 as [|t ss ts Ht Hd IH|a ss ts Ha Hd IH|n rhs ss ts Hin Hd IH]; intros t' ts' E; [done| | |].
  - injection E as <- <-. unfold FIRST, is_tok in *. simpl. rewrite (proj2 (Z.ltb_lt _ _)) by lia.
    by rewrite Z.pow2_bits_true by lia.
  - unfold FIRST in *. simpl. unfold NONTERM_BASE, ACTION_BASE in *.
    rewrite (proj2 (Z.ltb_ge _ _)), (proj2 (Z.leb_le _ _)) by lia. by eapply IH.
  - specialize (IH _ _ E). rewrite FIRST_app in IH. destruct (rule_closed _ _ Hin) as (Hn & Hnull & Hf & _).
    unfold FIRST. simpl. unfold null_sym. destruct (nt_sym _ Hn) as [-> ->]. rewrite Z.lor_spec.
    apply orb_prop in IH as [IH|IH]; [by rewrite (Hf _ IH)|]. apply andb_prop in IH as [Hr Hs].
    rewrite (Hnull Hr). fold (FIRST ss). by rewrite Hs, orb_true_r.
Qed.

(** ** The stack machine takes the sentences *)

(** What is behind a nonterminal of the stack begins with what may follow it. *)
Fixpoint stack_ok (ss : list Z) : Prop :=
  match ss with
  | [] => True
  | s :: ss => (is_nt s = true -> forall t, Z.testbit (FIRST ss) t = true -> Z.testbit (FOLLOW s) t = true) /\ stack_ok ss
  end.

Lemma stack_ok_expand n rhs ss : follow_ok n rhs = true ->
  (forall t, Z.testbit (FIRST ss) t = true -> Z.testbit (FOLLOW n) t = true) -> stack_ok ss -> stack_ok (rhs ++ ss).
Proof.
  intros Hf Hn Hs. induction rhs as [|s rhs IH]; [done|]. simpl in Hf |- *. apply andb_prop in Hf as [Hh Hf].
  split; [|by apply IH]. intros Hnt t Ht. rewrite Hnt in Hh. simpl in Hh. apply andb_prop in Hh as [H1 H2].
  rewrite FIRST_app in Ht. apply orb_prop in Ht as [Ht|Ht]; [by eapply sub_set_bit|].
  apply andb_prop in Ht as [Hnull Ht]. rewrite Hnull in H2. simpl in H2. eapply sub_set_bit; [exact H2|by apply Hn].
Qed.

Lemma derives_nonempty ss : ~ derives (ss ++ [T_EOF]) [].
Proof.
  intros Hd. apply null_sound in Hd; [|done]. unfold null_seq in Hd. rewrite forallb_app in Hd.
  apply andb_prop in Hd as [_ Hd]. done.
Qed.

Lemma derives_tok ss ts : derives ss ts -> forall t ts', ts = t :: ts' -> is_tok t = true.
Proof.
  induction 1 as [|t ss ts Ht Hd IH|a ss ts Ha Hd IH|n rhs ss ts Hin Hd IH]; intros t' ts' E; [done| |by eapply IH|by eapply IH].
  by injection E as <- <-.
Qed.

Lemma ll_complete ss ts : derives ss ts -> forall pre, ss = pre ++ [T_EOF] -> stack_ok ss -> rtc ll_step (ss, ts) ([], []).
Proof.
  induction 1 as [|t ss ts Ht Hd IH|a ss ts Ha Hd IH|n rhs ss ts Hin Hd IH]; intros pre E Hok.
  - by destruct pre.
  - apply rtc_l with (ss, ts); [by apply st_eat|]. destruct pre as [|p pre].
    + injection E as -> ->. by inversion Hd.
    + injection E as -> ->. by apply (IH pre); [|apply Hok].
  - apply rtc_l with (ss, ts); [by apply st_act|]. destruct pre as [|p pre].
    + injection E as -> _. done.
    + injection E as -> ->. by apply (IH pre); [|apply Hok].
  - destruct (rule_closed _ _ Hin) as (Hn & _ & _ & Hf). destruct pre as [|p pre]; [injection E as -> _; done|].
    injection E as -> ->. destruct Hok as [Hfol Hok]. specialize (Hfol Hn).
    assert (Hts : exists t ts', ts = t :: ts' /\ is_tok t = true).
    { destruct ts as [|t ts]; [by rewrite app_assoc in Hd; apply derives_nonempty in Hd|]. exists t, ts. split; [done|].
      by eapply derives_tok. }
    destruct Hts as (t & ts' & -> & Ht). apply rtc_l with (rhs ++ pre ++ [T_EOF], t :: ts').
    + assert (Hall : allows t p rhs = true).
      { unfold allows. pose proof (first_sound _ _ Hd t ts' eq_refl) as Hfirst. rewrite FIRST_app in Hfirst.
        apply orb_prop in Hfirst as [->|Hfirst]; [done|]. apply andb_prop in Hfirst as [-> Hfirst].
        by rewrite (Hfol _ Hfirst), orb_true_r. }
      apply st_expand; [done|done|]. assert (Hl : In rhs (ll1 p t)) by by apply ll1_in.
      destruct (ll_push_ll1 p t Hn Ht) as [[E _]|(r & E & Hp)]; rewrite E in Hl; [done|]. by destruct Hl as [<-|[]].
    + apply (IH (rhs ++ pre)); [by rewrite app_assoc|]. by apply (stack_ok_expand p).
Qed.

Lemma ll_sound s s' : rtc ll_step s s' -> s' = ([], []) -> derives (fst s) (snd s).
Proof.
  induction 1 as [s|s1 s2 s3 Hs R IH]; intros ->; [apply d_nil|]. specialize (IH eq_refl).
  inversion Hs as [t ss ts Ht|a ss ts Ha|n ss t ts rhs Ht Hn Hp]; subst; simpl in *.
  - by apply d_tok.
  - by apply d_act.
  - apply (d_nt n rhs); [|done]. destruct (ll_push_ll1 n t Hn Ht) as [[_ E]|(r & E & Hp')]; [congruence|].
    rewrite Hp in Hp'. injection Hp' as <-. assert (Hin : In rhs (ll1 n t)) by (rewrite E; by left).
    by apply ll1_in in Hin as [? _].
Qed.
