(* ===== verification/JsTerm.v ===== *)
(** * MicroJS: the compiler stops, and accepts sentences of the grammar

    Whatever the text and the library. The actions leave the parser's stack alone:
    it is the stack machine of [JsGrammar.v]. Between two tokens the machine cannot
    go on for ever, as the grammar is not left recursive; the scanner moves on, or
    is at the end, where a token eaten is one symbol less. *)

From Stdlib Require Import ZifyBool.
From S2P Require Import Prelude Js JsLl JsLex JsSym JsSdt JsParse JsGrammar.
From stdpp Require Import relations.
Open Scope Z_scope.
Import Ll Lex Sym Sdt Gr.

Section term.
Context `{JsConfig}.
Variable libdef : ext_libdef.

(** ** Actions and the parser's stack *)

Definition keeps_ll {A} (f : M microjs_sdt A) : Prop := forall s a s', f s = Some (a, s') -> d_ll s' = d_ll s.

Lemma kl_ret {A} (a : A) : keeps_ll (ret a).
Proof. by intros s a' s' [= <- <-]. Qed.
Lemma kl_fault {A} : keeps_ll (fault (A := A)).
Proof. done. Qed.
Lemma kl_get {A} (f : lens microjs_sdt A) : keeps_ll (get f).
Proof. by intros s a' s' [= <- <-]. Qed.
Lemma kl_put {A} (f : lens microjs_sdt A) v : (forall s, d_ll (lset f v s) = d_ll s) -> keeps_ll (put f v).
Proof. intros Hf s a' s' [= <- <-]. apply Hf. Qed.
Lemma kl_bind {A B} (c : M microjs_sdt A) (k : A -> M microjs_sdt B) :
  keeps_ll c -> (forall a, keeps_ll (k a)) -> keeps_ll (bind c k).
Proof.
  intros Hc Hk s b s' E. unfold bind in E. destruct (c s) as [[a s1]|] eqn:Ec; [|done].
  rewrite (Hk _ _ _ _ E). by eapply Hc.
Qed.
Lemma kl_arr_rd f i : keeps_ll (arr_rd f i).
Proof. intros s a s' E. unfold arr_rd in E. case_match; [|done]. by injection E as <- <-. Qed.
Lemma kl_arr_wr i v : keeps_ll (arr_wr code i v).
Proof. intros s a s' E. unfold arr_wr in E. case_match; [|done]. by injection E as <- <-. Qed.
Lemma kl_symo {A} (f : symtab -> option (A * symtab)) : keeps_ll (symo f).
Proof. intros s a s' E. unfold symo in E. destruct (f (d_tab s)) as [[x t]|]; [|done]. by injection E as <- <-. Qed.

Create HintDb kl.
#[local] Hint Resolve kl_ret kl_fault kl_get kl_arr_rd kl_arr_wr kl_symo : kl.
Ltac kl := repeat first
  [ solve [eauto with kl]
  | apply kl_put; done
  | apply kl_bind; [|intros ?]
  | progress cbv zeta
  | case_match ].

Lemma action_keeps s : keeps_ll (action libdef s).
Proof.
  unfold action. destruct (op libdef !! _) as [f|] eqn:E; [|by apply kl_fault].
  apply list_elem_of_lookup_2 in E. revert f E. apply Forall_forall. unfold op.
  repeat (apply List.Forall_cons; [|]); [..|apply List.Forall_nil].
  all: cbv delta [op_var_decl op_push_tmp op_pop_tmp op_var_assign op_ret_discard op_array_xlat op_object_get
    op_attr_assign op_array_assign op_method_lookup op_call op_function_lookup op_arg op_or op_logic_or
    op_xor op_and op_logic_and op_lt op_gt op_equ op_neq op_gte op_lte op_shl op_asr op_add op_sub
    op_div op_mod op_mul op_inv op_minus op_not op_push_int op_push_string op_push_true op_push_false
    op_var_eval op_call_ret op_attr_eval op_array_eval op_blk_open op_blk_close op_for_init op_for_cond
    op_for_after op_for_end op_while_begin op_while_cond op_while_end op_if_cond op_patch_ref
    op_try_begin op_throw op_if_else op_try_end op_catch class_member_pop popped bail push_sym sym xdef
    discard op_bin op_un emit save_spc emit12 ext_call encode_int is_constant is_const rollback reserve fix_at
    tgt_alloc32 tgt_stack_push tgt_stack_pop tgt_stack_adjust when].
  all: kl.
Qed.

(** A round of the loop is a step of the stack machine. *)
Lemma pstep_cases t lex d t' lex' d' : pstep libdef (t, lex, d) (t', lex', d') ->
  d_ll d = typ t :: d_ll d' /\ typ t < NONTERM_BASE /\ lexer_scan lex = Some (t', lex') /\ typ t' <> T_ERR \/
  (exists a, d_ll d = a :: d_ll d' /\ ACTION_BASE <= a /\ t' = t /\ lex' = lex) \/
  (exists n rest rhs, d_ll d = n :: rest /\ is_nt n = true /\ microjs_ll_push n (typ t) = Some (inr rhs) /\
    d_ll d' = rhs ++ rest /\ t' = t /\ lex' = lex).
Proof.
  unfold pstep, compile_step. unfold bind at 1, get at 1. change (lget ll d) with (d_ll d).
  destruct (d_ll d) as [|s rest] eqn:El; [done|]. unfold bind at 1, put at 1. intros E.
  destruct (Z.ltb_spec s NONTERM_BASE).
  - left. destruct (Z.eqb_spec s (typ t)) as [->|]; [|done]. simpl in E. unfold bind, put, scan_next in E.
    destruct (lexer_scan lex) as [[t1 lex1]|]; [|done].
    destruct (Z.eqb_spec (typ t1) T_ERR); [done|]. simpl in E. by injection E as <- <- <-.
  - destruct (Z.leb_spec ACTION_BASE s).
    + right. left. exists s. unfold bind at 1 in E.
      destruct (action libdef s (lset ll rest d)) as [[r d1]|] eqn:Ea; [|done]. apply action_keeps in Ea.
      destruct (r <? 0); [done|]. unfold bind, get in E. destruct (_ <=? _); [done|]. injection E as <- <- <-.
      by rewrite Ea.
    + right. right. destruct (microjs_ll_push s (typ t)) as [[e|rhs]|] eqn:Ep; [done| |done].
      exists s, rest, rhs. unfold bind, put in E. simpl in E. destruct (_ <? _); [done|]. injection E as <- <- <-.
      split_and!; try done. unfold is_nt. lia.
Qed.

(** ** The scanner moves on *)

Section scanner.
Variable txt : list Z.
Abbreviation n := (zlen txt).
Variable len : Z.
Hypothesis Hlen : len <= n.

Lemma chr_beyond k : n <= k -> chr txt k = 0.
Proof.
  intros Hk. unfold chr, zget, zlen in *. destruct (Z.ltb_spec k 0); [done|]. by rewrite lookup_ge_None_2 by lia.
Qed.

Lemma id_end_moves fuel : forall k e, id_end txt fuel k = Some e -> k < n -> k < e <= n.
Proof.
  induction fuel as [|fuel IH]; intros k e E Hk; [done|]. simpl in E. destruct (decide (k + 1 < n)).
  - destruct (_ || _); [apply IH in E; lia|]. injection E as <-. lia.
  - rewrite chr_beyond in E by lia. injection E as <-. lia.
Qed.
Lemma quote_end_moves fuel q : forall k e, quote_end txt len fuel q k = Some (inr e) -> k < len -> k < e < len.
Proof.
  induction fuel as [|fuel IH]; intros k e E Hk; [done|]. simpl in E. destruct (Z.eqb_spec (k + 1) len); [done|].
  destruct (_ =? _); [injection E as <-; lia|]. apply IH in E; lia.
Qed.
Lemma hex_digits_moves fuel : forall v c k r e c', hex_digits txt len fuel v c k = Some (r, e, c') -> k < len -> k < e <= len.
Proof.
  induction fuel as [|fuel IH]; intros v c k r e c' E Hk; [done|]. simpl in E. destruct (Z.eqb_spec (k + 1) len).
  - injection E as <- <- <-. lia.
  - destruct (isxdigit _); [apply IH in E; lia|]. injection E as <- <- <-. lia.
Qed.
Lemma dec_digits_moves fuel : forall v c k r e c', dec_digits txt len fuel v c k = Some (r, e, c') -> k < len -> k < e <= len.
Proof.
  induction fuel as [|fuel IH]; intros v c k r e c' E Hk; [done|]. simpl in E. destruct (Z.eqb_spec (k + 1) len).
  - injection E as <- <- <-. lia.
  - destruct (isdigit _); [apply IH in E; lia|]. injection E as <- <- <-. lia.
Qed.
Lemma line_end_moves fuel : forall c k e, line_end txt len fuel c k = Some e -> k < len -> k <= e <= len.
Proof.
  induction fuel as [|fuel IH]; intros c k e E Hk; [done|]. simpl in E.
  destruct (negb (c =? 10)); simpl in E; [|injection E as <-; destruct (c =? 10); lia].
  destruct (Z.ltb_spec (k + 1) len); [apply IH in E; lia|]. injection E as <-. destruct (c =? 10); lia.
Qed.
Lemma comment_end_moves fuel : forall k e, comment_end txt len fuel k = Some (inr e) -> k < len -> k < e <= len.
Proof.
  induction fuel as [|fuel IH]; intros k e E Hk; [done|]. simpl in E. destruct (Z.eqb_spec (k + 1) len); [done|].
  destruct (_ =? 42); [|apply IH in E; lia]. destruct (Z.eqb_spec (k + 1 + 1) len); [done|].
  destruct (_ =? 47); [injection E as <-; lia|]. apply IH in E; lia.
Qed.

(** The type is a terminal's, an error has a code; the scan goes past the token, or
    is at the end. *)
Definition moves (k : Z) (r : token * Z) : Prop :=
  is_tok (typ (fst r)) = true /\ (typ (fst r) = T_ERR -> 0 < qlf (fst r)) /\
  (typ (fst r) <> T_ERR -> k < snd r <= n \/ typ (fst r) = T_EOF /\ snd r = k /\ len <= k).

Definition errors : list Z := [ERR_UNEXPECTED_CHAR; ERR_UNCLOSED_STRING; ERR_UNCLOSED_COMMENT; ERR_INVALID_LITERAL].
Lemma moves_err e k k' r : err e k' = Some r -> In e errors -> moves k r.
Proof. intros [= <-] He. split; [done|]. split; [|by intros []]. intros _. simpl. repeat (destruct He as [<-|He]; [done|]). done. Qed.
Definition is_good (t : Z) : bool := is_tok t && negb (t =? T_ERR).
Lemma good_tok t : is_good t = true -> is_tok t = true /\ t <> T_ERR.
Proof. unfold is_good. intros Hg. apply andb_prop in Hg as [? Hg]. split; [done|]. intros ->. done. Qed.
Lemma moves_good (t : token) k k' : is_good (typ t) = true -> k < k' <= n -> moves k (t, k').
Proof. intros Hg ?. apply good_tok in Hg as [? ?]. split; [done|]. split; [done|]. by left. Qed.
Lemma moves_tok t k k' r : tok t k' = Some r -> is_good t = true -> k < k' <= n -> moves k r.
Proof. intros [= <-] ? ?. by apply moves_good. Qed.
Lemma moves_later k k' r : k < k' <= n -> moves k' r -> moves k r.
Proof. intros Hk (Ht & Hq & Hm). split; [done|]. split; [done|]. intros Hn. left. destruct (Hm Hn) as [?|(? & ? & ?)]; lia. Qed.

Lemma number_end_moves k r v e c' : number_end (v, e, c') = Some r -> k < e <= len -> moves k r.
Proof.
  simpl. destruct (isalpha c' || (c' =? 95)); [by intros E _; eapply moves_err; [done|simpl; tauto]|]. intros [= <-] He.
  apply moves_good; [done|lia].
Qed.
Lemma number_moves fuel c k r : number txt len fuel c k = Some r -> k < len -> moves k r.
Proof.
  unfold number. intros E Hk. pose proof (number_end_moves k) as Hend.
  destruct (_ && _) eqn:Eg.
  - destruct (Z.eqb_spec (k + 2) len); [by eapply moves_err; [done|simpl; tauto]|].
    destruct (isxdigit _); cbn [negb] in E; [|by eapply moves_err; [done|simpl; tauto]].
    destruct (hex_digits _ _ _ _ _ _) as [[[v e] c']|] eqn:Ed; [|done].
    apply hex_digits_moves in Ed; [|lia]. eapply Hend; [exact E|lia].
  - destruct (dec_digits _ _ _ _ _ _) as [[[v e] c']|] eqn:Ed; [|done].
    apply dec_digits_moves in Ed; [|done]. by eapply Hend.
Qed.

Lemma two_moves k single alts r : two txt len k single alts = Some r -> k < len -> is_good single = true ->
  forallb (fun a => is_good (snd a)) alts = true -> moves k r.
Proof.
  unfold two. intros E Hk Hs Ha. destruct (Z.ltb_spec (k + 1) len).
  - destruct (find _ alts) as [[c t]|] eqn:Ef; [|eapply moves_tok; [exact E|done|lia]].
    apply find_some in Ef as [Hin _]. rewrite forallb_forall in Ha. specialize (Ha _ Hin).
    eapply moves_tok; [exact E|done|lia].
  - eapply moves_tok; [exact E|done|lia].
Qed.
Lemma doubled_moves k single double r : doubled len k single double = Some r -> k < len -> is_good single = true ->
  is_good double = true -> moves k r.
Proof. unfold doubled. intros E Hk Hs Hd. destruct (Z.ltb_spec (k + 1) len); (eapply moves_tok; [exact E|done|lia]). Qed.
Lemma punct_moves c k r : punct txt len c k = Some r -> k < len -> moves k r.
Proof.
  unfold punct. intros E Hk.
  repeat (destruct (c =? _); [first [by eapply two_moves|by eapply doubled_moves]|]).
  destruct (find _ punctuation) as [[c' t]|] eqn:Ef; [|by eapply moves_err; [done|simpl; tauto]].
  apply find_some in Ef as [Hin _]. eapply moves_tok; [exact E| |lia].
  assert (Ha : forallb (fun a => is_good (snd a)) punctuation = true) by done.
  rewrite forallb_forall in Ha. apply (Ha _ Hin).
Qed.

(** The row behind the keywords is a token's. *)
Hypothesis Hbeyond : is_good (fst lex_beyond) = true.

Lemma keyword_tok nm : is_good (keyword nm) = true.
Proof.
  unfold keyword. assert (Ha : Forall (fun kw => is_good (fst kw) = true) (lex_keyword ++ [lex_beyond])).
  { repeat (apply List.Forall_cons; [done|]). apply List.Forall_nil. }
  assert (Hid : is_good T_ID = true) by done. revert Hid. generalize T_ID.
  induction Ha as [|kw l Hk Ha IH]; intros ty Hty; [done|]. simpl. apply IH. by destruct (bool_decide _).
Qed.

Lemma scan_moves fuel : forall k r, scan txt len fuel k = Some r -> moves k r.
Proof.
  induction fuel as [|fuel IH]; intros k r E; [done|]. cbn [scan] in E.
  destruct (Z.ltb_spec k len) as [Hk|Hk]; cbn [negb] in E.
  2: { injection E as <-. split; [done|]. split; [done|]. intros _. by right. }
  destruct (isspace _); [apply (moves_later k (k + 1)); [lia|by apply IH]|].
  destruct ((_ =? 39) || _).
  { destruct (quote_end _ _ _ _ _) as [[e|e]|] eqn:Eq; simpl in E; [by eapply moves_err; [exact E|simpl; tauto]| |done].
    apply quote_end_moves in Eq; [|lia]. destruct (_ && _); injection E as <-; (apply moves_good; [done|lia]). }
  destruct (isalpha _ || _).
  { destruct (id_end _ _ _) as [e|] eqn:Ee; simpl in E; [|done]. apply id_end_moves in Ee; [|lia]. injection E as <-.
    apply moves_good; [apply keyword_tok|lia]. }
  destruct (isdigit _); [by eapply number_moves|].
  destruct ((_ =? 47) && (k + 1 <? len)) eqn:Es.
  { apply andb_prop in Es as [_ Es]. apply Z.ltb_lt in Es. destruct (_ =? 47).
    - destruct (line_end _ _ _ _ _) as [e|] eqn:Ee; simpl in E; [|done]. apply line_end_moves in Ee; [|lia].
      apply (moves_later k e); [lia|by apply IH].
    - destruct (_ =? 42); [|eapply moves_tok; [exact E|done|lia]].
      destruct (comment_end _ _ _ _) as [[e|e]|] eqn:Ee; simpl in E; [by eapply moves_err; [exact E|simpl; tauto]| |done].
      apply comment_end_moves in Ee; [|lia]. apply (moves_later k e); [lia|by apply IH]. }
  destruct (_ =? 47); [by eapply moves_err; [done|simpl; tauto]|]. by eapply punct_moves.
Qed.
End scanner.

(** The text is one the lexer's 16-bit offsets can reach the end of. *)
Definition lex_ok (lex : lexer) : Prop :=
  0 <= l_off lex <= zlen (l_txt lex) /\ l_len lex <= zlen (l_txt lex) < 65536.

Lemma lexer_moves lex t lex' : is_good (fst lex_beyond) = true -> lex_ok lex -> lexer_scan lex = Some (t, lex') -> typ t <> T_ERR ->
  is_tok (typ t) = true /\ lex_ok lex' /\ l_txt lex' = l_txt lex /\
  (l_off lex < l_off lex' \/ typ t = T_EOF /\ l_off lex' = l_off lex).
Proof.
  intros Hb [Hoff Hlen] E He. unfold lexer_scan in E. destruct (scan _ _ _ _) as [[t1 e]|] eqn:Es; [|done]. injection E as <- <-.
  apply scan_moves in Es as (Ht & _ & Hm); [|lia|done]. simpl in *. unfold lex_ok. simpl.
  destruct (Hm He) as [Hk|(Hk & -> & _)]; rewrite u16_small by lia; (split; [done|]); (split; [lia|]); (split; [done|]); [left; lia|by right].
Qed.

(** ** Between two tokens *)

(** The machine with the lookahead [t] eats a token, or stops, in [fuel] steps; the
    end of the text is the lookahead again when it is eaten. *)
Fixpoint quiet (fuel : nat) (t : Z) (ss : list Z) : bool :=
  match fuel with
  | O => false
  | S fuel =>
    match ss with
    | [] => true
    | s :: ss =>
      if s <? NONTERM_BASE then if t =? T_EOF then quiet fuel t ss else true
      else if ACTION_BASE <=? s then quiet fuel t ss
      else match microjs_ll_push s t with Some (inr rhs) => quiet fuel t (rhs ++ ss) | _ => true end
    end
  end.

Lemma quiet_more fuel t ss k : quiet fuel t ss = true -> quiet (fuel + k) t ss = true.
Proof.
  revert ss. induction fuel as [|fuel IH]; intros ss Hq; [done|]. cbn [quiet Nat.add] in *. destruct ss as [|s ss]; [done|].
  destruct (s <? NONTERM_BASE); [destruct (t =? T_EOF); [by apply IH|done]|]. destruct (ACTION_BASE <=? s); [by apply IH|].
  destruct (microjs_ll_push s t) as [[|rhs]|]; [done|by apply IH|done].
Qed.
Lemma quiet_app fuel k t ss ss' : quiet fuel t ss = true -> quiet k t ss' = true -> quiet (fuel + k) t (ss ++ ss') = true.
Proof.
  intros Hq Hk. revert ss Hq. induction fuel as [|fuel IH]; intros ss Hq; [done|]. destruct ss as [|s ss].
  - rewrite Nat.add_comm. by apply quiet_more.
  - cbn [quiet Nat.add app] in *. destruct (s <? NONTERM_BASE); [destruct (t =? T_EOF); [by apply IH|done]|].
    destruct (ACTION_BASE <=? s); [by apply IH|].
    destruct (microjs_ll_push s t) as [[|rhs]|]; [done|rewrite app_assoc; by apply IH|done].
Qed.

(** No production begins with its own nonterminal, however many others come
    between: 40 steps are enough for any. *)
Lemma quiet_nt s t : is_nt s = true -> is_tok t = true -> quiet 40 t [s] = true.
Proof. apply (all_entries (fun s t => quiet 40 t [s])). by vm_compute. Qed.
Lemma quiet_other fuel s t : is_nt s = false -> quiet (S (S fuel)) t [s] = true.
Proof.
  unfold is_nt. intros E. cbn [quiet].
  destruct (Z.ltb_spec s NONTERM_BASE); [by destruct (t =? T_EOF)|]. destruct (Z.leb_spec ACTION_BASE s); [done|lia].
Qed.
Lemma quiet_sym s t : is_tok t = true -> quiet 40 t [s] = true.
Proof. intros Ht. destruct (is_nt s) eqn:E; [by apply quiet_nt|by apply (quiet_other 38)]. Qed.
Lemma quiet_stack t ss : is_tok t = true -> exists fuel, quiet fuel t ss = true.
Proof.
  intros Ht. induction ss as [|s ss [fuel IH]]; [by exists 1%nat|]. exists (40 + fuel)%nat.
  apply (quiet_app 40 fuel t [s] ss); [by apply quiet_sym|done].
Qed.

(** ** Termination *)

Definition later (s' s : pstate) : Prop := pstep libdef s s'.
Definition left_ (lex : lexer) (t : token) : nat :=
  Z.to_nat (2 * (zlen (l_txt lex) - l_off lex) + (if typ t =? T_EOF then 0 else 1)).

Lemma compile_acc m : forall t lex d, (left_ lex t < m)%nat -> is_good (fst lex_beyond) = true -> lex_ok lex ->
  is_tok (typ t) = true -> Acc later (t, lex, d).
Proof.
  induction m as [|m IHm]; intros t lex d Hm Hb Hlex Ht; [lia|].
  destruct (quiet_stack (typ t) (d_ll d) Ht) as [fuel Hq]. revert t lex d Hm Hlex Ht Hq.
  induction fuel as [|fuel IHf]; intros t lex d Hm Hlex Ht Hq; [done|]. apply Acc_intro. intros [[t' lex'] d'] Hstep.
  destruct (pstep_cases _ _ _ _ _ _ Hstep) as [(El & Hty & Hscan & Herr)|[(a & El & Ha & -> & ->)|(s & rest & rhs & El & Hs & Hp & El' & -> & ->)]].
  - destruct (lexer_moves _ _ _ Hb Hlex Hscan Herr) as (Ht' & Hlex' & Htxt & Hmove).
    destruct Hlex as [Hoff Hlen]. pose proof Hlex' as [Hoff' _]. rewrite Htxt in Hoff'. unfold left_ in Hm.
    destruct Hmove as [Hmove|[Heof Hsame]].
    + apply IHm; try done. unfold left_. rewrite Htxt. destruct (typ t' =? T_EOF), (typ t =? T_EOF); lia.
    + destruct (Z.eqb_spec (typ t) T_EOF) as [E|E].
      * apply IHf; try done; [unfold left_; rewrite Htxt, Hsame, Heof, Z.eqb_refl; lia|].
        rewrite El in Hq. cbn [quiet] in Hq. rewrite (proj2 (Z.ltb_lt _ _)) in Hq by done. by rewrite E in Hq; rewrite Heof.
      * apply IHm; try done. unfold left_. rewrite Htxt, Hsame, Heof, Z.eqb_refl. lia.
  - apply IHf; try done. rewrite El in Hq. cbn [quiet] in Hq. unfold NONTERM_BASE, ACTION_BASE in *.
    by rewrite (proj2 (Z.ltb_ge _ _)), (proj2 (Z.leb_le _ _)) in Hq by lia.
  - apply IHf; try done. rewrite El in Hq. cbn [quiet] in Hq. destruct (nt_sym _ Hs) as [E1 E2]. rewrite E1, E2, Hp in Hq. by rewrite El'.
Qed.

Lemma acc_fuel s : Acc later s -> exists n, forall k, (n <= k)%nat ->
  let '(t, lex, d) := s in compile_loop libdef k t lex d = compile_loop libdef n t lex d /\
    (compile_loop libdef n t lex d = None -> exists s', rtc (pstep libdef) s s' /\
       let '(t', lex', d') := s' in compile_step libdef t' lex' d' = None).
Proof.
  induction 1 as [[[t lex] d] _ IH].
  destruct (compile_step libdef t lex d) as [[[t' lex'|r] d']|] eqn:E.
  - destruct (IH (t', lex', d') E) as [n Hn]. exists (S n). intros k Hk. destruct k as [|k]; [lia|].
    destruct (Hn k ltac:(lia)) as [Hk' Hnone]. simpl. unfold bind. rewrite E. split; [done|]. intros E'.
    destruct (Hnone E') as (s' & R & Hs). exists s'. split; [|done]. by apply rtc_l with (t', lex', d').
  - exists 1%nat. intros k Hk. destruct k as [|k]; [lia|]. simpl. unfold bind. by rewrite E.
  - exists 1%nat. intros k Hk. destruct k as [|k]; [lia|]. simpl. unfold bind. rewrite E. split; [done|]. intros _.
    exists (t, lex, d). split; [apply rtc_refl|done].
Qed.

(** ** Where there is no result *)

(** Only an action has none: it would write behind the code buffer, or finds
    another descriptor on its stack than its own. *)
Definition action_fault (d : microjs_sdt) : Prop :=
  exists a rest, d_ll d = a :: rest /\ ACTION_BASE <= a /\ action libdef a (lset ll rest d) = None.

Section total.
Variable txt : list Z.
Abbreviation n := (zlen txt).
Variable len : Z.
Hypothesis Hlen : len <= n.

Lemma id_end_total fuel : forall k, n - k <= Z.of_nat fuel -> (0 < fuel)%nat -> id_end txt fuel k <> None.
Proof.
  induction fuel as [|fuel IH]; intros k Hf H0; [lia|]. simpl. destruct (decide (k + 1 < n)) as [Hk|Hk].
  - destruct (_ || _); [apply IH; lia|done].
  - by rewrite chr_beyond by lia.
Qed.
Lemma quote_end_total fuel q : forall k, k < len -> len - k <= Z.of_nat fuel -> quote_end txt len fuel q k <> None.
Proof.
  induction fuel as [|fuel IH]; intros k Hk Hf; [lia|]. simpl. destruct (Z.eqb_spec (k + 1) len); [done|].
  destruct (_ =? _); [done|]. apply IH; lia.
Qed.
Lemma hex_digits_total fuel : forall v c k, k < len -> len - k <= Z.of_nat fuel -> hex_digits txt len fuel v c k <> None.
Proof.
  induction fuel as [|fuel IH]; intros v c k Hk Hf; [lia|]. simpl. destruct (Z.eqb_spec (k + 1) len); [done|].
  destruct (isxdigit _); [|done]. apply IH; lia.
Qed.
Lemma dec_digits_total fuel : forall v c k, k < len -> len - k <= Z.of_nat fuel -> dec_digits txt len fuel v c k <> None.
Proof.
  induction fuel as [|fuel IH]; intros v c k Hk Hf; [lia|]. simpl. destruct (Z.eqb_spec (k + 1) len); [done|].
  destruct (isdigit _); [|done]. apply IH; lia.
Qed.
Lemma line_end_total fuel : forall c k, k < len -> len - k <= Z.of_nat fuel -> line_end txt len fuel c k <> None.
Proof.
  induction fuel as [|fuel IH]; intros c k Hk Hf; [lia|]. simpl.
  destruct (_ && _) eqn:E; [|done]. apply IH; lia.
Qed.
Lemma comment_end_total fuel : forall k, k < len -> len - k <= Z.of_nat fuel -> comment_end txt len fuel k <> None.
Proof.
  induction fuel as [|fuel IH]; intros k Hk Hf; [lia|]. simpl. destruct (Z.eqb_spec (k + 1) len); [done|].
  destruct (_ =? 42); [|apply IH; lia]. destruct (Z.eqb_spec (k + 1 + 1) len); [done|].
  destruct (_ =? 47); [done|]. apply IH; lia.
Qed.
Lemma number_end_total r : number_end r <> None.
Proof. destruct r as [[v e] c]. simpl. by destruct (_ || _). Qed.
Lemma number_total fuel c k : k < len -> len - k <= Z.of_nat fuel -> number txt len fuel c k <> None.
Proof.
  intros Hk Hf. unfold number. destruct (_ && _) eqn:E.
  - destruct (Z.eqb_spec (k + 2) len); [done|]. destruct (isxdigit _); cbn [negb]; [|done].
    pose proof (hex_digits_total fuel 0 (chr txt (k + 2)) (k + 2) ltac:(lia) ltac:(lia)).
    destruct (hex_digits _ _ _ _ _ _) as [r|]; [apply number_end_total|done].
  - pose proof (dec_digits_total fuel 0 c k Hk Hf). destruct (dec_digits _ _ _ _ _ _) as [r|]; [apply number_end_total|done].
Qed.
Lemma two_total k single alts : two txt len k single alts <> None.
Proof. unfold two. destruct (_ <? _); [|done]. by destruct (find _ alts) as [[? ?]|]. Qed.
Lemma doubled_total k single double : doubled len k single double <> None.
Proof. unfold doubled. by destruct (_ <? _). Qed.
Lemma punct_total c k : punct txt len c k <> None.
Proof.
  unfold punct. repeat (destruct (c =? _); [first [apply two_total|apply doubled_total]|]).
  by destruct (find _ punctuation) as [[? ?]|].
Qed.

Lemma scan_total fuel : forall k, 0 <= k -> len - k < Z.of_nat fuel -> (0 < fuel)%nat -> scan txt len fuel k <> None.
Proof.
  induction fuel as [|fuel IH]; intros k H0 Hf Hpos; [lia|]. cbn [scan].
  destruct (Z.ltb_spec k len) as [Hk|Hk]; cbn [negb]; [|done].
  destruct (isspace _); [apply IH; lia|].
  destruct ((_ =? 39) || _).
  { pose proof (quote_end_total (S fuel) (chr txt k) k Hk ltac:(lia)).
    destruct (quote_end _ _ _ _ _) as [[e|e]|]; simpl; [done| |done]. by destruct (_ && _). }
  destruct (isalpha _ || _).
  { pose proof (id_end_total (S (length txt)) k ltac:(unfold zlen; lia) ltac:(lia)). by destruct (id_end _ _ _). }
  destruct (isdigit _); [apply number_total; lia|].
  destruct ((_ =? 47) && (k + 1 <? len)) eqn:Es.
  { apply andb_prop in Es as [_ Es]. apply Z.ltb_lt in Es. destruct (_ =? 47).
    - pose proof (line_end_total (S fuel) (chr txt (k + 1)) (k + 1) Es ltac:(lia)).
      destruct (line_end _ _ _ _ _) as [e|] eqn:Ee; simpl; [|done]. apply line_end_moves in Ee; [|lia]. apply IH; lia.
    - destruct (_ =? 42); [|done]. pose proof (comment_end_total (S fuel) (k + 1) Es ltac:(lia)).
      destruct (comment_end _ _ _ _) as [[e|e]|] eqn:Ee; simpl; [done| |done]. apply comment_end_moves in Ee; [|lia]. apply IH; lia. }
  destruct (_ =? 47); [done|apply punct_total].
Qed.
End total.

Lemma lexer_total lex : lex_ok lex -> exists t lex', lexer_scan lex = Some (t, lex').
Proof.
  intros [Hoff Hlen].
  assert (Hs : scan (l_txt lex) (l_len lex) (S (Z.to_nat (l_len lex))) (l_off lex) <> None) by (apply scan_total; lia).
  unfold lexer_scan. destruct (scan _ _ _ _) as [[t e]|]; [|done]. by eexists _, _.
Qed.

Lemma step_none t lex d : lex_ok lex -> is_tok (typ t) = true -> compile_step libdef t lex d = None -> action_fault d.
Proof.
  intros Hlex Ht. unfold compile_step. unfold bind at 1, get at 1. change (lget ll d) with (d_ll d).
  destruct (d_ll d) as [|s rest] eqn:El; [done|]. unfold bind at 1, put at 1.
  destruct (Z.ltb_spec s NONTERM_BASE).
  - destruct (s =? typ t); [|done]. simpl. unfold bind, put, scan_next. destruct (lexer_total lex Hlex) as (t' & lex' & ->).
    by destruct (typ t' =? T_ERR).
  - destruct (Z.leb_spec ACTION_BASE s).
    + unfold bind at 1. destruct (action libdef s (lset ll rest d)) as [[r d1]|] eqn:Ea; [|by exists s, rest].
      destruct (r <? 0); [done|]. unfold bind, get. by destruct (_ <=? _).
    + assert (Hn : is_nt s = true) by (unfold is_nt; lia).
      destruct (ll_push_ll1 s (typ t) Hn Ht) as [[_ ->]|(rhs & _ & ->)]; [done|]. unfold bind, put. simpl. by destruct (_ <? _).
Qed.

Hypothesis Hbeyond : is_good (fst lex_beyond) = true.

Lemma steps_ok s s' : rtc (pstep libdef) s s' ->
  let '(t, lex, _) := s in lex_ok lex -> is_tok (typ t) = true ->
  let '(t', lex', _) := s' in lex_ok lex' /\ is_tok (typ t') = true.
Proof.
  induction 1 as [[[t lex] d]|[[t1 lex1] d1] [[t2 lex2] d2] s3 Hs R IH]; [done|]. intros Hlex Ht.
  destruct (pstep_cases _ _ _ _ _ _ Hs) as [(El & Hty & Hscan & Herr)|[(a & _ & _ & -> & ->)|(s & rest & rhs & _ & _ & _ & _ & -> & ->)]];
    [|by apply IH..].
  destruct (lexer_moves _ _ _ Hbeyond Hlex Hscan Herr) as (Ht' & Hlex' & _). by apply IH.
Qed.

Lemma opened_ok txt len : 0 <= len <= zlen txt -> zlen txt < 65536 -> lex_ok (lexer_open txt len).
Proof. intros Hl Ht. unfold lexer_open, lex_ok. simpl. rewrite u16_small by lia. lia. Qed.

(** The compiler comes to an end on any text: with fuel enough its result does not
    depend on it, and there is one unless an action has none. *)
Lemma compile_ends txt len d : 0 <= len <= zlen txt -> zlen txt < 65536 ->
  exists n, (forall k, (n <= k)%nat -> microjs_compile libdef k txt len d = microjs_compile libdef n txt len d) /\
    (microjs_compile libdef n txt len d = None -> exists t lex t' lex' d',
       lexer_scan (lexer_open txt len) = Some (t, lex) /\ rtc (pstep libdef) (t, lex, d) (t', lex', d') /\ action_fault d').
Proof.
  intros Hl Ht. unfold microjs_compile. destruct (len =? 0); [by exists 0%nat|].
  pose proof (opened_ok txt len Hl Ht) as Hopen. destruct (lexer_total _ Hopen) as (t & lex & Hs).
  unfold bind, scan_next. rewrite Hs. destruct (Z.eqb_spec (typ t) T_ERR); [by exists 0%nat|]. simpl.
  destruct (lexer_moves _ _ _ Hbeyond Hopen Hs ltac:(done)) as (Htok & Hlex & _).
  destruct (acc_fuel (t, lex, d)) as [m Hm].
  { by apply (compile_acc (S (left_ lex t))); [lia|..]. }
  exists m. split; [intros k Hk; by apply Hm|]. intros E. destruct (Hm m ltac:(lia)) as [_ Hnone].
  destruct (Hnone E) as ([[t' lex'] d'] & R & Hstep). exists t, lex, t', lex', d'. split; [done|]. split; [done|].
  destruct (steps_ok _ _ R Hlex Htok) as [Hlex' Ht']. by eapply step_none.
Qed.

(** ** What is accepted *)

(** [ts]: tokens of the text, from the lookahead on. *)
Fixpoint scanned (t : token) (lex : lexer) (ts : list token) : Prop :=
  match ts with
  | [] => True
  | t0 :: ts => t0 = t /\ exists t' lex', lexer_scan lex = Some (t', lex') /\ scanned t' lex' ts
  end.

Lemma scan_error lex t lex' : lex_ok lex -> lexer_scan lex = Some (t, lex') -> typ t = T_ERR -> 0 < qlf t.
Proof.
  intros [Hoff Hlen] E Ht. unfold lexer_scan in E. destruct (scan _ _ _ _) as [[t1 e]|] eqn:Es; [|done]. injection E as <- <-.
  apply scan_moves in Es as (_ & Hq & _); [|lia|done]. by apply Hq.
Qed.

Lemma loop_sound k : forall t lex d r d', compile_loop libdef k t lex d = Some (r, d') -> 0 <= r ->
  lex_ok lex -> is_tok (typ t) = true -> exists ts, scanned t lex ts /\ derives (d_ll d) (typ <$> ts).
Proof.
  induction k as [|k IH]; intros t lex d r d' E Hr Hlex Ht; [done|]. simpl in E. unfold bind in E.
  destruct (compile_step libdef t lex d) as [[[t' lex'|r'] d1]|] eqn:Es; [| |done].
  - destruct (pstep_cases _ _ _ _ _ _ Es) as [(El & Hty & Hscan & Herr)|[(a & El & Ha & -> & ->)|(s & rest & rhs & El & Hs & Hp & El' & -> & ->)]].
    + destruct (lexer_moves _ _ _ Hbeyond Hlex Hscan Herr) as (Ht' & Hlex' & _).
      destruct (IH _ _ _ _ _ E Hr Hlex' Ht') as (ts & Hts & Hd). exists (t :: ts). split; [split; [done|by eauto]|].
      rewrite El. by apply d_tok.
    + destruct (IH _ _ _ _ _ E Hr Hlex Ht) as (ts & Hts & Hd). exists ts. split; [done|]. rewrite El. by apply d_act.
    + destruct (IH _ _ _ _ _ E Hr Hlex Ht) as (ts & Hts & Hd). exists ts. split; [done|]. rewrite El.
      apply (d_nt s rhs); [|by rewrite <-El'].
      destruct (ll_push_ll1 s (typ t) Hs Ht) as [[_ Hp']|(rhs' & Hl & Hp')]; rewrite Hp in Hp'; [done|]. injection Hp' as <-.
      assert (Hin : In rhs (ll1 s (typ t))) by (rewrite Hl; by left). by apply ll1_in in Hin as [? _].
  - exists []. split; [done|]. injection E as -> ->. destruct (d_ll d) as [|s rest] eqn:El; [apply d_nil|]. exfalso.
    revert Es. unfold compile_step. unfold bind at 1, get at 1. change (lget ll d) with (d_ll d). rewrite El.
    unfold bind at 1, put at 1. destruct (s <? NONTERM_BASE).
    + destruct (s =? typ t); [|by intros [= <- _]]. simpl. unfold bind, put, scan_next.
      destruct (lexer_scan lex) as [[t' lex']|] eqn:Hs; [|done]. destruct (Z.eqb_spec (typ t') T_ERR); [|done].
      intros [= <- _]. pose proof (scan_error _ _ _ Hlex Hs ltac:(done)). lia.
    + destruct (ACTION_BASE <=? s).
      * unfold bind at 1. destruct (action libdef s (lset ll rest d)) as [[r1 d1']|]; [|done].
        destruct (Z.ltb_spec r1 0); [intros [= <- _]; lia|]. unfold bind, get. destruct (_ <=? _); [|done]. by intros [= <- _].
      * destruct (microjs_ll_push s (typ t)) as [[e|rhs]|]; [|unfold bind, put; simpl; destruct (_ <? _); [by intros [= <- _]|done]|done].
        unfold bind, put. destruct (typ t =? T_EOF); by intros [= <- _].
Qed.

(** A text that is compiled without an error has tokens that the grammar derives. *)
Lemma compile_accepts k txt len d r d' :
  0 < len <= zlen txt -> zlen txt < 65536 -> d_ll d = microjs_ll_start ->
  microjs_compile libdef k txt len d = Some (r, d') -> 0 <= r ->
  exists t lex ts, lexer_scan (lexer_open txt len) = Some (t, lex) /\ scanned t lex ts /\ derives microjs_ll_start (typ <$> ts).
Proof.
  intros Hl Ht Hd E Hr. unfold microjs_compile in E. rewrite (proj2 (Z.eqb_neq _ _)) in E by lia.
  pose proof (opened_ok txt len ltac:(lia) Ht) as Hopen. destruct (lexer_total _ Hopen) as (t & lex & Hs).
  unfold bind, scan_next in E. rewrite Hs in E. destruct (Z.eqb_spec (typ t) T_ERR); simpl in E.
  - injection E as <- <-. pose proof (scan_error _ _ _ Hopen Hs ltac:(done)). lia.
  - destruct (lexer_moves _ _ _ Hbeyond Hopen Hs ltac:(done)) as (Htok & Hlex & _).
    destruct (loop_sound _ _ _ _ _ _ E Hr Hlex Htok) as (ts & Hts & Hder). exists t, lex, ts. by rewrite <-Hd.
Qed.
End term.
