(* ===== verification/JsThms.v ===== *)
(** * MicroJS: theorems

    From the text of a program to its effects; the tables; the flaws that the
    model shows. *)

From S2P Require Import Prelude Js JsLl JsLex JsSym JsSdt JsLang JsGen JsVm JsScope JsRun JsTab JsAct JsParse JsComp JsBlock JsProg JsText JsGrammar JsTerm.
From Stdlib Require Import String Ascii.
From stdpp Require Import relations.
Open Scope Z_scope.
Import Ll Lex Sym Sdt Lang Gen Gr.

(** ** Compiling and running *)

Section main.
Context `{JsConfig} `{Js.JsHost}.

(** Room for a program: in the lexer's offsets, the code buffer of [N] bytes, the
    parser's stack of [cap], the symbol table of [len]; for its code in the jumps'
    operands, its data in the loads' and for its values on the machine's stack. *)
Definition room (p : list top) (cs : list Z) (sz N cap len data_sz : Z) (stack : option Z) (mem : list Z) : Prop :=
  zlen (text (prog_toks p)) < 65536 /\ zlen cs <= 2048 /\ zlen cs + 5 <= N < 65536 /\
  16 * zlen (prog_toks p) + 5 <= cap /\ cost (prog_toks p) + 20 <= len < 65536 /\
  sz <= data_sz < 16384 /\ data_sz mod 4 = 0 /\ data_sz / 4 <= Js.stack_base data_sz stack < 32768 /\
  Js.stack_base data_sz stack + 1 + need_list need_top p <= zlen mem.

(** C4. The text of a program compiles, and the machine runs the code as the program
    means. *)
Theorem text_runs (libdef : ext_libdef) p cs sz fuel e x e' N cap len strs buf data_sz stack mem :
  host_ok libdef -> beyond_ok = true -> forallb printable (prog_toks p) = true ->
  gen_prog libdef p = Some (cs, sz) -> run libdef fuel p e = Some (x, e') ->
  room p cs sz N cap len data_sz stack mem -> zlen buf = N ->
  exists d0 k0, microjs_sdt_init cap (symtab_init len) strs = Some d0 /\ forall k, (k0 <= k)%nat ->
    exists d, js_build libdef k buf N (text (prog_toks p)) (zlen (text (prog_toks p))) d0 = Some (zlen cs, d) /\
      t_data_sz (d_tab d) = sz /\
      exists n, forall j, (n <= j)%nat -> exists s,
        Js.microjs_exec (take (Z.to_nat (zlen cs)) (d_code d)) j (Js.microjs_vm_init data_sz stack mem e) = Some (x, s) /\
        Js.v_env s = e'.
Proof.
  intros Hhost Hb Hp Hg Hrun (Htxt & Hcs & HN & Hcap & Hlen & Hsz & Hmod & HD & Hmem) Hbuf. pose proof (zlen_nonneg cs).
  destruct (build_writes libdef N cap ltac:(lia) p cs sz len strs buf (text (prog_toks p)) (zlen (text (prog_toks p))))
    as (d0 & k0 & Hi & Hbuild); try done; try lia.
  { by apply text_reads. }
  { destruct (text_head (prog_toks p)) as [l ->]. rewrite zlen_cons. pose proof (zlen_nonneg l). lia. }
  exists d0, k0. split; [done|]. intros k Hk. destruct (Hbuild k Hk) as (d & j & Hj & Hcode & Hd).
  exists d. split; [done|]. split; [done|]. rewrite Hcode.
  assert (E : take (Z.to_nat (zlen cs)) (cs ++ j) = cs) by (unfold zlen; rewrite Nat2Z.id; apply take_app_length).
  rewrite E. by apply (prog_runs libdef p cs sz data_sz stack mem fuel e x e').
Qed.
End main.

(** ** The parser *)

(** C14. The binary search of the prediction table finds the production that the sets of
    the grammar allow, the only one, and nothing where they allow none. *)
Theorem parse_table_is_ll1 n t : is_nt n = true -> is_tok t = true ->
  (length (ll1 n t) <= 1)%nat /\
  microjs_ll_push n t = match ll1 n t with [] => Some (inl (-1)) | rhs :: _ => Some (inr rhs) end.
Proof. intros Hn Ht. destruct (ll_push_ll1 n t Hn Ht) as [[-> ->]|(rhs & -> & ->)]; simpl; split; done || lia. Qed.

Lemma parse_table_is_ll1_witness :
  is_nt N_ELSE_OPT = true /\ is_tok T_ELSE = true /\
  microjs_ll_push N_ELSE_OPT T_ELSE = Some (inr [T_ELSE; A_OP_IF_ELSE; N_COMPOUND_STAT]) /\
  microjs_ll_push N_ELSE_OPT T_INT = Some (inl (-1)).
Proof.
  split; [done|]. split; [done|].
  split; [apply (parse_table_is_ll1 N_ELSE_OPT T_ELSE)|apply (parse_table_is_ll1 N_ELSE_OPT T_INT)]; done.
Defined.

(** C15. The stack machine that these tables drive eats what the grammar derives, and
    nothing else. *)
Theorem machine_takes_sentences ts : rtc ll_step (microjs_ll_start, ts) ([], []) <-> derives microjs_ll_start ts.
Proof.
  split; [by intros R; apply (ll_sound _ _ R)|]. intros Hd. apply (ll_complete _ _ Hd [N_PROGRAM]); [done|].
  split; [|done]. intros _ t Ht. unfold FIRST in Ht. simpl in Ht. destruct t; done.
Qed.

Section parser.
Context `{JsConfig}.

(** C16. Whatever the text and the library, valid or not, the compiler comes to an end:
    with rounds enough its result does not depend on their number, and there is a
    result unless an action has none. *)
Theorem compile_terminates (libdef : ext_libdef) txt len d :
  is_good (fst lex_beyond) = true -> 0 <= len <= zlen txt -> zlen txt < 65536 ->
  exists n, (forall k, (n <= k)%nat -> microjs_compile libdef k txt len d = microjs_compile libdef n txt len d) /\
    (microjs_compile libdef n txt len d = None -> exists t lex t' lex' d',
       lexer_scan (lexer_open txt len) = Some (t, lex) /\ rtc (pstep libdef) (t, lex, d) (t', lex', d') /\
       action_fault libdef d').
Proof. intros Hb. by apply compile_ends. Qed.

(** C25. A text that compiles, with any of the language's statements, is a sentence of
    the grammar: its tokens, to the end of the program, are derived. *)
Theorem compiled_is_sentence (libdef : ext_libdef) k txt len d r d' :
  is_good (fst lex_beyond) = true -> 0 < len <= zlen txt -> zlen txt < 65536 -> d_ll d = microjs_ll_start ->
  microjs_compile libdef k txt len d = Some (r, d') -> 0 <= r ->
  exists t lex ts, lexer_scan (lexer_open txt len) = Some (t, lex) /\ scanned t lex ts /\
    derives microjs_ll_start (typ <$> ts).
Proof. intros Hb. by apply compile_accepts. Qed.

(** C26. Tokens printed are read again, with the names and numbers they had, and then
    the end of the text. *)
Theorem printed_is_scanned ts : beyond_ok = true -> forallb printable ts = true -> zlen (text ts) < 65536 ->
  reads (lexer_open (text ts) (zlen (text ts))) (ts ++ [tk T_EOF; tk T_EOF; tk T_EOF]).
Proof. apply text_reads. Qed.

(** The scanner does not look at the character behind [|] or [&]: one alone is two,
    and what follows is lost. *)
Lemma bar_swallows txt len fuel k : k + 1 < len -> (chr txt k = 124 -> scan txt len (S fuel) k = Some (tk T_LOGICOR, k + 2)) /\
  (chr txt k = 38 -> scan txt len (S fuel) k = Some (tk T_LOGICAND, k + 2)).
Proof.
  intros Hk. split; intros Hc; cbn [scan]; rewrite (proj2 (Z.ltb_lt k len)), Hc by lia; cbn -[Z.add Z.ltb];
    unfold doubled; rewrite (proj2 (Z.ltb_lt (k + 1) len)) by done; cbn -[Z.add]; unfold tok; by rewrite <-Z.add_assoc.
Qed.
End parser.

(** To drop [n] results the compiler writes [n] behind the opcode, where the machine
    has the operand's high bits: 16 times as many words are dropped. *)
Lemma isp_drops_too_many `{Js.JsHost} C n s : code_at C (Js.v_pc s) [Js.OPC_ISP; n] -> 0 <= n < 128 ->
  Js.step C s = Some (None, Js.mk_vm (Js.v_pc s + 2) (Js.v_sp s - 16 * n) (Js.v_xp s) (Js.v_data s) (Js.v_env s)).
Proof.
  intros Hc Hn. destruct s as [p sp x d e]. simpl in *. pose proof (code_at_tail _ _ _ _ Hc) as Hc1.
  unfold Js.step. erewrite run_bind by (by eapply fetch_at). simpl.
  change (Js.exec_op C _ _) with (a <- Js.operand C 0;; Js.adjust (Js.SIGNEXT12BIT a);;; ret (A := option Z) None)%c.
  unfold Js.operand, bind. erewrite fetch_at by done. unfold Js.adjust, bind, get, put, ret. simpl.
  replace (Js.SIGNEXT12BIT (Z.shiftl n 4 + 0)) with (16 * n); [do 3 f_equal; lia|].
  unfold Js.SIGNEXT12BIT, swrap. rewrite Z.shiftl_mul_pow2, wrap_small by lia.
  rewrite (proj2 (Z.ltb_lt _ _)) by lia. lia.
Qed.

(** ** An application *)

Module Demo.
Definition b (s : string) : list Z := map (fun c => Z.of_N (N_of_ascii c)) (list_ascii_of_string s).
#[export] Instance cfg : JsConfig := {| trace_enabled := false; lex_beyond := (0, []) |}.
(** [print] writes its arguments; [twice] has a result, an exception for 13. *)
#[export] Instance host : Js.JsHost := {|
  Js.env := list Z;
  Js.microjs_extern := fun x e a =>
    if x =? 0 then Some (0, [], e ++ a)
    else match a with
         | [v] => if v =? 13 then Some (-5, [], e) else Some (1, [v * 2], e)
         | _ => None
         end |}.
Definition lib : ext_libdef := mk_lib [] [mk_ext (b "print") 0 0 9 0 0 0 0 0; mk_ext (b "twice") 0 1 1 1 0 0 0 0].
Definition v (s : string) : exp := EVar (b s).
(** [var i; for (i = 0; i < 20; i = i + 1) { var t = twice(i); if (i == 3) { print(i, t - 1); } }] *)
Definition prog : list top :=
  [TStm (SVar (b "i", None) []);
   TStm (SFor [IAssign (b "i") (EInt 0)] (EBin Lt (v "i") (EInt 20)) [IAssign (b "i") (EBin Add (v "i") (EInt 1))]
     [SVar (b "t", Some (ECall (b "twice") [v "i"])) [];
      SIf (EBin Equ (v "i") (EInt 3)) [SItem (ICall (b "print") [v "i"; EBin Sub (v "t") (EInt 1)])]])].
Definition cs : list Z := match gen_prog lib prog with Some (cs, _) => cs | None => [] end.
Definition mem : list Z := replicate 40 0.
Definition buf : list Z := replicate 200 0.

Lemma host_is_ok : host_ok lib.
Proof.
  intros f xid n ret e args r out e' Hf Hn He.
  destruct (fun_def_ok _ _ _ _ _ Hf) as (x & _ & Hx & _ & Hargs & Hret & Hxid & _ & Hr).
  destruct (decide (xid = 0)) as [->|]; [|destruct (decide (xid = 1)) as [->|]].
  - injection Hx as <-. simpl in Hret, He. injection He as <- <- <-. simpl. subst ret. change (zlen []) with 0. lia.
  - injection Hx as <-. simpl in Hret, Hargs. subst ret. cbn in He. unfold zlen in Hn. destruct args as [|a [|a' args]]; simpl in Hn; try lia.
    assert (Hr1 : r = -5 /\ out = [] \/ r = 1 /\ zlen out = 1).
    { destruct (a =? 13); injection He as <- <- <-; [by left|by right]. }
    destruct Hr1 as [[-> ->]|[-> ->]]; [change (zlen []) with 0|]; lia.
  - unfold lib_extern_get in Hx. simpl in Hx. destruct (Z.to_nat xid) as [|[|k]] eqn:Ek; [lia|lia|]. by destruct k.
Qed.

Lemma room_witness : room prog cs 8 200 800 1000 8 (Some 4) mem.
Proof. unfold room. vm_compute. repeat split; intros; discriminate. Qed.
Definition env0 : Js.env := [].
Definition env1 : Js.env := [3; 5].

Lemma text_runs_witness :
  exists d0 k0, microjs_sdt_init 800 (symtab_init 1000) [] = Some d0 /\ forall k, (k0 <= k)%nat ->
    exists d, js_build lib k buf 200 (text (prog_toks prog)) (zlen (text (prog_toks prog))) d0 = Some (zlen cs, d) /\
      t_data_sz (d_tab d) = 8 /\
      exists n, forall j, (n <= j)%nat -> exists s,
        Js.microjs_exec (take (Z.to_nat (zlen cs)) (d_code d)) j (Js.microjs_vm_init 8 (Some 4) mem env0) = Some (5, s) /\
        Js.v_env s = env1.
Proof.
  exact (text_runs lib prog cs 8 100 env0 5 env1 200 800 1000 [] buf 8 (Some 4) mem
    host_is_ok eq_refl eq_refl eq_refl eq_refl room_witness eq_refl).
Defined.

Lemma compile_terminates_witness :
  exists n, (forall k, (n <= k)%nat ->
      microjs_compile lib k (b "var x = 5 5") 11 (default (mk_sdt (tk 0) (symtab_init 0) [] [] 0 0 0 0 0 [] 0)
        (microjs_sdt_init 200 (symtab_init 300) [])) =
      microjs_compile lib n (b "var x = 5 5") 11 (default (mk_sdt (tk 0) (symtab_init 0) [] [] 0 0 0 0 0 [] 0)
        (microjs_sdt_init 200 (symtab_init 300) []))).
Proof.
  edestruct (compile_terminates lib (b "var x = 5 5") 11) as [n [Hn _]]; [reflexivity|vm_compute; split; discriminate|reflexivity|].
  exists n. exact Hn.
Defined.

(** A compiler ready for a text. *)
Definition ready : microjs_sdt :=
  match microjs_sdt_init 200 (symtab_init 300) [] with
  | Some d => match microjs_sdt_begin (replicate 300 0) 300 d with Some (_, d) => d | None => d end
  | None => mk_sdt (tk 0) (symtab_init 0) [] [] 0 0 0 0 0 [] 0
  end.
Definition src_try : list Z := b "try { throw 1; } catch (e) { print(e); }".

Lemma compiled_is_sentence_witness :
  exists t lex ts, lexer_scan (lexer_open src_try 40) = Some (t, lex) /\ scanned t lex ts /\
    derives microjs_ll_start (typ <$> ts).
Proof.
  destruct (microjs_compile lib 1000 src_try 40 ready) as [[r d]|] eqn:E; [|vm_compute in E; discriminate E].
  apply (compiled_is_sentence lib 1000 src_try 40 ready r d);
    [reflexivity|vm_compute; split; [reflexivity|discriminate]|reflexivity|reflexivity|exact E|].
  vm_compute in E. injection E as <- _. discriminate.
Defined.

Lemma printed_is_scanned_witness :
  reads (lexer_open (text (prog_toks prog)) (zlen (text (prog_toks prog)))) (prog_toks prog ++ [tk T_EOF; tk T_EOF; tk T_EOF]).
Proof. apply (printed_is_scanned (prog_toks prog)); reflexivity. Defined.

(** *** What programs do

    The result of the machine, and what was printed. *)
Definition result (s : string) : option (Z * Js.env) :=
  d ← microjs_sdt_init 200 (symtab_init 300) [];
  '(r, d) ← js_build lib 1000 (replicate 300 0) 300 (b s) (zlen (b s)) d;
  if r <? 0 then None
  else
    '(x, s) ← Js.microjs_exec (take (Z.to_nat r) (d_code d)) 1000 (Js.microjs_vm_init (t_data_sz (d_tab d)) None (replicate 60 0) env0);
    Some (x, Js.v_env s).

(** Operators of a level group to the right, and [*] binds tighter than [/]; [&&] is
    bitwise. *)
Lemma operators_group_right : result "print(10 - 3 - 2, 8 / 2 * 4, 1 && 2);" = Some (0, [9; 1; 0]).
Proof. vm_compute. reflexivity. Qed.
(** The frame of a [try] that had no exception stays: a later exception comes to its
    handler. *)
Lemma try_catches_later :
  result "var y = 0; try { y = 1; } catch (e) { y = y + 10; } print(y); throw 3;" = Some (3, [1; 11]).
Proof. vm_compute. reflexivity. Qed.
(** The end of a comment is missed behind another star: the text has no end of
    comment. *)
Lemma comment_misses_end : result "/* c **/ print(1);" = None /\ result "/* c */ print(1);" = Some (0, [1]).
Proof. vm_compute. done. Qed.

(** Programs compiled one after the other with the same symbols. *)
Fixpoint session (l : list string) (t : symtab) : option (list Z) :=
  match l with
  | [] => Some []
  | s :: l =>
    d ← microjs_sdt_init 200 t [];
    '(r, d) ← js_build lib 1000 (replicate 300 0) 300 (b s) (zlen (b s)) d;
    rs ← session l (d_tab d);
    Some (r :: rs)
  end.
(** A rollback does not mark the end of the list of objects: a variable of a text
    with an error is found when it is declared again, and not when it is used. *)
Lemma error_keeps_names :
  session ["var x = 1;"%string; "print(x);"%string] (symtab_init 300) = Some [8; 10] /\
  session ["var x = ;"%string; "var x = 1;"%string; "var y = 1;"%string; "var x = 1;"%string] (symtab_init 300)
    = Some [- ERR_SYNTAX_ERROR; - ERR_VAR_UNKNOWN; 8; 8].
Proof. vm_compute. done. Qed.
(** A parser's stack that is too small: the production that does not fit is over
    the fields of the structure when the compiler finds out. *)
Definition small (cap : Z) : option (Z * (Z * Z * Z * Z * Z)) :=
  d ← microjs_sdt_init cap (symtab_init 300) [];
  '(_, d) ← microjs_sdt_begin (replicate 300 0) 300 d;
  '(r, d) ← microjs_compile lib 300 (b "var i; for (i = 0; i < 2; i = i + 1) { }") 40 d;
  Some (r, (d_cdsz d, d_pc d, d_stack_pos d, d_data_pos d, d_cap d)).
Lemma stack_runs_over :
  small 8 = Some (- ERR_SDT_STACK_OVERFLOW, (300, 2, 4, 4, 9224)) /\ small 60 = Some (22, (300, 22, 8, 4, 60)).
Proof. split; [|vm_compute; reflexivity]. vm_compute. reflexivity. Qed.
End Demo.
