(* ===== verification/Route.v ===== *)
(** * The IP routing table

    [sdk/libtcpip/ip_route.c]: a table of [IP_ROUTE_TABLE_LEN] slots, the used
    ones first, kept in the order of their masks. A [struct route *] is the
    number of a slot, so that a pointer kept by a caller sees what later calls
    put there. The theorems: the table stays ordered, and the lookup finds the
    route with the longest mask. *)

From S2P Require Import Prelude.
From stdpp Require Import list sorting.
Open Scope Z_scope.

Module Route.

(** [rt_ifn] is the number of an interface, [NO_IF] the null pointer. *)
Definition NO_IF := 0.
Record route := mk_route { rt_dst : Z; rt_gateway : Z; rt_genmask : Z; rt_ifn : Z }.
#[export] Instance route_dec : EqDecision route.
Proof. solve_decision. Defined.

Definition unused : route := mk_route 0 0 0 NO_IF.
Definition IP_ROUTE_TABLE_LEN := 4.
Definition table_init : list route := replicate (Z.to_nat IP_ROUTE_TABLE_LEN) unused.

Definition slot (tab : list route) (i : Z) : route := default unused (tab !! Z.to_nat i).
Definition set_slot (i : Z) (r : route) (tab : list route) : list route := <[Z.to_nat i := r]> tab.

(** The loop of the lookup from slot [i]; [n] slots are left. *)
Fixpoint lookup_from (n : nat) (tab : list route) (target i : Z) : option Z :=
  match n with
  | O => None
  | S n =>
    let p := slot tab i in
    if rt_ifn p =? NO_IF then None
    else if Z.land target (rt_genmask p) =? rt_dst p then Some i
    else lookup_from n tab target (i + 1)
  end.
Definition __route_lookup (tab : list route) (target : Z) : option Z :=
  lookup_from (Z.to_nat IP_ROUTE_TABLE_LEN) tab target 0.

(** The search of [__route_del]: the slot [p] and the [i] it stops with;
    [None] where the call returns at an unused slot. *)
Fixpoint del_find (i : nat) (tab : list route) (dst p : Z) : option (Z * nat) :=
  match i with
  | O => Some (p, O)
  | S i =>
    if rt_ifn (slot tab p) =? NO_IF then None
    else if dst =? rt_dst (slot tab p) then Some (p, i)
    else del_find i tab dst (p + 1)
  end.
(** The loop that moves the slots after [p] down: the last [p]. *)
Fixpoint del_shift (i : nat) (tab : list route) (p : Z) : Z * list route :=
  match i with
  | O => (p, tab)
  | S i =>
    if rt_ifn (slot tab (p + 1)) =? NO_IF then (p, tab)
    else del_shift i (set_slot p (slot tab (p + 1)) tab) (p + 1)
  end.
Definition __route_del (tab : list route) (dst : Z) : Z * list route :=
  match del_find (Z.to_nat IP_ROUTE_TABLE_LEN) tab dst 0 with
  | None => (-1, tab)
  | Some (p, O) => (-1, tab)
  | Some (p, i) => let (p, tab) := del_shift i tab p in (0, set_slot p unused tab)
  end.

(** The place of a new entry, with the slots left from there. *)
Fixpoint add_find (i : nat) (tab : list route) (mask p : Z) : Z * nat :=
  match i with
  | O => (p, O)
  | S i' => if rt_genmask (slot tab p) <=? mask then (p, i) else add_find i' tab mask (p + 1)
  end.
(** The used slots from [p] on; [None] where they go to the end of the table. *)
Fixpoint add_count (i : nat) (tab : list route) (p : Z) (n : nat) : option nat :=
  if rt_ifn (slot tab p) =? NO_IF then Some n
  else match i with
       | O | S O => None
       | S i => add_count i tab (p + 1) (S n)
       end.
(** [n] swaps of the new entry with the slots from [p] on. *)
Fixpoint add_shift (n : nat) (tab : list route) (p : Z) (r : route) : list route :=
  match n with
  | O => set_slot p r tab
  | S n => add_shift n (set_slot p r tab) (p + 1) (slot tab p)
  end.
Definition __route_add (tab : list route) (dst mask gw ifn : Z) : Z * list route :=
  let tab := snd (__route_del tab dst) in
  match add_find (Z.to_nat IP_ROUTE_TABLE_LEN) tab mask 0 with
  | (p, O) => (-1, tab)
  | (p, i) =>
    match add_count i tab p 0 with
    | None => (-1, tab)
    | Some n => (0, add_shift n tab p (mk_route dst gw mask ifn))
    end
  end.

(** [ipv4_route_get]: the entry for a destination and a mask. *)
Fixpoint get_from (i : nat) (tab : list route) (dst mask p : Z) : option Z :=
  match i with
  | O => None
  | S i =>
    let r := slot tab p in
    if rt_ifn r =? NO_IF then None
    else if (dst =? rt_dst r) && (mask =? rt_genmask r) then Some p
    else get_from i tab dst mask (p + 1)
  end.
Definition ipv4_route_get (tab : list route) (dst mask : Z) : option Z :=
  get_from (Z.to_nat IP_ROUTE_TABLE_LEN) tab dst mask 0.

(** The calls that take the lock of the stack around the above. *)
Definition ipv4_route_add := __route_add.
Definition ipv4_route_del := __route_del.
Definition ipv4_route_lookup := __route_lookup.

(** ** The table as the list of its entries *)

Definition used (r : route) : bool := negb (rt_ifn r =? NO_IF).
Definition covers (target : Z) (r : route) : bool := Z.land target (rt_genmask r) =? rt_dst r.
Definition longer (r r' : route) : Prop := rt_genmask r' <= rt_genmask r.

(** The table [tab] holds the entries [l], in this order. *)
Record table (tab l : list route) : Prop := {
  tab_len : zlen tab = IP_ROUTE_TABLE_LEN;
  tab_list : exists k, tab = l ++ replicate k unused;
  tab_used : Forall (fun r => used r = true) l;
  tab_mask : Forall (fun r => 0 <= rt_genmask r) l;
  tab_order : StronglySorted longer l;
}.

(** The first entry for [dst] taken out; the place of [r] by its mask. *)
Fixpoint without (dst : Z) (l : list route) : list route :=
  match l with
  | [] => []
  | r :: l => if dst =? rt_dst r then l else r :: without dst l
  end.
Fixpoint insert_by_mask (r : route) (l : list route) : list route :=
  match l with
  | [] => [r]
  | r' :: l' => if rt_genmask r' <=? rt_genmask r then r :: l else r' :: insert_by_mask r l'
  end.
(** What [__route_del] finds: it does not take the entry of the last slot. *)
Fixpoint among (n : nat) (dst : Z) (l : list route) : bool :=
  match n, l with
  | S n, r :: l => (dst =? rt_dst r) || among n dst l
  | _, _ => false
  end.
Definition removable : Z -> list route -> bool := among 3.
Definition after_del (dst : Z) (l : list route) : list route :=
  if removable dst l then without dst l else l.

Lemma used_slot r : used r = true -> (rt_ifn r =? NO_IF) = false.
Proof. unfold used. by destruct (_ =? _). Qed.

Lemma without_elem dst l r : r ∈ without dst l -> r ∈ l.
Proof.
  induction l as [|a l IH]; simpl; [done|]. destruct (dst =? rt_dst a); [by right|].
  rewrite !elem_of_cons. tauto.
Qed.
Lemma insert_elem r l x : x ∈ insert_by_mask r l <-> x = r \/ x ∈ l.
Proof.
  induction l as [|a l IH]; simpl; [by rewrite elem_of_cons|].
  destruct (_ <=? _); rewrite !elem_of_cons, ?IH; tauto.
Qed.
Lemma forall_without (P : route -> Prop) dst l : Forall P l -> Forall P (without dst l).
Proof. rewrite !Forall_forall. intros H x Hx. apply H. by eapply without_elem. Qed.
Lemma forall_insert (P : route -> Prop) r l : P r -> Forall P l -> Forall P (insert_by_mask r l).
Proof. rewrite !Forall_forall. intros Hr H x [->|Hx]%insert_elem; auto. Qed.

Lemma without_order dst l : StronglySorted longer l -> StronglySorted longer (without dst l).
Proof.
  induction 1 as [|a l So IH F]; simpl; [constructor|]. destruct (dst =? rt_dst a); [done|].
  constructor; [done|by apply forall_without].
Qed.
Lemma insert_order r l : StronglySorted longer l -> StronglySorted longer (insert_by_mask r l).
Proof.
  induction 1 as [|a l So IH F]; simpl; [repeat constructor|].
  destruct (Z.leb_spec (rt_genmask a) (rt_genmask r)) as [Hle|Hlt].
  - repeat constructor; [done..|]. eapply Forall_impl; [exact F|]. unfold longer. intros x Hx. simpl in Hx. lia.
  - constructor; [done|]. apply forall_insert; [unfold longer; lia|done].
Qed.

(** ** The operations on the list *)

Lemma slot_mid pre x post : slot (pre ++ x :: post) (zlen pre) = x.
Proof. unfold slot, zlen. rewrite Nat2Z.id. by rewrite list_lookup_middle. Qed.
Lemma set_slot_mid pre x post y : set_slot (zlen pre) y (pre ++ x :: post) = pre ++ y :: post.
Proof. unfold set_slot, zlen. rewrite Nat2Z.id. replace (length pre) with (length pre + 0)%nat by lia. by rewrite insert_app_r. Qed.
Lemma zlen_snoc {A} (pre : list A) x : zlen pre + 1 = zlen (pre ++ [x]).
Proof. by rewrite zlen_app, zlen_single. Qed.

Lemma lookup_from_spec t l : forall pre k,
  Forall (fun r => used r = true) l ->
  match lookup_from (length l + k) (pre ++ l ++ replicate k unused) t (zlen pre) with
  | Some i => exists l1 r l2, l = l1 ++ r :: l2 /\ i = zlen pre + zlen l1 /\ covers t r = true /\
      Forall (fun r => covers t r = false) l1
  | None => Forall (fun r => covers t r = false) l
  end.
Proof.
  induction l as [|a l IH]; intros pre k U; simpl.
  - destruct k as [|k]; simpl; [constructor|]. rewrite slot_mid. constructor.
  - apply List.Forall_cons_iff in U as [Ua U]. rewrite slot_mid, (used_slot _ Ua). fold (covers t a).
    destruct (covers t a) eqn:C.
    + exists [], a, l. split; [done|]. split; [|done]. unfold zlen. simpl. lia.
    + specialize (IH (pre ++ [a]) k U). rewrite <-app_assoc, <-zlen_snoc in IH. simpl in IH.
      destruct (lookup_from _ _ _ _).
      * destruct IH as (l1 & r & l2 & -> & -> & Cr & F). exists (a :: l1), r, l2.
        split; [done|]. rewrite zlen_cons. split; [lia|]. split; [done|by constructor].
      * by constructor.
Qed.

Lemma del_find_spec dst l : forall pre k m,
  Forall (fun r => used r = true) l -> (length l + k = S m)%nat ->
  match del_find (length l + k) (pre ++ l ++ replicate k unused) dst (zlen pre) with
  | Some (p, O) => among m dst l = false
  | Some (p, i) => among m dst l = true /\
      exists l1 r l2, l = l1 ++ r :: l2 /\ p = zlen pre + zlen l1 /\ i = (length l2 + k)%nat /\
        without dst l = l1 ++ l2
  | None => among m dst l = false
  end.
Proof.
  induction l as [|a l IH]; intros pre k m U Hm; simpl.
  - destruct k as [|k]; simpl; [by destruct m|]. rewrite slot_mid. by destruct m.
  - apply List.Forall_cons_iff in U as [Ua U]. rewrite slot_mid, (used_slot _ Ua).
    simpl in Hm. injection Hm as Hm. destruct (Z.eqb_spec dst (rt_dst a)) as [->|Hne].
    + destruct (length l + k)%nat eqn:Ei; subst m; [done|]. split; [simpl; by rewrite Z.eqb_refl|].
      exists [], a, l. unfold zlen. simpl. repeat split; lia.
    + destruct m as [|m].
      { destruct l, k; simpl in Hm; try lia. done. }
      specialize (IH (pre ++ [a]) k m U Hm). rewrite <-app_assoc, <-zlen_snoc in IH. simpl in IH.
      cbn [among]. rewrite (proj2 (Z.eqb_neq _ _) Hne). simpl.
      destruct (del_find _ _ _ _) as [[p [|i]]|]; [done| |done].
      destruct IH as (A & l1 & r & l2 & -> & -> & -> & W). split; [done|].
      exists (a :: l1), r, l2. rewrite zlen_cons, W. repeat split. lia.
Qed.

(** The entries after the deleted one move down. *)
Lemma del_shift_spec l : forall pre x k,
  Forall (fun r => used r = true) l ->
  exists y, del_shift (length l + k) (pre ++ x :: l ++ replicate k unused) (zlen pre) =
    (zlen pre + zlen l, pre ++ l ++ y :: replicate k unused).
Proof.
  induction l as [|a l IH]; intros pre x k U; simpl.
  - exists x. unfold zlen at 2. simpl. rewrite Z.add_0_r. destruct k as [|k]; simpl; [done|].
    rewrite (zlen_snoc pre x). change (pre ++ x :: unused :: replicate k unused) with (pre ++ [x] ++ unused :: replicate k unused).
    rewrite app_assoc, slot_mid. simpl. by rewrite <-app_assoc.
  - apply List.Forall_cons_iff in U as [Ua U].
    assert (E : slot (pre ++ x :: a :: l ++ replicate k unused) (zlen pre + 1) = a).
    { rewrite (zlen_snoc pre x). rewrite <-(slot_mid (pre ++ [x]) a (l ++ replicate k unused)) at 2. by rewrite <-app_assoc. }
    rewrite E, (used_slot _ Ua), set_slot_mid. destruct (IH (pre ++ [a]) a k U) as [y Hy].
    exists y. rewrite <-!app_assoc in Hy. simpl in Hy. rewrite (zlen_snoc pre a), Hy, zlen_app, zlen_single, zlen_cons.
    f_equal. lia.
Qed.

Lemma add_find_spec r l : forall pre k,
  0 <= rt_genmask r ->
  exists l1 l2, l = l1 ++ l2 /\ insert_by_mask r l = l1 ++ r :: l2 /\
    add_find (length l + k) (pre ++ l ++ replicate k unused) (rt_genmask r) (zlen pre) =
      (zlen pre + zlen l1, (length l2 + k)%nat).
Proof.
  induction l as [|a l IH]; intros pre k Hm; simpl.
  - exists [], []. split; [done|]. split; [done|]. unfold zlen at 2. simpl. rewrite Z.add_0_r.
    destruct k as [|k]; simpl; [done|]. rewrite slot_mid. simpl. by rewrite (proj2 (Z.leb_le _ _)).
  - rewrite slot_mid. destruct (Z.leb_spec (rt_genmask a) (rt_genmask r)).
    + exists [], (a :: l). unfold zlen. simpl. repeat split. f_equal. lia.
    + destruct (IH (pre ++ [a]) k Hm) as (l1 & l2 & -> & E & Ef). exists (a :: l1), l2.
      rewrite <-app_assoc, <-zlen_snoc in Ef. simpl in Ef. rewrite E, zlen_cons. repeat split.
      rewrite Ef. f_equal. lia.
Qed.

Lemma add_count_spec l : forall pre k n,
  Forall (fun r => used r = true) l -> (0 < length l + k)%nat ->
  add_count (length l + k) (pre ++ l ++ replicate k unused) (zlen pre) n =
    if decide (k = 0%nat) then None else Some (n + length l)%nat.
Proof.
  induction l as [|a l IH]; intros pre k n U Hk; simpl.
  - destruct k as [|k]; simpl in *; [lia|]. rewrite slot_mid. simpl. f_equal. lia.
  - apply List.Forall_cons_iff in U as [Ua U]. rewrite slot_mid, (used_slot _ Ua).
    destruct (length l + k)%nat as [|m] eqn:Em.
    + by rewrite decide_True by lia.
    + rewrite (zlen_snoc pre a). specialize (IH (pre ++ [a]) k (S n) U ltac:(lia)).
      rewrite <-app_assoc in IH. simpl in IH. rewrite Em in IH. rewrite IH.
      case_decide; [done|]. f_equal. lia.
Qed.

Lemma add_shift_spec l : forall pre x post r,
  add_shift (length l) (pre ++ l ++ x :: post) (zlen pre) r = pre ++ r :: l ++ post.
Proof.
  induction l as [|a l IH]; intros pre x post r; simpl.
  - apply set_slot_mid.
  - rewrite set_slot_mid, slot_mid, (zlen_snoc pre r).
    specialize (IH (pre ++ [r]) x post a). rewrite <-!app_assoc in IH. exact IH.
Qed.

Lemma table_size tab l : table tab l -> exists k, tab = l ++ replicate k unused /\ (length l + k = 4)%nat.
Proof.
  intros [Hl [k ->] _ _ _]. exists k. split; [done|]. unfold zlen, IP_ROUTE_TABLE_LEN in Hl.
  rewrite length_app, length_replicate in Hl. lia.
Qed.
Lemma table_make l k :
  (length l + k = 4)%nat -> Forall (fun r => used r = true) l -> Forall (fun r => 0 <= rt_genmask r) l ->
  StronglySorted longer l -> table (l ++ replicate k unused) l.
Proof.
  intros Hk U Mk So. split; try done; [|by exists k].
  unfold zlen, IP_ROUTE_TABLE_LEN. rewrite length_app, length_replicate. lia.
Qed.

Lemma del_spec tab l dst :
  table tab l ->
  exists tab', __route_del tab dst = (if removable dst l then 0 else -1, tab') /\
    table tab' (after_del dst l).
Proof.
  intros T. destruct (table_size _ _ T) as (k & -> & Hk). unfold __route_del, removable, after_del.
  change (Z.to_nat IP_ROUTE_TABLE_LEN) with 4%nat. rewrite <-Hk.
  pose proof (del_find_spec dst l [] k 3 (tab_used _ _ T) Hk) as D. simpl app in D.
  change (zlen (@nil route)) with 0 in D. unfold removable.
  destruct (del_find _ _ _ _) as [[p [|i]]|].
  - rewrite D. eauto.
  - destruct D as (-> & l1 & r & l2 & El & -> & Ei & W). rewrite Ei, W, El.
    destruct (del_shift_spec l2 l1 r k) as [y Hy].
    { pose proof (tab_used _ _ T) as U. rewrite El in U. apply Forall_app in U as [_ U].
      by apply List.Forall_cons_iff in U as [_ U]. }
    rewrite <-app_assoc, Z.add_0_l. simpl app. rewrite Hy. eexists. split; [done|].
    rewrite <-zlen_app, app_assoc, set_slot_mid.
    replace (unused :: replicate k unused) with (replicate (S k) unused) by done.
    rewrite <-W. apply table_make.
    + rewrite W. rewrite El in Hk. rewrite length_app in *. simpl in Hk. lia.
    + apply forall_without, T.
    + apply forall_without, T.
    + apply without_order, T.
  - rewrite D. eauto.
Qed.

Lemma add_spec tab l r :
  table tab l -> used r = true -> 0 <= rt_genmask r ->
  let l0 := after_del (rt_dst r) l in
  exists tab', table tab' (if decide (length l0 = 4%nat) then l0 else insert_by_mask r l0) /\
    __route_add tab (rt_dst r) (rt_genmask r) (rt_gateway r) (rt_ifn r) =
      (if decide (length l0 = 4%nat) then -1 else 0, tab').
Proof.
  intros T Ur Hm l0. destruct (del_spec tab l (rt_dst r) T) as (tab0 & Ed & T0). fold l0 in T0.
  unfold __route_add. rewrite Ed. simpl snd. destruct (table_size _ _ T0) as (k & E0 & Hk). clearbody l0. clear Ed.
  change (Z.to_nat IP_ROUTE_TABLE_LEN) with 4%nat. subst tab0.
  destruct (add_find_spec r l0 [] k Hm) as (l1 & l2 & El & Ei & Ef). simpl app in Ef.
  change (zlen (@nil route)) with 0 in Ef. rewrite Hk, Z.add_0_l in Ef. rewrite Ef.
  destruct (length l2 + k)%nat as [|i] eqn:Ek.
  { rewrite !decide_True by lia. by eexists. }
  assert (U2 : Forall (fun r => used r = true) l2).
  { pose proof (tab_used _ _ T0) as U. rewrite El in U. by apply Forall_app in U as [_ U]. }
  pose proof (add_count_spec l2 l1 k 0 U2 ltac:(lia)) as Ec. rewrite Ek in Ec.
  rewrite El, <-app_assoc, Ec. destruct k as [|k].
  - rewrite (decide_True (P := 0%nat = 0%nat)) by done. rewrite <-El, !decide_True by lia. eexists.
    split; [exact T0|]. by rewrite El, <-app_assoc.
  - rewrite (decide_False (P := S k = 0%nat)) by done. rewrite <-El, !(decide_False (P := length l0 = 4%nat)) by lia.
    simpl replicate. rewrite Nat.add_0_l, add_shift_spec. eexists. split; [|by destruct r].
    rewrite Ei. change (l1 ++ r :: l2 ++ replicate k unused) with (l1 ++ (r :: l2) ++ replicate k unused).
    rewrite app_assoc. rewrite <-Ei. apply table_make.
    + rewrite Ei, length_app. rewrite El, length_app in Hk. simpl. lia.
    + apply forall_insert; [done|apply T0].
    + apply forall_insert; [done|apply T0].
    + apply insert_order, T0.
Qed.

(** ** Calls in any order *)

Inductive call := Add (dst mask gw ifn : Z) | Del (dst : Z).
Definition exec (tab : list route) (c : call) : list route :=
  match c with
  | Add dst mask gw ifn => snd (ipv4_route_add tab dst mask gw ifn)
  | Del dst => snd (ipv4_route_del tab dst)
  end.
Definition calls (cs : list call) : list route := foldl exec table_init cs.
(** The interface is there; a mask is a number without sign. *)
Definition proper (c : call) : Prop :=
  match c with Add _ mask _ ifn => ifn <> NO_IF /\ 0 <= mask | Del _ => True end.

Lemma table_start : table table_init [].
Proof. apply (table_make [] 4); repeat constructor. Qed.

Lemma exec_table tab l c : table tab l -> proper c -> exists l', table (exec tab c) l'.
Proof.
  intros T Hc. destruct c as [dst mask gw ifn|dst]; simpl in *.
  - destruct Hc as [Hi Hm]. destruct (add_spec tab l (mk_route dst gw mask ifn) T) as (tab' & T' & E).
    + unfold used. simpl. by rewrite (proj2 (Z.eqb_neq _ _)).
    + done.
    + simpl in E. unfold ipv4_route_add. rewrite E. simpl. eauto.
  - unfold ipv4_route_del. destruct (del_spec tab l dst T) as (tab' & -> & T'). eauto.
Qed.

Lemma calls_table cs : Forall proper cs -> exists l, table (calls cs) l.
Proof.
  unfold calls. assert (H : forall tab l, table tab l -> Forall proper cs -> exists l, table (foldl exec tab cs) l).
  { induction cs as [|c cs IH]; intros tab l T F; simpl; [eauto|].
    apply List.Forall_cons_iff in F as [Hc F]. destruct (exec_table _ _ _ T Hc) as [l' T']. eauto. }
  eapply H, table_start.
Qed.

Lemma table_slot tab l i r : table tab l -> l !! i = Some r -> slot tab (Z.of_nat i) = r.
Proof.
  intros T Hi. destruct (table_size _ _ T) as (k & -> & _). unfold slot.
  rewrite Nat2Z.id. by rewrite (lookup_app_l_Some _ _ _ _ Hi).
Qed.
Lemma slot_table tab l i : table tab l -> used (slot tab (Z.of_nat i)) = true -> l !! i = Some (slot tab (Z.of_nat i)).
Proof.
  intros T. destruct (table_size _ _ T) as (k & -> & _). unfold slot. rewrite Nat2Z.id, lookup_app.
  destruct (l !! i); [done|]. destruct (replicate k unused !! _) eqn:E; simpl; [|done].
  by apply lookup_replicate in E as [-> _].
Qed.

Lemma lookup_spec tab l t :
  table tab l ->
  match __route_lookup tab t with
  | Some i => exists l1 r l2, l = l1 ++ r :: l2 /\ i = zlen l1 /\ covers t r = true /\
      Forall (fun r => covers t r = false) l1
  | None => Forall (fun r => covers t r = false) l
  end.
Proof.
  intros T. destruct (table_size _ _ T) as (k & E & Hk).
  pose proof (lookup_from_spec t l [] k (tab_used _ _ T)) as L. rewrite Hk in L.
  unfold __route_lookup. change (Z.to_nat IP_ROUTE_TABLE_LEN) with 4%nat. rewrite E. exact L.
Qed.

(** C30. Whatever routes are added and deleted, in any order: the lookup finds
    a used entry that covers the address, with a mask not shorter than that of
    any other entry covering it; and it finds one whenever there is one. *)
Theorem route_longest_match cs target :
  Forall proper cs ->
  let tab := calls cs in
  match __route_lookup tab target with
  | Some i => used (slot tab i) = true /\ covers target (slot tab i) = true /\
      forall j, used (slot tab (Z.of_nat j)) = true -> covers target (slot tab (Z.of_nat j)) = true ->
      rt_genmask (slot tab (Z.of_nat j)) <= rt_genmask (slot tab i)
  | None => forall j, used (slot tab (Z.of_nat j)) = true -> covers target (slot tab (Z.of_nat j)) = false
  end.
Proof.
  intros F tab. destruct (calls_table cs F) as [l T]. fold tab in T.
  pose proof (lookup_spec tab l target T) as L. destruct (__route_lookup tab target) as [i|].
  - destruct L as (l1 & r & l2 & El & -> & C & Fl).
    assert (Hr : l !! length l1 = Some r) by (by rewrite El, list_lookup_middle).
    unfold zlen. rewrite (table_slot _ _ _ _ T Hr). split; [|split; [done|]].
    { pose proof (tab_used _ _ T) as U. rewrite Forall_forall in U. apply U. by eapply list_elem_of_lookup_2. }
    intros j Uj Cj. pose proof (slot_table _ _ _ T Uj) as Hj. set (x := slot tab (Z.of_nat j)) in *.
    pose proof (list_elem_of_lookup_2 _ _ _ Hj) as Hx. rewrite El in Hx.
    apply elem_of_app in Hx as [Hx|Hx].
    { rewrite Forall_forall in Fl. specialize (Fl _ Hx). congruence. }
    apply elem_of_cons in Hx as [->|Hx]; [lia|]. pose proof (tab_order _ _ T) as So. rewrite El in So.
    apply StronglySorted_app_1_r in So. apply StronglySorted_inv in So as [_ So]. rewrite Forall_forall in So.
    by apply So.
  - intros j Uj. pose proof (slot_table _ _ _ T Uj) as Hj. rewrite Forall_forall in L. apply L.
    by eapply list_elem_of_lookup_2.
Qed.
(** Three networks and a default route, one network replaced. *)
Definition demo_calls : list call :=
  [Add 0 0 0x0100000a 1; Add 0x0000000a 0x000000ff 0 1; Add 0x0001000a 0x00ffffff 0 2; Del 0x0000000a;
   Add 0x0000000a 0x0000ffff 0 3].
Lemma route_longest_match_witness :
  Forall proper demo_calls /\
  __route_lookup (calls demo_calls) 0x0501000a = Some 0 /\ __route_lookup (calls demo_calls) 0x0502000a = Some 1 /\
  forall j, used (slot (calls demo_calls) (Z.of_nat j)) = true ->
    covers 0x0501000a (slot (calls demo_calls) (Z.of_nat j)) = true ->
    rt_genmask (slot (calls demo_calls) (Z.of_nat j)) <= 0x00ffffff.
Proof.
  assert (F : Forall proper demo_calls) by (repeat constructor; discriminate).
  split; [exact F|]. split; [reflexivity|]. split; [reflexivity|].
  intros j U C. exact (proj2 (proj2 (route_longest_match demo_calls 0x0501000a F)) j U C).
Defined.

(** The entry in the last slot of a full table cannot be deleted. *)
Theorem last_route_stays tab a b c d :
  table tab [a; b; c; d] -> rt_dst d <> rt_dst a -> rt_dst d <> rt_dst b -> rt_dst d <> rt_dst c ->
  __route_del tab (rt_dst d) = (-1, tab).
Proof.
  intros T Ha Hb Hc. destruct (table_size _ _ T) as ([|k] & E & Hk); simpl in *; [|lia]. subst tab.
  pose proof (tab_used _ _ T) as U. repeat (apply List.Forall_cons_iff in U as [?%used_slot U]).
  pose proof (del_find_spec (rt_dst d) [a; b; c; d] [] 0 3 (tab_used _ _ T) eq_refl) as D.
  unfold __route_del. change (Z.to_nat IP_ROUTE_TABLE_LEN) with 4%nat. simpl app in D. simpl length in D.
  change (zlen (@nil route)) with 0 in D. simpl Nat.add in D.
  assert (A : among 3 (rt_dst d) [a; b; c; d] = false) by (simpl; by rewrite !(proj2 (Z.eqb_neq _ _)) by done).
  destruct (del_find _ _ _ _) as [[p [|i]]|]; [done| |done]. destruct D as [D _]. congruence.
Qed.
End Route.
