(* ===== verification/InChksum.v ===== *)
(** * The Internet checksum

    [sdk/libtcpip/in_chksum.c]: the one's complement sum of the 16-bit words
    of a block, in memory order, that the IP, ICMP, UDP and TCP headers carry.
    The theorems: the unrolled loops compute the sum of RFC 1071, and a block
    that carries its own checksum sums to [0xffff], what the input routines
    test. *)

From S2P Require Import Prelude.
From stdpp Require Import list.
Open Scope Z_scope.

Module InChksum.

(** The 16-bit word at [p]: the aligned branch loads it, the other one puts it
    together from its bytes. *)
Definition half (aligned : bool) (p : list Z) (i : Z) : Z :=
  if aligned then zget p (2 * i) + 256 * zget p (2 * i + 1)
  else zget p (2 * i) + Z.shiftl (zget p (2 * i + 1)) 8.

(** [sum += w[0]; ... ; sum += w[n - 1]] on an [uint32_t]. *)
Fixpoint add_words (n : nat) (aligned : bool) (p : list Z) (i sum : Z) : Z :=
  match n with
  | O => sum
  | S n => add_words n aligned p (i + 1) (u32 (sum + half aligned p i))
  end.

(** The state of the loops: the sum, the rest of the block, its length. The
    length is an [int] that is compared with a [sizeof], so as an unsigned
    number: a negative one runs through the loops. A byte past the block reads
    as 0. *)
Definition take_words (n : nat) (aligned : bool) (s : Z * list Z * Z) : Z * list Z * Z :=
  match s with
  | (sum, p, len) => (add_words n aligned p 0 sum, drop (2 * n) p, s32 (len - 2 * Z.of_nat n))
  end.
Definition step_words (n : nat) (aligned : bool) (s : Z * list Z * Z) : Z * list Z * Z :=
  if 2 * Z.of_nat n <=? u32 (snd s) then take_words n aligned s else s.
Fixpoint loop8 (fuel : nat) (aligned : bool) (s : Z * list Z * Z) : Z * list Z * Z :=
  match fuel with
  | O => s
  | S fuel => if 16 <=? u32 (snd s) then loop8 fuel aligned (take_words 8 aligned s) else s
  end.
(** [while (sum >> 16)]; two rounds are enough for an [uint32_t]. *)
Fixpoint fold_sum (fuel : nat) (sum : Z) : Z :=
  match fuel with
  | O => sum
  | S fuel =>
    if Z.shiftr sum 16 =? 0 then sum
    else fold_sum fuel (u32 (Z.land sum 0xffff + Z.shiftr sum 16))
  end.
Definition in_chksum (aligned : bool) (sum : Z) (data : list Z) (len : Z) : Z :=
  let s := loop8 (Z.to_nat (u32 len / 16 + 1)) aligned (sum, data, len) in
  let s := step_words 4 aligned s in
  let s := step_words 2 aligned s in
  let s := step_words 1 aligned s in
  match s with
  | (sum, p, len) =>
    let sum := if len =? 0 then sum else u32 (sum + zget p 0) in
    fold_sum 3 sum
  end.

(** ** The sum of RFC 1071 *)

(** The words of a block, an odd last byte being a word of its own. *)
Fixpoint word_sum (l : list Z) : Z :=
  match l with
  | a :: b :: l => a + 256 * b + word_sum l
  | [a] => a
  | [] => 0
  end.
(** One's complement reduction to 16 bits: 0 only for 0. *)
Definition ones (x : Z) : Z := if x =? 0 then 0 else (x - 1) mod 65535 + 1.
Definition bytes (l : list Z) : Prop := Forall (fun b => 0 <= b < 256) l.

Lemma bytes_cons b l : bytes (b :: l) <-> 0 <= b < 256 /\ bytes l.
Proof. apply List.Forall_cons_iff. Qed.

Lemma word_sum_bound : forall l, bytes l -> 0 <= word_sum l <= 65535 * ((zlen l + 1) / 2).
Proof.
  fix IH 1. intros [|a [|b l]] B.
  - unfold zlen. simpl. lia.
  - apply bytes_cons in B as [Ha _]. unfold zlen. cbn. lia.
  - apply bytes_cons in B as [Ha [Hb B]%bytes_cons]. specialize (IH l B). rewrite !zlen_cons. cbn [word_sum].
    replace (zlen l + 1 + 1 + 1) with (zlen l + 1 + 1 * 2) by lia. rewrite Z.div_add by lia. lia.
Qed.

Lemma word_sum_drop n : forall l, bytes l -> (2 * n <= length l)%nat ->
  word_sum l = word_sum (take (2 * n) l) + word_sum (drop (2 * n) l).
Proof.
  induction n as [|n IH]; intros l B Hn; [done|].
  destruct l as [|a [|b l]]; simpl in Hn; [lia..|].
  replace (2 * S n)%nat with (S (S (2 * n))) by lia. apply bytes_cons in B as [Ha [Hb B]%bytes_cons].
  cbn [take drop word_sum]. rewrite (IH l B) by lia. lia.
Qed.

Lemma half_any al p i : half al p i = zget p (2 * i) + 256 * zget p (2 * i + 1).
Proof. unfold half. destruct al; [done|]. rewrite Z.shiftl_mul_pow2 by lia. lia. Qed.

Lemma zget_cons a l i : 0 < i -> zget (a :: l) i = zget l (i - 1).
Proof.
  intros Hi. unfold zget. rewrite !(proj2 (Z.ltb_ge _ _)) by lia.
  replace (Z.to_nat i) with (S (Z.to_nat (i - 1))) by lia. done.
Qed.
Lemma half_drop a b l al i : 0 <= i -> half al (a :: b :: l) (i + 1) = half al l i.
Proof. intros Hi. rewrite !half_any. rewrite !zget_cons by lia. do 2 f_equal; [|f_equal]; f_equal; lia. Qed.

Lemma add_words_drop n : forall al a b l i sum, 0 <= i ->
  add_words n al (a :: b :: l) (i + 1) sum = add_words n al l i sum.
Proof. induction n as [|n IH]; intros; simpl; [done|]. rewrite half_drop by done. apply IH. lia. Qed.

Lemma add_words_sum al n : forall l sum, bytes l -> (2 * n <= length l)%nat ->
  0 <= sum -> sum + word_sum (take (2 * n) l) < 2 ^ 32 ->
  add_words n al l 0 sum = sum + word_sum (take (2 * n) l).
Proof.
  induction n as [|n IH]; intros l sum B Hn Hs Hb; [simpl; lia|].
  destruct l as [|a [|b l]]; simpl in Hn; [lia..|]. apply bytes_cons in B as [Ha [Hc B]%bytes_cons].
  replace (2 * S n)%nat with (S (S (2 * n))) in * by lia. cbn [take word_sum] in *. cbn [add_words].
  assert (B' : bytes (take (2 * n) l)) by by apply Forall_take.
  pose proof (word_sum_bound _ B') as W. change (0 + 1) with (0 + 1). rewrite (add_words_drop n al a b l 0) by lia.
  rewrite half_any. change (zget (a :: b :: l) (2 * 0)) with a. change (zget (a :: b :: l) (2 * 0 + 1)) with b.
  rewrite u32_small by lia. rewrite IH by (done || lia). lia.
Qed.

(** ** The loops *)

Record going (total : Z) (s : Z * list Z * Z) : Prop := {
  go_len : snd s = zlen (snd (fst s));
  go_small : snd s < 2 ^ 16;
  go_bytes : bytes (snd (fst s));
  go_sum : 0 <= fst (fst s);
  go_total : fst (fst s) + word_sum (snd (fst s)) = total;
}.

Lemma going_len total s : going total s -> 0 <= snd s < 2 ^ 16 /\ u32 (snd s) = snd s.
Proof.
  intros [El Es _ _ _]. pose proof (zlen_nonneg (snd (fst s))). split; [lia|]. apply u32_small. lia.
Qed.
Lemma take_words_len n al s : 0 <= snd s < 2 ^ 16 -> 2 * Z.of_nat n <= snd s ->
  snd (take_words n al s) = snd s - 2 * Z.of_nat n.
Proof. destruct s as [[sum p] len]. cbn [snd take_words]. intros Hl Hn. apply s32_small. lia. Qed.
Lemma take_words_going n al total s :
  total < 2 ^ 32 -> 2 * Z.of_nat n <= snd s -> going total s -> going total (take_words n al s).
Proof.
  intros Ht Hn G. destruct (going_len _ _ G) as [Hl _]. pose proof (take_words_len n al s Hl Hn) as E.
  destruct s as [[sum p] len]. destruct G as [El Es B Hs Et]. cbn [fst snd] in *.
  assert (Hn' : (2 * n <= length p)%nat) by (unfold zlen in El; lia).
  pose proof (word_sum_drop n p B Hn') as D.
  pose proof (word_sum_bound (take (2 * n) p) ltac:(by apply Forall_take)).
  pose proof (word_sum_bound (drop (2 * n) p) ltac:(by apply Forall_drop)).
  pose proof (zlen_nonneg (take (2 * n) p)). pose proof (zlen_nonneg (drop (2 * n) p)).
  split; rewrite ?E; cbn [fst snd take_words]; rewrite ?add_words_sum by (done || lia).
  - rewrite El. unfold zlen. rewrite length_drop. lia.
  - lia.
  - by apply Forall_drop.
  - lia.
  - lia.
Qed.
Lemma step_words_going n al total s :
  total < 2 ^ 32 -> going total s -> going total (step_words n al s).
Proof.
  intros Ht G. unfold step_words. rewrite (proj2 (going_len _ _ G)).
  destruct (Z.leb_spec (2 * Z.of_nat n) (snd s)); [by apply take_words_going|done].
Qed.
Lemma step_words_len n al total s :
  going total s -> 0 <= snd s < 4 * Z.of_nat n -> 0 <= snd (step_words n al s) < 2 * Z.of_nat n.
Proof.
  intros G H. destruct (going_len _ _ G) as [Hl E]. unfold step_words. rewrite E.
  destruct (Z.leb_spec (2 * Z.of_nat n) (snd s)); [|lia]. rewrite take_words_len by done. lia.
Qed.

Lemma loop8_going al total fuel : forall s,
  total < 2 ^ 32 -> going total s -> snd s < 16 * Z.of_nat fuel ->
  going total (loop8 fuel al s) /\ 0 <= snd (loop8 fuel al s) < 16.
Proof.
  induction fuel as [|fuel IH]; intros s Ht G Hf; destruct (going_len _ _ G) as [Hl E]; cbn [loop8]; [lia|].
  rewrite E. destruct (Z.leb_spec 16 (snd s)); [|split; [done|lia]].
  apply IH; [done|by apply take_words_going|]. rewrite take_words_len by (done || lia). lia.
Qed.

(** ** The folding *)

Lemma ones_small x : 0 <= x < 2 ^ 16 -> ones x = x.
Proof. intros. unfold ones. destruct (Z.eqb_spec x 0); [done|]. rewrite Z.mod_small by lia. lia. Qed.
Lemma ones_bound x : 0 <= x -> 0 <= ones x <= 65535.
Proof. intros. unfold ones. destruct (x =? 0); lia. Qed.
Lemma ones_minus x k : 0 <= k -> 0 <= x - 65535 * k -> (x - 65535 * k = 0 -> x = 0) -> ones x = ones (x - 65535 * k).
Proof.
  intros Hk Hx Hz. unfold ones. destruct (Z.eqb_spec x 0) as [->|Hne].
  - destruct (Z.eqb_spec (0 - 65535 * k) 0); [done|lia].
  - destruct (Z.eqb_spec (x - 65535 * k) 0); [lia|].
    replace (x - 65535 * k - 1) with ((x - 1) + (- k) * 65535) by lia. by rewrite Z_mod_plus_full.
Qed.
(** A sum may be reduced before more is added to it. *)
Lemma ones_add x y : 0 <= x -> 0 <= y -> ones (ones x + y) = ones (x + y).
Proof.
  intros Hx Hy. unfold ones at 2. destruct (Z.eqb_spec x 0) as [->|Hne]; [done|].
  symmetry. pose proof (Z.div_mod (x - 1) 65535 ltac:(lia)). pose proof (Z.mod_pos_bound (x - 1) 65535 ltac:(lia)).
  rewrite (ones_minus (x + y) ((x - 1) / 65535)) by lia. f_equal. lia.
Qed.

Lemma land_16 x : Z.land x 0xffff = x mod 2 ^ 16.
Proof. change 0xffff with (Z.ones 16). by rewrite Z.land_ones by lia. Qed.

Lemma fold_round x : 0 <= x < 2 ^ 32 ->
  ones (u32 (Z.land x 0xffff + Z.shiftr x 16)) = ones x /\
  u32 (Z.land x 0xffff + Z.shiftr x 16) = x mod 2 ^ 16 + x / 2 ^ 16.
Proof.
  intros Hx. rewrite land_16, Z.shiftr_div_pow2 by lia. rewrite u32_small by lia. split; [|done].
  symmetry. rewrite (ones_minus x (x / 2 ^ 16)) by lia. f_equal. lia.
Qed.
Lemma fold_sum_ones x : 0 <= x < 2 ^ 32 -> fold_sum 3 x = ones x.
Proof.
  intros Hx.
  assert (Stop : forall n y, 0 <= y < 2 ^ 16 -> fold_sum n y = ones y).
  { intros n y Hy. rewrite ones_small by done. destruct n; [done|]. cbn [fold_sum].
    by rewrite Z.shiftr_div_pow2, Z.div_small by lia. }
  change (fold_sum 3 x) with (if Z.shiftr x 16 =? 0 then x else fold_sum 2 (u32 (Z.land x 0xffff + Z.shiftr x 16))).
  destruct (fold_round x Hx) as [<- E]. destruct (Z.eqb_spec (Z.shiftr x 16) 0) as [Ez|Ez].
  { rewrite Z.shiftr_div_pow2 in Ez by lia. rewrite E, Ez. rewrite ones_small by lia. lia. }
  rewrite E. set (y := x mod 2 ^ 16 + x / 2 ^ 16). assert (Hy : 0 <= y <= 131070) by (unfold y; lia). clearbody y.
  change (fold_sum 2 y) with (if Z.shiftr y 16 =? 0 then y else fold_sum 1 (u32 (Z.land y 0xffff + Z.shiftr y 16))).
  destruct (fold_round y ltac:(lia)) as [<- Ey]. destruct (Z.eqb_spec (Z.shiftr y 16) 0) as [Ez'|Ez'].
  { rewrite Z.shiftr_div_pow2 in Ez' by lia. rewrite Ey, Ez'. rewrite ones_small by lia. lia. }
  rewrite Ey. apply Stop. lia.
Qed.

(** ** The theorems *)

(** C33. For a block of at most 65535 bytes, on an even or an odd address, and
    a sum below 2^20 to begin with, the call returns the one's complement sum of
    RFC 1071 of the block and the sum it was given: no carry is lost in the 32
    bits. *)
Theorem in_chksum_rfc1071 al sum data :
  bytes data -> zlen data < 2 ^ 16 -> 0 <= sum < 2 ^ 20 ->
  in_chksum al sum data (zlen data) = ones (sum + word_sum data).
Proof.
  intros B Hl Hs. pose proof (word_sum_bound _ B) as W. pose proof (zlen_nonneg data).
  assert (Ht : sum + word_sum data < 2 ^ 32) by lia.
  assert (G : going (sum + word_sum data) (sum, data, zlen data)) by (split; cbn; [done|done|done|lia|done]).
  unfold in_chksum. rewrite u32_small by lia.
  destruct (loop8_going al _ (Z.to_nat (zlen data / 16 + 1)) _ Ht G ltac:(simpl; lia)) as [G1 L1].
  set (s1 := loop8 _ _ _) in *. clearbody s1.
  pose proof (step_words_going 4 al _ _ Ht G1) as G2. pose proof (step_words_len 4 al _ s1 G1 L1) as L2.
  set (s2 := step_words 4 al s1) in *. clearbody s2.
  pose proof (step_words_going 2 al _ _ Ht G2) as G3. pose proof (step_words_len 2 al _ s2 G2 L2) as L3.
  set (s3 := step_words 2 al s2) in *. clearbody s3.
  pose proof (step_words_going 1 al _ _ Ht G3) as G4. pose proof (step_words_len 1 al _ s3 G3 L3) as L4.
  destruct (step_words 1 al s3) as [[r p] len]. destruct G4 as [El _ Bp Hr Et]. cbn [fst snd] in *.
  destruct (Z.eqb_spec len 0) as [->|Hne].
  - rewrite (zlen_zero p) in * by done. cbn [word_sum] in Et. rewrite <-Et, Z.add_0_r. apply fold_sum_ones. lia.
  - destruct p as [|b [|c p]]; [unfold zlen in El; simpl in El; lia| |rewrite !zlen_cons in El; pose proof (zlen_nonneg p); lia].
    apply bytes_cons in Bp as [Hb _]. cbn [word_sum] in Et. change (zget [b] 0) with b.
    rewrite u32_small by lia. rewrite Et. apply fold_sum_ones. lia.
Qed.
Lemma in_chksum_rfc1071_witness :
  bytes [0x45; 0x00; 0x00; 0x3c; 0x1c] /\
  in_chksum true 0 [0x45; 0x00; 0x00; 0x3c; 0x1c] 5 = ones (word_sum [0x45; 0x00; 0x00; 0x3c; 0x1c]) /\
  in_chksum true 0 [0x45; 0x00; 0x00; 0x3c; 0x1c] 5 = 0x3c61.
Proof.
  assert (B : bytes [0x45; 0x00; 0x00; 0x3c; 0x1c]) by (repeat constructor; lia).
  split; [exact B|]. split; [|reflexivity].
  apply (in_chksum_rfc1071 true 0 _ B); unfold zlen; simpl; lia.
Defined.

(** The field that is written: [~sum] cut to 16 bits. *)
Definition chksum_field (sum : Z) : Z := u16 (Z.lnot sum).
Definition with_field (pre post : list Z) (c : Z) : list Z := pre ++ [u8 c; Z.shiftr c 8] ++ post.

Lemma field_value x : 0 <= x <= 65535 -> chksum_field x = 65535 - x.
Proof. intros. unfold chksum_field, u16, wrap, Z.lnot. replace (Z.pred (- x)) with (65535 - x + (-1) * 2 ^ 16) by lia.
  by rewrite Z_mod_plus_full, Z.mod_small by lia. Qed.
Lemma word_sum_app n : forall l l', length l = (2 * n)%nat -> word_sum (l ++ l') = word_sum l + word_sum l'.
Proof.
  induction n as [|n IH]; intros l l' Hl; [by destruct l|].
  destruct l as [|a [|b l]]; simpl in Hl; [lia..|]. cbn [app word_sum]. rewrite (IH l l') by lia. lia.
Qed.
Lemma word_sum_field n pre post c :
  length pre = (2 * n)%nat -> 0 <= c < 2 ^ 16 -> word_sum (with_field pre post c) = c + word_sum (with_field pre post 0).
Proof.
  intros Hn Hc. unfold with_field. rewrite (word_sum_app n pre _ Hn), (word_sum_app n pre _ Hn). cbn [app word_sum].
  rewrite !Z.shiftr_div_pow2 by lia. unfold u8, wrap. change (0 mod 2 ^ 8) with 0. change (0 / 2 ^ 8) with 0. lia.
Qed.
Lemma with_field_bytes pre post c : 0 <= c < 2 ^ 16 -> bytes pre -> bytes post -> bytes (with_field pre post c).
Proof.
  intros Hc Bp Bq. apply Forall_app. split; [done|]. cbn [app].
  rewrite Z.shiftr_div_pow2 by lia. apply bytes_cons. split; [apply u8_bound|]. apply bytes_cons. split; [lia|done].
Qed.

(** C34. A block that is sent with the complement of its sum in a 16-bit field
    that was zero while it was summed (the pseudo header being the first
    [sum]) passes the test of the receiver: its sum is [0xffff]. *)
Theorem checksum_verifies al al' sum n pre post :
  length pre = (2 * n)%nat -> bytes pre -> bytes post -> zlen pre + 2 + zlen post < 2 ^ 16 -> 0 <= sum < 2 ^ 20 ->
  let len := zlen pre + 2 + zlen post in
  let c := chksum_field (in_chksum al sum (with_field pre post 0) len) in
  in_chksum al' sum (with_field pre post c) len = 0xffff.
Proof.
  intros Hn Bp Bq Hl Hs len c.
  assert (El : forall x, zlen (with_field pre post x) = len).
  { intros x. unfold with_field, len. rewrite !zlen_app. change (zlen [u8 x; Z.shiftr x 8]) with 2. lia. }
  assert (B0 : bytes (with_field pre post 0)) by (apply with_field_bytes; [lia|done..]).
  pose proof (word_sum_bound _ B0) as W. set (X := sum + word_sum (with_field pre post 0)).
  assert (HX : 0 <= X) by lia. pose proof (ones_bound X HX) as HO.
  assert (Ec : c = 65535 - ones X).
  { unfold c. rewrite <-(El 0), in_chksum_rfc1071 by (rewrite ?El; done). by apply field_value. }
  clearbody c. assert (Hc : 0 <= c < 2 ^ 16) by lia.
  rewrite <-(El c), in_chksum_rfc1071 by (rewrite ?El; try done; by apply with_field_bytes).
  rewrite (word_sum_field n) by done. replace (sum + (c + word_sum (with_field pre post 0))) with (X + c) by lia.
  subst c. clear -HX HO. unfold ones in *. destruct (Z.eqb_spec X 0) as [->|Hne]; [done|].
  pose proof (Z.div_mod (X - 1) 65535 ltac:(lia)). pose proof (Z.mod_pos_bound (X - 1) 65535 ltac:(lia)).
  destruct (Z.eqb_spec (X + (65535 - ((X - 1) mod 65535 + 1))) 0); [lia|].
  replace (X + (65535 - ((X - 1) mod 65535 + 1)) - 1) with (65534 + ((X - 1) / 65535) * 65535) by lia.
  by rewrite Z_mod_plus_full.
Qed.
Lemma checksum_verifies_witness :
  let c := chksum_field (in_chksum true 0x1234 (with_field [1; 2; 3; 4] [5; 6; 7] 0) 9) in
  in_chksum false 0x1234 (with_field [1; 2; 3; 4] [5; 6; 7] c) 9 = 0xffff.
Proof. apply (checksum_verifies true false 0x1234 2 [1; 2; 3; 4] [5; 6; 7]); try done; try (repeat constructor; lia); unfold zlen; simpl; lia. Defined.
End InChksum.
