(* ===== verification/Ip.v ===== *)
(** * IP headers, interfaces and the ARP table

    [sdk/libtcpip/ip.c] and [sdk/libtcpip/arp/etharp.c]: the headers that are
    sent and the tests that are made on those received, the table from
    protocol to hardware addresses, and the sending of a datagram over a route.
    What is sent is kept as a list of frames; the answers of the interface
    drivers come from a list in the state. *)

From S2P Require Import Prelude Route InChksum.
From stdpp Require Import list gmap.
Import InChksum.
Open Scope Z_scope.
Open Scope c_scope.

Definition INADDR_ANY := 0.
Definition INADDR_BROADCAST := 0xffffffff.
Definition IPPROTO_ICMP := 1.
Definition IPPROTO_TCP := 6.
Definition IPPROTO_UDP := 17.
Definition ETH_ADDR_LEN := 6.
Definition EAGAIN := 11.

(** An address is the 32-bit number of its four bytes, the first one lowest. *)
Definition IP4_ADDR (l : list Z) : Z :=
  zget l 0 + 2 ^ 8 * zget l 1 + 2 ^ 16 * zget l 2 + 2 ^ 24 * zget l 3.
Definition addr_bytes (a : Z) : list Z := [u8 a; u8 (Z.shiftr a 8); u8 (Z.shiftr a 16); u8 (Z.shiftr a 24)].

Module Ip.

(** ** Headers *)
Definition IP_HEADER_LEN := 20.

(** The three words [iph_template] writes, as bytes, and the sequence number it
    leaves. A field that is too large carries into the next one of its word. The
    addresses stay as they were, [old]. *)
Definition IP_HLVT (ver tos : Z) : Z := Z.shiftl tos 8 + Z.shiftl ver 4 + Z.shiftr IP_HEADER_LEN 2.
Definition iph_template (seq : Z) (old : list Z) (proto ttl tos : Z) : list Z * Z :=
  let ttl_proto_chksum := u32 (Z.shiftl proto 8 + ttl) in
  let hlen_ver_tos_len := u32 (Z.shiftl IP_HEADER_LEN 24 + IP_HLVT 4 tos) in
  let seq := u16 (seq + 1) in
  let x := u32 (Z.shiftl seq 16) in
  let y := Z.shiftr x 24 in
  let x := u32 (Z.shiftl x 8) in
  let id_frag := u32 (Z.shiftr x 16 + y) in
  (addr_bytes hlen_ver_tos_len ++ addr_bytes id_frag ++ addr_bytes ttl_proto_chksum ++ drop 12 old, seq).

Definition mk_iphdr (iph : list Z) (saddr daddr len : Z) : list Z :=
  let len := len + IP_HEADER_LEN in
  let tmp := Z.shiftr len 8 + Z.shiftr (u32 (Z.shiftl len 24)) 16 in
  let iph := take 2 iph ++ [u8 tmp; u8 (Z.shiftr tmp 8)] ++ take 8 (drop 4 iph) ++
    addr_bytes saddr ++ addr_bytes daddr in
  let chksum := chksum_field (in_chksum true 0 iph IP_HEADER_LEN) in
  with_field (take 10 iph) (drop 12 iph) chksum.

(** ** Interfaces *)

Record ifnet := mk_ifnet { if_mtu : Z; if_ipv4_addr : Z; if_ipv4_mask : Z; if_hwaddr : list Z }.

(** The flag as the header file has it for a little-endian machine, and the
    byte swap. *)
Definition IP_MF := 0x0020.
Definition NTOHS (x : Z) : Z := u16 (Z.shiftl (Z.land x 0x00ff) 8 + Z.shiftr (Z.land x 0xff00) 8).

(** What [ip_input] does with a datagram: the call for its protocol, with the
    payload and its length. *)
Inductive delivery := Drop | ToIcmp (l : list Z) (len : Z) | ToUdp (l : list Z) (len : Z)
  | ToTcp (l : list Z) (len : Z) | ToRaw (l : list Z) (len : Z).

Definition ip_input (ifn : ifnet) (ip : list Z) (len : Z) : delivery :=
  let ver := Z.shiftr (zget ip 0) 4 in
  let hdr_len := Z.shiftl (Z.land (zget ip 0) 15) 2 in
  let tot_len := 256 * zget ip 2 + zget ip 3 in
  let ip_off := zget ip 6 + 256 * zget ip 7 in
  let daddr := IP4_ADDR (drop 16 ip) in
  let proto := zget ip 9 in
  let ptr := drop (Z.to_nat hdr_len) ip in
  if negb (ver =? 4) then Drop
  else if (hdr_len <? IP_HEADER_LEN) || (len <? hdr_len) then Drop
  else if len <? tot_len then Drop
  else if negb (Z.land ip_off (NTOHS IP_MF) =? 0) then Drop
  else if negb (in_chksum true 0 (take (Z.to_nat hdr_len) ip) hdr_len =? 0xffff) then Drop
  else if negb (daddr =? if_ipv4_addr ifn) && negb (daddr =? INADDR_BROADCAST) &&
          negb (daddr =? Z.lor (if_ipv4_addr ifn) (u32 (Z.lnot (if_ipv4_mask ifn)))) then Drop
  else if proto =? IPPROTO_ICMP then ToIcmp ptr (tot_len - hdr_len)
  else if proto =? IPPROTO_UDP then ToUdp ptr (tot_len - hdr_len)
  else if proto =? IPPROTO_TCP then ToTcp ptr (tot_len - hdr_len)
  else ToRaw ptr (tot_len - hdr_len).

(** ** The ARP table *)

Record etharp_entry := mk_entry { e_count : Z; e_hwaddr : list Z; e_ipaddr : Z }.
(** A request or a reply; the fields of two bytes hold their values. *)
Record etharp := mk_arp {
  arp_hdr : Z; arp_pro : Z; arp_hln : Z; arp_pln : Z; arp_op : Z;
  arp_sha : list Z; arp_spa : list Z; arp_dha : list Z; arp_dpa : list Z;
}.
Definition ARPHRD_ETHER := 1.
Definition ETH_P_IP := 0x0800.
Definition ARPOP_REQUEST := 1.
Definition ARPOP_REPLY := 2.

Definition ETHARP_TABLE_LEN := 2.
(** The entry the cache pointer starts at; it is in read-only memory. *)
Definition bcast : etharp_entry := mk_entry 0 (replicate 6 0xff) INADDR_BROADCAST.
Definition no_entry : etharp_entry := mk_entry 0 (replicate 6 0) 0.
(** The cache pointer: a slot of the table, or [None] for [&bcast]. *)
Record etharp_system := mk_etharp { a_cache : option Z; a_pending : Z; a_tab : list etharp_entry }.
Definition etharp_start : etharp_system :=
  mk_etharp None INADDR_ANY (replicate (Z.to_nat ETHARP_TABLE_LEN) no_entry).
Definition entry (tab : list etharp_entry) (i : Z) : etharp_entry := default no_entry (tab !! Z.to_nat i).

(** The loop of [etharp_add]: the slot to overwrite and the least count, from
    slot [i] on. *)
Fixpoint add_scan (tab : list etharp_entry) (ipaddr : Z) (hwaddr : list Z) (i min new : Z) : Z :=
  match tab with
  | [] => new
  | p :: tab =>
    if (e_ipaddr p =? ipaddr) || bool_decide (e_hwaddr p = hwaddr) then add_scan tab ipaddr hwaddr (i + 1) 0 i
    else if e_count p <? min then add_scan tab ipaddr hwaddr (i + 1) (e_count p) i
    else add_scan tab ipaddr hwaddr (i + 1) min new
  end.
Definition etharp_add (ipaddr : Z) (hwaddr : list Z) (a : etharp_system) : etharp_system :=
  let new := add_scan (a_tab a) ipaddr hwaddr 0 100000 (-1) in
  mk_etharp (a_cache a) (a_pending a) (<[Z.to_nat new := mk_entry 0 hwaddr ipaddr]> (a_tab a)).

Fixpoint find_entry (tab : list etharp_entry) (ipaddr i : Z) : option Z :=
  match tab with
  | [] => None
  | p :: tab => if e_ipaddr p =? ipaddr then Some i else find_entry tab ipaddr (i + 1)
  end.
Definition count_up (i : Z) (tab : list etharp_entry) : list etharp_entry :=
  let p := entry tab i in
  <[Z.to_nat i := mk_entry (u16 (e_count p + 1)) (e_hwaddr p) (e_ipaddr p)]> tab.
(** A hit of the cache counts the entry up, which faults where it is the
    constant one. *)
Definition etharp_lookup (ipaddr : Z) : M etharp_system (option (list Z)) := fun a =>
  match a_cache a with
  | None =>
    if INADDR_BROADCAST =? ipaddr then None
    else match find_entry (a_tab a) ipaddr 0 with
         | Some i => Some (Some (e_hwaddr (entry (a_tab a) i)), mk_etharp (Some i) (a_pending a) (count_up i (a_tab a)))
         | None => Some (None, mk_etharp None ipaddr (a_tab a))
         end
  | Some c =>
    if e_ipaddr (entry (a_tab a) c) =? ipaddr
    then Some (Some (e_hwaddr (entry (a_tab a) c)), mk_etharp (Some c) (a_pending a) (count_up c (a_tab a)))
    else if ipaddr =? INADDR_BROADCAST then Some (Some (e_hwaddr bcast), a)
    else match find_entry (a_tab a) ipaddr 0 with
         | Some i => Some (Some (e_hwaddr (entry (a_tab a) i)), mk_etharp (Some i) (a_pending a) (count_up i (a_tab a)))
         | None => Some (None, mk_etharp (Some c) ipaddr (a_tab a))
         end
  end.

(** ** Sending

    [P] is what an IP datagram is to the protocols above. *)
Section net.
Context {P : Type}.

Inductive frame := ArpFrame (dst : list Z) (a : etharp) | IpFrame (dst : list Z) (p : P).
(** What the driver does with the next frame: it sends it, it has no memory
    for it, or the sending fails. *)
Inductive drv := Sends | NoMap | Fails (ret : Z).

Record nets := mk_nets {
  n_routes : list Route.route;
  n_ifs : gmap Z ifnet;
  n_arp : etharp_system;
  n_drv : list drv;
  n_out : list frame;
}.
Definition eta_nets (s : nets) : nets := mk_nets (n_routes s) (n_ifs s) (n_arp s) (n_drv s) (n_out s).
Definition routes : lens nets (list Route.route) := Lens n_routes ltac:(mk_set eta_nets n_routes).
Definition ifs : lens nets (gmap Z ifnet) := Lens n_ifs ltac:(mk_set eta_nets n_ifs).
Definition arps : lens nets etharp_system := Lens n_arp ltac:(mk_set eta_nets n_arp).
Definition drvs : lens nets (list drv) := Lens n_drv ltac:(mk_set eta_nets n_drv).
Definition outs : lens nets (list frame) := Lens n_out ltac:(mk_set eta_nets n_out).

Definition rd_slot (rt : Z) : M nets Route.route := tab <- get routes;; ret (Route.slot tab rt).
(** The interface of a route; one that is not there faults. *)
Definition rd_if (ifn : Z) : M nets ifnet :=
  fun s => match n_ifs s !! ifn with Some i => Some (i, s) | None => None end.

(** [false] for the null pointer. *)
Definition ifn_mmap : M nets bool :=
  d <- get drvs;;
  match d with
  | NoMap :: d => put drvs d;;; ret false
  | _ => ret true
  end.
Definition ifn_send (f : frame) : M nets Z :=
  d <- get drvs;;
  match d with
  | Fails r :: d => put drvs d;;; ret r
  | [] => o <- get outs;; put outs (o ++ [f]);;; ret 0
  | _ :: d => put drvs d;;; o <- get outs;; put outs (o ++ [f]);;; ret 0
  end.

Definition lift_arp {A} (c : M etharp_system A) : M nets A := fun s =>
  match c (n_arp s) with Some (x, a) => Some (x, lset arps a s) | None => None end.

(** [p] is the datagram, [daddr] the destination in its header. *)
Definition ip_output (rt daddr : Z) (p : P) : M nets Z :=
  r <- rd_slot rt;;
  let dst := if Route.rt_gateway r =? 0 then daddr else Route.rt_gateway r in
  hw <- lift_arp (etharp_lookup dst);;
  match hw with
  | None => ret (- EAGAIN)
  | Some hw => ifn_send (IpFrame hw p)
  end.

(** [etharp_query] and [etharp_reply] build the same packet but for the
    operation and the hardware address of the other host, [dha]. *)
Definition arp_packet (i : ifnet) (op : Z) (dha : list Z) (addr : Z) : etharp :=
  mk_arp ARPHRD_ETHER ETH_P_IP ETH_ADDR_LEN 4 op (if_hwaddr i) (addr_bytes (if_ipv4_addr i))
    dha (addr_bytes addr).
Definition etharp_query (ifn addr : Z) : M nets Z :=
  m <- ifn_mmap;;
  if negb m then ret (-1)
  else
    i <- rd_if ifn;;
    r <- ifn_send (ArpFrame (e_hwaddr bcast) (arp_packet i ARPOP_REQUEST (replicate 6 0) addr));;
    if r <? 0 then ret r else ret 0.
Definition etharp_reply (ifn : Z) (dha : list Z) (addr : Z) : M nets Z :=
  m <- ifn_mmap;;
  if negb m then ret (-1)
  else
    i <- rd_if ifn;;
    r <- ifn_send (ArpFrame dha (arp_packet i ARPOP_REPLY dha addr));;
    if r <? 0 then ret r else ret 0.

Definition SIZEOF_ETHARP := 28.
Definition etharp_input (ifn : Z) (a : etharp) (len : Z) : M nets unit :=
  if len <? SIZEOF_ETHARP then ret tt
  else
    let daddr := IP4_ADDR (arp_dpa a) in
    let saddr := IP4_ADDR (arp_spa a) in
    i <- rd_if ifn;;
    if negb (daddr =? if_ipv4_addr i) then ret tt
    else if negb (arp_hdr a =? ARPHRD_ETHER) then ret tt
    else if negb (arp_pro a =? ETH_P_IP) then ret tt
    else if negb (arp_hln a =? ETH_ADDR_LEN) then ret tt
    else if negb (arp_pln a =? 4) then ret tt
    else
      t <- get arps;;
      put arps (etharp_add saddr (arp_sha a) t);;;
      when (arp_op a =? ARPOP_REQUEST) (etharp_reply ifn (arp_sha a) saddr;;; ret tt).

Definition etharp_query_pending : M nets Z :=
  t <- get arps;;
  let daddr := a_pending t in
  if daddr =? INADDR_ANY then ret 0
  else
    put arps (mk_etharp (a_cache t) INADDR_ANY (a_tab t));;;
    tab <- get routes;;
    match Route.__route_lookup tab daddr with
    | None => ret (-1)
    | Some rt =>
      r <- rd_slot rt;;
      let daddr := if Route.rt_gateway r =? INADDR_ANY then daddr else Route.rt_gateway r in
      etharp_query (Route.rt_ifn r) daddr
    end.
End net.
Arguments nets : clear implicits.
Arguments frame : clear implicits.

(** ** What the header says *)

Lemma IP4_ADDR_cons a b c d l : IP4_ADDR (a :: b :: c :: d :: l) = a + 2 ^ 8 * b + 2 ^ 16 * c + 2 ^ 24 * d.
Proof. reflexivity. Qed.
Lemma addr_bytes_ok a : 0 <= a < 2 ^ 32 -> IP4_ADDR (addr_bytes a) = a /\ bytes (addr_bytes a).
Proof.
  intros Ha. split.
  - unfold addr_bytes. rewrite IP4_ADDR_cons. unfold u8, wrap. rewrite !Z.shiftr_div_pow2 by lia. lia.
  - repeat constructor; apply u8_bound.
Qed.

Lemma length_bytes len :
  0 <= len < 2 ^ 16 ->
  let tmp := Z.shiftr len 8 + Z.shiftr (u32 (Z.shiftl len 24)) 16 in
  256 * u8 tmp + u8 (Z.shiftr tmp 8) = len.
Proof.
  intros Hl tmp. unfold tmp, u8, u32, wrap. rewrite !Z.shiftr_div_pow2, Z.shiftl_mul_pow2 by lia.
  pose proof (Z.div_mod len (2 ^ 8) ltac:(lia)) as E. set (h := len / 2 ^ 8) in *. set (l := len mod 2 ^ 8) in *.
  assert (0 <= h < 2 ^ 8) by (unfold h; lia). assert (0 <= l < 2 ^ 8) by (unfold l; lia). clearbody h l.
  replace (len * 2 ^ 24) with (l * 2 ^ 24 + h * 2 ^ 32) by lia. rewrite Z_mod_plus_full.
  rewrite (Z.mod_small (l * 2 ^ 24)) by lia. replace (l * 2 ^ 24) with ((l * 2 ^ 8) * 2 ^ 16) by lia.
  rewrite Z.div_mul by lia. rewrite Z_div_plus_full by lia. rewrite (Z.div_small h) by lia.
  rewrite Z_mod_plus_full, (Z.mod_small h), Z.add_0_l, (Z.mod_small l) by lia. lia.
Qed.

(** The datagram with the header for it. *)
Definition datagram (seq : Z) (old : list Z) (proto ttl tos saddr daddr : Z) (payload : list Z) : list Z :=
  mk_iphdr (fst (iph_template seq old proto ttl tos)) saddr daddr (zlen payload) ++ payload.
Definition deliver (proto : Z) (l : list Z) : delivery :=
  if proto =? IPPROTO_ICMP then ToIcmp l (zlen l)
  else if proto =? IPPROTO_UDP then ToUdp l (zlen l)
  else if proto =? IPPROTO_TCP then ToTcp l (zlen l)
  else ToRaw l (zlen l).

(** The header, all fields but the checksum. *)
Definition head_pre (seq ttl proto tos tmp : Z) : list Z :=
  [69; u8 tos; u8 tmp; u8 (Z.shiftr tmp 8); u8 (Z.shiftr (u16 (seq + 1)) 8); u8 (u16 (seq + 1)); 0; 0; u8 ttl; u8 proto].
Lemma le_bytes a b c d : 0 <= a < 256 -> 0 <= b < 256 -> 0 <= c < 256 -> 0 <= d < 256 ->
  addr_bytes (a + 2 ^ 8 * b + 2 ^ 16 * c + 2 ^ 24 * d) = [a; b; c; d].
Proof.
  intros Ha Hb Hc Hd. unfold addr_bytes, u8, wrap. rewrite !Z.shiftr_div_pow2 by lia.
  repeat match goal with |- ?x :: _ = ?y :: _ => assert (x = y) as -> by lia; f_equal end.
Qed.
Lemma template_bytes seq old proto ttl tos : 0 <= proto < 256 -> 0 <= ttl < 256 -> 0 <= tos < 256 ->
  fst (iph_template seq old proto ttl tos) =
    [69; u8 tos; 0; 20; u8 (Z.shiftr (u16 (seq + 1)) 8); u8 (u16 (seq + 1)); 0; 0; u8 ttl; u8 proto; 0; 0] ++ drop 12 old.
Proof.
  intros Hp Ht Hs. unfold iph_template, IP_HLVT, fst. cbv zeta. pose proof (u16_bound (seq + 1)) as Hq. set (q := u16 (seq + 1)) in *. clearbody q.
  assert (E1 : u32 (Z.shiftl IP_HEADER_LEN 24 + (Z.shiftl tos 8 + Z.shiftl 4 4 + Z.shiftr IP_HEADER_LEN 2)) = 69 + 2 ^ 8 * tos + 2 ^ 16 * 0 + 2 ^ 24 * 20).
  { rewrite Z.shiftl_mul_pow2 with (a := tos) by lia. change (Z.shiftl IP_HEADER_LEN 24) with 335544320. change (Z.shiftl 4 4) with 64.
    change (Z.shiftr IP_HEADER_LEN 2) with 5. rewrite u32_small by lia. lia. }
  assert (E2 : u32 (Z.shiftr (u32 (Z.shiftl (u32 (Z.shiftl q 16)) 8)) 16 + Z.shiftr (u32 (Z.shiftl q 16)) 24) =
    q / 2 ^ 8 + 2 ^ 8 * (q mod 2 ^ 8) + 2 ^ 16 * 0 + 2 ^ 24 * 0).
  { rewrite !Z.shiftl_mul_pow2, !Z.shiftr_div_pow2 by lia. rewrite (u32_small (q * 2 ^ 16)) by lia.
    replace (u32 (q * 2 ^ 16 * 2 ^ 8)) with (q mod 2 ^ 8 * 2 ^ 24) by (unfold u32, wrap; lia).
    rewrite u32_small by lia. lia. }
  assert (E3 : u32 (Z.shiftl proto 8 + ttl) = ttl + 2 ^ 8 * proto + 2 ^ 16 * 0 + 2 ^ 24 * 0).
  { rewrite Z.shiftl_mul_pow2 by lia. rewrite u32_small by lia. lia. }
  rewrite E1, E2, E3, !le_bytes by lia. rewrite Z.shiftr_div_pow2 by lia.
  rewrite (u8_small tos), (u8_small ttl), (u8_small proto), (u8_small (q / 2 ^ 8)) by lia. done.
Qed.
Lemma mk_iphdr_eq seq old proto ttl tos saddr daddr len :
  0 <= proto < 256 -> 0 <= ttl < 256 -> 0 <= tos < 256 ->
  let n := len + IP_HEADER_LEN in
  let tmp := Z.shiftr n 8 + Z.shiftr (u32 (Z.shiftl n 24)) 16 in
  let pre := head_pre seq ttl proto tos tmp in
  let post := addr_bytes saddr ++ addr_bytes daddr in
  mk_iphdr (fst (iph_template seq old proto ttl tos)) saddr daddr len =
    with_field pre post (chksum_field (in_chksum true 0 (with_field pre post 0) IP_HEADER_LEN)).
Proof. intros Hp Ht Hs. rewrite template_bytes by done. reflexivity. Qed.

Lemma head_pre_bytes seq ttl proto tos tmp : bytes (head_pre seq ttl proto tos tmp).
Proof. repeat (apply bytes_cons; split; [try apply u8_bound; lia|]). constructor. Qed.

Lemma take_header {A} (l l' : list A) : length l = 20%nat -> take 20 (l ++ l') = l /\ drop 20 (l ++ l') = l'.
Proof. intros E. rewrite <-!E. by rewrite take_app_length, drop_app_length. Qed.

(** C32. A datagram with the header the send routines build, for a protocol, a
    time to live and a type of service of one byte each, is taken by the
    interface that has its destination address, as a datagram of the protocol
    and with the payload it was built for; the datagram has at most 65535
    bytes. *)
Theorem header_accepted ifn seq old proto ttl tos saddr daddr payload :
  0 <= saddr < 2 ^ 32 -> 0 <= daddr < 2 ^ 32 -> 0 <= proto < 256 -> 0 <= ttl < 256 -> 0 <= tos < 256 ->
  zlen payload + IP_HEADER_LEN < 2 ^ 16 -> if_ipv4_addr ifn = daddr ->
  ip_input ifn (datagram seq old proto ttl tos saddr daddr payload) (zlen payload + IP_HEADER_LEN) =
    deliver proto payload.
Proof.
  intros Hs Hd Hp Ht Hto Hl Ea. unfold datagram. rewrite mk_iphdr_eq by done.
  pose proof (zlen_nonneg payload) as Hn. change IP_HEADER_LEN with 20 in *. set (n := zlen payload + 20) in *.
  pose proof (length_bytes n ltac:(lia)) as Et. cbv zeta in Et |- *.
  set (tmp := Z.shiftr n 8 + Z.shiftr (u32 (Z.shiftl n 24)) 16) in *. clearbody tmp.
  destruct (addr_bytes_ok saddr Hs) as [Es Bs]. destruct (addr_bytes_ok daddr Hd) as [Ed Bd].
  set (pre := head_pre seq ttl proto tos tmp). set (post := addr_bytes saddr ++ addr_bytes daddr).
  pose proof (checksum_verifies true true 0 5 pre post eq_refl (head_pre_bytes _ _ _ _ _)
    ltac:(by apply Forall_app) ltac:(reflexivity) ltac:(lia)) as Ck.
  change (zlen pre + 2 + zlen post) with 20 in Ck. cbv zeta in Ck.
  change IP_HEADER_LEN with 20. set (c := chksum_field _) in *. clearbody c.
  destruct (take_header (with_field pre post c) payload eq_refl) as [E1 E2].
  assert (Eh : Z.shiftl (Z.land (zget (with_field pre post c ++ payload) 0) 15) 2 = 20) by reflexivity.
  unfold ip_input. rewrite Eh. change (Z.to_nat 20) with 20%nat. rewrite E1, E2.
  change (zget (with_field pre post c ++ payload) 0) with 69.
  change (zget (with_field pre post c ++ payload) 2) with (u8 tmp).
  change (zget (with_field pre post c ++ payload) 3) with (u8 (Z.shiftr tmp 8)).
  change (zget (with_field pre post c ++ payload) 6) with 0.
  change (zget (with_field pre post c ++ payload) 7) with 0.
  change (zget (with_field pre post c ++ payload) 9) with (u8 proto).
  change (IP4_ADDR (drop 16 (with_field pre post c ++ payload))) with (IP4_ADDR (addr_bytes daddr)).
  rewrite Et, Ed, Ck, Ea, u8_small by lia.
  rewrite (proj2 (Z.ltb_ge n 20)), (Z.ltb_irrefl n), !Z.eqb_refl by (unfold n; lia). simpl.
  replace (n - 20) with (zlen payload) by (unfold n; lia). done.
Qed.
Lemma header_accepted_witness :
  let ifn := mk_ifnet 1500 0x0201000a 0x00ffffff [] in
  zlen [1; 2; 3] + IP_HEADER_LEN < 2 ^ 16 /\
  ip_input ifn (datagram 7 [] IPPROTO_TCP 127 0 0x0101000a 0x0201000a [1; 2; 3]) 23 = ToTcp [1; 2; 3] 3.
Proof.
  split; [reflexivity|].
  refine (header_accepted (mk_ifnet 1500 0x0201000a 0x00ffffff []) 7 [] IPPROTO_TCP 127 0 0x0101000a 0x0201000a [1; 2; 3] _ _ _ _ _ _ eq_refl);
    first [reflexivity | unfold IPPROTO_TCP; lia].
Defined.

(** The test for more fragments looks at a bit of the fragment offset: the
    header file defines [IP_MF] in network byte order, and it is swapped once
    more. The first fragment of a datagram is taken for a whole one. *)
Definition fragment : list Z :=
  let hdr c := [69; 0; 0; 23; 0; 1; 0x20; 0; 127; IPPROTO_TCP; u8 c; Z.shiftr c 8; 10; 0; 1; 1; 10; 0; 1; 2] in
  hdr (chksum_field (in_chksum true 0 (hdr 0) 20)) ++ [1; 2; 3].
Example first_fragment_delivered :
  ip_input (mk_ifnet 1500 0x0201000a 0x00ffffff []) fragment 23 = ToTcp [1; 2; 3] 3.
Proof. vm_compute. reflexivity. Qed.

(** ** What the ARP table says *)

Record arp_ok (a : etharp_system) : Prop := {
  ao_len : length (a_tab a) = 2%nat;
  ao_count : Forall (fun p => 0 <= e_count p < 2 ^ 16) (a_tab a);
  ao_cache : forall c, a_cache a = Some c -> 0 <= c < ETHARP_TABLE_LEN;
}.
(** At most one entry has the address or the hardware address. *)
Definition matches (ip : Z) (hw : list Z) (p : etharp_entry) : Prop := e_ipaddr p = ip \/ e_hwaddr p = hw.
Definition no_clash (ip : Z) (hw : list Z) (a : etharp_system) : Prop :=
  forall i j, 0 <= i < ETHARP_TABLE_LEN -> 0 <= j < ETHARP_TABLE_LEN ->
  matches ip hw (entry (a_tab a) i) -> matches ip hw (entry (a_tab a) j) -> i = j.

Lemma add_ok ip hw a : arp_ok a -> arp_ok (etharp_add ip hw a).
Proof.
  intros [El Fc Hc]. split; simpl; [by rewrite length_insert| |done].
  by apply Forall_insert.
Qed.
Lemma count_ok i tab : Forall (fun p => 0 <= e_count p < 2 ^ 16) tab -> Forall (fun p => 0 <= e_count p < 2 ^ 16) (count_up i tab).
Proof. intros F. unfold count_up. apply Forall_insert; [done|]. simpl. apply u16_bound. Qed.

(** The slot that is overwritten is the one of the address, if it has one. *)
Lemma scan_slot ip hw p q :
  0 <= e_count p < 2 ^ 16 -> 0 <= e_count q < 2 ^ 16 -> ~ (matches ip hw p /\ matches ip hw q) ->
  let new := add_scan [p; q] ip hw 0 100000 (-1) in
  (new = 0 /\ e_ipaddr q <> ip) \/ (new = 1 /\ e_ipaddr p <> ip).
Proof.
  intros Hp Hq N. unfold matches in N. cbn [add_scan].
  destruct (Z.eqb_spec (e_ipaddr p) ip), (Z.eqb_spec (e_ipaddr q) ip), (bool_decide_reflect (e_hwaddr p = hw)),
    (bool_decide_reflect (e_hwaddr q = hw)); cbn [orb];
    try (destruct (Z.ltb_spec (e_count p) 100000)); try (destruct (Z.ltb_spec (e_count q) 0));
    try (destruct (Z.ltb_spec (e_count q) (e_count p))); tauto || lia.
Qed.

(** C31. If at most one entry of the table has the address [ip] or the hardware
    address [hw], then after a packet from [ip] at [hw] the lookup of [ip] gives
    [hw], wherever the cache pointer stood, for every [ip] but the broadcast
    address. (With one entry for the address and
    another one for the hardware address it may go on giving the old one:
    [etharp_keeps_old].) *)
Theorem etharp_learns ip hw a :
  arp_ok a -> no_clash ip hw a -> ip <> INADDR_BROADCAST ->
  exists a', etharp_lookup ip (etharp_add ip hw a) = Some (Some hw, a') /\ arp_ok a'.
Proof.
  intros Ha N Hip. pose proof (add_ok ip hw a Ha) as Ha'. destruct Ha as [El Fc Hc], a as [c pend tab]. simpl in *.
  destruct tab as [|p [|q [|]]]; try done. clear El.
  apply List.Forall_cons_iff in Fc as [Fp [Fq _]%List.Forall_cons_iff].
  assert (Hn : ~ (matches ip hw p /\ matches ip hw q)).
  { intros [Mp Mq]. specialize (N 0 1 ltac:(done) ltac:(done) Mp Mq). done. }
  pose proof (scan_slot ip hw p q Fp Fq Hn) as S. cbv zeta in S.
  assert (Hb : (INADDR_BROADCAST =? ip) = false) by (apply Z.eqb_neq; congruence).
  assert (Hb' : (ip =? INADDR_BROADCAST) = false) by by apply Z.eqb_neq.
  assert (Hc' : c = None \/ c = Some 0 \/ c = Some 1).
  { destruct c as [c|]; [|by left]. specialize (Hc c eq_refl). unfold ETHARP_TABLE_LEN in Hc.
    assert (c = 0 \/ c = 1) as [->| ->] by lia; auto. }
  unfold etharp_add, etharp_lookup in *. cbn [a_cache a_tab a_pending] in *.
  assert (Fin : forall i, 0 <= i < 2 -> arp_ok (mk_etharp (Some i) pend
    (count_up i (<[Z.to_nat (add_scan [p; q] ip hw 0 100000 (-1)) := mk_entry 0 hw ip]> [p; q])))).
  { intros i Hi. split; simpl; [unfold count_up; by rewrite !length_insert|apply count_ok, Ha'|by intros ? [= <-]]. }
  set (new := add_scan [p; q] ip hw 0 100000 (-1)) in *. clearbody new.
  destruct S as [[-> Hne]|[-> Hne]]; (destruct Hc' as [->|[-> | ->]]); unfold entry in *; simpl in *;
    rewrite ?(proj2 (Z.eqb_neq _ _) Hne), ?Hb, ?Hb', ?Z.eqb_refl; simpl;
    eexists; (split; [reflexivity|]); first [by apply (Fin 0)|by apply (Fin 1)].
Qed.
Lemma etharp_learns_witness :
  exists a', etharp_lookup 0x0201000a (etharp_add 0x0201000a [1; 2; 3; 4; 5; 6] etharp_start) =
    Some (Some [1; 2; 3; 4; 5; 6], a') /\ arp_ok a'.
Proof.
  apply (etharp_learns 0x0201000a [1; 2; 3; 4; 5; 6] etharp_start).
  - split; [reflexivity| |discriminate]. repeat constructor; simpl; lia.
  - intros i j Hi Hj M. unfold ETHARP_TABLE_LEN in *. exfalso.
    assert (i = 0 \/ i = 1) as [->| ->] by lia; destruct M; discriminate.
  - discriminate.
Defined.

(** Where two entries match, one for the address and one for the hardware
    address, the second one is overwritten and the first one stays: the lookup
    gives the old hardware address. *)
Example etharp_keeps_old :
  let add ip b := etharp_add ip (replicate 6 b) in
  match etharp_lookup 1 (add 1 11 etharp_start) with
  | Some (_, a) => fst <$> etharp_lookup 1 (add 1 12 (add 2 12 a))
  | None => None
  end = Some (Some (replicate 6 11)).
Proof. vm_compute. reflexivity. Qed.
(** The lookup of the broadcast address before any other counts up the
    constant entry the cache pointer starts at. *)
Example broadcast_first_faults : etharp_lookup INADDR_BROADCAST etharp_start = None.
Proof. reflexivity. Qed.
End Ip.
Import Ip.
