(* ===== verification/Tcp.v ===== *)
(** * TCP: the protocol control block and what is done to it

    [sdk/libtcpip/tcp]: the control block of a connection, the sending of its
    segments ([tcp_out.c]), the processing of a segment that is for it
    ([tcp_in.c]), its timers and the parts of the calls that concern it. The
    lists of control blocks and the calls are in [TcpSys].

    A segment is a record of the header fields, in host order, and of the bytes
    after the fixed header; the checksum is that of [InChksum] and is left out,
    as the configuration leaves its test to the hardware. The queues are those
    of [MbufThms]: an offset into the first buffer and the bytes. *)

From S2P Require Import Prelude Mbuf MbufOps MbufThms Route InChksum Ip.
From stdpp Require Import list.
Import InChksum.InChksum Ip.Ip.
Open Scope Z_scope.
Open Scope c_scope.

Module Tcp.

(** ** Constants and sequence numbers *)

Definition tcp_maxrcv := 2920.
Definition tcp_maxsnd := 2920.
Definition tcp_maxwin := 2920.
Definition tcp_defmss := 1460.
Definition tcp_maxmss := 2920.
Definition SIZEOF_IPHDR := 20.
Definition SIZEOF_TCPHDR := 20.

Definition TCPS_CLOSED := 0.
Definition TCPS_LISTEN := 1.
Definition TCPS_SYN_SENT := 2.
Definition TCPS_SYN_RCVD := 3.
Definition TCPS_ESTABLISHED := 4.
Definition TCPS_CLOSE_WAIT := 5.
Definition TCPS_FIN_WAIT_1 := 6.
Definition TCPS_CLOSING := 7.
Definition TCPS_LAST_ACK := 8.
Definition TCPS_FIN_WAIT_2 := 9.
Definition TCPS_TIME_WAIT := 10.
Definition TCPS_HAVERCVDSYN (s : Z) : bool := TCPS_SYN_RCVD <=? s.
Definition TCPS_HAVERCVDFIN (s : Z) : bool := TCPS_TIME_WAIT <=? s.

Definition TF_ACKNOW := 0x01.
Definition TF_DELACK := 0x02.
Definition TF_SENTFIN := 0x04.
Definition TF_IDLE := 0x08.
Definition TF_NEEDOUTPUT := 0x80.

Definition TH_FIN := 0x01.
Definition TH_SYN := 0x02.
Definition TH_RST := 0x04.
Definition TH_PSH := 0x08.
Definition TH_ACK := 0x10.
Definition TH_URG := 0x20.

(** [f & m] as a condition, [f |= m] and [f &= ~m]. *)
Definition has (f m : Z) : bool := negb (Z.land f m =? 0).
Definition setf (f m : Z) : Z := Z.lor f m.
Definition clrf (f m : Z) : Z := Z.ldiff f m.

Definition SEQ_LT (a b : Z) : bool := s32 (a - b) <? 0.
Definition SEQ_LEQ (a b : Z) : bool := s32 (a - b) <=? 0.
Definition SEQ_GT (a b : Z) : bool := 0 <? s32 (a - b).

Definition TCPOPT_END := 0.
Definition TCPOPT_NOP := 1.
Definition TCPOPT_MSS := 2.
Definition TCPOLEN_MSS := 4.

Definition TCP_MAXRXMTS := 6.
Definition tcp_rxmtintvl : list Z := [3; 6; 12; 24; 48; 96; 128; 128; 128; 128; 128; 128].
Definition tcp_msl := 2.
Definition tcp_conn_est_tmo := 10.
Definition tcp_idle_det_tmo := 10.
Definition TCPTV_KEEP_IDLE := 15.
Definition TCPTV_MAX_IDLE := 30.
Definition tcp_keepintvl : list Z :=
  let k := TCPTV_KEEP_IDLE in
  let m := TCPTV_MAX_IDLE - TCPTV_KEEP_IDLE in
  [(k + 3) / 4; (k + 2) / 4; (k + 1) / 4; (k + 0) / 4;
   (m + 7) / 8; (m + 6) / 8; (m + 5) / 8; (m + 4) / 8;
   (m + 3) / 8; (m + 2) / 8; (m + 1) / 8; (m + 0) / 8; (m + 0) / 8].

Definition tcp_outflags : list Z :=
  [Z.lor TH_RST TH_ACK; 0; TH_SYN; Z.lor TH_SYN TH_ACK; TH_ACK; TH_ACK; Z.lor TH_FIN TH_ACK;
   Z.lor TH_FIN TH_ACK; Z.lor TH_FIN TH_ACK; TH_ACK; TH_ACK].

(** ** Segments *)

Record segment := Seg {
  th_saddr : Z; th_daddr : Z;      (* of the IP header *)
  th_sport : Z; th_dport : Z;
  th_seq : Z; th_ack : Z;
  th_off : Z;                      (* of the header, in words *)
  th_flags : Z; th_win : Z;
  th_rest : list Z;                (* options and data *)
  th_len : Z;                      (* header, options and data, by the IP header *)
}.

(** ** Queues of bytes *)

Record mqueue := Mq { q_offs : Z; q_bytes : list Z }.
Definition q_len (q : mqueue) : Z := zlen (q_bytes q).
Definition q_empty : mqueue := Mq 0 [].

(** ** The control block *)

Record tcp_pcb := mk_pcb {
  p_faddr : Z; p_laddr : Z; p_fport : Z; p_lport : Z;
  p_flags : Z;
  p_state : Z;
  p_cond : Z;                      (* in a listening block the semaphore *)
  p_count : Z;
  p_rxmt_tmr : Z;
  p_conn_tmr : Z;
  p_maxseg : Z;
  p_route : option Z;
  p_snd_seq : Z; p_snd_off : Z; p_snd_max : Z; p_snd_wnd : Z;
  p_rcv_adv : Z;
  p_rcv_nxt : Z;
  p_rcv_q : mqueue;
  p_snd_q : mqueue;
  p_backlog : list (option Z);     (* of a listening block, with its indices *)
  p_head : Z; p_tail : Z;
}.
Definition eta_pcb (s : tcp_pcb) : tcp_pcb :=
  mk_pcb (p_faddr s) (p_laddr s) (p_fport s) (p_lport s) (p_flags s) (p_state s) (p_cond s) (p_count s)
    (p_rxmt_tmr s) (p_conn_tmr s) (p_maxseg s) (p_route s) (p_snd_seq s) (p_snd_off s) (p_snd_max s)
    (p_snd_wnd s) (p_rcv_adv s) (p_rcv_nxt s) (p_rcv_q s) (p_snd_q s) (p_backlog s) (p_head s) (p_tail s).
(** After [memset]. *)
Definition pcb_zero : tcp_pcb :=
  mk_pcb 0 0 0 0 0 0 0 0 0 0 0 None 0 0 0 0 0 0 q_empty q_empty [] 0 0.

(** A connection as the code below sees it: its block, the free packet buffers,
    the network below, and the count of wakeups of its condition variable. *)
Record conn := mk_conn { c_tp : tcp_pcb; c_free : Z; c_net : nets segment; c_wakes : Z }.
Definition eta_conn (s : conn) : conn := mk_conn (c_tp s) (c_free s) (c_net s) (c_wakes s).

Definition tp : lens conn tcp_pcb := Lens c_tp ltac:(mk_set eta_conn c_tp).
Definition pool_free : lens conn Z := Lens c_free ltac:(mk_set eta_conn c_free).
Definition net : lens conn (nets segment) := Lens c_net ltac:(mk_set eta_conn c_net).
Definition wakes : lens conn Z := Lens c_wakes ltac:(mk_set eta_conn c_wakes).

Definition f_faddr : lens tcp_pcb Z := Lens p_faddr ltac:(mk_set eta_pcb p_faddr).
Definition f_laddr : lens tcp_pcb Z := Lens p_laddr ltac:(mk_set eta_pcb p_laddr).
Definition f_fport : lens tcp_pcb Z := Lens p_fport ltac:(mk_set eta_pcb p_fport).
Definition f_lport : lens tcp_pcb Z := Lens p_lport ltac:(mk_set eta_pcb p_lport).
Definition f_flags : lens tcp_pcb Z := Lens p_flags ltac:(mk_set eta_pcb p_flags).
Definition f_state : lens tcp_pcb Z := Lens p_state ltac:(mk_set eta_pcb p_state).
Definition f_cond : lens tcp_pcb Z := Lens p_cond ltac:(mk_set eta_pcb p_cond).
Definition f_count : lens tcp_pcb Z := Lens p_count ltac:(mk_set eta_pcb p_count).
Definition f_rxmt_tmr : lens tcp_pcb Z := Lens p_rxmt_tmr ltac:(mk_set eta_pcb p_rxmt_tmr).
Definition f_conn_tmr : lens tcp_pcb Z := Lens p_conn_tmr ltac:(mk_set eta_pcb p_conn_tmr).
Definition f_maxseg : lens tcp_pcb Z := Lens p_maxseg ltac:(mk_set eta_pcb p_maxseg).
Definition f_route : lens tcp_pcb (option Z) := Lens p_route ltac:(mk_set eta_pcb p_route).
Definition f_snd_seq : lens tcp_pcb Z := Lens p_snd_seq ltac:(mk_set eta_pcb p_snd_seq).
Definition f_snd_off : lens tcp_pcb Z := Lens p_snd_off ltac:(mk_set eta_pcb p_snd_off).
Definition f_snd_max : lens tcp_pcb Z := Lens p_snd_max ltac:(mk_set eta_pcb p_snd_max).
Definition f_snd_wnd : lens tcp_pcb Z := Lens p_snd_wnd ltac:(mk_set eta_pcb p_snd_wnd).
Definition f_rcv_adv : lens tcp_pcb Z := Lens p_rcv_adv ltac:(mk_set eta_pcb p_rcv_adv).
Definition f_rcv_nxt : lens tcp_pcb Z := Lens p_rcv_nxt ltac:(mk_set eta_pcb p_rcv_nxt).
Definition f_rcv_q : lens tcp_pcb mqueue := Lens p_rcv_q ltac:(mk_set eta_pcb p_rcv_q).
Definition f_snd_q : lens tcp_pcb mqueue := Lens p_snd_q ltac:(mk_set eta_pcb p_snd_q).
Definition f_backlog : lens tcp_pcb (list (option Z)) := Lens p_backlog ltac:(mk_set eta_pcb p_backlog).
Definition f_head : lens tcp_pcb Z := Lens p_head ltac:(mk_set eta_pcb p_head).
Definition f_tail : lens tcp_pcb Z := Lens p_tail ltac:(mk_set eta_pcb p_tail).

Abbreviation C := (M conn).
(** [tp->f], and an assignment to it. *)
Definition rd {A} (f : lens tcp_pcb A) : C A := get (lens_comp tp f).
Definition wr {A} (f : lens tcp_pcb A) (v : A) : C unit := put (lens_comp tp f) v.
Definition flag_on (m : Z) : C unit := f <- rd f_flags;; wr f_flags (setf f m).
Definition flag_off (m : Z) : C unit := f <- rd f_flags;; wr f_flags (clrf f m).
(** A signal or a broadcast of the condition variable of the block. *)
Definition broadcast : C unit := n <- get wakes;; put wakes (n + 1).
Definition lift_net {A} (c : M (nets segment) A) : C A := fun s =>
  match c (c_net s) with Some (x, n) => Some (x, lset net n s) | None => None end.

Section code.
Context `{MbufConfig}.

(** ** The calls of the packet buffers

    What [MbufThms.step] says of them, as functions of the queue and of the
    count of free buffers. *)

Definition mbuf_queue_add (f : lens tcp_pcb mqueue) (buf : list Z) (len : Z) : C Z :=
  q <- rd f;;
  free <- get pool_free;;
  let room := (nblk (q_offs q) (q_bytes q) + free) * MBUF_DATA_SIZE - q_offs q - q_len q in
  let n := Z.max 0 (Z.min len room) in
  if zlen buf <? len then fault
  else
    let q' := Mq (q_offs q) (q_bytes q ++ take (Z.to_nat n) buf) in
    wr f q';;;
    put pool_free (free + nblk (q_offs q) (q_bytes q) - nblk (q_offs q') (q_bytes q'));;;
    ret n.
(** The first [n] bytes go, of those there are. *)
Definition mbuf_queue_drop (f : lens tcp_pcb mqueue) (len : Z) : C (list Z) :=
  q <- rd f;;
  free <- get pool_free;;
  if len <? 0 then fault
  else
    let n := Z.min len (q_len q) in
    let c := drop (Z.to_nat n) (q_bytes q) in
    let q' := Mq (front_offs (q_offs q) n c) c in
    wr f q';;;
    put pool_free (free + nblk (q_offs q) (q_bytes q) - nblk (q_offs q') (q_bytes q'));;;
    ret (take (Z.to_nat n) (q_bytes q)).
Definition mbuf_queue_remove := mbuf_queue_drop.
Definition mbuf_queue_trim (f : lens tcp_pcb mqueue) (len : Z) : C unit := mbuf_queue_drop f len;;; ret tt.
Definition mbuf_queue_get (f : lens tcp_pcb mqueue) (offs len : Z) : C (list Z) :=
  q <- rd f;;
  if (offs <? 0) || (len <? 0) then fault
  else
    let n := Z.max 0 (Z.min len (q_len q - offs)) in
    ret (take (Z.to_nat n) (drop (Z.to_nat offs) (q_bytes q))).
Definition mbuf_queue_free (f : lens tcp_pcb mqueue) : C unit :=
  q <- rd f;;
  free <- get pool_free;;
  wr f q_empty;;;
  put pool_free (free + nblk (q_offs q) (q_bytes q) - nblk 0 []).
Definition mbuf_queue_init (f : lens tcp_pcb mqueue) : C unit := wr f q_empty.

(** ** Options *)

(** A byte of a packet; an access past its end faults. *)
Definition byte_rd (p : list Z) (i : Z) : C Z := if i <? zlen p then ret (zget p i) else fault.

(** The loop of [tcp_parse_options]; every round goes on by a byte at least,
    so that [fuel] of the length of the packet is enough. *)
Fixpoint tcp_parse_options (fuel : nat) (flags : Z) (p : list Z) (len : Z) : C unit :=
  if len =? 0 then ret tt
  else match fuel with
       | O => fault
       | S fuel =>
         opt <- byte_rd p 0;;
         if opt =? TCPOPT_END then ret tt
         else if opt =? TCPOPT_NOP then tcp_parse_options fuel flags (drop 1 p) (len - 1)
         else
           n <- byte_rd p 1;;
           if n <=? 0 then ret tt
           else
             when ((opt =? TCPOPT_MSS) && (n =? TCPOLEN_MSS) && has flags TH_SYN)
               (hi <- byte_rd p 2;;
                lo <- byte_rd p 3;;
                mx <- rd f_maxseg;;
                let val := Z.shiftl hi 8 + lo in
                when (val <? mx) (wr f_maxseg (u16 val)));;;
             tcp_parse_options fuel flags (drop (Z.to_nat n) p) (len - n)
       end.

(** ** Sending *)

(** The reply of [tcp_respond] to a segment. *)
Definition respond_segment (th : segment) (ack seq flags : Z) : segment :=
  Seg (th_daddr th) (th_saddr th) (th_dport th) (th_sport th) (u32 seq) (u32 ack)
    (SIZEOF_TCPHDR / 4) flags 0 [] SIZEOF_TCPHDR.
Definition tcp_respond (th : segment) (ack seq flags : Z) : M (nets segment) Z :=
  let daddr := th_saddr th in
  tab <- get routes;;
  match Route.__route_lookup tab daddr with
  | None => ret (-1)
  | Some rt =>
    r <- ip_output rt daddr (respond_segment th ack seq flags);;
    if r <? 0 then ret r else ret 0
  end.

Definition rt_mtu (rt : Z) : M (nets segment) Z :=
  r <- rd_slot rt;;
  i <- rd_if (Route.rt_ifn r);;
  ret (if_mtu i).
Definition tcp_mss : C Z :=
  rt <- rd f_route;;
  match rt with
  | Some rt =>
    mtu <- lift_net (rt_mtu rt);;
    ret (Z.min (mtu - (SIZEOF_TCPHDR + SIZEOF_IPHDR)) tcp_maxmss)
  | None => ret tcp_defmss
  end.

(** The route of the block, looked up the first time. *)
Definition pcb_route : C (option Z) :=
  rt <- rd f_route;;
  match rt with
  | Some rt => ret (Some rt)
  | None =>
    daddr <- rd f_faddr;;
    tab <- lift_net (get routes);;
    match Route.__route_lookup tab daddr with
    | None => ret None
    | Some rt => wr f_route (Some rt);;; ret (Some rt)
    end
  end.

(** The tests of [tcp_output] that lead to [send]. *)
Definition want_send (p : tcp_pcb) (idle : bool) (una nxt max off len win flags : Z) : bool :=
  (negb (len =? 0) &&
    ((len =? p_maxseg p) || (idle && (q_len (p_snd_q p) <=? len + off)) ||
     (Z.quot (p_snd_wnd p) 2 <=? len) || SEQ_LT nxt max)) ||
  ((0 <? win) &&
    (let adv := Z.min win (tcp_maxwin - p_rcv_adv p) in
     (2 * p_maxseg p <=? adv) || (tcp_maxrcv <=? 2 * adv))) ||
  has (p_flags p) TF_ACKNOW || has flags TH_SYN || has flags TH_RST ||
  (has flags TH_FIN && (negb (has (p_flags p) TF_SENTFIN) || (nxt =? una))).

(** How the sending of a segment ends: with the result of [tcp_output], or in
    another round with these [snd_nxt] and [snd_max]. *)
Inductive sent := Stop (r : Z) | Again (nxt max : Z).

(** From [send] to the end, [win] being the space in the receive queue. *)
Definition send_segment (una nxt max off len win flags : Z) (sendalot : bool) : C sent :=
  rt <- pcb_route;;
  match rt with
  | None => ret (Stop 0)
  | Some rt =>
    mtu <- lift_net (rt_mtu rt);;
    let len := if mtu <? SIZEOF_IPHDR + SIZEOF_TCPHDR + len then mtu - (SIZEOF_IPHDR + SIZEOF_TCPHDR) else len in
    mem <- lift_net ifn_mmap;;
    if negb mem then ret (Stop 0)
    else
      mss <- tcp_mss;;
      p <- get tp;;
      let opt := if has flags TH_SYN then [TCPOPT_MSS; TCPOLEN_MSS; u8 (Z.shiftr mss 8); u8 mss] else [] in
      let optlen := zlen opt in
      let hdrlen := SIZEOF_TCPHDR + optlen in
      let over := u32 (p_maxseg p - optlen) <? u32 len in
      let len := if over then p_maxseg p - optlen else len in
      let sendalot := sendalot || over in
      let flags := if negb (len =? 0) && (off + len =? q_len (p_snd_q p)) then setf flags TH_PSH else flags in
      let nxt := if has flags TH_FIN && has (p_flags p) TF_SENTFIN && (nxt =? max) then u32 (nxt - 1) else nxt in
      let seq := if negb (len =? 0) || has flags (Z.lor TH_SYN TH_FIN) then nxt else max in
      let win := if (win <? tcp_maxrcv / 4) && (win <? p_maxseg p) then 0 else win in
      let win := if tcp_maxwin <? win then tcp_maxwin else win in
      data <- (if 0 <? len then mbuf_queue_get f_snd_q off len else ret []);;
      let th := Seg (p_laddr p) (p_faddr p) (p_lport p) (p_fport p) seq (p_rcv_nxt p) (Z.shiftr hdrlen 2) flags
        (u16 win) (opt ++ data) (hdrlen + len) in
      let nxt := if has flags TH_SYN then u32 (nxt + 1) else nxt in
      when (has flags TH_FIN) (flag_on TF_SENTFIN);;;
      let nxt := if has flags TH_FIN then u32 (nxt + 1) else nxt in
      let nxt := u32 (nxt + len) in
      let max := if SEQ_GT nxt max then nxt else max in
      when ((p_rxmt_tmr p =? 0) && negb (nxt =? una))
        (wr f_rxmt_tmr (zget tcp_rxmtintvl 0);;; wr f_count 0);;;
      wr f_snd_seq una;;;
      wr f_snd_off (u16 (nxt - una));;;
      wr f_snd_max (u16 (max - una));;;
      r <- lift_net (ip_output rt (p_faddr p) th);;
      if r <? 0 then ret (Stop r)
      else
        when ((0 <? win) && (p_rcv_adv p <? win)) (wr f_rcv_adv win);;;
        flag_off (Z.lor TF_ACKNOW TF_DELACK);;;
        ret (if sendalot then Again nxt max else Stop 0)
  end.

(** A round of [tcp_output] from [again]. *)
Definition output_round (una nxt max : Z) (idle : bool) : C sent :=
  p <- get tp;;
  let off := s32 (nxt - una) in
  let wnd := p_snd_wnd p in
  let flags := zget tcp_outflags (p_state p) in
  let len := Z.min (q_len (p_snd_q p)) wnd - off in
  let closed := (len <? 0) && (wnd =? 0) in
  when closed (wr f_rxmt_tmr 0;;; wr f_snd_off 0);;;
  let nxt := if closed then una else nxt in
  let len := if len <? 0 then 0 else len in
  let sendalot := p_maxseg p <? len in
  let len := if sendalot then p_maxseg p else len in
  let flags := if SEQ_LT (nxt + len) (una + q_len (p_snd_q p)) then clrf flags TH_FIN else flags in
  let win := tcp_maxrcv - q_len (p_rcv_q p) in
  p <- get tp;;
  if want_send p idle una nxt max off len win flags
  then send_segment una nxt max off len win flags sendalot
  else ret (Stop 0).

Fixpoint output_loop (fuel : nat) (una nxt max : Z) (idle : bool) : C Z :=
  match fuel with
  | O => fault
  | S fuel =>
    r <- output_round una nxt max idle;;
    match r with
    | Stop r => ret r
    | Again nxt max => output_loop fuel una nxt max idle
    end
  end.
Definition output_with (fuel : nat) : C Z :=
  p <- get tp;;
  let una := p_snd_seq p in
  let nxt := u32 (p_snd_seq p + p_snd_off p) in
  let max := u32 (p_snd_seq p + p_snd_max p) in
  output_loop fuel una nxt max (max =? una).
(** A round that is followed by another one sends a byte at least. *)
Definition tcp_output : C Z := output_with (Z.to_nat (tcp_maxsnd + 2)).

(** [tcp_keepalive]: a segment without data and an old sequence number. *)
Definition tcp_keepalive : C Z :=
  p <- get tp;;
  tab <- lift_net (get routes);;
  match Route.__route_lookup tab (p_faddr p) with
  | None => ret (-1)
  | Some rt =>
    mem <- lift_net ifn_mmap;;
    if negb mem then fault
    else
      let th := Seg (p_laddr p) (p_faddr p) (p_lport p) (p_fport p) (u32 (p_snd_seq p - 1)) (p_rcv_nxt p)
        (SIZEOF_TCPHDR / 4) TH_ACK (u16 (tcp_maxrcv - q_len (p_rcv_q p))) [] SIZEOF_TCPHDR in
      r <- lift_net (ip_output rt (p_faddr p) th);;
      ret (if r <? 0 then 1 else 0)
  end.

(** ** Receiving

    How the processing of a segment for a block ends: with the result of
    [tcp_input], the block being scheduled for output or not; with a reset
    for the sender of the segment; with the block moved to the closed ones; or
    with the block freed. *)
Inductive verdict :=
| Done (r : Z) (sched : bool)
| Reset (seq len ack flags : Z)
| Closed
| ClosedReset (seq len ack flags : Z)
| Freed.

Definition take_acked (acked : Z) : C unit := mbuf_queue_trim f_snd_q acked.

(** The place in [th_rest] where the data of a segment begins. *)
Definition opt_len (th : segment) : Z := Z.shiftl (th_off th) 2 - SIZEOF_TCPHDR.
Definition data_at (th : segment) (pos : Z) : list Z := drop (Z.to_nat pos) (th_rest th).
(** The bytes [data], [len] of them: an access outside the packet faults. *)
Definition rcv_data (th : segment) (pos len : Z) : C Z :=
  if pos <? 0 then fault else mbuf_queue_add f_rcv_q (data_at th pos) len.

(** [tp->t_rxmt_tmr = tcp_rxmtintvl[cnt / 2]]; an index past the table faults. *)
Definition rxmt_restart (cnt : Z) : C unit := fun s =>
  match tcp_rxmtintvl !! Z.to_nat (cnt / 2) with
  | Some v => wr f_rxmt_tmr v s
  | None => None
  end.

(** Header prediction; [None] where the slow path follows. *)
Definition predict (th : segment) (ti_len una nxt max : Z) : C (option verdict) :=
  p <- get tp;;
  let tiflags := th_flags th in
  let ti_ack := th_ack th in
  let mask := Z.lor TH_SYN (Z.lor TH_FIN (Z.lor TH_RST (Z.lor TH_URG TH_ACK))) in
  if negb ((p_state p =? TCPS_ESTABLISHED) && (Z.land tiflags mask =? TH_ACK) &&
           (th_seq th =? p_rcv_nxt p) && negb (th_win th =? 0) && (th_win th =? p_snd_wnd p) && (nxt =? max))
  then ret None
  else if ti_len =? 0 then
    if SEQ_GT ti_ack una && SEQ_LEQ ti_ack max then
      let acked := s32 (ti_ack - una) in
      take_acked acked;;;
      wr f_snd_seq ti_ack;;;
      wr f_snd_off (u16 (nxt - ti_ack));;;
      wr f_snd_max (u16 (max - ti_ack));;;
      (if ti_ack =? max then wr f_rxmt_tmr 0;;; wr f_count 0
       else when (p_rxmt_tmr p =? 0)
         (rxmt_restart (p_count p)));;;
      broadcast;;;
      q <- rd f_snd_q;;
      ret (Some (Done 1 (negb (q_len q =? 0))))
    else ret None
  else if (ti_ack =? una) && (ti_len <=? tcp_maxrcv - q_len (p_rcv_q p)) then
    n <- rcv_data th (opt_len th) ti_len;;
    wr f_rcv_nxt (u32 (p_rcv_nxt p + n));;;
    broadcast;;;
    (if n =? ti_len then flag_on TF_DELACK else flag_on TF_ACKNOW);;;
    ret (Some (Done n (negb (n =? ti_len))))
  else ret None.

(** The end of the slow path: the FIN of the segment, and the output. *)
Definition fin_and_output (tiflags : Z) (needoutput : bool) : C verdict :=
  when (has tiflags TH_FIN)
    (p <- get tp;;
     when (negb (TCPS_HAVERCVDFIN (p_state p)))
       (flag_on TF_ACKNOW;;; wr f_rcv_nxt (u32 (p_rcv_nxt p + 1)));;;
     (if (p_state p =? TCPS_SYN_RCVD) || (p_state p =? TCPS_ESTABLISHED) then
        wr f_state TCPS_CLOSE_WAIT;;;
        when (q_len (p_rcv_q p) =? 0) broadcast
      else if p_state p =? TCPS_FIN_WAIT_1 then wr f_state TCPS_CLOSING
      else if p_state p =? TCPS_FIN_WAIT_2 then
        mbuf_queue_free f_rcv_q;;;
        mbuf_queue_free f_snd_q;;;
        wr f_state TCPS_TIME_WAIT;;;
        wr f_rxmt_tmr 0;;;
        wr f_conn_tmr (2 * tcp_msl)
      else when (p_state p =? TCPS_TIME_WAIT) (wr f_conn_tmr (2 * tcp_msl))));;;
  f <- rd f_flags;;
  ret (Done 1 (needoutput || has f TF_ACKNOW)).

(** From [step6] on: the window, the data at [pos], the FIN. *)
Definition step6 (th : segment) (tiflags ti_seq ti_len pos : Z) (needoutput : bool) : C verdict :=
  p <- get tp;;
  let tiwin := th_win th in
  let wider := has tiflags TH_ACK && (p_snd_wnd p <? tiwin) in
  when wider (wr f_snd_wnd tiwin);;;
  let needoutput := needoutput || wider in
  if (negb (ti_len =? 0) || has tiflags TH_FIN) && negb (TCPS_HAVERCVDFIN (p_state p)) then
    if (ti_seq =? p_rcv_nxt p) && (p_state p =? TCPS_ESTABLISHED) then
      flag_on TF_DELACK;;;
      n <- rcv_data th pos ti_len;;
      wr f_rcv_nxt (u32 (p_rcv_nxt p + n));;;
      broadcast;;;
      fin_and_output (Z.land tiflags TH_FIN) needoutput
    else
      flag_on TF_ACKNOW;;;
      fin_and_output tiflags needoutput
  else fin_and_output (clrf tiflags TH_FIN) needoutput.

(** The label [close]. *)
Definition close_block : C verdict :=
  mbuf_queue_free f_snd_q;;;
  mbuf_queue_free f_rcv_q;;;
  wr f_state TCPS_CLOSED;;;
  broadcast;;;
  ret Closed.
Definition close_and_reset (seq len ack flags : Z) : C verdict :=
  wr f_state TCPS_CLOSED;;;
  mbuf_queue_free f_snd_q;;;
  mbuf_queue_free f_rcv_q;;;
  broadcast;;;
  ret (ClosedReset seq len ack flags).

(** A segment for a block in [SYN_SENT]. *)
Definition syn_sent (th : segment) (ti_len : Z) : C verdict :=
  let tiflags := th_flags th in
  let ti_seq := th_seq th in
  let ti_ack := th_ack th in
  let reset := close_and_reset ti_seq ti_len ti_ack tiflags in
  if has tiflags TH_RST then close_block
  else if negb (has tiflags TH_SYN) then reset
  else if negb (has tiflags TH_ACK) then reset
  else if negb (ti_len =? 0) then reset
  else
    p <- get tp;;
    let seq := u32 (p_snd_seq p + 1) in
    wr f_snd_seq seq;;;
    if negb (seq =? ti_ack) then reset
    else
      wr f_snd_off (u16 (p_snd_off p - 1));;;
      wr f_snd_max (u16 (p_snd_max p - 1));;;
      (let optlen := opt_len th in
       if optlen =? 0 then ret tt
       else tcp_parse_options (S (length (th_rest th))) tiflags (th_rest th) optlen);;;
      let ti_seq := u32 (ti_seq + 1) in
      wr f_rcv_nxt ti_seq;;;
      wr f_snd_wnd (th_win th);;;
      wr f_state TCPS_ESTABLISHED;;;
      flag_on TF_ACKNOW;;;
      broadcast;;;
      step6 th tiflags ti_seq ti_len (opt_len th) false.

Definition drop_after_ack (tiflags : Z) : C verdict :=
  if has tiflags TH_RST then ret (Done 1 false)
  else flag_on TF_ACKNOW;;; ret (Done 1 true).

(** The bytes that are acknowledged: the timer, the queue, the sequence
    numbers. [true] where more than the queue held is acknowledged, which is
    the FIN. *)
Definition acknowledge (ti_ack una nxt max : Z) : C bool :=
  p <- get tp;;
  let acked := s32 (ti_ack - una) in
  (if ti_ack =? max then wr f_rxmt_tmr 0;;; wr f_count 0 else rxmt_restart (p_count p));;;
  let all := q_len (p_snd_q p) <? acked in
  take_acked (if all then q_len (p_snd_q p) else acked);;;
  broadcast;;;
  let nxt := if SEQ_LT nxt ti_ack then ti_ack else nxt in
  wr f_snd_seq ti_ack;;;
  wr f_snd_off (u16 (nxt - ti_ack));;;
  wr f_snd_max (u16 (max - ti_ack));;;
  ret all.

(** The acknowledgement: [inr needoutput] where [step6] follows. *)
Definition process_ack (th : segment) (tiflags ti_seq ti_len una nxt max : Z) : C (verdict + bool) :=
  let ti_ack := th_ack th in
  st <- rd f_state;;
  if st <? TCPS_SYN_RCVD then ret (inr false)
  else if (st =? TCPS_SYN_RCVD) && (SEQ_GT una ti_ack || SEQ_GT ti_ack max)
  then ret (inl (Reset ti_seq ti_len ti_ack tiflags))
  else
    p <- get tp;;
    when (st =? TCPS_SYN_RCVD)
      (wr f_state TCPS_ESTABLISHED;;;
       wr f_snd_off (u16 (p_snd_off p - 1));;;
       wr f_snd_max (u16 (p_snd_max p - 1)));;;
    if SEQ_LEQ ti_ack una then ret (inr false)
    else if SEQ_GT ti_ack max then v <- drop_after_ack tiflags;; ret (inl v)
    else
      all <- acknowledge ti_ack una nxt max;;
      let needoutput := ti_ack =? max in
      st <- rd f_state;;
      if (st =? TCPS_FIN_WAIT_1) && all then
        wr f_conn_tmr (4 * tcp_msl);;;
        wr f_state TCPS_FIN_WAIT_2;;;
        ret (inr needoutput)
      else if (st =? TCPS_CLOSING) && all then
        mbuf_queue_free f_snd_q;;;
        mbuf_queue_free f_rcv_q;;;
        wr f_state TCPS_TIME_WAIT;;;
        wr f_rxmt_tmr 0;;;
        wr f_conn_tmr (2 * tcp_msl);;;
        ret (inr needoutput)
      else if (st =? TCPS_LAST_ACK) && all then ret (inl Freed)
      else if st =? TCPS_TIME_WAIT then
        wr f_conn_tmr (2 * tcp_msl);;;
        v <- drop_after_ack tiflags;;
        ret (inl v)
      else ret (inr needoutput).

(** From the trimmed segment on: RST, SYN, ACK. *)
Definition checked_segment (th : segment) (tiflags ti_seq ti_len pos una nxt max : Z) : C verdict :=
  st <- rd f_state;;
  let ti_ack := th_ack th in
  let rest :=
    if has tiflags TH_SYN then ret (Reset ti_seq ti_len ti_ack tiflags)
    else if negb (has tiflags TH_ACK) then ret (Done 1 false)
    else
      r <- process_ack th tiflags ti_seq ti_len una nxt max;;
      match r with
      | inl v => ret v
      | inr needoutput => step6 th tiflags ti_seq ti_len pos needoutput
      end in
  if has tiflags TH_RST then
    if (st =? TCPS_SYN_RCVD) || (st =? TCPS_ESTABLISHED) || (st =? TCPS_CLOSE_WAIT) then close_block
    else if (TCPS_FIN_WAIT_1 <=? st) && (st <=? TCPS_TIME_WAIT) then ret Freed
    else rest
  else rest.

(** The trimming at the end of the window. *)
Definition trim_tail (th : segment) (tiflags ti_seq ti_len pos rcv_wnd una nxt max : Z) : C verdict :=
  p <- get tp;;
  let todrop := s32 (ti_seq + ti_len - (p_rcv_nxt p + rcv_wnd)) in
  if 0 <? todrop then
    let probe := (rcv_wnd =? 0) && (ti_seq =? p_rcv_nxt p) in
    if (ti_len <=? todrop) && negb probe then drop_after_ack tiflags
    else
      when (ti_len <=? todrop) (flag_on TF_ACKNOW);;;
      checked_segment th (clrf tiflags (Z.lor TH_PSH TH_FIN)) ti_seq (ti_len - todrop) pos una nxt max
  else checked_segment th tiflags ti_seq ti_len pos una nxt max.

(** The trimming at its beginning: flags, sequence number, what is dropped,
    and whether the acknowledgement is owed. *)
Definition trim_head (tiflags ti_seq ti_len rcv_nxt : Z) : Z * Z * Z * bool :=
  let todrop := s32 (rcv_nxt - ti_seq) in
  if 0 <? todrop then
    let syn := has tiflags TH_SYN in
    let tiflags := if syn then clrf tiflags TH_SYN else tiflags in
    let ti_seq := if syn then u32 (ti_seq + 1) else ti_seq in
    let todrop := if syn then todrop - 1 else todrop in
    if (ti_len <? todrop) || ((todrop =? ti_len) && negb (has tiflags TH_FIN))
    then (clrf tiflags TH_FIN, u32 (ti_seq + ti_len), ti_len, true)
    else (tiflags, u32 (ti_seq + todrop), todrop, false)
  else (tiflags, ti_seq, 0, false).

(** [tcp_input] for the block the segment is for. *)
Definition input_active (th : segment) : C verdict :=
  let ti_len := th_len th - Z.shiftl (th_off th) 2 in
  p <- get tp;;
  let una := p_snd_seq p in
  let nxt := u32 (p_snd_seq p + p_snd_off p) in
  let max := u32 (p_snd_seq p + p_snd_max p) in
  wr f_conn_tmr tcp_idle_det_tmo;;;
  when (has (p_flags p) TF_IDLE) (flag_off TF_IDLE);;;
  fast <- predict th ti_len una nxt max;;
  match fast with
  | Some v => ret v
  | None =>
    p <- get tp;;
    let rcv_wnd := Z.max 0 (tcp_maxrcv - q_len (p_rcv_q p)) in
    if p_state p =? TCPS_SYN_SENT then syn_sent th ti_len
    else
      match trim_head (th_flags th) (th_seq th) ti_len (p_rcv_nxt p) with
      | (tiflags, ti_seq, dropped, owed) =>
        when owed (flag_on TF_ACKNOW);;;
        let ti_len := ti_len - dropped in
        if (TCPS_FIN_WAIT_1 <? p_state p) && negb (ti_len =? 0)
        then ret (Reset ti_seq ti_len (th_ack th) tiflags)
        else trim_tail th tiflags ti_seq ti_len (opt_len th + dropped) rcv_wnd una nxt max
      end
  end.

(** ** The calls, as far as they concern the block

    A call that waits on the condition variable goes on from the start of its
    loop when it is woken, which is the same function once more. *)

Inductive received := RWait | RRet (n : Z) (data : list Z) (sched : bool).
(** [tcp_recv], until it waits or returns. *)
Definition recv_try (len : Z) : C received :=
  p <- get tp;;
  let st := p_state p in
  if st =? TCPS_CLOSED then ret (RRet (-1) [] false)
  else if (st =? TCPS_TIME_WAIT) || (st =? TCPS_CLOSING) || (st =? TCPS_LAST_ACK) then ret (RRet 0 [] false)
  else if q_len (p_rcv_q p) =? 0 then
    ret (if st =? TCPS_CLOSE_WAIT then RRet 0 [] false else RWait)
  else
    data <- mbuf_queue_remove f_rcv_q len;;
    if (st =? TCPS_FIN_WAIT_1) || (st =? TCPS_FIN_WAIT_2) then ret (RRet (zlen data) data false)
    else
      q <- rd f_rcv_q;;
      let emptied := q_len q =? 0 in
      when (emptied && has (p_flags p) TF_DELACK) (flag_on TF_ACKNOW);;;
      ret (RRet (zlen data) data emptied).

(** How a part of [tcp_send] ends: it waits, for the block or for packet
    buffers, with this much of the data left; the call is over; it failed. *)
Inductive sending := SWait (left : list Z) (sched : bool) | SDone | SFail.
(** The loop of [tcp_send] over [buf]. A round takes a byte at least, or is
    the last one. *)
Fixpoint send_loop (fuel : nat) (buf : list Z) : C sending :=
  match fuel with
  | O => fault
  | S fuel =>
    p <- get tp;;
    if negb (p_state p =? TCPS_ESTABLISHED) then
      ret (if p_state p =? TCPS_SYN_RCVD then SWait buf false else SFail)
    else if zlen buf =? 0 then ret SDone
    else
      let m := tcp_maxsnd - q_len (p_snd_q p) in
      if m <=? 0 then flag_on TF_ACKNOW;;; ret (SWait buf true)
      else
        n <- mbuf_queue_add f_snd_q buf (Z.min m (zlen buf));;
        if n =? 0 then ret (SWait buf false) else send_loop fuel (drop (Z.to_nat n) buf)
  end.
(** The end of [tcp_send] of [len] bytes: whether output is scheduled. *)
Definition send_end (len : Z) (nowait : bool) : C bool :=
  p <- get tp;;
  if 0 <? len then
    if nowait || (p_maxseg p <=? q_len (p_snd_q p) - q_offs (p_snd_q p)) then ret true
    else flag_on TF_DELACK;;; ret false
  else ret false.

(** [tcp_close] of a block that is neither listening nor without a peer:
    [false] where it is being closed already. *)
Definition close_active : C bool :=
  p <- get tp;;
  let st := p_state p in
  if (st =? TCPS_SYN_RCVD) || (st =? TCPS_ESTABLISHED) then
    wr f_state TCPS_FIN_WAIT_1;;;
    flag_on TF_ACKNOW;;;
    ret true
  else if st =? TCPS_CLOSE_WAIT then
    wr f_state TCPS_LAST_ACK;;;
    wr f_snd_off (u16 (p_snd_off p - q_len (p_snd_q p)));;;
    wr f_snd_max (u16 (p_snd_max p - q_len (p_snd_q p)));;;
    mbuf_queue_free f_snd_q;;;
    mbuf_queue_free f_rcv_q;;;
    flag_on TF_ACKNOW;;;
    ret true
  else ret false.

(** ** The timers, for one block

    [true]: the block is put on the output queue. *)

Definition fast_tmr : C bool :=
  f <- rd f_flags;;
  if has f TF_DELACK then wr f_flags (setf (clrf f TF_DELACK) TF_ACKNOW);;; ret true
  else ret false.

Definition rxmt_tmr : C bool :=
  p <- get tp;;
  if p_rxmt_tmr p =? 0 then ret false
  else
    let t := p_rxmt_tmr p - 1 in
    wr f_rxmt_tmr t;;;
    if negb (t =? 0) then ret false
    else
      let cnt := u8 (p_count p + 1) in
      wr f_count cnt;;;
      if TCP_MAXRXMTS <? cnt then ret false
      else
        wr f_rxmt_tmr (zget tcp_rxmtintvl cnt);;;
        wr f_snd_off 0;;;
        flag_off TF_SENTFIN;;;
        ret true.

Inductive idled := IStay | IClosed | IFree.
Definition timed_out : C idled :=
  mbuf_queue_free f_snd_q;;;
  mbuf_queue_free f_rcv_q;;;
  wr f_state TCPS_CLOSED;;;
  broadcast;;;
  ret IClosed.
Definition idle_tmr : C idled :=
  p <- get tp;;
  if p_conn_tmr p =? 0 then ret IStay
  else
    let t := p_conn_tmr p - 1 in
    wr f_conn_tmr t;;;
    if negb (t =? 0) then ret IStay
    else if (p_state p =? TCPS_SYN_SENT) || (p_state p =? TCPS_SYN_RCVD) then timed_out
    else if p_state p =? TCPS_ESTABLISHED then
      if negb (has (p_flags p) TF_IDLE) then
        flag_on TF_IDLE;;;
        wr f_count 0;;;
        wr f_conn_tmr (zget tcp_keepintvl 0);;;
        ret IStay
      else
        let cnt := u8 (p_count p + 1) in
        wr f_count cnt;;;
        if cnt <? 12 then
          when (4 <=? cnt) (tcp_keepalive;;; ret tt);;;
          wr f_conn_tmr (zget tcp_keepintvl cnt);;;
          ret IStay
        else timed_out
    else if p_state p =? TCPS_FIN_WAIT_2 then
      wr f_rxmt_tmr 0;;;
      wr f_state TCPS_TIME_WAIT;;;
      wr f_conn_tmr (2 * tcp_msl);;;
      ret IStay
    else if p_state p =? TCPS_TIME_WAIT then ret IFree
    else ret IStay.

(** ** A segment and an output, to the end *)

(** The label [dropwithreset]. *)
Definition drop_with_reset (th : segment) (seq len ack flags : Z) : C unit :=
  if has flags TH_RST then ret tt
  else if has flags TH_ACK then lift_net (tcp_respond th 0 ack TH_RST);;; ret tt
  else
    let len := if has flags TH_SYN then len + 1 else len in
    lift_net (tcp_respond th (seq + len) 0 (Z.lor TH_ACK TH_RST));;;
    ret tt.

(** Where the block is after [tcp_input], and the result: it stays, it stays
    and is scheduled for output, it is closed, or it is to be freed. *)
Inductive fate := Stays | Scheduled | Closes | Frees.
Definition input_block (th : segment) : C (Z * fate) :=
  v <- input_active th;;
  match v with
  | Done r sched => ret (r, if sched then Scheduled else Stays)
  | Reset seq len ack flags => drop_with_reset th seq len ack flags;;; ret (1, Stays)
  | Closed => ret (1, Closes)
  | ClosedReset seq len ack flags => drop_with_reset th seq len ack flags;;; ret (1, Closes)
  | Freed => ret (1, Frees)
  end.

(** A round of the output loop of [tcp_tmr_task]: [false] where the loop ends,
    the block staying on the queue, as its address is being resolved. *)
Definition output_block : C bool :=
  r <- tcp_output;;
  if r =? - EAGAIN then lift_net etharp_query_pending;;; ret false
  else flag_off TF_NEEDOUTPUT;;; ret true.
End code.
End Tcp.
