(* ===== verification/TcpSys.v ===== *)
(** * TCP: the control blocks and the calls

    The lists of control blocks ([tcp.c], [pcb/in_pcb.c]), the queue of blocks
    that wait for output and the timers' loops ([tcp_tmr.c]), the whole of
    [tcp_input] and the calls that move a block between the lists: [tcp_alloc],
    [tcp_bind], [tcp_listen], [tcp_accept], [tcp_connect], [tcp_close],
    [tcp_abort] and [tcp_drop]. A block is a number of the pool; the links of a
    list are a list of such numbers, which is what they are as long as no block
    is in two lists ([TcpLists]). *)

From S2P Require Import Prelude Mbuf MbufOps MbufThms Route InChksum Ip Tcp.
From stdpp Require Import list.
Import InChksum.InChksum Ip.Ip Tcp.Tcp.
Open Scope Z_scope.
Open Scope c_scope.

Module TcpSys.

Definition NET_TCP_PCB_ACTIVE_MAX := 8.
(** The space of [struct tcp_pcb] after [struct tcp_listen_pcb], in pointers. *)
Definition TCP_BACKLOG_MAX := 11.
Definition ENOTSOCK := 88.
Definition EADDRINUSE := 98.
Definition ENOMEM := 12.

(** A block that listens is a [struct tcp_listen_pcb] in the memory of a
    [struct tcp_pcb]. The model keeps the fields of both apart, but for the
    semaphore, which is the condition variable's: [f_head], [f_tail] and
    [f_backlog] are not those of the connection the memory last held. A block
    that listens goes to the free list only, and [tcp_pcb_new] clears the whole
    of it; what a call for connections does to a listening block is not
    modelled. An entry of the backlog that was not written since [tcp_listen] is
    a null pointer here, and in the code what the block's memory held: null for
    a block that was not connected before. *)

(** [struct tcp_system], the memory and the network below, the answers of the
    operating system to requests for a condition variable or a semaphore, the
    signals of semaphores that nobody took yet, and the condition variables and
    semaphores given back so far. *)
Record tcp_system := mk_sys {
  t_pool : list tcp_pcb;
  t_free : list Z; t_closed : list Z; t_listen : list Z; t_active : list Z;
  t_iss : Z; t_port_seq : Z;
  out_head : Z; out_tail : Z; out_tp : list (option Z);
  t_mbufs : Z; t_nets : nets segment; t_wakes : Z;
  t_os : list Z; t_posts : list Z; t_gone : list Z;
}.
Definition eta_sys (s : tcp_system) : tcp_system :=
  mk_sys (t_pool s) (t_free s) (t_closed s) (t_listen s) (t_active s) (t_iss s) (t_port_seq s) (out_head s) (out_tail s) (out_tp s)
    (t_mbufs s) (t_nets s) (t_wakes s) (t_os s) (t_posts s) (t_gone s).

Definition s_pool : lens tcp_system (list tcp_pcb) := Lens t_pool ltac:(mk_set eta_sys t_pool).
Definition l_free : lens tcp_system (list Z) := Lens t_free ltac:(mk_set eta_sys t_free).
Definition l_closed : lens tcp_system (list Z) := Lens t_closed ltac:(mk_set eta_sys t_closed).
Definition l_listen : lens tcp_system (list Z) := Lens t_listen ltac:(mk_set eta_sys t_listen).
Definition l_active : lens tcp_system (list Z) := Lens t_active ltac:(mk_set eta_sys t_active).
Definition s_iss : lens tcp_system Z := Lens t_iss ltac:(mk_set eta_sys t_iss).
Definition s_port_seq : lens tcp_system Z := Lens t_port_seq ltac:(mk_set eta_sys t_port_seq).
Definition s_head : lens tcp_system Z := Lens out_head ltac:(mk_set eta_sys out_head).
Definition s_tail : lens tcp_system Z := Lens out_tail ltac:(mk_set eta_sys out_tail).
Definition s_out : lens tcp_system (list (option Z)) := Lens out_tp ltac:(mk_set eta_sys out_tp).
Definition s_mbufs : lens tcp_system Z := Lens t_mbufs ltac:(mk_set eta_sys t_mbufs).
Definition s_nets : lens tcp_system (nets segment) := Lens t_nets ltac:(mk_set eta_sys t_nets).
Definition s_wakes : lens tcp_system Z := Lens t_wakes ltac:(mk_set eta_sys t_wakes).
Definition s_os : lens tcp_system (list Z) := Lens t_os ltac:(mk_set eta_sys t_os).
Definition s_posts : lens tcp_system (list Z) := Lens t_posts ltac:(mk_set eta_sys t_posts).
Definition s_gone : lens tcp_system (list Z) := Lens t_gone ltac:(mk_set eta_sys t_gone).

Abbreviation Y := (M tcp_system).

(** The block with the number [i]; an access where there is none faults. *)
Definition block (i : Z) (s : tcp_system) : option tcp_pcb := if i <? 0 then None else t_pool s !! Z.to_nat i.
Definition blk (i : Z) (s : tcp_system) : tcp_pcb := default pcb_zero (block i s).
Definition set_block (i : Z) (p : tcp_pcb) (s : tcp_system) : tcp_system := lset s_pool (<[Z.to_nat i := p]> (t_pool s)) s.
Definition rd_blk {A} (i : Z) (f : lens tcp_pcb A) : Y A := fun s =>
  match block i s with Some p => Some (lget f p, s) | None => None end.
Definition get_blk (i : Z) : Y tcp_pcb := fun s =>
  match block i s with Some p => Some (p, s) | None => None end.
Definition put_blk (i : Z) (p : tcp_pcb) : Y unit := fun s =>
  match block i s with Some _ => Some (tt, set_block i p s) | None => None end.
Definition wr_blk {A} (i : Z) (f : lens tcp_pcb A) (v : A) : Y unit := p <- get_blk i;; put_blk i (lset f v p).
(** What [Tcp] does to the block [i]. *)
Definition on_blk {A} (i : Z) (c : C A) : Y A := fun s =>
  match block i s with
  | Some p =>
    match c (mk_conn p (t_mbufs s) (t_nets s) (t_wakes s)) with
    | Some (x, k) => Some (x, lset s_mbufs (c_free k) (lset s_nets (c_net k) (lset s_wakes (c_wakes k) (set_block i (c_tp k) s))))
    | None => None
    end
  | None => None
  end.
Definition on_net {A} (c : M (nets segment) A) : Y A := fun s =>
  match c (t_nets s) with Some (x, n) => Some (x, lset s_nets n s) | None => None end.
(** [__os_cond_alloc] and [__os_sem_alloc]. *)
Definition os_alloc : Y Z :=
  l <- get s_os;;
  match l with
  | [] => ret (-1)
  | x :: l => put s_os l;;; ret x
  end.

(** A list without the first [i], if there is one. *)
Fixpoint unlink (i : Z) (q : list Z) : option (list Z) :=
  match q with
  | [] => None
  | j :: q => if i =? j then Some q else match unlink i q with Some q => Some (j :: q) | None => None end
  end.
(** [__os_cond_free] and [__os_sem_free]. *)
Definition os_free (x : Z) : Y unit := l <- get s_gone;; put s_gone (l ++ [x]).
(** [__os_sem_post]; [__os_sem_wait], [false] where it waits. *)
Definition sem_post (x : Z) : Y unit := l <- get s_posts;; put s_posts (l ++ [x]).
Definition sem_take (x : Z) : Y bool :=
  l <- get s_posts;;
  match unlink x l with
  | Some l => put s_posts l;;; ret true
  | None => ret false
  end.

(** ** Lists *)

Definition pcb_insert (i : Z) (l : lens tcp_system (list Z)) : Y unit := q <- get l;; put l (q ++ [i]).
Definition pcb_remove_head (l : lens tcp_system (list Z)) : Y (option Z) :=
  q <- get l;;
  match q with
  | [] => ret None
  | i :: q => put l q;;; ret (Some i)
  end.
Definition pcb_move (i : Z) (from to : lens tcp_system (list Z)) : Y Z :=
  q <- get from;;
  match unlink i q with
  | None => ret (-1)
  | Some q => put from q;;; pcb_insert i to;;; ret 0
  end.
Definition pcb_find (i : Z) (l : lens tcp_system (list Z)) : Y Z :=
  q <- get l;; ret (if existsb (Z.eqb i) q then 0 else -1).

Definition exact (faddr fport laddr lport : Z) (p : tcp_pcb) : bool :=
  (p_lport p =? lport) && (p_laddr p =? laddr) && (p_faddr p =? faddr) && (p_fport p =? fport).
Definition pcb_lookup (faddr fport laddr lport : Z) (l : lens tcp_system (list Z)) : Y (option Z) := fun s =>
  Some (List.find (fun i => exact faddr fport laddr lport (blk i s)) (lget l s), s).

(** The loop of [pcb_wildlookup]: the count of wildcards goes on from one block
    to the next. *)
Fixpoint wild_loop (s : tcp_system) (faddr fport laddr lport : Z) (q : list Z) (wildcard matchwild : Z) (found : option Z) : option Z :=
  match q with
  | [] => found
  | i :: q =>
    let p := blk i s in
    if negb (p_lport p =? lport) then wild_loop s faddr fport laddr lport q wildcard matchwild found
    else
      let any1 := negb (p_laddr p =? INADDR_ANY) in
      if any1 && negb (laddr =? INADDR_ANY) && negb (p_laddr p =? laddr)
      then wild_loop s faddr fport laddr lport q wildcard matchwild found
      else
        let wildcard := if xorb any1 (negb (laddr =? INADDR_ANY)) then wildcard + 1 else wildcard in
        let any2 := negb (p_faddr p =? INADDR_ANY) in
        if any2 && negb (faddr =? INADDR_ANY) && (negb (p_faddr p =? faddr) || negb (p_fport p =? fport))
        then wild_loop s faddr fport laddr lport q wildcard matchwild found
        else
          let wildcard := if xorb any2 (negb (faddr =? INADDR_ANY)) then wildcard + 1 else wildcard in
          if wildcard <? matchwild then
            if wildcard =? 0 then Some i
            else wild_loop s faddr fport laddr lport q wildcard wildcard (Some i)
          else wild_loop s faddr fport laddr lport q wildcard matchwild found
  end.
Definition pcb_wildlookup (faddr fport laddr lport : Z) (l : lens tcp_system (list Z)) : Y (option Z) := fun s =>
  Some (wild_loop s faddr fport laddr lport (lget l s) 0 3 None, s).

(** ** The queue for output *)

Definition ring (i : Z) : nat := Z.to_nat (i mod NET_TCP_PCB_ACTIVE_MAX).
Definition tcp_output_sched (i : Z) : Y unit :=
  f <- rd_blk i f_flags;;
  when (negb (has f TF_NEEDOUTPUT))
    (head <- get s_head;;
     l <- get s_out;;
     put s_head (u16 (head + 1));;;
     put s_out (<[ring head := Some i]> l);;;
     wr_blk i f_flags (setf f TF_NEEDOUTPUT)).
Definition tcp_output_enqueue := tcp_output_sched.

(** The loop that moves the entries from [tail] on by one place, one after the
    other. *)
Fixpoint shift_out (n : nat) (tail : Z) (l : list (option Z)) : list (option Z) :=
  match n with
  | O => l
  | S n => shift_out n (tail + 1) (<[ring (tail + 1) := default None (l !! ring tail)]> l)
  end.
(** The search from [mark] to [head], [n] entries, the [k]th one being next. *)
Fixpoint dequeue_loop (n : nat) (k : nat) (i tail : Z) (l : list (option Z)) : option (list (option Z)) :=
  match n with
  | O => None
  | S n =>
    if bool_decide (l !! ring (tail + Z.of_nat k) = Some (Some i)) then Some (shift_out k tail l)
    else dequeue_loop n (S k) i tail l
  end.
Definition tcp_output_dequeue (i : Z) : Y unit :=
  tail <- get s_tail;;
  head <- get s_head;;
  l <- get s_out;;
  match dequeue_loop (Z.to_nat (u16 (head - tail))) 0 i tail l with
  | Some l => put s_tail (u16 (tail + 1));;; put s_out l
  | None => ret tt
  end.

(** ** Blocks *)

Definition tcp_pcb_new (l : lens tcp_system (list Z)) : Y (option Z) :=
  i <- pcb_remove_head l_free;;
  match i with
  | None => ret None
  | Some i =>
    pcb_insert i l;;;
    put_blk i (lset f_cond (-1) pcb_zero);;;
    ret (Some i)
  end.

Section code.
Context `{MbufConfig}.

Definition clear_output (i : Z) : Y unit :=
  f <- rd_blk i f_flags;;
  when (has f TF_NEEDOUTPUT) (wr_blk i f_flags (clrf f TF_NEEDOUTPUT);;; tcp_output_dequeue i).
(** A block that is not listening. *)
Definition free_block (i : Z) : Y Z :=
  st <- rd_blk i f_state;;
  if st =? TCPS_CLOSED then pcb_move i l_closed l_free
  else
    on_blk i (mbuf_queue_free f_rcv_q);;;
    on_blk i (mbuf_queue_free f_snd_q);;;
    cond <- rd_blk i f_cond;;
    os_free cond;;;
    pcb_move i l_active l_free.

(** A listening block frees the blocks of its backlog from its head on: the
    variable for the block is the one of the loop. An entry that is a null
    pointer, or outside the backlog, faults. A block of the backlog that
    listens itself (it was freed and taken again) is freed the same way; every
    nested round takes an entry of a backlog, so that [fuel] of all their
    entries is enough. *)
Fixpoint pcb_free_loop (fuel : nat) (mux i : Z) : Y Z :=
  match fuel with
  | O => fault
  | S fuel =>
    head <- rd_blk mux f_head;;
    tail <- rd_blk mux f_tail;;
    if head =? tail then ret i
    else
      b <- rd_blk mux f_backlog;;
      wr_blk mux f_head (u8 (head + 1));;;
      match default None (b !! Z.to_nat head) with
      | None => fault
      | Some i =>
        clear_output i;;;
        st <- rd_blk i f_state;;
        (if st =? TCPS_LISTEN then
           j <- pcb_free_loop fuel i i;;
           sem <- rd_blk i f_cond;;
           os_free sem;;;
           pcb_move j l_listen l_free
         else free_block i);;;
        head <- rd_blk mux f_head;;
        when (head =? zlen b) (wr_blk mux f_head 0);;;
        pcb_free_loop fuel mux i
      end
  end.
Definition tcp_pcb_free (i : Z) : Y Z :=
  clear_output i;;;
  st <- rd_blk i f_state;;
  if st =? TCPS_LISTEN then
    j <- pcb_free_loop (Z.to_nat (NET_TCP_PCB_ACTIVE_MAX * TCP_BACKLOG_MAX)) i i;;
    sem <- rd_blk i f_cond;;
    os_free sem;;;
    pcb_move j l_listen l_free
  else free_block i.

Definition tcp_init : Y unit :=
  put l_free (seqZ 0 NET_TCP_PCB_ACTIVE_MAX);;;
  put l_closed [];;;
  put l_listen [];;;
  put l_active [];;;
  put s_head 0;;;
  put s_tail 0.
Definition tcp_alloc : Y (option Z) :=
  i <- tcp_pcb_new l_closed;;
  match i with
  | None => ret None
  | Some i => wr_blk i f_state TCPS_CLOSED;;; ret (Some i)
  end.

(** ** Calls *)

Definition can_bind (addr port : Z) : Y bool :=
  l <- pcb_lookup INADDR_ANY 0 addr port l_listen;;
  match l with
  | Some _ => ret false
  | None =>
    c <- pcb_lookup INADDR_ANY 0 addr port l_closed;;
    match c with Some _ => ret false | None => ret true end
  end.
(** The ports are those of the headers, in network order. *)
Fixpoint ephemeral (fuel : nat) (addr : Z) : Y Z :=
  match fuel with
  | O => fault
  | S fuel =>
    n <- get s_port_seq;;
    put s_port_seq (u16 (n + 1));;;
    let port := NTOHS (Z.land n 0x7fff + 1024) in
    ok <- can_bind addr port;;
    if ok then ret port else ephemeral fuel addr
  end.
(** Every round tries another port; a block for each one is more than there
    are. *)
Definition tcp_bind (i addr port : Z) : Y Z :=
  r <- pcb_find i l_closed;;
  if r <? 0 then ret (- ENOTSOCK)
  else
    port <- (if port =? 0 then p <- ephemeral (Z.to_nat (2 * NET_TCP_PCB_ACTIVE_MAX + 1)) addr;; ret (Some p)
             else ok <- can_bind addr port;; ret (if ok then Some port else None));;
    match port with
    | None => ret (- EADDRINUSE)
    | Some port => wr_blk i f_lport port;;; wr_blk i f_laddr addr;;; ret 0
    end.

Definition tcp_listen (i backlog : Z) : Y Z :=
  let n := if TCP_BACKLOG_MAX - 1 <? u32 backlog then TCP_BACKLOG_MAX else backlog + 1 in
  p <- get_blk i;;
  w <- pcb_wildlookup INADDR_ANY 0 (p_laddr p) (p_lport p) l_listen;;
  match w with
  | Some _ => ret (- EADDRINUSE)
  | None =>
    if p_state p =? TCPS_CLOSED then
      sem <- os_alloc;;
      if sem <? 0 then ret (- ENOMEM)
      else
        wr_blk i f_state TCPS_LISTEN;;;
        wr_blk i f_backlog (replicate (Z.to_nat n) None);;;
        wr_blk i f_tail 0;;;
        wr_blk i f_head 0;;;
        wr_blk i f_cond sem;;;
        pcb_move i l_closed l_listen;;;
        ret 0
    else if p_state p =? TCPS_LISTEN then pcb_insert i l_listen;;; ret 0
    else ret 0
  end.

(** A call that waits goes on from the same point when it is woken. The wait
    for the semaphore [fails] when the operating system says so, as when the
    semaphore was given back. *)
Inductive accepted := AWait | ARet (i : option Z).
Definition tcp_accept (mux : Z) (fails : bool) : Y accepted :=
  sem <- rd_blk mux f_cond;;
  if fails then ret (ARet None)
  else
  ok <- sem_take sem;;
  if negb ok then ret AWait
  else
    st <- rd_blk mux f_state;;
    if negb (st =? TCPS_LISTEN) then ret (ARet None)
    else
      tail <- rd_blk mux f_tail;;
      b <- rd_blk mux f_backlog;;
      wr_blk mux f_tail (if tail + 1 =? zlen b then 0 else u8 (tail + 1));;;
      ret (ARet (default None (b !! Z.to_nat tail))).
(** A round of [tcp_accept_tmo], that of a timeout being the last one: it
    takes the entry at the head. *)
Definition tcp_accept_tmo (mux : Z) (fails : bool) : Y accepted :=
  head <- rd_blk mux f_head;;
  tail <- rd_blk mux f_tail;;
  if head =? tail then
    sem <- rd_blk mux f_cond;;
    if fails then ret (ARet None)
    else
    ok <- sem_take sem;;
    ret (if ok then AWait else ARet None)
  else
    b <- rd_blk mux f_backlog;;
    wr_blk mux f_head (if u8 (head + 1) =? zlen b then 0 else u8 (head + 1));;;
    ret (ARet (default None (b !! Z.to_nat head))).

(** [tcp_connect], up to its loop. *)
Definition tcp_connect (i addr port : Z) : Y Z :=
  r <- pcb_find i l_closed;;
  if r <? 0 then ret (- ENOTSOCK)
  else
    p <- get_blk i;;
    tab <- on_net (get routes);;
    src <- match Route.__route_lookup tab (p_faddr p) with
           | None => ret (if p_laddr p =? INADDR_ANY then None else Some (tcp_defmss, p_laddr p))
           | Some rt =>
             r <- on_net (rd_slot rt);;
             f <- on_net (rd_if (Route.rt_ifn r));;
             ret (Some (if_mtu f - (SIZEOF_TCPHDR + SIZEOF_IPHDR),
               if p_laddr p =? INADDR_ANY then if_ipv4_addr f else p_laddr p))
           end;;
    match src with
    | None => ret (-1)
    | Some (mss, laddr) =>
      w <- pcb_lookup addr port laddr (p_lport p) l_listen;;
      match w with
      | Some _ => ret (- EADDRINUSE)
      | None =>
        wr_blk i f_faddr addr;;;
        wr_blk i f_fport port;;;
        cond <- os_alloc;;
        wr_blk i f_cond cond;;;
        if cond <? 0 then ret (-1)
        else
          wr_blk i f_laddr laddr;;;
          wr_blk i f_maxseg (u16 (if tcp_maxmss <? mss then tcp_maxmss else mss));;;
          wr_blk i f_rcv_q q_empty;;;
          wr_blk i f_snd_q q_empty;;;
          wr_blk i f_rcv_nxt 0;;;
          iss <- get s_iss;;
          put s_iss (u16 (iss + 1));;;
          wr_blk i f_snd_seq (u32 (Z.shiftl (u16 (iss + 1)) 20));;;
          wr_blk i f_snd_off 0;;;
          wr_blk i f_snd_max 0;;;
          wr_blk i f_snd_wnd 1;;;
          wr_blk i f_conn_tmr tcp_conn_est_tmo;;;
          pcb_move i l_closed l_active;;;
          wr_blk i f_state TCPS_SYN_SENT;;;
          tcp_output_sched i;;;
          ret 0
      end
    end.

(** A round of its loop: [None] where it waits. *)
Definition connect_wait (i : Z) : Y (option Z) :=
  st <- rd_blk i f_state;;
  if st =? TCPS_CLOSED then
    cond <- rd_blk i f_cond;;
    os_free cond;;;
    on_blk i (mbuf_queue_free f_snd_q);;;
    on_blk i (mbuf_queue_free f_rcv_q);;;
    ret (Some (-1))
  else if (st =? TCPS_TIME_WAIT) || (st =? TCPS_CLOSING) || (st =? TCPS_LAST_ACK) || (st =? TCPS_CLOSE_WAIT)
  then ret (Some (-1))
  else ret (if st =? TCPS_ESTABLISHED then Some 0 else None).

Definition tcp_close (i : Z) : Y Z :=
  st <- rd_blk i f_state;;
  if st =? TCPS_LISTEN then tcp_pcb_free i
  else if (st =? TCPS_TIME_WAIT) || (st =? TCPS_CLOSED) || (st =? TCPS_SYN_SENT) then
    c <- rd_blk i f_cond;;
    when (0 <=? c) (os_free c;;; wr_blk i f_cond (-1));;;
    tcp_pcb_free i
  else
    ok <- on_blk i close_active;;
    if ok then tcp_output_sched i;;; ret 0 else ret (-1).

Definition tcp_abort (i : Z) : Y unit :=
  st <- rd_blk i f_state;;
  when (negb (st =? TCPS_CLOSED))
    (wr_blk i f_state TCPS_CLOSED;;;
     on_blk i (mbuf_queue_free f_rcv_q);;;
     on_blk i (mbuf_queue_free f_snd_q);;;
     cond <- rd_blk i f_cond;;
     os_free cond;;;
     pcb_move i l_active l_closed;;; ret tt);;;
  when (TCPS_HAVERCVDSYN st) (on_blk i tcp_output;;; ret tt);;;
  tcp_pcb_free i;;;
  ret tt.
Definition tcp_drop (i : Z) : Y Z :=
  r <- pcb_find i l_active;;
  if r <? 0 then ret (-1)
  else
    st <- rd_blk i f_state;;
    (if TCPS_HAVERCVDSYN st then tcp_abort i else tcp_pcb_free i;;; ret tt);;;
    ret 0.

(** A round of [tcp_recv]; a part of [tcp_send] of what is [left] of [len]
    bytes, up to where it waits or ends. *)
Definition tcp_recv (i len : Z) : Y received :=
  if len =? 0 then ret (RRet (-1) [] false) else
  r <- on_blk i (recv_try len);;
  match r with
  | RRet _ _ true => tcp_output_sched i;;; ret r
  | _ => ret r
  end.
Definition tcp_send (i : Z) (left : list Z) (len : Z) (nowait : bool) : Y sending :=
  r <- on_blk i (send_loop (S (length left)) left);;
  match r with
  | SWait _ true => tcp_output_sched i;;; ret r
  | SDone =>
    now <- on_blk i (send_end len nowait);;
    when now (tcp_output_sched i);;;
    ret r
  | _ => ret r
  end.

(** ** Input *)

Definition tcp_passive_open (mux : Z) (th : segment) : Y (option Z) :=
  head <- rd_blk mux f_head;;
  b <- rd_blk mux f_backlog;;
  tail <- rd_blk mux f_tail;;
  let new_head := if head + 1 =? zlen b then 0 else head + 1 in
  if tail =? new_head then ret None
  else
    cond <- os_alloc;;
    if cond <? 0 then ret None
    else
      i <- tcp_pcb_new l_active;;
      match i with
      | None => ret None
      | Some i =>
        wr_blk i f_lport (th_dport th);;;
        wr_blk i f_laddr (th_daddr th);;;
        wr_blk i f_fport (th_sport th);;;
        wr_blk i f_faddr (th_saddr th);;;
        wr_blk i f_cond cond;;;
        wr_blk i f_rcv_q q_empty;;;
        wr_blk i f_snd_q q_empty;;;
        tab <- on_net (get routes);;
        match Route.__route_lookup tab (th_saddr th) with
        | None => wr_blk i f_maxseg tcp_defmss
        | Some rt =>
          wr_blk i f_route (Some rt);;;
          mtu <- on_net (rt_mtu rt);;
          wr_blk i f_maxseg (u16 (mtu - (SIZEOF_TCPHDR + SIZEOF_IPHDR)))
        end;;;
        mx <- rd_blk i f_maxseg;;
        when (tcp_maxmss <? mx) (wr_blk i f_maxseg tcp_maxmss);;;
        when (negb (opt_len th =? 0))
          (on_blk i (tcp_parse_options (S (length (th_rest th))) (th_flags th) (th_rest th) (opt_len th)));;;
        wr_blk i f_rcv_nxt (u32 (th_seq th + 1));;;
        iss <- get s_iss;;
        put s_iss (u16 (iss + 1));;;
        wr_blk i f_snd_seq (u32 (Z.shiftl (u16 (iss + 1)) 20));;;
        wr_blk i f_snd_off 0;;;
        wr_blk i f_snd_max 0;;;
        wr_blk i f_conn_tmr tcp_conn_est_tmo;;;
        wr_blk i f_snd_wnd (th_win th);;;
        wr_blk i f_state TCPS_SYN_RCVD;;;
        wr_blk i f_flags TF_ACKNOW;;;
        h <- rd_blk mux f_head;;
        wr_blk mux f_backlog (<[Z.to_nat h := Some i]> b);;;
        wr_blk mux f_head new_head;;;
        sem <- rd_blk mux f_cond;;
        sem_post sem;;;
        ret (Some i)
      end.

(** A reset for a segment that no block is for. *)
Definition reset_stray (th : segment) (seq len ack flags : Z) : Y unit := fun s =>
  match drop_with_reset th seq len ack flags (mk_conn pcb_zero (t_mbufs s) (t_nets s) (t_wakes s)) with
  | Some (_, k) => Some (tt, lset s_nets (c_net k) s)
  | None => None
  end.

Definition tcp_input (th : segment) : Y Z :=
  let tiflags := th_flags th in
  let ti_len := th_len th - Z.shiftl (th_off th) 2 in
  let reset := reset_stray th (th_seq th) ti_len (th_ack th) tiflags;;; ret 1 in
  a <- pcb_lookup (th_saddr th) (th_sport th) (th_daddr th) (th_dport th) l_active;;
  match a with
  | Some i =>
    r <- on_blk i (input_block th);;
    match snd r with
    | Stays => ret (fst r)
    | Scheduled => tcp_output_sched i;;; ret (fst r)
    | Closes => pcb_move i l_active l_closed;;; ret (fst r)
    | Frees => tcp_pcb_free i;;; ret (fst r)
    end
  | None =>
    m <- pcb_wildlookup (th_saddr th) (th_sport th) (th_daddr th) (th_dport th) l_listen;;
    match m with
    | None => reset
    | Some mux =>
      if has tiflags TH_ACK then reset
      else if negb (ti_len =? 0) then reset
      else if negb (has tiflags TH_SYN) then ret 1
      else if has tiflags TH_RST then ret 1
      else
        i <- tcp_passive_open mux th;;
        match i with
        | None => reset
        | Some i => tcp_output_sched i;;; ret 1
        end
    end
  end.

(** ** The timer task *)

(** A loop over the active list. The link of a block that was moved to the end
    of another list is null, and ends it. *)
Fixpoint tcp_fast_tmr (q : list Z) : Y unit :=
  match q with
  | [] => ret tt
  | i :: q =>
    ack <- on_blk i fast_tmr;;
    when ack (tcp_output_enqueue i);;;
    tcp_fast_tmr q
  end.
Fixpoint tcp_rxmt_tmr (q : list Z) : Y unit :=
  match q with
  | [] => ret tt
  | i :: q =>
    out <- on_blk i rxmt_tmr;;
    when out (tcp_output_enqueue i);;;
    tcp_rxmt_tmr q
  end.
Fixpoint tcp_idle_tmr (q : list Z) : Y unit :=
  match q with
  | [] => ret tt
  | i :: q =>
    d <- on_blk i idle_tmr;;
    match d with
    | IStay => tcp_idle_tmr q
    | IClosed => pcb_move i l_active l_closed;;; tcp_output_enqueue i
    | IFree => tcp_pcb_free i;;; ret tt
    end
  end.

(** The blocks that wait for output, from [tail] on, [n] of them. *)
Fixpoint output_pending (n : nat) (tail : Z) : Y unit :=
  match n with
  | O => put s_tail (u16 tail)
  | S n =>
    l <- get s_out;;
    match default None (l !! ring tail) with
    | None => output_pending n (tail + 1)
    | Some i =>
      f <- rd_blk i f_flags;;
      if negb (has f TF_NEEDOUTPUT) then output_pending n (tail + 1)
      else
        r <- on_blk i tcp_output;;
        if r =? - EAGAIN then on_net etharp_query_pending;;; put s_tail (u16 tail)
        else
          l <- get s_out;;
          put s_out (<[ring tail := None]> l);;;
          f <- rd_blk i f_flags;;
          wr_blk i f_flags (clrf f TF_NEEDOUTPUT);;;
          output_pending n (tail + 1)
    end
  end.
(** A round of [tcp_tmr_task]: the output, and after a timeout the timers that
    are due by the two counters. *)
Definition TCP_FAST_TMR_MS := 100.
Definition TCP_SLOW_TMR_MS := 500.
Definition TCP_IDLE_TMR_MS := 1000.
Definition tcp_tmr_task (timeout : bool) (rxmt idle : Z) : Y (Z * Z) :=
  head <- get s_head;;
  tail <- get s_tail;;
  output_pending (Z.to_nat (u16 (head - tail))) tail;;;
  if negb timeout then ret (rxmt, idle)
  else
    q <- get l_active;;
    tcp_fast_tmr q;;;
    let slow := rxmt - 1 =? 0 in
    let idles := idle - 1 =? 0 in
    when slow (q <- get l_active;; tcp_rxmt_tmr q);;;
    when idles (q <- get l_active;; tcp_idle_tmr q);;;
    ret (if slow then TCP_SLOW_TMR_MS / TCP_FAST_TMR_MS else rxmt - 1,
         if idles then TCP_IDLE_TMR_MS / TCP_FAST_TMR_MS else idle - 1).
End code.
End TcpSys.
