(* ===== verification/TcpSafe.v ===== *)
(** * TCP: what a connection keeps

    The invariant of the sending and of the receiving half of a connection,
    over the fields of its block, and the rules by which the code of [Tcp]
    keeps it. *)

From S2P Require Import Prelude Mbuf MbufOps MbufThms Route InChksum Ip Tcp.
From stdpp Require Import list.
Import InChksum.InChksum Ip.Ip Tcp.Tcp.
Open Scope Z_scope.
Open Scope c_scope.

(** ** Partial correctness

    [pw c Q s]: if [c] ends from [s] without a fault, [Q] holds then. *)
Definition pw {S A} (c : M S A) (Q : A -> S -> Prop) (s : S) : Prop :=
  forall a s', c s = Some (a, s') -> Q a s'.

Section pw.
Context {S : Type}.
Lemma pw_ret {A} (a : A) (Q : A -> S -> Prop) s : Q a s -> pw (ret a) Q s.
Proof. intros H a' s' [= <- <-]. done. Qed.
Lemma pw_bind {A B} (c : M S A) (k : A -> M S B) (Q : B -> S -> Prop) s :
  pw c (fun a => pw (k a) Q) s -> pw (bind c k) Q s.
Proof.
  intros H b s'. unfold bind. destruct (c s) as [[a s1]|] eqn:E; [|done]. by apply H.
Qed.
Lemma pw_mono {A} (c : M S A) (P Q : A -> S -> Prop) s : pw c P s -> (forall a s', P a s' -> Q a s') -> pw c Q s.
Proof. intros H HPQ a s' E. by apply HPQ, H. Qed.
Lemma pw_get {A} (f : lens S A) (Q : A -> S -> Prop) s : Q (lget f s) s -> pw (get f) Q s.
Proof. intros H a s' [= <- <-]. done. Qed.
Lemma pw_put {A} (f : lens S A) v (Q : unit -> S -> Prop) s : Q tt (lset f v s) -> pw (put f v) Q s.
Proof. intros H a s' [= <- <-]. done. Qed.
Lemma pw_fault {A} (Q : A -> S -> Prop) s : pw fault Q s.
Proof. done. Qed.
Lemma pw_when (b : bool) c (Q : unit -> S -> Prop) s :
  (b = true -> pw c Q s) -> (b = false -> Q tt s) -> pw (when b c) Q s.
Proof. destruct b; intros H1 H2; [by apply H1|by apply pw_ret, H2]. Qed.
Lemma pw_if {A} (b : bool) (c d : M S A) Q s :
  (b = true -> pw c Q s) -> (b = false -> pw d Q s) -> pw (if b then c else d) Q s.
Proof. destruct b; auto. Qed.
End pw.

(** ** Sequence numbers *)

Lemma seq_diff b i j : - 2 ^ 31 <= i - j < 2 ^ 31 -> s32 (u32 (b + i) - u32 (b + j)) = i - j.
Proof. intros H. rewrite s32_sub_u32. replace (b + i - (b + j)) with (i - j) by lia. by apply s32_small. Qed.
Lemma u32_add_u32 a b : u32 (u32 a + b) = u32 (a + b).
Proof. unfold u32, wrap. by rewrite Zplus_mod_idemp_l. Qed.
Lemma u32_sub_u32 a b : u32 (u32 a - b) = u32 (a - b).
Proof. replace (u32 a - b) with (u32 a + - b) by lia. by rewrite u32_add_u32. Qed.
Lemma u16_u32 x : u16 (u32 x) = u16 x.
Proof.
  unfold u16, u32, wrap. apply Z.mod_mod_divide.
  exists (2 ^ 16). lia.
Qed.
Lemma u16_diff b i j : 0 <= i - j < 2 ^ 16 -> u16 (u32 (b + i) - u32 (b + j)) = i - j.
Proof.
  intros H. rewrite <-u16_u32. replace (u32 (u32 (b + i) - u32 (b + j))) with (u32 (i - j)).
  - rewrite u16_u32. by apply u16_small.
  - unfold u32, wrap. rewrite <-Zminus_mod. f_equal. lia.
Qed.
(** A number that is [d] ahead of [u32 a] in the signed reading. *)
Lemma ahead a x d : 0 <= x < 2 ^ 32 -> s32 (x - u32 a) = d -> x = u32 (a + d).
Proof.
  intros Hx <-. assert (E : u32 (s32 (x - u32 a)) = u32 (x - u32 a)).
  { unfold s32, swrap, u32, wrap. change (32 - 1) with 31. destruct (Z.ltb_spec ((x - a mod 2 ^ 32) mod 2 ^ 32) (2 ^ 31)).
    - by rewrite Zmod_mod.
    - rewrite <-(Z_mod_plus_full _ 1). replace ((x - a mod 2 ^ 32) mod 2 ^ 32 - 2 ^ 32 + 1 * 2 ^ 32) with ((x - a mod 2 ^ 32) mod 2 ^ 32) by lia.
      by rewrite Zmod_mod. }
  rewrite <-(u32_small x) at 1 by done. unfold u32, wrap in *. rewrite Zplus_mod, E, <-Zplus_mod.
  rewrite <-(Z_mod_plus_full _ (a / 2 ^ 32)). f_equal. pose proof (Z.div_mod a (2 ^ 32) ltac:(lia)). lia.
Qed.

Lemma seq_leq_gt a b : SEQ_LEQ a b = false -> SEQ_GT a b = true.
Proof. unfold SEQ_LEQ, SEQ_GT. intros H%Z.leb_gt. by apply Z.ltb_lt. Qed.
Lemma drop_zlen {A} (l : list A) : drop (Z.to_nat (zlen l)) l = [].
Proof. unfold zlen. by rewrite Nat2Z.id, drop_all. Qed.

(** ** Flags *)

Lemma has_bit f k : 0 <= k -> has f (2 ^ k) = Z.testbit f k.
Proof.
  intros Hk. unfold has. destruct (Z.eqb_spec (Z.land f (2 ^ k)) 0) as [E|E].
  - pose proof (Z.land_spec f (2 ^ k) k) as L. rewrite E, Z.bits_0, Z.pow2_bits_true, andb_true_r in L by done. by rewrite <-L.
  - simpl. symmetry. apply not_false_iff_true. intros F. apply E. apply Z.bits_inj'. intros j Hj.
    rewrite Z.land_spec, Z.bits_0. destruct (decide (k = j)) as [<-|Hne].
    + by rewrite F.
    + by rewrite (Z.pow2_bits_false k j), andb_false_r by done.
Qed.
(** The FIN was sent, and not acknowledged. *)
Definition sentfin (f : Z) : bool := Z.testbit f 2.
Lemma sentfin_has f : has f TF_SENTFIN = sentfin f.
Proof. by apply (has_bit f 2). Qed.
Lemma sentfin_setf f m : Z.testbit m 2 = false -> sentfin (setf f m) = sentfin f.
Proof. intros E. unfold sentfin, setf. by rewrite Z.lor_spec, E, orb_false_r. Qed.
Lemma sentfin_clrf f m : Z.testbit m 2 = false -> sentfin (clrf f m) = sentfin f.
Proof. intros E. unfold sentfin, clrf. by rewrite Z.ldiff_spec, E, andb_true_r. Qed.
Lemma sentfin_on f : sentfin (setf f TF_SENTFIN) = true.
Proof. unfold sentfin, setf. rewrite Z.lor_spec. apply orb_true_r. Qed.
Lemma sentfin_off f : sentfin (clrf f TF_SENTFIN) = false.
Proof. unfold sentfin, clrf. rewrite Z.ldiff_spec. apply andb_false_r. Qed.
Create Rewrite HintDb tcp.
#[export] Hint Rewrite sentfin_has sentfin_on sentfin_off : tcp.
#[export] Hint Rewrite sentfin_setf sentfin_clrf using reflexivity : tcp.

(** ** The sending half

    [W] are the bytes written, the first one with the sequence number [sb]. A
    block still sends, the queue holding the bytes from the [n]th on, or its
    queue is empty and it takes no more. *)
Record sends (sb : Z) (W : list Z) (st : Z) (sf : bool) (seq off mx : Z) (q : list Z) (n : Z) : Prop := {
  sn_range : 0 <= n <= zlen W;
  sn_queue : q = drop (Z.to_nat n) W;
  sn_seq : seq = u32 (sb + n);
  sn_state : 4 <= st <= 7;
  sn_off : 0 <= off <= mx;
  sn_max : mx <= zlen q + (if st <? 6 then 0 else 1);
  sn_fin : sf = true -> mx = zlen q + 1;
  sn_nofin : sf = false -> off <= zlen q;
}.
Definition snd_ok (sb : Z) (W : list Z) (st : Z) (sf : bool) (seq off mx : Z) (q : list Z) : Prop :=
  zlen q <= tcp_maxsnd /\ (0 <= seq < 2 ^ 32 /\ 0 <= off < 2 ^ 16) /\
  ((q = [] /\ st <> 4 /\ st <> 5) \/ exists n, sends sb W st sf seq off mx q n).

Lemma sends_length sb W st sf seq off mx q n : sends sb W st sf seq off mx q n -> zlen q = zlen W - n.
Proof. intros [Hn -> _ _ _ _ _ _]. by apply zlen_drop. Qed.

(** An acknowledgement that the code takes for valid. *)
Lemma ack_bounds sb W st sf seq off mx q n ack :
  sends sb W st sf seq off mx q n -> zlen q <= tcp_maxsnd -> 0 <= ack < 2 ^ 32 ->
  SEQ_GT ack seq = true -> SEQ_GT ack (u32 (seq + mx)) = false ->
  0 < s32 (ack - seq) <= mx /\ ack = u32 (sb + (n + s32 (ack - seq))).
Proof.
  intros Sn Hq Ha G1 G2. unfold SEQ_GT in *. apply Z.ltb_lt in G1. apply Z.ltb_ge in G2.
  pose proof (sn_seq _ _ _ _ _ _ _ _ _ Sn) as Es. pose proof (sn_off _ _ _ _ _ _ _ _ _ Sn) as Ho.
  pose proof (sn_max _ _ _ _ _ _ _ _ _ Sn) as Hm. unfold tcp_maxsnd in Hq.
  assert (Hd : s32 (ack - seq) < 2 ^ 31).
  { unfold s32, swrap, wrap. change (32 - 1) with 31. destruct (Z.ltb_spec ((ack - seq) mod 2 ^ 32) (2 ^ 31)); [done|].
    pose proof (Z.mod_pos_bound (ack - seq) (2 ^ 32)). lia. }
  set (d := s32 (ack - seq)) in *.
  assert (Ea : ack = u32 (sb + n + d)) by (apply ahead; [done|unfold d; by rewrite Es]).
  split; [|by rewrite Z.add_assoc]. split; [done|]. clearbody d. rewrite Ea, Es, u32_add_u32, s32_sub_u32 in G2.
  replace (sb + n + d - (sb + n + mx)) with (d - mx) in G2 by lia.
  rewrite s32_small in G2 by (destruct (st <? 6); lia). lia.
Qed.

Lemma sends_ack sb W st sf seq off mx q n ack nxt :
  sends sb W st sf seq off mx q n -> zlen q <= tcp_maxsnd -> 0 <= ack < 2 ^ 32 ->
  let d := s32 (ack - seq) in
  0 < d <= mx -> ack = u32 (sb + (n + d)) -> d <= zlen q ->
  (exists o, nxt = u32 (sb + n + o) /\ 0 <= o <= mx /\ d <= o /\ (o = off \/ o = d \/ (o = mx /\ off = mx))) ->
  sends sb W st sf ack (u16 (nxt - ack)) (u16 (u32 (seq + mx) - ack)) (drop (Z.to_nat d) q) (n + d).
Proof.
  intros Sn Hq Ha d Hd Ea Hl (o & -> & Ho & Hod & Hc). destruct Sn as [Hn Eq Es St Hoff Hmx Hf Hnf]. unfold tcp_maxsnd in *.
  assert (Hlen : zlen q = zlen W - n) by (rewrite Eq; by apply zlen_drop).
  assert (Hm2 : mx <= zlen q + 1) by (destruct (st <? 6); lia).
  assert (E1 : u16 (u32 (sb + n + o) - ack) = o - d).
  { rewrite Ea. rewrite <-(Z.add_assoc sb n o), u16_diff by lia. lia. }
  assert (E2 : u16 (u32 (seq + mx) - ack) = mx - d).
  { rewrite Ea, Es, u32_add_u32, <-(Z.add_assoc sb n mx), u16_diff by lia. lia. }
  rewrite E1, E2.
  assert (El : zlen (drop (Z.to_nat d) q) = zlen q - d) by (apply zlen_drop; lia).
  split; [lia| |done|done|lia|rewrite El; destruct (st <? 6); lia| |].
  - rewrite Eq, drop_drop. f_equal. lia.
  - intros F. rewrite El, (Hf F). lia.
  - intros F. specialize (Hnf F). rewrite El. lia.
Qed.

(** ** The receiving half

    [D] are the bytes the reader got, [q] those that wait for it; [S] is what
    the peer wrote, from the sequence number [rb] on. *)
Definition rcv_ok (rb : Z) (S D : list Z) (st nxt : Z) (q : list Z) : Prop :=
  zlen q <= tcp_maxrcv /\ (D ++ q) `prefix_of` S /\ (st = 4 -> nxt = u32 (rb + zlen (D ++ q))).

(** A segment of the peer: without data, or with the bytes of [S] that its
    sequence number says. *)
Definition carries (b : Z) (S : list Z) (th : segment) : Prop :=
  has (th_flags th) TH_SYN = false /\ th_off th = 5 /\ th_len th = 20 + zlen (th_rest th) /\
  exists k, 0 <= k /\ k + zlen (th_rest th) <= zlen S /\ th_seq th = u32 (b + k) /\
    th_rest th = take (length (th_rest th)) (drop (Z.to_nat k) S).
Definition wire (b : Z) (S : list Z) (th : segment) : Prop :=
  0 <= th_seq th < 2 ^ 32 /\ 0 <= th_ack th < 2 ^ 32 /\ 0 <= th_win th < 2 ^ 16 /\ 0 <= th_len th < 2 ^ 16 /\
  (th_len th <= Z.shiftl (th_off th) 2 \/ carries b S th).

(** ** Rules of the code *)
Section rules.
Context `{MbufConfig}.

Lemma pw_rd {A} (f : lens tcp_pcb A) (Q : A -> conn -> Prop) s : Q (lget f (c_tp s)) s -> pw (rd f) Q s.
Proof. intros HQ. by apply pw_get. Qed.
Lemma pw_wr {A} (f : lens tcp_pcb A) v (Q : unit -> conn -> Prop) s :
  Q tt (mk_conn (lset f v (c_tp s)) (c_free s) (c_net s) (c_wakes s)) -> pw (wr f v) Q s.
Proof. intros HQ. by apply pw_put. Qed.
Lemma pw_flag_on m (Q : unit -> conn -> Prop) s :
  Q tt (mk_conn (lset f_flags (setf (p_flags (c_tp s)) m) (c_tp s)) (c_free s) (c_net s) (c_wakes s)) -> pw (flag_on m) Q s.
Proof. intros HQ. apply pw_bind, pw_rd, pw_wr, HQ. Qed.
Lemma pw_flag_off m (Q : unit -> conn -> Prop) s :
  Q tt (mk_conn (lset f_flags (clrf (p_flags (c_tp s)) m) (c_tp s)) (c_free s) (c_net s) (c_wakes s)) -> pw (flag_off m) Q s.
Proof. intros HQ. apply pw_bind, pw_rd, pw_wr, HQ. Qed.
Lemma pw_rxmt_restart cnt (Q : unit -> conn -> Prop) s :
  (forall v, Q tt (mk_conn (lset f_rxmt_tmr v (c_tp s)) (c_free s) (c_net s) (c_wakes s))) -> pw (rxmt_restart cnt) Q s.
Proof.
  intros HQ a s'. unfold rxmt_restart. destruct (_ !! _); [|done]. intros [= <- <-]. apply HQ.
Qed.
Lemma pw_broadcast (Q : unit -> conn -> Prop) s :
  (forall w, Q tt (mk_conn (c_tp s) (c_free s) (c_net s) w)) -> pw broadcast Q s.
Proof. intros HQ. apply pw_bind, pw_get, pw_put, HQ. Qed.
Lemma pw_lift_net {A} (c : M (nets segment) A) (Q : A -> conn -> Prop) s :
  pw c (fun a n => Q a (mk_conn (c_tp s) (c_free s) n (c_wakes s))) (c_net s) -> pw (lift_net c) Q s.
Proof.
  intros HQ a s'. unfold lift_net. destruct (c (c_net s)) as [[x n]|] eqn:E; [|done].
  intros [= <- <-]. by apply HQ.
Qed.

Lemma pw_queue_add f buf len (Q : Z -> conn -> Prop) s :
  (forall n fr, 0 <= n <= Z.max 0 len -> len <= zlen buf ->
    let q := lget f (c_tp s) in
    Q n (mk_conn (lset f (Mq (q_offs q) (q_bytes q ++ take (Z.to_nat n) buf)) (c_tp s)) fr (c_net s) (c_wakes s))) ->
  pw (mbuf_queue_add f buf len) Q s.
Proof.
  intros HQ. apply pw_bind, pw_rd, pw_bind, pw_get. apply pw_if; [done|]. intros Hl. apply Z.ltb_ge in Hl.
  apply pw_bind, pw_wr, pw_bind, pw_put, pw_ret. apply HQ; [lia|done].
Qed.
Lemma pw_queue_drop f len (Q : list Z -> conn -> Prop) s :
  (forall o fr, 0 <= len ->
    let q := lget f (c_tp s) in
    let n := Z.min len (q_len q) in
    Q (take (Z.to_nat n) (q_bytes q))
      (mk_conn (lset f (Mq o (drop (Z.to_nat n) (q_bytes q))) (c_tp s)) fr (c_net s) (c_wakes s))) ->
  pw (mbuf_queue_drop f len) Q s.
Proof.
  intros HQ. apply pw_bind, pw_rd, pw_bind, pw_get. apply pw_if; [done|]. intros Hl. apply Z.ltb_ge in Hl.
  apply pw_bind, pw_wr, pw_bind, pw_put, pw_ret. by apply HQ.
Qed.
Lemma pw_queue_trim f len (Q : unit -> conn -> Prop) s :
  (forall o fr, 0 <= len ->
    let q := lget f (c_tp s) in
    Q tt (mk_conn (lset f (Mq o (drop (Z.to_nat (Z.min len (q_len q))) (q_bytes q))) (c_tp s)) fr (c_net s) (c_wakes s))) ->
  pw (mbuf_queue_trim f len) Q s.
Proof. intros HQ. apply pw_bind, pw_queue_drop. intros o fr Hl. apply pw_ret. by apply HQ. Qed.
Lemma pw_queue_get f offs len (Q : list Z -> conn -> Prop) s :
  (0 <= offs -> 0 <= len ->
   let q := lget f (c_tp s) in
   Q (take (Z.to_nat (Z.max 0 (Z.min len (q_len q - offs)))) (drop (Z.to_nat offs) (q_bytes q))) s) ->
  pw (mbuf_queue_get f offs len) Q s.
Proof.
  intros HQ. apply pw_bind, pw_rd. apply pw_if; [done|]. intros [Ho Hl]%orb_false_iff.
  apply Z.ltb_ge in Ho, Hl. by apply pw_ret, HQ.
Qed.
Lemma pw_queue_free f (Q : unit -> conn -> Prop) s :
  (forall fr, Q tt (mk_conn (lset f q_empty (c_tp s)) fr (c_net s) (c_wakes s))) -> pw (mbuf_queue_free f) Q s.
Proof. intros HQ. apply pw_bind, pw_rd, pw_bind, pw_get, pw_bind, pw_wr, pw_put, HQ. Qed.
End rules.

(** One step of a computation by its rule. *)
Ltac pstep :=
  lazymatch goal with
  | |- pw (bind _ _) _ _ => apply pw_bind
  | |- pw (ret _) _ _ => apply pw_ret
  | |- pw (get _) _ _ => apply pw_get
  | |- pw (rd _) _ _ => apply pw_rd
  | |- pw (wr _ _) _ _ => apply pw_wr
  | |- pw (flag_on _) _ _ => apply pw_flag_on
  | |- pw (flag_off _) _ _ => apply pw_flag_off
  | |- pw broadcast _ _ => apply pw_broadcast; intros ?
  | |- pw fault _ _ => done
  | |- pw (rxmt_restart _) _ _ => apply pw_rxmt_restart; intros ?
  | |- pw (mbuf_queue_trim _ _) _ _ => apply pw_queue_trim; intros ? ? ?
  | |- pw (mbuf_queue_free _) _ _ => apply pw_queue_free; intros ?
  | |- pw (when _ _) _ _ => apply pw_when; intros ?
  | |- pw (if _ then _ else _) _ _ => apply pw_if; intros ?
  end; cbn [c_tp c_free c_net c_wakes lget lset tp] in *.

(** ** The network below

    The calls add frames to those sent; the datagrams among them are the
    caller's. *)
Section below.
Definition adds (P : segment -> Prop) (n n' : nets segment) : Prop :=
  (n_ifs n', n_routes n') = (n_ifs n, n_routes n) /\
  exists fs, n_out n' = n_out n ++ fs /\ Forall (fun f => match f with IpFrame _ th => P th | ArpFrame _ _ => True end) fs.
Lemma adds_refl P n : adds P n n.
Proof. split; [done|]. exists []. by rewrite app_nil_r. Qed.
Lemma adds_trans P n n1 n2 : adds P n n1 -> adds P n1 n2 -> adds P n n2.
Proof.
  intros [E1 (f1 & O1 & F1)] [E2 (f2 & O2 & F2)]. split; [congruence|]. exists (f1 ++ f2).
  rewrite O2, O1, app_assoc. split; [done|]. by apply Forall_app.
Qed.

Lemma ifn_mmap_adds P n : pw ifn_mmap (fun _ n' => adds P n n') n.
Proof.
  intros m n'. unfold ifn_mmap, bind, get. simpl. destruct (n_drv n) as [|[] d]; intros [= <- <-]; try apply adds_refl.
  split; [done|]. exists []. by rewrite app_nil_r.
Qed.
Lemma ifn_send_adds (P : segment -> Prop) f n :
  match f with IpFrame _ th => P th | ArpFrame _ _ => True end -> pw (ifn_send f) (fun _ n' => adds P n n') n.
Proof.
  intros Hf r n'. unfold ifn_send, bind, get, put. simpl.
  destruct (n_drv n) as [|[] d]; intros [= <- <-];
    (split; [done|]); simpl; first [exists [f]; split; [done|by constructor] | exists []; by rewrite app_nil_r].
Qed.
Lemma ip_output_adds (P : segment -> Prop) rt daddr th n : P th -> pw (ip_output rt daddr th) (fun _ n' => adds P n n') n.
Proof.
  intros Hp r n'. unfold ip_output, rd_slot, bind, get, ret, lift_arp. simpl.
  destruct (etharp_lookup _ _) as [[[hw|] a]|]; [| |done].
  - intros E. by apply (ifn_send_adds P (IpFrame hw th) (lset arps a n) Hp) in E.
  - intros [= <- <-]. split; [done|]. exists []. by rewrite app_nil_r.
Qed.
Lemma etharp_query_adds P ifn addr n : pw (etharp_query ifn addr) (fun _ n' => adds P n n') n.
Proof.
  unfold etharp_query. apply pw_bind. eapply pw_mono; [apply (ifn_mmap_adds P)|]. intros m n1 A1.
  apply pw_if; intros _; [by apply pw_ret|]. apply pw_bind. intros i n2. unfold rd_if.
  destruct (n_ifs n1 !! ifn); [|done]. intros [= <- <-]. apply pw_bind.
  eapply pw_mono; [by apply (ifn_send_adds P)|]. intros r n2 A2. apply pw_if; intros _; apply pw_ret; exact (adds_trans _ _ _ _ A1 A2).
Qed.
Lemma query_pending_adds P n : pw etharp_query_pending (fun _ n' => adds P n n') n.
Proof.
  unfold etharp_query_pending. apply pw_bind, pw_get, pw_if; intros _; [apply pw_ret, adds_refl|].
  apply pw_bind, pw_put, pw_bind, pw_get. destruct (Route.__route_lookup _ _); [|apply pw_ret].
  - apply pw_bind, pw_bind, pw_get, pw_ret. eapply pw_mono; [apply (etharp_query_adds P)|]. done.
  - split; [done|]. exists []. by rewrite app_nil_r.
Qed.
Lemma tcp_respond_adds (P : segment -> Prop) th ack seq fl n :
  P (respond_segment th ack seq fl) -> pw (tcp_respond th ack seq fl) (fun _ n' => adds P n n') n.
Proof.
  intros Hp. unfold tcp_respond. apply pw_bind, pw_get. destruct (Route.__route_lookup _ _); [|apply pw_ret, adds_refl].
  apply pw_bind. eapply pw_mono; [by apply (ip_output_adds P)|]. intros r n' A. apply pw_if; intros _; by apply pw_ret.
Qed.
End below.

(** ** The invariant of a connection *)
Section connection.
Context `{MbufConfig}.
Context (sb : Z) (W : list Z) (rb : Z) (S : list Z).

Definition pcb_ok (D : list Z) (p : tcp_pcb) : Prop :=
  (p_state p = 0 \/ 4 <= p_state p <= 10) /\
  snd_ok sb W (p_state p) (sentfin (p_flags p)) (p_snd_seq p) (p_snd_off p) (p_snd_max p) (q_bytes (p_snd_q p)) /\
  rcv_ok rb S D (p_state p) (p_rcv_nxt p) (q_bytes (p_rcv_q p)) /\
  0 <= p_snd_wnd p < 2 ^ 16 /\ 0 <= p_maxseg p < 2 ^ 16 /\ 0 <= p_rcv_nxt p < 2 ^ 32.
Definition sent_ok (f : frame segment) : Prop :=
  match f with IpFrame _ th => wire sb W th | ArpFrame _ _ => True end.
Definition net_ok (mss : Z) (n : nets segment) : Prop :=
  (forall i ifn, n_ifs n !! i = Some ifn -> mss + 40 <= if_mtu ifn) /\ Forall sent_ok (n_out n).
Definition ok (D : list Z) (s : conn) : Prop := pcb_ok D (c_tp s) /\ net_ok (p_maxseg (c_tp s)) (c_net s).

(** The queues are empty in a state that does not take data any more. *)
Lemma snd_dead st sf seq off mx : st <> 4 -> st <> 5 -> 0 <= seq < 2 ^ 32 /\ 0 <= off < 2 ^ 16 -> snd_ok sb W st sf seq off mx [].
Proof. intros. split; [done|]. split; [done|]. by left. Qed.
Lemma snd_range st sf seq off mx q : snd_ok sb W st sf seq off mx q -> 0 <= seq < 2 ^ 32 /\ 0 <= off < 2 ^ 16.
Proof. by intros (_ & ? & _). Qed.
Lemma rcv_dead D st nxt st' nxt' q : rcv_ok rb S D st nxt q -> st' <> 4 -> rcv_ok rb S D st' nxt' [].
Proof.
  intros (_ & P & _) Hs. split; [done|]. split; [|done]. rewrite app_nil_r. etrans; [|exact P]. by apply prefix_app_r.
Qed.
Lemma rcv_leave D st nxt st' nxt' q : rcv_ok rb S D st nxt q -> st' <> 4 -> rcv_ok rb S D st' nxt' q.
Proof. intros (L & P & _) Hs. by split. Qed.

(** The states as numbers. *)
Ltac states :=
  unfold TCPS_HAVERCVDFIN, TCPS_CLOSED, TCPS_LISTEN, TCPS_SYN_SENT, TCPS_SYN_RCVD, TCPS_ESTABLISHED, TCPS_CLOSE_WAIT, TCPS_FIN_WAIT_1,
    TCPS_CLOSING, TCPS_LAST_ACK, TCPS_FIN_WAIT_2, TCPS_TIME_WAIT in *;
  repeat match goal with
    | H : (_ && _) = true |- _ => apply andb_true_iff in H as [? ?]
    | H : (_ || _) = true |- _ => apply orb_true_iff in H; rewrite ?orb_true_iff, ?Z.eqb_eq in H
    | H : (_ || _) = false |- _ => apply orb_false_iff in H as [? ?]
    | H : negb _ = true |- _ => apply negb_true_iff in H
    | H : negb _ = false |- _ => apply negb_false_iff in H
    | H : (_ =? _) = true |- _ => apply Z.eqb_eq in H
    | H : (_ =? _) = false |- _ => apply Z.eqb_neq in H
    | H : (_ <=? _) = true |- _ => apply Z.leb_le in H
    | H : (_ <=? _) = false |- _ => apply Z.leb_gt in H
    | H : (_ <? _) = true |- _ => apply Z.ltb_lt in H
    | H : (_ <? _) = false |- _ => apply Z.ltb_ge in H
    end.
(** The parts of the invariant, for a state the code reached. *)
Ltac parts := states; split; [|done]; split; [simpl; lia|]; split; [|split; [|simpl; split; [done|split; [done|first [done|apply u32_bound]]]]]; simpl; autorewrite with tcp.

Lemma close_block_ok D s : ok D s -> pw close_block (fun v s' => v = Closed /\ ok D s') s.
Proof.
  intros [(Hst & Sn & R & Hw & Hm & Hnx) N]. unfold close_block. repeat pstep. split; [done|]. parts.
  - apply snd_dead; [done|done|exact (snd_range _ _ _ _ _ _ Sn)].
  - by eapply rcv_dead.
Qed.

(** What the acknowledgement leaves to [step6]. *)
Definition same_rcv (p p' : tcp_pcb) : Prop :=
  p_state p' = 4 -> p_state p = 4 /\ p_rcv_nxt p' = p_rcv_nxt p /\ p_rcv_q p' = p_rcv_q p.
Lemma drop_after_ack_ok D fl s :
  ok D s -> pw (drop_after_ack fl) (fun v s' => (exists r b, v = Done r b) /\ ok D s' /\ same_rcv (c_tp s) (c_tp s')) s.
Proof.
  intros O. pose proof O as [(Hst & Sn & R & Hw & Hm & Hnx) N]. unfold drop_after_ack. repeat pstep; (split; [eauto|]); [done|split; [by parts|done]].
Qed.

Lemma Z_lt_eq a b c : (a < c <-> b < c) -> (a <? c) = (b <? c).
Proof. intros. destruct (Z.ltb_spec a c), (Z.ltb_spec b c); tauto || lia. Qed.
(** A change of state that keeps what may be outstanding. *)
Lemma snd_move st st' sf seq off mx q :
  snd_ok sb W st sf seq off mx q -> (st <? 6) = (st' <? 6) -> 4 <= st' <= 7 -> (st' = 4 \/ st' = 5 -> st = 4 \/ st = 5) ->
  snd_ok sb W st' sf seq off mx q.
Proof.
  intros (L & Lo & Hq) E Hs Hb. split; [done|]. split; [done|]. destruct Hq as [(-> & H4 & H5)|(n & Sn)].
  - left. split; [done|]. split; intros ->; [destruct Hb as [?|?]|destruct Hb as [?|?]]; auto.
  - right. exists n. destruct Sn as [? ? ? ? ? Hx ? ?]. split; try done. by rewrite <-E.
Qed.

(** The sending and the receiving part of a state, from those of a state
    before, [Sn] and [R]. *)
Ltac sending Sn :=
  first [exact Sn | apply snd_dead; [lia|lia|first [exact (snd_range _ _ _ _ _ _ Sn)|split; [first [exact (proj1 (snd_range _ _ _ _ _ _ Sn))|done]|apply u16_bound]]] | eapply snd_move; [exact Sn|apply Z_lt_eq; lia|lia|lia]].
Ltac receiving R := first [exact R | eapply rcv_dead; [exact R|lia] | eapply rcv_leave; [exact R|lia]].

Lemma fin_and_output_ok D fl b s :
  ok D s -> pw (fin_and_output fl b) (fun v s' => (exists r b, v = Done r b) /\ ok D s') s.
Proof.
  intros O. pose proof O as [(Hst & Sn & R & Hw & Hm & Hnx) N]. unfold fin_and_output.
  repeat pstep; (split; [eauto|]); first [exact O | states; lia | parts; [sending Sn|receiving R]].
Qed.

(** What is left of a segment after it was trimmed: [len] bytes, from the
    place [pos], that belong where [seq] says. *)
Definition text (th : segment) (seq len pos : Z) : Prop :=
  len <= 0 \/ exists k, 0 <= k /\ seq = u32 (rb + k) /\ k + len <= zlen S /\
    take (Z.to_nat len) (data_at th pos) = take (Z.to_nat len) (drop (Z.to_nat k) S).
Definition in_window (p : tcp_pcb) (seq len : Z) : Prop :=
  p_state p = 4 -> seq = p_rcv_nxt p -> len <= tcp_maxrcv - q_len (p_rcv_q p).

Definition placed (p : tcp_pcb) (th : segment) (seq len pos : Z) : Prop := p_state p = 4 -> text th seq len pos.

Lemma prefix_more (D l : list Z) n : (D ++ l) `prefix_of` S -> 0 <= n ->
  (D ++ l ++ take (Z.to_nat n) (drop (Z.to_nat (zlen (D ++ l))) S)) `prefix_of` S.
Proof.
  intros [t E] Hn. rewrite app_assoc. set (x := D ++ l) in *. subst S. unfold zlen. rewrite Nat2Z.id, drop_app_length.
  apply prefix_app. apply prefix_take.
Qed.

Lemma rcv_append D p th seq len pos n :
  rcv_ok rb S D (p_state p) (p_rcv_nxt p) (q_bytes (p_rcv_q p)) -> zlen S < 2 ^ 31 ->
  p_state p = 4 -> seq = p_rcv_nxt p -> text th seq len pos -> in_window p seq len ->
  0 <= n <= Z.max 0 len -> len <= zlen (data_at th pos) ->
  rcv_ok rb S D 4 (u32 (p_rcv_nxt p + n)) (q_bytes (p_rcv_q p) ++ take (Z.to_nat n) (data_at th pos)).
Proof.
  intros (L & P & E) HS St Es T I Hn Hl. specialize (E St). specialize (I St Es). unfold q_len in I.
  destruct (Z_le_gt_dec len 0) as [Hle|Hgt].
  { assert (n = 0) as -> by lia. rewrite app_nil_r, Z.add_0_r. split; [done|]. split; [done|]. intros _.
    by rewrite E, u32_idem. }
  destruct T as [?|(k & Hk & Ek & Hkl & Et)]; [lia|].
  assert (Hr : zlen (D ++ q_bytes (p_rcv_q p)) <= zlen S) by (apply prefix_length in P; unfold zlen; lia).
  pose proof (zlen_nonneg (D ++ q_bytes (p_rcv_q p))) as Hr0.
  assert (k = zlen (D ++ q_bytes (p_rcv_q p))) as ->.
  { pose proof (seq_diff rb k (zlen (D ++ q_bytes (p_rcv_q p))) ltac:(lia)) as X.
    rewrite <-Ek, <-E, Es, Z.sub_diag in X. change (s32 0) with 0 in X. lia. }
  assert (Ed : take (Z.to_nat n) (data_at th pos) = take (Z.to_nat n) (drop (Z.to_nat (zlen (D ++ q_bytes (p_rcv_q p)))) S)).
  { replace n with (Z.min n len) by lia. rewrite Z2Nat.inj_min, <-!take_take, Et. done. }
  assert (Hz : zlen (take (Z.to_nat n) (data_at th pos)) = n) by (apply zlen_take; lia).
  split; [rewrite zlen_app, Hz; lia|]. split.
  - rewrite Ed. apply prefix_more; [done|lia].
  - intros _. rewrite E, u32_add_u32. rewrite app_assoc, (zlen_app (D ++ _)), Hz. f_equal. lia.
Qed.

Hypothesis S_small : zlen S < 2 ^ 31.

Definition wire_win (th : segment) : Prop := 0 <= th_win th < 2 ^ 16.

Lemma rcv_data_ok D th seq len pos s (Q : Z -> conn -> Prop) :
  ok D s -> p_state (c_tp s) = 4 -> seq = p_rcv_nxt (c_tp s) -> text th seq len pos -> in_window (c_tp s) seq len ->
  (forall n s', ok D (mk_conn (lset f_rcv_nxt (u32 (p_rcv_nxt (c_tp s) + n)) (c_tp s')) (c_free s') (c_net s') (c_wakes s')) ->
    p_state (c_tp s') = 4 -> Q n s') ->
  pw (rcv_data th pos len) Q s.
Proof.
  intros [(Hst & Sn & R & Hw & Hm & Hnx) N] St Es T I HQ. unfold rcv_data. pstep; [done|].
  apply pw_queue_add. intros n fr Hn Hl. apply HQ; [|done]. cbn [c_tp c_net c_free c_wakes lget f_rcv_q]. parts; [done|].
  change (q_len ?q) with (zlen (q_bytes q)). rewrite St. by eapply rcv_append.
Qed.

Lemma step6_ok D th fl seq len pos b s :
  ok D s -> wire_win th -> placed (c_tp s) th seq len pos -> in_window (c_tp s) seq len ->
  pw (step6 th fl seq len pos b) (fun v s' => (exists r b, v = Done r b) /\ ok D s') s.
Proof.
  intros O Hwin T I. pose proof O as [(Hst & Sn & R & Hw & Hm & Hnx) N]. unfold step6. repeat pstep; unfold wire_win in *.
  all: first
    [ apply fin_and_output_ok; first [exact O | parts; done]
    | apply rcv_data_ok with (D := D) (seq := seq); states; try done; [first [exact O | parts; done]|by apply T|];
      intros n s' O' _; repeat pstep; by apply fin_and_output_ok ].
Qed.

(** An acknowledgement taken for valid, of what is in the queue. *)
Lemma snd_acked st sf seq off mx q ack nxt :
  snd_ok sb W st sf seq off mx q -> 0 <= ack < 2 ^ 32 ->
  SEQ_GT ack seq = true -> SEQ_GT ack (u32 (seq + mx)) = false ->
  let d := s32 (ack - seq) in
  d <= zlen q ->
  (nxt = if SEQ_LT (u32 (seq + off)) ack then ack else u32 (seq + off)) \/
  (nxt = u32 (seq + off) /\ nxt = u32 (seq + mx)) ->
  snd_ok sb W st sf ack (u16 (nxt - ack)) (u16 (u32 (seq + mx) - ack)) (drop (Z.to_nat d) q).
Proof.
  intros (L & Lo & Hq) Ha G1 G2 d Hd Hn. pose proof G1 as Gd. unfold SEQ_GT in Gd. apply Z.ltb_lt in Gd. fold d in Gd.
  destruct Hq as [(-> & _)|(n & Sn)]; [change (zlen (@nil Z)) with 0 in Hd; lia|].
  destruct (ack_bounds _ _ _ _ _ _ _ _ _ _ Sn L Ha G1 G2) as [Hb Ea]. fold d in Hb, Ea.
  split; [rewrite zlen_drop by lia; lia|]. split; [split; [done|apply u16_bound]|]. right. exists (n + d).
  pose proof (sn_seq _ _ _ _ _ _ _ _ _ Sn) as Es. pose proof (sn_off _ _ _ _ _ _ _ _ _ Sn) as Ho.
  pose proof (sn_max _ _ _ _ _ _ _ _ _ Sn) as Hm. assert (mx <= 2921) by (unfold tcp_maxsnd in L; destruct (st <? 6); lia).
  apply sends_ack with (off := off); try done. fold d.
  assert (Eo : forall o, u32 (seq + o) = u32 (sb + n + o)) by (intros; by rewrite Es, u32_add_u32).
  destruct Hn as [->|[-> E]].
  - assert (El : s32 (u32 (sb + n + off) - ack) = off - d) by (rewrite Ea, <-(Z.add_assoc sb n off), seq_diff by lia; lia).
    rewrite Eo. unfold SEQ_LT. rewrite El. destruct (Z.ltb_spec (off - d) 0).
    + exists d. rewrite Ea. split; [f_equal; lia|]. lia.
    + exists off. rewrite <-Z.add_assoc. lia.
  - rewrite !Eo in E. assert (off = mx) as ->.
    { pose proof (seq_diff (sb + n) off mx ltac:(lia)) as X. rewrite E, Z.sub_diag in X. change (s32 0) with 0 in X. lia. }
    exists mx. rewrite Eo. lia.
Qed.
Lemma snd_all_acked st sf seq off mx q ack :
  snd_ok sb W st sf seq off mx q -> 0 <= ack < 2 ^ 32 ->
  SEQ_GT ack seq = true -> SEQ_GT ack (u32 (seq + mx)) = false -> zlen q < s32 (ack - seq) -> st <> 4 /\ st <> 5.
Proof.
  intros (L & Lo & Hq) Ha G1 G2 Hd. destruct Hq as [(-> & ?)|(n & Sn)]; [done|].
  destruct (ack_bounds _ _ _ _ _ _ _ _ _ _ Sn L Ha G1 G2) as [Hb _]. pose proof (sn_max _ _ _ _ _ _ _ _ _ Sn) as Hm.
  destruct (Z.ltb_spec st 6); lia.
Qed.

Lemma same_placed p p' th seq len pos : same_rcv p p' -> placed p th seq len pos -> placed p' th seq len pos.
Proof. intros Hs T St. destruct (Hs St) as (E1 & _). by apply T. Qed.
Lemma same_window p p' seq len : same_rcv p p' -> in_window p seq len -> in_window p' seq len.
Proof. intros Hs I St. destruct (Hs St) as (E1 & E2 & E3). rewrite E2, E3. by apply I. Qed.

Lemma acknowledge_ok D ack s :
  ok D s -> 0 <= ack < 2 ^ 32 ->
  let p := c_tp s in
  let max := u32 (p_snd_seq p + p_snd_max p) in
  SEQ_GT ack (p_snd_seq p) = true -> SEQ_GT ack max = false ->
  pw (acknowledge ack (p_snd_seq p) (u32 (p_snd_seq p + p_snd_off p)) max)
    (fun all s' => ok D s' /\ p_state (c_tp s') = p_state p /\ p_rcv_nxt (c_tp s') = p_rcv_nxt p /\
      p_rcv_q (c_tp s') = p_rcv_q p /\
      (all = true -> p_state p <> 4 /\ p_state p <> 5 /\ q_bytes (p_snd_q (c_tp s')) = [])) s.
Proof.
  intros O Ha p max G1 G2. subst p max. pose proof O as [(Hst & Sn & R & Hw & Hm & Hnx) N].
  pose proof (snd_all_acked _ _ _ _ _ _ _ Sn Ha G1 G2) as Hall.
  pose proof (fun nxt => snd_acked _ _ _ _ _ _ _ nxt Sn Ha G1 G2) as Hsome. cbv zeta in Hsome.
  unfold acknowledge, take_acked.
  repeat pstep; cbn [f_snd_q f_count f_rxmt_tmr lget] in *; change (q_len ?q) with (zlen (q_bytes q)) in *; simpl in *;
    (destruct (Z.ltb_spec (zlen (q_bytes (p_snd_q (c_tp s)))) (s32 (ack - p_snd_seq (c_tp s)))) as [Hlt|Hge];
     [specialize (Hall Hlt) as [H4 H5]|specialize (Hsome _ Hge (or_introl eq_refl))]).
  all: rewrite ?Z.min_id, ?(Z.min_l (s32 _) (zlen _)), ?drop_zlen by done.
  all: split; [parts; first [exact R | exact Hsome | apply snd_dead; [done|done|split; [done|apply u16_bound]]]|done].
Qed.

Lemma process_ack_ok D th fl seq len s :
  ok D s -> 0 <= th_ack th < 2 ^ 32 ->
  let p := c_tp s in
  pw (process_ack th fl seq len (p_snd_seq p) (u32 (p_snd_seq p + p_snd_off p)) (u32 (p_snd_seq p + p_snd_max p)))
    (fun r s' => ok D s' /\ same_rcv p (c_tp s')) s.
Proof.
  intros O Ha p. subst p. pose proof O as [(Hst & Sn & R & Hw & Hm & Hnx) N]. unfold process_ack.
  assert (H3 : (p_state (c_tp s) =? TCPS_SYN_RCVD) = false) by (apply Z.eqb_neq; unfold TCPS_SYN_RCVD; lia).
  pstep. pstep. cbn [f_state lget]. rewrite H3. cbn [andb when]. repeat pstep; try done.
  { eapply pw_mono; [by apply drop_after_ack_ok|]. intros v s' [_ [O' E]]. pstep. by split. }
  eapply pw_mono; [apply (acknowledge_ok D); try done; by apply seq_leq_gt|]. intros all s1 (O1 & E1 & E2 & E3 & Hall).
  pose proof O1 as [(Hst1 & Sn1 & R1 & Hw1 & Hm1 & Hnx1) N1].
  assert (Same : same_rcv (c_tp s) (c_tp s1)) by (intros ?; rewrite <-E1; auto).
  repeat pstep; states.
  - destruct Hall as (Hn4 & Hn5 & Hq); [done|]. split; [|by intros ?]. parts; [rewrite Hq; sending Sn1|receiving R1].
  - split; [|by intros ?]. parts; [sending Sn1|receiving R1].
  - by split.
  - eapply pw_mono; [apply (drop_after_ack_ok D); parts; done|]. intros v s' (_ & O' & E). pstep. split; [done|].
    intros Hs. destruct (E Hs) as [E4 _]. simpl in E4. cbn [f_state lget] in *. lia.
  - by split.
Qed.

(** What an incoming segment has to be. *)
Lemma checked_ok D th fl seq len pos s :
  ok D s -> wire_win th -> 0 <= th_ack th < 2 ^ 32 -> placed (c_tp s) th seq len pos -> in_window (c_tp s) seq len ->
  let p := c_tp s in
  pw (checked_segment th fl seq len pos (p_snd_seq p) (u32 (p_snd_seq p + p_snd_off p)) (u32 (p_snd_seq p + p_snd_max p)))
    (fun v s' => ok D s') s.
Proof.
  intros O Hwin Ha T I p. subst p. unfold checked_segment.
  repeat pstep; try done; try (eapply pw_mono; [by apply (close_block_ok D)|by intros v s' [_ ?]]);
    (eapply pw_mono; [by apply (process_ack_ok D)|]); intros [v|b] s' [O' Same];
    first [ by apply pw_ret
          | eapply pw_mono; [apply (step6_ok D); try done; [by eapply same_placed|by eapply same_window]|by intros ? ? [_ ?]] ].
Qed.

(** ** Trimming *)

Lemma text_less th seq len pos len' : text th seq len pos -> len' <= len -> text th seq len' pos.
Proof.
  intros [Hn|(k & Hk & E & Hl & Et)] Hle; [left; lia|]. destruct (Z_le_gt_dec len' 0); [by left|].
  right. exists k. split; [done|]. split; [done|]. split; [lia|].
  replace len' with (Z.min len' len) by lia. by rewrite Z2Nat.inj_min, <-!take_take, Et.
Qed.

Lemma trim_tail_ok D th fl seq len pos s :
  ok D s -> wire_win th -> 0 <= th_ack th < 2 ^ 32 -> (p_state (c_tp s) = 4 -> len < 2 ^ 16) -> placed (c_tp s) th seq len pos ->
  let p := c_tp s in
  let wnd := Z.max 0 (tcp_maxrcv - q_len (p_rcv_q p)) in
  pw (trim_tail th fl seq len pos wnd (p_snd_seq p) (u32 (p_snd_seq p + p_snd_off p)) (u32 (p_snd_seq p + p_snd_max p)))
    (fun v s' => ok D s') s.
Proof.
  intros O Hwin Ha Hl T p wnd. subst p. pose proof O as [(Hst & Sn & R & Hw & Hm & Hnx) N].
  pose proof R as (Rl & _ & _). assert (Hwnd : wnd = tcp_maxrcv - q_len (p_rcv_q (c_tp s))) by (unfold wnd, q_len; lia).
  assert (Hdrop : p_state (c_tp s) = 4 -> seq = p_rcv_nxt (c_tp s) -> 0 <= len -> s32 (seq + len - (p_rcv_nxt (c_tp s) + wnd)) = len - wnd).
  { intros Hs4 -> Hlen. specialize (Hl Hs4). replace (p_rcv_nxt (c_tp s) + len - (p_rcv_nxt (c_tp s) + wnd)) with (len - wnd) by lia.
    apply s32_small. unfold wnd, tcp_maxrcv, q_len in *. pose proof (zlen_nonneg (q_bytes (p_rcv_q (c_tp s)))). lia. }
  unfold trim_tail. set (d := s32 (seq + len - (p_rcv_nxt (c_tp s) + wnd))) in *. pstep. pstep. fold d. pstep.
  - pstep.
    + eapply pw_mono; [by apply (drop_after_ack_ok D)|]. by intros v s' (_ & ? & _).
    + assert (T' : placed (c_tp s) th seq (len - d) pos) by (intros Hs4; states; eapply text_less; [by apply T|lia]).
      assert (I' : in_window (c_tp s) seq (len - d)).
      { intros Hs4 Es. states. rewrite <-Hwnd. destruct (Z_le_gt_dec 0 len) as [Hp|Hp]; [specialize (Hdrop Hs4 Es Hp)|]; lia. }
      pstep. pstep.
      * pstep. set (s1 := mk_conn _ _ _ _). apply (checked_ok D th _ seq (len - d) pos s1); try done. by parts.
      * by apply (checked_ok D).
  - apply (checked_ok D); try done. intros Hs4 Es. states. rewrite <-Hwnd.
    destruct (Z_le_gt_dec 0 len) as [Hp|Hp]; [specialize (Hdrop Hs4 Es Hp)|]; lia.
Qed.

(** The head: what is dropped are bytes the reader has. *)
Lemma trim_head_text th rcv_nxt :
  wire rb S th -> (exists r, 0 <= r <= zlen S /\ rcv_nxt = u32 (rb + r)) ->
  let len := th_len th - Z.shiftl (th_off th) 2 in
  match trim_head (th_flags th) (th_seq th) len rcv_nxt with
  | (fl, seq, dropped, owed) =>
    0 <= seq < 2 ^ 32 /\ len - dropped < 2 ^ 16 /\ text th seq (len - dropped) (opt_len th + dropped)
  end.
Proof.
  intros (Hseq & _ & _ & Hlen & Hw) (r & Hr & Er) len. unfold trim_head.
  assert (Hcar : 0 < len -> carries rb S th) by (destruct Hw; [unfold len; lia|done]).
  assert (Hl16 : 0 < len -> len = zlen (th_rest th) /\ opt_len th = 0 /\ len < 2 ^ 16).
  { intros Hp. destruct (Hcar Hp) as (_ & E5 & El & _). unfold len, opt_len. rewrite E5. change (Z.shiftl 5 2) with 20.
    split; [lia|]. split; [done|lia]. }
  set (todrop := s32 (rcv_nxt - th_seq th)). destruct (Z.ltb_spec 0 todrop) as [Hd|Hd].
  - destruct (has (th_flags th) TH_SYN) eqn:Syn.
    + assert (Hle : len <= 0) by (destruct (Z_le_gt_dec len 0); [done|]; destruct Hcar as [C _]; [lia|congruence]).
      set (fl := clrf _ _). destruct ((len <? todrop - 1) || ((todrop - 1 =? len) && negb (has fl TH_FIN))) eqn:B.
      * split; [apply u32_bound|]. split; [lia|left; lia].
      * apply orb_false_iff in B as [B%Z.ltb_ge _]. split; [apply u32_bound|]. split; [lia|left; lia].
    + destruct ((len <? todrop) || ((todrop =? len) && negb (has (th_flags th) TH_FIN))) eqn:B.
      * split; [apply u32_bound|]. split; [lia|left; lia].
      * apply orb_false_iff in B as [B%Z.ltb_ge _]. split; [apply u32_bound|].
        destruct (Hcar ltac:(lia)) as (_ & _ & _ & k & Hk & Hkl & Ek & Et). destruct (Hl16 ltac:(lia)) as (El & Eo & H16).
        rewrite Eo. split; [lia|]. right. exists r.
        assert (Ed : todrop = r - k) by (unfold todrop; rewrite Er, Ek, seq_diff by lia; done).
        split; [lia|]. split; [rewrite Ek, u32_add_u32; f_equal; lia|]. split; [lia|].
        unfold data_at. rewrite Z.add_0_l, Et, skipn_firstn_comm, drop_drop, take_take.
        replace (Z.to_nat k + Z.to_nat todrop)%nat with (Z.to_nat r) by lia. f_equal. unfold zlen in El. lia.
  - split; [done|]. rewrite Z.sub_0_r, Z.add_0_r. split; [destruct (Z_le_gt_dec len 0); [lia|by apply Hl16; lia]|].
    destruct (Z_le_gt_dec len 0) as [Hle|Hgt]; [by left|]. right.
    destruct (Hcar ltac:(lia)) as (_ & _ & _ & k & Hk & Hkl & Ek & Et). destruct (Hl16 ltac:(lia)) as (El & Eo & H16).
    exists k. rewrite Eo. split; [done|]. split; [done|]. split; [lia|]. unfold data_at.
    rewrite drop_0, Et, take_take. f_equal. unfold zlen in El. lia.
Qed.

(** ** A whole segment *)

(** A segment whose data begins in its place, for a block that takes data. *)
Lemma wire_placed D th s :
  ok D s -> wire rb S th ->
  match trim_head (th_flags th) (th_seq th) (th_len th - Z.shiftl (th_off th) 2) (p_rcv_nxt (c_tp s)) with
  | (fl, seq, dropped, owed) =>
    p_state (c_tp s) = 4 -> 0 <= seq < 2 ^ 32 /\ th_len th - Z.shiftl (th_off th) 2 - dropped < 2 ^ 16 /\
      text th seq (th_len th - Z.shiftl (th_off th) 2 - dropped) (opt_len th + dropped)
  end.
Proof.
  intros O Hth. destruct (trim_head _ _ _ _) as [[[fl seq] dropped] owed] eqn:E. intros St.
  destruct O as [(_ & _ & (_ & P & En) & _) _].
  pose proof (trim_head_text th (p_rcv_nxt (c_tp s)) Hth) as T. cbv zeta in T. rewrite E in T. apply T.
  exists (zlen (D ++ q_bytes (p_rcv_q (c_tp s)))). split; [|by apply En].
  apply prefix_length in P. unfold zlen. lia.
Qed.

Lemma predict_ok D th s :
  ok D s -> wire rb S th ->
  let p := c_tp s in
  pw (predict th (th_len th - Z.shiftl (th_off th) 2) (p_snd_seq p) (u32 (p_snd_seq p + p_snd_off p)) (u32 (p_snd_seq p + p_snd_max p)))
    (fun v s' => ok D s' /\ (v = None -> s' = s)) s.
Proof.
  intros O Hth p. subst p. pose proof O as [(Hst & Sn & R & Hw & Hm & Hnx) N]. pose proof Hth as (_ & Ha & _ & Hlen & Hcar).
  unfold predict, take_acked. pstep. pstep. pstep; [by pstep|].
  apply negb_false_iff in H0. rewrite !andb_true_iff in H0. destruct H0 as (((((B1 & B2) & B3) & B4) & B5) & B6).
  pstep.
  - pstep; [|by pstep]. apply andb_true_iff in H1 as [G1 G2]. states.
    assert (G3 : SEQ_GT (th_ack th) (u32 (p_snd_seq (c_tp s) + p_snd_max (c_tp s))) = false).
    { unfold SEQ_GT, SEQ_LEQ in *. apply Z.ltb_ge. by apply Z.leb_le. }
    pose proof (snd_all_acked _ _ _ _ _ _ _ Sn Ha G1 G3) as Hall.
    assert (Hd : s32 (th_ack th - p_snd_seq (c_tp s)) <= zlen (q_bytes (p_snd_q (c_tp s)))).
    { destruct (Z_lt_le_dec (zlen (q_bytes (p_snd_q (c_tp s)))) (s32 (th_ack th - p_snd_seq (c_tp s)))) as [Hlt|]; [|done].
      by destruct (Hall Hlt). }
    pose proof (snd_acked _ _ _ _ _ _ _ _ Sn Ha G1 G3 Hd (or_intror (conj eq_refl B6))) as Sn'.
    repeat pstep; (split; [|done]); parts; try exact R; cbn [f_snd_q lget]; change (q_len ?q) with (zlen (q_bytes q));
      rewrite Z.min_l by done; exact Sn'.
  - pstep; [|by pstep]. states. pstep. apply rcv_data_ok with (D := D) (seq := th_seq th); try done.
    + destruct Hcar as [?|C]; [left; lia|]. destruct C as (_ & E5 & El & k & Hk & Hkl & Ek & Et). right. exists k.
      assert (En : th_len th - Z.shiftl (th_off th) 2 = zlen (th_rest th)) by (rewrite El, E5; change (Z.shiftl 5 2) with 20; lia).
      split; [done|]. split; [done|]. split; [lia|].
      unfold opt_len. rewrite E5 at 2. change (Z.shiftl 5 2 - SIZEOF_TCPHDR) with 0.
      unfold data_at. rewrite drop_0, Et, take_take. f_equal. rewrite En. unfold zlen. lia.
    + by intros _ _.
    + intros n s' O' St'. pose proof O' as [(Hst1 & Sn1 & R1 & Hw1 & Hm1 & Hnx1) N1].
      repeat pstep; (split; [|done]); parts; first [exact Sn1|exact R1].
Qed.

Lemma adds_ok D s n : ok D s -> adds (wire sb W) (c_net s) n -> ok D (mk_conn (c_tp s) (c_free s) n (c_wakes s)).
Proof.
  intros [Hp [Hf Ho]] [[= Ei _] (fs & Eo & Fs)]. split; [done|]. simpl. split; [by rewrite Ei|].
  rewrite Eo. by apply Forall_app.
Qed.

Lemma drop_with_reset_ok D th seq len ack fl s : ok D s -> pw (drop_with_reset th seq len ack fl) (fun _ s' => ok D s') s.
Proof.
  intros O. unfold drop_with_reset.
  assert (Hr : forall a q f, pw (lift_net (tcp_respond th a q f)) (fun _ s' => ok D s') s).
  { intros a q f. apply pw_lift_net. eapply pw_mono; [apply (tcp_respond_adds (wire sb W))|].
    - split; [apply u32_bound|]. split; [apply u32_bound|]. split; [done|]. split; [done|]. by left.
    - intros r n A. by apply adds_ok. }
  repeat pstep; [done|..]; (eapply pw_mono; [apply Hr|]); intros; by apply pw_ret.
Qed.

(** From header prediction on. *)
Lemma input_slow_ok D th s :
  ok D s -> wire rb S th ->
  match trim_head (th_flags th) (th_seq th) (th_len th - Z.shiftl (th_off th) 2) (p_rcv_nxt (c_tp s)) with
  | (fl, seq, dropped, owed) =>
    pw (trim_tail th fl seq (th_len th - Z.shiftl (th_off th) 2 - dropped) (opt_len th + dropped)
      (Z.max 0 (tcp_maxrcv - q_len (p_rcv_q (c_tp s)))) (p_snd_seq (c_tp s))
      (u32 (p_snd_seq (c_tp s) + p_snd_off (c_tp s))) (u32 (p_snd_seq (c_tp s) + p_snd_max (c_tp s))))
      (fun _ s' => ok D s') s
  end.
Proof.
  intros O Hth. pose proof (wire_placed D th s O Hth) as T. pose proof Hth as (_ & Ha & Hwin & _).
  destruct (trim_head _ _ _ _) as [[[fl seq] dropped] owed]. apply (trim_tail_ok D); try done; intros Hs4; by apply T.
Qed.

Lemma input_active_ok D th s : ok D s -> wire rb S th -> pw (input_active th) (fun _ s' => ok D s') s.
Proof.
  intros O Hth. pose proof O as [(Hst & Sn & R & Hw & Hm & Hnx) N]. unfold input_active. do 4 pstep.
  set (s1 := mk_conn _ _ _ _). assert (O1 : ok D s1) by by parts.
  apply pw_bind, (pw_mono _ (fun _ s2 => ok D s2 /\ p_snd_seq (c_tp s2) = p_snd_seq (c_tp s) /\
    p_snd_off (c_tp s2) = p_snd_off (c_tp s) /\ p_snd_max (c_tp s2) = p_snd_max (c_tp s))).
  { pstep; [pstep|]; (split; [by parts|done]). }
  intros _ s2 (O2 & <- & <- & <-). clear s1 O1 O Hst Sn R Hw Hm Hnx N. pose proof O2 as [(Hst & Sn & R & Hw & Hm & Hnx) N].
  apply pw_bind. eapply pw_mono; [by apply (predict_ok D)|]. intros [v|] s3 [O3 E3]; [by apply pw_ret|].
  rewrite (E3 eq_refl) in *. clear E3 s3 O3. do 2 pstep. pstep; [states; lia|].
  set (s4 := mk_conn (lset f_flags (setf (p_flags (c_tp s2)) TF_ACKNOW) (c_tp s2)) (c_free s2) (c_net s2) (c_wakes s2)).
  assert (O4 : ok D s4) by by parts.
  pose proof (input_slow_ok D th s4 O4 Hth) as T4. pose proof (input_slow_ok D th s2 O2 Hth) as T2.
  change (p_rcv_nxt (c_tp s4)) with (p_rcv_nxt (c_tp s2)) in T4.
  destruct (trim_head _ _ _ _) as [[[fl seq] dropped] owed]. pstep. pstep.
  - pstep. fold s4. pstep; [by pstep|exact T4].
  - pstep; [by pstep|exact T2].
Qed.

Lemma input_block_ok D th s : ok D s -> wire rb S th -> pw (input_block th) (fun _ s' => ok D s') s.
Proof.
  intros O Hth. unfold input_block. pstep. eapply pw_mono; [by apply (input_active_ok D)|].
  intros v s' O'. destruct v; repeat pstep; try done;
    (eapply pw_mono; [by apply (drop_with_reset_ok D)|]); intros; by pstep.
Qed.

(** ** Output *)

(** What the next segment takes: [len] bytes at [o] of the queue, with the
    flags [fl]. *)
Definition plan (p : tcp_pcb) (o len fl : Z) : Prop :=
  let q := q_bytes (p_snd_q p) in
  0 <= len <= p_maxseg p /\ has fl TH_SYN = false /\
  ((q = [] /\ p_state p <> 4 /\ p_state p <> 5 /\ len = 0) \/
   exists n, sends sb W (p_state p) (sentfin (p_flags p)) (p_snd_seq p) (p_snd_off p) (p_snd_max p) q n /\
     0 <= o <= p_snd_max p /\ (sentfin (p_flags p) = false -> o <= zlen q) /\
     (0 < len -> o + len <= zlen q) /\
     (has fl TH_FIN = true -> 6 <= p_state p /\ zlen q <= o + len)).

(** The position after the segment, and the furthest one. *)
Definition back (p : tcp_pcb) (o fl : Z) : Z :=
  if has fl TH_FIN && sentfin (p_flags p) && (o =? p_snd_max p) then o - 1 else o.
Definition next_off (p : tcp_pcb) (o len fl : Z) : Z := back p o fl + (if has fl TH_FIN then 1 else 0) + len.

Lemma plan_sends p o len fl n :
  let q := q_bytes (p_snd_q p) in
  sends sb W (p_state p) (sentfin (p_flags p)) (p_snd_seq p) (p_snd_off p) (p_snd_max p) q n -> zlen q <= tcp_maxsnd ->
  0 <= len -> 0 <= o <= p_snd_max p -> (sentfin (p_flags p) = false -> o <= zlen q) ->
  (0 < len -> o + len <= zlen q) -> (has fl TH_FIN = true -> 6 <= p_state p /\ zlen q <= o + len) ->
  sends sb W (p_state p) (has fl TH_FIN || sentfin (p_flags p)) (p_snd_seq p) (next_off p o len fl)
    (Z.max (p_snd_max p) (next_off p o len fl)) q n /\
  0 <= next_off p o len fl <= 2921 /\ p_snd_max p <= 2921 /\ (0 < len -> back p o fl = o).
Proof.
  intros q [Hn Eq Es St Hoff Hmx Hf Hnf] L Hl Ho Hof Hlo Hfin. fold q in Eq, Hmx, Hf, Hnf, Hof, Hlo, Hfin, L.
  unfold next_off, back, tcp_maxsnd in *. pose proof (zlen_nonneg q) as Hq.
  assert (Hb : p_snd_max p <= zlen q + 1) by (destruct (p_state p <? 6); lia).
  destruct (has fl TH_FIN) eqn:F, (sentfin (p_flags p)) eqn:SF; cbn [andb orb].
  - specialize (Hf eq_refl). destruct (Hfin eq_refl) as [H6 Hz]. apply Z.ltb_ge in H6.
    destruct (Z.eqb_spec o (p_snd_max p)); (split; [split; rewrite ?H6; try done; lia|]; lia).
  - destruct (Hfin eq_refl) as [H6 Hz]. specialize (Hof eq_refl). apply Z.ltb_ge in H6. rewrite H6 in *.
    split; [split; rewrite ?H6; try done; lia|]; lia.
  - specialize (Hf eq_refl). split; [split; try done; destruct (p_state p <? 6); lia|]; lia.
  - specialize (Hof eq_refl). specialize (Hnf eq_refl). split; [split; try done; destruct (p_state p <? 6); lia|]; lia.
Qed.

Lemma has_setf f m k : Z.land m k = 0 -> has (setf f m) k = has f k.
Proof. intros E. unfold has, setf. by rewrite Z.land_lor_distr_l, E, Z.lor_0_r. Qed.
Lemma u32_inj b i j : - 2 ^ 31 <= i - j < 2 ^ 31 -> u32 (b + i) = u32 (b + j) -> i = j.
Proof. intros Hd E. pose proof (seq_diff b i j Hd) as F. rewrite E, Z.sub_diag in F. change (s32 0) with 0 in F. lia. Qed.

(** The sequence numbers of the code are those of the plan. *)
Lemma plan_numbers p o len fl :
  0 <= o <= p_snd_max p -> p_snd_max p <= 2921 -> 0 <= next_off p o len fl <= 2921 ->
  let seq := p_snd_seq p in
  let max := u32 (seq + p_snd_max p) in
  let nxt1 := if has fl TH_FIN && has (p_flags p) TF_SENTFIN && (u32 (seq + o) =? max) then u32 (u32 (seq + o) - 1) else u32 (seq + o) in
  let nxt2 := if has fl TH_FIN then u32 (nxt1 + 1) else nxt1 in
  let nxt3 := u32 (nxt2 + len) in
  nxt1 = u32 (seq + back p o fl) /\ nxt3 = u32 (seq + next_off p o len fl) /\
  (if SEQ_GT nxt3 max then nxt3 else max) = u32 (seq + Z.max (p_snd_max p) (next_off p o len fl)).
Proof.
  intros Ho Hmx Hx seq max nxt1 nxt2 nxt3. assert (E1 : nxt1 = u32 (seq + back p o fl)).
  { unfold nxt1, back, max. rewrite sentfin_has.
    replace (u32 (seq + o) =? u32 (seq + p_snd_max p)) with (o =? p_snd_max p).
    - destruct (has fl TH_FIN), (sentfin (p_flags p)), (o =? p_snd_max p); simpl; try done.
      rewrite u32_sub_u32. f_equal. lia.
    - destruct (Z.eqb_spec o (p_snd_max p)) as [->|Hne]; [by rewrite Z.eqb_refl|]. symmetry. apply Z.eqb_neq.
      intros E. apply u32_inj in E; lia. }
  assert (E3 : nxt3 = u32 (seq + next_off p o len fl)).
  { unfold nxt3, nxt2, next_off. rewrite E1. destruct (has fl TH_FIN); rewrite !u32_add_u32, <-?(Z.add_assoc (u32 _)), ?u32_add_u32; apply (f_equal u32); lia. }
  split; [done|]. split; [done|]. rewrite E3. unfold max, SEQ_GT. rewrite seq_diff by lia.
  destruct (Z.ltb_spec 0 (next_off p o len fl - p_snd_max p)); f_equal; lia.
Qed.

Lemma rt_mtu_ok mss rt n : net_ok mss n -> pw (rt_mtu rt) (fun m n' => n' = n /\ mss + 40 <= m) n.
Proof.
  intros [Hi _] m n'. unfold rt_mtu, rd_slot, rd_if, bind, get, ret. simpl.
  destruct (n_ifs n !! _) as [i|] eqn:E; [|done]. intros [= <- <-]. split; [done|]. by eapply Hi.
Qed.

(** What a round leaves to the next one. *)
Definition again (una : Z) (s : conn) (nxt max : Z) : Prop :=
  let p := c_tp s in p_snd_seq p = una /\ nxt = u32 (p_snd_seq p + p_snd_off p) /\ max = u32 (p_snd_seq p + p_snd_max p).

(** The segment that a plan makes. *)
Lemma plan_segment D p o off len fl fl' win win' seq rest :
  pcb_ok D p -> plan p o len fl -> (0 < len -> off = o) ->
  0 <= seq < 2 ^ 32 -> (0 < len -> seq = u32 (p_snd_seq p + o)) -> has fl' TH_SYN = false ->
  rest = (if 0 <? len then take (Z.to_nat (Z.max 0 (Z.min len (q_len (p_snd_q p) - off)))) (drop (Z.to_nat off) (q_bytes (p_snd_q p))) else []) ->
  win' = u16 win ->
  wire sb W (Seg (p_laddr p) (p_faddr p) (p_lport p) (p_fport p) seq (p_rcv_nxt p) (Z.shiftr 20 2) fl' win' rest (20 + len)).
Proof.
  intros (Hst & (L & _) & R & Hw & Hm & Hnx) Pl Ho Hs Hseq Hfl -> ->.
  destruct Pl as (Hl & _ & Hp). unfold tcp_maxsnd in L.
  assert (Hlen : 0 < len -> len <= zlen (q_bytes (p_snd_q p))).
  { destruct Hp as [(_ & _ & _ & ->)|(n & _ & Ho1 & _ & Ho2 & _)]; lia. }
  split; [done|]. split; [done|]. split; [apply u16_bound|]. split; [simpl; lia|]. simpl. change (Z.shiftl (Z.shiftr 20 2) 2) with 20.
  destruct (Z.ltb_spec 0 len) as [Hgt|]; [|left; lia]. right. rewrite (Ho Hgt), (Hseq Hgt).
  destruct Hp as [(_ & _ & _ & ->)|(n & Sn & Ho1 & _ & Ho2 & _)]; [lia|]. pose proof (sends_length _ _ _ _ _ _ _ _ _ Sn) as Hq.
  specialize (Ho2 Hgt). destruct Sn as [Hn Eq Es _ _ _ _ _]. unfold q_len.
  rewrite Z.max_r, Z.min_l by lia. set (q := q_bytes (p_snd_q p)) in *.
  assert (Ed : zlen (take (Z.to_nat len) (drop (Z.to_nat o) q)) = len).
  { unfold zlen in *. rewrite length_take, length_drop. lia. }
  split; [done|]. split; [done|]. simpl. split; [by rewrite Ed|]. rewrite Ed. exists (n + o).
  split; [lia|]. split; [lia|]. split; [by rewrite Es, u32_add_u32, Z.add_assoc|].
  rewrite length_take, length_drop. rewrite Eq at 1. rewrite drop_drop. f_equal; [unfold zlen in *; lia|f_equal; lia].
Qed.

(** The block after the sequence numbers of the segment are noted. *)
Lemma plan_noted D p o len fl (alot : bool) st1 :
  pcb_ok D p -> plan p o len fl -> (alot = true -> q_bytes (p_snd_q p) <> []) ->
  let una := p_snd_seq p in
  let nxt1 := if has fl TH_FIN && has (p_flags p) TF_SENTFIN && (u32 (una + o) =? u32 (una + p_snd_max p)) then u32 (u32 (una + o) - 1) else u32 (una + o) in
  let nxt2 := if has fl TH_FIN then u32 (nxt1 + 1) else nxt1 in
  let nxt3 := u32 (nxt2 + len) in
  let max3 := if SEQ_GT nxt3 (u32 (una + p_snd_max p)) then nxt3 else u32 (una + p_snd_max p) in
  st1 = has fl TH_FIN || sentfin (p_flags p) ->
  0 <= nxt1 < 2 ^ 32 /\ (0 < len -> nxt1 = u32 (una + o)) /\
  snd_ok sb W (p_state p) st1 una (u16 (nxt3 - una)) (u16 (max3 - una)) (q_bytes (p_snd_q p)) /\
  (alot = true -> nxt3 = u32 (una + u16 (nxt3 - una)) /\ max3 = u32 (una + u16 (max3 - una))).
Proof.
  intros (Hst & (L & Lo & _) & _) (Hl & _ & Pl) Ha una nxt1 nxt2 nxt3 max3 ->.
  destruct Pl as [(Eq & H4 & H5 & ->)|(n & Sn & Ho & Hof & Hlo & Hfin)].
  - split; [unfold nxt1; destruct (_ && _); apply u32_bound|]. split; [lia|]. split; [|intros E; by destruct (Ha E)].
    rewrite Eq. apply snd_dead; [done|done|split; [apply Lo|apply u16_bound]].
  - destruct (plan_sends p o len fl n Sn L) as (Sn' & Hno & Hmx & Hb); try done; [lia|].
    destruct (plan_numbers p o len fl Ho Hmx Hno) as (E1 & E3 & Em).
    fold una nxt1 nxt2 nxt3 max3 in E1, E3, Em. rewrite E1, E3, Em.
    assert (Ed : forall i, 0 <= i <= 2921 -> u16 (u32 (una + i) - una) = i).
    { intros i Hi. replace una with (u32 una) at 2 by (unfold una; rewrite (sn_seq _ _ _ _ _ _ _ _ _ Sn); apply u32_idem).
      rewrite <-(Z.add_0_r una) at 2. rewrite u16_diff; lia. }
    split; [apply u32_bound|]. split; [intros Hgt; by rewrite (Hb Hgt)|]. rewrite !Ed by lia. split; [|done].
    split; [done|]. split; [split; [apply Lo|lia]|]. right. by exists n.
Qed.

Lemma pcb_route_set s :
  pw pcb_route (fun _ s' => exists v, s' = mk_conn (lset f_route v (c_tp s)) (c_free s) (c_net s) (c_wakes s)) s.
Proof.
  destruct s as [p fr n w]. assert (E : mk_conn p fr n w = mk_conn (lset f_route (lget f_route p) p) fr n w) by by destruct p.
  unfold pcb_route. do 2 pstep. destruct (lget f_route p) eqn:R; [pstep; eauto|]. do 3 pstep. apply pw_lift_net. do 1 pstep.
  destruct (Route.__route_lookup _ _); repeat pstep; eauto.
Qed.
Lemma tcp_mss_same D s : ok D s -> pw tcp_mss (fun _ s' => s' = s) s.
Proof.
  intros O. unfold tcp_mss. do 2 pstep. destruct (lget f_route _); [|by pstep]. pstep. apply pw_lift_net.
  eapply pw_mono; [apply rt_mtu_ok, O|]. intros m n [-> _]. pstep. by destruct s.
Qed.
Lemma get_data_same o len s :
  pw (if 0 <? len then mbuf_queue_get f_snd_q o len else ret []) (fun data s' => s' = s /\
    data = if 0 <? len then take (Z.to_nat (Z.max 0 (Z.min len (q_len (p_snd_q (c_tp s)) - o)))) (drop (Z.to_nat o) (q_bytes (p_snd_q (c_tp s)))) else []) s.
Proof. destruct (0 <? len); [|by pstep]. by apply pw_queue_get. Qed.

Lemma send_segment_ok D s o off len win fl alot :
  let p := c_tp s in
  ok D s -> plan p o len fl -> (0 < len -> off = o) -> (alot = true -> q_bytes (p_snd_q p) <> []) ->
  pw (send_segment (p_snd_seq p) (u32 (p_snd_seq p + o)) (u32 (p_snd_seq p + p_snd_max p)) off len win fl alot)
    (fun r s' => ok D s' /\ match r with
      | Stop _ => True
      | Again nxt max => again (p_snd_seq p) s' nxt max /\ p_snd_q (c_tp s') = p_snd_q p /\ p_maxseg (c_tp s') = p_maxseg p /\
          alot = true /\ (has fl TH_FIN = false -> nxt = u32 (u32 (p_snd_seq p + o) + len))
      end) s.
Proof.
  intros p O Pl Ho Ha. unfold send_segment. pstep. eapply pw_mono; [apply pcb_route_set|]. intros rt s1 [v E1].
  assert (O1 : ok D s1) by (rewrite E1; destruct O; by split).
  destruct rt as [rt|]; [|pstep; done].
  pstep. apply pw_lift_net. eapply pw_mono; [apply rt_mtu_ok, O1|]. intros mtu n1 [-> Hmtu].
  replace (mk_conn _ _ _ _) with s1 by by destruct s1. rewrite (proj2 (Z.ltb_ge _ _)).
  2: { destruct Pl as (Hl & _). rewrite E1 in Hmtu. simpl in Hmtu. unfold SIZEOF_IPHDR, SIZEOF_TCPHDR. fold p in Hmtu. lia. }
  pstep. apply pw_lift_net. eapply pw_mono; [apply (ifn_mmap_adds (wire sb W))|]. intros m n1 A1.
  apply adds_ok with (D := D) in A1; [|done].
  assert (E2 : exists fr n w, mk_conn (c_tp s1) (c_free s1) n1 (c_wakes s1) = mk_conn (lset f_route v p) fr n w) by (rewrite E1; eauto).
  clear E1. destruct E2 as (fr & n & w & E2). rewrite E2 in *. clear E2 Hmtu O1 n1 s1.
  pstep; [by pstep|]. pstep. eapply pw_mono; [by apply (tcp_mss_same D)|]. intros mss ? ->. do 2 pstep.
  pose proof Pl as (Hl & Hsyn & _). pose proof A1 as [(_ & _ & _ & _ & Hm & _) _].
  change (p_maxseg (c_tp _)) with (p_maxseg p) in Hm. change (plan (lset f_route v p) o len fl) in Pl.
  change (alot = true -> q_bytes (p_snd_q (lset f_route v p)) <> []) in Ha. set (p1 := lset f_route v p) in *.
  change (p_maxseg p) with (p_maxseg p1) in *. change (p_snd_seq p) with (p_snd_seq p1) in *.
  change (p_snd_max p) with (p_snd_max p1). change (p_snd_q p) with (p_snd_q p1). clearbody p1. clear p O H0 s.
  rewrite Hsyn. change (zlen []) with 0. rewrite Z.sub_0_r, (u32_small (p_maxseg p1)), (u32_small len) by lia. rewrite (proj2 (Z.ltb_ge (p_maxseg p1) len)) by lia.
  rewrite orb_false_r, Z.add_0_r.
  set (fl' := if _ && _ then setf fl TH_PSH else fl).
  assert (Hpsh : forall k, Z.land TH_PSH k = 0 -> has fl' k = has fl k).
  { intros k Hk. unfold fl'. destruct (_ && _); [by apply has_setf|done]. }
  rewrite !(Hpsh TH_FIN), !(Hpsh TH_SYN) by done. rewrite Hsyn.
  pose proof (plan_noted D p1 o len fl alot _ (proj1 A1) Pl Ha eq_refl) as (Hn1 & Hn2 & Sn' & Hag). cbv zeta in Hn1, Hn2, Sn', Hag.
  set (nxt1 := if has fl TH_FIN && _ && _ then _ else _) in *.
  set (nxt3 := u32 ((if has fl TH_FIN then _ else _) + len)) in *.
  set (max3 := if SEQ_GT nxt3 _ then _ else _) in *.
  pstep. eapply pw_mono; [apply get_data_same|]. intros data ? [-> Ed]. cbn [c_tp] in Ed.
  set (th := Seg _ _ _ _ _ _ _ _ _ _ _). set (win' := if tcp_maxwin <? _ then _ else _) in *.
  assert (Hth : wire sb W th).
  { apply plan_segment with (D := D) (o := o) (off := off) (fl := fl) (win := win'); try done; [apply A1| | |by rewrite Hpsh].
    - destruct (negb (len =? 0) || _); [exact Hn1|apply u32_bound].
    - intros Hgt. rewrite (proj2 (Z.eqb_neq _ _)) by lia. by apply Hn2. }
  assert (Hnf : has fl TH_FIN = false -> nxt3 = u32 (u32 (p_snd_seq p1 + o) + len)) by (intros F; unfold nxt3, nxt1; by rewrite F).
  clearbody th win' nxt3 max3. clear Hn1 Hn2 Ed data Pl Ho Hpsh fl' Hl nxt1 Hm mss mtu.
  repeat pstep; apply pw_lift_net; (eapply pw_mono; [exact (ip_output_adds _ rt (p_faddr p1) th _ Hth)|]); intros r n' A;
    apply (adds_ok D _ n' A1) in A as [(Hst & Sn & R & Hw & Hm & Hnx) N]; cbn [c_tp c_net c_free c_wakes] in *; rewrite H0 in Sn'; simpl in Sn'.
  all: repeat pstep; (split; [parts; [exact Sn'|exact R]|first [done|destruct alot; [split; [split; [done|by apply Hag]|repeat split; first [done|intros F; first [by apply Hnf|congruence]]]|done]]]).
Qed.

Lemma s32_shift a o : s32 (u32 (a + o) - a) = s32 o.
Proof.
  rewrite <-s32_u32, u32_sub_u32, s32_u32. f_equal. lia.
Qed.
Lemma outflags st : st = 0 \/ 4 <= st <= 10 ->
  has (zget tcp_outflags st) TH_SYN = false /\ (has (zget tcp_outflags st) TH_FIN = true -> 6 <= st <= 8).
Proof.
  intros Hst. assert (st = 0 \/ st = 4 \/ st = 5 \/ st = 6 \/ st = 7 \/ st = 8 \/ st = 9 \/ st = 10) as E by lia.
  repeat destruct E as [->|E]; [..|subst st]; (split; [done|]); vm_compute; try done; split; done.
Qed.
Lemma fin_less fl (b : bool) : has (if b then clrf fl TH_FIN else fl) TH_FIN = negb b && has fl TH_FIN.
Proof.
  destruct b; [|done]. unfold has, clrf. simpl. apply negb_false_iff, Z.eqb_eq. apply Z.bits_inj'. intros j Hj.
  rewrite Z.land_spec, Z.ldiff_spec, Z.bits_0. destruct (Z.testbit TH_FIN j), (Z.testbit fl j); done.
Qed.
Lemma syn_less fl (b : bool) : has (if b then clrf fl TH_FIN else fl) TH_SYN = has fl TH_SYN.
Proof.
  destruct b; [|done]. unfold has, clrf. do 2 f_equal. apply Z.bits_inj'. intros j Hj. rewrite !Z.land_spec, Z.ldiff_spec.
  destruct (decide (j = 0)) as [->|Hn]; [by rewrite !andb_false_r|].
  replace (Z.testbit TH_FIN j) with false by (symmetry; apply (Z.bits_above_log2 1); simpl; lia). by rewrite andb_true_r.
Qed.

(** What a round works with: how much it sends, from where, and its flags. *)
Definition rd_closed (p : tcp_pcb) : bool := (Z.min (q_len (p_snd_q p)) (p_snd_wnd p) - p_snd_off p <? 0) && (p_snd_wnd p =? 0).
Definition rd_from (p : tcp_pcb) : Z := if rd_closed p then 0 else p_snd_off p.
Definition rd_all (p : tcp_pcb) : Z := Z.max 0 (Z.min (q_len (p_snd_q p)) (p_snd_wnd p) - p_snd_off p).
Definition rd_len (p : tcp_pcb) : Z := Z.min (rd_all p) (p_maxseg p).
Definition rd_flags (p : tcp_pcb) : Z :=
  if rd_from p + rd_len p <? q_len (p_snd_q p) then clrf (zget tcp_outflags (p_state p)) TH_FIN else zget tcp_outflags (p_state p).
Definition rd_block (p : tcp_pcb) : tcp_pcb := if rd_closed p then lset f_snd_off 0 (lset f_rxmt_tmr 0 p) else p.

Lemma rd_plan D p : pcb_ok D p -> plan (rd_block p) (rd_from p) (rd_len p) (rd_flags p).
Proof.
  intros (Hst & (L & (Hs & Ho) & Sn) & _ & Hw & Hm & _). destruct (outflags _ Hst) as [Hsyn Hfin].
  assert (Hq : 0 <= q_len (p_snd_q p)) by apply zlen_nonneg.
  assert (Hb : exists off tm, rd_block p = lset f_snd_off off (lset f_rxmt_tmr tm p) /\ 0 <= off <= p_snd_off p).
  { unfold rd_block. destruct (rd_closed p); [exists 0, 0|exists (p_snd_off p), (p_rxmt_tmr p)]; (split; [by destruct p|lia]). }
  destruct Hb as (off & tm & -> & Hoff). unfold plan. simpl.
  split; [unfold rd_len, rd_all; lia|]. split; [unfold rd_flags; by rewrite syn_less|].
  assert (Hf : has (rd_flags p) TH_FIN = true -> 6 <= p_state p <= 8 /\ q_len (p_snd_q p) <= rd_from p + rd_len p).
  { unfold rd_flags. rewrite fin_less. intros [F1%negb_true_iff%Z.ltb_ge F2]%andb_true_iff. split; [by apply Hfin|done]. }
  assert (Hfr : 0 <= rd_from p <= p_snd_off p) by (unfold rd_from; destruct (rd_closed p); lia).
  destruct Sn as [(Eq & H4 & H5)|(n & Sn)].
  - left. repeat (split; [done|]). unfold rd_len, rd_all. unfold q_len. rewrite Eq. change (zlen []) with 0. lia.
  - right. exists n. destruct Sn as [Hn Eq Es St Hof Hmx Hf1 Hf2]. split; [split; try done; try lia; intros F; specialize (Hf2 F); lia|].
    split; [lia|]. split; [intros F; specialize (Hf2 F); lia|]. split; [|intros F; specialize (Hf F); unfold q_len in Hf; lia].
    unfold rd_len, rd_all, rd_from, q_len. destruct (rd_closed p); lia.
Qed.

Lemma rd_block_ok D p fr n w : ok D (mk_conn p fr n w) -> ok D (mk_conn (rd_block p) fr n w).
Proof.
  intros O. unfold rd_block. destruct (rd_closed p); [|done]. destruct O as [(Hst & Sn & R & Hw & Hm & Hnx) N].
  cbn [c_tp c_net] in *. parts; [|exact R]. destruct Sn as (L & (Hs & Ho) & Sn). split; [done|]. split; [split; [done|lia]|].
  destruct Sn as [Sn|(n1 & [Hn Eq Es St Hof Hmx Hf1 Hf2])]; [by left|]. right. exists n1. split; try done; [simpl; lia|].
  intros _. apply zlen_nonneg.
Qed.

Lemma rd_block_same p :
  p_snd_seq (rd_block p) = p_snd_seq p /\ p_snd_max (rd_block p) = p_snd_max p /\ p_snd_q (rd_block p) = p_snd_q p.
Proof. unfold rd_block. by destruct (rd_closed p). Qed.

(** A round that is followed by another one sends a whole segment. *)
Definition advances (p p' : tcp_pcb) : Prop :=
  p_snd_off p' = p_snd_off p + p_maxseg p /\ p_snd_off p' < q_len (p_snd_q p) /\
  p_snd_q p' = p_snd_q p /\ p_maxseg p' = p_maxseg p.

(** A round of the loop. *)
Lemma output_round_ok D s nxt max idle una :
  ok D s -> again una s nxt max ->
  pw (output_round una nxt max idle) (fun r s' => ok D s' /\
    match r with Stop _ => True | Again nxt max => again una s' nxt max /\ advances (c_tp s) (c_tp s') end) s.
Proof.
  intros O (<- & -> & ->). pose proof O as [Hp _]. pose proof (rd_plan D _ Hp) as Pl.
  pose proof Hp as (_ & (L & (Hs & Ho) & _) & _ & _ & Hm & _). unfold output_round. do 2 pstep.
  rewrite s32_shift, s32_small by lia. destruct s as [p fr n w]. cbn [c_tp c_free c_net c_wakes] in *. fold (rd_closed p).
  set (l := Z.min _ _ - _). assert (El : (if l <? 0 then 0 else l) = rd_all p).
  { unfold rd_all. fold l. destruct (Z.ltb_spec l 0); lia. }
  rewrite !El. assert (Ef : (if rd_closed p then p_snd_seq p else u32 (p_snd_seq p + p_snd_off p)) = u32 (p_snd_seq p + rd_from p)).
  { unfold rd_from. destruct (rd_closed p); [|done]. by rewrite Z.add_0_r, u32_small. }
  rewrite !Ef. assert (En : (if p_maxseg p <? rd_all p then p_maxseg p else rd_all p) = rd_len p).
  { unfold rd_len. destruct (Z.ltb_spec (p_maxseg p) (rd_all p)); lia. }
  rewrite !En. assert (Hl : 0 <= rd_len p <= 2920 /\ 0 <= rd_from p < 2 ^ 16 /\ 0 <= q_len (p_snd_q p) <= 2920).
  { unfold rd_len, rd_all, rd_from. pose proof (zlen_nonneg (q_bytes (p_snd_q p))). unfold q_len, tcp_maxsnd in *.
    destruct (rd_closed p); lia. }
  assert (Efl : SEQ_LT (u32 (p_snd_seq p + rd_from p) + rd_len p) (p_snd_seq p + q_len (p_snd_q p)) =
    (rd_from p + rd_len p <? q_len (p_snd_q p))).
  { unfold SEQ_LT. replace (u32 (p_snd_seq p + rd_from p) + rd_len p - (p_snd_seq p + q_len (p_snd_q p))) with
      (u32 (p_snd_seq p + rd_from p) - p_snd_seq p + (rd_len p - q_len (p_snd_q p))) by lia.
    rewrite <-s32_u32, <-u32_add_u32, u32_sub_u32, u32_add_u32, s32_u32, s32_small by lia.
    destruct (Z.ltb_spec (rd_from p + rd_len p) (q_len (p_snd_q p))), (Z.ltb_spec (p_snd_seq p + rd_from p - p_snd_seq p + (rd_len p - q_len (p_snd_q p))) 0); lia || done. }
  rewrite Efl. fold (rd_flags p).
  apply pw_bind, (pw_mono _ (fun _ s' => s' = mk_conn (rd_block p) fr n w)).
  { unfold rd_block. destruct (rd_closed p); repeat pstep; done. }
  intros _ ? ->. do 2 pstep. pstep; [|pstep; split; [by apply rd_block_ok|done]].
  destruct (rd_block_same p) as (E1 & E2 & E3).
  set (s1 := mk_conn (rd_block p) fr n w). rewrite <-E1, <-E2.
  assert (Hcl : 0 < rd_all p -> rd_closed p = false).
  { intros Hgt. destruct (rd_closed p) eqn:Cl; [|done]. unfold rd_closed in Cl. fold l in Cl.
    apply andb_true_iff in Cl as [Cl%Z.ltb_lt _]. unfold rd_all in Hgt. fold l in Hgt. lia. }
  eapply pw_mono; [apply (send_segment_ok D s1 (rd_from p)); [by apply rd_block_ok|done|..]|].
  - intros Hgt. unfold rd_from. rewrite Hcl; [done|]. unfold rd_len in Hgt. lia.
  - intros Al%Z.ltb_lt. simpl. rewrite E3. intros Eq. unfold rd_all, q_len in Al. rewrite Eq in Al. change (zlen []) with 0 in Al. lia.
  - intros [r|nxt max] s' [O' Ag]; [done|]. split; [done|]. destruct Ag as (Ag & Eq & Em & Al%Z.ltb_lt & Enx). split; [done|].
    assert (Er : rd_len p = p_maxseg p) by (unfold rd_len; lia).
    assert (Eo : rd_from p = p_snd_off p) by (unfold rd_from; rewrite Hcl by lia; done).
    assert (Hb : p_snd_off p + p_maxseg p < q_len (p_snd_q p)) by (unfold rd_all in Al; lia).
    rewrite Eo, Er in Enx. specialize (Enx ltac:(unfold rd_flags; rewrite Eo, Er, (proj2 (Z.ltb_lt _ _) Hb); by rewrite (fin_less _ true))).
    destruct Ag as (Es & En' & _). rewrite Es in En'. change (c_tp s1) with (rd_block p) in *. rewrite E1 in *.
    pose proof (proj2 (snd_range _ _ _ _ _ _ (proj1 (proj2 (proj1 O'))))) as Ho'.
    assert (Eoff : p_snd_off (c_tp s') = p_snd_off p + p_maxseg p).
    { apply (u32_inj (p_snd_seq p)); [lia|]. rewrite <-En', Enx, u32_add_u32. f_equal. lia. }
    split; [done|]. split; [lia|]. split; [congruence|]. rewrite Em. unfold rd_block. by destruct (rd_closed p).
Qed.

Lemma output_loop_ok D fuel nxt max idle una s :
  ok D s -> again una s nxt max -> pw (output_loop fuel una nxt max idle) (fun _ s' => ok D s') s.
Proof.
  revert nxt max s. induction fuel as [|fuel IH]; intros nxt max s O Ag; [done|]. simpl. pstep.
  eapply pw_mono; [by apply output_round_ok|]. intros [r|nxt' max'] s' [O' Ag']; [by pstep|apply IH; [done|apply Ag']].
Qed.
Lemma tcp_output_ok D s : ok D s -> pw tcp_output (fun _ s' => ok D s') s.
Proof. intros O. unfold tcp_output, output_with. do 2 pstep. by apply output_loop_ok. Qed.

Lemma lift_query_ok D s : ok D s -> pw (lift_net etharp_query_pending) (fun _ s' => ok D s') s.
Proof.
  intros O. apply pw_lift_net. eapply pw_mono; [apply (query_pending_adds (wire sb W))|]. intros r n' A. by apply adds_ok.
Qed.
Lemma output_block_ok D s : ok D s -> pw output_block (fun _ s' => ok D s') s.
Proof.
  intros O. unfold output_block. pstep. eapply pw_mono; [by apply tcp_output_ok|]. intros r s' O'. pstep.
  - pstep. eapply pw_mono; [by apply lift_query_ok|]. intros. by pstep.
  - clear O. pose proof O' as [(Hst & Sn & R & Hw & Hm & Hnx) N]. repeat pstep. by parts.
Qed.

(** ** The calls and the timers *)

Lemma recv_try_ok D len s :
  ok D s -> pw (recv_try len) (fun r s' => match r with RWait => ok D s' | RRet _ data _ => ok (D ++ data) s' end) s.
Proof.
  intros O. pose proof O as [(Hst & Sn & R & Hw & Hm & Hnx) N]. unfold recv_try. do 2 pstep.
  pstep; [pstep; by rewrite app_nil_r|]. pstep; [pstep; by rewrite app_nil_r|]. pstep.
  { pstep. destruct (p_state (c_tp s) =? TCPS_CLOSE_WAIT); [by rewrite app_nil_r|done]. }
  pstep. apply pw_queue_drop. intros o fr Hl. cbv zeta. cbn [f_rcv_q lget].
  set (k := Z.to_nat _). set (q := q_bytes (p_rcv_q (c_tp s))).
  assert (R' : rcv_ok rb S (D ++ take k q) (p_state (c_tp s)) (p_rcv_nxt (c_tp s)) (drop k q)).
  { destruct R as (L & P & E). fold q in L, P, E. unfold rcv_ok. rewrite <-app_assoc, take_drop.
    split; [|done]. etrans; [|exact L]. unfold zlen. rewrite length_drop. lia. }
  repeat pstep; parts; first [exact Sn | exact R'].
Qed.

Lemma snd_close sf seq off mx q : snd_ok sb W 4 sf seq off mx q -> snd_ok sb W 6 sf seq off mx q.
Proof.
  intros (L & Lo & Sn). split; [done|]. split; [done|]. destruct Sn as [(_ & H4 & _)|(n & [Hn Eq Es St Hof Hmx Hf1 Hf2])]; [done|].
  right. exists n. simpl in Hmx. split; try done; simpl; lia.
Qed.
Lemma close_active_ok D s : ok D s -> pw close_active (fun _ s' => ok D s') s.
Proof.
  intros O. pose proof O as [(Hst & Sn & R & Hw & Hm & Hnx) N]. unfold close_active.
  repeat pstep; first [exact O | parts; [first [sending Sn|apply snd_close; destruct H0; [lia|congruence]]|receiving R]].
Qed.

Lemma fast_tmr_ok D s : ok D s -> pw fast_tmr (fun _ s' => ok D s') s.
Proof.
  intros O. pose proof O as [(Hst & Sn & R & Hw & Hm & Hnx) N]. unfold fast_tmr.
  repeat pstep; first [exact O | by parts].
Qed.

Lemma rxmt_tmr_ok D s : ok D s -> pw rxmt_tmr (fun _ s' => ok D s') s.
Proof.
  intros O. pose proof O as [(Hst & Sn & R & Hw & Hm & Hnx) N]. unfold rxmt_tmr.
  repeat pstep; first [exact O | by parts | parts; [|exact R]].
  destruct Sn as (L & (Hs & Ho) & Sn). split; [done|]. split; [split; [done|lia]|].
  destruct Sn as [Sn|(n & [Hn Eq Es St Hof Hmx Hf1 Hf2])]; [by left|]. right. exists n.
  split; try done; [lia|]. intros _. apply zlen_nonneg.
Qed.

Lemma timed_out_ok D s : ok D s -> pw timed_out (fun _ s' => ok D s') s.
Proof.
  intros [(Hst & Sn & R & Hw & Hm & Hnx) N]. unfold timed_out. repeat pstep. parts; [sending Sn|receiving R].
Qed.
Lemma tcp_keepalive_ok D s : ok D s -> pw tcp_keepalive (fun _ s' => ok D s') s.
Proof.
  intros O. pose proof O as [(_ & _ & _ & _ & _ & Hnx) _]. unfold tcp_keepalive. do 3 pstep. apply pw_lift_net. pstep.
  destruct (Route.__route_lookup _ _); [|pstep; by destruct s]. pstep. apply pw_lift_net.
  eapply pw_mono; [apply (ifn_mmap_adds (wire sb W))|]. intros m n1 A1. apply (adds_ok D) in A1; [|by destruct s].
  pstep; [done|]. cbn [c_tp c_net c_free c_wakes] in *. pstep. apply pw_lift_net. eapply pw_mono; [apply (ip_output_adds (wire sb W))|].
  - split; [apply u32_bound|]. split; [exact Hnx|]. split; [apply u16_bound|]. split; [done|]. by left.
  - intros r n' A. pstep. by apply (adds_ok D _ n' A1).
Qed.

Lemma snd_late st st' sf seq off mx q : snd_ok sb W st sf seq off mx q -> 8 <= st -> 8 <= st' -> snd_ok sb W st' sf seq off mx q.
Proof.
  intros (L & Lo & Sn) H1 H2. split; [done|]. split; [done|]. destruct Sn as [(-> & _ & _)|(n & [])]; [|lia]. left. split; [done|lia].
Qed.
Lemma idle_tmr_ok D s : ok D s -> pw idle_tmr (fun _ s' => ok D s') s.
Proof.
  intros O. pose proof O as [(Hst & Sn & R & Hw & Hm & Hnx) N]. unfold idle_tmr. do 2 pstep.
  pstep; [by pstep|]. do 2 pstep.
  set (s1 := mk_conn _ _ _ _). assert (O1 : ok D s1) by by parts.
  pstep; [by pstep|]. pstep; [by apply timed_out_ok|]. pstep; cycle 1.
  - unfold s1. repeat pstep; first [exact O1 | parts; [eapply snd_late; [exact Sn|lia|lia]|receiving R]].
  - pstep; [unfold s1; repeat pstep; parts; [exact Sn|exact R]|]. unfold s1. do 2 pstep.
    set (s2 := mk_conn _ _ _ _). assert (O2 : ok D s2) by by parts. pstep; [|by apply timed_out_ok].
    pstep. apply (pw_mono _ (fun _ s3 => ok D s3)).
    + pstep; [|done]. pstep. eapply pw_mono; [by apply tcp_keepalive_ok|]. intros. by pstep.
    + clear. intros _ s3 [(Hst & Sn & R & Hw & Hm & Hnx) N]. repeat pstep. by parts.
Qed.
End connection.
