(* ===== verification/TcpNet.v ===== *)
(** * TCP: two ends of a connection

    Two blocks of [Tcp] that send each other segments over a network that may
    lose them, send them twice and out of order. The bytes that a reader gets
    are the beginning of those that the other end wrote. *)

From S2P Require Import Prelude Mbuf MbufOps MbufThms Route InChksum Ip Tcp TcpSafe.
From stdpp Require Import list relations.
Import InChksum.InChksum Ip.Ip Tcp.Tcp.
Open Scope Z_scope.
Open Scope c_scope.

(** ** More is written *)

Lemma wire_more b W W' th : W `prefix_of` W' -> wire b W th -> wire b W' th.
Proof.
  intros [t ->] (H1 & H2 & H3 & H4 & H5). repeat (split; [done|]).
  destruct H5 as [?|(Hs & Ho & Hl & k & Hk & Hkl & Ek & Et)]; [by left|]. right. repeat (split; [done|]).
  exists k. split; [done|]. split; [rewrite zlen_app; pose proof (zlen_nonneg t); lia|]. split; [done|].
  rewrite Et at 1. symmetry. unfold zlen in *. rewrite drop_app_le by lia.
  rewrite take_app_le; [done|]. rewrite length_drop. lia.
Qed.
Lemma net_more b W W' mss n : W `prefix_of` W' -> net_ok b W mss n -> net_ok b W' mss n.
Proof.
  intros P [Hi Ho]. split; [done|]. eapply Forall_impl; [exact Ho|]. intros [|hw th]; [done|]. by apply wire_more.
Qed.
Lemma snd_more b W w st sf seq off mx q :
  snd_ok b W st sf seq off mx q -> st = 4 -> zlen q + zlen w <= tcp_maxsnd ->
  snd_ok b (W ++ w) st sf seq off mx (q ++ w).
Proof.
  intros (L & Lo & Sn) St Hl. split; [by rewrite zlen_app|]. split; [done|].
  destruct Sn as [(_ & H4 & _)|(n & [Hn Eq Es Hst Hof Hmx Hf1 Hf2])]; [done|]. right. exists n. subst st. simpl in Hmx.
  pose proof (zlen_nonneg w). assert (sf = false) as -> by (destruct sf; [specialize (Hf1 eq_refl); lia|done]).
  split; try done; rewrite ?zlen_app; simpl; try lia.
  rewrite Eq, drop_app_le; [done|]. unfold zlen in *. lia.
Qed.

Section more.
Context `{MbufConfig}.
Context (a b : Z) (S : list Z).

(** The peer wrote more. *)
Lemma ok_peer_more W S' D s : S `prefix_of` S' -> ok a W b S D s -> ok a W b S' D s.
Proof.
  intros P [(Hst & Sn & (L & R & E) & Hrest) N]. split; [|done]. split; [done|]. split; [done|]. split; [|done].
  split; [done|]. split; [by etrans|done].
Qed.

(** How much of [buf] a call took. *)
Definition taken (buf : list Z) (r : sending) : list Z :=
  match r with SWait rest _ => take (length buf - length rest) buf | SDone => buf | SFail => [] end.

Lemma taken_self (buf : list Z) : take (length buf - length buf) buf = [].
Proof. by rewrite Nat.sub_diag. Qed.
Lemma taken_rest (t rest : list Z) : take (length (t ++ rest) - length rest) (t ++ rest) = t.
Proof. rewrite length_app, Nat.add_sub. apply take_app_length. Qed.

Lemma send_loop_ok D fuel buf s W :
  ok a W b S D s ->
  pw (send_loop fuel buf) (fun r s' => ok a (W ++ taken buf r) b S D s' /\
    (r = SFail -> p_state (c_tp s) <> TCPS_ESTABLISHED) /\
    match r with SWait rest _ => exists t, buf = t ++ rest | _ => True end) s.
Proof.
  revert buf s W. induction fuel as [|fuel IH]; intros buf s W O; [done|]. simpl. do 2 pstep. pstep.
  { pstep. apply negb_true_iff, Z.eqb_neq in H0.
    destruct (_ =? TCPS_SYN_RCVD); simpl; rewrite ?taken_self, app_nil_r; (split; [done|split; [done|]]); [by exists []|done]. }
  apply negb_false_iff, Z.eqb_eq in H0. pstep.
  { pstep. apply Z.eqb_eq, zlen_zero in H1. subst buf. simpl. by rewrite app_nil_r. }
  pose proof O as [(Hst & Sn & R & Hw & Hm & Hnx) N]. pstep.
  { do 3 pstep. simpl. rewrite taken_self, app_nil_r. split; [|split; [done|by exists []]].
    split; [|done]. split; [done|]. simpl. autorewrite with tcp. done. }
  apply Z.leb_gt in H2. pstep. apply pw_queue_add. intros n fr Hn Hl. cbn [f_snd_q lget].
  set (w := take (Z.to_nat n) buf). assert (Hwl : zlen w = n) by (apply zlen_take; pose proof (zlen_nonneg buf); lia).
  set (s1 := mk_conn _ _ _ _). assert (O1 : ok a (W ++ w) b S D s1).
  { split; [|apply net_more with (W := W); [by exists w|done]]. split; [done|]. simpl. split; [|done].
    apply snd_more; [done|done|]. unfold q_len in *. rewrite Hwl. lia. }
  pstep.
  - pstep. apply Z.eqb_eq in H3. assert (E : w = []) by by apply zlen_zero; rewrite Hwl.
    rewrite E in O1. simpl. rewrite taken_self. rewrite app_nil_r in *. split; [done|split; [done|by exists []]].
  - eapply pw_mono; [apply (IH _ s1 _ O1)|]. intros r s' (O' & Hf & Hr). rewrite <-app_assoc in O'.
    assert (Eb : buf = w ++ drop (Z.to_nat n) buf) by (unfold w; by rewrite take_drop).
    destruct r as [rest b0| |]; [| |by destruct (Hf eq_refl)].
    + destruct Hr as [t Et]. rewrite Et in O', Eb. simpl in *. rewrite taken_rest in O'. rewrite app_assoc in Eb.
      rewrite Eb, taken_rest. split; [done|split; [done|by exists (w ++ t)]].
    + simpl in *. by rewrite <-Eb in O'.
Qed.
Lemma send_end_ok D len nowait s W : ok a W b S D s -> pw (send_end len nowait) (fun _ s' => ok a W b S D s') s.
Proof.
  intros O. pose proof O as [(Hst & Sn & R & Hw & Hm & Hnx) N]. unfold send_end. do 2 pstep. pstep; [pstep|]; repeat pstep; try done.
  split; [|done]. split; [done|]. simpl. by autorewrite with tcp.
Qed.
End more.

(** ** Two hosts *)
Module TcpNet.
Section net.
Context `{MbufConfig}.

(** An end of the connection, as long as its block is not freed; what was
    read from it and what was written to it. *)
Record host := Host { h_conn : conn; h_live : bool; h_read : list Z; h_written : list Z }.

(** What comes to a host: a segment that its peer sent at any time before, or
    one without data from anywhere. *)
Definition dataless (th : segment) : Prop :=
  0 <= th_seq th < 2 ^ 32 /\ 0 <= th_ack th < 2 ^ 32 /\ 0 <= th_win th < 2 ^ 16 /\ 0 <= th_len th < 2 ^ 16 /\
  th_len th <= Z.shiftl (th_off th) 2.
Definition arrives (peer : host) (th : segment) : Prop :=
  (exists hw, In (IpFrame hw th) (n_out (c_net (h_conn peer)))) \/ dataless th.

(** What a host does. The calls of [tcp_send] and [tcp_recv] that wait go on
    with another such step. *)
Inductive act (peer : host) : host -> host -> Prop :=
| act_input s rd wr th r f s' :
    arrives peer th -> input_block th s = Some ((r, f), s') ->
    act peer (Host s true rd wr) (Host s' (match f with Frees => false | _ => true end) rd wr)
| act_output s rd wr b s' :
    output_block s = Some (b, s') -> act peer (Host s true rd wr) (Host s' true rd wr)
| act_recv s rd wr len r s' :
    recv_try len s = Some (r, s') ->
    act peer (Host s true rd wr) (Host s' true (rd ++ match r with RRet _ data _ => data | RWait => [] end) wr)
| act_send s rd wr buf r s' :
    send_loop (S (length buf)) buf s = Some (r, s') ->
    act peer (Host s true rd wr) (Host s' true rd (wr ++ taken buf r))
| act_send_end s rd wr len nowait b s' :
    send_end len nowait s = Some (b, s') -> act peer (Host s true rd wr) (Host s' true rd wr)
| act_close s rd wr b s' :
    close_active s = Some (b, s') -> act peer (Host s true rd wr) (Host s' true rd wr)
| act_fast s rd wr b s' :
    fast_tmr s = Some (b, s') -> act peer (Host s true rd wr) (Host s' true rd wr)
| act_rxmt s rd wr b s' :
    rxmt_tmr s = Some (b, s') -> act peer (Host s true rd wr) (Host s' true rd wr)
| act_idle s rd wr i s' :
    idle_tmr s = Some (i, s') ->
    act peer (Host s true rd wr) (Host s' (match i with IFree => false | _ => true end) rd wr)
| act_elsewhere s rd wr fr n :
    (* other connections, other protocols and the driver *)
    n_out n = n_out (c_net s) ->
    (forall i ifn, n_ifs n !! i = Some ifn -> p_maxseg (c_tp s) + 40 <= if_mtu ifn) ->
    act peer (Host s true rd wr) (Host (mk_conn (c_tp s) fr n (c_wakes s)) true rd wr).

Inductive step : host * host -> host * host -> Prop :=
| step_fst A A' B : act B A A' -> step (A, B) (A', B)
| step_snd A B B' : act A B B' -> step (A, B) (A, B').

(** A block when the connection is established: the queues are empty, and the
    numbers are those that the peer has. *)
Definition fresh (s : conn) (snd rcv : Z) : Prop :=
  let p := c_tp s in
  p_state p = TCPS_ESTABLISHED /\ has (p_flags p) TF_SENTFIN = false /\
  p_snd_seq p = snd /\ p_snd_off p = 0 /\ p_snd_max p = 0 /\ p_rcv_nxt p = rcv /\
  q_bytes (p_snd_q p) = [] /\ q_bytes (p_rcv_q p) = [] /\
  0 <= p_snd_wnd p < 2 ^ 16 /\ 0 <= p_maxseg p < 2 ^ 16 /\
  n_out (c_net s) = [] /\ (forall i ifn, n_ifs (c_net s) !! i = Some ifn -> p_maxseg p + 40 <= if_mtu ifn).
Definition established (w : host * host) : Prop :=
  exists a b, 0 <= a < 2 ^ 32 /\ 0 <= b < 2 ^ 32 /\
    h_read w.1 = [] /\ h_written w.1 = [] /\ h_read w.2 = [] /\ h_written w.2 = [] /\
    fresh (h_conn w.1) a b /\ fresh (h_conn w.2) b a.

(** ** What is kept *)
Definition host_ok (a b : Z) (A B : host) : Prop := ok a (h_written A) b (h_written B) (h_read A) (h_conn A).
Definition inv (a b : Z) (w : host * host) : Prop := host_ok a b w.1 w.2 /\ host_ok b a w.2 w.1.

Lemma fresh_ok s a b : fresh s a b -> 0 <= a < 2 ^ 32 -> 0 <= b < 2 ^ 32 -> ok a [] b [] [] s.
Proof.
  intros (St & Sf & Es & Eo & Em & En & Eq & Er & Hw & Hm & Eout & Hi) Ha Hb.
  rewrite sentfin_has in Sf. split; [|split; [done|by rewrite Eout]]. unfold pcb_ok. rewrite St, Sf, Es, Eo, Em, En, Eq, Er.
  split; [right; done|]. split; [|split; [|done]].
  - split; [done|]. split; [done|]. right. exists 0. split; try done. by rewrite Z.add_0_r, u32_small.
  - split; [done|]. split; [done|]. intros _. by rewrite Z.add_0_r, u32_small.
Qed.

Lemma arrives_wire a b A B th : host_ok b a B A -> arrives B th -> wire b (h_written B) th.
Proof.
  intros [_ [_ F]] [[hw Hin]|(H1 & H2 & H3 & H4 & H5)]; [|by repeat (split; [done|]); left].
  rewrite Forall_forall in F. apply (F (IpFrame hw th)). by apply list_elem_of_In.
Qed.

Lemma act_ok a b A A' B :
  host_ok a b A B -> host_ok b a B A -> zlen (h_written B) < 2 ^ 31 -> act B A A' ->
  host_ok a b A' B /\ h_written A `prefix_of` h_written A'.
Proof.
  intros OA OB Hs Hact. pose proof (arrives_wire a b A B) as Hw. unfold host_ok in *.
  destruct Hact as [s rd wr th r f s' Ha E|s rd wr v s' E|s rd wr len r s' E|s rd wr buf r s' E|s rd wr len nw v s' E|
    s rd wr v s' E|s rd wr v s' E|s rd wr v s' E|s rd wr v s' E|s rd wr fr n Eo Hi]; cbn [h_conn h_live h_read h_written] in *;
    (split; [|first [done|by apply prefix_app_r]]).
  - exact (input_block_ok _ _ _ _ Hs _ _ _ OA (Hw th OB Ha) _ _ E).
  - by eapply output_block_ok.
  - eapply recv_try_ok in OA as O. apply O in E. clear O. rename E into O. destruct r; [by rewrite app_nil_r|done].
  - eapply send_loop_ok in OA as O. by apply O in E as [? _].
  - by eapply send_end_ok.
  - by eapply close_active_ok.
  - by eapply fast_tmr_ok.
  - by eapply rxmt_tmr_ok.
  - by eapply idle_tmr_ok.
  - destruct OA as [Hp [_ F]]. split; [done|]. split; [done|]. simpl. by rewrite Eo.
Qed.
Lemma host_peer a b A B B' : host_ok a b A B -> h_written B `prefix_of` h_written B' -> host_ok a b A B'.
Proof. intros O P. by apply (ok_peer_more _ _ (h_written B)). Qed.

Lemma net_step_inv a b w w' :
  inv a b w -> step w w' -> zlen (h_written w.1) < 2 ^ 31 -> zlen (h_written w.2) < 2 ^ 31 ->
  inv a b w' /\ h_written w.1 `prefix_of` h_written w'.1 /\ h_written w.2 `prefix_of` h_written w'.2.
Proof.
  intros [OA OB] St HA HB. destruct St as [A A' B Hact|A B B' Hact]; simpl in *.
  - destruct (act_ok a b A A' B OA OB HB Hact) as [OA' P]. split; [|done]. split; [done|]. by apply (host_peer _ _ _ A).
  - destruct (act_ok b a B B' A OB OA HA Hact) as [OB' P]. split; [|done]. split; [|done]. by apply (host_peer _ _ _ B).
Qed.

Lemma act_written A A' B : act B A A' -> h_written A `prefix_of` h_written A'.
Proof. destruct 1; simpl; first [done|by apply prefix_app_r]. Qed.
Lemma steps_inv a b w w' :
  inv a b w -> rtc step w w' -> zlen (h_written w'.1) < 2 ^ 31 -> zlen (h_written w'.2) < 2 ^ 31 -> inv a b w'.
Proof.
  intros I R. revert I. induction R as [w|w w1 w2 St R IH]; intros I H1 H2; [done|].
  assert (P : h_written w1.1 `prefix_of` h_written w2.1 /\ h_written w1.2 `prefix_of` h_written w2.2).
  { clear -R. induction R as [|x y z St _ [P1 P2]]; [done|]. destruct St as [A A' B Hact|A B B' Hact]; simpl in *;
      apply act_written in Hact; split; first [done|by etrans]. }
  assert (Pw : h_written w.1 `prefix_of` h_written w1.1 /\ h_written w.2 `prefix_of` h_written w1.2).
  { destruct St as [A A' B Hact|A B B' Hact]; simpl; apply act_written in Hact; done. }
  destruct P as [Q1%prefix_length Q2%prefix_length], Pw as [P1%prefix_length P2%prefix_length]. unfold zlen in *.
  apply IH; [|done..]. apply (net_step_inv a b w w1 I St); unfold zlen; lia.
Qed.

(** C5. Whatever the network loses, repeats or reorders, and whatever comes
    from elsewhere without data, what a reader gets is the beginning of what
    the other end wrote, in its order: as long as fewer than 2^31 bytes are
    written, and the segments fit the interfaces. *)
Theorem stream_in_order (w w' : host * host) :
  established w -> rtc step w w' ->
  zlen (h_written w'.1) < 2 ^ 31 -> zlen (h_written w'.2) < 2 ^ 31 ->
  h_read w'.2 `prefix_of` h_written w'.1 /\ h_read w'.1 `prefix_of` h_written w'.2.
Proof.
  intros (a & b & Ha & Hb & R1 & W1 & R2 & W2 & F1 & F2) R L1 L2.
  assert (I : inv a b w).
  { split; unfold host_ok; rewrite ?R1, ?W1, ?R2, ?W2; by apply fresh_ok. }
  apply steps_inv with (w' := w') in I as [[(_ & _ & (_ & P1 & _) & _) _] [(_ & _ & (_ & P2 & _) & _) _]]; try done.
  split; (etrans; [|first [exact P1|exact P2]]); by apply prefix_app_r.
Qed.
End net.

(** ** A run

    A host writes six bytes, which go as two segments; the second one comes
    first, then the first one, and the second one once more. *)
Definition demo_net (me peer : Z) : nets segment :=
  mk_nets [Route.mk_route 0 0 0 1] {[1 := mk_ifnet 1500 me 0x00ffffff (replicate 6 me)]}
    (etharp_add peer (replicate 6 peer) etharp_start) [] [].
Definition demo_conn (me peer snd rcv : Z) : conn :=
  mk_conn (mk_pcb peer me 80 1024 0 TCPS_ESTABLISHED 1 0 0 0 4 None snd 0 0 2920 2920 rcv q_empty q_empty [] 0 0)
    10 (demo_net me peer) 0.
Definition after {A} (c : C A) (s : conn) : conn := match c s with Some (_, s') => s' | None => s end.
Definition nth_segment (s : conn) (i : nat) : segment :=
  match n_out (c_net s) !! i with Some (IpFrame _ th) => th | _ => Seg 0 0 0 0 0 0 0 0 0 [] 0 end.
Definition demo_bytes : list Z := [1; 2; 3; 4; 5; 6].
Definition demo_w : host * host :=
  (Host (demo_conn 1 2 (2 ^ 32 - 3) 500) true [] [], Host (demo_conn 2 1 500 (2 ^ 32 - 3)) true [] []).
Definition writes (buf : list Z) (w : host * host) : host * host :=
  (Host (after (send_loop (S (length buf)) buf) (h_conn w.1)) true (h_read w.1) (h_written w.1 ++ taken buf SDone), w.2).
Definition outputs (w : host * host) : host * host :=
  (Host (after output_block (h_conn w.1)) true (h_read w.1) (h_written w.1), w.2).
Definition deliver (i : nat) (w : host * host) : host * host :=
  (w.1, Host (after (input_block (nth_segment (h_conn w.1) i)) (h_conn w.2)) true (h_read w.2) (h_written w.2)).
Definition reads (len n : Z) (data : list Z) (sched : bool) (w : host * host) : host * host :=
  (w.1, Host (after (recv_try len) (h_conn w.2)) true (h_read w.2 ++ match RRet n data sched with RRet _ data _ => data | RWait => [] end)
    (h_written w.2)).
Definition demo_w1 := writes demo_bytes demo_w.
Definition demo_w2 := outputs demo_w1.
Definition demo_w3 := deliver 1 demo_w2.
Definition demo_w4 := deliver 0 demo_w3.
Definition demo_w5 := deliver 1 demo_w4.
Definition demo_w6 := reads 100 6 demo_bytes true demo_w5.

Lemma after_some {A} (c : C A) s r : option_map fst (c s) = Some r -> c s = Some (r, after c s).
Proof. unfold after. destruct (c s) as [[]|]; [|done]. by intros [= ->]. Qed.
Lemma nth_arrives (w : host * host) i : (exists hw th, n_out (c_net (h_conn w.1)) !! i = Some (IpFrame hw th)) -> arrives w.1 (nth_segment (h_conn w.1) i).
Proof.
  intros (hw & th & E). left. exists hw. unfold nth_segment. rewrite E. apply list_elem_of_In. by eapply list_elem_of_lookup_2.
Qed.
Lemma deliver_step i (w : host * host) r :
  (exists hw th, n_out (c_net (h_conn w.1)) !! i = Some (IpFrame hw th)) -> h_live w.2 = true ->
  option_map fst (input_block (nth_segment (h_conn w.1) i) (h_conn w.2)) = Some r -> r.2 <> Frees -> step w (deliver i w).
Proof.
  intros Hi L E Hr. pose proof (nth_arrives w i Hi) as Ha. destruct w as [A [s l rd wr]], r as [r f]. simpl in *. subst.
  apply after_some in E. apply step_snd. eapply act_input with (f := f) in E; [|exact Ha]. destruct f; done.
Qed.
Lemma writes_step buf (w : host * host) :
  h_live w.1 = true -> option_map fst (send_loop (S (length buf)) buf (h_conn w.1)) = Some SDone -> step w (writes buf w).
Proof.
  intros L E. destruct w as [[s l rd wr] B]. cbn [fst snd h_live h_conn] in *. subst. apply after_some in E.
  apply step_fst. exact (act_send B s rd wr buf SDone _ E).
Qed.
Lemma outputs_step (w : host * host) r :
  h_live w.1 = true -> option_map fst (output_block (h_conn w.1)) = Some r -> step w (outputs w).
Proof.
  intros L E. destruct w as [[s l rd wr] B]. cbn [fst snd h_live h_conn] in *. subst. apply after_some in E.
  apply step_fst. exact (act_output B s rd wr _ _ E).
Qed.
Lemma reads_step len n data sched (w : host * host) :
  h_live w.2 = true -> option_map fst (recv_try len (h_conn w.2)) = Some (RRet n data sched) -> step w (reads len n data sched w).
Proof.
  intros L E. destruct w as [A [s l rd wr]]. cbn [fst snd h_live h_conn] in *. subst. apply after_some in E.
  apply step_snd. exact (act_recv A s rd wr len _ _ E).
Qed.

Lemma demo_start : established demo_w.
Proof.
  exists (2 ^ 32 - 3), 500. repeat (split; [first [done|reflexivity]|]). split; (do 9 (split; [done|])); (split; [done|]);
    (split; [done|]); intros i ifn; simpl; rewrite lookup_singleton_Some; intros [_ <-]; simpl; lia.
Qed.
Lemma demo_run : rtc step demo_w demo_w6.
Proof.
  apply rtc_l with demo_w1; [by apply writes_step; [|vm_compute]|].
  apply rtc_l with demo_w2; [by eapply outputs_step; [|vm_compute]|].
  apply rtc_l with demo_w3; [eapply deliver_step; [vm_compute; by do 2 eexists|done|by vm_compute|done]|].
  apply rtc_l with demo_w4; [eapply deliver_step; [vm_compute; by do 2 eexists|done|by vm_compute|done]|].
  apply rtc_l with demo_w5; [eapply deliver_step; [vm_compute; by do 2 eexists|done|by vm_compute|done]|].
  apply rtc_l with demo_w6; [by apply reads_step; [|vm_compute]|done].
Qed.
Lemma stream_in_order_witness :
  exists w w' : host * host, established w /\ rtc step w w' /\ h_read w'.2 = demo_bytes /\ h_read w'.2 `prefix_of` h_written w'.1.
Proof.
  exists demo_w, demo_w6. split; [exact demo_start|]. split; [exact demo_run|]. split; [reflexivity|].
  apply (stream_in_order demo_w demo_w6 demo_start demo_run); vm_compute; reflexivity.
Defined.
End TcpNet.
