(* ===== verification/TcpOut.v ===== *)
(** * TCP: the output comes to an end

    [tcp_output] sends segment after segment while there is more to send than
    one segment takes. With a segment size that is not zero it ends; with zero,
    which the option of a SYN can set, it does not. *)

From S2P Require Import Prelude Mbuf MbufOps MbufThms Route InChksum Ip Tcp TcpSafe TcpNet.
From stdpp Require Import list.
Import InChksum.InChksum Ip.Ip Tcp.Tcp.
Open Scope Z_scope.
Open Scope c_scope.

(** ** Total correctness

    [tw c Q s]: [c] ends from [s], and [Q] holds then. *)
Definition tw {S A} (c : M S A) (Q : A -> S -> Prop) (s : S) : Prop := exists a s', c s = Some (a, s') /\ Q a s'.

Section tw.
Context {S : Type}.
Lemma tw_ret {A} (a : A) (Q : A -> S -> Prop) s : Q a s -> tw (ret a) Q s.
Proof. intros HQ. by exists a, s. Qed.
Lemma tw_bind {A B} (c : M S A) (k : A -> M S B) (Q : B -> S -> Prop) s :
  tw c (fun a => tw (k a) Q) s -> tw (bind c k) Q s.
Proof. intros (a & s1 & E & b & s2 & E2 & HQ). exists b, s2. unfold bind. by rewrite E. Qed.
Lemma tw_mono {A} (c : M S A) (P Q : A -> S -> Prop) s : tw c P s -> (forall a s', P a s' -> Q a s') -> tw c Q s.
Proof. intros (a & s' & E & HP) HPQ. exists a, s'. split; [done|]. by apply HPQ. Qed.
Lemma tw_both {A} (c : M S A) (P Q : A -> S -> Prop) s : tw c P s -> pw c Q s -> tw c (fun a s' => P a s' /\ Q a s') s.
Proof. intros (a & s' & E & HP) HQ. exists a, s'. split; [done|]. split; [done|by apply HQ]. Qed.
Lemma tw_get {A} (f : lens S A) (Q : A -> S -> Prop) s : Q (lget f s) s -> tw (get f) Q s.
Proof. intros HQ. by exists (lget f s), s. Qed.
Lemma tw_put {A} (f : lens S A) v (Q : unit -> S -> Prop) s : Q tt (lset f v s) -> tw (put f v) Q s.
Proof. intros HQ. by exists tt, (lset f v s). Qed.
Lemma tw_when (b : bool) c (Q : unit -> S -> Prop) s :
  (b = true -> tw c Q s) -> (b = false -> Q tt s) -> tw (when b c) Q s.
Proof. destruct b; intros H1 H2; [by apply H1|by apply tw_ret, H2]. Qed.
Lemma tw_if {A} (b : bool) (c d : M S A) Q s :
  (b = true -> tw c Q s) -> (b = false -> tw d Q s) -> tw (if b then c else d) Q s.
Proof. destruct b; auto. Qed.
End tw.

Section rules.
Context `{MbufConfig}.
Lemma tw_rd {A} (f : lens tcp_pcb A) (Q : A -> conn -> Prop) s : Q (lget f (c_tp s)) s -> tw (rd f) Q s.
Proof. intros HQ. by apply tw_get. Qed.
Lemma tw_wr {A} (f : lens tcp_pcb A) v (Q : unit -> conn -> Prop) s :
  Q tt (mk_conn (lset f v (c_tp s)) (c_free s) (c_net s) (c_wakes s)) -> tw (wr f v) Q s.
Proof. intros HQ. by apply tw_put. Qed.
Lemma tw_flag_on m (Q : unit -> conn -> Prop) s :
  Q tt (mk_conn (lset f_flags (setf (p_flags (c_tp s)) m) (c_tp s)) (c_free s) (c_net s) (c_wakes s)) -> tw (flag_on m) Q s.
Proof. intros HQ. apply tw_bind, tw_rd, tw_wr, HQ. Qed.
Lemma tw_flag_off m (Q : unit -> conn -> Prop) s :
  Q tt (mk_conn (lset f_flags (clrf (p_flags (c_tp s)) m) (c_tp s)) (c_free s) (c_net s) (c_wakes s)) -> tw (flag_off m) Q s.
Proof. intros HQ. apply tw_bind, tw_rd, tw_wr, HQ. Qed.
Lemma tw_lift_net {A} (c : M (nets segment) A) (Q : A -> conn -> Prop) s :
  tw c (fun a n => Q a (mk_conn (c_tp s) (c_free s) n (c_wakes s))) (c_net s) -> tw (lift_net c) Q s.
Proof. intros (a & n & E & HQ). exists a, (mk_conn (c_tp s) (c_free s) n (c_wakes s)). unfold lift_net. by rewrite E. Qed.
Lemma tw_queue_get f offs len (Q : list Z -> conn -> Prop) s :
  0 <= offs -> 0 <= len ->
  (let q := lget f (c_tp s) in
   Q (take (Z.to_nat (Z.max 0 (Z.min len (q_len q - offs)))) (drop (Z.to_nat offs) (q_bytes q))) s) ->
  tw (mbuf_queue_get f offs len) Q s.
Proof.
  intros Ho Hl HQ. apply tw_bind, tw_rd, tw_if; [intros [?%Z.ltb_lt|?%Z.ltb_lt]%orb_true_iff; lia|]. intros _. by apply tw_ret.
Qed.
End rules.

Ltac tstep :=
  lazymatch goal with
  | |- tw (bind _ _) _ _ => apply tw_bind
  | |- tw (ret _) _ _ => apply tw_ret
  | |- tw (get _) _ _ => apply tw_get
  | |- tw (rd _) _ _ => apply tw_rd
  | |- tw (wr _ _) _ _ => apply tw_wr
  | |- tw (flag_on _) _ _ => apply tw_flag_on
  | |- tw (flag_off _) _ _ => apply tw_flag_off
  | |- tw (lift_net _) _ _ => apply tw_lift_net
  | |- tw (when _ _) _ _ => apply tw_when; intros ?
  | |- tw (if _ then _ else _) _ _ => apply tw_if; intros ?
  end; cbn [c_tp c_free c_net c_wakes lget lset tp] in *.

(** ** A network that sends

    The entries of the routing table are of interfaces that are there; neither
    the gateways nor the peer have the address for everybody, whose first
    lookup faults. *)
Definition routed (n : nets segment) : Prop :=
  forall rt, let r := Route.slot (n_routes n) rt in
  Route.used r = true -> is_Some (n_ifs n !! Route.rt_ifn r) /\ Route.rt_gateway r <> INADDR_BROADCAST.
Definition sane (s : conn) : Prop :=
  p_faddr (c_tp s) <> INADDR_BROADCAST /\ routed (c_net s) /\
  forall rt, p_route (c_tp s) = Some rt -> Route.used (Route.slot (n_routes (c_net s)) rt) = true.

Lemma lookup_used tab t rt : Route.__route_lookup tab t = Some rt -> Route.used (Route.slot tab rt) = true.
Proof.
  unfold Route.__route_lookup. generalize 0 (Z.to_nat Route.IP_ROUTE_TABLE_LEN). intros i n. revert i.
  induction n as [|n IH]; intros i; simpl; [done|]. destruct (Route.rt_ifn (Route.slot tab i) =? Route.NO_IF) eqn:U; [done|].
  destruct (Z.land t _ =? _); [|by apply IH]. intros [= ->]. unfold Route.used. by rewrite U.
Qed.
Lemma rt_mtu_runs n rt : routed n -> Route.used (Route.slot (n_routes n) rt) = true -> tw (rt_mtu rt) (fun _ n' => n' = n) n.
Proof.
  intros R U. destruct (R rt U) as [[i Hi] _]. unfold rt_mtu, rd_slot, rd_if. do 5 tstep. exists i, n. simpl. rewrite Hi.
  split; [done|]. by tstep.
Qed.
Lemma ifn_mmap_runs n : tw ifn_mmap (fun _ n' => adds (fun _ => True) n n') n.
Proof.
  assert (E : exists m n', ifn_mmap n = Some (m, n')).
  { unfold ifn_mmap, bind, get. simpl. destruct (n_drv n) as [|[] d]; by do 2 eexists. }
  destruct E as (m & n' & E). exists m, n'. split; [done|]. by apply (ifn_mmap_adds (fun _ => True)) in E.
Qed.
Lemma etharp_lookup_runs ip a : ip <> INADDR_BROADCAST -> exists hw a', etharp_lookup ip a = Some (hw, a').
Proof.
  intros Hip. unfold etharp_lookup. rewrite (proj2 (Z.eqb_neq INADDR_BROADCAST ip)), (proj2 (Z.eqb_neq ip INADDR_BROADCAST)) by congruence.
  destruct (a_cache a) as [c|]; [destruct (e_ipaddr (entry (a_tab a) c) =? ip); [by do 2 eexists|]|];
    destruct (find_entry (a_tab a) ip 0); by do 2 eexists.
Qed.
Lemma ip_output_runs n rt daddr th :
  routed n -> Route.used (Route.slot (n_routes n) rt) = true -> daddr <> INADDR_BROADCAST ->
  tw (ip_output rt daddr th) (fun _ n' => adds (fun _ => True) n n') n.
Proof.
  intros R U Hd. assert (E : exists r n', ip_output rt daddr th n = Some (r, n')).
  { unfold ip_output, rd_slot, bind, get, ret, lift_arp. simpl. destruct (R rt U) as [_ Hg].
    destruct (etharp_lookup_runs (if Route.rt_gateway (Route.slot (n_routes n) rt) =? 0 then daddr
      else Route.rt_gateway (Route.slot (n_routes n) rt)) (n_arp n)) as (hw & a & ->); [by destruct (_ =? 0)|].
    destruct hw as [hw|]; [|by do 2 eexists]. unfold ifn_send, bind, get, put, ret. simpl.
    destruct (n_drv n) as [|[] d]; by do 2 eexists. }
  destruct E as (r & n' & E). exists r, n'. split; [done|]. by eapply (ip_output_adds (fun _ => True)) in E.
Qed.

Definition sane_at (p : tcp_pcb) (n : nets segment) : Prop :=
  p_faddr p <> INADDR_BROADCAST /\ routed n /\
  forall rt, p_route p = Some rt -> Route.used (Route.slot (n_routes n) rt) = true.
Lemma adds_sane p n n' P : sane_at p n -> adds P n n' -> sane_at p n'.
Proof. intros (Hf & R & Hr) [[= Ei Er] _]. unfold sane_at, routed. by rewrite Ei, Er. Qed.

Section runs.
Context `{MbufConfig}.

Lemma pcb_route_runs s :
  sane s -> tw pcb_route (fun r s' => sane s' /\ forall rt, r = Some rt -> Route.used (Route.slot (n_routes (c_net s')) rt) = true) s.
Proof.
  intros (Hf & R & Hr). unfold pcb_route. do 2 tstep. destruct (lget f_route (c_tp s)) as [rt|] eqn:E.
  - tstep. split; [by split|]. intros ? [= <-]. by apply Hr.
  - do 5 tstep. destruct (Route.__route_lookup _ _) as [rt|] eqn:L.
    + apply lookup_used in L. do 3 tstep. split; [split; [done|split; [done|]]|]; intros ? [= <-]; done.
    + tstep. split; [|done]. by split.
Qed.
Lemma tcp_mss_runs s : sane s -> tw tcp_mss (fun _ s' => s' = s) s.
Proof.
  intros (Hf & R & Hr). unfold tcp_mss. do 2 tstep. destruct (lget f_route (c_tp s)) as [rt|] eqn:E; [|by tstep].
  do 2 tstep. eapply tw_mono; [apply rt_mtu_runs; [done|by apply Hr]|]. intros m n ->. tstep. by destruct s.
Qed.
Lemma get_data_runs off len s : 0 <= off -> tw (if 0 <? len then mbuf_queue_get f_snd_q off len else ret []) (fun _ s' => s' = s) s.
Proof. intros Ho. tstep; [|by tstep]. apply Z.ltb_lt in H0. by apply tw_queue_get; [|lia|]. Qed.

Lemma send_segment_runs una nxt max off len win fl alot s :
  sane s -> 0 <= off -> tw (send_segment una nxt max off len win fl alot) (fun _ s' => sane s') s.
Proof.
  intros Hs Ho. unfold send_segment. tstep. eapply tw_mono; [by apply pcb_route_runs|]. intros [rt|] s1 [(Hf & R & Hr) U]; [|by tstep].
  specialize (U rt eq_refl). do 2 tstep. eapply tw_mono; [by apply rt_mtu_runs|]. intros mtu n ->. do 2 tstep.
  eapply tw_mono; [apply ifn_mmap_runs|]. intros m n A. cbn [c_tp c_free c_net c_wakes] in A.
  assert (S2 : sane_at (c_tp s1) n) by by eapply adds_sane.
  assert (U2 : Route.used (Route.slot (n_routes n) rt) = true) by (destruct A as [[= _ ->] _]; done).
  destruct s1 as [p fr n0 w]. cbn [c_tp c_free c_net c_wakes] in *. clear n0 Hf R Hr U A Hs s.
  tstep; [by tstep|]. tstep. eapply tw_mono; [by apply tcp_mss_runs|]. intros mss ? ->. do 2 tstep.
  tstep. eapply tw_mono; [by apply get_data_runs|]. intros data ? ->.
  match goal with |- context [Seg ?a ?b ?c ?d ?e ?f ?g ?h ?i ?j ?k] => generalize (Seg a b c d e f g h i j k); intros th end.
  repeat tstep.
  all: clear - S2 U2; (eapply tw_mono; [by apply ip_output_runs; [apply S2|exact U2|apply S2]|]); intros r n' A; cbn [c_tp c_free c_net c_wakes] in *.
  all: apply (adds_sane p n n') in A; [|done]; repeat tstep; exact A.
Qed.

Context (a b : Z) (W S D : list Z).

Lemma output_round_runs s nxt max idle una :
  ok a W b S D s -> again una s nxt max -> sane s -> tw (output_round una nxt max idle) (fun _ s' => sane s') s.
Proof.
  intros [Hp _] (<- & -> & ->) (Hf & R & Hr). pose proof Hp as (_ & (_ & (_ & Ho) & _) & _).
  unfold output_round. do 2 tstep. rewrite s32_shift, s32_small by lia.
  apply tw_bind, (tw_mono _ (fun _ s' => sane s')); [repeat tstep; by split|].
  intros _ s' Hs. do 2 tstep. tstep; [apply send_segment_runs; [done|lia]|by tstep].
Qed.

Lemma output_loop_runs fuel nxt max idle una s :
  ok a W b S D s -> again una s nxt max -> sane s -> 0 < p_maxseg (c_tp s) ->
  Z.max 0 (q_len (p_snd_q (c_tp s)) - p_snd_off (c_tp s)) < Z.of_nat fuel ->
  tw (output_loop fuel una nxt max idle) (fun _ _ => True) s.
Proof.
  revert nxt max s. induction fuel as [|fuel IH]; intros nxt max s O Ag Sa Hm Hf; [lia|]. simpl. tstep.
  eapply tw_mono; [apply tw_both; [by apply output_round_runs|by eapply (output_round_ok a W b S D)]|].
  intros [r|nxt' max'] s' [Sa' [O' Ag']]; [by tstep|]. destruct Ag' as (Ag' & Eo & El & Eq & Em).
  apply IH; try done; [congruence|]. rewrite Eq, Eo. lia.
Qed.

End runs.

(** ** A block that has bytes to send *)
Import TcpNet.TcpNet.

Lemma demo_ok : ok (2 ^ 32 - 3) demo_bytes 500 [] [] (h_conn demo_w1.1).
Proof.
  assert (F : fresh (h_conn demo_w.1) (2 ^ 32 - 3) 500).
  { do 10 (split; [done|]). split; [done|]. intros i ifn. simpl. rewrite lookup_singleton_Some. intros [_ <-]. simpl. lia. }
  apply fresh_ok in F; [|done..]. assert (E : send_loop 7 demo_bytes (h_conn demo_w.1) = Some (SDone, h_conn demo_w1.1)).
  { apply after_some. by vm_compute. }
  by apply (send_loop_ok _ _ _ _ _ _ _ _ F) in E as [O _].
Qed.
Lemma demo_routed n r : n_routes n = [r] -> is_Some (n_ifs n !! Route.rt_ifn r) -> Route.rt_gateway r <> INADDR_BROADCAST -> routed n.
Proof.
  intros Er Hi Hg rt. rewrite Er. unfold Route.slot. destruct (Z.to_nat rt) as [|k]; simpl; [done|].
  by destruct k.
Qed.

(** ** A segment size of zero

    The option of the peer is taken as it is. *)
Definition mss_conn (flags mx : Z) : conn :=
  mk_conn (mk_pcb 2 1 80 1024 flags TCPS_SYN_SENT 1 0 0 0 mx None 500 1 1 1 0 0 q_empty q_empty [] 0 0) 10 (demo_net 1 2) 0.
Example mss_zero_taken :
  option_map (fun r => p_maxseg (c_tp r.2)) (tcp_parse_options 5 TH_SYN [TCPOPT_MSS; TCPOLEN_MSS; 0; 0] 4 (mss_conn 0 1460)) = Some 0.
Proof. reflexivity. Qed.

(** A block with a byte to send, the peer known to the ARP table. *)
Definition stuck (cnt : Z) (out : list (frame segment)) : conn :=
  mk_conn (mk_pcb 2 1 80 1024 0 TCPS_ESTABLISHED 1 0 0 0 0 (Some 0) 500 0 0 100 2920 700 q_empty (Mq 0 [7]) [] 0 0) 10
    (mk_nets [Route.mk_route 0 0 0 1] {[1 := mk_ifnet 1500 1 0x00ffffff (replicate 6 1)]}
      (mk_etharp (Some 0) 0 [mk_entry cnt (replicate 6 2) 2; no_entry]) [] out) 0.
Lemma stuck_round cnt out :
  exists cnt' f, output_round 500 500 500 true (stuck cnt out) = Some (Again 500 500, stuck cnt' (out ++ [f])).
Proof. exists (u16 (cnt + 1)), (IpFrame (replicate 6 2) (Seg 1 2 1024 80 500 700 5 TH_ACK 2920 [] 20)). reflexivity. Qed.
(** With a segment size of zero the output goes on for ever: empty segments are
    sent, whatever the number of rounds. *)
Theorem mss_zero_loops fuel cnt out : output_with fuel (stuck cnt out) = None.
Proof.
  change (output_with fuel (stuck cnt out)) with (output_loop fuel 500 500 500 true (stuck cnt out)).
  revert cnt out. induction fuel as [|fuel IH]; intros cnt out; [done|]. cbn [output_loop]. unfold bind.
  destruct (stuck_round cnt out) as (cnt' & f & ->). apply IH.
Qed.

(** ** A SYN while the address is not known yet

    The first try fails, and is counted as sent: the next one has the following
    sequence number, and the answer to it refuses the connection. *)
Definition syn_conn : conn :=
  mk_conn (mk_pcb 2 1 80 1024 0 TCPS_SYN_SENT 1 0 0 10 1460 None 500 0 0 1 0 0 q_empty q_empty [] 0 0) 10
    (mk_nets [Route.mk_route 0 0 0 1] {[1 := mk_ifnet 1500 1 0x00ffffff (replicate 6 1)]} etharp_start [] []) 0.
Definition learned (s : conn) : conn :=
  mk_conn (c_tp s) (c_free s) (lset arps (etharp_add 2 (replicate 6 2) (n_arp (c_net s))) (c_net s)) (c_wakes s).
Definition syn_tried : conn := learned (after output_block syn_conn).
Definition syn_sent_again : conn := after output_block syn_tried.
Definition syn_answer : segment := Seg 2 1 80 1024 900 (u32 (500 + 2)) 5 (Z.lor TH_SYN TH_ACK) 2920 [] 20.
Example syn_after_miss :
  th_seq (nth_segment syn_sent_again 1) = 501 /\ th_flags (nth_segment syn_sent_again 1) = TH_SYN /\
  option_map fst (input_block syn_answer syn_sent_again) = Some (1, Closes) /\
  (* where the address was known from the start *)
  th_seq (nth_segment (after output_block (learned syn_conn)) 0) = 500 /\
  option_map fst (input_block (Seg 2 1 80 1024 900 501 5 (Z.lor TH_SYN TH_ACK) 2920 [] 20)
    (after output_block (learned syn_conn))) = Some (1, Scheduled).
Proof. vm_compute. done. Qed.
