(* ===== verification/TcpQueue.v ===== *)
(** * TCP: the queues of a connection are queues of packet buffers

    [Tcp] has the queues of a connection as byte strings, with a count of free
    buffers for both. Here its calls on them run beside the code of [Mbuf], on
    the links, offsets and buffers of the pool: the same calls, the same
    results. *)

From S2P Require Import Prelude Mbuf MbufMoves MbufOps MbufInit MbufThms Route InChksum Ip Tcp TcpSafe TcpNet.
From stdpp Require Import list gmap.
Import InChksum.InChksum Ip.Ip Tcp.Tcp.
Open Scope Z_scope.
Open Scope c_scope.

(** The calls of the packet buffers that the code of TCP makes on the receive
    queue and on the send queue of a connection. *)
Inductive qcall :=
| CAdd (buf : list Z) (len : Z)
| CRemove (len : Z)
| CTrim (len : Z)
| CGet (offs len : Z)
| CFree.

(** What the caller sees to: the bytes it hands over are there, a length or an
    offset is not negative. *)
Definition fits (c : qcall) : Prop :=
  match c with
  | CAdd buf len => len <= zlen buf
  | CRemove len | CTrim len => 0 <= len
  | CGet offs len => 0 <= offs /\ 0 <= len
  | CFree => True
  end.

Section queue.
Context `{MbufConfig}.

(** A call as [Tcp] makes it, and by the code of the packet buffers on the
    queue at the address [q]; TCP uses the count of no [mbuf_queue_trim]. *)
Definition tcp_queue (rcv : bool) : lens tcp_pcb mqueue := if rcv then f_rcv_q else f_snd_q.
Definition tcp_call (rcv : bool) (c : qcall) : C (Z * list Z) :=
  let f := tcp_queue rcv in
  match c with
  | CAdd buf len => n <- Tcp.mbuf_queue_add f buf len;; ret (n, [])
  | CRemove len => d <- Tcp.mbuf_queue_remove f len;; ret (zlen d, d)
  | CTrim len => Tcp.mbuf_queue_trim f len;;; ret (0, [])
  | CGet offs len => d <- Tcp.mbuf_queue_get f offs len;; ret (zlen d, d)
  | CFree => Tcp.mbuf_queue_free f;;; ret (0, [])
  end.
Definition mbuf_call (q : Z) (c : qcall) : M Mbuf.mbufs (Z * list Z) :=
  match c with
  | CAdd buf len => n <- Mbuf.mbuf_queue_add q buf len;; ret (n, [])
  | CRemove len => Mbuf.mbuf_queue_remove q len
  | CTrim len => Mbuf.mbuf_queue_trim q len;;; ret (0, [])
  | CGet offs len => Mbuf.mbuf_queue_get q offs len
  | CFree => Mbuf.mbuf_queue_free q;;; ret (0, [])
  end.

(** Calls on the two queues, in any order, with their results. *)
Section calls.
Context {S : Type} (call : bool -> qcall -> M S (Z * list Z)).
Fixpoint queue_calls (cs : list (bool * qcall)) : M S (list (Z * list Z)) :=
  match cs with
  | [] => ret []
  | (rcv, c) :: cs => r <- call rcv c;; rs <- queue_calls cs;; ret (r :: rs)
  end.
End calls.

(** The receive queue of the connection is the queue at [qr], the send queue
    the one at [qs]. *)
Context (qr qs : Z).
Hypothesis two_queues : qr <> qs.
Definition addr (rcv : bool) : Z := if rcv then qr else qs.

(** The pool [a] has the queues of the connection, and its free buffers. *)
Definition shows (s : conn) (a : pool) : Prop :=
  p_free a = c_free s /\
  forall rcv, let u := lget (tcp_queue rcv) (c_tp s) in p_queues a !! addr rcv = Some (q_offs u, q_bytes u).
Definition implements (m : Mbuf.mbufs) (s : conn) : Prop := exists a, Abs m a /\ shows s a.

Lemma shows_set rcv s a o' c' :
  shows s a ->
  let f := tcp_queue rcv in let u := lget f (c_tp s) in
  shows (mk_conn (lset f (Mq o' c') (c_tp s)) (c_free s + nblk (q_offs u) (q_bytes u) - nblk o' c') (c_net s) (c_wakes s))
    (set_queue a (addr rcv) (q_offs u) (q_bytes u) o' c').
Proof.
  intros [Ef Eq] f u. split; simpl; [by rewrite Ef|]. intros rcv'.
  destruct (decide (rcv' = rcv)) as [->|Hne].
  - rewrite lookup_insert_eq. unfold f. by destruct rcv.
  - rewrite lookup_insert_ne by (destruct rcv, rcv'; simpl; congruence). rewrite Eq. unfold f.
    destruct rcv, rcv'; done.
Qed.

(** The call on the abstract pool, and what TCP takes of its result. *)
Definition op_of (q : Z) (c : qcall) : MbufThms.op :=
  match c with
  | CAdd buf len => MbufThms.Add q buf len
  | CRemove len => MbufThms.Remove q len
  | CTrim len => MbufThms.Trim q len
  | CGet offs len => MbufThms.Get q offs len
  | CFree => MbufThms.QFree q
  end.
Definition taken (c : qcall) (r : Z * list Z) : Z * list Z := match c with CTrim _ => (0, []) | _ => r end.

Lemma mbuf_call_exec q c m r m' : MbufThms.exec (op_of q c) m = Some (r, m') -> mbuf_call q c m = Some (taken c r, m').
Proof.
  destruct c; simpl; [|done| |done|]; unfold bind, ret.
  - by destruct (Mbuf.mbuf_queue_add _ _ _ m) as [[??]|].
  - destruct (Mbuf.mbuf_queue_trim _ _ m) as [[??]|]; [|done]. by intros [= <- <-].
  - by destruct (Mbuf.mbuf_queue_free _ m) as [[??]|].
Qed.
Lemma fits_allowed rcv c s a : shows s a -> fits c -> MbufThms.allowed a (op_of (addr rcv) c).
Proof. intros [_ Eq] F. specialize (Eq rcv). destruct c; simpl in *; try split; try done; by eexists. Qed.

(** A step of the abstract pool decides the call of [Tcp]. *)
Lemma drop_runs rcv len s a :
  0 <= len -> shows s a ->
  let f := tcp_queue rcv in let u := lget f (c_tp s) in
  let n := Z.min len (zlen (q_bytes u)) in let c' := drop (Z.to_nat n) (q_bytes u) in
  exists s', mbuf_queue_drop f len s = Some (take (Z.to_nat n) (q_bytes u), s') /\
    shows s' (set_queue a (addr rcv) (q_offs u) (q_bytes u) (front_offs (q_offs u) n c') c').
Proof.
  intros Hl V f u n c'. unfold mbuf_queue_drop, rd, wr, bind, get, put, ret. simpl. fold f u.
  destruct (Z.ltb_spec len 0); [lia|]. eexists. split; [done|]. by apply shows_set.
Qed.
Lemma tcp_call_step rcv c s a r a' :
  shows s a -> fits c -> MbufThms.step a (op_of (addr rcv) c) r a' ->
  exists s', tcp_call rcv c s = Some (taken c r, s') /\ shows s' a'.
Proof.
  intros V F St. pose proof V as [Ef Eq]. specialize (Eq rcv).
  cbv zeta in Eq. pose proof (zlen_nonneg (q_bytes (lget (tcp_queue rcv) (c_tp s)))).
  destruct c as [buf len|len|len|offs len|]; simpl in F; inversion St; subst; clear St;
    match goal with E : p_queues _ !! _ = Some (?o, ?b), E2 : p_queues _ !! _ = Some (q_offs _, _) |- _ => is_var o; rewrite Eq in E; injection E as <- <- end;
    unfold tcp_call; set (f := tcp_queue rcv) in *; set (u := lget f (c_tp s)) in *.
  - unfold mbuf_queue_add, rd, wr, bind, get, put, ret. simpl. fold u.
    destruct (Z.ltb_spec (zlen buf) len); [lia|]. eexists. unfold space, q_len. rewrite <-Ef.
    split; [reflexivity|]. rewrite Ef. by apply shows_set.
  - destruct (drop_runs rcv len s a F V) as (s' & E & V'). fold f u in E, V'.
    exists s'. unfold mbuf_queue_remove, bind. rewrite E. split; [|exact V']. unfold ret. simpl.
    by rewrite zlen_take by lia.
  - destruct (drop_runs rcv len s a F V) as (s' & E & V'). fold f u in E, V'.
    exists s'. unfold mbuf_queue_trim, bind. rewrite E. split; [done|exact V'].
  - unfold mbuf_queue_get, rd, bind, get, ret. simpl. fold u. destruct F.
    rewrite (proj2 (Z.ltb_ge offs 0)), (proj2 (Z.ltb_ge len 0)) by done. simpl.
    eexists. split; [|exact V]. unfold q_len. repeat f_equal. unfold zlen. rewrite length_take, length_drop. unfold zlen in *. lia.
  - unfold mbuf_queue_free, rd, wr, bind, get, put, ret. simpl. fold u. eexists. split; [done|]. by apply shows_set.
Qed.

Lemma call_implements rcv c m s :
  implements m s -> fits c ->
  exists r m' s', mbuf_call (addr rcv) c m = Some (r, m') /\ tcp_call rcv c s = Some (r, s') /\ implements m' s'.
Proof.
  intros (a & [w A] & V) F.
  destruct (wp_some _ _ _ (exec_refines m w a _ A (fits_allowed rcv c s a V F))) as (r & m' & E & a' & St & A').
  destruct (tcp_call_step rcv c s a r a' V F St) as (s' & Es & V').
  exists (taken c r), m', s'. split; [by apply mbuf_call_exec|]. split; [done|]. by exists a'.
Qed.

(** C27. the queues of a connection are those of the packet buffer code. Let
    the pool in memory, with a queue at each of two addresses, hold the bytes of
    the receive queue and of the send queue of a connection and have its number
    of free buffers. Then whatever calls the code of TCP makes on the two
    queues, in any order (adding, removing, discarding and reading bytes,
    freeing a queue; the pool running out of buffers included), the code of the
    packet buffers, following its links and copying between its buffers, returns
    from every call, with the same count and the same bytes as the calls of the
    model of TCP, and the pool in memory holds the queues of the connection
    again. *)
Theorem queues_implemented cs m s :
  implements m s -> Forall (fun x => fits x.2) cs ->
  exists rs m' s',
    queue_calls (fun rcv => mbuf_call (addr rcv)) cs m = Some (rs, m') /\
    queue_calls tcp_call cs s = Some (rs, s') /\
    implements m' s'.
Proof.
  revert m s. induction cs as [|[rcv c] cs IH]; intros m s I F; [by exists [], m, s|].
  apply Forall_cons in F as [Fc F].
  destruct (call_implements rcv c m s I Fc) as (r & m1 & s1 & Em & Es & I1).
  destruct (IH m1 s1 I1 F) as (rs & m2 & s2 & Em' & Es' & I2).
  exists (r :: rs), m2, s2. cbn [queue_calls]. unfold bind at 1 3. rewrite Em, Es. cbn. unfold bind. rewrite Em', Es'. done.
Qed.
End queue.

(** ** The witness: a pool and two queues, as [mbuf_init] and
    [mbuf_queue_init] leave them, and a block with empty queues. *)

Lemma queue_created `{MbufConfig} s a q s' :
  Abs s a -> MbufInv.is_head q -> Mbuf.mbuf_queue_init q s = Some (tt, s') ->
  Abs s' (Pool (p_free a) (p_held a) (<[q := (0, [])]> (p_queues a))).
Proof.
  intros (w & [R Ef Eh Eq]) Hh E.
  assert (W : wp (Mbuf.mbuf_queue_init q) (fun _ s' =>
      MbufInv.Rep s' (MbufInv.World (MbufInv.w_own w) (MbufInv.w_free w) (<[q := MbufInv.Bq [] 0 []]> (MbufInv.w_queues w)))) s).
  { unfold Mbuf.mbuf_queue_init, bind, Mbuf.fld_wr in E. simpl in E.
    destruct (Mbuf.mb_next s !! q) eqn:E1; [|done]. simpl in E.
    destruct (Mbuf.mb_qlast s !! q) eqn:E2; [|done]. simpl in E.
    destruct (Mbuf.mb_qlen s !! q) eqn:E3; [|done]. simpl in E.
    destruct (Mbuf.mb_qoffs s !! q) eqn:E4; [|done].
    apply MbufInit.mbuf_queue_init_ok; [done|done|by eexists..]. }
  unfold wp in W. rewrite E in W. eexists. split; [exact W|done|done|].
  simpl. rewrite Eq. by rewrite fmap_insert.
Qed.

Definition Q1 : Z := 9.
Definition cells : gmap Z Z := {[Q0 := 0; Q1 := 0]}.
Definition blank2 : Mbuf.mbufs :=
  Mbuf.mk_mbufs (fill (Mbuf.FREE :: Q0 :: Q1 :: MbufInit.bufs 0 64) 0) (fill (MbufInit.bufs 0 64) (replicate 124 0)) 0 0 0 false 0
    cells cells cells.
Lemma blank2_cells : has_cells blank2 Q0.
Proof.
  split; cbn [Mbuf.mb_next Mbuf.mb_data Mbuf.mb_qoffs Mbuf.mb_qlen Mbuf.mb_qlast Mbuf.mb_locked blank2].
  - done.
  - by eexists.
  - intros x Hx. rewrite fill_lookup; [done|]. do 3 right. exact (proj2 (MbufInit.elem_bufs x) Hx).
  - intros x Hx. rewrite fill_lookup by exact (proj2 (MbufInit.elem_bufs x) Hx). by eexists.
  - repeat split; by eexists.
Qed.


Lemma Q1_head : MbufInv.is_head Q1.
Proof. done. Qed.
Lemma two_started tp net : p_rcv_q tp = q_empty -> p_snd_q tp = q_empty ->
  exists m, (start Q0;;; Mbuf.mbuf_queue_init Q1) blank2 = Some (tt, m) /\ implements Q0 Q1 m (mk_conn tp 64 net 0).
Proof.
  intros Er Es. destruct (start_ok blank2 Q0 blank2_cells Q0_head) as (m0 & E0 & A0).
  destruct ((start Q0;;; Mbuf.mbuf_queue_init Q1) blank2) as [[[] m]|] eqn:E; [|by vm_compute in E].
  exists m. split; [reflexivity|]. 
  assert (E1 : Mbuf.mbuf_queue_init Q1 m0 = Some (tt, m)) by (revert E; unfold bind at 1; rewrite E0; exact id).
  eexists. split; [exact (queue_created m0 _ Q1 m A0 Q1_head E1)|]. split; [reflexivity|].
  intros []; simpl; rewrite ?Er, ?Es; reflexivity.
Qed.

Lemma queues_implemented_witness :
  let b := TcpNet.TcpNet.h_conn TcpNet.TcpNet.demo_w1.1 in
  let s := mk_conn (lset f_snd_q q_empty (c_tp b)) 64 (c_net b) 0 in
  let cs := [(false, CAdd [1; 2; 3; 4; 5] 5); (true, CAdd [9] 1); (false, CGet 1 3); (false, CTrim 2); (false, CRemove 4)] in
  exists m, implements Q0 Q1 m s /\ exists rs m' s',
    queue_calls (fun rcv => mbuf_call (addr Q0 Q1 rcv)) cs m = Some (rs, m') /\
    queue_calls tcp_call cs s = Some (rs, s') /\ implements Q0 Q1 m' s'.
Proof.
  intros b s cs.
  assert (Er : p_rcv_q (lset f_snd_q q_empty (c_tp b)) = q_empty) by (vm_compute; reflexivity).
  assert (Es : p_snd_q (lset f_snd_q q_empty (c_tp b)) = q_empty) by (vm_compute; reflexivity).
  destruct (two_started (lset f_snd_q q_empty (c_tp b)) (c_net b) Er Es) as (m & _ & I).
  exists m. split; [exact I|]. apply (queues_implemented Q0 Q1); [done|exact I|].
  clear. unfold cs. repeat constructor; simpl; by apply Z.leb_le.
Defined.
