(* ===== verification/TcpLists.v ===== *)
(** * TCP: the lists of control blocks

    Every block is in one list, and its state is one of that list, whatever is
    called and whatever comes in, in any order. The rules of [post] and [keeps]
    follow the code; a call that moves a block has a hole in the invariant for
    it, from the change of its state to that of its list. *)

From S2P Require Import Prelude Mbuf MbufOps MbufThms Route InChksum Ip Tcp TcpSafe TcpNet TcpSys.
From stdpp Require Import list.
Import InChksum.InChksum Ip.Ip Tcp.Tcp TcpSys.TcpSys.
Open Scope Z_scope.
Open Scope c_scope.

(** ** What a program keeps

    [post I c R]: from a state with [I] the end of [c] is one with [R]. *)
Definition post {S} (I : S -> Prop) {A} (c : M S A) (R : A -> S -> Prop) : Prop := forall s, I s -> pw c R s.
Definition keeps {S} (I : S -> Prop) {A} (c : M S A) : Prop := post I c (fun _ s' => I s').

Section keeps.
Context {S : Type} (I : S -> Prop).
Lemma post_ret {A} (a : A) (R : A -> S -> Prop) : (forall s, I s -> R a s) -> post I (ret a) R.
Proof. intros H s Hs. by apply pw_ret, H. Qed.
Lemma post_fault {A} (R : A -> S -> Prop) : post I (fault : M S A) R.
Proof. intros s Hs. by apply pw_fault. Qed.
Lemma post_bind {A B} (c : M S A) (k : A -> M S B) R : keeps I c -> (forall a, post I (k a) R) -> post I (bind c k) R.
Proof. intros Hc Hk s Hs. apply pw_bind. eapply pw_mono; [by apply Hc|]. intros a s' Hs'. by apply Hk. Qed.
Lemma post_seq {A B} (c : M S A) (k : A -> M S B) P R : post I c P -> (forall a, post (P a) (k a) R) -> post I (bind c k) R.
Proof. intros Hc Hk s Hs. apply pw_bind. eapply pw_mono; [by apply Hc|]. intros a s' Hs'. by eapply Hk. Qed.
Lemma post_mono {A} (c : M S A) (P R : A -> S -> Prop) : post I c P -> (forall a s, P a s -> R a s) -> post I c R.
Proof. intros Hc H s Hs. eapply pw_mono; [by apply Hc|]. apply H. Qed.
Lemma post_pre {A} (J : S -> Prop) (c : M S A) (R : A -> S -> Prop) : post J c R -> (forall s, I s -> J s) -> post I c R.
Proof. intros Hc H s Hs. by apply Hc, H. Qed.
Lemma stays_ret {A} (a : A) : keeps I (ret a).
Proof. by apply post_ret. Qed.
Lemma stays_fault {A} : keeps I (fault : M S A).
Proof. apply post_fault. Qed.
Lemma stays_get {A} (f : lens S A) : keeps I (get f).
Proof. intros s Hs. by apply pw_get. Qed.
Lemma stays_bind {A B} (c : M S A) (k : A -> M S B) : keeps I c -> (forall a, keeps I (k a)) -> keeps I (bind c k).
Proof. apply post_bind. Qed.
Lemma stays_when (b : bool) c : keeps I c -> keeps I (when b c).
Proof. intros Hc. destruct b; [exact Hc|apply stays_ret]. Qed.
End keeps.
Create HintDb keep.
#[export] Hint Resolve stays_ret stays_fault stays_get : keep.

Ltac keep_step :=
  match goal with
  | |- forall _, _ => intros ?
  | |- post _ (let _ := _ in _) _ => cbv zeta
  | |- keeps _ (let _ := _ in _) => cbv zeta
  | |- keeps _ (bind _ _) => apply stays_bind; [|intros ?]
  | |- post _ (bind _ _) _ => first [solve [eauto 2 with keep]|apply post_bind; [|intros ?]]
  | |- keeps _ (when _ _) => apply stays_when
  | |- keeps _ (if ?b then _ else _) => destruct b
  | |- keeps _ (match ?x with _ => _ end) => destruct x
  | |- post _ (if ?b then _ else _) _ => destruct b
  | |- post _ (match ?x with _ => _ end) _ => destruct x
  | |- keeps _ _ => solve [eauto with keep]
  | |- post _ _ _ => solve [eauto with keep]
  end.
Ltac keep := repeat keep_step.

(** ** The state of a block *)

Definition stq (Q : Z -> Prop) (k : conn) : Prop := Q (p_state (c_tp k)).
Definition live (st : Z) : Prop := TCPS_SYN_SENT <= st <= TCPS_TIME_WAIT.

Section state.
Context `{MbufConfig} (Q : Z -> Prop).
Lemma keeps_rd {A} (f : lens tcp_pcb A) : keeps (stq Q) (rd f).
Proof. apply stays_get. Qed.
Lemma keeps_wr {A} (f : lens tcp_pcb A) v : (forall p, p_state (lset f v p) = p_state p) -> keeps (stq Q) (wr f v).
Proof. intros Hf s Hs a s' [= <- <-]. unfold stq in *. simpl. by rewrite Hf. Qed.
Lemma keeps_wr_state v : Q v -> keeps (stq Q) (wr f_state v).
Proof. by intros Hv s Hs a s' [= <- <-]. Qed.
Lemma keeps_broadcast : keeps (stq Q) broadcast.
Proof. by intros s Hs a s' [= <- <-]. Qed.
Lemma keeps_lift_net {A} (c : M (nets segment) A) : keeps (stq Q) (lift_net c).
Proof. intros s Hs a s'. unfold lift_net. by destruct (c (c_net s)) as [[x n]|]; [intros [= <- <-]|]. Qed.
Lemma keeps_put_free v : keeps (stq Q) (put pool_free v).
Proof. by intros s Hs a s' [= <- <-]. Qed.
End state.
#[export] Hint Resolve keeps_rd keeps_broadcast keeps_lift_net keeps_put_free : keep.
#[export] Hint Extern 1 (keeps _ (wr _ _)) => (apply keeps_wr; reflexivity) : keep.
#[export] Hint Extern 2 (keeps _ (wr f_state _)) => (apply keeps_wr_state; unfold live; cbv; split; discriminate) : keep.

Section same.
Context `{MbufConfig} (Q : Z -> Prop).
Lemma keeps_flag_on m : keeps (stq Q) (flag_on m).
Proof. unfold flag_on; keep. Qed.
Lemma keeps_flag_off m : keeps (stq Q) (flag_off m).
Proof. unfold flag_off; keep. Qed.
#[local] Hint Resolve keeps_flag_on keeps_flag_off : keep.
Definition queue_field (f : lens tcp_pcb mqueue) : Prop := f = f_rcv_q \/ f = f_snd_q.
Lemma keeps_queue_add f buf len : queue_field f -> keeps (stq Q) (mbuf_queue_add f buf len).
Proof. intros [-> | ->]; unfold mbuf_queue_add; keep. Qed.
Lemma keeps_queue_drop f len : queue_field f -> keeps (stq Q) (mbuf_queue_drop f len).
Proof. intros [-> | ->]; unfold mbuf_queue_drop; keep. Qed.
Lemma keeps_queue_get f offs len : queue_field f -> keeps (stq Q) (mbuf_queue_get f offs len).
Proof. intros [-> | ->]; unfold mbuf_queue_get; keep. Qed.
Lemma keeps_queue_free f : queue_field f -> keeps (stq Q) (mbuf_queue_free f).
Proof. intros [-> | ->]; unfold mbuf_queue_free; keep. Qed.
#[local] Hint Resolve keeps_queue_add keeps_queue_drop keeps_queue_get keeps_queue_free : keep.
#[local] Hint Extern 1 (queue_field _) => (by left) || (by right) : keep.
Lemma keeps_queue_trim f len : queue_field f -> keeps (stq Q) (mbuf_queue_trim f len).
Proof. intros F. unfold mbuf_queue_trim. keep. Qed.
#[local] Hint Resolve keeps_queue_trim : keep.
Lemma keeps_byte_rd p i : keeps (stq Q) (byte_rd p i).
Proof. unfold byte_rd. keep. Qed.
#[local] Hint Resolve keeps_byte_rd : keep.
Lemma keeps_options fuel flags p len : keeps (stq Q) (tcp_parse_options fuel flags p len).
Proof. revert p len. induction fuel as [|fuel IH]; intros p len; simpl; keep. Qed.
Lemma keeps_tcp_mss : keeps (stq Q) tcp_mss.
Proof. unfold tcp_mss. keep. Qed.
Lemma keeps_pcb_route : keeps (stq Q) pcb_route.
Proof. unfold pcb_route. keep. Qed.
#[local] Hint Resolve keeps_options keeps_tcp_mss keeps_pcb_route : keep.
Lemma keeps_send_segment una nxt max off len win flags more : keeps (stq Q) (send_segment una nxt max off len win flags more).
Proof. unfold send_segment. keep. Qed.
#[local] Hint Resolve keeps_send_segment : keep.
Lemma keeps_output_round una nxt max idle : keeps (stq Q) (output_round una nxt max idle).
Proof. unfold output_round. keep. Qed.
#[local] Hint Resolve keeps_output_round : keep.
Lemma keeps_output_loop fuel una nxt max idle : keeps (stq Q) (output_loop fuel una nxt max idle).
Proof. revert una nxt max. induction fuel as [|fuel IH]; intros una nxt max; simpl; keep. Qed.
#[local] Hint Resolve keeps_output_loop : keep.
Lemma keeps_output : keeps (stq Q) tcp_output.
Proof. unfold tcp_output, output_with. keep. Qed.
Lemma keeps_keepalive : keeps (stq Q) tcp_keepalive.
Proof. unfold tcp_keepalive. keep. Qed.
Lemma keeps_rcv_data th pos len : keeps (stq Q) (rcv_data th pos len).
Proof. unfold rcv_data. keep. Qed.
Lemma keeps_rxmt_restart cnt : keeps (stq Q) (rxmt_restart cnt).
Proof. intros s Hs a s'. unfold rxmt_restart. destruct (tcp_rxmtintvl !! _); [|done]. by intros [= <- <-]. Qed.
Lemma keeps_take_acked n : keeps (stq Q) (take_acked n).
Proof. unfold take_acked. keep. Qed.
#[local] Hint Resolve keeps_output keeps_keepalive keeps_rcv_data keeps_rxmt_restart keeps_take_acked : keep.
Lemma keeps_predict th len una nxt max : keeps (stq Q) (predict th len una nxt max).
Proof. unfold predict. keep. Qed.
Lemma keeps_recv_try len : keeps (stq Q) (recv_try len).
Proof. unfold recv_try, mbuf_queue_remove. keep. Qed.
Lemma keeps_send_loop fuel buf : keeps (stq Q) (send_loop fuel buf).
Proof. revert buf. induction fuel as [|fuel IH]; intros buf; simpl; keep. Qed.
Lemma keeps_send_end len nowait : keeps (stq Q) (send_end len nowait).
Proof. unfold send_end. keep. Qed.
Lemma keeps_fast_tmr : keeps (stq Q) fast_tmr.
Proof. unfold fast_tmr. keep. Qed.
Lemma keeps_rxmt_tmr : keeps (stq Q) rxmt_tmr.
Proof. unfold rxmt_tmr. keep. Qed.
Lemma keeps_drop_after_ack flags : keeps (stq Q) (drop_after_ack flags).
Proof. unfold drop_after_ack. keep. Qed.
Lemma keeps_acknowledge ack una nxt max : keeps (stq Q) (acknowledge ack una nxt max).
Proof. unfold acknowledge. keep. Qed.
Lemma keeps_drop_with_reset th seq len ack flags : keeps (stq Q) (drop_with_reset th seq len ack flags).
Proof. unfold drop_with_reset. keep. Qed.
End same.
#[export] Hint Resolve keeps_flag_on keeps_flag_off keeps_queue_add keeps_queue_drop keeps_queue_get keeps_queue_free
  keeps_queue_trim keeps_options keeps_output keeps_keepalive keeps_rcv_data keeps_rxmt_restart keeps_predict
  keeps_recv_try keeps_send_loop keeps_send_end keeps_fast_tmr keeps_rxmt_tmr keeps_drop_after_ack
  keeps_acknowledge keeps_drop_with_reset : keep.
#[export] Hint Extern 1 (queue_field _) => (by left) || (by right) : keep.

(** A segment or a timer leaves a block that is live so, or closes it. *)
Definition after_verdict (v : verdict) (k : conn) : Prop :=
  match v with
  | Closed | ClosedReset _ _ _ _ => p_state (c_tp k) = TCPS_CLOSED
  | _ => live (p_state (c_tp k))
  end.
Section live.
Context `{MbufConfig}.
#[local] Abbreviation alive c := (post (stq live) c after_verdict).
Lemma ret_live v : (forall k, live (p_state (c_tp k)) -> after_verdict v k) -> alive (ret v).
Proof. intros Hv. apply post_ret. exact Hv. Qed.
#[local] Hint Extern 1 (post _ (ret _) after_verdict) => (apply ret_live; by intros) : keep.
Lemma fin_live flags out : alive (fin_and_output flags out).
Proof. unfold fin_and_output. keep. Qed.
#[local] Hint Resolve fin_live : keep.
Lemma step6_live th flags seq len pos out : alive (step6 th flags seq len pos out).
Proof. unfold step6. keep. Qed.
#[local] Hint Resolve step6_live : keep.
Lemma closed_ret v : (forall k, p_state (c_tp k) = TCPS_CLOSED -> after_verdict v k) -> post (stq (eq TCPS_CLOSED)) (ret v) after_verdict.
Proof. intros Hv. apply post_ret. intros s E. by apply Hv. Qed.
Lemma post_wr_closed {A} I (k : unit -> C A) R : (forall a, post (stq (eq TCPS_CLOSED)) (k a) R) -> post I (bind (wr f_state TCPS_CLOSED) k) R.
Proof. intros Hk. apply (post_seq _ _ _ (fun _ => stq (eq TCPS_CLOSED))); [by intros s _ a s' [= <- <-]|exact Hk]. Qed.
Lemma close_live : alive close_block.
Proof. unfold close_block. do 2 (apply post_bind; [keep|intros _]). apply (post_wr_closed (stq live)). intros _. apply post_bind; [keep|intros _]. by apply closed_ret. Qed.
Lemma close_reset_live seq len ack flags : alive (close_and_reset seq len ack flags).
Proof. unfold close_and_reset. apply (post_wr_closed (stq live)). intros _. do 3 (apply post_bind; [keep|intros _]). by apply closed_ret. Qed.
#[local] Hint Resolve close_live close_reset_live : keep.
Lemma syn_sent_live th len : alive (syn_sent th len).
Proof. unfold syn_sent. keep. Qed.
Lemma drop_after_ack_live flags : alive (drop_after_ack flags).
Proof. unfold drop_after_ack. keep. Qed.
#[local] Hint Resolve syn_sent_live drop_after_ack_live : keep.
(** What [process_ack] leaves for [step6], or its verdict. *)
Definition after_ack (r : verdict + bool) (k : conn) : Prop :=
  match r with inl v => after_verdict v k | inr _ => live (p_state (c_tp k)) end.
Lemma ack_ret r : (forall k, live (p_state (c_tp k)) -> after_ack r k) -> post (stq live) (ret r) after_ack.
Proof. apply post_ret. Qed.
#[local] Hint Extern 1 (post _ (ret _) after_ack) => (apply ack_ret; by intros) : keep.
Lemma drop_after_live flags : post (stq live) (v <- drop_after_ack flags;; ret (inl v)) after_ack.
Proof. eapply post_seq; [apply drop_after_ack_live|]. intros v. by apply post_ret. Qed.
#[local] Hint Resolve drop_after_live : keep.
Lemma process_ack_live th flags seq len una nxt max : post (stq live) (process_ack th flags seq len una nxt max) after_ack.
Proof. unfold process_ack. keep. Qed.
Lemma acked_live th flags seq len pos una nxt max :
  alive (r <- process_ack th flags seq len una nxt max;;
    match r with inl v => ret v | inr out => step6 th flags seq len pos out end).
Proof.
  eapply post_seq; [apply process_ack_live|]. intros [v|b]; [by apply post_ret|].
  eapply post_pre; [apply step6_live|done].
Qed.
#[local] Hint Resolve acked_live : keep.
Lemma checked_live th flags seq len pos una nxt max : alive (checked_segment th flags seq len pos una nxt max).
Proof. unfold checked_segment. keep. Qed.
#[local] Hint Resolve checked_live : keep.
Lemma trim_tail_live th flags seq len pos wnd una nxt max : alive (trim_tail th flags seq len pos wnd una nxt max).
Proof. unfold trim_tail. keep. Qed.
#[local] Hint Resolve trim_tail_live : keep.
(** Header prediction ends with [Done] only. *)
Lemma predict_live th len una nxt max :
  post (stq live) (predict th len una nxt max) (fun r k => live (p_state (c_tp k)) /\ (forall v, r = Some v -> after_verdict v k)).
Proof.
  unfold predict. keep; apply post_ret; intros s L; (split; [exact L|]); by intros v [= <-].
Qed.
Lemma input_active_live th : alive (input_active th).
Proof.
  unfold input_active. do 3 (apply post_bind; [keep|intros ?]).
  eapply post_seq; [apply predict_live|]. intros [v|]; [apply post_ret; intros s [_ Hv]; by apply Hv|].
  apply (post_pre _ (stq live)); [|by intros x [L _]]. keep.
Qed.
(** Where [input_block] says that the block is. *)
Definition after_input (r : Z * fate) (k : conn) : Prop :=
  match r.2 with Closes => p_state (c_tp k) = TCPS_CLOSED | _ => live (p_state (c_tp k)) end.
Lemma input_block_live th : post (stq live) (input_block th) after_input.
Proof.
  unfold input_block. eapply post_seq; [apply input_active_live|]. intros v. destruct v as [r sched|seq len ack flags| |seq len ack flags|].
  1: destruct sched; by apply post_ret.
  1: apply (post_seq _ _ _ (fun _ => stq live)); [apply keeps_drop_with_reset|]; intros u; by apply (post_ret (stq live)).
  2: apply (post_seq _ _ _ (fun _ => stq (fun x => x = TCPS_CLOSED))); [exact (keeps_drop_with_reset (fun x => x = TCPS_CLOSED) _ _ _ _ _)|];
     intros u; by apply (post_ret (stq (fun x => x = TCPS_CLOSED))).
  all: by apply post_ret.
Qed.
(** The same of the timer. *)
Definition after_idle (r : idled) (k : conn) : Prop :=
  match r with IClosed => p_state (c_tp k) = TCPS_CLOSED | _ => live (p_state (c_tp k)) end.
Lemma timed_out_live : post (stq live) timed_out after_idle.
Proof.
  unfold timed_out. do 2 (apply post_bind; [keep|intros _]). apply (post_wr_closed (stq live)). intros _.
  apply post_bind; [keep|intros _]. by apply post_ret.
Qed.
Lemma idle_ret r : r <> IClosed -> post (stq live) (ret r) after_idle.
Proof. intros Hr. apply post_ret. by destruct r. Qed.
#[local] Hint Resolve timed_out_live : keep.
#[local] Hint Extern 1 (post _ (ret _) after_idle) => (apply idle_ret; discriminate) : keep.
Lemma idle_tmr_live : post (stq live) idle_tmr after_idle.
Proof. unfold idle_tmr. keep. Qed.
End live.

(** ** One list for every block *)

Inductive place := InFree | InClosed | InListen | InActive.
Definition lst (w : place) : lens tcp_system (list Z) :=
  match w with InFree => l_free | InClosed => l_closed | InListen => l_listen | InActive => l_active end.
(** The states of the blocks of a list; those of the free ones are anything. *)
Definition fits (w : place) (st : Z) : Prop :=
  match w with
  | InFree => True
  | InClosed => st = TCPS_CLOSED
  | InListen => st = TCPS_LISTEN
  | InActive => live st
  end.
Definition blocks (s : tcp_system) : list Z := t_free s ++ t_closed s ++ t_listen s ++ t_active s.
Definition state_of (i : Z) (s : tcp_system) : Z := p_state (blk i s).

(** [h] is a block, and its state, that is about to fit again, if there is one. *)
Record listed (h : option (Z * Z)) (s : tcp_system) : Prop := {
  ls_pool : length (t_pool s) = Z.to_nat NET_TCP_PCB_ACTIVE_MAX;
  ls_one : blocks s ≡ₚ seqZ 0 NET_TCP_PCB_ACTIVE_MAX;
  ls_fits : forall w i, fst <$> h <> Some i -> i ∈ lget (lst w) s -> fits w (state_of i s);
  ls_hole : forall i v, h = Some (i, v) -> state_of i s = v;
}.

Lemma in_blocks i s : i ∈ blocks s <-> exists w, i ∈ lget (lst w) s.
Proof.
  unfold blocks. rewrite !elem_of_app. split.
  - intros [F|[F|[F|F]]]; [exists InFree|exists InClosed|exists InListen|exists InActive]; exact F.
  - intros [[] F]; simpl in F; tauto.
Qed.
Section listed.
Context (h : option (Z * Z)) (s : tcp_system) (L : listed h s).
Lemma listed_range i w : i ∈ lget (lst w) s -> 0 <= i < NET_TCP_PCB_ACTIVE_MAX.
Proof using L. intros Hi. assert (B : i ∈ blocks s) by (apply in_blocks; eauto). rewrite (ls_one _ _ L), elem_of_seqZ in B. lia. Qed.
Lemma listed_unique i w v : i ∈ lget (lst w) s -> i ∈ lget (lst v) s -> w = v.
Proof using L.
  intros Hw Hv. assert (N : NoDup (blocks s)) by (rewrite (ls_one _ _ L); apply NoDup_seqZ).
  unfold blocks in N. rewrite !NoDup_app in N. destruct N as (_ & N1 & _ & N2 & _ & N3 & _).
  specialize (N1 i). specialize (N2 i). specialize (N3 i). rewrite !elem_of_app in *.
  destruct w, v; simpl in *; tauto.
Qed.
Lemma listed_somewhere i : 0 <= i < NET_TCP_PCB_ACTIVE_MAX -> exists w, i ∈ lget (lst w) s.
Proof using L. intros Hi. apply in_blocks. rewrite (ls_one _ _ L), elem_of_seqZ. lia. Qed.
Lemma listed_block i p : block i s = Some p -> 0 <= i < NET_TCP_PCB_ACTIVE_MAX /\ blk i s = p.
Proof using L.
  intros E. split; [|unfold blk; by rewrite E]. unfold block in E. destruct (Z.ltb_spec i 0); [done|].
  apply lookup_lt_Some in E. rewrite (ls_pool _ _ L) in E. lia.
Qed.
Lemma listed_open i : h = None -> listed (Some (i, state_of i s)) s.
Proof using L. intros ->. split; [apply L..| |by intros j v [= <- <-]]. intros w j _. by apply (ls_fits _ _ L). Qed.
End listed.
Lemma listed_close i v w s : listed (Some (i, v)) s -> i ∈ lget (lst w) s -> fits w v -> listed None s.
Proof.
  intros L Hi F. split; [apply L..| |done]. intros u j _ Hj. destruct (decide (j = i)) as [->|Hne].
  - rewrite (listed_unique _ _ L i u w), (ls_hole _ _ L i v) by done. done.
  - apply (ls_fits _ _ L); [simpl; congruence|done].
Qed.

Definition core (s : tcp_system) := (t_pool s, t_free s, t_closed s, t_listen s, t_active s).
(** [listed] together with a fact on the lists. *)
Definition inv (h : option (Z * Z)) (P : list Z -> list Z -> list Z -> list Z -> Prop) (s : tcp_system) : Prop :=
  listed h s /\ P (t_free s) (t_closed s) (t_listen s) (t_active s).
Lemma inv_core h P s s' : core s' = core s -> inv h P s -> inv h P s'.
Proof.
  unfold core. intros [= E1 E2 E3 E4 E5] [[L1 L2 L3 L4] HP]. split; [|by rewrite E2, E3, E4, E5].
  assert (E : forall i, state_of i s' = state_of i s) by (intros i; unfold state_of, blk, block; by rewrite E1).
  split; [by rewrite E1|unfold blocks in *; by rewrite E2, E3, E4, E5| |].
  - intros w i Hi Hw. rewrite E. apply L3; [done|]. destruct w; simpl in *; congruence.
  - intros i v Hv. rewrite E. by apply L4.
Qed.

(** ** What leaves the lists as they are *)

Lemma block_nonneg i s p : block i s = Some p -> 0 <= i /\ t_pool s !! Z.to_nat i = Some p.
Proof. unfold block. by destruct (Z.ltb_spec i 0). Qed.
Lemma block_set i p s j q : block j s = Some q -> block i (set_block j p s) = if decide (i = j) then Some p else block i s.
Proof.
  intros [Hj E]%block_nonneg. unfold block, set_block. simpl. apply lookup_lt_Some in E.
  destruct (decide (i = j)) as [->|Hne].
  - destruct (Z.ltb_spec j 0); [lia|]. by apply list_lookup_insert_eq.
  - destruct (Z.ltb_spec i 0); [done|]. rewrite list_lookup_insert_ne by lia. done.
Qed.
Lemma blk_set i p s j q : block j s = Some q -> blk i (set_block j p s) = if decide (i = j) then p else blk i s.
Proof. intros E. unfold blk. rewrite (block_set _ _ _ _ _ E). by destruct (decide (i = j)). Qed.
Lemma block_blk i s p : block i s = Some p -> blk i s = p.
Proof. intros E. unfold blk. by rewrite E. Qed.
Lemma inv_set h P i p q s : block i s = Some q -> p_state p = p_state q -> inv h P s -> inv h P (set_block i p s).
Proof.
  intros E Hp [L HP]. split; [|exact HP].
  assert (S : forall j, state_of j (set_block i p s) = state_of j s).
  { intros j. unfold state_of. rewrite (blk_set _ _ _ _ _ E). destruct (decide (j = i)) as [->|]; [|done]. by rewrite (block_blk _ _ _ E). }
  split; [simpl; rewrite length_insert; apply L|apply L| |].
  - intros w j Hj Hw. rewrite S. apply (ls_fits _ _ L); [done|by destruct w].
  - intros j v Hv. rewrite S. by apply (ls_hole _ _ L).
Qed.
Lemma inv_set_hole P i v p q s : block i s = Some q -> inv (Some (i, v)) P s -> inv (Some (i, p_state p)) P (set_block i p s).
Proof.
  intros E [L HP]. split; [|exact HP]. split; [simpl; rewrite length_insert; apply L|apply L| |].
  - intros w j Hj Hw. simpl in Hj. unfold state_of. rewrite (blk_set _ _ _ _ _ E), decide_False by congruence.
    apply (ls_fits _ _ L); [done|by destruct w].
  - intros j u [= <- <-]. unfold state_of. by rewrite (blk_set _ _ _ _ _ E), decide_True.
Qed.

Section lists.
Context (h : option (Z * Z)) (P : list Z -> list Z -> list Z -> list Z -> Prop).
Lemma keeps_rd_blk {A} i (f : lens tcp_pcb A) : keeps (inv h P) (rd_blk i f).
Proof. intros s Hs a s'. unfold rd_blk. by destruct (block i s); [intros [= <- <-]|]. Qed.
Lemma keeps_get_blk i : keeps (inv h P) (get_blk i).
Proof. intros s Hs a s'. unfold get_blk. by destruct (block i s); [intros [= <- <-]|]. Qed.
Lemma keeps_wr_blk {A} i (f : lens tcp_pcb A) v :
  (forall p, p_state (lset f v p) = p_state p) -> keeps (inv h P) (wr_blk i f v).
Proof.
  intros Hf s Hs a s'. unfold wr_blk, get_blk, put_blk, bind. destruct (block i s) as [p|] eqn:E; [|done]. rewrite E.
  intros [= <- <-]. by eapply inv_set.
Qed.
Lemma keeps_on_blk {A} i (c : C A) : (forall Q, keeps (stq Q) c) -> keeps (inv h P) (on_blk i c).
Proof.
  intros Hc s Hs a s'. unfold on_blk. destruct (block i s) as [p|] eqn:E; [|done].
  destruct (c _) as [[x k]|] eqn:Ec; [|done]. intros [= <- <-].
  apply (inv_core _ _ (set_block i (c_tp k) s)); [done|]. eapply inv_set; [exact E| |exact Hs].
  refine (Hc (fun st => st = p_state p) _ _ _ _ Ec). reflexivity.
Qed.
Lemma keeps_on_net {A} (c : M (nets segment) A) : keeps (inv h P) (on_net c).
Proof. intros s Hs a s'. unfold on_net. destruct (c _) as [[x n]|]; [|done]. intros [= <- <-]. by apply (inv_core _ _ s). Qed.
Lemma stays_put {A} (f : lens tcp_system A) v : (forall s, core (lset f v s) = core s) -> keeps (inv h P) (put f v).
Proof. intros Hf s Hs a s' [= <- <-]. by apply (inv_core _ _ s). Qed.
Lemma keeps_lookup faddr fport laddr lport l : keeps (inv h P) (pcb_lookup faddr fport laddr lport l).
Proof. by intros s Hs a s' [= <- <-]. Qed.
Lemma keeps_wildlookup faddr fport laddr lport l : keeps (inv h P) (pcb_wildlookup faddr fport laddr lport l).
Proof. by intros s Hs a s' [= <- <-]. Qed.
End lists.
#[export] Hint Resolve keeps_rd_blk keeps_get_blk keeps_on_net keeps_lookup keeps_wildlookup : keep.
#[export] Hint Extern 1 (keeps _ (put _ _)) => (apply stays_put; reflexivity) : keep.
#[export] Hint Extern 1 (keeps _ (wr_blk _ _ _)) => (apply keeps_wr_blk; reflexivity) : keep.
#[export] Hint Extern 1 (keeps _ (on_blk _ _)) => (apply keeps_on_blk; intros ?) : keep.

Section lists2.
Context `{MbufConfig} (h : option (Z * Z)) (P : list Z -> list Z -> list Z -> list Z -> Prop).
Lemma keeps_os_alloc : keeps (inv h P) os_alloc.
Proof. unfold os_alloc. keep. Qed.
Lemma keeps_os_free x : keeps (inv h P) (os_free x).
Proof. unfold os_free. keep. Qed.
Lemma keeps_sem_post x : keeps (inv h P) (sem_post x).
Proof. unfold sem_post. keep. Qed.
Lemma keeps_sem_take x : keeps (inv h P) (sem_take x).
Proof. unfold sem_take. keep. Qed.
Lemma keeps_find i l : keeps (inv h P) (pcb_find i l).
Proof. unfold pcb_find. keep. Qed.
Lemma keeps_sched i : keeps (inv h P) (tcp_output_sched i).
Proof. unfold tcp_output_sched. keep. Qed.
Lemma keeps_dequeue i : keeps (inv h P) (tcp_output_dequeue i).
Proof. unfold tcp_output_dequeue. keep. Qed.
#[local] Hint Resolve keeps_dequeue keeps_sched : keep.
Lemma keeps_clear_output i : keeps (inv h P) (clear_output i).
Proof. unfold clear_output. keep. Qed.
Lemma keeps_reset_stray th seq len ack flags : keeps (inv h P) (reset_stray th seq len ack flags).
Proof. intros s Hs a s'. unfold reset_stray. destruct (drop_with_reset _ _ _ _ _ _) as [[x k]|]; [|done]. intros [= <- <-]. by apply (inv_core _ _ s). Qed.
Lemma keeps_can_bind addr port : keeps (inv h P) (can_bind addr port).
Proof. unfold can_bind. keep. Qed.
#[local] Hint Resolve keeps_can_bind : keep.
Lemma keeps_ephemeral fuel addr : keeps (inv h P) (ephemeral fuel addr).
Proof. induction fuel as [|fuel IH]; simpl; keep. Qed.
#[local] Hint Resolve keeps_find keeps_ephemeral keeps_sem_take keeps_os_free : keep.
Lemma keeps_bind_call i addr port : keeps (inv h P) (tcp_bind i addr port).
Proof. unfold tcp_bind. keep. Qed.
Lemma keeps_accept i fails : keeps (inv h P) (tcp_accept i fails).
Proof. unfold tcp_accept. keep. Qed.
Lemma keeps_accept_tmo i fails : keeps (inv h P) (tcp_accept_tmo i fails).
Proof. unfold tcp_accept_tmo. keep. Qed.
Lemma keeps_connect_wait i : keeps (inv h P) (connect_wait i).
Proof. unfold connect_wait. keep. Qed.
Lemma keeps_recv i len : keeps (inv h P) (tcp_recv i len).
Proof. unfold tcp_recv. keep. Qed.
Lemma keeps_send i left len nowait : keeps (inv h P) (tcp_send i left len nowait).
Proof. unfold tcp_send. keep. Qed.
Lemma keeps_fast q : keeps (inv h P) (TcpSys.tcp_fast_tmr q).
Proof. unfold tcp_output_enqueue. induction q as [|i q IH]; simpl; keep. Qed.
Lemma keeps_rxmt q : keeps (inv h P) (tcp_rxmt_tmr q).
Proof. induction q as [|i q IH]; simpl; keep. Qed.
Lemma keeps_pending n tail : keeps (inv h P) (output_pending n tail).
Proof. revert tail. induction n as [|n IH]; intros tail; simpl; keep. Qed.
End lists2.
#[export] Hint Resolve keeps_os_alloc keeps_os_free keeps_sem_post keeps_sem_take keeps_find keeps_sched keeps_clear_output
  keeps_reset_stray keeps_bind_call keeps_accept keeps_accept_tmo keeps_connect_wait keeps_recv keeps_send keeps_fast
  keeps_rxmt keeps_pending : keep.

(** ** What moves a block *)

Lemma unlink_perm i q q' : unlink i q = Some q' -> q ≡ₚ i :: q'.
Proof.
  revert q'. induction q as [|j q IH]; intros q'; simpl; [done|]. destruct (Z.eqb_spec i j) as [->|]; [by intros [= <-]|].
  destruct (unlink i q) as [r|]; [|done]. intros [= <-]. rewrite (IH r eq_refl). apply perm_swap.
Qed.
Lemma unlink_none i q : unlink i q = None -> i ∉ q.
Proof.
  induction q as [|j q IH]; simpl; [intros _; apply not_elem_of_nil|]. destruct (Z.eqb_spec i j) as [->|]; [done|].
  destruct (unlink i q) as [r|]; [done|]. intros E. rewrite not_elem_of_cons. auto.
Qed.

Abbreviation whole := (inv None (fun _ _ _ _ => True)).
Lemma whole_listed s : whole s <-> listed None s.
Proof. unfold inv. tauto. Qed.
Lemma move_spec i v from to r s s' : listed (Some (i, v)) s -> pcb_move i (lst from) (lst to) s = Some (r, s') ->
  (s' = s /\ i ∉ lget (lst from) s) \/
  (i ∈ lget (lst from) s /\ listed (Some (i, v)) s' /\ i ∈ lget (lst to) s' /\
   forall w j, j <> i -> j ∈ lget (lst w) s' <-> j ∈ lget (lst w) s).
Proof.
  intros L. unfold pcb_move, pcb_insert, bind, get, put, ret.
  destruct (unlink i (lget (lst from) s)) as [q|] eqn:E; [|intros [= <- <-]; left; split; [done|by apply unlink_none]].
  apply unlink_perm in E. intros [= _ <-]. right. set (s1 := lset (lst to) _ _).
  assert (M : forall w j, j <> i -> j ∈ lget (lst w) s1 <-> j ∈ lget (lst w) s).
  { intros w j Hj. destruct w, from, to; simpl in *; rewrite ?E, ?elem_of_app, ?elem_of_cons, ?elem_of_nil; tauto. }
  assert (Pl : t_pool s1 = t_pool s) by (by destruct from, to).
  assert (S : forall j, state_of j s1 = state_of j s) by (intros j; unfold state_of, blk, block; by rewrite Pl).
  split; [rewrite E; left|]. split; [|split; [destruct from, to; simpl; apply elem_of_app; right; by left|exact M]].
  split; [rewrite Pl; apply L| | |].
  - rewrite <-(ls_one _ _ L). destruct from, to; unfold blocks; simpl in *; rewrite E; solve_Permutation.
  - intros w j Hj Hw. rewrite S. apply (ls_fits _ _ L); [done|]. apply M; [|done]. simpl in Hj. congruence.
  - intros j u Hu. rewrite S. by apply (ls_hole _ _ L).
Qed.
(** To the free blocks, which take any state. *)
Lemma keeps_move_free i from : keeps whole (pcb_move i (lst from) l_free).
Proof.
  intros s [L _] r s' E. apply whole_listed. apply (move_spec i (state_of i s) from InFree) in E as [[-> _]|(_ & L' & Hi & _)]; [done| |by apply (listed_open None)].
  by apply (listed_close i (state_of i s) InFree).
Qed.
Lemma move_to i v from to s : listed (Some (i, v)) s -> i ∈ lget (lst from) s -> fits to v ->
  pw (pcb_move i (lst from) (lst to)) (fun _ => whole) s.
Proof.
  intros L Hi F r s' E. apply (move_spec i v) in E as [[_ N]|(_ & L' & Hi' & _)]; [done| |done].
  apply whole_listed. by apply (listed_close i v to).
Qed.
Definition pcb_fresh : tcp_pcb := lset f_cond (-1) pcb_zero.
Lemma new_spec w s r s' : w <> InFree -> listed None s -> tcp_pcb_new (lst w) s = Some (r, s') ->
  match r with
  | None => s' = s /\ t_free s = []
  | Some i => listed (Some (i, TCPS_CLOSED)) s' /\ i ∈ lget (lst w) s' /\ i ∈ t_free s /\ block i s' = Some pcb_fresh /\
      (forall j, j <> i -> block j s' = block j s) /\
      (forall v j, j <> i -> j ∈ lget (lst v) s' <-> j ∈ lget (lst v) s)
  end.
Proof.
  intros Hw L. pose proof L as [Lp Lo Lf _]. unfold tcp_pcb_new, pcb_remove_head, pcb_insert, bind, get, put, ret. simpl.
  destruct (t_free s) as [|i q] eqn:E; [by intros [= <- <-]|]. unfold put_blk. set (s1 := lset (lst w) _ _).
  destruct (block i s1) as [p|] eqn:B; [|done]. intros [= <- <-].
  assert (M : forall v j, j <> i -> j ∈ lget (lst v) s1 <-> j ∈ lget (lst v) s).
  { intros v j Hj. destruct w, v; simpl in *; rewrite ?E, ?elem_of_app, ?elem_of_cons, ?elem_of_nil; tauto. }
  assert (Pl : t_pool s1 = t_pool s) by (by destruct w).
  assert (St : forall j, j <> i -> block j (set_block i pcb_fresh s1) = block j s).
  { intros j Hj. rewrite (block_set _ _ _ _ _ B), decide_False by done. unfold block. by rewrite Pl. }
  split; [split|split; [|split; [left|split; [|split; [exact St|intros v j Hj; rewrite <-M by done; by destruct v]]]]].
  - simpl. by rewrite length_insert, Pl.
  - rewrite <-Lo. unfold blocks. destruct w; simpl in *; rewrite E; solve_Permutation.
  - intros v j Hj Hv. simpl in Hj. assert (Hne : j <> i) by congruence. unfold state_of, blk. rewrite St by done.
    apply Lf; [done|]. apply M; [done|]. by destruct v.
  - intros j v [= <- <-]. unfold state_of. by rewrite (blk_set _ _ _ _ _ B), decide_True.
  - destruct w; simpl in *; try done; apply elem_of_app; right; by left.
  - rewrite (block_set _ _ _ _ _ B). by rewrite decide_True.
Qed.

(** ** The calls *)

(** All blocks fit, and [i] is in the list [w]. *)
Definition isin (w : place) (i : Z) (f c l a : list Z) : Prop :=
  i ∈ match w with InFree => f | InClosed => c | InListen => l | InActive => a end.
Abbreviation held w i := (inv None (isin w i)).
Lemma held_in w i s : held w i s <-> listed None s /\ i ∈ lget (lst w) s.
Proof. by destruct w. Qed.
Lemma held_whole w i s : held w i s -> whole s.
Proof. by intros [L _]. Qed.

Section calls.
Context `{MbufConfig}.
Lemma keeps_move_closed i : keeps whole (pcb_move i l_closed l_free).
Proof. exact (keeps_move_free i InClosed). Qed.
Lemma keeps_move_listen i : keeps whole (pcb_move i l_listen l_free).
Proof. exact (keeps_move_free i InListen). Qed.
Lemma keeps_move_active i : keeps whole (pcb_move i l_active l_free).
Proof. exact (keeps_move_free i InActive). Qed.
#[local] Hint Resolve keeps_move_closed keeps_move_listen keeps_move_active : keep.
Lemma keeps_free_block i : keeps whole (free_block i).
Proof. unfold free_block. keep. Qed.
#[local] Hint Resolve keeps_free_block : keep.
Lemma keeps_free_loop fuel mux i : keeps whole (pcb_free_loop fuel mux i).
Proof. revert mux i. induction fuel as [|fuel IH]; intros mux i; simpl; keep. Qed.
#[local] Hint Resolve keeps_free_loop : keep.
Lemma keeps_pcb_free i : keeps whole (tcp_pcb_free i).
Proof. unfold tcp_pcb_free. keep. Qed.
#[local] Hint Resolve keeps_pcb_free : keep.

Lemma new_hole w : w <> InFree ->
  post whole (tcp_pcb_new (lst w)) (fun r s => match r with None => whole s | Some i => inv (Some (i, TCPS_CLOSED)) (isin w i) s end).
Proof.
  intros Hw s [L _] r s' E. apply (new_spec w) in E; [|done..]. destruct r as [i|].
  - destruct E as (L' & Hi & _). split; [done|]. by destruct w.
  - by destruct E as [-> _].
Qed.
Lemma close_hole i v w : fits w v -> forall s, inv (Some (i, v)) (isin w i) s -> whole s.
Proof. intros F s [L Hi]. apply whole_listed. apply (listed_close i v w); [done|by destruct w|done]. Qed.
(** A state is written. *)
Lemma state_hole i P v s : inv None P s -> pw (wr_blk i f_state v) (fun _ => inv (Some (i, v)) P) s.
Proof.
  intros [L HP] a s'. unfold wr_blk, get_blk, put_blk, bind. destruct (block i s) as [p|] eqn:E; [|done]. rewrite E.
  intros [= _ <-]. apply (inv_set_hole P i (state_of i s) (lset f_state v p) p s E). split; [by apply (listed_open None)|done].
Qed.
Lemma hole_hole i P u v s : inv (Some (i, u)) P s -> pw (wr_blk i f_state v) (fun _ => inv (Some (i, v)) P) s.
Proof.
  intros I a s'. unfold wr_blk, get_blk, put_blk, bind. destruct (block i s) as [p|] eqn:E; [|done]. rewrite E.
  intros [= _ <-]. by apply (inv_set_hole P i u (lset f_state v p) p s E).
Qed.

Lemma keeps_alloc : keeps whole tcp_alloc.
Proof.
  unfold tcp_alloc. eapply post_seq; [by apply (new_hole InClosed)|]. intros [i|]; [|by apply post_ret].
  apply (post_seq _ _ _ (fun _ => inv (Some (i, TCPS_CLOSED)) (isin InClosed i))); [intros s; apply hole_hole|].
  intros u. apply post_ret. by apply close_hole.
Qed.
Lemma find_held w i : post whole (pcb_find i (lst w)) (fun r s => whole s /\ (0 <= r -> held w i s)).
Proof.
  intros s I r s' [= <- <-]. split; [done|]. destruct (existsb (Z.eqb i) (lget (lst w) s)) eqn:E; [|lia]. intros _. apply held_in.
  split; [apply I|]. apply existsb_exists in E as (j & Hj & ->%Z.eqb_eq). by apply list_elem_of_In.
Qed.
(** The block goes from one list to another, with the state [v]. *)
Lemma moved i v from to s : fits to v -> inv (Some (i, v)) (isin from i) s -> pw (pcb_move i (lst from) (lst to)) (fun _ => whole) s.
Proof. intros F [L Hi]. apply (move_to i v); [done| |done]. by destruct from. Qed.
Lemma ret_held {A} w i (a : A) : post (held w i) (ret a) (fun _ => whole).
Proof. apply post_ret. apply held_whole. Qed.
Ltac keep_whole :=
  match goal with
  | |- post _ ?c _ => change (keeps whole c)
  | W : _ |- pw ?c _ ?s => refine ((_ : keeps whole c) s W)
  end; keep.
#[local] Hint Extern 3 (post _ (ret _) _) => (apply ret_held) : keep.

Lemma connect_move i : post (held InClosed i)
  (pcb_move i l_closed l_active;;; wr_blk i f_state TCPS_SYN_SENT;;; tcp_output_sched i;;; ret 0) (fun _ => whole).
Proof.
  intros s I. apply pw_bind. intros r s1 E. pose proof I as [L Hi].
  apply (move_spec i (state_of i s) InClosed InActive) in E as [[_ N]|(_ & L1 & Hi1 & _)]; [done| |by apply (listed_open None)].
  apply pw_bind. eapply pw_mono; [apply (hole_hole i (isin InActive i) (state_of i s)); by split|].
  intros u s2 I2. assert (W : whole s2) by (by apply (close_hole i TCPS_SYN_SENT InActive)).
  keep_whole.
Qed.
#[local] Hint Extern 1 (post _ (bind (pcb_move _ _ _) _) _) => (apply connect_move) : keep.
Lemma keeps_connect i addr port : keeps whole (tcp_connect i addr port).
Proof.
  unfold tcp_connect. eapply post_seq; [apply (find_held InClosed)|]. intros r.
  destruct (Z.ltb_spec r 0) as [|Hr]; [apply post_ret; by intros s [W _]|].
  apply (post_pre _ (held InClosed i)); [|intros s [_ Hs]; by apply Hs]. keep.
Qed.

Lemma abort_move i st v : fits InClosed v ->
  post (held InActive i)
    (when (negb (st =? TCPS_CLOSED))
      (wr_blk i f_state v;;; on_blk i (mbuf_queue_free f_rcv_q);;; on_blk i (mbuf_queue_free f_snd_q);;;
       cond <- rd_blk i f_cond;; os_free cond;;; pcb_move i l_active l_closed;;; ret tt)) (fun _ => whole).
Proof.
  intros F. destruct (negb _); [|apply ret_held]. simpl.
  apply (post_seq _ _ _ (fun _ => inv (Some (i, v)) (isin InActive i))); [intros s; apply state_hole|]. intros u.
  do 4 (apply post_bind; [keep|intros ?]). apply (post_seq _ _ _ (fun _ => whole)); [|intros r; by apply post_ret].
  intros s. by apply (moved i v InActive InClosed).
Qed.
Lemma abort_whole i : post (held InActive i) (tcp_abort i) (fun _ => whole).
Proof.
  unfold tcp_abort. apply post_bind; [keep|intros st]. eapply post_seq; [by apply abort_move|]. intros u.
  keep_whole.
Qed.
Lemma keeps_drop i : keeps whole (tcp_drop i).
Proof.
  unfold tcp_drop. eapply post_seq; [apply (find_held InActive)|]. intros r.
  destruct (Z.ltb_spec r 0) as [|Hr]; [apply post_ret; by intros s [W _]|].
  apply (post_pre _ (held InActive i)); [|intros s [_ Hs]; by apply Hs]. apply post_bind; [keep|intros st].
  apply (post_seq _ _ _ (fun _ => whole)); [|intros u; by apply post_ret].
  destruct (TCPS_HAVERCVDSYN st); [apply abort_whole|].
  apply (post_pre _ whole); [|apply held_whole]. keep_whole.
Qed.
(** What is done to a block may change its state; the block is not moved. *)
Lemma on_blk_hole {A} i (c : C A) P R s : inv None P s ->
  pw c R (mk_conn (blk i s) (t_mbufs s) (t_nets s) (t_wakes s)) ->
  pw (on_blk i c) (fun r s' => exists k, inv (Some (i, p_state (c_tp k))) P s' /\ R r k) s.
Proof.
  intros [L HP] Hc a s'. unfold on_blk. destruct (block i s) as [p|] eqn:E; [|done].
  rewrite (block_blk _ _ _ E) in Hc. destruct (c _) as [[x k]|] eqn:Ec; [|done]. intros [= <- <-]. exists k. split; [|by apply Hc].
  apply (inv_core _ _ (set_block i (c_tp k) s)); [done|]. apply (inv_set_hole P i (state_of i s) _ p s E).
  split; [by apply (listed_open None)|done].
Qed.
Lemma on_blk_active {A} i (c : C A) R : post (stq live) c R ->
  post (held InActive i) (on_blk i c) (fun r s' => exists k, inv (Some (i, p_state (c_tp k))) (isin InActive i) s' /\ R r k).
Proof.
  intros Hc s I. apply on_blk_hole; [done|]. apply Hc. apply held_in in I as [L Hi]. by apply (ls_fits _ _ L InActive).
Qed.
Lemma on_blk_live {A} i (c : C A) : keeps (stq live) c -> keeps (held InActive i) (on_blk i c).
Proof.
  intros Hc s I. eapply pw_mono; [by apply (on_blk_active i c _ Hc)|]. intros r s' (k & Ik & Lk).
  apply held_in. split; [|apply Ik]. apply whole_listed. by apply (close_hole i (p_state (c_tp k)) InActive).
Qed.

Lemma on_blk_fits {A} i (c : C A) : (forall w, keeps (stq (fits w)) c) -> keeps whole (on_blk i c).
Proof.
  intros Hc s W a s' E. pose proof W as [L _]. destruct (block i s) as [p|] eqn:B; [|by unfold on_blk in E; rewrite B in E].
  destruct (listed_block _ _ L _ _ B) as [Hi <-]. destruct (listed_somewhere _ _ L i Hi) as [w Hw].
  assert (I : held w i s) by (by apply held_in). apply (on_blk_hole i c _ (fun _ => stq (fits w)) s I) in E.
  - destruct E as (k & Ik & Fk). exact (close_hole i _ w Fk s' Ik).
  - apply Hc. exact (ls_fits _ _ L w i ltac:(done) Hw).
Qed.
Lemma close_active_fits w : keeps (stq (fits w)) close_active.
Proof.
  destruct w; [by intros k _ a k' _| | |unfold fits, close_active; keep].
  all: intros k Hk a k'; unfold stq in *; simpl in Hk; unfold close_active, bind, get, ret; simpl; rewrite Hk; by intros [= <- <-].
Qed.
Lemma keeps_close i : keeps whole (tcp_close i).
Proof.
  assert (K : keeps whole (on_blk i close_active)) by (apply on_blk_fits, close_active_fits).
  unfold tcp_close. keep.
Qed.

(** A listening block finds itself. *)
Lemma wild_found s fa fp la lp q : forall wc mw j, wild_loop s fa fp la lp q wc mw (Some j) <> (None : option Z).
Proof.
  induction q as [|i q IH]; intros wc mw j; simpl; [done|].
  repeat match goal with |- context [if ?b then _ else _] => destruct b; try done end.
Qed.
Lemma wild_self s i q : i ∈ q -> wild_loop s INADDR_ANY 0 (p_laddr (blk i s)) (p_lport (blk i s)) q 0 3 None <> None.
Proof.
  assert (G : forall wc, 0 <= wc <= 2 -> (wc <? 3) = true) by (intros wc Hw; apply Z.ltb_lt; lia).
  induction q as [|j q IH]; [by intros ?%not_elem_of_nil|]. intros Hi. simpl. change (INADDR_ANY =? INADDR_ANY) with true. simpl.
  rewrite !andb_false_r. simpl.
  destruct (negb (p_lport (blk j s) =? p_lport (blk i s))) eqn:E1.
  { apply IH. apply elem_of_cons in Hi as [<-|]; [|done]. by rewrite Z.eqb_refl in E1. }
  destruct (_ && negb (p_laddr (blk j s) =? p_laddr (blk i s))) eqn:E2.
  { apply IH. apply elem_of_cons in Hi as [<-|]; [|done]. by rewrite Z.eqb_refl, andb_false_r in E2. }
  rewrite G by (repeat destruct (xorb _ _); lia). destruct (_ =? 0); [done|]. apply wild_found.
Qed.

Lemma listen_move i n : post (held InClosed i)
  (sem <- os_alloc;;
   if sem <? 0 then ret (- ENOMEM)
   else
     wr_blk i f_state TCPS_LISTEN;;; wr_blk i f_backlog n;;; wr_blk i f_tail 0;;; wr_blk i f_head 0;;; wr_blk i f_cond sem;;;
     pcb_move i l_closed l_listen;;; ret 0) (fun _ => whole).
Proof.
  apply post_bind; [keep|intros sem]. destruct (sem <? 0); [apply ret_held|].
  apply (post_seq _ _ _ (fun _ => inv (Some (i, TCPS_LISTEN)) (isin InClosed i))); [intros s; apply state_hole|]. intros u.
  do 4 (apply post_bind; [keep|intros ?]). apply (post_seq _ _ _ (fun _ => whole)); [|intros r; by apply post_ret].
  intros s. by apply (moved i TCPS_LISTEN InClosed InListen).
Qed.
Lemma live_not st : live st -> (st =? TCPS_CLOSED) = false /\ (st =? TCPS_LISTEN) = false.
Proof. unfold live, TCPS_SYN_SENT, TCPS_TIME_WAIT, TCPS_CLOSED, TCPS_LISTEN. intros Hl. split; apply Z.eqb_neq; lia. Qed.
Lemma listen_whole i backlog : post (fun s => whole s /\ i ∉ t_free s) (tcp_listen i backlog) (fun _ => whole).
Proof.
  intros s [W Hf] r s'. pose proof W as [L _]. unfold tcp_listen. unfold bind at 1, get_blk at 1. destruct (block i s) as [p|] eqn:B; [|done].
  destruct (listed_block _ _ L _ _ B) as [Hi Hp]. unfold bind at 1, pcb_wildlookup at 1. simpl lget.
  destruct (wild_loop _ _ _ _ _ _ _ _ _) as [j|] eqn:Wl; [by intros [= _ <-]|].
  assert (Hl : i ∉ t_listen s) by (intros F; by eapply wild_self in F; rewrite <-Hp in Wl).
  destruct (listed_somewhere _ _ L i Hi) as [w Hw]. pose proof (ls_fits _ _ L w i ltac:(done) Hw) as F.
  unfold state_of in F. rewrite Hp in F. destruct w; [done| |done|].
  - simpl in F. rewrite F. apply listen_move. by apply held_in.
  - destruct (live_not _ F) as [-> ->]. by intros [= _ <-].
Qed.

Lemma passive_whole mux th : keeps whole (tcp_passive_open mux th).
Proof.
  unfold tcp_passive_open. do 3 (apply stays_bind; [keep|intros ?]). destruct (_ =? _); [keep|].
  apply stays_bind; [keep|intros cond]. destruct (_ <? _); [keep|].
  eapply post_seq; [by apply (new_hole InActive)|]. intros [i|]; [|by apply post_ret].
  repeat lazymatch goal with
    | |- post _ (bind (wr_blk _ f_state _) _) _ => fail
    | |- post _ (bind _ _) _ => apply post_bind; [keep|intros ?]
    end.
  apply (post_seq _ _ _ (fun _ => inv (Some (i, TCPS_SYN_RCVD)) (isin InActive i))); [intros s; apply hole_hole|]. intros u.
  apply (post_pre _ whole); [|by apply close_hole]. keep_whole.
Qed.
#[local] Hint Resolve passive_whole : keep.
Lemma input_whole th : keeps whole (tcp_input th).
Proof.
  unfold tcp_input. intros s W. apply pw_bind. unfold pcb_lookup. intros o s1 [= <- <-].
  destruct (List.find _ _) as [i|] eqn:E.
  - apply find_some in E as [Hi%list_elem_of_In _]. simpl in Hi.
    apply pw_bind. eapply pw_mono; [apply (on_blk_active i _ _ (input_block_live th)); by split; [apply W|]|].
    intros [r v] s1 (k & Ik & Rk). unfold after_input in Rk. simpl in *. clear W Hi.
    assert (G : live (p_state (c_tp k)) -> whole s1) by (intros F; by apply (close_hole i _ InActive F s1 Ik)).
    destruct v; simpl.
    + apply pw_ret. by apply G.
    + specialize (G Rk). keep_whole.
    + apply pw_bind. eapply pw_mono; [apply (moved i _ InActive InClosed s1 Rk Ik)|]. intros u s' W. by apply pw_ret.
    + specialize (G Rk). keep_whole.
  - keep_whole.
Qed.
(** The loop of the idle timer ends with the first block that is moved. *)
Lemma idle_whole q : forall s, inv None (fun _ _ _ a => forall i, i ∈ q -> i ∈ a) s -> pw (TcpSys.tcp_idle_tmr q) (fun _ => whole) s.
Proof.
  induction q as [|i q IH]; intros s [L Hq]; simpl; [apply pw_ret; by apply whole_listed|].
  apply pw_bind. assert (I : inv None (fun _ _ _ a => forall j, j ∈ i :: q -> j ∈ a) s) by done.
  eapply pw_mono; [apply (on_blk_hole i idle_tmr _ after_idle s I), idle_tmr_live|].
  - apply (ls_fits _ _ L InActive); [done|]. apply Hq. by left.
  - intros d s1 (k & [L1 Hq1] & Rk). unfold after_idle in Rk. assert (Hi : i ∈ t_active s1) by (apply Hq1; by left).
    assert (G : live (p_state (c_tp k)) -> whole s1) by (intros F; by apply (close_hole i _ InActive F s1)).
    destruct d; simpl in Rk.
    + apply IH. split; [by apply whole_listed, G|]. intros j Hj. apply Hq1. by right.
    + apply pw_bind. eapply pw_mono; [by apply (moved i _ InActive InClosed s1 Rk)|]. intros u s2 W. unfold tcp_output_enqueue. keep_whole.
    + specialize (G Rk). keep_whole.
Qed.
Lemma round_whole timeout rxmt idle : keeps whole (tcp_tmr_task timeout rxmt idle).
Proof.
  unfold tcp_tmr_task. do 3 (apply stays_bind; [keep|intros ?]). destruct (negb timeout); [keep|].
  cbv zeta. do 3 (apply stays_bind; [keep|intros ?]). apply stays_bind; [|keep].
  apply stays_when. intros s W. apply pw_bind, pw_get. apply idle_whole. split; [apply W|]. by intros i.
Qed.
End calls.

(** ** All that can be called, in any order *)

Inductive call :=
| Alloc
| Bind (i addr port : Z)
| Listen (i backlog : Z)
| Accept (i : Z) (fails : bool)
| AcceptTmo (i : Z) (fails : bool)
| Connect (i addr port : Z)
| ConnectWait (i : Z)
| Recv (i len : Z)
| Send (i : Z) (buf : list Z) (len : Z) (nowait : bool)
| Close (i : Z)
| Drop (i : Z)
| Segment (th : segment)
| Round (timeout : bool) (rxmt idle : Z).

Section run.
Context `{MbufConfig}.
Definition run_call (c : call) : Y unit :=
  match c with
  | Alloc => tcp_alloc;;; ret tt
  | Bind i addr port => tcp_bind i addr port;;; ret tt
  | Listen i backlog => tcp_listen i backlog;;; ret tt
  | Accept i fails => tcp_accept i fails;;; ret tt
  | AcceptTmo i fails => tcp_accept_tmo i fails;;; ret tt
  | Connect i addr port => tcp_connect i addr port;;; ret tt
  | ConnectWait i => connect_wait i;;; ret tt
  | Recv i len => tcp_recv i len;;; ret tt
  | Send i buf len nowait => tcp_send i buf len nowait;;; ret tt
  | Close i => tcp_close i;;; ret tt
  | Drop i => tcp_drop i;;; ret tt
  | Segment th => tcp_input th;;; ret tt
  | Round timeout rxmt idle => tcp_tmr_task timeout rxmt idle;;; ret tt
  end.
Fixpoint run_calls (cs : list call) : Y unit :=
  match cs with
  | [] => ret tt
  | c :: cs => run_call c;;; run_calls cs
  end.

(** What is asked of the program, and the code does not check: a block it
    listens on is not one that it gave back, and a call for connections is not
    made with a block that listens, nor [tcp_accept_tmo] with one that does
    not (their memory has another layout then). *)
Definition proper (c : call) (s : tcp_system) : bool :=
  match c with
  | Listen i _ => negb (existsb (Z.eqb i) (t_free s))
  | ConnectWait i | Recv i _ | Send i _ _ _ => negb (state_of i s =? TCPS_LISTEN)
  | AcceptTmo i _ => state_of i s =? TCPS_LISTEN
  | _ => true
  end.
Fixpoint proper_calls (cs : list call) (s : tcp_system) : bool :=
  match cs with
  | [] => true
  | c :: cs => proper c s && match run_call c s with Some (_, s') => proper_calls cs s' | None => true end
  end.

#[local] Hint Resolve keeps_alloc keeps_connect keeps_close keeps_drop input_whole round_whole : keep.
Lemma call_whole c s : whole s -> proper c s = true -> pw (run_call c) (fun _ => whole) s.
Proof.
  intros W A. destruct c; unfold run_call; try solve [refine ((_ : keeps whole _) s W); keep].
  - apply pw_bind. eapply pw_mono; [apply (listen_whole i backlog); split; [exact W|]|].
    + intros F. apply negb_true_iff, not_true_iff_false in A. apply A, existsb_exists. exists i. rewrite Z.eqb_refl. split; [|done]. by apply list_elem_of_In.
    + intros r s' W'. by apply pw_ret.
Qed.
Lemma init_whole s s' : length (t_pool s) = Z.to_nat NET_TCP_PCB_ACTIVE_MAX -> tcp_init s = Some (tt, s') -> whole s'.
Proof.
  intros Hl [= <-]. apply whole_listed. split; [exact Hl|done| |done].
  intros w i _. destruct w; simpl; [done|by intros ?%not_elem_of_nil..].
Qed.

Lemma calls_whole cs : forall s s', whole s -> proper_calls cs s = true -> run_calls cs s = Some (tt, s') -> whole s'.
Proof.
  induction cs as [|c cs IH]; intros s s' W; simpl; [by intros _ [= <-]|].
  intros [A Hn]%andb_true_iff. unfold bind. destruct (run_call c s) as [[[] s1]|] eqn:E; [|done].
  apply IH; [exact (call_whole c s W A _ _ E)|exact Hn].
Qed.

(** C18. After [tcp_init], whatever is called and whatever segments come in, in
    any order, as long as the calls return and are proper: each of the eight blocks is in
    one list, and its state is one of that list. Proper means that no block is
    listened on that was given back ([listen_on_freed] shows what that does),
    and that a call is made with a block of its kind, listening or not. *)
Theorem blocks_in_one_list s0 s1 cs s :
  length (t_pool s0) = Z.to_nat NET_TCP_PCB_ACTIVE_MAX -> tcp_init s0 = Some (tt, s1) ->
  proper_calls cs s1 = true -> run_calls cs s1 = Some (tt, s) ->
  blocks s ≡ₚ seqZ 0 NET_TCP_PCB_ACTIVE_MAX /\ forall w i, i ∈ lget (lst w) s -> fits w (state_of i s).
Proof.
  intros Hl Hi Hn Hr. apply init_whole in Hi; [|done]. destruct (calls_whole cs s1 s Hi Hn Hr) as [[_ Lo Lf _] _].
  split; [exact Lo|]. intros w i Hw. by apply Lf.
Qed.
End run.

(** ** A run

    A block listens, two connections come in, the first one is accepted and
    answered; it is closed, and the reset of its peer frees it. *)
Definition boot : tcp_system :=
  mk_sys (replicate 8 pcb_zero) [] [] [] [] 0 0 0 0 (replicate 8 None) 60 (TcpNet.TcpNet.demo_net 1 2) 0 [10; 11; 12; 13] [] [].
Definition syn (sport : Z) : segment := Seg 2 1 sport 80 500 0 5 TH_SYN 2000 [] 20.
Definition ack_of (sport flags : Z) : segment := Seg 2 1 sport 80 501 (2 ^ 20 + 1) 5 flags 2000 [] 20.
Definition ran (cs : list call) (s : tcp_system) : tcp_system := match run_calls cs s with Some (_, s) => s | None => s end.
Definition booted : tcp_system := match tcp_init boot with Some (_, s) => s | None => boot end.
Definition demo_calls : list call :=
  [Alloc; Bind 0 0 80; Listen 0 2; Segment (syn 1000); Segment (syn 1001); Round false 5 10; Accept 0 false;
   Segment (ack_of 1000 TH_ACK); Close 1; Round true 1 1; Segment (ack_of 1000 (Z.lor TH_RST TH_ACK)); Alloc].
Lemma blocks_in_one_list_witness :
  run_calls demo_calls booted = Some (tt, ran demo_calls booted) /\
  (t_free (ran demo_calls booted), t_closed (ran demo_calls booted), t_listen (ran demo_calls booted), t_active (ran demo_calls booted))
    = ([4; 5; 6; 7; 1], [3], [0], [2]) /\
  state_of 2 (ran demo_calls booted) = TCPS_SYN_RCVD /\ live (state_of 2 (ran demo_calls booted)).
Proof.
  assert (R : run_calls demo_calls booted = Some (tt, ran demo_calls booted)) by (vm_compute; reflexivity).
  split; [exact R|]. split; [vm_compute; reflexivity|]. split; [vm_compute; reflexivity|].
  apply (proj2 (blocks_in_one_list boot booted demo_calls (ran demo_calls booted) eq_refl eq_refl ltac:(vm_compute; reflexivity) R) InActive 2).
  apply list_elem_of_In. vm_compute. by left.
Defined.

(** A listening block that is closed keeps the state LISTEN in the free list,
    and [tcp_listen] puts a block of that state in the list of listening
    blocks: the block is then in both. *)
Definition freed_calls : list call := [Alloc; Bind 0 0 80; Listen 0 2; Close 0; Listen 0 2].
Theorem listen_on_freed :
  run_calls freed_calls booted = Some (tt, ran freed_calls booted) /\
  0 ∈ t_free (ran freed_calls booted) /\ 0 ∈ t_listen (ran freed_calls booted).
Proof.
  split; [vm_compute; reflexivity|]. split; apply list_elem_of_In; vm_compute; [|by left].
  do 7 right. by left.
Qed.
