(* ===== verification/TcpCalls.v ===== *)
(** * TCP: what the calls do

    The backlog of a listening block is a bounded queue; [tcp_bind] finds a
    port; runs of the whole, and the flaws that they show. *)

From S2P Require Import Prelude Mbuf MbufOps MbufThms Route InChksum Ip Tcp TcpSafe TcpNet TcpOut TcpSys TcpLists.
From stdpp Require Import list.
Import InChksum.InChksum Ip.Ip Tcp.Tcp TcpSys.TcpSys.
Open Scope Z_scope.
Open Scope c_scope.

(** ** The backlog

    The connections that wait are the entries from the tail to the head. *)
Definition backlog_ok (p : tcp_pcb) : Prop :=
  let n := zlen (p_backlog p) in 1 <= n <= TCP_BACKLOG_MAX /\ 0 <= p_head p < n /\ 0 <= p_tail p < n.
Definition entry (p : tcp_pcb) (k : Z) : option Z := default None (p_backlog p !! Z.to_nat (k mod zlen (p_backlog p))).
Definition waiting_count (p : tcp_pcb) : Z := (p_head p - p_tail p) mod zlen (p_backlog p).
Definition waiting (p : tcp_pcb) : list (option Z) := (fun k => entry p (p_tail p + k)) <$> seqZ 0 (waiting_count p).
(** The signals of its semaphore that nobody took. *)
Definition signals (s : tcp_system) (p : tcp_pcb) : Z := zlen (filter (fun x => x = p_cond p) (t_posts s)).

Lemma waiting_length p : 0 < zlen (p_backlog p) -> zlen (waiting p) = waiting_count p.
Proof.
  intros Hn. unfold waiting, zlen. rewrite length_fmap, length_seqZ. apply Z2Nat.id.
  unfold waiting_count. apply Z.mod_pos_bound. exact Hn.
Qed.
Lemma next_mod n h : 0 <= h < n -> (if h + 1 =? n then 0 else h + 1) = (h + 1) mod n.
Proof.
  intros Hh. destruct (Z.eqb_spec (h + 1) n) as [->|].
  - symmetry. apply Z_mod_same_full.
  - symmetry. apply Z.mod_small. lia.
Qed.
Lemma seqZ_snoc n : 0 <= n -> seqZ 0 (n + 1) = seqZ 0 n ++ [n].
Proof. intros Hn. rewrite seqZ_app by lia. f_equal. Qed.

(** An entry at the head. *)
Lemma waiting_push p p' i : backlog_ok p -> (p_head p + 1) mod zlen (p_backlog p) <> p_tail p ->
  p_backlog p' = <[Z.to_nat (p_head p) := Some i]> (p_backlog p) -> p_head p' = (p_head p + 1) mod zlen (p_backlog p) ->
  p_tail p' = p_tail p -> backlog_ok p' /\ waiting p' = waiting p ++ [Some i] /\ zlen (waiting p) < zlen (p_backlog p) - 1.
Proof.
  intros (Hn & Hh & Ht) Hf Eb Eh Et. set (n := zlen (p_backlog p)) in *.
  assert (En : zlen (p_backlog p') = n) by (unfold n, zlen; by rewrite Eb, length_insert).
  pose proof (Z.mod_pos_bound (p_head p + 1) n ltac:(lia)) as Hb.
  assert (W : waiting_count p < n - 1).
  { unfold waiting_count. fold n. pose proof (Z.mod_pos_bound (p_head p - p_tail p) n ltac:(lia)).
    destruct (decide ((p_head p - p_tail p) mod n = n - 1)) as [E|]; [|lia]. exfalso. apply Hf.
    replace (p_head p + 1) with (p_tail p + ((p_head p - p_tail p) + 1)) by lia.
    rewrite <-Zplus_mod_idemp_r, <-(Zplus_mod_idemp_l (p_head p - p_tail p)), E.
    replace (n - 1 + 1) with n by lia. rewrite Z_mod_same_full, Z.add_0_r. by apply Z.mod_small. }
  assert (W' : waiting_count p' = waiting_count p + 1).
  { unfold waiting_count in *. rewrite En, Eh, Et. fold n in W |- *. rewrite Zminus_mod_idemp_l.
    replace (p_head p + 1 - p_tail p) with (p_head p - p_tail p + 1) by lia.
    rewrite <-Zplus_mod_idemp_l. apply Z.mod_small. pose proof (Z.mod_pos_bound (p_head p - p_tail p) n ltac:(lia)). lia. }
  assert (W0 : 0 <= waiting_count p) by (unfold waiting_count; apply Z.mod_pos_bound; fold n; lia).
  assert (Hk : forall k, 0 <= k <= waiting_count p -> (p_tail p + k) mod n = p_head p <-> k = waiting_count p).
  { intros k Hk. split.
    - intros E. unfold waiting_count. fold n. rewrite <-E, Zminus_mod_idemp_l. replace (p_tail p + k - p_tail p) with k by lia.
      symmetry. apply Z.mod_small. lia.
    - intros ->. unfold waiting_count. fold n. rewrite Zplus_mod_idemp_r. replace (p_tail p + (p_head p - p_tail p)) with (p_head p) by lia.
      by apply Z.mod_small. }
  split; [unfold backlog_ok; rewrite En, Eh, Et; lia|]. split; [|rewrite waiting_length by (fold n; lia); exact W].
  unfold waiting. rewrite W', seqZ_snoc, fmap_app by done. f_equal.
  - apply list_fmap_ext. intros j k [-> Hj]%lookup_seqZ. unfold entry. rewrite En, Et, Eb. fold n.
    rewrite list_lookup_insert_ne; [done|]. pose proof (Hk (0 + Z.of_nat j) ltac:(lia)) as [E _].
    pose proof (Z.mod_pos_bound (p_tail p + (0 + Z.of_nat j)) n ltac:(lia)). intros F. apply Z2Nat.inj in F; [|lia..]. lia.
  - simpl. f_equal. unfold entry. rewrite En, Et, Eb. rewrite (proj2 (Hk (waiting_count p) ltac:(lia)) eq_refl).
    rewrite list_lookup_insert_eq; [done|]. unfold n, zlen in *. lia.
Qed.
(** No room at the head. *)
Lemma waiting_full p : backlog_ok p -> p_tail p = (p_head p + 1) mod zlen (p_backlog p) -> waiting_count p = zlen (p_backlog p) - 1.
Proof.
  intros (Hn & Hh & Ht) E. set (n := zlen (p_backlog p)) in *. unfold waiting_count. fold n. rewrite E, Zminus_mod_idemp_r.
  replace (p_head p - (p_head p + 1)) with (n - 1 + (-1) * n) by lia. rewrite Z_mod_plus_full. apply Z.mod_small. lia.
Qed.
(** The entry at the tail is taken. *)
Lemma waiting_pop p p' : backlog_ok p -> waiting p <> [] ->
  p_backlog p' = p_backlog p -> p_head p' = p_head p -> p_tail p' = (p_tail p + 1) mod zlen (p_backlog p) ->
  backlog_ok p' /\ waiting p = default None (p_backlog p !! Z.to_nat (p_tail p)) :: waiting p'.
Proof.
  intros (Hn & Hh & Ht) Hw Eb Eh Et. set (n := zlen (p_backlog p)) in *.
  pose proof (Z.mod_pos_bound (p_tail p + 1) n ltac:(lia)) as Hb.
  assert (W0 : 0 < waiting_count p < n).
  { pose proof (Z.mod_pos_bound (p_head p - p_tail p) n ltac:(lia)) as B. unfold waiting_count. fold n.
    destruct (decide ((p_head p - p_tail p) mod n = 0)) as [E|]; [|lia]. exfalso. apply Hw. unfold waiting, waiting_count. fold n. by rewrite E. }
  assert (W' : waiting_count p' = waiting_count p - 1).
  { unfold waiting_count in *. rewrite Eb, Eh, Et. fold n in W0 |- *. rewrite Zminus_mod_idemp_r.
    replace (p_head p - (p_tail p + 1)) with (p_head p - p_tail p - 1) by lia.
    rewrite <-Zminus_mod_idemp_l. apply Z.mod_small. lia. }
  split; [unfold backlog_ok; rewrite Eb, Eh, Et; fold n; lia|]. unfold waiting. rewrite W', seqZ_cons by lia. simpl. f_equal.
  - unfold entry. fold n. rewrite Z.add_0_r. by rewrite (Z.mod_small (p_tail p)).
  - replace (Z.succ 0) with (1 + 0) by lia. rewrite <-fmap_add_seqZ. replace (Z.pred (waiting_count p)) with (waiting_count p - 1) by lia.
    rewrite <-list_fmap_compose. apply list_fmap_ext. intros j k _. unfold entry, compose. rewrite Eb, Et. fold n.
    rewrite Zplus_mod_idemp_l. do 4 f_equal. lia.
Qed.

(** ** What leaves a block as it is *)

Definition still (j : Z) (p : tcp_pcb) (l : list Z) (s : tcp_system) : Prop := block j s = Some p /\ t_posts s = l.
Section still.
Context `{MbufConfig} (j : Z) (p : tcp_pcb) (l : list Z).
Lemma still_rd {A} i (f : lens tcp_pcb A) : keeps (still j p l) (rd_blk i f).
Proof. intros s Hs a s'. unfold rd_blk. by destruct (block i s); [intros [= <- <-]|]. Qed.
Lemma still_set i q q' s : j <> i -> block i s = Some q' -> still j p l s -> still j p l (set_block i q s).
Proof. intros Hi B [Hb Hp]. split; [|exact Hp]. rewrite (block_set _ _ _ _ _ B), decide_False by done. done. Qed.
Lemma still_wr {A} i (f : lens tcp_pcb A) v : j <> i -> keeps (still j p l) (wr_blk i f v).
Proof.
  intros Hi s Hs a s'. unfold wr_blk, get_blk, put_blk, bind. destruct (block i s) as [q|] eqn:E; [|done]. rewrite E.
  intros [= <- <-]. by eapply still_set.
Qed.
Lemma still_on {A} i (c : C A) : j <> i -> keeps (still j p l) (on_blk i c).
Proof.
  intros Hi s Hs a s'. unfold on_blk. destruct (block i s) as [q|] eqn:E; [|done]. destruct (c _) as [[x k]|]; [|done].
  intros [= <- <-]. exact (still_set i (c_tp k) q s Hi E Hs).
Qed.
Lemma still_net {A} (c : M (nets segment) A) : keeps (still j p l) (on_net c).
Proof. intros s Hs a s'. unfold on_net. by destruct (c _) as [[x n]|]; [intros [= <- <-]|]. Qed.
Lemma still_put {A} (f : lens tcp_system A) v :
  (forall s, t_pool (lset f v s) = t_pool s /\ t_posts (lset f v s) = t_posts s) -> keeps (still j p l) (put f v).
Proof. intros Hf s [Hb Hp] a s' [= <- <-]. destruct (Hf s) as [E1 E2]. split; [unfold block in *; by rewrite E1|by rewrite E2]. Qed.
End still.
#[export] Hint Resolve still_rd still_net : keep.
#[export] Hint Extern 1 (keeps (still _ _ _) (put _ _)) => (apply still_put; by intros) : keep.
#[export] Hint Extern 1 (keeps (still _ _ _) (wr_blk _ _ _)) => (apply still_wr; done) : keep.
#[export] Hint Extern 1 (keeps (still _ _ _) (on_blk _ _)) => (apply still_on; done) : keep.

Section backlog.
Context `{MbufConfig}.
Definition next_head (p : tcp_pcb) : Z := if p_head p + 1 =? zlen (p_backlog p) then 0 else p_head p + 1.
(** The operating system gives a condition variable. *)
Definition has_cond (s : tcp_system) : bool := match t_os s with [] => false | x :: _ => 0 <=? x end.
Definition pushed (p : tcp_pcb) (i : Z) : tcp_pcb :=
  lset f_head (next_head p)
    (lset f_backlog (<[Z.to_nat (p_head p) := Some i]> (p_backlog p)) p).

Lemma rd_still {A B} j (f : lens tcp_pcb A) (k : A -> Y B) p l R :
  post (still j p l) (k (lget f p)) R -> post (still j p l) (bind (rd_blk j f) k) R.
Proof. intros Hk s Hs. apply pw_bind. intros a s'. unfold rd_blk. destruct Hs as [E F]. rewrite E. intros [= <- <-]. by apply Hk. Qed.
Lemma wr_still {A B} j (f : lens tcp_pcb A) v (k : unit -> Y B) p l R :
  post (still j (lset f v p) l) (k tt) R -> post (still j p l) (bind (wr_blk j f v) k) R.
Proof.
  intros Hk s [E F]. apply pw_bind. intros a s'. unfold wr_blk, get_blk, put_blk, bind. rewrite E, E. intros [= <- <-]. apply Hk.
  split; [|exact F]. by rewrite (block_set _ _ _ _ _ E), decide_True by done.
Qed.
Lemma post_still {B} j (k : Y B) p l R : post (still j p l) k R -> forall s, still j p l s -> pw k R s.
Proof. done. Qed.

(** The end of [tcp_passive_open]. *)
Lemma push_still mux i b nh p l :
  post (still mux p l)
    (h <- rd_blk mux f_head;; wr_blk mux f_backlog (<[Z.to_nat h := Some i]> b);;; wr_blk mux f_head nh;;;
     sem <- rd_blk mux f_cond;; sem_post sem;;; ret (Some i))
    (fun r s' => r = Some i /\ still mux (lset f_head nh (lset f_backlog (<[Z.to_nat (p_head p) := Some i]> b) p)) (l ++ [p_cond p]) s').
Proof.
  apply rd_still, wr_still, wr_still, rd_still. intros s [E F] r s' [= <- <-]. split; [done|]. split; [exact E|]. simpl in *. by rewrite F.
Qed.
Lemma new_posts w s r s' : tcp_pcb_new (lst w) s = Some (r, s') -> t_posts s' = t_posts s.
Proof.
  unfold tcp_pcb_new, pcb_remove_head, pcb_insert, put_blk, bind, get, put, ret. simpl. destruct (t_free s) as [|i q]; [by intros [= <- <-]|].
  destruct (block i _); [|done]. intros [= <- <-]. by destruct w.
Qed.
Lemma passive_spec mux th s p : whole s -> mux ∈ t_listen s -> block mux s = Some p ->
  pw (tcp_passive_open mux th) (fun r s' =>
    match r with
    | None => still mux p (t_posts s) s' /\
        (p_tail p = next_head p \/ has_cond s = false \/ t_free s = [])
    | Some i => i ∈ t_free s /\ p_tail p <> next_head p /\ has_cond s = true /\
        still mux (pushed p i) (t_posts s ++ [p_cond p]) s'
    end) s.
Proof.
  intros W Hm B. assert (S : still mux p (t_posts s) s) by done. unfold tcp_passive_open.
  do 3 (apply pw_bind; intros ? ? Er; unfold rd_blk in Er; rewrite B in Er; injection Er as <- <-). simpl.
  fold (next_head p). destruct (Z.eqb_spec (p_tail p) (next_head p)) as [|Hf]; [apply pw_ret; split; [done|by left]|].
  apply pw_bind. intros cond s1 Ea.
  assert (S1 : still mux p (t_posts s) s1) by (refine ((_ : keeps (still mux p (t_posts s)) os_alloc) _ S _ _ Ea); unfold os_alloc; keep).
  assert (C1 : core s1 = core s /\ has_cond s = negb (cond <? 0)).
  { unfold has_cond. unfold os_alloc, bind, get, put, ret in Ea. simpl in Ea.
    destruct (t_os s); injection Ea as <- <-; (split; [done|]); [done|by rewrite Z.leb_antisym]. }
  destruct C1 as [C1 Hc]. revert Hc.
  destruct (_ <? _); intros Hc; [apply pw_ret; split; [done|by right; left]|]. assert (W1 : whole s1) by (by apply (inv_core _ _ s)).
  apply pw_bind. intros r s2 En. pose proof (new_posts InActive _ _ _ En) as Ep. apply (new_spec InActive) in En; [|done|exact (proj1 W1)].
  assert (Ef : t_free s1 = t_free s) by (unfold core in C1; congruence).
  destruct r as [i|]; [|destruct En as [-> E0]; apply pw_ret; split; [done|right; right; congruence]].
  destruct En as (_ & _ & Hi & _ & Hb & _). rewrite Ef in Hi.
  assert (Hne : mux <> i).
  { intros <-. by pose proof (listed_unique _ _ (proj1 W) mux InListen InFree Hm Hi). }
  assert (S2 : still mux p (t_posts s) s2) by (destruct S1 as [B1 P1]; split; [by rewrite Hb|by rewrite Ep]).
  eapply (post_still mux); [|exact S2]. clear -Hi Hf Hne Hm Hc.
  repeat lazymatch goal with
    | |- post _ (bind (rd_blk mux f_head) _) _ => fail
    | |- post _ (bind _ _) _ => apply post_bind; [keep|intros ?]
    end.
  eapply post_mono; [apply push_still|]. intros r s' [-> S']. split; [done|]. split; [done|]. split; [exact Hc|exact S'].
Qed.

(** ** An open that is not refused ends

    What is there stays there: the two blocks and the network. *)
Definition ends_in {A} (I : tcp_system -> Prop) (c : Y A) : Prop := forall s, I s -> wp c (fun _ s' => I s') s.
Definition there (mux i : Z) (n : nets segment) (s : tcp_system) : Prop :=
  is_Some (block mux s) /\ is_Some (block i s) /\ t_nets s = n.
Section ends.
Context (mux i : Z) (n : nets segment).
#[local] Abbreviation I := (there mux i n).
Lemma ends_ret {A} (a : A) : ends_in I (ret a).
Proof. intros s Hs. by apply wp_ret. Qed.
Lemma ends_bind {A B} (c : Y A) (k : A -> Y B) : ends_in I c -> (forall a, ends_in I (k a)) -> ends_in I (bind c k).
Proof. intros Hc Hk s Hs. apply wp_bind. eapply wp_mono; [by apply Hc|]. intros a s' Hs'. by apply Hk. Qed.
Lemma ends_when b c : ends_in I c -> ends_in I (when b c).
Proof. intros Hc. destruct b; [exact Hc|apply ends_ret]. Qed.
Lemma ends_get {A} (f : lens tcp_system A) : ends_in I (get f).
Proof. intros s Hs. by apply wp_get. Qed.
Lemma ends_iss v : ends_in I (put s_iss v).
Proof. intros s Hs. by apply wp_put. Qed.
Lemma ends_post x : ends_in I (sem_post x).
Proof. intros s Hs. by apply wp_bind, wp_get, wp_put. Qed.
Lemma ends_rd {A} j (f : lens tcp_pcb A) : j = mux \/ j = i -> ends_in I (rd_blk j f).
Proof. intros Hj s Hs. pose proof Hs as ([p Bp] & [q Bq] & _). unfold wp, rd_blk. destruct Hj as [-> | ->]; by rewrite ?Bp, ?Bq. Qed.
Lemma ends_wr {A} j (f : lens tcp_pcb A) v : j = mux \/ j = i -> ends_in I (wr_blk j f v).
Proof.
  intros Hj s Hs. pose proof Hs as (Bp & Bq & En). unfold wp, wr_blk, get_blk, put_blk, bind.
  assert (is_Some (block j s)) as [p E] by (destruct Hj as [-> | ->]; done). rewrite E, E.
  split; [|split; [|exact En]]; rewrite (block_set _ _ _ _ _ E); by destruct (decide _).
Qed.
Lemma ends_mtu rt : routed n -> Route.used (Route.slot (n_routes n) rt) = true -> ends_in I (on_net (rt_mtu rt)).
Proof.
  intros R U s (Bp & Bq & En). unfold wp, on_net. rewrite En. destruct (rt_mtu_runs n rt R U) as (m & n' & E & ->).
  rewrite E. by repeat split.
Qed.
End ends.
Create HintDb ends.
#[local] Hint Resolve ends_ret ends_get ends_iss ends_post ends_mtu lookup_used : ends.
#[local] Hint Extern 1 (ends_in _ (rd_blk _ _)) => (apply ends_rd; by auto) : ends.
#[local] Hint Extern 1 (ends_in _ (wr_blk _ _ _)) => (apply ends_wr; by auto) : ends.
Ltac ends_step :=
  match goal with
  | |- ends_in _ (let _ := _ in _) => cbv zeta
  | |- ends_in _ (bind _ _) => apply ends_bind; [|intros ?]
  | |- ends_in _ (when _ _) => apply ends_when
  | |- ends_in _ _ => solve [eauto with ends]
  end.

(** The routing table is that of the network. *)
Lemma ends_routes {B} mux i n (k : list Route.route -> Y B) :
  ends_in (there mux i n) (k (n_routes n)) -> ends_in (there mux i n) (bind (on_net (get routes)) k).
Proof.
  intros Hk s Hs. pose proof Hs as (Bp & Bq & En). apply wp_bind. unfold wp, on_net. simpl. rewrite En.
  apply Hk. by repeat split.
Qed.
Lemma ends_all {A} mux i n (c : Y A) s : ends_in (there mux i n) c -> there mux i n s -> wp c (fun _ s' => there mux i n s') s.
Proof. intros Hc. apply Hc. Qed.
Lemma new_ends s : whole s -> exists r s', tcp_pcb_new l_active s = Some (r, s') /\ t_nets s' = t_nets s.
Proof.
  intros [L _]. unfold tcp_pcb_new, pcb_remove_head, pcb_insert, bind, get, put, ret. simpl.
  destruct (t_free s) as [|i q] eqn:E; [by do 2 eexists|]. unfold put_blk.
  assert (Hi : 0 <= i < NET_TCP_PCB_ACTIVE_MAX) by (apply (listed_range None s L i InFree); simpl; rewrite E; by left).
  match goal with |- context [block i ?s0] => assert (Hb : is_Some (block i s0)) end.
  { unfold block. rewrite (proj2 (Z.ltb_ge i 0)) by lia. apply lookup_lt_is_Some. simpl. rewrite (ls_pool _ _ L). lia. }
  destruct Hb as [p ->]. by do 2 eexists.
Qed.
Lemma passive_ends mux th s p : whole s -> block mux s = Some p -> opt_len th = 0 -> routed (t_nets s) ->
  exists r s', tcp_passive_open mux th s = Some (r, s').
Proof.
  intros W B Ho R. cut (wp (tcp_passive_open mux th) (fun _ _ => True) s).
  { intros Hw. destruct (wp_some _ _ _ Hw) as (r & s' & E & _). eauto. }
  unfold tcp_passive_open. do 3 (apply wp_bind; unfold wp at 1, rd_blk at 1; rewrite B). cbv zeta.
  destruct (_ =? _); [by apply wp_ret|].
  assert (exists cond s1, os_alloc s = Some (cond, s1) /\ core s1 = core s /\ t_nets s1 = t_nets s) as (cond & s1 & Ea & C1 & N1).
  { unfold os_alloc, bind, get, put, ret. simpl. destruct (t_os s); by do 2 eexists. }
  apply wp_bind. unfold wp at 1. rewrite Ea. destruct (_ <? _); [by apply wp_ret|].
  assert (W1 : whole s1) by (by apply (inv_core _ _ s)).
  apply wp_bind. destruct (new_ends s1 W1) as (r & s2 & En & N2). unfold wp at 1. rewrite En.
  destruct r as [i|]; [|by apply wp_ret].
  pose proof (new_spec InActive _ _ _ ltac:(done) (proj1 W1) En) as (_ & _ & Hi & Hb & Ho2 & _).
  assert (S2 : there mux i (t_nets s) s2).
  { split; [|split; [by rewrite Hb|congruence]]. destruct (decide (mux = i)) as [->|Hne]; [by rewrite Hb|].
    rewrite Ho2 by done. assert (t_pool s1 = t_pool s) as Ep by (unfold core in C1; congruence).
    unfold block in *. rewrite Ep, B. done. }
  eapply wp_mono; [|done]. eapply (ends_all mux i (t_nets s)); [|exact S2].
  do 7 (apply ends_bind; [eauto with ends|intros ?]). apply ends_routes.
  apply ends_bind; [|intros ?].
  { destruct (Route.__route_lookup _ _) as [rt|] eqn:El; repeat ends_step. }
  rewrite Ho. change (negb (0 =? 0)) with false. unfold when at 2. repeat ends_step.
Qed.

Lemma sem_take_eq x s :
  sem_take x s = match unlink x (t_posts s) with Some l => Some (true, lset s_posts l s) | None => Some (false, s) end.
Proof. unfold sem_take, bind, get, put, ret. simpl. by destruct (unlink x (t_posts s)). Qed.
Lemma accept_taken mux p l : p_state p = TCPS_LISTEN ->
  post (still mux p l)
    (st <- rd_blk mux f_state;;
     if negb (st =? TCPS_LISTEN) then ret (ARet None)
     else
       tail <- rd_blk mux f_tail;; b <- rd_blk mux f_backlog;;
       wr_blk mux f_tail (if tail + 1 =? zlen b then 0 else u8 (tail + 1));;;
       ret (ARet (default None (b !! Z.to_nat tail))))
    (fun r s' => r = ARet (default None (p_backlog p !! Z.to_nat (p_tail p))) /\
       still mux (lset f_tail (if p_tail p + 1 =? zlen (p_backlog p) then 0 else u8 (p_tail p + 1)) p) l s').
Proof.
  intros Es. assert (E : lget f_state p = TCPS_LISTEN) by exact Es. apply rd_still. rewrite E. change (negb _) with false. cbv iota.
  apply rd_still, rd_still, wr_still, post_ret. intros s S. by split.
Qed.

(** C28. The backlog of a listening block is a queue of [t_max - 1] connections,
    with a signal of the semaphore for each. A segment that opens a connection
    puts its block, a free one, at the end, unless the queue is full, the
    operating system has no condition variable or no block is free; it is then
    refused and the queue is as before. Opening ends in one of these ways for
    every segment without options, when the routes lead to interfaces that are
    there. A call of [tcp_accept] that neither waits nor fails to wait takes the
    first connection; one that waits or fails takes none. ([tcp_accept_tmo]
    does not take the first one: [accept_tmo_takes_head].) *)
Theorem backlog_is_fifo s mux p : whole s -> mux ∈ t_listen s -> block mux s = Some p -> backlog_ok p -> signals s p = zlen (waiting p) ->
  (forall th r s', tcp_passive_open mux th s = Some (r, s') ->
    exists p', block mux s' = Some p' /\ backlog_ok p' /\ signals s' p' = zlen (waiting p') /\
      let room := zlen (waiting p) < zlen (p_backlog p) - 1 in
      match r with
      | Some i => i ∈ t_free s /\ waiting p' = waiting p ++ [Some i] /\ room /\ has_cond s = true
      | None => p' = p /\ (~ room \/ has_cond s = false \/ t_free s = [])
      end) /\
  (forall th, opt_len th = 0 -> routed (t_nets s) -> exists r s', tcp_passive_open mux th s = Some (r, s')) /\
  (forall fails r s', tcp_accept mux fails s = Some (r, s') ->
    exists p', block mux s' = Some p' /\ backlog_ok p' /\ signals s' p' = zlen (waiting p') /\
      if fails then r = ARet None /\ p' = p else
      match r with
      | ARet c => waiting p = c :: waiting p'
      | AWait => s' = s /\ waiting p = []
      end).
Proof.
  intros W Hm B O Sg. pose proof O as (Hn & Hh & Ht). split; [|split].
  - intros th r s' E. apply (passive_spec mux th s p W Hm B) in E. unfold next_head in E. destruct r as [i|].
    + destruct E as (Hi & Hf & Hc & B' & P'). exists (pushed p i). unfold pushed, next_head in *. rewrite next_mod in * by done.
      destruct (waiting_push p (pushed p i) i O) as (O' & Ew & Hl); [by intros F; apply Hf|done|unfold pushed, next_head; simpl; by apply next_mod|done|].
      unfold pushed, next_head in O', Ew. rewrite next_mod in O', Ew by done.
      split; [exact B'|]. split; [exact O'|]. split; [|by repeat split].
      rewrite Ew, zlen_app. unfold signals in *. rewrite P'. simpl. rewrite filter_app, zlen_app, Sg, filter_cons_True by done. done.
    + destruct E as [[B' P'] Hw]. exists p. split; [exact B'|]. split; [exact O|]. split; [unfold signals; by rewrite P'|].
      split; [done|]. destruct Hw as [Ef|Hw]; [left|by right]. rewrite next_mod in Ef by done.
      rewrite waiting_length by lia. rewrite (waiting_full p O Ef). lia.
  - intros th. by apply (passive_ends mux th s p).
  - intros fails r s'. unfold tcp_accept. unfold bind at 1, rd_blk at 1. rewrite B. destruct fails.
    { intros [= <- <-]. exists p. split; [exact B|]. split; [exact O|]. by split. }
    change (lget f_cond p) with (p_cond p). unfold bind at 1. rewrite sem_take_eq.
    destruct (unlink (p_cond p) (t_posts s)) as [l|] eqn:E.
    + apply unlink_perm in E.
      assert (Es : p_state p = TCPS_LISTEN).
      { rewrite <-(block_blk _ _ _ B). exact (ls_fits _ _ (proj1 W) InListen mux ltac:(done) Hm). }
      assert (Sl : zlen (filter (fun x => x = p_cond p) l) = zlen (waiting p) - 1).
      { unfold signals in Sg. rewrite <-Sg. unfold zlen. rewrite E, filter_cons_True by done. simpl. lia. }
      intros Er. apply (accept_taken mux p l Es (lset s_posts l s) (conj B eq_refl)) in Er as [-> [B' P']].
      eexists. split; [exact B'|]. assert (Et : u8 (p_tail p + 1) = p_tail p + 1) by (apply u8_small; unfold TCP_BACKLOG_MAX in Hn; lia).
      rewrite Et in *. rewrite next_mod in * by done. 
      destruct (waiting_pop p (lset f_tail ((p_tail p + 1) mod zlen (p_backlog p)) p) O) as [O' Ew]; [|done..|].
      { intros F. rewrite F in Sl. pose proof (zlen_nonneg (filter (fun x => x = p_cond p) l)). unfold zlen in *. simpl in *. lia. }
      split; [exact O'|]. split; [|exact Ew]. unfold signals. rewrite P'. simpl. rewrite Sl, Ew. unfold zlen. simpl. lia.
    + apply unlink_none in E. intros [= <- <-]. exists p. do 3 (split; [done|]). split; [done|].
      destruct (waiting p) as [|c q]; [done|]. exfalso. unfold signals in Sg.
      destruct (filter (fun x => x = p_cond p) (t_posts s)) as [|x f] eqn:F; [done|].
      assert (Hx : x ∈ filter (fun x => x = p_cond p) (t_posts s)) by (rewrite F; left).
      apply list_elem_of_filter in Hx as [-> Hx]. done.
Qed.
End backlog.

(** ** Ports *)

Section ports.
(** An address and a port that a listening or a closed block has. *)
Definition taken (addr port : Z) (s : tcp_system) : bool :=
  existsb (fun j => exact INADDR_ANY 0 addr port (blk j s)) (t_listen s ++ t_closed s).
Definition port_at (n k : Z) : Z := NTOHS (Z.land (n + k) 0x7fff + 1024).

Lemma find_existsb {A} (f : A -> bool) l : match List.find f l with Some _ => true | None => false end = existsb f l.
Proof. induction l as [|x l IH]; simpl; [done|]. by destruct (f x). Qed.
Lemma can_bind_eq addr port s : can_bind addr port s = Some (negb (taken addr port s), s).
Proof.
  unfold can_bind, pcb_lookup, taken, bind, ret. simpl. rewrite existsb_app, <-!find_existsb.
  destruct (List.find _ (t_listen s)); [done|]. by destruct (List.find _ (t_closed s)).
Qed.

Lemma land_7fff x : Z.land x 0x7fff = x mod 2 ^ 15.
Proof. exact (Z.land_ones x 15 ltac:(lia)). Qed.
Lemma ntohs_val x : 0 <= x < 2 ^ 16 -> NTOHS x = x mod 2 ^ 8 * 2 ^ 8 + x / 2 ^ 8.
Proof.
  intros Hx. unfold NTOHS. change 0x00ff with (Z.ones 8). rewrite Z.land_ones by lia.
  change 0xff00 with (Z.shiftl (Z.ones 8) 8). assert (E : Z.shiftr (Z.land x (Z.shiftl (Z.ones 8) 8)) 8 = x / 2 ^ 8).
  { rewrite Z.shiftr_land, Z.shiftr_shiftl_l, Z.shiftl_0_r, Z.land_ones, Z.shiftr_div_pow2 by lia. apply Z.mod_small. lia. }
  rewrite E, Z.shiftl_mul_pow2 by lia. apply u16_small. pose proof (Z.mod_pos_bound x (2 ^ 8)). lia.
Qed.
Lemma ntohs_inj x y : 0 <= x < 2 ^ 16 -> 0 <= y < 2 ^ 16 -> NTOHS x = NTOHS y -> x = y.
Proof.
  intros Hx Hy. rewrite !ntohs_val by done. pose proof (Z.div_mod x (2 ^ 8)). pose proof (Z.div_mod y (2 ^ 8)).
  pose proof (Z.mod_pos_bound x (2 ^ 8)). pose proof (Z.mod_pos_bound y (2 ^ 8)). lia.
Qed.
Lemma port_at_range n k : 0 <= Z.land (n + k) 0x7fff + 1024 < 2 ^ 16.
Proof. rewrite land_7fff. pose proof (Z.mod_pos_bound (n + k) (2 ^ 15)). lia. Qed.
Lemma port_at_inj n j k : 0 <= j < 2 ^ 15 -> 0 <= k < 2 ^ 15 -> port_at n j = port_at n k -> j = k.
Proof.
  intros Hj Hk E. apply ntohs_inj in E; [|apply port_at_range..]. rewrite !land_7fff in E. assert (F : (n + j) mod 2 ^ 15 = (n + k) mod 2 ^ 15) by lia.
  rewrite <-(Z.mod_small j (2 ^ 15)), <-(Z.mod_small k (2 ^ 15)) by done.
  replace j with (n + j - n) by lia. replace k with (n + k - n) by lia. by rewrite <-(Zminus_mod_idemp_l (n + j)), F, Zminus_mod_idemp_l.
Qed.

Lemma forallb_false {A} (f : A -> bool) l : forallb f l = false -> exists x, x ∈ l /\ f x = false.
Proof.
  induction l as [|x l IH]; simpl; [done|]. intros [E|E]%andb_false_iff; [exists x; split; [left|done]|].
  destruct (IH E) as (y & Hy & Ey). exists y. split; [by right|done].
Qed.
(** Of more ports than there are blocks one is free. *)
Lemma port_free addr s m : whole s -> NET_TCP_PCB_ACTIVE_MAX < m <= 2 ^ 15 ->
  exists k, 0 <= k < m /\ taken addr (port_at (t_port_seq s) k) s = false.
Proof.
  intros [L _] Hm. destruct (forallb (fun k => taken addr (port_at (t_port_seq s) k) s) (seqZ 0 m)) eqn:F.
  - exfalso. assert (N : NoDup (port_at (t_port_seq s) <$> seqZ 0 m)).
    { apply NoDup_fmap_2_strong; [|apply NoDup_seqZ]. intros j k Hj%elem_of_seqZ Hk%elem_of_seqZ E. eapply port_at_inj; [lia..|exact E]. }
    assert (B : (port_at (t_port_seq s) <$> seqZ 0 m) ⊆+ ((fun j => p_lport (blk j s)) <$> blocks s)).
    { apply NoDup_submseteq; [exact N|]. intros x (k & -> & Hk)%list_elem_of_fmap.
      rewrite forallb_forall in F. specialize (F k (proj1 (list_elem_of_In _ _) Hk)). unfold taken in F.
      apply existsb_exists in F as (j & Hj%list_elem_of_In & Ej). unfold exact in Ej. rewrite !andb_true_iff in Ej.
      destruct Ej as [[[Ej%Z.eqb_eq _] _] _]. rewrite <-Ej. apply list_elem_of_fmap. exists j. split; [done|].
      unfold blocks. rewrite !elem_of_app in *. tauto. }
    apply submseteq_length in B. rewrite !length_fmap, length_seqZ, (ls_one _ _ L), length_seqZ in B. unfold NET_TCP_PCB_ACTIVE_MAX in *. lia.
  - apply forallb_false in F as (k & Hk%elem_of_seqZ & Ek). exists k. split; [lia|done].
Qed.

Lemma taken_seq addr port v s : taken addr port (lset s_port_seq v s) = taken addr port s.
Proof. done. Qed.
Lemma port_at_next n k : port_at (u16 (n + 1)) k = port_at n (k + 1).
Proof.
  unfold port_at. rewrite !land_7fff. do 2 f_equal. unfold u16, wrap. rewrite <-Zplus_mod_idemp_l.
  rewrite Z.mod_mod_divide by (by exists 2). rewrite Zplus_mod_idemp_l. f_equal. lia.
Qed.
Lemma ephemeral_runs fuel addr : forall s, (exists k, 0 <= k < Z.of_nat fuel /\ taken addr (port_at (t_port_seq s) k) s = false) ->
  exists n v, let port := port_at n 0 in ephemeral fuel addr s = Some (port, lset s_port_seq v s) /\ taken addr port s = false.
Proof.
  induction fuel as [|fuel IH]; intros s (k & Hk & Ek); [lia|]. simpl. unfold bind, get, put. rewrite can_bind_eq. simpl lget.
  rewrite taken_seq. replace (NTOHS _) with (port_at (t_port_seq s) 0) by (unfold port_at; by rewrite Z.add_0_r).
  destruct (taken addr (port_at (t_port_seq s) 0) s) eqn:E0; simpl negb; cbv iota.
  - assert (k <> 0) by congruence. destruct (IH (lset s_port_seq (u16 (t_port_seq s + 1)) s)) as (n & v & Er & Et).
    + exists (k - 1). split; [lia|]. simpl t_port_seq. rewrite port_at_next, taken_seq. by replace (k - 1 + 1) with k by lia.
    + exists n, v. split; [exact Er|]. exact Et.
  - exists (t_port_seq s), (u16 (t_port_seq s + 1)). by split.
Qed.

Lemma ntohs_ntohs x : 0 <= x < 2 ^ 16 -> NTOHS (NTOHS x) = x.
Proof.
  intros Hx. pose proof (Z.div_mod x (2 ^ 8)) as Dx. pose proof (Z.mod_pos_bound x (2 ^ 8)) as Mx.
  pose proof (ntohs_val x Hx) as E. rewrite ntohs_val by lia.
  rewrite <-(Z.mod_unique_pos (NTOHS x) (2 ^ 8) (x mod 2 ^ 8) (x / 2 ^ 8)) by lia.
  rewrite <-(Z.div_unique_pos (NTOHS x) (2 ^ 8) (x mod 2 ^ 8) (x / 2 ^ 8)) by lia. lia.
Qed.
Lemma port_host n : NTOHS (port_at n 0) = n mod 2 ^ 15 + 1024.
Proof. unfold port_at. rewrite ntohs_ntohs by apply port_at_range. by rewrite land_7fff, Z.add_0_r. Qed.
Lemma bound_block s i p port addr : block i s = Some p ->
  exists s', (wr_blk i f_lport port;;; wr_blk i f_laddr addr;;; ret 0) s = Some (0, s') /\
    block i s' = Some (lset f_laddr addr (lset f_lport port p)) /\ forall j, j <> i -> block j s' = block j s.
Proof.
  intros B. pose proof (fun q j => block_set j q s i p B) as B1. set (s1 := set_block i (lset f_lport port p) s).
  assert (Bi : block i s1 = Some (lset f_lport port p)) by (unfold s1; by rewrite B1, decide_True by done).
  exists (set_block i (lset f_laddr addr (lset f_lport port p)) s1). split; [|split].
  - unfold wr_blk, get_blk, put_blk, bind, ret. rewrite B, B. fold s1. rewrite Bi, Bi. done.
  - by rewrite (block_set _ _ _ _ _ Bi), decide_True by done.
  - intros j Hj. rewrite (block_set _ _ _ _ _ Bi), decide_False by done. unfold s1. by rewrite B1, decide_False by done.
Qed.

(** C29. [tcp_bind] of a closed block, in every state that the calls lead to:
    with the port 0 it ends, and the block gets a port of the range, which
    no listening or closed block with the address has; with another port it
    gets that port, or nothing changes if it is taken. *)
Theorem bind_gives_port s i p addr port : whole s -> i ∈ t_closed s -> block i s = Some p ->
  exists r s', tcp_bind i addr port s = Some (r, s') /\
    if (port =? 0) || negb (taken addr port s) then
      r = 0 /\ exists q, (port <> 0 -> q = port) /\ (port = 0 -> 1024 <= NTOHS q <= 33791) /\ taken addr q s = false /\
        block i s' = Some (lset f_laddr addr (lset f_lport q p)) /\ forall j, j <> i -> block j s' = block j s
    else r = - EADDRINUSE /\ s' = s.
Proof.
  intros W Hi B. unfold tcp_bind. unfold bind at 1, pcb_find at 1. assert (Ef : existsb (Z.eqb i) (t_closed s) = true).
  { apply existsb_exists. exists i. rewrite Z.eqb_refl. split; [by apply list_elem_of_In|done]. }
  unfold bind at 1, get at 1, ret at 1. change (lget l_closed s) with (t_closed s). rewrite Ef. change (0 <? 0) with false. cbv iota. destruct (Z.eqb_spec port 0) as [->|Hp]; simpl orb.
  - destruct (ephemeral_runs 17 addr s) as (n & v & Er & Et).
    { destruct (port_free addr s 17 W) as (k & Hk & Ek); [unfold NET_TCP_PCB_ACTIVE_MAX; lia|]. exists k. split; [lia|done]. }
    change (Z.to_nat (2 * NET_TCP_PCB_ACTIVE_MAX + 1)) with 17%nat. unfold bind at 1, bind at 1. rewrite Er. unfold ret at 1.
    destruct (bound_block (lset s_port_seq v s) i p (port_at n 0) addr B) as (s' & Es & Bi & Bj). exists 0, s'. split; [exact Es|].
    split; [done|]. exists (port_at n 0). split; [by intros []|]. split; [|by split].
    intros _. rewrite port_host. pose proof (Z.mod_pos_bound n (2 ^ 15)). lia.
  - unfold bind at 1, bind at 1. rewrite can_bind_eq. destruct (taken addr port s) eqn:Et; simpl negb; cbv iota; unfold ret at 1.
    + by exists (- EADDRINUSE), s.
    + destruct (bound_block s i p port addr B) as (s' & Es & Bi & Bj). exists 0, s'. split; [exact Es|]. split; [done|]. by exists port.
Qed.
End ports.

(** ** Runs *)

(** Two connections wait for [tcp_accept]. *)
Definition two_wait : tcp_system := ran [Alloc; Bind 0 0 80; Listen 0 2; Segment (syn 1000); Segment (syn 1001)] booted.
Lemma backlog_is_fifo_witness :
  let p := blk 0 two_wait in
  whole two_wait /\ backlog_ok p /\ signals two_wait p = zlen (waiting p) /\ waiting p = [Some 1; Some 2] /\
  exists s' p', tcp_accept 0 false two_wait = Some (ARet (Some 1), s') /\ block 0 s' = Some p' /\ waiting p = Some 1 :: waiting p'.
Proof.
  intros p. assert (W : whole two_wait).
  { apply (calls_whole [Alloc; Bind 0 0 80; Listen 0 2; Segment (syn 1000); Segment (syn 1001)] booted); [|vm_compute; reflexivity|vm_compute; reflexivity].
    apply (init_whole boot); reflexivity. }
  assert (O : backlog_ok p) by (vm_compute; repeat split; discriminate).
  assert (G : signals two_wait p = zlen (waiting p)) by (vm_compute; reflexivity).
  split; [exact W|]. split; [exact O|]. split; [exact G|]. split; [vm_compute; reflexivity|].
  set (s' := match tcp_accept 0 false two_wait with Some (_, s) => s | None => two_wait end).
  assert (E : tcp_accept 0 false two_wait = Some (ARet (Some 1), s')) by (vm_compute; reflexivity).
  destruct (backlog_is_fifo two_wait 0 p W) as (_ & _ & A); [apply list_elem_of_In; vm_compute; by left|vm_compute; reflexivity|exact O|exact G|].
  destruct (A _ _ _ E) as (p' & B & _ & _ & Ew). exists s', p'. split; [exact E|]. by split.
Defined.
Lemma bind_gives_port_witness :
  let s := ran [Alloc; Bind 0 5 1; Alloc; Bind 1 5 2] booted in
  exists r s', tcp_bind 1 5 1 s = Some (r, s') /\ r = - EADDRINUSE.
Proof.
  intros s. assert (W : whole s).
  { apply (calls_whole [Alloc; Bind 0 5 1; Alloc; Bind 1 5 2] booted); [|vm_compute; reflexivity|vm_compute; reflexivity]. apply (init_whole boot); reflexivity. }
  destruct (bind_gives_port s 1 (blk 1 s) 5 1 W) as (r & s' & E & R); [apply list_elem_of_In; vm_compute; right; by left|vm_compute; reflexivity|].
  exists r, s'. split; [exact E|]. replace ((1 =? 0) || negb (taken 5 1 s)) with false in R by (vm_compute; reflexivity). apply R.
Defined.

(** ** Flaws *)

(** The entries move one after the other: when the third one is taken out, the
    second one is lost, and the first one is there twice. The block that is
    lost keeps its flag, and so is never put on the queue again. *)
Theorem dequeue_loses a b c r s :
  a <> c -> b <> c -> out_tail s = 0 -> out_head s = 3 -> out_tp s = Some a :: Some b :: Some c :: r -> length r = 5%nat ->
  tcp_output_dequeue c s = Some (tt, lset s_out (Some a :: Some a :: Some a :: r) (lset s_tail 1 s)) /\
  (has (p_flags (blk b s)) TF_NEEDOUTPUT = true -> is_Some (block b s) -> tcp_output_sched b s = Some (tt, s)).
Proof.
  intros Hac Hbc Et Eh Eo Hr. split.
  - unfold tcp_output_dequeue, bind, get, put, ret. simpl. rewrite Et, Eh, Eo.
    replace (Z.to_nat (u16 (3 - 0))) with 3%nat by reflexivity. unfold dequeue_loop, ring, NET_TCP_PCB_ACTIVE_MAX. simpl.
    rewrite !bool_decide_eq_false_2 by congruence. rewrite bool_decide_eq_true_2 by done. by rewrite <-Eh.
  - intros Hf [p B]. unfold tcp_output_sched, bind, rd_blk, ret. rewrite B. simpl. rewrite (block_blk _ _ _ B) in Hf. by rewrite Hf.
Qed.

(** A listening block frees the entries from its head on, which are those that
    were accepted long ago: with room for one connection, the accepted one is
    freed, the one that waits is not, and the block goes on listening. *)
Definition listener_closed : list call :=
  [Alloc; Bind 0 0 80; Listen 0 1; Segment (syn 1000); Accept 0 false; Segment (syn 1001)].
Theorem close_frees_accepted :
  let s := ran listener_closed booted in
  (t_listen s, t_active s, waiting (blk 0 s)) = ([0], [1; 2], [Some 2]) /\
  exists s', tcp_close 0 s = Some (-1, s') /\ (t_free s', t_listen s', t_active s') = ([3; 4; 5; 6; 7; 1], [0], [2]).
Proof. split; [vm_compute; reflexivity|]. eexists. split; vm_compute; reflexivity. Qed.
(** Where the entry at the head was never written it is a null pointer. *)
Theorem close_follows_null : tcp_close 0 two_wait = None.
Proof. vm_compute. reflexivity. Qed.

(** [tcp_accept_tmo] takes the entry at the head, the next one to be written. *)
Theorem accept_tmo_takes_head :
  waiting (blk 0 two_wait) = [Some 1; Some 2] /\ exists s', tcp_accept_tmo 0 false two_wait = Some (ARet None, s').
Proof. split; [vm_compute; reflexivity|]. eexists. vm_compute. reflexivity. Qed.

(** A connection that finds no free block keeps the condition variable that
    was taken for it. *)
Theorem open_leaks_cond :
  let s := lset s_os [7] (ran [Alloc; Bind 0 0 80; Listen 0 2; Alloc; Alloc; Alloc; Alloc; Alloc; Alloc; Alloc] booted) in
  exists s', tcp_passive_open 0 (syn 1000) s = Some (None, s') /\ t_os s' = [] /\ t_gone s' = [].
Proof. eexists. split; [|split]; vm_compute; reflexivity. Qed.

(** [tcp_connect] looks up the route to the address that the block had before:
    without a default route it fails for every address. *)
Theorem connect_looks_up_old :
  let net := mk_nets [Route.mk_route 2 0 0xff 1] (n_ifs (t_nets booted)) (n_arp (t_nets booted)) [] [] in
  let s := lset s_nets net (ran [Alloc] booted) in
  Route.__route_lookup (n_routes net) 2 = Some 0 /\ exists s', tcp_connect 0 2 80 s = Some (-1, s').
Proof. split; [vm_compute; reflexivity|]. eexists. vm_compute. reflexivity. Qed.

(** The condition variable of a refused connection is given back by
    [tcp_connect], and once more by [tcp_close]. *)
Definition refused : list call :=
  [Alloc; Bind 0 0 1024; Connect 0 2 80; Segment (Seg 2 1 80 1024 0 (2 ^ 20 + 1) 5 (Z.lor TH_RST TH_ACK) 0 [] 20); ConnectWait 0; Close 0].
Theorem refused_freed_twice : exists s, run_calls refused booted = Some (tt, s) /\ t_gone s = [10; 10].
Proof. eexists. split; vm_compute; reflexivity. Qed.

(** The loop of the idle timer ends with the block that it closes: the timers
    of those behind it do not go on in that round. *)
Definition idled_out (n : nat) : tcp_system :=
  ran ([Alloc; Bind 0 0 80; Listen 0 2; Segment (syn 1000); Segment (syn 1001)] ++ replicate n (Round true 1 1)) booted.
Theorem idle_loop_stops :
  (p_conn_tmr (blk 1 (idled_out 9)), p_conn_tmr (blk 2 (idled_out 9))) = (1, 1) /\
  (t_closed (idled_out 10), t_active (idled_out 10)) = ([1], [2]) /\ p_conn_tmr (blk 2 (idled_out 10)) = 1.
Proof. split; [|split]; vm_compute; reflexivity. Qed.
